(* ===== verification/_CoqProject ===== *)
-Q . S2P
Prelude.v
GoStrings.v
GoUtf8.v
GoPath.v
GoSha256.v
SingboxLog.v
SingboxParse.v
SingboxParseProps.v
SingboxMessages.v
SDK.v
TraceShed.v
SessionAsm.v
SessionAsmInv.v
SessionAsmSteps.v
SessionAsmProps.v
TracePolicy.v
TraceShip.v
TraceShipProps.v
Collector.v
CollectorRing.v
CollectorProps.v
TaskOutbox.v
TaskOutboxInv.v
TaskCycle.v
TaskCycleProps.v
LineFs.v
LineChain.v
LineMerge.v
LineChainInv.v
LineChainSteps.v
LineChainProps.v
LineChainLive.v
LineChainSample.v
GoRegexp.v
Witness.v
WitnessProps.v
Beacon.v
BeaconGuard.v
BeaconResponder.v
BeaconResponderProps.v
BeaconLoop.v
SshWatch.v
SshParse.v
SshPressure.v
MonitorResults.v
LogPolicy.v
LogTail.v
LogTailRun.v
LogRunProps.v
LogManagerProps.v
Prefetch.v
PrefetchProps.v
PrefetchRun.v
PrefetchRunProps.v
Icmp.v
Destination.v
DnsProbe.v
Probe.v
DnsProps.v
ProbeProps.v
Keepalive.v
KeepaliveProps.v
TaskExec.v
TaskExecProps.v
Terminal.v
TerminalStream.v
TerminalProps.v
TrustedExec.v
TrustedExecProps.v
LineAuthority.v
TaskWorker.v
BeaconClient.v
BeaconClientProps.v
SingboxApi.v
SingboxInventory.v
SingboxInventoryProps.v
ProxyUsage.v
GuardReality.v
HostFacts.v
AgentNode.v
