(* ===== verification/Prelude.v ===== *)
(** * A verification library for the Lattice node agent

    The agent runs on a node beside a sing-box core.  It leases tasks from the
    control plane, runs them in a sandbox and reports their results, applies
    line-chain configurations as crash-safe transactions, watches its peers,
    tails logs, probes monitors, prefetches its own updates, gives an operator a terminal, and traces the
    core's connections: it subscribes to the core's log stream, parses every line,
    assembles connection records, filters them by a policy and ships them.

    ** The parts and where they are modelled

    - Shared: [Prelude] (record update, machine integers, time, lists),
      [GoStrings] (the strings, strconv and time functions the
      agent uses), [SDK] (the types and vocabulary of the lattice-sdk module,
      which is not part of this repository: its constants are class
      parameters with the laws the agent relies on).
    - Log lines, src/internal/singboxlog: [SingboxLog] (types.go) and
      [SingboxParse] (parse.go; one function per Go function, a classifier
      returns [None] where the source returns false).  [SingboxParseProps] and
      [SingboxMessages]: escape stripping, addresses, header, elapsed times and
      every documented wording are read back as printed; whatever the input, a
      field is set only under the events it belongs to.
    - Budget guard, src/internal/traceshed/guard.go: [TraceShed].  A connection
      is shed whole, and stays shed; the ceiling is exact; losses are reported
      once; memory is bounded.
    - Assembler, src/internal/sessionasm/sessionasm.go: [SessionAsm], with the
      connections in an explicit heap because the source shares pointers
      between four indexes.  [SessionAsmInv] and [SessionAsmSteps] hold the
      invariant and the moves every operation is made of, [SessionAsmProps] the
      guarantees: well-formedness, conservation of connections, honesty of
      records, deadlines, order independence.
    - Policy, src/internal/tracepolicy/tracepolicy.go: [TracePolicy].  Matching
      is exact, the subscription level the least sufficient one, the merged
      policy stable between expiries.
    - Shipper, src/internal/traceship/traceship.go: [TraceShip] and
      [TraceShipProps], the callers interleaved with the flush cycle.  Every
      item is accounted for once, losses reach the server, a flush terminates
      and delivers in order, requests respect the byte budget, backoff.
    - Collector, src/cmd/lattice-agent/tracesource.go: [Collector] is the state
      under the collector's mutex and one function per critical section or
      hook; [CollectorProps] makes it a transition system.  The class
      [Tracker] states what it needs of the assembler, whose instance
      discharges it.  [CollectorRing] is the per-second line counter.
    - Task outbox, src/internal/taskoutbox/outbox.go: [TaskOutbox],
      [TaskOutboxInv]; task cycle, src/cmd/lattice-agent/main.go: [TaskCycle],
      [TaskCycleProps].  System calls happen, fail or kill the process as the
      environment decides; after a crash a name shows what it held in one of
      the directory states since the last sync.  A journaled task runs at most
      once, a lease has one verdict, the journal never wedges.
    - Line chain, src/internal/linechain: [GoPath] (path/filepath), [LineFs]
      (files whose changes are durable once their directory is synced, calls
      that happen, fail or kill the process; a crash leaves any mixture of what
      the names held), [LineChain] (manager.go and sidecar_patch.go: documents,
      merge, application, rollback, recovery, clean-up; error texts are
      abbreviated).  [LineMerge]: a merge changes one chain and nothing else.
      [LineChainInv] and [LineChainSteps]: the invariant of a transaction over
      everything its five names may hold, kept by every operation wherever it
      stops.  [LineChainProps] and [LineChainLive]: results are exact and
      stable, recovery ends.  [LineChainSample]: a codec, a transaction, and a
      run in which a handed-over result is contradicted after a power failure.
    - Witness, src/internal/witness: [Witness] (state.go, the loop of
      witness.go, config.go), [WitnessProps].  An outage is
      announced exactly when it is due, whatever restarts came before, and
      announcements and recoveries take turns.
    - Beacon, src/internal/beacon: [Beacon] (guard.go and the receive loop of
      responder.go), [BeaconGuard] and [BeaconLoop] (the breaker trips exactly
      on a flood, replies stay within the budgets), [BeaconResponder] and
      [BeaconResponderProps] (the responder with the sockets it opens, under
      every interleaving), [BeaconSample].
    - SSH watch, src/internal/sshwatch: [GoRegexp] (anchored patterns with
      leftmost-first matching), [SshWatch] (the patterns, both parsers, the
      aggregator), [SshParse] (no account name forges a record; text behind it
      can), [SshPressure] (counts, bounds and login annotations), [SshSample].
    - Monitor results, src/cmd/lattice-agent/monitor_results.go:
      [MonitorResults] (the queue, and the flush as the rounds between two
      answers; no result is lost unseen, a flush the server takes).
    - Log tail, src/internal/logtail and src/cmd/lattice-agent/logtail.go,
      logtail_policy.go: [LogPolicy] and [LogPolicyProps] (which files the node
      reads, whatever the server names and the file system does), [LogTail] (the
      tailer: every complete line of a growing file once
      and in order), [LogTailRun], [LogRunProps] and [LogManagerProps] (the
      loop with its buffer and checkpoints, and the reconciliation of the
      sources), [LogSample] (witnesses, and the runs in which lines are lost).
      [GoSha256] is crypto/sha256, executable.
    - Prefetch, src/internal/prefetch: [Prefetch] (the checks of a target and
      one attempt over the file at its name and a server), [PrefetchProps]
      (verified before it is complete, bounded, a beginning of the file at all
      times, and finished in the end), [PrefetchRun] (the prefetcher's critical
      sections), [PrefetchRunProps] (tasks and downloads never overlap, where it
      writes, when it retries).
    - Prober, src/internal/prober: [Icmp] (the echo run, its result and the
      capabilities of icmp.go), [IcmpProps] (only the target
      answers an echo; a run ends when it is due), [Destination]
      (destination.go, the tcp and http checks, the scrubbing of error texts),
      [DnsProbe] (dns.go), [Probe] (the dispatch of prober.go), [ProbeProps]
      (only judged addresses are reached, every address gets its share of the
      time), [DnsProps] (what a dns verdict rests on, bounded reports),
      [ProbeSample].  [GoUtf8] is decoding and cutting UTF-8.
    - Supervision, src/cmd/lattice-agent/keepalive.go and supervise.go:
      [Keepalive] (the health record, the watchdog, recovery before it is
      armed, the health marker), [KeepaliveProps] (the keepalive stops exactly
      for a stuck loop, a step's account is that of its outcomes),
      [KeepaliveSample].
    - Task executor, src/internal/taskexec: [TaskExec] (taskexec.go and
      taskexec_linux.go: gates, work directory, cgroup, command, shim, buffers,
      result), [TaskExecProps] (no script runs outside its sandbox, results are
      exact), [TaskExecSample].
    - Terminal, src/cmd/lattice-agent/terminal.go, terminal_stream.go,
      terminal_control.go and terminal_env.go: [Terminal] (sessions, both
      transports, the replay ring, frames, redialling, the control stream),
      [TerminalStream] (a browser and its connections over time: it shows the
      shell's output without loss or repetition), [TerminalProps] (which
      shells, with which environment, and what is killed), [TerminalSample]
      (witnesses, and two runs that do not go as the comments say).
    - Trusted processes, src/internal/singboxdiscover/discover.go:
      [TrustedExec] (with clean absolute paths as lists of names, [GoPath]),
      [TrustedExecProps] (a process is trusted exactly by the documented rules;
      only such a process chooses the line chain's directory),
      [TrustedExecSample].
    - Line chain authority and task worker, src/cmd/lattice-agent/main.go:
      [LineAuthority] (journals and outbox must agree before recovery),
      [TaskWorker] (the poll side, the worker and shutdown interleaved: the
      outbox has one user at a time), [TaskWorkerSample].
    - Beacon client, src/internal/beacon/client.go: [BeaconClient],
      [BeaconClientProps] (only verified replies to the run's own requests
      decide), [BeaconClientSample].
    - API client, src/internal/singboxapi: [SingboxApi], [SingboxApiProps] (the
      log stream's entries are its complete lines, however it is cut).
    - Inventory, src/internal/singboxdiscover/discover.go: [SingboxInventory]
      (the listed lines and what inspect, the configuration, the sidecar and
      the declared endpoints add), [SingboxInventoryProps] (each line once, its
      outbound the routed one, whatever the order of the answers; which sidecar
      is used), [SingboxInventorySample].
    - Usage, src/internal/proxyusage, src/internal/singboxstatsapi and main.go:
      [ProxyUsage] (counter names, the normalised snapshot, the sources, their
      checks and the report), [ProxyUsageProps] (totals are sums in 64 bits,
      the kept names the first ones), [ProxyUsageNames], [ProxyUsageSample]
      (the run in which a total is sent negative).
    - Facts: [GuardReality] holds [HostGuard] (src/internal/guardreality),
      [SingboxLive] (src/internal/singboxlive) and [SshdFacts]
      (src/internal/sshdfacts): the managed table's hash, listeners, liveness
      and sshd's settings are those the commands printed, never a default.
      [HostFacts] holds [NetIP] (net.IP as 128 bits), [IpDiscover]
      (src/internal/ipdiscover), [MachineFacts] (src/internal/hostfacts) and
      [Metrics] (src/internal/metrics, in binary64).
    - The node itself, src/cmd/lattice-agent/main.go, sbcaps.go, http_error.go:
      [AgentNode], with a module for the settings, the debug lines, the
      addresses, the monitors' goroutines, the firewall's named sets, the
      start-up, the work loop, the script's capabilities and refused requests.
      Exactly the assigned monitors run, nft gets only valid names and resolved
      addresses, an override can be taken back.

    ** Conventions

    A name in brackets is a file or a module of one.

    A Go integer is a [Z] with its wrap-around written out ([u64], [u32],
    [i64]); a time is a number of nanoseconds, 0 the zero time; a mutex makes a
    method atomic; a clock, a random name or a network answer is an argument or
    comes from the environment.  encoding/json, net/http, net/url,
    net/netip, the ICMP and DNS codecs, the digest the line chain uses and the
    lattice-sdk are parameters, with their documented behaviour as class laws
    where the agent relies on it;
    every theorem under such laws has a witness on a concrete instance.

    Recursion that is not structural has fuel: parsing loops have the length of
    the text, of which every round consumes a byte; a decimal printer has the
    binary length of the number; the flush loop has one more round than there
    are items, since every accepted batch takes at least one, and its theorem
    shows that the fuel suffices.

    ** What is not modelled

    The goroutines and timers that call the operations, HTTP, gRPC and WebSocket
    transport, ptys, file permissions beyond what a component checks, the
    flags and payloads of main.go, generated code, and the witness's start and
    relay.  JSON decoding, the commands the agent runs and the text of an IP
    address are arguments, so nothing is claimed of what a malformed document
    or a foreign program does beyond the answers the code distinguishes.  The
    manifest lists the components. *)
From stdpp Require Export prelude gmap strings list fin_maps.
From Stdlib Require Export ZArith Lia Sorted.

Local Open Scope Z_scope.

(** ** Functional record update

    [r <| p := v |>] is the record [r] with the field read by the projection
    [p] replaced by [v]; [r <| p ::= f |>] applies [f] to the field instead.
    A record type opts in by declaring its eta expansion as an instance of
    [Etable]; the update of a single field is then found by [build_update]. *)
Class Etable (R : Type) := eta_expand : R -> R.
Class FieldUpdate {R T : Type} (p : R -> T) := update_field : (T -> T) -> R -> R.
Arguments update_field {R T} p {_} _ _.

Ltac build_update :=
  match goal with
  | |- @FieldUpdate ?R ?T ?p =>
      let f := fresh "f" in
      let r := fresh "r" in
      intros f r;
      let e := eval hnf in (@eta_expand R _ r) in
      let g := eval pattern (p r) in e in
      match g with
      | ?body (p r) => let out := eval cbv beta in (body (f (p r))) in exact out
      end
  end.

#[export] Hint Extern 1 (@FieldUpdate _ _ _) => build_update : typeclass_instances.

Declare Scope record_scope.
Delimit Scope record_scope with record.
#[warnings="-postfix-notation-not-level-1"]
Notation "r <| p := v |>" := (update_field p (fun _ => v) r)
  (at level 12, left associativity) : record_scope.
#[warnings="-postfix-notation-not-level-1"]
Notation "r <| p ::= f |>" := (update_field p f r)
  (at level 12, left associativity) : record_scope.
Global Open Scope record_scope.

(** Read a field of an updated record, one update at a time: the nested updates
    are never expanded. *)
Ltac upd_step :=
  match goal with
  | |- context [?p (@update_field ?R ?T ?q ?i ?f ?r)] =>
      let E := fresh "E" in
      first
        [ constr_eq p q;
          assert (forall x, p (@update_field R T q i f x) = f (p x)) as E by (intros []; reflexivity)
        | assert (forall x, p (@update_field R T q i f x) = p x) as E by (intros []; reflexivity) ];
      rewrite (E r); clear E; cbv beta
  end.
Ltac upd := repeat upd_step.

(** ** Machine integers

    Go's [uint64], [uint32] and [int64] are integers of [Z] kept in range by
    an explicit wrap-around; [int] is 64 bits wide on every platform the
    agent is built for. *)
Definition u64 (x : Z) : Z := x mod 2 ^ 64.
Definition u32 (x : Z) : Z := x mod 2 ^ 32.
Definition i64 (x : Z) : Z := (x + 2 ^ 63) mod 2 ^ 64 - 2 ^ 63.
Definition max_i64 : Z := 2 ^ 63 - 1.
Definition min_i64 : Z := - 2 ^ 63.

Lemma u64_range x : 0 <= u64 x < 2 ^ 64.
Proof. unfold u64. apply Z.mod_pos_bound. lia. Qed.

Lemma u64_small x : 0 <= x < 2 ^ 64 -> u64 x = x.
Proof. intros H. unfold u64. by apply Z.mod_small. Qed.

Lemma u64_add_l x y : u64 (u64 x + y) = u64 (x + y).
Proof. unfold u64. by rewrite Zplus_mod_idemp_l. Qed.

Lemma u64_add_r x y : u64 (x + u64 y) = u64 (x + y).
Proof. unfold u64. by rewrite Zplus_mod_idemp_r. Qed.

Lemma u64_idemp x : u64 (u64 x) = u64 x.
Proof. unfold u64. apply Z.mod_mod. lia. Qed.

Lemma i64_small x : min_i64 <= x <= max_i64 -> i64 x = x.
Proof.
  unfold i64, min_i64, max_i64. intros H. rewrite Z.mod_small; lia.
Qed.

(** ** Instants and durations

    A [time.Time] is the number of nanoseconds since Go's zero instant, so
    [IsZero] is a comparison with 0; a [time.Duration] is an [int64] of
    nanoseconds.  [Time.Sub] saturates at the ends of the duration range, as
    Go documents. *)
Abbreviation time := Z (only parsing).
Abbreviation duration := Z (only parsing).

Definition is_zero_time (t : time) : bool := t =? 0.
Definition time_before (a b : time) : bool := a <? b.
Definition time_after (a b : time) : bool := b <? a.
Definition time_add (t : time) (d : duration) : time := t + d.
Definition time_sub (a b : time) : duration := Z.max min_i64 (Z.min max_i64 (a - b)).

Definition nanosecond : duration := 1.
Definition millisecond : duration := 1000000.
Definition second : duration := 1000000000.
Definition minute : duration := 60 * second.

Lemma time_sub_ge_iff a b d :
  min_i64 < d <= max_i64 -> (time_sub a b >=? d) = (a - b >=? d).
Proof.
  unfold time_sub, min_i64, max_i64. intros H.
  rewrite !Z.geb_leb. apply eq_bool_prop_intro. rewrite !Is_true_true, !Z.leb_le. lia.
Qed.

(** ** Proof automation *)

(** The facts about counters every component uses. *)
Create HintDb agent discriminated.
#[export] Hint Resolve u64_range : agent.

(** Split a conjunctive goal and hypotheses, close what is immediate. *)
Ltac split_all := repeat match goal with
  | H : _ /\ _ |- _ => destruct H
  | H : exists _, _ |- _ => destruct H
  | |- _ /\ _ => split
  end.

(** Case on the innermost test of a [match] or [if] that blocks the goal. *)
Ltac case_inner t :=
  lazymatch t with
  | context [match ?x with _ => _ end] => case_inner x
  | _ => let E := fresh "E" in destruct t eqn:E
  end.
Ltac case_goal :=
  match goal with |- context [match ?x with _ => _ end] => case_inner x end.
Ltac case_hyp H :=
  match type of H with context [match ?x with _ => _ end] => case_inner x end.

(** Turn boolean comparisons in the context into propositions. *)
Ltac bool_to_prop := repeat match goal with
  | H : (_ && _)%bool = true |- _ => apply andb_true_iff in H; destruct H
  | H : (_ && _)%bool = false |- _ => apply andb_false_iff in H
  | H : (_ || _)%bool = false |- _ => apply orb_false_iff in H; destruct H
  | H : (_ || _)%bool = true |- _ => apply orb_true_iff in H
  | H : negb _ = true |- _ => apply negb_true_iff in H
  | H : negb _ = false |- _ => apply negb_false_iff in H
  | H : (_ <? _) = true |- _ => apply Z.ltb_lt in H
  | H : (_ <? _) = false |- _ => apply Z.ltb_ge in H
  | H : (_ <=? _) = true |- _ => apply Z.leb_le in H
  | H : (_ <=? _) = false |- _ => apply Z.leb_gt in H
  | H : (_ >=? _) = true |- _ => rewrite Z.geb_leb in H; apply Z.leb_le in H
  | H : (_ >=? _) = false |- _ => rewrite Z.geb_leb in H; apply Z.leb_gt in H
  | H : (_ >? _) = true |- _ => rewrite Z.gtb_ltb in H; apply Z.ltb_lt in H
  | H : (_ >? _) = false |- _ => rewrite Z.gtb_ltb in H; apply Z.ltb_ge in H
  | H : (_ =? _) = true |- _ => apply Z.eqb_eq in H
  | H : (_ =? _) = false |- _ => apply Z.eqb_neq in H
  | H : bool_decide _ = true |- _ => apply bool_decide_eq_true in H
  | H : bool_decide _ = false |- _ => apply bool_decide_eq_false in H
  end.

(** ** Lists *)

Definition zlen {A} (l : list A) : Z := Z.of_nat (length l).

Lemma zlen_nonneg {A} (l : list A) : 0 <= zlen l.
Proof. unfold zlen. lia. Qed.

Lemma zlen_app {A} (l k : list A) : zlen (l ++ k) = zlen l + zlen k.
Proof. unfold zlen. rewrite length_app. lia. Qed.

Lemma zlen_drop {A} (l : list A) n : zlen (drop n l) = Z.max 0 (zlen l - Z.of_nat n).
Proof. unfold zlen. rewrite length_drop. lia. Qed.

Lemma zlen_take {A} (l : list A) n : zlen (take n l) = Z.min (Z.of_nat n) (zlen l).
Proof. unfold zlen. rewrite length_take. lia. Qed.

Create Rewrite HintDb zlen.
#[export] Hint Rewrite @zlen_app @zlen_drop @zlen_take : zlen.
#[export] Hint Resolve zlen_nonneg : agent.

Lemma zlen_cons {A} (x : A) (l : list A) : zlen (x :: l) = 1 + zlen l.
Proof. unfold zlen. simpl length. lia. Qed.
Lemma zlen_fmap {A B} (f : A -> B) (l : list A) : zlen (f <$> l) = zlen l.
Proof. unfold zlen. by rewrite length_fmap. Qed.

(** How many elements of a list satisfy a test. *)
Definition countb {A} (P : A -> bool) (l : list A) : Z := zlen (List.filter P l).
Lemma countb_nil {A} (P : A -> bool) : countb P [] = 0.
Proof. reflexivity. Qed.
Lemma countb_cons {A} (P : A -> bool) x l : countb P (x :: l) = (if P x then 1 else 0) + countb P l.
Proof. unfold countb. simpl. destruct (P x); rewrite ?zlen_cons; lia. Qed.
Lemma countb_app {A} (P : A -> bool) l k : countb P (l ++ k) = countb P l + countb P k.
Proof. unfold countb. by rewrite List.filter_app, zlen_app. Qed.
Lemma countb_bounds {A} (P : A -> bool) l : 0 <= countb P l <= zlen l.
Proof. induction l as [|x l IH]; [done|]. rewrite countb_cons, zlen_cons. destruct (P x); lia. Qed.
Lemma countb_fmap {A B} (f : A -> B) (P : B -> bool) l : countb P (f <$> l) = countb (fun x => P (f x)) l.
Proof. induction l as [|x l IH]; [done|]. by rewrite fmap_cons, !countb_cons, IH. Qed.
Lemma countb_ext {A} (P Q : A -> bool) l : Forall (fun x => P x = Q x) l -> countb P l = countb Q l.
Proof. induction 1 as [|x l Hx _ IH]; [done|]. by rewrite !countb_cons, Hx, IH. Qed.
Lemma countb_le {A} (P Q : A -> bool) l : Forall (fun x => P x = true -> Q x = true) l -> countb P l <= countb Q l.
Proof.
  induction 1 as [|x l Hx _ IH]; [done|]. rewrite !countb_cons.
  destruct (P x); [rewrite Hx by done|destruct (Q x)]; lia.
Qed.
Lemma countb_0 {A} (P : A -> bool) l : Forall (fun x => P x = false) l -> countb P l = 0.
Proof. induction 1 as [|x l Hx _ IH]; [done|]. by rewrite countb_cons, Hx. Qed.

(** ** Fixed-capacity rings

    Two components keep a bounded FIFO as a Go slice that grows to its
    capacity and is then overwritten in place at a moving position.  The
    contents, oldest first, are the slice rotated at the position. *)
Section Ring.
Context {A : Type} (cap : nat).

Definition ring_put (ring : list A) (pos : nat) (x : A) : list A * nat :=
  if (length ring <? cap)%nat then (ring ++ [x], pos)
  else (<[pos := x]> ring, ((pos + 1) mod cap)%nat).

(** The slot a put overwrites, if the ring is full. *)
Definition ring_victim (ring : list A) (pos : nat) : option A :=
  if (length ring <? cap)%nat then None else ring !! pos.

Definition ring_contents (ring : list A) (pos : nat) : list A :=
  drop pos ring ++ take pos ring.

Definition ring_ok (ring : list A) (pos : nat) : Prop :=
  (0 < cap /\ length ring <= cap /\ pos < cap /\ (length ring < cap -> pos = 0))%nat.

Lemma ring_ok_nil : (0 < cap)%nat -> ring_ok [] 0.
Proof. intros. unfold ring_ok. split_all; simpl; lia. Qed.

Lemma ring_put_ok ring pos x :
  ring_ok ring pos -> ring_ok (ring_put ring pos x).1 (ring_put ring pos x).2.
Proof.
  intros (Hc & Hl & Hp & Hz). unfold ring_put, ring_ok.
  destruct (Nat.ltb_spec (length ring) cap) as [Hlt|Hge]; simpl.
  - specialize (Hz Hlt). subst. rewrite length_app. simpl. split_all; simpl; lia.
  - rewrite length_insert.
    assert ((pos + 1) mod cap < cap)%nat by (apply Nat.mod_upper_bound; lia).
    split_all; lia.
Qed.

Lemma ring_victim_full ring pos :
  ring_ok ring pos -> (cap <= length ring)%nat -> is_Some (ring_victim ring pos).
Proof.
  intros (_ & Hl & Hp & _) Hfull. unfold ring_victim.
  destruct (Nat.ltb_spec (length ring) cap); [lia|]. apply lookup_lt_is_Some. lia.
Qed.

(** A put appends at the young end and drops the oldest element of a full
    ring: the slice with its position refines a bounded queue. *)
Lemma ring_contents_put ring pos x :
  ring_ok ring pos ->
  ring_contents (ring_put ring pos x).1 (ring_put ring pos x).2 =
    drop (S (length ring) - cap) (ring_contents ring pos) ++ [x].
Proof.
  intros (Hc & Hl & Hp & Hz). unfold ring_contents, ring_put.
  destruct (Nat.ltb_spec (length ring) cap) as [Hlt|Hge]; simpl.
  - rewrite (Hz Hlt), !drop_0. simpl. rewrite !app_nil_r.
    by replace (S (length ring) - cap)%nat with 0%nat by lia.
  - replace (S (length ring) - cap)%nat with 1%nat by lia.
    assert (Hlen : length ring = cap) by lia.
    destruct (lookup_lt_is_Some_2 ring pos ltac:(lia)) as [old Hold].
    pose proof (drop_S _ _ _ Hold) as Hd. rewrite Hd. simpl. rewrite drop_0.
    destruct (decide (pos + 1 = cap)%nat) as [Hw|Hw].
    + rewrite Hw, Nat.Div0.mod_same, drop_0. simpl. rewrite app_nil_r.
      rewrite (drop_ge ring (S pos)) by lia. simpl.
      rewrite insert_take_drop by lia. rewrite (drop_ge ring (S pos)) by lia. done.
    + rewrite Nat.mod_small by lia. rewrite Nat.add_1_r.
      rewrite drop_insert_lt by lia.
      rewrite (take_S_r _ _ x) by (apply list_lookup_insert_eq; lia).
      rewrite take_insert_ge by lia. by rewrite app_assoc.
Qed.

Lemma ring_victim_head ring pos :
  ring_ok ring pos -> (cap <= length ring)%nat ->
  ring_victim ring pos = head (ring_contents ring pos).
Proof.
  intros (Hc & Hl & Hp & Hz) Hfull. unfold ring_victim, ring_contents.
  destruct (Nat.ltb_spec (length ring) cap); [lia|].
  destruct (lookup_lt_is_Some_2 ring pos ltac:(lia)) as [old Hold].
  rewrite Hold, (drop_S _ _ _ Hold). done.
Qed.

Lemma ring_contents_elem ring pos x : x ∈ ring_contents ring pos <-> x ∈ ring.
Proof.
  unfold ring_contents. rewrite <- (take_drop pos ring) at 3.
  rewrite !elem_of_app. tauto.
Qed.

Lemma ring_contents_length ring pos : length (ring_contents ring pos) = length ring.
Proof.
  unfold ring_contents. rewrite length_app, Nat.add_comm, <- length_app.
  by rewrite take_drop.
Qed.
End Ring.

(** ** Sorting by a boolean order

    [sort.Strings] and [sort.Slice] are insertion into a sorted list; Go's
    sort is not stable, so the order of elements that compare equal is the
    model's choice. *)
Section Sort.
Context {A : Type} (leb : A -> A -> bool).

Fixpoint sort_insert (x : A) (l : list A) : list A :=
  match l with
  | [] => [x]
  | y :: l' => if leb x y then x :: l else y :: sort_insert x l'
  end.

Definition insertion_sort (l : list A) : list A := foldr sort_insert [] l.

Lemma sort_insert_perm x l : sort_insert x l ≡ₚ x :: l.
Proof.
  induction l as [|y l IH]; simpl; [done|]. case_match; [done|].
  rewrite IH. apply Permutation_swap.
Qed.

Lemma insertion_sort_perm l : insertion_sort l ≡ₚ l.
Proof. induction l as [|x l IH]; simpl; [done|]. by rewrite sort_insert_perm, IH. Qed.

Context (leb_total : forall x y, leb x y = true \/ leb y x = true).

Lemma sort_insert_sorted x l :
  Sorted (fun a b => leb a b = true) l -> Sorted (fun a b => leb a b = true) (sort_insert x l).
Proof.
  induction 1 as [|y l Hs IH Hr]; simpl; [by repeat constructor|].
  destruct (leb x y) eqn:E; [by repeat constructor|].
  assert (Hyx : leb y x = true) by (destruct (leb_total x y); congruence).
  constructor; [done|].
  destruct l as [|z l]; simpl; [by constructor|].
  case_match; constructor; auto. by inversion Hr.
Qed.

Lemma insertion_sort_sorted l : Sorted (fun a b => leb a b = true) (insertion_sort l).
Proof. induction l; simpl; [constructor|by apply sort_insert_sorted]. Qed.
End Sort.

(** Go's order on strings is the byte-wise lexicographic one. *)
Definition sort_strings (l : list string) : list string := insertion_sort String.leb l.

Lemma string_leb_total x y : String.leb x y = true \/ String.leb y x = true.
Proof.
  unfold String.leb. rewrite (String.compare_antisym x y).
  destruct (String.compare y x); simpl; auto.
Qed.

(** ** Suffixes *)
Lemma drop_subset {A} n (l : list A) x : x ∈ drop n l -> x ∈ l.
Proof. intros H. rewrite <- (take_drop n l). apply elem_of_app. by right. Qed.

Lemma drop_nodup {A} n (l : list A) : NoDup l -> NoDup (drop n l).
Proof. rewrite <- (take_drop n l) at 1. by intros (_ & _ & ?)%NoDup_app. Qed.

(** Removing the one occurrence of an element. *)
Lemma filter_ne_id {A} `{EqDecision A} (l : list A) x : x ∉ l -> filter (fun y => y <> x) l = l.
Proof.
  induction l as [|y l IH]; [done|]. intros Hx.
  apply not_elem_of_cons in Hx as [Hne Hx]. rewrite filter_cons_True by congruence.
  by rewrite IH.
Qed.

Lemma filter_ne_length {A} `{EqDecision A} (l : list A) x :
  NoDup l -> x ∈ l -> length l = S (length (filter (fun y => y <> x) l)).
Proof.
  induction 1 as [|y l Hy Hnd IH]; [by intros ?%not_elem_of_nil|].
  intros [->|Hx]%elem_of_cons.
  - rewrite filter_cons_False by tauto. simpl. by rewrite filter_ne_id.
  - rewrite filter_cons_True by (intros ->; done). simpl. by rewrite IH.
Qed.

Lemma filter_all {A} (P : A -> Prop) `{forall x, Decision (P x)} (l : list A) :
  (forall x, x ∈ l -> P x) -> filter P l = l.
Proof.
  induction l as [|y l IH]; [done|]. intros Hl.
  rewrite filter_cons_True by (apply Hl; left). f_equal. apply IH. intros x Hx. apply Hl. by right.
Qed.

Lemma filter_none {A} (P : A -> Prop) `{forall x, Decision (P x)} (l : list A) :
  (forall x, x ∈ l -> ~ P x) -> filter P l = [].
Proof.
  induction l as [|y l IH]; [done|]. intros Hl.
  rewrite filter_cons_False by (apply Hl; left). apply IH. intros x Hx. apply Hl. by right.
Qed.

Lemma omap_ext_in {A B} (f g : A -> option B) (l : list A) :
  (forall x, x ∈ l -> f x = g x) -> omap f l = omap g l.
Proof.
  induction l as [|y l IH]; [done|]. intros Hl. cbn.
  rewrite (Hl y) by left. assert (omap f l = omap g l) as E.
  { apply IH. intros x Hx. apply Hl. by right. }
  destruct (g y); [f_equal|]; exact E.
Qed.
