(* ===== verification/GoStrings.v ===== *)
(** * Go's strings and strconv packages, as the agent uses them

    A Go string is a byte string, here a [string] of [ascii] bytes.  White
    space is Unicode's, recognised in its UTF-8 encoding as the strings
    package does; [to_lower] and [equal_fold] are exact on ASCII text and leave
    bytes above 0x7f alone, where Go also folds non-ASCII letters. *)
From S2P Require Import Prelude.
From Stdlib Require Import Ascii.

Local Open Scope string_scope.

(** ** Slicing and searching *)

Fixpoint str_drop (n : nat) (s : string) : string :=
  match n, s with
  | O, _ => s
  | S n', String _ s' => str_drop n' s'
  | S _, EmptyString => ""
  end.

Fixpoint str_take (n : nat) (s : string) : string :=
  match n, s with
  | S n', String c s' => String c (str_take n' s')
  | _, _ => ""
  end.

Definition has_prefix (s p : string) : bool := String.prefix p s.

Definition has_suffix (s p : string) : bool :=
  (String.length p <=? String.length s)%nat
  && String.eqb (str_drop (String.length s - String.length p) s) p.

Definition cut_prefix (s p : string) : option string :=
  if has_prefix s p then Some (str_drop (String.length p) s) else None.

Definition cut_suffix (s p : string) : option string :=
  if has_suffix s p then Some (str_take (String.length s - String.length p) s) else None.

Definition trim_prefix (s p : string) : string := default s (cut_prefix s p).
Definition trim_suffix (s p : string) : string := default s (cut_suffix s p).

(** [strings.Index]: the first occurrence, [None] for -1. *)
Fixpoint index_of (s sub : string) : option nat :=
  if has_prefix s sub then Some O
  else match s with
       | EmptyString => None
       | String _ s' => S <$> index_of s' sub
       end.

(** [strings.LastIndex]. *)
Fixpoint last_index_of (s sub : string) : option nat :=
  match s with
  | EmptyString => if has_prefix s sub then Some O else None
  | String _ s' =>
      match last_index_of s' sub with
      | Some i => Some (S i)
      | None => if has_prefix s sub then Some O else None
      end
  end.

Definition contains (s sub : string) : bool := bool_decide (is_Some (index_of s sub)).

(** [strings.Cut]: the text before and after the first separator. *)
Definition cut (s sep : string) : option (string * string) :=
  match index_of s sep with
  | Some i => Some (str_take i s, str_drop (i + String.length sep) s)
  | None => None
  end.

Fixpoint str_forall (f : ascii -> bool) (s : string) : bool :=
  match s with EmptyString => true | String c s' => f c && str_forall f s' end.

Definition str_exists (f : ascii -> bool) (s : string) : bool :=
  negb (str_forall (fun c => negb (f c)) s).

(** ** Bytes *)

Definition byte_val (c : ascii) : Z := Z.of_nat (nat_of_ascii c).
Definition byte_of (z : Z) : ascii := ascii_of_nat (Z.to_nat z).
Definition bytes_str (l : list Z) : string := foldr (fun z s => String (byte_of z) s) "" l.

Definition is_digit (c : ascii) : bool := (48 <=? byte_val c)%Z && (byte_val c <=? 57)%Z.

Definition lower_byte (c : ascii) : ascii :=
  if (65 <=? byte_val c)%Z && (byte_val c <=? 90)%Z then byte_of (byte_val c + 32) else c.

Fixpoint to_lower (s : string) : string :=
  match s with EmptyString => "" | String c s' => String (lower_byte c) (to_lower s') end.

Definition equal_fold (a b : string) : bool := String.eqb (to_lower a) (to_lower b).

(** ** White space *)

(** The UTF-8 encodings of the runes [unicode.IsSpace] accepts. *)
Definition space_runes : list string := Eval vm_compute in
  map (fun z => bytes_str [z]) [9; 10; 11; 12; 13; 32]%Z ++
  map bytes_str ([[194; 133]; [194; 160]; [225; 154; 128]]%Z ++
    map (fun k => [226; 128; 128 + k]%Z) [0; 1; 2; 3; 4; 5; 6; 7; 8; 9; 10]%Z ++
    [[226; 128; 168]; [226; 128; 169]; [226; 128; 175]; [226; 129; 159]; [227; 128; 128]]%Z).

(** Strip one leading, respectively trailing, white-space rune. *)
Definition strip_left (s : string) : option string :=
  foldr (fun r acc => match cut_prefix s r with Some t => Some t | None => acc end) None space_runes.
Definition strip_right (s : string) : option string :=
  foldr (fun r acc => match cut_suffix s r with Some t => Some t | None => acc end) None space_runes.

Fixpoint strip_all (strip : string -> option string) (fuel : nat) (s : string) : string :=
  match fuel with
  | O => s
  | S n => match strip s with Some t => strip_all strip n t | None => s end
  end.

Definition trim_space (s : string) : string :=
  let l := strip_all strip_left (String.length s) s in
  strip_all strip_right (String.length l) l.

Definition trim_left_space_char (s : string) : string :=
  strip_all (fun t => cut_prefix t " ") (String.length s) s.

(** [strings.Fields]: the maximal runs of non-space text. *)
Fixpoint fields_fuel (fuel : nat) (cur : string) (s : string) : list string :=
  let flush := if String.eqb cur "" then [] else [cur] in
  match fuel with
  | O => flush
  | S n =>
      match strip_left s with
      | Some t => flush ++ fields_fuel n "" t
      | None =>
          match s with
          | EmptyString => flush
          | String c t => fields_fuel n (cur +:+ String c "") t
          end
      end
  end.
Definition fields (s : string) : list string := fields_fuel (S (String.length s)) "" s.

(** ** Decimal numbers *)

Definition all_digits (s : string) : bool := negb (String.eqb s "") && str_forall is_digit s.

Fixpoint digits_val (acc : Z) (s : string) : Z :=
  match s with
  | EmptyString => acc
  | String c s' => digits_val (acc * 10 + (byte_val c - 48)) s'
  end.

(** [strconv.ParseUint] in base 10 with the given bit size. *)
Definition parse_uint (bits : Z) (s : string) : option Z :=
  if all_digits s then
    let n := digits_val 0 s in if (n <? 2 ^ bits)%Z then Some n else None
  else None.

(** [strconv.ParseInt] in base 10, 64 bits, and [strconv.Atoi]. *)
Definition parse_int (s : string) : option Z :=
  match s with
  | EmptyString => None
  | String c t =>
      let neg := Ascii.eqb c "-"%char in
      let body := if neg || Ascii.eqb c "+"%char then t else s in
      match parse_uint 64 body with
      | None => None
      | Some n =>
          if neg then if (n <=? 2 ^ 63)%Z then Some (- n)%Z else None
          else if (n <? 2 ^ 63)%Z then Some n else None
      end
  end.
Definition atoi (s : string) : option Z := parse_int s.

Fixpoint utoa_fuel (fuel : nat) (n : Z) (acc : string) : string :=
  match fuel with
  | O => acc
  | S f =>
      let acc' := String (byte_of (48 + n mod 10)) acc in
      if (n / 10 =? 0)%Z then acc' else utoa_fuel f (n / 10) acc'
  end.

(** [strconv.Itoa]; a non-negative number below [2^k] has at most [k + 1]
    decimal digits, so [log2] gives fuel enough. *)
Definition utoa (n : Z) : string := utoa_fuel (S (Z.to_nat (Z.log2 n))) n "".
Definition itoa (n : Z) : string := if (n <? 0)%Z then String "-"%char (utoa (- n)) else utoa n.

Example utoa_ex : map utoa [0; 7; 10; 2064424212]%Z = ["0"; "7"; "10"; "2064424212"].
Proof. reflexivity. Qed.
Example fields_ex : fields "  a bb  c " = ["a"; "bb"; "c"].
Proof. reflexivity. Qed.
Example trim_ex : trim_space (bytes_str [194; 160; 32; 97; 32; 226; 128; 168]%Z) = "a".
Proof. reflexivity. Qed.
Example atoi_ex : map atoi ["12"; "-3"; "+4"; ""; "-"; "1x"; "9223372036854775808"]
  = [Some 12; Some (-3); Some 4; None; None; None; None]%Z.
Proof. reflexivity. Qed.

(** ** Concatenation *)
Fixpoint last_byte (s : string) : option ascii :=
  match s with
  | EmptyString => None
  | String c EmptyString => Some c
  | String _ s' => last_byte s'
  end.

Lemma last_byte_app a b : b <> ""%string -> last_byte (a +:+ b) = last_byte b.
Proof.
  intros Hb. induction a as [|c a IH]; [done|]. simpl in *.
  destruct (a +:+ b) as [|c' s] eqn:E; [|exact IH].
  destruct a; simpl in E; [by subst|done].
Qed.

Lemma string_app_length a b : String.length (a +:+ b) = (String.length a + String.length b)%nat.
Proof. induction a; simpl; [done|lia]. Qed.

Lemma str_drop_app a b : str_drop (String.length a) (a +:+ b) = b.
Proof. induction a; simpl; [by destruct b|done]. Qed.

Lemma str_take_app a b : str_take (String.length a) (a +:+ b) = a.
Proof. induction a; simpl; [by destruct b|by f_equal]. Qed.

Lemma has_suffix_last s p : has_suffix s p = true -> p <> ""%string -> last_byte s = last_byte p.
Proof.
  unfold has_suffix. intros [H1%Nat.leb_le H2%String.eqb_eq]%andb_true_iff Hp.
  remember (String.length s - String.length p)%nat as n. clear Heqn H1.
  revert n H2. induction s as [|c s IH]; intros n H2.
  - destruct n; simpl in H2; by subst.
  - destruct n; simpl in H2; [by subst|]. rewrite <- (IH _ H2). destruct s; [|done].
    destruct n; simpl in H2; by subst.
Qed.

Lemma has_suffix_app a b : has_suffix (a +:+ b) b = true.
Proof.
  unfold has_suffix. rewrite string_app_length.
  replace (String.length a + String.length b - String.length b)%nat with (String.length a) by lia.
  rewrite str_drop_app, String.eqb_refl, andb_true_r. apply Nat.leb_le. lia.
Qed.

Lemma str_take_drop n s : str_take n s +:+ str_drop n s = s.
Proof.
  revert n. induction s as [|c s IH]; intros [|n]; try done.
  change (String c (str_take n s +:+ str_drop n s) = String c s). by rewrite IH.
Qed.

Lemma string_app_assoc a b c : (a +:+ b) +:+ c = a +:+ b +:+ c.
Proof. induction a as [|x a IH]; [done|]. change (String x ((a +:+ b) +:+ c) = String x (a +:+ b +:+ c)). by rewrite IH. Qed.

(** ** Searching in concatenations *)

(** The byte does not occur in the text. *)
Definition no_byte (c : ascii) (s : string) : bool := str_forall (fun x => negb (Ascii.eqb x c)) s.

Lemma app_empty s : "" +:+ s = s.
Proof. done. Qed.
Lemma app_empty_r s : s +:+ "" = s.
Proof. induction s as [|c s IH]; [done|]. change (String c (s +:+ "") = String c s). by rewrite IH. Qed.
Lemma app_cons c a b : String c a +:+ b = String c (a +:+ b).
Proof. done. Qed.

Lemma str_forall_app f a b : str_forall f (a +:+ b) = str_forall f a && str_forall f b.
Proof.
  induction a as [|x a IH]; [done|].
  change (f x && str_forall f (a +:+ b) = (f x && str_forall f a) && str_forall f b).
  by rewrite IH, andb_assoc.
Qed.

Lemma no_byte_app c a b : no_byte c (a +:+ b) = no_byte c a && no_byte c b.
Proof. apply str_forall_app. Qed.

Lemma no_byte_cons c x s : no_byte c (String x s) = true <-> x <> c /\ no_byte c s = true.
Proof.
  unfold no_byte at 1. cbn [str_forall]. fold (no_byte c s). rewrite andb_true_iff, negb_true_iff.
  by rewrite Ascii.eqb_neq.
Qed.

Lemma str_forall_impl (f g : ascii -> bool) s :
  (forall c, f c = true -> g c = true) -> str_forall f s = true -> str_forall g s = true.
Proof. intros Hfg. induction s as [|c s IH]; [done|]. simpl. rewrite !andb_true_iff. intros [??]. auto. Qed.

Lemma has_prefix_app p s : has_prefix (p +:+ s) p = true.
Proof.
  unfold has_prefix. induction p as [|c p IH]; [by destruct s|].
  change ((if ascii_dec c c then String.prefix p (p +:+ s) else false) = true).
  by destruct (ascii_dec c c).
Qed.

Lemma cut_prefix_app p s : cut_prefix (p +:+ s) p = Some s.
Proof. unfold cut_prefix. by rewrite has_prefix_app, str_drop_app. Qed.

Lemma has_prefix_head x p y s : has_prefix (String y s) (String x p) = (if ascii_dec x y then has_prefix s p else false).
Proof. done. Qed.

Lemma index_here p s : index_of (p +:+ s) p = Some 0%nat.
Proof. pose proof (has_prefix_app p s) as Hp. by destruct (p +:+ s); cbn [index_of]; rewrite Hp. Qed.

(** A text without the separator's first byte, or without its second one where
    the two differ, does not hide a separator. *)
Lemma index_first c q a b :
  no_byte c a = true -> index_of (a +:+ String c q +:+ b) (String c q) = Some (String.length a).
Proof.
  induction a as [|x a IH]; intros Ha.
  - exact (index_here (String c q) b).
  - apply no_byte_cons in Ha as [Hx Ha]. specialize (IH Ha).
    change (index_of (String x (a +:+ String c q +:+ b)) (String c q) = Some (S (String.length a))).
    cbn [index_of]. rewrite has_prefix_head. destruct (ascii_dec c x); [by subst|].
    by rewrite IH.
Qed.

Lemma index_second c d q a b :
  c <> d -> no_byte d a = true ->
  index_of (a +:+ String c (String d q) +:+ b) (String c (String d q)) = Some (String.length a).
Proof.
  intros Hcd. induction a as [|x a IH]; intros Ha.
  - exact (index_here (String c (String d q)) b).
  - apply no_byte_cons in Ha as [Hx Ha]. specialize (IH Ha).
    change (index_of (String x (a +:+ String c (String d q) +:+ b)) (String c (String d q)) = Some (S (String.length a))).
    cbn [index_of]. rewrite has_prefix_head, IH. destruct (ascii_dec c x) as [->|]; [|done].
    destruct a as [|y a]; [rewrite app_empty, app_cons, has_prefix_head; by destruct (ascii_dec d x)|].
    apply no_byte_cons in Ha as [Hy Ha]. rewrite app_cons, has_prefix_head.
    by destruct (ascii_dec d y).
Qed.

Lemma index_absent c q s : no_byte c s = true -> index_of s (String c q) = None.
Proof.
  induction s as [|x s IH]; intros Hs; [done|]. apply no_byte_cons in Hs as [Hx Hs].
  cbn [index_of]. rewrite has_prefix_head. destruct (ascii_dec c x); [by subst|]. by rewrite IH.
Qed.

Lemma index_absent_second c d q s : no_byte d s = true -> index_of s (String c (String d q)) = None.
Proof.
  induction s as [|x s IH]; intros Hs; [done|]. apply no_byte_cons in Hs as [Hx Hs].
  cbn [index_of]. rewrite has_prefix_head, IH by done. destruct (ascii_dec c x); [|done].
  destruct s as [|y s]; [done|]. apply no_byte_cons in Hs as [Hy _].
  rewrite has_prefix_head. by destruct (ascii_dec d y).
Qed.

Lemma str_drop_add n m s : str_drop (n + m) s = str_drop m (str_drop n s).
Proof. revert s. induction n as [|n IH]; intros s; [done|]. destruct s; simpl; [by destruct m|apply IH]. Qed.

Lemma cut_at i s sep a b :
  index_of s sep = Some i -> s = a +:+ sep +:+ b -> i = String.length a -> cut s sep = Some (a, b).
Proof.
  intros Hi -> ->. unfold cut. by rewrite Hi, str_take_app, str_drop_add, !str_drop_app.
Qed.

Lemma cut_first c q a b : no_byte c a = true -> cut (a +:+ String c q +:+ b) (String c q) = Some (a, b).
Proof. intros Ha. eapply cut_at; [by apply index_first|done..]. Qed.

Lemma cut_second c d q a b :
  c <> d -> no_byte d a = true ->
  cut (a +:+ String c (String d q) +:+ b) (String c (String d q)) = Some (a, b).
Proof. intros Hcd Ha. eapply cut_at; [by apply index_second|done..]. Qed.

Lemma last_index_first c a b :
  no_byte c b = true -> last_index_of (a +:+ String c b) (String c "") = Some (String.length a).
Proof.
  intros Hb. assert (Hnone : last_index_of b (String c "") = None).
  { clear a. induction b as [|x b IH]; [done|]. apply no_byte_cons in Hb as [Hx Hb].
    cbn [last_index_of]. rewrite IH by done. rewrite has_prefix_head. by destruct (ascii_dec c x). }
  induction a as [|x a IH].
  - rewrite app_empty. cbn [last_index_of]. rewrite Hnone, has_prefix_head. destruct (ascii_dec c c); [|done]. by destruct b.
  - change (last_index_of (String x (a +:+ String c b)) (String c "") = Some (S (String.length a))).
    cbn [last_index_of]. by rewrite IH.
Qed.

Lemma has_prefix_empty s : has_prefix s "" = true.
Proof. by destruct s. Qed.

Lemma last_index_split s c i :
  last_index_of s (String c "") = Some i -> s = str_take i s +:+ String c (str_drop (i + 1) s).
Proof.
  revert i. induction s as [|x s IH]; intros i; [done|]. cbn [last_index_of].
  destruct (last_index_of s (String c "")) as [j|].
  - intros [= <-]. cbn [str_take str_drop]. rewrite app_cons. f_equal. by apply IH.
  - rewrite has_prefix_head. destruct (ascii_dec c x) as [->|]; [|done].
    case_match; [|done]. intros [= <-]. by destruct s.
Qed.

Lemma cut_prefix_split s p t : cut_prefix s p = Some t -> s = p +:+ t.
Proof.
  unfold cut_prefix. destruct (has_prefix s p) eqn:E; [|done]. intros [= <-].
  revert s E. induction p as [|c p IH]; intros s E; [done|]. destruct s as [|x s]; [done|].
  rewrite has_prefix_head in E. destruct (ascii_dec c x) as [->|]; [|done].
  rewrite app_cons. cbn [str_drop String.length]. f_equal. by apply IH.
Qed.

Lemma contains_byte s c : contains s (String c "") = false <-> no_byte c s = true.
Proof.
  unfold contains. rewrite bool_decide_eq_false. split.
  - induction s as [|x s IH]; [done|]. cbn [index_of]. rewrite has_prefix_head, no_byte_cons, has_prefix_empty.
    destruct (ascii_dec c x) as [->|Hx]; intros Hn; [by destruct Hn|].
    split; [congruence|]. apply IH. intros [k Hk]. apply Hn. rewrite Hk. by eexists.
  - intros Hs. rewrite index_absent by done. by intros [].
Qed.

(** ** Decimal round trip *)

Lemma byte_val_of z : (0 <= z < 256)%Z -> byte_val (byte_of z) = z.
Proof. intros Hz. unfold byte_val, byte_of. rewrite nat_ascii_embedding by lia. lia. Qed.

Lemma digits_val_app acc a b : digits_val acc (a +:+ b) = digits_val (digits_val acc a) b.
Proof. revert acc. induction a as [|c a IH]; intros acc; [done|]. simpl. apply IH. Qed.

Lemma digit_of n :
  is_digit (byte_of (48 + n mod 10)) = true /\ byte_val (byte_of (48 + n mod 10)) = (48 + n mod 10)%Z.
Proof.
  pose proof (Z.mod_pos_bound n 10 ltac:(lia)) as Hm.
  assert (Hv : byte_val (byte_of (48 + n mod 10)) = (48 + n mod 10)%Z) by (apply byte_val_of; lia).
  split; [|done]. unfold is_digit. rewrite Hv. apply andb_true_iff. rewrite !Z.leb_le. lia.
Qed.

Lemma utoa_fuel_spec fuel : forall n acc, (0 <= n)%Z -> (n < 2 ^ Z.of_nat (S fuel))%Z ->
  exists ds, utoa_fuel (S fuel) n acc = ds +:+ acc /\ all_digits ds = true /\ digits_val 0 ds = n.
Proof.
  induction fuel as [|fuel IH]; intros n acc Hn Hlt; cbn [utoa_fuel];
    pose proof (Z.mod_pos_bound n 10 ltac:(lia)) as Hm; pose proof (Z.div_mod n 10 ltac:(lia)) as Hd;
    destruct (digit_of n) as [Hdig Hval];
    (destruct (Z.eqb_spec (n / 10) 0) as [Hz|Hz];
     [exists (String (byte_of (48 + n mod 10)) ""); split; [done|]; split;
      [unfold all_digits; simpl; by rewrite Hdig | simpl; rewrite Hval; lia]|]).
  { assert (n < 2)%Z by (by change (2 ^ Z.of_nat 1)%Z with 2%Z in Hlt). lia. }
  destruct (IH (n / 10)%Z (String (byte_of (48 + n mod 10)) acc)) as (ds & E & Hall & Hv).
  { lia. }
  { rewrite (Nat2Z.inj_succ (S fuel)), Z.pow_succ_r in Hlt by lia. lia. }
  exists (ds +:+ String (byte_of (48 + n mod 10)) ""). split; [by rewrite string_app_assoc|]. split.
  - unfold all_digits in *. apply andb_true_iff in Hall as [Hne Hall]. rewrite str_forall_app, Hall. simpl.
    rewrite Hdig. by destruct ds.
  - rewrite digits_val_app, Hv. simpl. rewrite Hval. lia.
Qed.

Lemma utoa_spec n : (0 <= n)%Z -> all_digits (utoa n) = true /\ digits_val 0 (utoa n) = n.
Proof.
  intros Hn. unfold utoa.
  destruct (utoa_fuel_spec (Z.to_nat (Z.log2 n)) n "" Hn) as (ds & -> & Hd & Hv).
  { rewrite Nat2Z.inj_succ, Z2Nat.id by apply Z.log2_nonneg.
    destruct (decide (n = 0)%Z) as [->|]; [done|]. apply Z.log2_spec. lia. }
  by rewrite app_empty_r.
Qed.

(** Printing and reading a number agree. *)
Lemma parse_uint_utoa bits n : (0 <= n < 2 ^ bits)%Z -> parse_uint bits (utoa n) = Some n.
Proof.
  intros Hn. destruct (utoa_spec n) as [Hd Hv]; [lia|]. unfold parse_uint. rewrite Hd, Hv.
  by rewrite (proj2 (Z.ltb_lt _ _)) by lia.
Qed.

Lemma digits_no_byte c s : is_digit c = false -> all_digits s = true -> no_byte c s = true.
Proof.
  unfold all_digits. intros Hc [_ Hs]%andb_true_iff. revert Hs. apply str_forall_impl.
  intros x Hx. apply negb_true_iff, Ascii.eqb_neq. intros ->. congruence.
Qed.

Lemma digits_head s : all_digits s = true -> exists c t, s = String c t /\ is_digit c = true.
Proof.
  unfold all_digits. destruct s as [|c t]; [done|]. simpl. intros [Hc _]%andb_true_iff. by exists c, t.
Qed.

Lemma parse_int_utoa n : (0 <= n < 2 ^ 63)%Z -> parse_int (utoa n) = Some n.
Proof.
  intros Hn. destruct (utoa_spec n) as [Hd Hv]; [lia|].
  destruct (digits_head _ Hd) as (c & t & E & Hc). unfold parse_int. rewrite E.
  assert (Hneg : Ascii.eqb c "-"%char = false /\ Ascii.eqb c "+"%char = false).
  { split; apply Ascii.eqb_neq; intros ->; by vm_compute in Hc. }
  destruct Hneg as [-> ->]. cbn [orb]. rewrite <-E, parse_uint_utoa by lia.
  by rewrite (proj2 (Z.ltb_lt _ _)) by lia.
Qed.

Lemma digits_val_nonneg s : forall acc, (0 <= acc)%Z -> str_forall is_digit s = true -> (0 <= digits_val acc s)%Z.
Proof.
  induction s as [|c s IH]; intros acc Ha; [done|]. cbn [str_forall digits_val].
  unfold is_digit. rewrite !andb_true_iff, !Z.leb_le. intros [Hc Hs]. apply IH; [lia|done].
Qed.

Lemma parse_uint_bounds bits s n : parse_uint bits s = Some n -> (0 <= n < 2 ^ bits)%Z.
Proof.
  unfold parse_uint, all_digits. destruct (negb _ && _) eqn:E; [|done].
  destruct (Z.ltb_spec (digits_val 0 s) (2 ^ bits)); [|done]. intros [= <-].
  apply andb_true_iff in E as [_ E]. split; [|done]. by apply digits_val_nonneg.
Qed.

(** ** White space at the ends *)

(** A byte that ends no white-space rune. *)
Definition solid (c : ascii) : bool := ((33 <=? byte_val c) && (byte_val c <=? 126))%Z.

Lemma space_runes_ends : Forall (fun r => r <> "" /\ forall c, solid c = true -> last_byte r <> Some c /\
  has_prefix (String c "") (str_take 1 r) = false) space_runes.
Proof.
  unfold space_runes. repeat constructor; try done; try (intros [= <-]; by vm_compute in H);
    unfold has_prefix; simpl; (case_match; [subst|done]); by vm_compute in H.
Qed.

Lemma strip_none (cutf : string -> string -> option string) s rs :
  Forall (fun r => cutf s r = None) rs ->
  foldr (fun r acc => match cutf s r with Some t => Some t | None => acc end) None rs = None.
Proof. induction 1 as [|r rs Hr _ IH]; [done|]. simpl. by rewrite Hr. Qed.

Lemma strip_right_solid s c : last_byte s = Some c -> solid c = true -> strip_right s = None.
Proof.
  intros Hl Hc. apply strip_none. eapply Forall_impl; [apply space_runes_ends|].
  intros r [Hne Hr]. unfold cut_suffix. destruct (has_suffix s r) eqn:E; [|done].
  apply has_suffix_last in E; [|done]. destruct (Hr c Hc) as [Hx _]. congruence.
Qed.

Lemma strip_left_solid s c t : s = String c t -> solid c = true -> strip_left s = None.
Proof.
  intros -> Hc. apply strip_none. eapply Forall_impl; [apply space_runes_ends|].
  intros r [Hne Hr]. unfold cut_prefix. destruct r as [|x r]; [done|].
  destruct (Hr c Hc) as [_ Hx]. change (str_take 1 (String x r)) with (String x (str_take 0 r)) in Hx.
  rewrite has_prefix_head in *. destruct (ascii_dec x c); [|done]. by destruct r.
Qed.

Lemma trim_space_solid c s d : solid c = true -> last_byte (String c s) = Some d -> solid d = true ->
  trim_space (String c s) = String c s.
Proof.
  intros Hc Hl Hd. unfold trim_space. cbn [String.length strip_all].
  rewrite (strip_left_solid _ c s) by done. cbn [String.length strip_all].
  by rewrite (strip_right_solid _ d).
Qed.

(** ** strings.Split and strings.ToLower *)
Fixpoint split_byte (sep : ascii) (cur s : string) : list string :=
  match s with
  | EmptyString => [cur]
  | String c t => if Ascii.eqb c sep then cur :: split_byte sep "" t else split_byte sep (cur +:+ String c "") t
  end.

(** Of the runes outside ASCII only the dotted capital I (C4 B0) and the Kelvin
    sign (E2 84 AA) have an ASCII lower case; the others map outside ASCII and
    are left as they are. *)
Definition rune_130 : string := Eval vm_compute in bytes_str [196; 176]%Z.
Definition rune_212A : string := Eval vm_compute in bytes_str [226; 132; 170]%Z.
Fixpoint lower_fuel (fuel : nat) (s : string) : string :=
  match fuel, s with
  | S fuel, String c t =>
      match cut_prefix s rune_130, cut_prefix s rune_212A with
      | Some t, _ => String "i" (lower_fuel fuel t)
      | _, Some t => String "k" (lower_fuel fuel t)
      | _, _ => String (lower_byte c) (lower_fuel fuel t)
      end
  | _, _ => ""
  end.
Definition lower (s : string) : string := lower_fuel (String.length s) s.

(** ** Parts of a text *)

(** A string has no separator, or splits at its first one. *)
Lemma first_byte s c : no_byte c s = true \/ exists a b, no_byte c a = true /\ s = a +:+ String c b.
Proof.
  induction s as [|x s [IH|(a & b & Ha & ->)]]; [by left| |].
  - destruct (decide (x = c)) as [->|Hx]; [right; by exists "", s|left; by apply no_byte_cons].
  - right. destruct (decide (x = c)) as [->|Hx]; [by exists "", (a +:+ String c b)|].
    exists (String x a), b. split; [by apply no_byte_cons|done].
Qed.
Lemma cut_byte s c :
  (no_byte c s = true /\ cut s (String c "") = None) \/
  exists a b, no_byte c a = true /\ s = a +:+ String c b /\ cut s (String c "") = Some (a, b).
Proof.
  destruct (first_byte s c) as [Hn|(a & b & Ha & ->)]; [left|right].
  - split; [done|]. unfold cut. by rewrite index_absent.
  - exists a, b. split_and!; [done..|]. exact (cut_first c "" a b Ha).
Qed.
(** Whether a text with a separator starts with a whole part. *)
Lemma part_prefix c a b d : no_byte c a = true -> no_byte c d = true ->
  has_prefix (a +:+ String c b) (d +:+ String c "") = String.eqb a d.
Proof.
  revert d. induction a as [|x a IH]; intros [|y d] Ha Hd; rewrite ?app_empty, ?app_cons; [|apply no_byte_cons in Hd as [Hy _]|apply no_byte_cons in Ha as [Hx _]|].
  - rewrite has_prefix_head, has_prefix_empty. by destruct (ascii_dec c c).
  - rewrite has_prefix_head. by destruct (ascii_dec y c).
  - rewrite has_prefix_head. destruct (ascii_dec c x); [congruence|done].
  - apply no_byte_cons in Ha as [_ Ha], Hd as [_ Hd]. rewrite has_prefix_head, IH by done. simpl.
    destruct (ascii_dec y x) as [->|Hn]; [by rewrite Ascii.eqb_refl|]. by rewrite (proj2 (Ascii.eqb_neq x y)) by congruence.
Qed.
Lemma no_part_prefix c s d : no_byte c s = true -> has_prefix s (d +:+ String c "") = false.
Proof.
  revert d. induction s as [|x s IH]; intros d Hs; [by destruct d|]. apply no_byte_cons in Hs as [Hx Hs].
  destruct d as [|y d]; rewrite ?app_empty, ?app_cons, has_prefix_head.
  - destruct (ascii_dec c x); [congruence|done].
  - destruct (ascii_dec y x); [by apply IH|done].
Qed.
Lemma str_take_len n s : String.length (str_take n s) = Nat.min n (String.length s).
Proof. revert s. induction n as [|n IH]; intros [|c s]; [done..|]. simpl. by rewrite IH. Qed.
Lemma str_take_all n s : (String.length s <= n)%nat -> str_take n s = s.
Proof. revert s. induction n as [|n IH]; intros [|c s] H; simpl in *; [done|lia|done|]. f_equal. apply IH. lia. Qed.
Lemma str_drop_len n s : String.length (str_drop n s) = (String.length s - n)%nat.
Proof. revert s. induction n as [|n IH]; intros [|c s]; try done. apply IH. Qed.
Lemma str_take_prefix n a b : (n <= String.length a)%nat -> str_take n (a +:+ b) = str_take n a.
Proof. revert a. induction n as [|n IH]; intros [|c a] H; [done|done|simpl in H; lia|]. rewrite app_cons. simpl. f_equal. apply IH. simpl in H. lia. Qed.
Lemma str_take_add b n p : str_take (String.length b + n) (b +:+ p) = (b +:+ str_take n p).
Proof. induction b as [|x b IH]; [done|]. rewrite !app_cons. simpl. by rewrite IH. Qed.
Lemma str_drop_prefix n a b : (n <= String.length a)%nat -> str_drop n (a +:+ b) = (str_drop n a +:+ b).
Proof. revert a. induction n as [|n IH]; intros [|c a] H; simpl in *; [done|done|lia|]. apply IH. lia. Qed.
Lemma str_drop_0 s : str_drop 0 s = s.
Proof. by destruct s. Qed.
(** The pieces between separators. *)
Lemma split_first c cur a b : no_byte c a = true ->
  split_byte c cur (a +:+ String c b) = (cur +:+ a) :: split_byte c "" b.
Proof.
  revert cur. induction a as [|x a IH]; intros cur Ha.
  - simpl. by rewrite Ascii.eqb_refl, app_empty_r.
  - apply no_byte_cons in Ha as [Hx Ha]. rewrite app_cons. simpl. rewrite (proj2 (Ascii.eqb_neq x c) Hx), IH by done.
    by rewrite string_app_assoc, app_cons, app_empty.
Qed.
Lemma split_one c cur a : no_byte c a = true -> split_byte c cur a = [(cur +:+ a)].
Proof.
  revert cur. induction a as [|x a IH]; intros cur Ha.
  - simpl. by rewrite app_empty_r.
  - apply no_byte_cons in Ha as [Hx Ha]. simpl. rewrite (proj2 (Ascii.eqb_neq x c) Hx), IH by done. by rewrite string_app_assoc, app_cons, app_empty.
Qed.
Lemma last_index_none s c : last_index_of s (String c "") = None -> no_byte c s = true.
Proof.
  induction s as [|x s IH]; [done|]. cbn [last_index_of]. destruct (last_index_of s (String c "")); [done|].
  rewrite has_prefix_head, has_prefix_empty. destruct (ascii_dec c x); [done|]. intros _. apply no_byte_cons. split; [congruence|by apply IH].
Qed.
Lemma last_index_parts s c i : last_index_of s (String c "") = Some i ->
  exists a b, s = (a +:+ String c b) /\ String.length a = i /\ no_byte c b = true.
Proof.
  revert i. induction s as [|x s IH]; intros i; [done|]. cbn [last_index_of]. destruct (last_index_of s (String c "")) as [j|] eqn:E.
  - intros [= <-]. destruct (IH j eq_refl) as (a & b & -> & Ha & Hb). exists (String x a), b. split_and!; [done|simpl; by rewrite Ha|done].
  - rewrite has_prefix_head, has_prefix_empty. destruct (ascii_dec c x) as [->|]; [|done]. intros [= <-]. exists "", s. split_and!; [done|done|by apply last_index_none].
Qed.

(** ** Texts of zeros and ones *)
Fixpoint bits_of (p : positive) : string :=
  match p with
  | xH => ""
  | xO q => String "0"%char (bits_of q)
  | xI q => String "1"%char (bits_of q)
  end.
Fixpoint of_bits (s : string) : positive :=
  match s with
  | EmptyString => xH
  | String c q => if Ascii.eqb c "0"%char then xO (of_bits q) else xI (of_bits q)
  end.
Lemma of_bits_of p : of_bits (bits_of p) = p.
Proof. induction p; simpl; by rewrite ?IHp. Qed.

(** * Go's [time.ParseDuration]

    A sequence of decimal numbers, each with an optional fraction and a unit.
    The integer part is kept in 64 bits with the library's overflow checks; the
    fraction is scaled in [float64], here the IEEE-754 arithmetic of
    [SpecFloat] at 53 bits. *)
From S2P Require Import Prelude.
From Stdlib Require Import Ascii SpecFloat.

Local Open Scope Z_scope.

(** [float64] of an integer, its product and quotient, and the conversion of a
    non-negative value back to an integer, which truncates. *)
Definition f64_of (z : Z) : spec_float := binary_normalize 53 1024 z 0 false.
Definition f64_mul : spec_float -> spec_float -> spec_float := SFmul 53 1024.
Definition f64_div : spec_float -> spec_float -> spec_float := SFdiv 53 1024.
Definition f64_add : spec_float -> spec_float -> spec_float := SFadd 53 1024.
Definition f64_trunc (x : spec_float) : Z :=
  match x with
  | S754_finite false m e => if 0 <=? e then Zpos m * 2 ^ e else Zpos m / 2 ^ (- e)
  | _ => 0
  end.

(** Duration.Seconds and Duration.Minutes, converted to int. *)
Definition int_seconds (d : duration) : Z :=
  f64_trunc (f64_add (f64_of (Z.quot d second)) (f64_div (f64_of (Z.rem d second)) (f64_of second))).
Definition int_minutes (d : duration) : Z :=
  f64_trunc (f64_add (f64_of (Z.quot d minute)) (f64_div (f64_of (Z.rem d minute)) (f64_of minute))).

(** The longest prefix of digits, read as an integer; [None] on overflow. *)
Fixpoint leading_int (x : Z) (s : string) : option (Z * string) :=
  match s with
  | String c t =>
      if is_digit c then
        if 2 ^ 63 / 10 <? x then None
        else
          let y := x * 10 + (byte_val c - 48) in
          if 2 ^ 63 <? y then None else leading_int y t
      else Some (x, s)
  | EmptyString => Some (x, s)
  end.

(** The digits of a fraction, as a numerator and a power of ten; digits past
    the overflow are read and ignored. *)
Fixpoint leading_fraction (x scale : Z) (overflow : bool) (s : string) : Z * Z * string :=
  match s with
  | String c t =>
      if is_digit c then
        if overflow || ((2 ^ 63 - 1) / 10 <? x) then leading_fraction x scale true t
        else
          let y := x * 10 + (byte_val c - 48) in
          if 2 ^ 63 <? y then leading_fraction x scale true t
          else leading_fraction y (scale * 10) false t
      else (x, scale, s)
  | EmptyString => (x, scale, s)
  end.

Definition unit_map (u : string) : option Z :=
  if String.eqb u "ns" then Some 1
  else if String.eqb u "us" then Some 1000
  else if String.eqb u (bytes_str [194; 181; 115]) then Some 1000
  else if String.eqb u (bytes_str [206; 188; 115]) then Some 1000
  else if String.eqb u "ms" then Some 1000000
  else if String.eqb u "s" then Some second
  else if String.eqb u "m" then Some (60 * second)
  else if String.eqb u "h" then Some (3600 * second)
  else None.

(** The unit: everything up to the next digit or point. *)
Fixpoint span_unit (s : string) : string * string :=
  match s with
  | String c t =>
      if Ascii.eqb c "."%char || is_digit c then ("", s)%string
      else let '(u, r) := span_unit t in (String c u, r)
  | EmptyString => ("", "")%string
  end.

(** One number with its unit: what it adds to the total, and the rest. *)
Definition duration_term (s : string) : option (Z * string) :=
  match s with
  | EmptyString => None
  | String c _ =>
      if negb (Ascii.eqb c "."%char || is_digit c) then None
      else
        '(v, s1) ← leading_int 0 s;
        let pre := negb (String.length s1 =? String.length s)%nat in
        let '(f, scale, s2, post) :=
          match s1 with
          | String c1 t1 =>
              if Ascii.eqb c1 "."%char then
                let '(f, scale, s2) := leading_fraction 0 1 false t1 in
                (f, scale, s2, negb (String.length s2 =? String.length t1)%nat)
              else (0, 1, s1, false)
          | EmptyString => (0, 1, s1, false)
          end in
        if negb pre && negb post then None
        else
          let '(u, s3) := span_unit s2 in
          if String.eqb u "" then None
          else
            unit ← unit_map u;
            if 2 ^ 63 / unit <? v then None
            else
              let v := v * unit in
              let v' := if 0 <? f
                        then v + f64_trunc (f64_mul (f64_of f) (f64_div (f64_of unit) (f64_of scale)))
                        else v in
              if (0 <? f) && (2 ^ 63 <? v') then None else Some (v', s3)
  end.

Fixpoint duration_terms (fuel : nat) (d : Z) (s : string) : option Z :=
  match s with
  | EmptyString => Some d
  | _ =>
      match fuel with
      | O => None
      | S n =>
          '(v, rest) ← duration_term s;
          if 2 ^ 63 <? d + v then None else duration_terms n (d + v) rest
      end
  end.

(** Every term takes at least two bytes, so the length is fuel enough. *)
Definition parse_duration (s : string) : option duration :=
  let '(neg, s) := match s with
    | String c t => if Ascii.eqb c "-"%char then (true, t)
                    else if Ascii.eqb c "+"%char then (false, t) else (false, s)
    | EmptyString => (false, s)
    end in
  if String.eqb s "0" then Some 0
  else if String.eqb s "" then None
  else
    d ← duration_terms (String.length s) 0 s;
    if neg then Some (- d) else if 2 ^ 63 - 1 <? d then None else Some d.

Example durations :
  map parse_duration ["1m30s"; "1.5h"; "-2.25s"; "0"; ".5m"; "1h15m30.918s"; "5"; "1x"; "."; "9223372036.854775807s"]
  = [Some (90 * second); Some (5400 * second); Some (-2250000000); Some 0; Some (30 * second);
     Some 4530918000000; None; None; None; Some 9223372036854775807].
Proof. vm_compute. reflexivity. Qed.
