(* ===== verification/GoUtf8.v ===== *)
(** * UTF-8 as Go's unicode/utf8 reads it

    Decoding one rune, strings.ToValidUTF8 with an empty replacement, and a cut
    at a character boundary. *)
From S2P Require Import Prelude GoStrings.
From Stdlib Require Import Ascii.

Local Open Scope string_scope.
Local Open Scope Z_scope.

Definition in_range (lo hi : Z) (c : ascii) : bool := (lo <=? byte_val c) && (byte_val c <=? hi).
Definition cont_byte : ascii -> bool := in_range 128 191.

(** What the second byte may be after a first byte, and how many follow it. *)
Definition second_byte (c : ascii) : option (ascii -> bool * nat) :=
  let b := byte_val c in
  if (194 <=? b) && (b <=? 223) then Some (fun d => (cont_byte d, 0%nat))
  else if b =? 224 then Some (fun d => (in_range 160 191 d, 1%nat))
  else if b =? 237 then Some (fun d => (in_range 128 159 d, 1%nat))
  else if (225 <=? b) && (b <=? 239) then Some (fun d => (cont_byte d, 1%nat))
  else if b =? 240 then Some (fun d => (in_range 144 191 d, 2%nat))
  else if (241 <=? b) && (b <=? 243) then Some (fun d => (cont_byte d, 2%nat))
  else if b =? 244 then Some (fun d => (in_range 128 143 d, 2%nat))
  else None.
Fixpoint conts (n : nat) (s : string) : bool :=
  match n, s with
  | O, _ => true
  | S n, String c s => cont_byte c && conts n s
  | S _, "" => false
  end.
(** The bytes of the rune a string starts with, None at an invalid byte. *)
Definition rune_size (s : string) : option nat :=
  match s with
  | "" => None
  | String c s =>
      if byte_val c <? 128 then Some 1%nat
      else
        match second_byte c, s with
        | Some f, String d s => let (ok, n) := f d in if ok && conts n s then Some (2 + n)%nat else None
        | _, _ => None
        end
  end.

(** The pieces a string decodes to: a whole rune, or one invalid byte. *)
Inductive piece := Rune (s : string) | Bad (c : ascii).
Fixpoint pieces_fuel (fuel : nat) (s : string) : list piece :=
  match fuel, s with
  | S fuel, String c t =>
      match rune_size s with
      | Some n => Rune (str_take n s) :: pieces_fuel fuel (str_drop n s)
      | None => Bad c :: pieces_fuel fuel t
      end
  | _, _ => []
  end.
Definition pieces (s : string) : list piece := pieces_fuel (String.length s) s.

Definition concat_str (l : list string) : string := foldr String.append "" l.
(** What ranging over a string or converting it to runes makes of a piece. *)
Definition replacement : string := Eval vm_compute in bytes_str [239; 191; 189].
Definition rune_text (p : piece) : string := match p with Rune s => s | Bad _ => replacement end.
(** The printable runes of a trimmed text, tabs included, at most [n] of them. *)
Definition printable (r : string) : bool := match r with String c "" => negb (byte_val c <? 32) || (byte_val c =? 9) | _ => true end.
Definition bounded_runes (n : nat) (s : string) : string := concat_str (take n (List.filter printable (map rune_text (pieces (trim_space s))))).
Definition rune_of (p : piece) : option string := match p with Rune s => Some s | Bad _ => None end.
Definition ToValidUTF8 (s : string) : string := concat_str (omap rune_of (pieces s)).
Definition ValidString (s : string) : bool := forallb (fun p => bool_decide (is_Some (rune_of p))) (pieces s).

Definition RuneStart (s : string) (i : nat) : bool :=
  match String.get i s with Some c => negb (cont_byte c) | None => true end.
Fixpoint boundary (s : string) (n : nat) : nat :=
  match n with O => O | S m => if RuneStart s n then n else boundary s m end.
Definition cutUTF8 (s : string) (n : nat) : string :=
  let s := ToValidUTF8 s in
  if (String.length s <=? n)%nat then s else str_take (boundary s n) s.

(** ** Whole runes *)
Definition whole (r : string) : Prop := rune_size r = Some (String.length r).

Lemma conts_app n s t : (n <= String.length s)%nat -> conts n (s +:+ t) = conts n s.
Proof. revert s. induction n as [|n IH]; intros [|c s] Hn; simpl in *; try done; try lia. by rewrite IH by lia. Qed.
Lemma conts_len n s : conts n s = true -> (n <= String.length s)%nat /\ str_forall cont_byte (str_take n s) = true.
Proof.
  revert s. induction n as [|n IH]; intros s Hs; [split; [lia|by destruct s]|]. destruct s as [|c s]; [done|]. simpl in *. apply andb_prop in Hs as [Hc Hs].
  destruct (IH s Hs) as [H1 H2]. split; [lia|]. by rewrite Hc, H2.
Qed.
Lemma conts_take n m s : (n <= m)%nat -> conts n s = true -> conts n (str_take m s) = true.
Proof.
  revert m s. induction n as [|n IH]; intros [|m] [|c s] Hm Hs; simpl in *; try done; try lia. apply andb_prop in Hs as [Hc Hs]. rewrite Hc. apply IH; [lia|done].
Qed.

Lemma second_spec c f d : second_byte c = Some f -> 128 <= byte_val c -> cont_byte c = false /\ (fst (f d) = true -> cont_byte d = true) /\ (snd (f d) <= 2)%nat.
Proof.
  unfold second_byte, cont_byte, in_range. set (b := byte_val c). set (e := byte_val d). intros Hf Hb.
  repeat (case_match; [injection Hf as <-; simpl; split; [destruct (Z.leb_spec 128 b), (Z.leb_spec b 191); simpl; try done; lia|split; [|lia]];
    intros H'; repeat (apply andb_prop in H' as [? ?]); repeat match goal with H : (_ <=? _) = true |- _ => apply Z.leb_le in H end;
    apply andb_true_intro; split; apply Z.leb_le; lia|]). done.
Qed.

(** A rune is a first byte and at most three that continue it; it is the same
    rune whatever follows. *)
Lemma rune_spec s n : rune_size s = Some n -> exists c t u, s = String c (t +:+ u) /\ n = S (String.length t) /\ (n <= 4)%nat /\
  cont_byte c = false /\ str_forall cont_byte t = true /\ forall v, rune_size (String c (t +:+ v)) = Some n.
Proof.
  destruct s as [|c s]; [done|]. simpl. destruct (Z.ltb_spec (byte_val c) 128) as [Hb|Hb].
  - intros [= <-]. exists c, "", s. split_and!; try done; try lia.
    + unfold cont_byte, in_range. destruct (Z.leb_spec 128 (byte_val c)); [lia|done].
    + intros v. simpl. destruct (Z.ltb_spec (byte_val c) 128); [done|lia].
  - destruct (second_byte c) as [f|] eqn:Hf; [|done]. destruct s as [|d s]; [done|]. destruct (f d) as [ok m] eqn:Hd.
    destruct (second_spec c f d Hf Hb) as (H1 & H2 & H3). rewrite Hd in H2, H3. simpl in H2, H3. destruct ok; [|done]. cbn [andb].
    destruct (conts m s) eqn:Hc; [|done]. intros [= <-]. destruct (conts_len _ _ Hc) as [H4 H5].
    exists c, (String d (str_take m s)), (str_drop m s). split_and!; try done.
    + by rewrite <-(str_take_drop m s) at 1.
    + simpl. rewrite str_take_len. lia.
    + lia.
    + simpl. by rewrite H2, H5.
    + intros v. simpl. destruct (Z.ltb_spec (byte_val c) 128); [lia|]. rewrite Hf, Hd. cbn [andb].
      rewrite conts_app by (rewrite str_take_len; lia). by rewrite (conts_take m m s) by done.
Qed.
Lemma whole_spec r : whole r -> exists c t, r = String c t /\ (String.length r <= 4)%nat /\ cont_byte c = false /\ str_forall cont_byte t = true /\
  forall v, rune_size (r +:+ v) = Some (String.length r).
Proof.
  intros Hr. destruct (rune_spec _ _ Hr) as (c & t & u & -> & Hn & H4 & Hc & Ht & Hv). exists c, t.
  assert (Hu : u = ""%string) by (destruct u; [done|]; simpl in Hn; rewrite string_app_length in Hn; simpl in Hn; lia). subst u. rewrite app_empty_r in *. done.
Qed.
Lemma rune_whole s n : rune_size s = Some n -> whole (str_take n s) /\ str_take n s <> ""%string.
Proof.
  intros Hs. destruct (rune_spec _ _ Hs) as (c & t & u & -> & -> & _ & _ & _ & Hv). simpl. rewrite str_take_app. split; [|done].
  unfold whole. rewrite <-(app_empty_r t), (Hv ""%string), app_empty_r. done.
Qed.

Lemma pieces_enough fuel s : (String.length s <= fuel)%nat -> pieces_fuel fuel s = pieces s.
Proof.
  unfold pieces. revert s. induction fuel as [fuel IH] using (well_founded_induction Nat.lt_wf_0). intros s Hs.
  destruct s as [|c s]; [by destruct fuel|]. destruct fuel as [|fuel]; [simpl in Hs; lia|]. simpl in Hs. cbn [pieces_fuel String.length].
  assert (Hsame : forall t, (String.length t <= String.length s)%nat -> pieces_fuel fuel t = pieces_fuel (String.length s) t).
  { intros t Ht. rewrite (IH fuel) by lia. destruct (decide (String.length s = fuel)) as [->|]; [symmetry; apply (IH fuel); lia|]. symmetry. apply (IH (String.length s)); lia. }
  destruct (rune_size (String c s)) as [n|] eqn:Hn; [|by rewrite Hsame].
  assert (Hn0 : (0 < n)%nat) by (destruct (rune_spec _ _ Hn) as (? & ? & ? & _ & -> & _); lia).
  rewrite Hsame; [done|]. rewrite str_drop_len. simpl. lia.
Qed.
Lemma pieces_cons r s : whole r -> pieces (r +:+ s) = Rune r :: pieces s.
Proof.
  intros Hr. destruct (whole_spec r Hr) as (c & t & -> & _ & _ & _ & Hv). assert (Hvs := Hv s). unfold pieces at 1. rewrite app_cons in *. cbn [String.length pieces_fuel].
  rewrite Hvs. rewrite <-app_cons, str_take_app, str_drop_app. f_equal. apply pieces_enough. rewrite string_app_length. lia.
Qed.
Lemma pieces_whole s : Forall (fun p => match p with Rune r => whole r | Bad _ => True end) (pieces s).
Proof.
  unfold pieces. generalize (String.length s) as n. intros n. revert s. induction n as [|n IH]; intros [|c s]; try by constructor. cbn [pieces_fuel].
  destruct (rune_size (String c s)) as [k|] eqn:Hk; constructor; try apply IH; try done. by apply rune_whole.
Qed.
Definition runes (s : string) : list string := omap rune_of (pieces s).
Lemma runes_whole s : Forall whole (runes s).
Proof. unfold runes. induction (pieces_whole s) as [|[r|c] l Hp _ IH]; simpl; [done|by constructor|done]. Qed.
Lemma pieces_concat rs : Forall whole rs -> pieces (concat_str rs) = map Rune rs.
Proof. induction 1 as [|r rs Hr _ IH]; [done|]. simpl. by rewrite pieces_cons, IH. Qed.
Lemma concat_valid rs : Forall whole rs -> ValidString (concat_str rs) = true.
Proof. intros Hr. unfold ValidString. rewrite pieces_concat by done. clear Hr. by induction rs. Qed.

(** Where a string of whole runes can be cut. *)
Lemma get_app i a b : String.get (String.length a + i) (a +:+ b) = String.get i b.
Proof. induction a as [|c a IH]; [done|]. simpl. exact IH. Qed.
Lemma take_past a b j : str_take (String.length a + j) (a +:+ b) = a +:+ str_take j b.
Proof. induction a as [|c a IH]; [done|]. rewrite !app_cons. simpl. by rewrite IH. Qed.
Lemma get_cont i t u c : (i < String.length t)%nat -> str_forall cont_byte t = true -> String.get (S i) (String c t +:+ u) = Some (default c (String.get i t)) /\ cont_byte (default c (String.get i t)) = true.
Proof.
  rewrite app_cons. cbn [String.get]. revert i. induction t as [|d t IH]; intros i Hi Ht; simpl in *; [lia|]. apply andb_prop in Ht as [Hd Ht].
  destruct i as [|i]; [done|]. apply IH; [lia|done].
Qed.
Lemma start_cut rs i : Forall whole rs -> (i <= String.length (concat_str rs))%nat -> i = 0%nat \/ RuneStart (concat_str rs) i = true ->
  exists k, str_take i (concat_str rs) = concat_str (take k rs) /\ i = String.length (concat_str (take k rs)).
Proof.
  intros Hrs. revert i. induction Hrs as [|r rs Hr Hrs IH]; intros i Hi Hstart; [exists 0%nat; simpl in *; assert (i = 0%nat) as -> by lia; done|].
  destruct (decide (i = 0%nat)) as [->|Hi0]; [exists 0%nat; split; [|done]; by destruct (concat_str (r :: rs))|]. destruct Hstart as [|Hstart]; [done|].
  simpl in *. rewrite string_app_length in Hi. destruct (decide (String.length r <= i)%nat) as [Hle|Hgt].
  - assert (i = String.length r + (i - String.length r))%nat as E by lia. set (j := (i - String.length r)%nat) in *. rewrite E.
    destruct (IH j) as (k & H1 & H2); [lia| |].
    + right. unfold RuneStart in *. by rewrite E, get_app in Hstart.
    + exists (S k). simpl. rewrite string_app_length, <-H2. split; [|done]. by rewrite take_past, H1.
  - exfalso. destruct (whole_spec r Hr) as (c & t & -> & _ & _ & Ht & _). destruct i as [|i]; [done|]. simpl in Hgt.
    destruct (get_cont i t (concat_str rs) c) as [Hg Hc]; [lia|done|]. unfold RuneStart in Hstart. rewrite Hg, Hc in Hstart. done.
Qed.
Lemma boundary_spec s n : (boundary s n <= n)%nat /\ (boundary s n = 0%nat \/ RuneStart s (boundary s n) = true) /\ forall j, (boundary s n < j <= n)%nat -> RuneStart s j = false.
Proof.
  induction n as [|n (H1 & H2 & H3)]; [simpl; split_and!; [lia|by left|intros; lia]|]. cbn [boundary].
  destruct (RuneStart s (S n)) eqn:Hs; [split_and!; [lia|by right|intros; lia]|]. split_and!; [lia|done|].
  intros j Hj. destruct (decide (j = S n)) as [->|]; [done|]. apply H3. lia.
Qed.

(** The cut text: valid, no longer than the bound, a beginning of what is valid
    of the text, and short of the bound by at most an unfinished rune. *)
Lemma cut_spec s n : ValidString (cutUTF8 s n) = true /\ (String.length (cutUTF8 s n) <= n)%nat /\ (exists k, cutUTF8 s n = concat_str (take k (runes s))) /\
  (String.length (cutUTF8 s n) < n - 3 -> cutUTF8 s n = ToValidUTF8 s)%nat.
Proof.
  assert (Hw := runes_whole s). unfold cutUTF8, ToValidUTF8. fold (runes s). set (rs := runes s) in *. destruct (Nat.leb_spec (String.length (concat_str rs)) n) as [Hle|Hgt].
  - split_and!; [by apply concat_valid|done| |done]. exists (length rs). by rewrite firstn_all.
  - destruct (boundary_spec (concat_str rs) n) as (H1 & H2 & H3). set (b := boundary _ n) in *.
    destruct (start_cut rs b Hw ltac:(lia) H2) as (k & Ht & Hb). rewrite Ht. split_and!; [apply concat_valid; by apply Forall_take|lia|by exists k|].
    intros Hlt. exfalso. assert (Hk : (k < length rs)%nat).
    { destruct (decide (k < length rs)%nat) as [|Hn]; [done|]. rewrite take_ge in Hb by lia. lia. }
    destruct (lookup_lt_is_Some_2 rs k Hk) as [r Hr]. assert (Hwr : whole r) by (rewrite Forall_lookup in Hw; by apply (Hw k)).
    destruct (whole_spec r Hwr) as (c & t & _ & H4 & _).
    assert (Hsplit : concat_str rs = concat_str (take k rs) +:+ r +:+ concat_str (drop (S k) rs)).
    { rewrite <-(take_drop_middle rs k r Hr) at 1. clear. induction (take k rs) as [|x l IH]; [done|]. simpl. by rewrite IH, string_app_assoc. }
    assert (Hst : RuneStart (concat_str rs) (b + String.length r) = true).
    { unfold RuneStart. rewrite Hsplit, Hb, get_app. rewrite <-(Nat.add_0_r (String.length r)), get_app.
      assert (Hd : Forall whole (drop (S k) rs)) by (by apply Forall_drop). destruct (drop (S k) rs) as [|q l]; [done|]. apply Forall_cons in Hd as [Hq _].
      destruct (whole_spec q Hq) as (c2 & t2 & -> & _ & Hc2 & _). simpl. by rewrite Hc2. }
    assert (Hr0 : (0 < String.length r)%nat) by (destruct (whole_spec r Hwr) as (? & ? & -> & _); simpl; lia).
    rewrite (H3 (b + String.length r)%nat) in Hst; [done|lia].
Qed.
