(* ===== verification/GoPath.v ===== *)
(** * Go's path/filepath on Unix, as the agent uses it

    Paths are byte strings; [path_clean] is the lexical normal form, [path_join],
    [path_dir] and [path_base] are defined from it as in the library. *)
From S2P Require Import Prelude GoStrings.
From Stdlib Require Import Ascii.

Local Open Scope string_scope.

(** The text between the slashes. *)
Fixpoint path_parts (cur : string) (s : string) : list string :=
  match s with
  | EmptyString => [cur]
  | String c t => if Ascii.eqb c "/"%char then cur :: path_parts "" t else path_parts (cur +:+ String c "") t
  end.

(** One element of a path against the elements kept so far, innermost first. *)
Definition clean_part (rooted : bool) (kept : list string) (p : string) : list string :=
  if String.eqb p "" || String.eqb p "." then kept
  else if String.eqb p ".." then
    match kept with
    | [] => if rooted then [] else [".."]
    | k :: rest => if String.eqb k ".." then ".." :: kept else rest
    end
  else p :: kept.

Definition path_abs (p : string) : bool := has_prefix p "/".

Definition join_parts (l : list string) : string :=
  match l with [] => "" | p :: l => foldl (fun acc x => acc +:+ "/" +:+ x) p l end.

Definition path_clean (p : string) : string :=
  if String.eqb p "" then "."
  else
    let kept := rev (foldl (clean_part (path_abs p)) [] (path_parts "" p)) in
    if path_abs p then "/" +:+ join_parts kept
    else if bool_decide (kept = []) then "." else join_parts kept.

Definition path_join (dir name : string) : string :=
  if String.eqb dir "" then (if String.eqb name "" then "" else path_clean name)
  else if String.eqb name "" then path_clean dir
  else path_clean (dir +:+ "/" +:+ name).

Definition strip_slashes (p : string) : string :=
  strip_all (fun t => cut_suffix t "/") (String.length p) p.

Definition path_base (p : string) : string :=
  if String.eqb p "" then "."
  else
    let p := strip_slashes p in
    let b := match last_index_of p "/" with Some i => str_drop (i + 1) p | None => p end in
    if String.eqb b "" then "/" else b.

Definition path_dir (p : string) : string :=
  path_clean (match last_index_of p "/" with Some i => str_take (i + 1) p | None => "" end).

Example paths_cleaned :
  map path_clean [""; "/"; "/a//b/./c/../d/"; "../a/../.."; "a/.."; "/.."] = ["."; "/"; "/a/b/d"; "../.."; "."; "/"].
Proof. vm_compute. reflexivity. Qed.
Example paths_split :
  (path_join "/etc/sing-box" "x.json", path_dir "/etc/sing-box/x.json", path_base "/etc/sing-box/x.json", path_dir "/x", path_base "/")
  = ("/etc/sing-box/x.json", "/etc/sing-box", "x.json", "/", "/").
Proof. vm_compute. reflexivity. Qed.

(** ** A plain name in a directory *)
Lemma path_parts_app cur a b : path_parts cur (a +:+ "/" +:+ b) = app (path_parts cur a) (path_parts "" b).
Proof.
  revert cur. induction a as [|c a IH]; intros cur; [done|]. rewrite app_cons. simpl. destruct (Ascii.eqb c "/"); rewrite IH; done.
Qed.
Lemma path_parts_plain cur s : no_byte "/" s = true -> path_parts cur s = [cur +:+ s].
Proof.
  revert cur. induction s as [|c s IH]; intros cur Hs; [simpl; by rewrite app_empty_r|]. apply no_byte_cons in Hs as [Hc Hs].
  simpl. rewrite (proj2 (Ascii.eqb_neq c "/") Hc), IH by done. by rewrite string_app_assoc, app_cons, app_empty.
Qed.
Lemma join_parts_snoc l x : join_parts (app l [x]) = match l with [] => x | _ => join_parts l +:+ "/" +:+ x end.
Proof. destruct l as [|p l]; [done|]. simpl. by rewrite foldl_app. Qed.

Definition plain_name (s : string) : bool :=
  negb (String.eqb s "") && negb (String.eqb s ".") && negb (String.eqb s "..") && no_byte "/" s.

(** Joining a plain name stays in the directory. *)
Lemma path_join_plain dir name : dir <> "" -> plain_name name = true ->
  exists lead, path_join dir name = lead +:+ name /\
    (lead = path_clean dir +:+ "/" \/ (lead = "/" /\ path_clean dir = "/") \/ (lead = "" /\ path_clean dir = ".")).
Proof.
  unfold plain_name. rewrite !andb_true_iff, !negb_true_iff. intros Hd [[[H1 H2] H3] H4]. unfold path_join. rewrite (proj2 (String.eqb_neq _ _) Hd), H1.
  assert (Habs : path_abs (dir +:+ "/" +:+ name) = path_abs dir) by (destruct dir; [done|]; rewrite app_cons; unfold path_abs; rewrite !has_prefix_head; destruct (ascii_dec _ _); by rewrite ?has_prefix_empty).
  assert (Hne : String.eqb (dir +:+ "/" +:+ name) "" = false) by (by destruct dir).
  unfold path_clean. rewrite Hne, (proj2 (String.eqb_neq _ _) Hd), Habs, path_parts_app, (path_parts_plain "" name), app_empty, foldl_app by done. simpl foldl.
  set (kept := foldl (clean_part (path_abs dir)) [] (path_parts "" dir)).
  assert (Hk : clean_part (path_abs dir) kept name = name :: kept) by (unfold clean_part; by rewrite H1, H2, H3). rewrite Hk. simpl rev. rewrite join_parts_snoc.
  assert (Hnn : bool_decide (app (rev kept) [name] = []) = false) by (apply bool_decide_eq_false; by destruct (rev kept)). rewrite Hnn.
  destruct (path_abs dir), (rev kept) as [|k ks].
  - exists "/". auto.
  - exists ("/" +:+ join_parts (k :: ks) +:+ "/"). rewrite !string_app_assoc. auto.
  - exists "". rewrite app_empty. auto.
  - exists (join_parts (k :: ks) +:+ "/"). rewrite !string_app_assoc. auto.
Qed.

(** * Absolute clean paths as lists of names

    A clean absolute path is the root with plain names below it; its base is
    the last name and its directory the path without it. *)
From S2P Require Import Prelude GoStrings.
From Stdlib Require Import Ascii.

Local Open Scope string_scope.

Definition plain (s : string) : Prop := plain_name s = true.
Lemma plain_parts s : plain s -> s <> "" /\ s <> "." /\ s <> ".." /\ no_byte "/" s = true.
Proof.
  unfold plain, plain_name. rewrite !andb_true_iff, !negb_true_iff. intros [[[H1 H2] H3] H4].
  split; [by apply String.eqb_neq|]. split; [by apply String.eqb_neq|]. split; [by apply String.eqb_neq|done].
Qed.

(** The path of the names [l] below the root. *)
Definition dir_of (l : list string) : string := "/" +:+ join_parts l.
Definition lead_of (l : list string) : string := match l with [] => "/" | _ => dir_of l +:+ "/" end.

Lemma dir_of_snoc l x : dir_of (app l [x]) = lead_of l +:+ x.
Proof. unfold dir_of, lead_of. rewrite join_parts_snoc. destruct l; [done|]. unfold dir_of. by rewrite !string_app_assoc. Qed.
Lemma lead_split l : exists a, lead_of l = a +:+ "/".
Proof. destruct l as [|p l]; [by exists ""|]. by exists (dir_of (p :: l)). Qed.

Lemma path_parts_join l : Forall plain l -> l <> [] -> path_parts "" (join_parts l) = l.
Proof.
  induction l as [|x l IH] using rev_ind; [done|]. intros [Hl Hx]%Forall_app _. inversion_clear Hx as [|? ? Hp _].
  apply plain_parts in Hp as (_ & _ & _ & Hn). rewrite join_parts_snoc. destruct l as [|p l]; [by rewrite path_parts_plain, app_empty|].
  by rewrite path_parts_app, IH, path_parts_plain, app_empty.
Qed.
Lemma clean_plain l : Forall plain l -> forall kept, foldl (clean_part true) kept l = app (rev l) kept.
Proof.
  induction 1 as [|x l Hx _ IH]; intros kept; [done|]. apply plain_parts in Hx as (H1 & H2 & H3 & _). simpl. unfold clean_part at 2.
  rewrite (proj2 (String.eqb_neq _ _) H1), (proj2 (String.eqb_neq _ _) H2), (proj2 (String.eqb_neq _ _) H3). simpl. rewrite IH. by rewrite <-app_assoc.
Qed.
Lemma dir_of_parts l : Forall plain l -> foldl (clean_part true) [] (path_parts "" (dir_of l)) = rev l.
Proof.
  intros Hl. change (dir_of l) with ("" +:+ "/" +:+ join_parts l). rewrite path_parts_app. simpl.
  destruct l as [|p l]; [done|]. rewrite path_parts_join by done. rewrite clean_plain by done. by rewrite app_nil_r.
Qed.
Lemma path_clean_dir l : Forall plain l -> path_clean (dir_of l) = dir_of l.
Proof. intros Hl. unfold path_clean. change (String.eqb (dir_of l) "") with false. cbv iota. change (path_abs (dir_of l)) with (has_prefix ("/" +:+ join_parts l) "/").
  rewrite has_prefix_app. rewrite dir_of_parts by done. by rewrite rev_involutive. Qed.
Lemma path_clean_lead l : Forall plain l -> path_clean (lead_of l) = dir_of l.
Proof.
  intros Hl. destruct l as [|p l]; [done|]. unfold path_clean, lead_of.
  change (String.eqb (dir_of (p :: l) +:+ "/") "") with false. cbv iota. unfold path_abs.
  assert (has_prefix (dir_of (p :: l) +:+ "/") "/" = true) as -> by (unfold dir_of; rewrite string_app_assoc; apply has_prefix_app).
  change (dir_of (p :: l) +:+ "/") with (dir_of (p :: l) +:+ "/" +:+ ""). rewrite path_parts_app, foldl_app, dir_of_parts by done. simpl foldl.
  unfold clean_part. simpl orb. cbv iota. change (app (rev l) [p]) with (rev (p :: l)). by rewrite rev_involutive.
Qed.

(** A clean absolute path is of this form. *)
Lemma parts_no_slash s : forall cur, no_byte "/" cur = true -> Forall (fun p => no_byte "/" p = true) (path_parts cur s).
Proof.
  induction s as [|c s IH]; intros cur Hc; simpl; [by repeat constructor|].
  destruct (Ascii.eqb_spec c "/") as [->|Hn]; [constructor; [done|by apply IH]|].
  apply IH. rewrite no_byte_app, Hc. simpl. by apply andb_true_iff; split; [apply negb_true_iff, Ascii.eqb_neq|].
Qed.
Lemma clean_part_plain kept p : Forall plain kept -> no_byte "/" p = true -> Forall plain (clean_part true kept p).
Proof.
  intros Hk Hp. unfold clean_part. destruct (String.eqb p "") eqn:E1; [done|]. destruct (String.eqb p ".") eqn:E2; [done|]. simpl.
  destruct (String.eqb p "..") eqn:E3.
  - destruct kept as [|k rest]; [done|]. inversion_clear Hk as [|? ? Hk' Hr]. apply plain_parts in Hk' as (_ & _ & H & _).
    by rewrite (proj2 (String.eqb_neq _ _) H).
  - constructor; [|done]. unfold plain, plain_name. by rewrite E1, E2, E3, Hp.
Qed.
Lemma path_clean_abs p : path_abs p = true -> exists l, Forall plain l /\ path_clean p = dir_of l.
Proof.
  intros Ha. unfold path_clean. destruct (String.eqb_spec p "") as [->|_]; [done|]. rewrite Ha.
  exists (rev (foldl (clean_part true) [] (path_parts "" p))). split; [|done]. apply Forall_rev.
  pose proof (parts_no_slash p "" eq_refl) as Hp. revert Hp. generalize (path_parts "" p). intros l Hl.
  assert (forall kept, Forall plain kept -> Forall plain (foldl (clean_part true) kept l)) as H; [|by apply H].
  induction Hl as [|x l Hx _ IH]; intros kept Hk; [done|]. simpl. by apply IH, clean_part_plain.
Qed.

(** ** Base and directory *)
Lemma last_byte_no c s : no_byte c s = true -> last_byte s <> Some c.
Proof.
  induction s as [|x s IH]; [done|]. intros [Hx Hs]%no_byte_cons. destruct s as [|y s]; [simpl; congruence|]. by apply IH.
Qed.
Lemma path_dir_snoc l x : Forall plain l -> plain x -> path_dir (dir_of (app l [x])) = dir_of l.
Proof.
  intros Hl Hx. apply plain_parts in Hx as (_ & _ & _ & Hn). rewrite dir_of_snoc. destruct (lead_split l) as (a & Ha).
  rewrite <-(path_clean_lead l) by done. rewrite Ha, string_app_assoc. unfold path_dir. change ("/" +:+ x) with (String "/" x).
  rewrite last_index_first by done. f_equal. change (String "/" x) with ("/" +:+ x). rewrite <-string_app_assoc.
  assert (String.length a + 1 = String.length (a +:+ "/"))%nat as -> by (by rewrite string_app_length). apply str_take_app.
Qed.
Lemma path_base_snoc l x : Forall plain l -> plain x -> path_base (dir_of (app l [x])) = x.
Proof.
  intros Hl Hx. apply plain_parts in Hx as (He & _ & _ & Hn). rewrite dir_of_snoc. destruct (lead_split l) as (a & Ha). rewrite Ha.
  assert (Hstrip : strip_slashes ((a +:+ "/") +:+ x) = (a +:+ "/") +:+ x).
  { unfold strip_slashes. assert (cut_suffix ((a +:+ "/") +:+ x) "/" = None) as Hc.
    { unfold cut_suffix. destruct (has_suffix _ _) eqn:E; [|done]. apply has_suffix_last in E; [|done]. rewrite last_byte_app in E by done.
      by destruct (last_byte_no _ _ Hn). }
    destruct (String.length ((a +:+ "/") +:+ x)); simpl; by rewrite ?Hc. }
  unfold path_base. assert (String.eqb ((a +:+ "/") +:+ x) "" = false) as -> by (by destruct a). rewrite Hstrip, string_app_assoc.
  change ("/" +:+ x) with (String "/" x). rewrite last_index_first by done. change (String "/" x) with ("/" +:+ x). rewrite <-string_app_assoc.
  assert (String.length a + 1 = String.length (a +:+ "/"))%nat as -> by (by rewrite string_app_length). rewrite str_drop_app.
  by rewrite (proj2 (String.eqb_neq _ _) He).
Qed.
Lemma path_dir_root : path_dir "/" = "/".
Proof. reflexivity. Qed.
Lemma dir_of_len l : Forall plain l -> (length l <= String.length (dir_of l))%nat.
Proof.
  induction l as [|x l IH] using rev_ind; [simpl; lia|]. intros [Hl Hx]%Forall_app. rewrite dir_of_snoc, length_app, string_app_length. specialize (IH Hl).
  assert (String.length (dir_of l) <= String.length (lead_of l))%nat by (destruct l; [done|unfold lead_of; rewrite string_app_length; lia]).
  inversion_clear Hx as [|? ? Hp _]. apply plain_parts in Hp as (He & _). destruct x; [done|]. simpl. lia.
Qed.
Lemma dir_of_longer l x : plain x -> dir_of (app l [x]) <> dir_of l.
Proof.
  intros Hx E. apply (f_equal String.length) in E. rewrite dir_of_snoc, string_app_length in E. apply plain_parts in Hx as (He & _).
  destruct l as [|p l]; [destruct x; [done|simpl in E; lia]|]. unfold lead_of in E. rewrite string_app_length in E. simpl in E. lia.
Qed.
