(* ===== verification/GoSha256.v ===== *)
(** * crypto/sha256 and encoding/hex

    FIPS 180-4 on byte strings, executable, and the lower-case hexadecimal text
    of a digest. *)
From S2P Require Import Prelude GoStrings.
From Stdlib Require Import Ascii.

Local Open Scope Z_scope.

Module Sha256.

(** The constants come from the first primes: the first 32 bits of the
    fractional parts of the cube roots of the first 64, and of the square roots
    of the first eight. *)
Definition is_prime (n : nat) : bool := forallb (fun d => negb (n mod d =? 0)%nat) (seq 2 (n - 2)).
Definition primes : list Z := Eval vm_compute in map Z.of_nat (List.filter is_prime (seq 2 310)).
Fixpoint cube_root (bits : nat) (acc n : Z) : Z :=
  match bits with
  | O => acc
  | S b => let x := acc + 2 ^ Z.of_nat b in cube_root b (if x * x * x <=? n then x else acc) n
  end.
Definition round_constants : list Z := Eval vm_compute in map (fun p => u32 (cube_root 36 0 (p * 2 ^ 96))) primes.
Definition first_state : list Z := Eval vm_compute in map (fun p => u32 (Z.sqrt (p * 2 ^ 64))) (take 8 primes).

Definition rotr (n x : Z) : Z := Z.lor (Z.shiftr x n) (u32 (Z.shiftl x (32 - n))).
Definition xor3 (a b c : Z) : Z := Z.lxor a (Z.lxor b c).
Definition lnot32 (x : Z) : Z := Z.lxor x 0xffffffff.

(** Bytes to a word and back, most significant first. *)
Definition be_val (l : list Z) : Z := fold_left (fun acc b => acc * 256 + b) l 0.
Fixpoint be_bytes (n : nat) (x : Z) : list Z :=
  match n with O => [] | S n => (x / 2 ^ (8 * Z.of_nat n)) mod 256 :: be_bytes n x end.
Fixpoint chunks (n : nat) (fuel : nat) (l : list Z) : list (list Z) :=
  match fuel, l with
  | S fuel, _ :: _ => take n l :: chunks n fuel (drop n l)
  | _, _ => []
  end.

Definition padded (msg : list Z) : list Z :=
  let len := length msg in
  let zeros := ((119 - len mod 64) mod 64)%nat in
  msg ++ [128] ++ replicate zeros 0 ++ be_bytes 8 (8 * Z.of_nat len).

(** The message schedule, newest word first. *)
Fixpoint schedule (n : nat) (w : list Z) : list Z :=
  match n with
  | O => w
  | S n =>
      let at_ k := nth k w 0 in
      let s0 := xor3 (rotr 7 (at_ 14%nat)) (rotr 18 (at_ 14%nat)) (Z.shiftr (at_ 14%nat) 3) in
      let s1 := xor3 (rotr 17 (at_ 1%nat)) (rotr 19 (at_ 1%nat)) (Z.shiftr (at_ 1%nat) 10) in
      schedule n (u32 (at_ 15%nat + s0 + at_ 6%nat + s1) :: w)
  end.

Definition round (st : list Z) (kw : Z * Z) : list Z :=
  match st with
  | [a; b; c; d; e; f; g; h] =>
      let s1 := xor3 (rotr 6 e) (rotr 11 e) (rotr 25 e) in
      let ch := Z.lxor (Z.land e f) (Z.land (lnot32 e) g) in
      let t1 := u32 (h + s1 + ch + fst kw + snd kw) in
      let s0 := xor3 (rotr 2 a) (rotr 13 a) (rotr 22 a) in
      let maj := xor3 (Z.land a b) (Z.land a c) (Z.land b c) in
      [u32 (t1 + u32 (s0 + maj)); a; b; c; u32 (d + t1); e; f; g]
  | _ => st
  end.
Definition compress (st : list Z) (block : list Z) : list Z :=
  let w := rev (schedule 48 (rev (map be_val (chunks 4 16 block)))) in
  zip_with (fun x y => u32 (x + y)) st (fold_left round (zip round_constants w) st).

Fixpoint str_bytes (s : string) : list Z := match s with EmptyString => [] | String c s => byte_val c :: str_bytes s end.
Definition Sum256 (s : string) : list Z :=
  let msg := padded (str_bytes s) in
  flat_map (be_bytes 4) (fold_left compress (chunks 64 (S (length msg / 64)) msg) first_state).

Definition hex_digit (n : Z) : ascii := byte_of (if n <? 10 then 48 + n else 87 + n).
Fixpoint hex (l : list Z) : string :=
  match l with [] => ""%string | b :: l => String (hex_digit (b / 16)) (String (hex_digit (b mod 16)) (hex l)) end.

(** The published vectors. *)
Example sha256_empty : hex (Sum256 "") = "e3b0c44298fc1c149afbf4c8996fb92427ae41e4649b934ca495991b7852b855"%string.
Proof. vm_compute. reflexivity. Qed.
Example sha256_abc : hex (Sum256 "abc") = "ba7816bf8f01cfea414140de5dae2223b00361a396177a9cb410ff61f20015ad"%string.
Proof. vm_compute. reflexivity. Qed.
Example sha256_two_blocks : hex (Sum256 "abcdbcdecdefdefgefghfghighijhijkijkljklmklmnlmnomnopnopq") =
  "248d6a61d20638b8e5c026930c3e6039a33ce45964ff2167f6ecedd419db06c1"%string.
Proof. vm_compute. reflexivity. Qed.

(** A digest's text is hexadecimal digits only. *)
Definition is_hex (c : ascii) : bool :=
  ((48 <=? byte_val c) && (byte_val c <=? 57)) || ((97 <=? byte_val c) && (byte_val c <=? 102)).
Lemma digest_digit_hex n : 0 <= n < 16 -> is_hex (hex_digit n) = true.
Proof.
  intros Hn. unfold hex_digit, is_hex. rewrite byte_val_of by (destruct (Z.ltb_spec n 10); lia). destruct (Z.ltb_spec n 10); apply orb_true_iff; [left|right]; apply andb_true_iff; lia.
Qed.
Lemma hex_hex l : Forall (fun b => 0 <= b < 256) l -> str_forall is_hex (hex l) = true.
Proof.
  induction 1 as [|b l Hb _ IH]; [done|]. simpl. rewrite !digest_digit_hex; [by rewrite IH|apply Z.mod_pos_bound; lia|].
  split; [apply Z.div_pos; lia|apply Z.div_lt_upper_bound; lia].
Qed.
Lemma be_bytes_bytes n x : Forall (fun b => 0 <= b < 256) (be_bytes n x).
Proof. induction n as [|n IH]; [done|]. constructor; [by apply Z.mod_pos_bound|done]. Qed.
Lemma Sum256_bytes s : Forall (fun b => 0 <= b < 256) (Sum256 s).
Proof. unfold Sum256. induction (fold_left _ _ _) as [|x l IH]; [done|]. apply Forall_app. split; [apply be_bytes_bytes|done]. Qed.
End Sha256.
