(* ===== verification/SingboxLog.v ===== *)
(** * The parsed log line of package singboxlog (internal/singboxlog/types.go)

    The enumerations and the record the parser produces and the guard, the
    assembler and the policy consume.  Go's string enumerations are inductive
    types whose constructors carry the source's names. *)
From S2P Require Import Prelude.

Local Open Scope Z_scope.

(** The semantic class of a parsed line. *)
Inductive Event :=
  | EventInboundFrom | EventInboundTo | EventRuleMatch | EventSniffed
  | EventOutboundTo | EventDNS | EventFinished | EventClosed
  | EventConnectionClosed | EventDialFailed | EventAuthFailed
  | EventHandshakeFailed | EventOther.

(** The subsystem named by the tag prefix. *)
Inductive TagKind :=
  | TagInbound | TagOutbound | TagRouter | TagConnection | TagDNS | TagOther.

(** The direction of a half close. *)
Inductive Direction := DirectionUpload | DirectionDownload | DirectionNone.

#[export] Instance Event_eq_dec : EqDecision Event.
Proof. solve_decision. Defined.
#[export] Instance TagKind_eq_dec : EqDecision TagKind.
Proof. solve_decision. Defined.
#[export] Instance Direction_eq_dec : EqDecision Direction.
Proof. solve_decision. Defined.

(** One parsed line; [LogID] is a [uint32] and identifies a connection within
    one generation of the core. *)
Module Line.
Record Line := mk {
  At : time;
  Level : string;
  LogID : Z;
  HasLogID : bool;
  ElapsedMS : Z;
  Tag : string;
  Kind : TagKind;
  TagType : string;
  TagName : string;
  Ev : Event;
  Message : string;
  Raw : string;
  User : string;
  SrcIP : string;
  SrcPort : Z;
  DstHost : string;
  DstPort : Z;
  RuleIndex : Z;
  HasRule : bool;
  RuleText : string;
  Action : string;
  Outbound : string;
  SniffProtocol : string;
  SniffDomain : string;
  DNSDomain : string;
  DNSResult : list string;
  Dir : Direction;
  Error : string;
  OutboundType : string;
  OutboundName : string;
  Packet : bool
}.
End Line.

Abbreviation line := Line.Line (only parsing).

Section Eta.
Import Line.
#[export] Instance Line_eta : Etable Line := fun l =>
  mk (At l) (Level l) (LogID l) (HasLogID l) (ElapsedMS l) (Tag l) (Kind l) (TagType l)
     (TagName l) (Ev l) (Message l) (Raw l) (User l) (SrcIP l) (SrcPort l) (DstHost l)
     (DstPort l) (RuleIndex l) (HasRule l) (RuleText l) (Action l) (Outbound l)
     (SniffProtocol l) (SniffDomain l) (DNSDomain l) (DNSResult l) (Dir l) (Error l)
     (OutboundType l) (OutboundName l) (Packet l).
End Eta.

(** Go's zero [Line] with the two fields every construction in the parser
    sets: the event starts out as [EventOther]. *)
Definition blank_line : line :=
  Line.mk 0 "" 0 false 0 "" TagOther "" "" EventOther "" "" "" "" 0 "" 0 0 false "" "" ""
    "" "" "" [] DirectionNone "" "" "" false.
