(* ===== verification/SingboxParse.v ===== *)
(** * The log line parser (internal/singboxlog/parse.go)

    A payload of sing-box's log stream is "[<id> <elapsed>] <tag>: <message>";
    the message is classified into an event by its wording.  A [classify*]
    function returns [None] where the source returns false, which it does
    before touching the line. *)
From S2P Require Import Prelude GoStrings SingboxLog.
From Stdlib Require Import Ascii.

Local Open Scope string_scope.

(** ** Helpers *)

(** [strings.Cut] with its result for a missing separator. *)
Definition cut_or (s sep : string) : string * string := default (s, "") (cut s sep).

Definition allDigits (s : string) : bool := all_digits s.

Definition parsePort (s : string) : option Z :=
  if String.eqb s "" || negb (allDigits s) then None
  else n ← atoi s; if ((n <? 0) || (65535 <? n))%Z then None else Some n.

Definition splitHostPort (s : string) : string * Z :=
  if String.eqb s "" then ("", 0%Z)
  else if has_prefix s "[" then
    match last_index_of s "]" with
    | None => (s, 0%Z)
    | Some e =>
        let inner := str_drop 1 (str_take e s) in
        let tail := str_drop (e + 1) s in
        if String.eqb tail "" then (inner, 0%Z)
        else match cut_prefix tail ":" ≫= parsePort with
             | Some n => (inner, n)
             | None => (s, 0%Z)
             end
    end
  else match last_index_of s ":" with
  | None => (s, 0%Z)
  | Some i =>
      if contains (str_take i s) ":" then (s, 0%Z)
      else match parsePort (str_drop (i + 1) s) with
           | Some n => (str_take i s, n)
           | None => (s, 0%Z)
           end
  end.

Definition esc : ascii := ascii_of_nat 27.

(** Where [stripANSI]'s scan is: in text, just past an escape, or in the
    parameters of a control sequence. *)
Inductive scan := InText | PastEscape | InParams.

Definition param_byte (c : ascii) : bool := ((32 <=? byte_val c) && (byte_val c <=? 63))%Z.

Fixpoint strip_scan (m : scan) (s : string) : string :=
  match s with
  | EmptyString => ""
  | String c t =>
      let text := if Ascii.eqb c esc then strip_scan PastEscape t else String c (strip_scan InText t) in
      match m with
      | InText => text
      | PastEscape => if Ascii.eqb c "["%char then strip_scan InParams t else text
      | InParams => if param_byte c then strip_scan InParams t else strip_scan InText t
      end
  end.

Definition stripANSI (s : string) : string :=
  if negb (str_exists (Ascii.eqb esc) s) then s else strip_scan InText s.

Definition isQualifier (s : string) : bool :=
  str_forall (fun c => let v := byte_val c in
    ((97 <=? v) && (v <=? 122) || (65 <=? v) && (v <=? 90) || (48 <=? v) && (v <=? 57) || (v =? 32))%Z) s.

Definition cutQualified (s sep : string) : option (string * string) :=
  '(before, after) ← cut s sep; if isQualifier before then Some (before, after) else None.

Definition cutParens (s : string) : option (string * string) :=
  if negb (has_suffix s ")") then None
  else i ← index_of s "("; Some (str_take i s, str_drop (i + 1) (str_take (String.length s - 1) s)).

(** "<kind>[<name>]", the spelling of inbound and outbound tags. *)
Definition split_bracketed (s : string) : string * string :=
  match index_of s "[" with
  | Some i => if has_suffix s "]"
              then (str_take i s, str_drop (i + 1) (str_take (String.length s - 1) s)) else (s, "")
  | None => (s, "")
  end.

Definition cutUserPrefix (s : string) : option (string * string) :=
  if negb (has_prefix s "[") then None
  else
    e ← index_of s "] ";
    let user := str_drop 1 (str_take e s) in
    let user := if String.eqb user "" || allDigits user then "" else user in
    Some (user, str_drop (e + 2) s).

(** ** The header *)

Definition parseElapsedMS (s : string) : option Z :=
  if String.eqb s "" then None
  else match cut_suffix s "ms" with
  | Some v => parse_int v
  | None =>
      let centis :=
        v ← cut_suffix s "s";
        '(seconds, frac) ← cut v ".";
        if (1 <=? String.length frac)%nat && (String.length frac <=? 2)%nat
           && allDigits seconds && allDigits frac
        then Some (seconds, frac) else None in
      match centis with
      | Some (seconds, frac) =>
          whole ← parse_int seconds; cs ← parse_int frac;
          Some (i64 (i64 (whole * 1000) + cs * 10))
      | None => d ← parse_duration s; Some (Z.quot d 1000000)
      end
  end.

Definition cutLogID (s : string) : option (Z * Z * string) :=
  if negb (has_prefix s "[") then None
  else
    e ← index_of s "]";
    '(idText, durText) ← cut (str_drop 1 (str_take e s)) " ";
    n ← parse_uint 32 idText;
    Some (n, default 0%Z (parseElapsedMS durText), trim_prefix (str_drop (e + 1) s) " ").

Definition cutTag (s : string) : string * string :=
  match index_of s ": " with
  | None | Some O => ("", s)
  | Some i =>
      let candidate := str_take i s in
      if str_exists (fun c => Ascii.eqb c " "%char || Ascii.eqb c (ascii_of_nat 9)) candidate
      then ("", s) else (candidate, str_drop (i + 2) s)
  end.

Definition decomposeTag (tag : string) : TagKind * string * string :=
  if String.eqb tag "" then (TagOther, "", "")
  else match cut tag "/" with
  | None =>
      (if String.eqb tag "inbound" then TagInbound
       else if String.eqb tag "outbound" then TagOutbound
       else if String.eqb tag "router" then TagRouter
       else if String.eqb tag "connection" then TagConnection
       else if String.eqb tag "dns" then TagDNS else TagOther, "", "")
  | Some (kind, rest) =>
      let tagKind := if String.eqb kind "inbound" then TagInbound
                     else if String.eqb kind "outbound" then TagOutbound
                     else if String.eqb kind "dns" then TagDNS else TagOther in
      let '(tagType, tagName) := split_bracketed rest in (tagKind, tagType, tagName)
  end.

(** ** Classification *)

Definition packet_of (qualifier : string) : bool := contains qualifier "packet".

Definition bare_connection (rest : string) : option string :=
  q ← cut_suffix rest "connection"; if isQualifier q then Some q else None.

Definition classifyInbound (l : line) (rest : string) : option line :=
  match cutQualified rest "connection to " with
  | Some (q, dst) =>
      let '(h, p) := splitHostPort dst in
      Some (l <| Line.Ev := EventInboundTo |> <| Line.Packet := packet_of q |>
              <| Line.DstHost := h |> <| Line.DstPort := p |>)
  | None =>
      match cutQualified rest "connection from " with
      | Some (q, src) =>
          let '(h, p) := splitHostPort src in
          Some (l <| Line.Ev := EventInboundFrom |> <| Line.Packet := packet_of q |>
                  <| Line.SrcIP := h |> <| Line.SrcPort := p |>)
      | None =>
          q ← bare_connection rest;
          Some (l <| Line.Ev := EventInboundTo |> <| Line.Packet := packet_of q |>)
      end
  end.

Definition classifyOutbound (l : line) (rest : string) : option line :=
  match cutQualified rest "connection to " with
  | Some (q, dst) =>
      let '(h, p) := splitHostPort dst in
      Some (l <| Line.Ev := EventOutboundTo |> <| Line.Packet := packet_of q |>
              <| Line.DstHost := h |> <| Line.DstPort := p |>)
  | None =>
      q ← bare_connection rest;
      Some (l <| Line.Ev := EventOutboundTo |> <| Line.Packet := packet_of q |>)
  end.

(** The rule's text and its action, either side of the last arrow. *)
Definition cut_action (tail : string) : option (string * string) :=
  match cut_prefix tail "=> " with
  | Some action => Some ("", action)
  | None => i ← last_index_of tail " => "; Some (str_take i tail, str_drop (i + 4) tail)
  end.

Definition classifyRuleMatch (l : line) (body : string) : option line :=
  let rest := match cut_prefix body "pre-match[" with
              | Some trimmed => trimmed
              | None => trim_prefix body "match["
              end in
  '(index, tail) ← cut rest "] ";
  n ← atoi index;
  '(ruleText, action) ← cut_action tail;
  let l := l <| Line.Ev := EventRuleMatch |> <| Line.RuleIndex := n |> <| Line.HasRule := true |>
             <| Line.RuleText := ruleText |> <| Line.Action := action |> in
  match cutParens action with
  | Some (name, args) =>
      let l := l <| Line.Action := name |> in
      Some (if String.eqb name "route" || String.eqb name "bypass"
            then l <| Line.Outbound := (cut_or args ",").1 |> else l)
  | None => Some l
  end.

(** The loop over the comma-separated parts; each round takes at least one
    byte. *)
Fixpoint sniffed_parts (fuel : nat) (l : line) (tail : string) : line :=
  match fuel with
  | O => l
  | S n =>
      if String.eqb tail "" then l
      else
        let '(part, tail) := cut_or tail ", " in
        sniffed_parts n (match cut_prefix part "domain: " with
                         | Some d => l <| Line.SniffDomain := d |>
                         | None => l
                         end) tail
  end.

Definition classifySniffed (l : line) (rest : string) : line :=
  let '(protocol, tail) := cut_or rest ", " in
  sniffed_parts (S (String.length tail))
    (l <| Line.Ev := EventSniffed |> <| Line.SniffProtocol := protocol |>) tail.

Definition classifyDialFailure (l : line) (body : string) : option line :=
  '(rest, packet) ←
    match cut_prefix body "open connection to " with
    | Some r => Some (r, false)
    | None => r ← cut_prefix body "open packet connection to "; Some (r, true)
    end;
  let '(l, dst, errText) :=
    match index_of rest " using outbound/" with
    | Some i =>
        let '(outbound, errText) := cut_or (str_drop (i + 16) rest) ": " in
        let '(ty, name) := split_bracketed outbound in
        (l <| Line.OutboundType := ty |> <| Line.OutboundName := name |>, str_take i rest, errText)
    | None => let '(host, cause) := cut_or rest ": " in (l, host, cause)
    end in
  let '(h, p) := splitHostPort dst in
  Some (l <| Line.Ev := EventDialFailed |> <| Line.Packet := packet |>
          <| Line.DstHost := h |> <| Line.DstPort := p |> <| Line.Error := errText |>).

Definition isHandshakeError (errText : string) : bool := contains (to_lower errText) "handshake".

Definition classifyAuthFailure (l : line) (rest : string) : line :=
  let '(src, errText) := cut_or rest ": " in
  let '(h, p) := splitHostPort src in
  l <| Line.SrcIP := h |> <| Line.SrcPort := p |> <| Line.Error := errText |>
    <| Line.Ev := (if isHandshakeError errText then EventHandshakeFailed else EventAuthFailed) |>.

Definition classifyConnection (l : line) (rest : string) : option line :=
  let '(direction, rest) :=
    if has_prefix rest "upload " then (DirectionUpload, str_drop 7 rest)
    else if has_prefix rest "download " then (DirectionDownload, str_drop 9 rest)
    else (DirectionNone, rest) in
  if bool_decide (direction = DirectionNone) then
    match cut_prefix rest "closed: " with
    | Some e => Some (l <| Line.Ev := EventConnectionClosed |> <| Line.Error := e |>)
    | None => if String.eqb rest "closed" then Some (l <| Line.Ev := EventConnectionClosed |>) else None
    end
  else
    match cut_prefix rest "handshake: " with
    | Some e => Some (l <| Line.Ev := EventHandshakeFailed |> <| Line.Dir := direction |> <| Line.Error := e |>)
    | None =>
        if String.eqb rest "handshake"
        then Some (l <| Line.Ev := EventHandshakeFailed |> <| Line.Dir := direction |>)
        else if String.eqb rest "finished"
        then Some (l <| Line.Ev := EventFinished |> <| Line.Dir := direction |>)
        else if String.eqb rest "closed"
        then Some (l <| Line.Ev := EventClosed |> <| Line.Dir := direction |>)
        else
          e ← cut_prefix rest "closed: ";
          Some (l <| Line.Ev := EventClosed |> <| Line.Dir := direction |> <| Line.Error := e |>)
    end.

Definition classifyLookup (l : line) (rest : string) : option line :=
  if has_prefix rest "domain "
  then Some (l <| Line.Ev := EventDNS |> <| Line.DNSDomain := str_drop 7 rest |>)
  else if has_prefix rest "succeed for " then
    let '(domain, addresses) := cut_or (str_drop 12 rest) ": " in
    Some (l <| Line.Ev := EventDNS |> <| Line.DNSDomain := domain |> <| Line.DNSResult := fields addresses |>)
  else if has_prefix rest "failed for " then
    let '(domain, errText) := cut_or (str_drop 11 rest) ": " in
    Some (l <| Line.Ev := EventDNS |> <| Line.DNSDomain := domain |> <| Line.Error := errText |>)
  else None.

(** The user prefix counts only in front of an inbound message. *)
Definition claimed_user (message : string) : option (string * string) :=
  '(user, tail) ← cutUserPrefix message; if has_prefix tail "inbound " then Some (user, tail) else None.

Definition classify_body (l : line) (body : string) : option line :=
  if has_prefix body "inbound " then classifyInbound l (str_drop 8 body)
  else if has_prefix body "outbound " then classifyOutbound l (str_drop 9 body)
  else if has_prefix body "match[" || has_prefix body "pre-match[" then classifyRuleMatch l body
  else if has_prefix body "sniffed protocol: " then Some (classifySniffed l (str_drop 18 body))
  else if has_prefix body "open " then classifyDialFailure l body
  else if has_prefix body "process connection from " then Some (classifyAuthFailure l (str_drop 24 body))
  else if has_prefix body "connection " then classifyConnection l (str_drop 11 body)
  else if has_prefix body "lookup " then classifyLookup l (str_drop 7 body)
  else None.

Definition classify (l : line) (message : string) : line :=
  let '(l, body) := match claimed_user message with
                    | Some (user, tail) => (l <| Line.User := user |>, tail)
                    | None => (l, message)
                    end in
  match classify_body l body with
  | Some l => l
  | None => l <| Line.Ev := (if bool_decide (Line.Kind l = TagDNS) then EventDNS else EventOther) |>
  end.

(** ** Entry points *)

Definition parseBody (l : line) (body : string) : line :=
  let rest := trim_space body in
  let '(l, rest) := match cutLogID rest with
    | Some (id, elapsed, tail) =>
        (l <| Line.LogID := id |> <| Line.HasLogID := true |> <| Line.ElapsedMS := elapsed |>, tail)
    | None => (l, rest)
    end in
  let '(tag, message) := cutTag rest in
  let '(kind, ty, name) := decomposeTag tag in
  classify (l <| Line.Tag := tag |> <| Line.Message := message |> <| Line.Kind := kind |>
              <| Line.TagType := ty |> <| Line.TagName := name |>) message.

Definition fresh_line (raw level : string) (at_ : time) : line :=
  blank_line <| Line.At := at_ |> <| Line.Level := level |> <| Line.Raw := raw |>.

Definition ParsePayload (raw level : string) (at_ : time) : line :=
  parseBody (fresh_line raw level at_) (stripANSI raw).

(** [Unmarshal] is encoding/json's decoder of the entry: its type and payload. *)
Definition ParseEntry (Unmarshal : string -> option (string * string)) (data : string) (at_ : time)
    : line * bool :=
  match Unmarshal data with
  | None => (fresh_line data "" at_, false)
  | Some (ty, payload) => (ParsePayload payload ty at_, true)
  end.

Definition fileLevel (token : string) : option string :=
  if bool_decide (token ∈ ["TRACE"; "DEBUG"; "INFO"; "WARN"; "ERROR"; "FATAL"; "PANIC"])
  then Some (to_lower token) else None.

Fixpoint span_token (s : string) : string * string :=
  match s with
  | String c t => if Ascii.eqb c " "%char then ("", s) else let '(a, b) := span_token t in (String c a, b)
  | EmptyString => ("", "")
  end.

(** At most [n] tokens are looked at. *)
Fixpoint cut_level (n : nat) (s : string) : option (string * string) :=
  match n with
  | O => None
  | S n =>
      let '(token, rest) := span_token (trim_left_space_char s) in
      if String.eqb token "" then None
      else match fileLevel token with
           | Some lower => Some (lower, trim_left_space_char rest)
           | None => cut_level n rest
           end
  end.
Definition cutFileLevel (s : string) : option (string * string) := cut_level 4 s.

Definition trim_newlines (s : string) : string :=
  strip_all (fun t => match cut_suffix t (bytes_str [13%Z]) with
                      | Some u => Some u
                      | None => cut_suffix t (bytes_str [10%Z])
                      end) (String.length s) s.

Definition ParseFileLine (raw : string) (at_ : time) : line * bool :=
  match cutFileLevel (trim_newlines (stripANSI raw)) with
  | None => (fresh_line raw "" at_, false)
  | Some (level, body) => (parseBody (fresh_line raw level at_) body, true)
  end.
