(* ===== verification/SingboxParseProps.v ===== *)
(** * Properties of the log line parser

    [Module ParseProps]: the parser reads back what sing-box's documented line
    formats print (the printers are the formats the comments of parse.go and
    types.go quote), never reports a number out of range, never loses the raw
    line, and fills a field only for the events it belongs to. *)
From S2P Require Import Prelude GoStrings SingboxLog SingboxParse.
From Stdlib Require Import Ascii.

Local Open Scope string_scope.

Module ParseProps.

(** ** Escapes *)

Lemma strip_scan_clean m s : no_byte esc (strip_scan m s) = true.
Proof.
  revert m. induction s as [|c s IH]; intros m; [done|]. cbn [strip_scan].
  assert (Ht : no_byte esc (if Ascii.eqb c esc then strip_scan PastEscape s else String c (strip_scan InText s)) = true).
  { destruct (Ascii.eqb_spec c esc); [done|]. apply no_byte_cons. auto. }
  destruct m; [done|by destruct (Ascii.eqb c "["%char)|by destruct (param_byte c)].
Qed.

Lemma strip_scan_text s : no_byte esc s = true -> strip_scan InText s = s.
Proof.
  induction s as [|c s IH]; [done|]. rewrite no_byte_cons. intros [Hc Hs]. cbn [strip_scan].
  apply Ascii.eqb_neq in Hc. by rewrite Hc, IH.
Qed.

Lemma no_escape_iff s : str_exists (Ascii.eqb esc) s = negb (no_byte esc s).
Proof.
  unfold str_exists, no_byte. induction s as [|c s IH]; [done|].
  cbn [str_forall]. rewrite Ascii.eqb_sym. by destruct (Ascii.eqb c esc).
Qed.

Lemma stripANSI_scan s : stripANSI s = strip_scan InText s.
Proof.
  unfold stripANSI. rewrite no_escape_iff, negb_involutive. destruct (no_byte esc s) eqn:E; [|done].
  by rewrite strip_scan_text.
Qed.

(** A colour code: an escape, a bracket, parameters and the final byte. *)
Definition colour (params : string) (final : ascii) : string :=
  String esc (String "["%char (params +:+ String final "")).

Lemma strip_colour params final s :
  str_forall param_byte params = true -> param_byte final = false ->
  strip_scan InText (colour params final +:+ s) = strip_scan InText s.
Proof.
  intros Hp Hf. unfold colour. rewrite !app_cons. cbn [strip_scan].
  rewrite Ascii.eqb_refl. change (Ascii.eqb "["%char "["%char) with true. cbv iota.
  rewrite string_app_assoc, app_cons, app_empty.
  induction params as [|c params IH]; [cbn; by rewrite app_empty; cbn [strip_scan]; rewrite Hf|].
  cbn [str_forall] in Hp. apply andb_true_iff in Hp as [Hc Hp].
  rewrite app_cons. cbn [strip_scan]. rewrite Hc. auto.
Qed.

Lemma strip_scan_app s t : no_byte esc s = true -> strip_scan InText (s +:+ t) = s +:+ strip_scan InText t.
Proof.
  induction s as [|c s IH]; [done|]. rewrite no_byte_cons. intros [Hc Hs]. rewrite !app_cons.
  cbn [strip_scan]. apply Ascii.eqb_neq in Hc. by rewrite Hc, IH.
Qed.

(** colours never reach the parser.  The stripped text holds no escape byte,
    text without one is untouched, so stripping twice is stripping once, and a
    coloured token between two pieces of text comes out as the plain token. *)
Theorem strip_ansi_removes_colours s :
  no_byte esc (stripANSI s) = true /\
  (no_byte esc s = true -> stripANSI s = s) /\
  stripANSI (stripANSI s) = stripANSI s /\
  (forall before token after p1 p2 f1 f2,
     s = before +:+ colour p1 f1 +:+ token +:+ colour p2 f2 +:+ after ->
     no_byte esc (before +:+ token +:+ after) = true ->
     str_forall param_byte (p1 +:+ p2) = true -> param_byte f1 = false -> param_byte f2 = false ->
     stripANSI s = before +:+ token +:+ after).
Proof.
  rewrite !stripANSI_scan. split; [apply strip_scan_clean|]. split; [apply strip_scan_text|].
  split; [apply strip_scan_text, strip_scan_clean|].
  intros before token after p1 p2 f1 f2 -> Hb Hp Hf1 Hf2.
  rewrite !no_byte_app in Hb. apply andb_true_iff in Hb as [Hb [Ht Ha]%andb_true_iff].
  rewrite str_forall_app in Hp. apply andb_true_iff in Hp as [Hp1 Hp2].
  by rewrite strip_scan_app, strip_colour, strip_scan_app, strip_colour, strip_scan_text by done.
Qed.

(** ** Host and port *)

Lemma parsePort_bounds s n : parsePort s = Some n -> (0 <= n <= 65535)%Z.
Proof.
  unfold parsePort. case_match; [done|]. destruct (atoi s) as [k|]; [|done]. simpl.
  destruct ((k <? 0)%Z || (65535 <? k)%Z) eqn:E; [done|]. intros [= <-].
  apply orb_false_iff in E as [?%Z.ltb_ge ?%Z.ltb_ge]. lia.
Qed.

Lemma parsePort_utoa n : (0 <= n <= 65535)%Z -> parsePort (utoa n) = Some n.
Proof.
  intros Hn. destruct (utoa_spec n) as [Hd _]; [lia|]. unfold parsePort, allDigits. rewrite Hd.
  destruct (digits_head _ Hd) as (c & t & E & _). rewrite E. cbn [String.eqb orb negb]. rewrite <-E.
  unfold atoi. rewrite parse_int_utoa by lia. simpl.
  by destruct (Z.ltb_spec n 0), (Z.ltb_spec 65535 n); try lia.
Qed.

(** How sing-box prints an address: an IPv6 literal goes in brackets. *)
Definition print_addr (host : string) (port : Z) : string :=
  if no_byte ":"%char host then host +:+ ":" +:+ utoa port else "[" +:+ host +:+ "]:" +:+ utoa port.

(** A host that is not empty and does not itself start with a bracket. *)
Definition plain_host (h : string) : bool := negb (String.eqb h "") && negb (has_prefix h "[").

Lemma splitHostPort_print h p :
  plain_host h = true -> (0 <= p <= 65535)%Z -> splitHostPort (print_addr h p) = (h, p).
Proof.
  intros Hh Hp. destruct (utoa_spec p) as [Hd _]; [lia|]. unfold print_addr.
  assert (Hc : no_byte ":"%char (utoa p) = true) by (by apply digits_no_byte).
  assert (Hb : no_byte "]"%char (utoa p) = true) by (by apply digits_no_byte).
  destruct (no_byte ":"%char h) eqn:Hcol.
  - unfold plain_host in Hh. apply andb_true_iff in Hh as [Hne Hbr].
    destruct h as [|c h]; [done|]. unfold splitHostPort.
    change (String.eqb (String c h +:+ ":" +:+ utoa p) "") with false.
    change (has_prefix (String c h +:+ ":" +:+ utoa p) "[")
      with (if ascii_dec "["%char c then has_prefix (h +:+ ":" +:+ utoa p) "" else false).
    rewrite has_prefix_head in Hbr. destruct (ascii_dec "["%char c) as [<-|Hc1]; [by destruct h|].
    change (":" +:+ utoa p) with (String ":"%char (utoa p)). rewrite last_index_first by done.
    rewrite str_take_app, str_drop_add, str_drop_app. change (str_drop 1 (String ":" (utoa p))) with (utoa p).
    rewrite (proj2 (contains_byte _ _)) by done. by rewrite parsePort_utoa.
  - unfold splitHostPort. change ("[" +:+ h +:+ "]:" +:+ utoa p)
      with (String "["%char h +:+ String "]"%char (String ":"%char (utoa p))).
    set (s := String "["%char h +:+ _) at 1 2 4 6. change (String.eqb s "") with false.
    change (has_prefix s "[") with (has_prefix (h +:+ String "]" (String ":" (utoa p))) "").
    rewrite has_prefix_empty. subst s.
    rewrite last_index_first by (apply no_byte_cons; done).
    rewrite str_take_app, str_drop_add, str_drop_app. change (str_drop 1 (String "]" (String ":" (utoa p))))
      with (":" +:+ utoa p). rewrite cut_prefix_app. change (str_drop 1 (String "[" h)) with h.
    change (String.eqb (":" +:+ utoa p) "") with false. cbv iota. simpl mbind. by rewrite parsePort_utoa.
Qed.

(** Whatever the shape, the answer is the whole text and no port, or a reading
    of all of it. *)
Lemma splitHostPort_exact s h p :
  splitHostPort s = (h, p) ->
  (0 <= p <= 65535)%Z /\
  (h = s /\ p = 0%Z \/ s = "[" +:+ h +:+ "]" /\ p = 0%Z \/
   exists digits, parsePort digits = Some p /\
     (s = h +:+ ":" +:+ digits /\ no_byte ":"%char h = true \/ s = "[" +:+ h +:+ "]:" +:+ digits)).
Proof.
  unfold splitHostPort. destruct (String.eqb_spec s "") as [->|Hs]; [intros [= <- <-]; split; [lia|auto]|].
  destruct (has_prefix s "[") eqn:Hbr.
  - destruct (last_index_of s "]") as [e|] eqn:He; [|intros [= <- <-]; split; [lia|auto]].
    pose proof (last_index_split s "]"%char e He) as Hsplit.
    assert (Hin : str_take e s = "[" +:+ str_drop 1 (str_take e s)).
    { destruct s as [|c s]; [done|]. rewrite has_prefix_head in Hbr.
      destruct (ascii_dec "["%char c) as [<-|]; [|done]. destruct e; [|done]. by cbn in Hsplit. }
    set (inner := str_drop 1 (str_take e s)) in *. set (tail := str_drop (e + 1) s) in *.
    destruct (String.eqb_spec tail "") as [Ht|Ht].
    { intros [= <- <-]. split; [lia|]. right. left. split; [|done].
      rewrite Hsplit at 1. by rewrite Hin, Ht, string_app_assoc. }
    destruct (cut_prefix tail ":" ≫= parsePort) as [n|] eqn:En; intros [= <- <-]; [|split; [lia|auto]].
    apply bind_Some in En as (digits & Hcut & Hp). split; [by eapply parsePort_bounds|].
    do 2 right. exists digits. split; [done|]. right. apply cut_prefix_split in Hcut.
    rewrite Hsplit at 1. by rewrite Hin, Hcut, string_app_assoc.
  - destruct (last_index_of s ":") as [i|] eqn:Hi; [|intros [= <- <-]; split; [lia|auto]].
    pose proof (last_index_split s ":"%char i Hi) as Hsplit.
    destruct (contains (str_take i s) ":") eqn:Hc; [intros [= <- <-]; split; [lia|auto]|].
    destruct (parsePort (str_drop (i + 1) s)) as [n|] eqn:En; intros [= <- <-]; [|split; [lia|auto]].
    split; [by eapply parsePort_bounds|]. do 2 right. exists (str_drop (i + 1) s). split; [done|]. left.
    split; [done|]. by apply contains_byte.
Qed.

(** an address is split exactly or not at all.  The result reads the whole
    text as host and port, brackets around an IPv6 literal included, or is the
    whole text with no port; the port is in range; and every address sing-box
    prints, domain, IPv4 or IPv6, is read back. *)
Theorem split_host_port_exact :
  (forall s h p, splitHostPort s = (h, p) ->
     (0 <= p <= 65535)%Z /\
     (h = s /\ p = 0%Z \/ s = "[" +:+ h +:+ "]" /\ p = 0%Z \/
      exists digits, parsePort digits = Some p /\
        (s = h +:+ ":" +:+ digits /\ no_byte ":"%char h = true \/ s = "[" +:+ h +:+ "]:" +:+ digits))) /\
  (forall h p, plain_host h = true -> (0 <= p <= 65535)%Z -> splitHostPort (print_addr h p) = (h, p)).
Proof. split; [apply splitHostPort_exact|apply splitHostPort_print]. Qed.

(** ** The header *)

(** A tag: not empty, no blank in it. *)
Definition tag_text (t : string) : bool :=
  negb (String.eqb t "") && no_byte " "%char t && no_byte (ascii_of_nat 9) t.

Lemma cutTag_print tag msg : tag_text tag = true -> cutTag (tag +:+ ": " +:+ msg) = (tag, msg).
Proof.
  unfold tag_text. intros [[Hne Hsp]%andb_true_iff Htab]%andb_true_iff. unfold cutTag.
  rewrite index_second by done. destruct tag as [|c tag]; [done|].
  cbn [String.length]. change (S (String.length tag)) with (String.length (String c tag)).
  rewrite str_take_app, str_drop_add, str_drop_app. change (str_drop 2 (": " +:+ msg)) with msg.
  assert (str_exists (fun x => Ascii.eqb x " "%char || Ascii.eqb x (ascii_of_nat 9)) (String c tag) = false) as ->; [|done].
  unfold str_exists. apply negb_false_iff. revert Hsp Htab. generalize (String c tag) as t. clear.
  induction t as [|x t IH]; [done|]. rewrite !no_byte_cons. intros [H1 H2] [H3 H4]. cbn [str_forall].
  apply Ascii.eqb_neq in H1, H3. rewrite H1, H3. auto.
Qed.

(** What sing-box prints in front of a message. *)
Definition print_header (id : Z) (elapsed tag : string) : string :=
  "[" +:+ utoa id +:+ " " +:+ elapsed +:+ "] " +:+ tag +:+ ": ".

Lemma cutLogID_print id elapsed rest :
  (0 <= id < 2 ^ 32)%Z -> no_byte "]"%char elapsed = true ->
  cutLogID ("[" +:+ utoa id +:+ " " +:+ elapsed +:+ "] " +:+ rest) =
    Some (id, default 0%Z (parseElapsedMS elapsed), rest).
Proof.
  intros Hid He. destruct (utoa_spec id) as [Hd _]; [lia|].
  assert (Hsp : no_byte " "%char (utoa id) = true) by (by apply digits_no_byte).
  assert (Hbr : no_byte "]"%char (utoa id) = true) by (by apply digits_no_byte).
  unfold cutLogID. change (has_prefix ("[" +:+ utoa id +:+ " " +:+ elapsed +:+ "] " +:+ rest) "[")
    with (has_prefix (utoa id +:+ " " +:+ elapsed +:+ "] " +:+ rest) ""). rewrite has_prefix_empty. cbn [negb].
  assert (Heq : "[" +:+ utoa id +:+ " " +:+ elapsed +:+ "] " +:+ rest =
    ("[" +:+ utoa id +:+ " " +:+ elapsed) +:+ "]" +:+ " " +:+ rest) by (rewrite !string_app_assoc; done).
  rewrite Heq, index_first; [|rewrite !no_byte_app, Hbr, He; done].
  cbn [mbind option_bind]. rewrite str_take_app, str_drop_add, str_drop_app.
  change (str_drop 1 ("[" +:+ utoa id +:+ " " +:+ elapsed)) with (utoa id +:+ " " +:+ elapsed).
  rewrite (cut_first " "%char "" (utoa id) elapsed) by done. cbn [mbind option_bind]. rewrite parse_uint_utoa by lia. cbn [mbind option_bind].
  change (str_drop 1 ("]" +:+ " " +:+ rest)) with (" " +:+ rest). unfold trim_prefix. by rewrite cut_prefix_app.
Qed.

(** Classification never touches what the header gave. *)
Definition same_header (l l' : line) : Prop :=
  Line.At l' = Line.At l /\ Line.Level l' = Line.Level l /\ Line.LogID l' = Line.LogID l /\
  Line.HasLogID l' = Line.HasLogID l /\ Line.ElapsedMS l' = Line.ElapsedMS l /\ Line.Tag l' = Line.Tag l /\
  Line.Kind l' = Line.Kind l /\ Line.TagType l' = Line.TagType l /\ Line.TagName l' = Line.TagName l /\
  Line.Message l' = Line.Message l /\ Line.Raw l' = Line.Raw l.

(** No event field is set yet; the user may be. *)
Definition bare (l : line) : Prop :=
  Line.SrcIP l = "" /\ Line.SrcPort l = 0%Z /\ Line.DstHost l = "" /\ Line.DstPort l = 0%Z /\
  Line.RuleIndex l = 0%Z /\ Line.HasRule l = false /\ Line.RuleText l = "" /\ Line.Action l = "" /\
  Line.Outbound l = "" /\ Line.SniffProtocol l = "" /\ Line.SniffDomain l = "" /\
  Line.DNSDomain l = "" /\ Line.DNSResult l = [] /\ Line.Dir l = DirectionNone /\ Line.Error l = "" /\
  Line.OutboundType l = "" /\ Line.OutboundName l = "" /\ Line.Packet l = false.

Definition port_ok (p : Z) : Prop := (0 <= p <= 65535)%Z.

(** Which events may carry which field. *)
Record fields_ok (l : line) : Prop := {
  fo_src : Line.SrcIP l <> "" \/ Line.SrcPort l <> 0%Z ->
    Line.Ev l ∈ [EventInboundFrom; EventAuthFailed; EventHandshakeFailed];
  fo_dst : Line.DstHost l <> "" \/ Line.DstPort l <> 0%Z ->
    Line.Ev l ∈ [EventInboundTo; EventOutboundTo; EventDialFailed];
  fo_rule : Line.RuleIndex l <> 0%Z \/ Line.RuleText l <> "" \/ Line.Action l <> "" \/ Line.Outbound l <> "" ->
    Line.Ev l = EventRuleMatch;
  fo_has_rule : Line.HasRule l = true <-> Line.Ev l = EventRuleMatch;
  fo_outbound : Line.Outbound l <> "" -> Line.Action l ∈ ["route"; "bypass"];
  fo_sniff : Line.SniffProtocol l <> "" \/ Line.SniffDomain l <> "" -> Line.Ev l = EventSniffed;
  fo_dns : Line.DNSDomain l <> "" \/ Line.DNSResult l <> [] -> Line.Ev l = EventDNS;
  fo_dir : Line.Dir l <> DirectionNone -> Line.Ev l ∈ [EventFinished; EventClosed; EventHandshakeFailed];
  fo_half : Line.Ev l = EventFinished \/ Line.Ev l = EventClosed -> Line.Dir l <> DirectionNone;
  fo_error : Line.Error l <> "" -> Line.Ev l ∈ [EventDialFailed; EventAuthFailed; EventHandshakeFailed;
    EventClosed; EventConnectionClosed; EventDNS];
  fo_outbound_of : Line.OutboundType l <> "" \/ Line.OutboundName l <> "" -> Line.Ev l = EventDialFailed;
  fo_packet : Line.Packet l = true ->
    Line.Ev l ∈ [EventInboundFrom; EventInboundTo; EventOutboundTo; EventDialFailed];
  fo_src_port : port_ok (Line.SrcPort l);
  fo_dst_port : port_ok (Line.DstPort l)
}.

(** What every classifier guarantees of the line it returns. *)
Definition shaped (l l' : line) : Prop :=
  same_header l l' /\ Line.User l' = Line.User l /\ (bare l -> fields_ok l').

Lemma split_port s h p : splitHostPort s = (h, p) -> port_ok p.
Proof. intros E. by destruct (splitHostPort_exact s h p E). Qed.

(** Read the fields of a line that was built from a bare one by updates. *)
Ltac read_fields :=
  intros (?&?&?&?&?&?&?&?&?&?&?&?&?&?&?&?&?&?); split; unfold port_ok in *; upd;
  repeat match goal with E : ?f ?x = _ |- _ => is_var x; rewrite E end;
  try (intuition (done || congruence || lia || set_solver)).
Ltac shape := split; [unfold same_header; upd; tauto|]; split; [by upd|]; read_fields.

Lemma classifyInbound_shaped l rest l' : classifyInbound l rest = Some l' -> shaped l l'.
Proof.
  unfold classifyInbound. destruct (cutQualified rest "connection to ") as [[q dst]|].
  { destruct (splitHostPort dst) as [h p] eqn:E. apply split_port in E. intros [= <-]. shape. }
  destruct (cutQualified rest "connection from ") as [[q src]|].
  { destruct (splitHostPort src) as [h p] eqn:E. apply split_port in E. intros [= <-]. shape. }
  intros (q & _ & [= <-])%bind_Some. shape.
Qed.

Lemma classifyOutbound_shaped l rest l' : classifyOutbound l rest = Some l' -> shaped l l'.
Proof.
  unfold classifyOutbound. destruct (cutQualified rest "connection to ") as [[q dst]|].
  { destruct (splitHostPort dst) as [h p] eqn:E. apply split_port in E. intros [= <-]. shape. }
  intros (q & _ & [= <-])%bind_Some. shape.
Qed.

Lemma classifyRuleMatch_shaped l body l' : classifyRuleMatch l body = Some l' -> shaped l l'.
Proof.
  unfold classifyRuleMatch. intros ([index tail] & _ & Hc)%bind_Some.
  apply bind_Some in Hc as (n & _ & Hc). apply bind_Some in Hc as ([ruleText action] & _ & Hc).
  destruct (cutParens action) as [[name args]|]; [|injection Hc as <-; shape].
  destruct (String.eqb_spec name "route") as [->|]; [injection Hc as <-; simpl; shape|].
  destruct (String.eqb_spec name "bypass") as [->|]; injection Hc as <-; simpl; shape.
Qed.

Lemma sniffed_parts_domain n : forall l t, exists d, sniffed_parts n l t = l <| Line.SniffDomain := d |>.
Proof.
  induction n as [|n IH]; intros l t; cbn [sniffed_parts].
  { exists (Line.SniffDomain l). by destruct l. }
  destruct (String.eqb t ""); [exists (Line.SniffDomain l); by destruct l|].
  destruct (cut_or t ", ") as [part tail]. destruct (cut_prefix part "domain: ") as [d|]; [|apply IH].
  destruct (IH (l <| Line.SniffDomain := d |>) tail) as [d' ->]. exists d'. by destruct l.
Qed.

Lemma classifySniffed_shaped l rest : shaped l (classifySniffed l rest).
Proof.
  unfold classifySniffed. destruct (cut_or rest ", ") as [protocol tail].
  destruct (sniffed_parts_domain (S (String.length tail))
    (l <| Line.Ev := EventSniffed |> <| Line.SniffProtocol := protocol |>) tail) as [d ->]. shape.
Qed.

Lemma classifyDialFailure_shaped l body l' : classifyDialFailure l body = Some l' -> shaped l l'.
Proof.
  unfold classifyDialFailure. intros ([rest packet] & _ & Hc)%bind_Some.
  destruct (index_of rest " using outbound/") as [i|].
  - destruct (cut_or (str_drop (i + 16) rest) ": ") as [outbound errText].
    destruct (split_bracketed outbound) as [ty name].
    destruct (splitHostPort (str_take i rest)) as [h p] eqn:E. apply split_port in E. injection Hc as <-. shape.
  - destruct (cut_or rest ": ") as [host cause].
    destruct (splitHostPort host) as [h p] eqn:E. apply split_port in E. injection Hc as <-. shape.
Qed.

Lemma classifyAuthFailure_shaped l rest : shaped l (classifyAuthFailure l rest).
Proof.
  unfold classifyAuthFailure. destruct (cut_or rest ": ") as [src errText].
  destruct (splitHostPort src) as [h p] eqn:E. apply split_port in E.
  destruct (isHandshakeError errText); shape.
Qed.

Lemma classifyConnection_shaped l rest l' : classifyConnection l rest = Some l' -> shaped l l'.
Proof.
  unfold classifyConnection.
  set (d := if has_prefix rest "upload " then _ else _). destruct d as [dir r]. clear rest.
  destruct (decide (dir = DirectionNone)) as [->|Hd].
  - rewrite bool_decide_eq_true_2 by done. destruct (cut_prefix r "closed: "); [intros [= <-]; shape|].
    destruct (String.eqb r "closed"); [intros [= <-]; shape|done].
  - rewrite bool_decide_eq_false_2 by done. destruct (cut_prefix r "handshake: "); [intros [= <-]; shape|].
    destruct (String.eqb r "handshake"); [intros [= <-]; shape|].
    destruct (String.eqb r "finished"); [intros [= <-]; shape|].
    destruct (String.eqb r "closed"); [intros [= <-]; shape|].
    intros (e & _ & [= <-])%bind_Some. shape.
Qed.

Lemma classifyLookup_shaped l rest l' : classifyLookup l rest = Some l' -> shaped l l'.
Proof.
  unfold classifyLookup. destruct (has_prefix rest "domain "); [intros [= <-]; shape|].
  destruct (has_prefix rest "succeed for ").
  { destruct (cut_or _ ": ") as [domain addresses]. intros [= <-]. shape. }
  destruct (has_prefix rest "failed for "); [|done].
  destruct (cut_or _ ": ") as [domain errText]. intros [= <-]. shape.
Qed.

Create HintDb shaped.
#[local] Hint Resolve classifyInbound_shaped classifyOutbound_shaped classifyRuleMatch_shaped
  classifyDialFailure_shaped classifyConnection_shaped classifyLookup_shaped : shaped.

Lemma classify_body_shaped l body l' : classify_body l body = Some l' -> shaped l l'.
Proof.
  unfold classify_body. intros Hc. repeat case_match; eauto with shaped; try discriminate Hc.
  - injection Hc as <-. apply classifySniffed_shaped.
  - injection Hc as <-. apply classifyAuthFailure_shaped.
Qed.

Lemma bare_user l u : bare l -> bare (l <| Line.User := u |>).
Proof. unfold bare. by upd. Qed.

Lemma classify_shaped l message :
  same_header l (classify l message) /\ (bare l -> fields_ok (classify l message)).
Proof.
  unfold classify. destruct (claimed_user message) as [[user tail]|].
  - destruct (classify_body _ tail) as [l'|] eqn:E.
    + apply classify_body_shaped in E as (Hh & _ & Hf). unfold same_header in *. revert Hh. upd. intros Hh.
      split; [done|]. intros Hb. by apply Hf, bare_user.
    + split; [unfold same_header; by upd|]. destruct (bool_decide _); read_fields.
  - destruct (classify_body _ message) as [l'|] eqn:E.
    + apply classify_body_shaped in E as (Hh & _ & Hf). done.
    + split; [unfold same_header; by upd|]. destruct (bool_decide _); read_fields.
Qed.

Lemma cutLogID_bound s id ms rest : cutLogID s = Some (id, ms, rest) -> (0 <= id < 2 ^ 32)%Z.
Proof.
  unfold cutLogID. destruct (negb _); [done|]. intros (e & _ & Hc)%bind_Some.
  apply bind_Some in Hc as ([idText durText] & _ & Hc). apply bind_Some in Hc as (n & Hn & [= <- _ _]).
  by apply parse_uint_bounds in Hn.
Qed.

Lemma parseBody_shaped l body :
  bare l -> Line.LogID l = 0%Z -> Line.HasLogID l = false -> Line.ElapsedMS l = 0%Z ->
  let l' := parseBody l body in
  fields_ok l' /\ (0 <= Line.LogID l' < 2 ^ 32)%Z /\
  (Line.HasLogID l' = false -> Line.LogID l' = 0%Z /\ Line.ElapsedMS l' = 0%Z) /\
  Line.Raw l' = Line.Raw l /\ Line.Level l' = Line.Level l /\ Line.At l' = Line.At l /\
  (Line.Kind l', Line.TagType l', Line.TagName l') = decomposeTag (Line.Tag l').
Proof.
  intros Hb Hid Hhas Hms. cbv zeta. unfold parseBody. destruct (cutLogID (trim_space body)) as [[[id ms] tail]|] eqn:E.
  all: destruct (cutTag _) as [tag message]; destruct (decomposeTag tag) as [[kind ty] name] eqn:Et.
  all: match goal with |- context [classify ?x ?m] => destruct (classify_shaped x m) as [Hh Hf];
    set (l1 := x) in * end.
  all: assert (Hok : fields_ok (classify l1 message)) by (apply Hf; unfold l1, bare in *; by upd); clear Hf.
  all: destruct Hh as (E1 & E2 & E3 & E4 & E5 & E6 & E7 & E8 & E9 & E10 & E11).
  all: unfold l1 in *; revert E1 E2 E3 E4 E5 E6 E7 E8 E9 E10 E11; upd; intros;
    rewrite E1, E2, E3, E4, E5, E6, E7, E8, E9, E11, Et.
  - apply cutLogID_bound in E. split_all; done || lia.
  - rewrite Hid, Hhas, Hms. split_all; done.
Qed.

(** a field is set only for the events it belongs to.  For every payload the
    parsed line carries addresses, rule, sniff result, names, direction, error
    and outbound only under the events documented for them; a half close always
    has a direction; ports and connection ids are within their width; the tag's
    parts are the tag's; and the raw text, the level and the time are the ones
    given, so no line is lost however it is worded. *)
Theorem fields_belong_to_event raw level at_ :
  let l := ParsePayload raw level at_ in
  fields_ok l /\ (0 <= Line.LogID l < 2 ^ 32)%Z /\
  (Line.HasLogID l = false -> Line.LogID l = 0%Z /\ Line.ElapsedMS l = 0%Z) /\
  Line.Raw l = raw /\ Line.Level l = level /\ Line.At l = at_ /\
  (Line.Kind l, Line.TagType l, Line.TagName l) = decomposeTag (Line.Tag l).
Proof.
  destruct (parseBody_shaped (fresh_line raw level at_) (stripANSI raw)) as (H1 & H2 & H3 & H4 & H5 & H6 & H7);
    [unfold bare, fresh_line; by upd|unfold fresh_line; by upd..|].
  unfold ParsePayload. split_all; try tauto; unfold fresh_line in *; revert H4 H5 H6; by upd.
Qed.

(** The line a header gives the classifier. *)
Definition headed (l : line) (id : Z) (elapsed tag msg : string) : line :=
  let '(kind, ty, name) := decomposeTag tag in
  l <| Line.LogID := id |> <| Line.HasLogID := true |>
    <| Line.ElapsedMS := default 0%Z (parseElapsedMS elapsed) |> <| Line.Tag := tag |>
    <| Line.Message := msg |> <| Line.Kind := kind |> <| Line.TagType := ty |> <| Line.TagName := name |>.

Lemma parseBody_print l id elapsed tag msg c :
  (0 <= id < 2 ^ 32)%Z -> no_byte "]"%char elapsed = true -> tag_text tag = true ->
  last_byte msg = Some c -> solid c = true ->
  parseBody l (print_header id elapsed tag +:+ msg) = classify (headed l id elapsed tag msg) msg.
Proof.
  intros Hid He Ht Hl Hc. unfold parseBody.
  assert (Htrim : trim_space (print_header id elapsed tag +:+ msg) = print_header id elapsed tag +:+ msg).
  { unfold print_header. rewrite !app_cons. apply (trim_space_solid _ _ c); [done| |done].
    rewrite <-!app_cons. rewrite last_byte_app; [done|]. by destruct msg. }
  rewrite Htrim. unfold print_header, headed. rewrite !string_app_assoc, cutLogID_print by done.
  rewrite cutTag_print by done. by destruct (decomposeTag tag) as [[kind ty] name].
Qed.

Lemma headed_fields l id elapsed tag msg :
  let l' := headed l id elapsed tag msg in
  Line.HasLogID l' = true /\ Line.LogID l' = id /\
  Line.ElapsedMS l' = default 0%Z (parseElapsedMS elapsed) /\ Line.Tag l' = tag /\ Line.Message l' = msg /\
  (bare l -> bare l').
Proof. unfold headed, bare. destruct (decomposeTag tag) as [[kind ty] name]. cbv zeta. by upd. Qed.

(** the header of a payload is read back.  For every connection id, elapsed
    text, tag and message, the line printed as "[id elapsed] tag: message"
    parses into exactly these: the id, the elapsed time (0 if unreadable), the
    tag, and the message unchanged, which is then classified. *)
Theorem payload_header_roundtrip id elapsed tag msg level at_ c :
  (0 <= id < 2 ^ 32)%Z -> no_byte "]"%char elapsed = true -> tag_text tag = true ->
  last_byte msg = Some c -> solid c = true ->
  no_byte esc (print_header id elapsed tag +:+ msg) = true ->
  let l := ParsePayload (print_header id elapsed tag +:+ msg) level at_ in
  Line.HasLogID l = true /\ Line.LogID l = id /\
  Line.ElapsedMS l = default 0%Z (parseElapsedMS elapsed) /\
  Line.Tag l = tag /\ Line.Message l = msg /\ exists l0, bare l0 /\ l = classify l0 msg.
Proof.
  intros Hid He Ht Hl Hc Hesc l. unfold l, ParsePayload. rewrite stripANSI_scan, strip_scan_text by done.
  rewrite (parseBody_print _ _ _ _ _ c) by done.
  set (base := fresh_line _ level at_). pose proof (headed_fields base id elapsed tag msg) as Hf.
  set (l0 := headed base id elapsed tag msg) in *. destruct Hf as (F1 & F2 & F3 & F4 & F5 & F6).
  destruct (classify_shaped l0 msg) as [(_ & _ & -> & -> & -> & -> & _ & _ & _ & -> & _) _].
  split_all; try done. exists l0. split; [|done]. apply F6. unfold base, fresh_line, bare. by upd.
Qed.

Lemma payload_header_roundtrip_witness :
  Line.LogID (ParsePayload "[2064424212 11ms] connection: connection download finished" "debug" 0) = 2064424212%Z.
Proof.
  apply (payload_header_roundtrip 2064424212 "11ms" "connection" "connection download finished" "debug" 0 "d"%char);
    [lia|reflexivity..].
Defined.
End ParseProps.
