(* ===== verification/SingboxMessages.v ===== *)
(** * sing-box's wordings, printed and read back

    [Module Messages]: the elapsed times and the messages sing-box writes, as
    the comments of parse.go and types.go quote them, with a printer each; the
    parser reads every printed form back. *)
From S2P Require Import Prelude GoStrings SingboxLog SingboxParse SingboxParseProps.
From Stdlib Require Import Ascii.

Local Open Scope string_scope.

Module Messages.
Import ParseProps.
#[local] Ltac Zify.zify_post_hook ::= Z.div_mod_to_equations.

(** ** Elapsed times *)

(** sing-box's [FormatDuration] of a number of milliseconds; the fraction of a
    second is in hundredths and not padded. *)
Definition format_elapsed (ms : Z) : string :=
  if (ms <? 1000)%Z then utoa ms +:+ "ms"
  else if (ms <? 60000)%Z then utoa (ms / 1000) +:+ "." +:+ utoa (ms / 10 mod 100) +:+ "s"
  else utoa (ms / 60000) +:+ "m" +:+ utoa (ms / 1000 mod 60) +:+ "s".

(** What that text still says. *)
Definition told_elapsed (ms : Z) : Z :=
  if (ms <? 1000)%Z then ms else if (ms <? 60000)%Z then (ms / 10 * 10)%Z else (ms / 1000 * 1000)%Z.

Lemma cut_suffix_app a b : cut_suffix (a +:+ b) b = Some a.
Proof.
  unfold cut_suffix. rewrite has_suffix_app, string_app_length.
  replace (String.length a + String.length b - String.length b)%nat with (String.length a) by lia.
  by rewrite str_take_app.
Qed.

Lemma has_suffix_split s p : has_suffix s p = true -> s = str_take (String.length s - String.length p) s +:+ p.
Proof.
  unfold has_suffix. intros [_ E%String.eqb_eq]%andb_true_iff.
  rewrite <-(str_take_drop (String.length s - String.length p) s) at 1. by rewrite E.
Qed.

Lemma app_inj_tail a b c : a +:+ c = b +:+ c -> a = b.
Proof.
  intros E. assert (Hl : String.length a = String.length b).
  { apply (f_equal String.length) in E. rewrite !string_app_length in E. lia. }
  apply (f_equal (str_take (String.length a))) in E. rewrite str_take_app, Hl, str_take_app in E. done.
Qed.

Lemma last_byte_digit s : all_digits s = true -> exists c, last_byte s = Some c /\ is_digit c = true.
Proof.
  unfold all_digits. intros [Hne Hd]%andb_true_iff. induction s as [|c s IH]; [done|].
  cbn [str_forall] in Hd. apply andb_true_iff in Hd as [Hc Hd].
  destruct s as [|c' s]; [by exists c|]. by apply IH.
Qed.

(** A number followed by "s" does not end in "ms". *)
Lemma seconds_no_ms a n : all_digits n = true -> cut_suffix ((a +:+ n) +:+ "s") "ms" = None.
Proof.
  intros Hn. unfold cut_suffix. destruct (has_suffix _ "ms") eqn:E; [|done]. exfalso.
  apply has_suffix_split in E. set (x := str_take _ _) in E. clearbody x.
  change "ms" with ("m" +:+ "s") in E. rewrite <-string_app_assoc in E. apply app_inj_tail in E.
  destruct (last_byte_digit n Hn) as (c & Hl & Hc). apply (f_equal last_byte) in E.
  rewrite !last_byte_app, Hl in E by (done || by destruct n). injection E as ->. done.
Qed.

Lemma two_digits n : (0 <= n < 100)%Z -> (1 <= String.length (utoa n) <= 2)%nat.
Proof.
  intros Hn. assert (Hall : forallb (fun k => (1 <=? String.length (utoa k))%nat && (String.length (utoa k) <=? 2)%nat)
    (seqZ 0 100) = true) by (vm_compute; reflexivity).
  rewrite forallb_forall in Hall. specialize (Hall n). rewrite andb_true_iff, !Nat.leb_le in Hall.
  apply Hall, list_elem_of_In, elem_of_seqZ. lia.
Qed.

Lemma digits_val_mono s : forall acc, (0 <= acc)%Z -> str_forall is_digit s = true -> (acc <= digits_val acc s)%Z.
Proof.
  induction s as [|c s IH]; intros acc Ha; [simpl; lia|]. cbn [str_forall digits_val].
  rewrite andb_true_iff. intros [Hc Hs]. unfold is_digit in Hc. rewrite andb_true_iff, !Z.leb_le in Hc.
  specialize (IH (acc * 10 + (byte_val c - 48))%Z ltac:(lia) Hs). lia.
Qed.

Lemma leading_int_digits ds rest : forall acc,
  (0 <= acc)%Z -> str_forall is_digit ds = true -> (digits_val acc ds <= 2 ^ 63)%Z ->
  match rest with String c _ => is_digit c = false | EmptyString => True end ->
  leading_int acc (ds +:+ rest) = Some (digits_val acc ds, rest).
Proof.
  induction ds as [|c ds IH]; intros acc Ha Hd Hv Hr.
  { rewrite app_empty. destruct rest as [|c rest]; [done|]. cbn [leading_int]. by rewrite Hr. }
  cbn [str_forall] in Hd. apply andb_true_iff in Hd as [Hc Hd]. rewrite app_cons. cbn [leading_int digits_val].
  rewrite Hc. unfold is_digit in Hc. rewrite andb_true_iff, !Z.leb_le in Hc.
  pose proof (digits_val_mono ds (acc * 10 + (byte_val c - 48)) ltac:(lia) Hd) as Hm. cbn [digits_val] in Hv.
  destruct (Z.ltb_spec (2 ^ 63 / 10) acc) as [Hx|_].
  { pose proof (Z.mul_div_le (2 ^ 63) 10 ltac:(lia)). pose proof (Z.mod_pos_bound (2 ^ 63) 10 ltac:(lia)).
    pose proof (Z.div_mod (2 ^ 63) 10 ltac:(lia)). lia. }
  destruct (Z.ltb_spec (2 ^ 63) (acc * 10 + (byte_val c - 48))); [lia|]. apply IH; try done; lia.
Qed.

Definition unit_text (u : string) : bool :=
  negb (String.eqb u "") && str_forall (fun c => negb (Ascii.eqb c "."%char || is_digit c)) u.

Lemma span_unit_app u rest :
  str_forall (fun c => negb (Ascii.eqb c "."%char || is_digit c)) u = true ->
  match rest with String c _ => is_digit c = true | EmptyString => True end ->
  span_unit (u +:+ rest) = (u, rest).
Proof.
  intros Hu Hr. induction u as [|c u IH].
  - rewrite app_empty. destruct rest as [|c rest]; [done|]. cbn [span_unit]. by rewrite Hr, orb_true_r.
  - cbn [str_forall] in Hu. apply andb_true_iff in Hu as [Hc Hu]. rewrite app_cons. cbn [span_unit].
    apply negb_true_iff in Hc. by rewrite Hc, IH.
Qed.

(** One whole number with its unit. *)
Lemma duration_term_whole n u k rest :
  (0 <= n)%Z -> unit_text u = true -> unit_map u = Some k -> (0 < k)%Z -> (n * k <= 2 ^ 63)%Z ->
  match rest with String c _ => is_digit c = true | EmptyString => True end ->
  duration_term (utoa n +:+ u +:+ rest) = Some ((n * k)%Z, rest).
Proof.
  intros Hn Hu Hk Hpos Hle Hr. destruct (utoa_spec n Hn) as [Hd Hv].
  unfold unit_text in Hu. apply andb_true_iff in Hu as [Hne Hu].
  assert (Hhead : match u +:+ rest with String c _ => is_digit c = false | EmptyString => True end).
  { destruct u as [|c u]; [done|]. rewrite app_cons. cbn [str_forall] in Hu.
    apply andb_true_iff in Hu as [Hc _]. apply negb_true_iff, orb_false_iff in Hc. tauto. }
  assert (Hlead : leading_int 0 (utoa n +:+ u +:+ rest) = Some (n, u +:+ rest)).
  { rewrite leading_int_digits, Hv; [done|lia| |nia|done].
    unfold all_digits in Hd. by apply andb_true_iff in Hd as [_ Hd]. }
  destruct (digits_head _ Hd) as (c & t & E & Hc). rewrite E in *. rewrite app_cons in *.
  unfold duration_term. rewrite Hc, orb_true_r. cbn [negb]. rewrite Hlead. cbn [mbind option_bind].
  assert (Hpre : (String.length (u +:+ rest) =? String.length (String c (t +:+ u +:+ rest)))%nat = false).
  { apply Nat.eqb_neq. cbn [String.length]. rewrite !string_app_length. lia. }
  rewrite Hpre. cbn [negb andb]. destruct u as [|cu u]; [done|]. rewrite app_cons.
  assert (Hdot : Ascii.eqb cu "."%char = false).
  { cbn [str_forall] in Hu. apply andb_true_iff in Hu as [Hx _]. apply negb_true_iff, orb_false_iff in Hx. tauto. }
  rewrite Hdot, <-app_cons, span_unit_app by done. cbn [String.eqb]. rewrite Hk. cbn [mbind option_bind].
  destruct (Z.ltb_spec (2 ^ 63 / k) n) as [Hx|_]; [|done].
  pose proof (Z.div_le_lower_bound (2 ^ 63) k n Hpos). lia.
Qed.

Lemma elapsed_minutes m s :
  (0 <= m)%Z -> (0 <= s)%Z -> (m * (60 * second) + s * second < 2 ^ 63)%Z ->
  parse_duration (utoa m +:+ "m" +:+ utoa s +:+ "s") = Some (m * (60 * second) + s * second)%Z.
Proof.
  intros Hm Hs Hlt. destruct (utoa_spec m Hm) as [Hd _]. destruct (utoa_spec s Hs) as [Hds _].
  assert (H1 : duration_term (utoa m +:+ "m" +:+ utoa s +:+ "s") = Some ((m * (60 * second))%Z, utoa s +:+ "s")).
  { apply duration_term_whole; try done; [unfold second in *; lia|].
    destruct (digits_head _ Hds) as (c & t & -> & Hc). done. }
  assert (H2 : duration_term (utoa s +:+ "s") = Some ((s * second)%Z, "")).
  { apply (duration_term_whole s "s" second ""); try done. unfold second in *. lia. }
  unfold parse_duration. destruct (digits_head _ Hd) as (c & t & E & Hc). rewrite E in *. rewrite app_cons in *.
  assert (Hsign : Ascii.eqb c "-"%char = false /\ Ascii.eqb c "+"%char = false)
    by (split; apply Ascii.eqb_neq; intros ->; done).
  destruct Hsign as [-> ->]. rewrite <-app_cons in *. set (w := String c t +:+ _) in *.
  assert (Hw : exists k, String.length w = S (S k)).
  { unfold w. rewrite app_cons. cbn [String.length]. rewrite !string_app_length. cbn [String.length].
    exists (String.length t + String.length (utoa s) + 1)%nat. lia. }
  assert (Hne : String.eqb w "0" = false /\ String.eqb w "" = false).
  { destruct Hw as [k Hk]. split; apply String.eqb_neq; intros Hx; by rewrite Hx in Hk. }
  destruct Hne as [-> ->]. destruct Hw as [k Hk]. rewrite Hk.
  assert (Hnil : exists x y, w = String x y) by (destruct w as [|x y]; [done|eauto]).
  assert (Hs2 : exists x y, utoa s +:+ "s" = String x y)
    by (destruct (digits_head _ Hds) as (x & y & -> & _); rewrite app_cons; eauto).
  destruct Hnil as (x & y & Hxy). cbn [duration_terms]. rewrite Hxy. rewrite <-Hxy at 1. rewrite H1.
  cbn [mbind option_bind]. destruct (Z.ltb_spec (2 ^ 63) (0 + m * (60 * second))); [unfold second in *; lia|].
  destruct Hs2 as (x2 & y2 & Hxy2). rewrite Hxy2. rewrite <-Hxy2 at 1. rewrite H2. cbn [mbind option_bind].
  destruct (Z.ltb_spec (2 ^ 63) (0 + m * (60 * second) + s * second)); [unfold second in *; lia|].
  destruct k; cbn [duration_terms mbind option_bind].
  all: destruct (Z.ltb_spec (2 ^ 63 - 1) (0 + m * (60 * second) + s * second)); [lia|done].
Qed.

(** elapsed times survive the format.  Every elapsed time sing-box can print,
    in milliseconds, as seconds with unpadded hundredths, or in minutes and
    seconds, is read back as exactly what the text says: to the millisecond
    under a second, to the hundredth under a minute, to the second above. *)
Theorem elapsed_roundtrip ms :
  (0 <= ms < 2 ^ 63 / 1000000)%Z -> parseElapsedMS (format_elapsed ms) = Some (told_elapsed ms).
Proof.
  intros Hms. change (2 ^ 63 / 1000000)%Z with 9223372036854%Z in Hms.
  unfold parseElapsedMS, format_elapsed, told_elapsed.
  destruct (Z.ltb_spec ms 1000).
  { destruct (utoa_spec ms) as [Hd _]; [lia|]. destruct (digits_head _ Hd) as (c & t & E & _).
    assert (Hne : String.eqb (utoa ms +:+ "ms") "" = false) by (by rewrite E).
    by rewrite Hne, cut_suffix_app, parse_int_utoa by lia. }
  destruct (Z.ltb_spec ms 60000).
  - pose proof (Z.mod_pos_bound (ms / 10) 100 ltac:(lia)) as Hmod.
    destruct (utoa_spec (ms / 1000)) as [Hd _]; [lia|]. destruct (utoa_spec (ms / 10 mod 100)) as [Hd2 _]; [lia|].
    destruct (digits_head _ Hd) as (c & t & E & _).
    assert (Hne : String.eqb (utoa (ms / 1000) +:+ "." +:+ utoa (ms / 10 mod 100) +:+ "s") "" = false) by (by rewrite E).
    rewrite Hne. rewrite <-(string_app_assoc "."), <-string_app_assoc.
    rewrite <-(string_app_assoc _ ".") at 1. rewrite seconds_no_ms by done. rewrite cut_suffix_app. cbn [mbind option_bind].
    rewrite (cut_first "."%char "") by (by apply digits_no_byte). cbn [mbind option_bind].
    destruct (two_digits (ms / 10 mod 100) Hmod) as [Hl1%Nat.leb_le Hl2%Nat.leb_le]. unfold allDigits.
    rewrite Hl1, Hl2, Hd, Hd2. cbn [andb]. rewrite !parse_int_utoa by lia. cbn [mbind option_bind]. f_equal.
    unfold i64. rewrite !Z.mod_small by lia. lia.
  - destruct (utoa_spec (ms / 60000)) as [Hd _]; [lia|].
    pose proof (Z.mod_pos_bound (ms / 1000) 60 ltac:(lia)) as Hmod.
    destruct (utoa_spec (ms / 1000 mod 60)) as [Hd2 _]; [lia|].
    destruct (digits_head _ Hd) as (c & t & E & _).
    assert (Hne : String.eqb (utoa (ms / 60000) +:+ "m" +:+ utoa (ms / 1000 mod 60) +:+ "s") "" = false) by (by rewrite E).
    rewrite Hne.
    assert (Hs : cut_suffix (utoa (ms / 60000) +:+ "m" +:+ utoa (ms / 1000 mod 60) +:+ "s") "ms" = None).
    { rewrite <-(string_app_assoc "m"), <-!string_app_assoc. by apply seconds_no_ms. }
    assert (Hv : cut_suffix (utoa (ms / 60000) +:+ "m" +:+ utoa (ms / 1000 mod 60) +:+ "s") "s"
                 = Some (utoa (ms / 60000) +:+ "m" +:+ utoa (ms / 1000 mod 60))).
    { rewrite <-(string_app_assoc "m"), <-string_app_assoc. apply cut_suffix_app. }
    rewrite Hs, Hv. cbn [mbind option_bind].
    assert (Hc : cut (utoa (ms / 60000) +:+ "m" +:+ utoa (ms / 1000 mod 60)) "." = None).
    { unfold cut. rewrite index_absent; [done|]. rewrite !no_byte_app.
      by rewrite (digits_no_byte "."%char (utoa (ms / 60000))), (digits_no_byte "."%char (utoa (ms / 1000 mod 60))). }
    rewrite Hc. cbn [mbind option_bind]. rewrite elapsed_minutes by (unfold second; lia).
    cbn [mbind option_bind]. f_equal. unfold second.
    replace (ms / 60000 * (60 * 1000000000) + ms / 1000 mod 60 * 1000000000)%Z
      with (ms / 1000 * 1000 * 1000000)%Z by lia.
    by rewrite Z.quot_mul by lia.
Qed.

Lemma elapsed_roundtrip_witness : parseElapsedMS "1.4s" = Some 1040%Z.
Proof. exact (elapsed_roundtrip 1043 ltac:(split; [discriminate|reflexivity])). Defined.

(** ** Messages *)

(** The wordings sing-box uses. *)
Inductive message :=
  | MInboundFrom (packet : bool) (host : string) (port : Z)
  | MInboundTo (user : string) (packet : bool) (host : string) (port : Z)
  | MOutboundTo (packet : bool) (host : string) (port : Z)
  | MRoute (index : Z) (rule outbound : string)
  | MSniffed (protocol domain : string)
  | MFinished (upload : bool)
  | MClosed (upload : bool) (err : string)
  | MHandshake (upload : bool) (err : string)
  | MConnectionClosed (err : string)
  | MDialFailed (packet : bool) (host : string) (port : Z) (ty name err : string)
  | MRefused (host : string) (port : Z) (err : string)
  | MLookup (domain : string)
  | MLookupFailed (domain err : string).

Definition qualifier (packet : bool) : string := if packet then "packet " else "".
Definition direction_word (upload : bool) : string := if upload then "upload " else "download ".

Definition print_message (m : message) : string :=
  match m with
  | MInboundFrom pk h p => "inbound " +:+ qualifier pk +:+ "connection from " +:+ print_addr h p
  | MInboundTo u pk h p => "[" +:+ u +:+ "] inbound " +:+ qualifier pk +:+ "connection to " +:+ print_addr h p
  | MOutboundTo pk h p => "outbound " +:+ qualifier pk +:+ "connection to " +:+ print_addr h p
  | MRoute i r o => "match[" +:+ utoa i +:+ "] " +:+ r +:+ " => route(" +:+ o +:+ ")"
  | MSniffed pr d => "sniffed protocol: " +:+ pr +:+ ", domain: " +:+ d
  | MFinished up => "connection " +:+ direction_word up +:+ "finished"
  | MClosed up e => "connection " +:+ direction_word up +:+ "closed: " +:+ e
  | MHandshake up e => "connection " +:+ direction_word up +:+ "handshake: " +:+ e
  | MConnectionClosed e => "connection closed: " +:+ e
  | MDialFailed pk h p ty n e => "open " +:+ qualifier pk +:+ "connection to " +:+ print_addr h p
      +:+ " using outbound/" +:+ ty +:+ "[" +:+ n +:+ "]" +:+ ": " +:+ e
  | MRefused h p e => "process connection from " +:+ print_addr h p +:+ ": " +:+ e
  | MLookup d => "lookup domain " +:+ d
  | MLookupFailed d e => "lookup failed for " +:+ d +:+ ": " +:+ e
  end.

(** An address without a blank; a word without a blank. *)
Definition address (h : string) (p : Z) : bool :=
  plain_host h && no_byte " "%char h && ((0 <=? p) && (p <=? 65535))%Z.
Definition word (s : string) : bool := no_byte " "%char s.

(** What the parts of a message have to satisfy to be told apart. *)
Definition readable (m : message) : bool :=
  match m with
  | MInboundFrom _ h p | MOutboundTo _ h p | MRefused h p _ => address h p
  | MInboundTo u _ h p => address h p && negb (String.eqb u "") && negb (all_digits u) && no_byte "]"%char u
  | MRoute i r o => ((0 <=? i) && (i <? 2 ^ 63))%Z && negb (has_prefix r "=") && negb (String.eqb r "")
                    && word o && no_byte ","%char o
  | MSniffed pr d => word pr && word d && negb (String.eqb d "")
  | MDialFailed _ h p ty n _ => address h p && word ty && word n && no_byte "["%char ty
  | MLookupFailed d _ => word d
  | _ => true
  end.

Definition direction (upload : bool) : Direction := if upload then DirectionUpload else DirectionDownload.

(** What the parsed line says. *)
Definition meaning (m : message) (l : line) : line :=
  match m with
  | MInboundFrom pk h p => l <| Line.Ev := EventInboundFrom |> <| Line.Packet := pk |>
      <| Line.SrcIP := h |> <| Line.SrcPort := p |>
  | MInboundTo u pk h p => l <| Line.User := u |> <| Line.Ev := EventInboundTo |> <| Line.Packet := pk |>
      <| Line.DstHost := h |> <| Line.DstPort := p |>
  | MOutboundTo pk h p => l <| Line.Ev := EventOutboundTo |> <| Line.Packet := pk |>
      <| Line.DstHost := h |> <| Line.DstPort := p |>
  | MRoute i r o => l <| Line.Ev := EventRuleMatch |> <| Line.RuleIndex := i |> <| Line.HasRule := true |>
      <| Line.RuleText := r |> <| Line.Action := "route" |> <| Line.Outbound := o |>
  | MSniffed pr d => l <| Line.Ev := EventSniffed |> <| Line.SniffProtocol := pr |> <| Line.SniffDomain := d |>
  | MFinished up => l <| Line.Ev := EventFinished |> <| Line.Dir := direction up |>
  | MClosed up e => l <| Line.Ev := EventClosed |> <| Line.Dir := direction up |> <| Line.Error := e |>
  | MHandshake up e => l <| Line.Ev := EventHandshakeFailed |> <| Line.Dir := direction up |> <| Line.Error := e |>
  | MConnectionClosed e => l <| Line.Ev := EventConnectionClosed |> <| Line.Error := e |>
  | MDialFailed pk h p ty n e => l <| Line.OutboundType := ty |> <| Line.OutboundName := n |>
      <| Line.Ev := EventDialFailed |> <| Line.Packet := pk |>
      <| Line.DstHost := h |> <| Line.DstPort := p |> <| Line.Error := e |>
  | MRefused h p e => l <| Line.SrcIP := h |> <| Line.SrcPort := p |> <| Line.Error := e |>
      <| Line.Ev := (if isHandshakeError e then EventHandshakeFailed else EventAuthFailed) |>
  | MLookup d => l <| Line.Ev := EventDNS |> <| Line.DNSDomain := d |>
  | MLookupFailed d e => l <| Line.Ev := EventDNS |> <| Line.DNSDomain := d |> <| Line.Error := e |>
  end.

Lemma address_facts h p : address h p = true ->
  splitHostPort (print_addr h p) = (h, p) /\ no_byte " "%char (print_addr h p) = true.
Proof.
  unfold address. rewrite !andb_true_iff, !Z.leb_le. intros [[Hh Hs] Hp].
  split; [apply splitHostPort_print; tauto|].
  destruct (utoa_spec p) as [Hd _]; [lia|]. unfold print_addr.
  destruct (no_byte ":"%char h); rewrite !no_byte_app, Hs, (digits_no_byte " "%char (utoa p)); done.
Qed.

(** A separator with a blank does not occur in text without one. *)
Lemma index_no_blank s sep : no_byte " "%char s = true -> no_byte " "%char sep = false -> index_of s sep = None.
Proof.
  intros Hs Hsep. induction s as [|c s IH].
  - by destruct sep.
  - cbn [index_of]. destruct (has_prefix (String c s) sep) eqn:E.
    + exfalso. assert (Hx : cut_prefix (String c s) sep = Some (str_drop (String.length sep) (String c s)))
        by (unfold cut_prefix; by rewrite E).
      apply cut_prefix_split in Hx. rewrite Hx, no_byte_app, Hsep in Hs. done.
    + apply no_byte_cons in Hs as [_ Hs]. by rewrite IH.
Qed.

Lemma index_skip c s sep : has_prefix (String c s) sep = false -> index_of (String c s) sep = S <$> index_of s sep.
Proof. intros E. cbn [index_of]. by rewrite E. Qed.

Lemma classify_plain l msg l' :
  has_prefix msg "[" = false -> classify_body l msg = Some l' -> classify l msg = l'.
Proof. intros Hb Hc. unfold classify, claimed_user, cutUserPrefix. rewrite Hb. cbn [negb mbind option_bind]. by rewrite Hc. Qed.

Lemma body_inbound l r : classify_body l ("inbound " +:+ r) = classifyInbound l r.
Proof. by destruct r. Qed.
Lemma body_outbound l r : classify_body l ("outbound " +:+ r) = classifyOutbound l r.
Proof. by destruct r. Qed.
Lemma body_match l r : classify_body l ("match[" +:+ r) = classifyRuleMatch l ("match[" +:+ r).
Proof. by destruct r. Qed.

Lemma from_is_not_to q addr :
  no_byte " "%char addr = true -> q = "" \/ q = "packet " ->
  cutQualified (q +:+ "connection from " +:+ addr) "connection to " = None.
Proof.
  intros Ha Hq. unfold cutQualified, cut.
  assert (Hi : index_of (q +:+ "connection from " +:+ addr) "connection to " = None).
  { destruct Hq as [->| ->]; rewrite ?app_empty, ?app_cons; rewrite ?app_empty;
      repeat (rewrite index_skip by reflexivity); by rewrite index_no_blank. }
  by rewrite Hi.
Qed.

Lemma read_inbound_from l pk h p : address h p = true ->
  classify l (print_message (MInboundFrom pk h p)) = meaning (MInboundFrom pk h p) l.
Proof.
  intros Ha. destruct (address_facts h p Ha) as [Hsp Hnb]. cbn [print_message].
  set (addr := print_addr h p) in *. clearbody addr. apply classify_plain; [done|].
  rewrite body_inbound. unfold classifyInbound. rewrite from_is_not_to by (destruct pk; auto).
  assert (Hq : cutQualified (qualifier pk +:+ "connection from " +:+ addr) "connection from " = Some (qualifier pk, addr))
    by (destruct addr; by destruct pk).
  rewrite Hq, Hsp. by destruct pk.
Qed.

Lemma cut_to pk addr :
  cutQualified (qualifier pk +:+ "connection to " +:+ addr) "connection to " = Some (qualifier pk, addr).
Proof. destruct addr; by destruct pk. Qed.

Lemma read_inbound_to l u pk h p : readable (MInboundTo u pk h p) = true ->
  classify l (print_message (MInboundTo u pk h p)) = meaning (MInboundTo u pk h p) l.
Proof.
  cbn [readable]. rewrite !andb_true_iff. intros [[[Ha Hne] Hdig] Hbr].
  destruct (address_facts h p Ha) as [Hsp Hnb]. cbn [print_message].
  set (addr := print_addr h p) in *. clearbody addr. unfold classify.
  assert (Hu : claimed_user ("[" +:+ u +:+ "] inbound " +:+ qualifier pk +:+ "connection to " +:+ addr)
    = Some (u, "inbound " +:+ qualifier pk +:+ "connection to " +:+ addr)).
  { unfold claimed_user, cutUserPrefix.
    rewrite (has_prefix_app "["). cbn [negb]. rewrite <-(string_app_assoc "[" u).
    change ("] inbound " +:+ qualifier pk +:+ "connection to " +:+ addr)
      with ("] " +:+ "inbound " +:+ qualifier pk +:+ "connection to " +:+ addr).
    rewrite index_first by (by rewrite no_byte_app, Hbr). cbn [mbind option_bind].
    rewrite str_take_app, str_drop_add, str_drop_app. change (str_drop 1 ("[" +:+ u)) with u.
    unfold allDigits. apply negb_true_iff in Hne, Hdig. rewrite Hne, Hdig. cbn [orb].
    rewrite (str_drop_app "] "). cbn [mbind option_bind]. by rewrite has_prefix_app. }
  rewrite Hu. set (l1 := l <| Line.User := u |>).
  rewrite body_inbound. unfold classifyInbound. rewrite cut_to, Hsp. by destruct pk.
Qed.

Lemma read_outbound_to l pk h p : address h p = true ->
  classify l (print_message (MOutboundTo pk h p)) = meaning (MOutboundTo pk h p) l.
Proof.
  intros Ha. destruct (address_facts h p Ha) as [Hsp Hnb]. cbn [print_message].
  set (addr := print_addr h p) in *. clearbody addr. apply classify_plain; [done|].
  rewrite body_outbound. unfold classifyOutbound. rewrite cut_to, Hsp. by destruct pk.
Qed.

Lemma last_index_no_blank s sep : no_byte " "%char s = true -> no_byte " "%char sep = false -> last_index_of s sep = None.
Proof.
  intros Hs Hsep. induction s as [|c s IH].
  - by destruct sep.
  - pose proof (index_no_blank _ _ Hs Hsep) as Hi. cbn [index_of] in Hi. cbn [last_index_of].
    destruct (has_prefix (String c s) sep); [done|]. apply no_byte_cons in Hs as [_ Hs]. by rewrite IH.
Qed.

Lemma last_index_app a sep b :
  last_index_of (sep +:+ b) sep = Some 0%nat -> last_index_of (a +:+ sep +:+ b) sep = Some (String.length a).
Proof.
  intros H0. induction a as [|c a IH]; [done|]. rewrite app_cons. cbn [last_index_of String.length]. by rewrite IH.
Qed.

Lemma action_twice (l : line) a b : l <| Line.Action := a |> <| Line.Action := b |> = l <| Line.Action := b |>.
Proof. by destruct l. Qed.

Lemma read_route l i r o : readable (MRoute i r o) = true ->
  classify l (print_message (MRoute i r o)) = meaning (MRoute i r o) l.
Proof.
  cbn [readable]. rewrite !andb_true_iff. intros [[[[[Hi1%Z.leb_le Hi2%Z.ltb_lt] Hr] Hrn] Hw] Hcomma].
  cbn [print_message]. apply classify_plain; [done|].
  set (tail := r +:+ " => route(" +:+ o +:+ ")").
  rewrite body_match. unfold classifyRuleMatch.
  change (cut_prefix ("match[" +:+ utoa i +:+ "] " +:+ tail) "pre-match[") with (@None string).
  unfold trim_prefix. rewrite cut_prefix_app. cbn [default from_option id].
  destruct (utoa_spec i Hi1) as [Hd _].
  rewrite (cut_first "]"%char " ") by (by apply digits_no_byte). cbn [mbind option_bind].
  unfold atoi. rewrite parse_int_utoa by lia. cbn [mbind option_bind].
  assert (Hact : cut_action tail = Some (r, "route(" +:+ o +:+ ")")).
  { unfold cut_action, tail. destruct r as [|c r]; [done|].
    assert (Hc : cut_prefix (String c r +:+ " => route(" +:+ o +:+ ")") "=> " = None).
    { unfold cut_prefix. rewrite app_cons, has_prefix_head. rewrite has_prefix_head in Hr.
      destruct (ascii_dec "="%char c); [|done]. by rewrite has_prefix_empty in Hr. }
    rewrite Hc. change (" => route(" +:+ o +:+ ")") with (" => " +:+ "route(" +:+ o +:+ ")").
    rewrite last_index_app; [cbn [mbind option_bind]; by rewrite str_take_app, str_drop_add, str_drop_app|].
    unfold word in Hw.
    assert (Hb : no_byte " "%char ("route(" +:+ o +:+ ")") = true) by (by rewrite !no_byte_app, Hw).
    set (b := "route(" +:+ o +:+ ")") in *.
    assert (Hp : has_prefix b "=> " = false) by done.
    change (" => " +:+ b) with (String " " (String "=" (String ">" (String " " b)))).
    cbn [last_index_of]. rewrite (last_index_no_blank b) by done. rewrite !has_prefix_head, Hp.
    by repeat (case_match; try done). }
  rewrite Hact. cbn [mbind option_bind].
  assert (Hpar : cutParens ("route(" +:+ o +:+ ")") = Some ("route", o)).
  { unfold cutParens. rewrite <-(string_app_assoc "route("), has_suffix_app. cbn [negb].
    rewrite string_app_assoc.
    assert (Hidx : index_of ("route(" +:+ o +:+ ")") "(" = Some 5%nat)
      by exact (index_first "("%char "" "route" (o +:+ ")") eq_refl).
    rewrite Hidx. cbn [mbind option_bind]. f_equal. f_equal. rewrite <-string_app_assoc, string_app_length.
    change (String.length ")") with 1%nat. replace (String.length ("route(" +:+ o) + 1 - 1)%nat
      with (String.length ("route(" +:+ o)) by lia. by rewrite str_take_app. }
  rewrite Hpar. cbn [String.eqb Ascii.eqb Bool.eqb orb]. unfold cut_or, cut. rewrite index_absent by done. cbn [default from_option id fst].
  by rewrite action_twice.
Qed.

Lemma read_sniffed l pr d : readable (MSniffed pr d) = true ->
  classify l (print_message (MSniffed pr d)) = meaning (MSniffed pr d) l.
Proof.
  cbn [readable]. unfold word. rewrite !andb_true_iff, negb_true_iff. intros [[Hp Hd] Hne]. cbn [print_message].
  apply classify_plain; [done|].
  assert (Hb : forall r, classify_body l ("sniffed protocol: " +:+ r) = Some (classifySniffed l r)) by (by intros []).
  rewrite Hb. f_equal. unfold classifySniffed, cut_or.
  change (", domain: " +:+ d) with (", " +:+ "domain: " +:+ d).
  rewrite (cut_second ","%char " "%char "") by done. cbn [default from_option id].
  assert (Hlen : exists k, S (String.length ("domain: " +:+ d)) = S (S k)) by (by eexists).
  destruct Hlen as [k ->]. set (l1 := l <| Line.Ev := _ |> <| Line.SniffProtocol := _ |>). cbn [sniffed_parts].
  assert (Hi : index_of ("domain: " +:+ d) ", " = None).
  { rewrite ?app_cons, app_empty. repeat (rewrite index_skip by reflexivity).
    by rewrite (index_absent_second ","%char " "%char ""). }
  change (String.eqb ("domain: " +:+ d) "") with false. unfold cut_or, cut. rewrite Hi. cbn [default from_option id].
  rewrite cut_prefix_app. by destruct k.
Qed.

Lemma body_connection l r : classify_body l ("connection " +:+ r) = classifyConnection l r.
Proof. by destruct r. Qed.

(** The direction a half close names, and the rest. *)
Lemma direction_cut up r :
  (if has_prefix (direction_word up +:+ r) "upload " then (DirectionUpload, str_drop 7 (direction_word up +:+ r))
   else if has_prefix (direction_word up +:+ r) "download " then (DirectionDownload, str_drop 9 (direction_word up +:+ r))
   else (DirectionNone, direction_word up +:+ r)) = (direction up, r).
Proof. destruct up; by destruct r. Qed.

Lemma read_half l m : match m with MFinished _ | MClosed _ _ | MHandshake _ _ => True | _ => False end ->
  classify l (print_message m) = meaning m l.
Proof.
  intros Hm. destruct m as [| | | | |up|up e|up e| | | | |]; try done; cbn [print_message]; (apply classify_plain; [done|]);
    rewrite body_connection; unfold classifyConnection; rewrite direction_cut.
  all: assert (Hd : bool_decide (direction up = DirectionNone) = false)
    by (apply bool_decide_eq_false_2; by destruct up); rewrite Hd.
  - done.
  - change (cut_prefix ("closed: " +:+ e) "handshake: ") with (@None string).
    change (String.eqb ("closed: " +:+ e) "handshake") with false.
    change (String.eqb ("closed: " +:+ e) "finished") with false.
    change (String.eqb ("closed: " +:+ e) "closed") with false. by rewrite cut_prefix_app.
  - by rewrite cut_prefix_app.
Qed.

Lemma read_connection_closed l e :
  classify l (print_message (MConnectionClosed e)) = meaning (MConnectionClosed e) l.
Proof.
  cbn [print_message]. change ("connection closed: " +:+ e) with ("connection " +:+ "closed: " +:+ e).
  apply classify_plain; [done|]. rewrite body_connection. unfold classifyConnection.
  change (has_prefix ("closed: " +:+ e) "upload ") with false.
  change (has_prefix ("closed: " +:+ e) "download ") with false. cbv iota beta.
  rewrite bool_decide_eq_true_2 by done. by rewrite cut_prefix_app.
Qed.

Lemma split_bracketed_print ty n : no_byte "["%char ty = true -> split_bracketed (ty +:+ "[" +:+ n +:+ "]") = (ty, n).
Proof.
  intros Ht. unfold split_bracketed. rewrite index_first by done.
  assert (Hs : ty +:+ "[" +:+ n +:+ "]" = (ty +:+ "[" +:+ n) +:+ "]") by (by rewrite !string_app_assoc).
  assert (Hsuf : has_suffix (ty +:+ "[" +:+ n +:+ "]") "]" = true) by (rewrite Hs; apply has_suffix_app).
  assert (Htake : str_take (String.length (ty +:+ "[" +:+ n +:+ "]") - 1) (ty +:+ "[" +:+ n +:+ "]") = ty +:+ "[" +:+ n).
  { rewrite Hs, (string_app_length (ty +:+ "[" +:+ n)). change (String.length "]") with 1%nat.
    rewrite Nat.add_sub. apply str_take_app. }
  rewrite Hsuf, Htake, str_take_app, str_drop_add, str_drop_app. done.
Qed.

Lemma read_dial l pk h p ty n e : readable (MDialFailed pk h p ty n e) = true ->
  classify l (print_message (MDialFailed pk h p ty n e)) = meaning (MDialFailed pk h p ty n e) l.
Proof.
  cbn [readable]. unfold word. rewrite !andb_true_iff. intros [[[Ha Hty] Hn] Hbr].
  destruct (address_facts h p Ha) as [Hsp Hnb]. cbn [print_message].
  set (addr := print_addr h p) in *. clearbody addr.
  set (rest := addr +:+ " using outbound/" +:+ ty +:+ "[" +:+ n +:+ "]" +:+ ": " +:+ e).
  apply classify_plain; [done|].
  assert (Hb : forall r, classify_body l ("open " +:+ r) = classifyDialFailure l ("open " +:+ r)) by (by intros []).
  rewrite Hb. clear Hb. unfold classifyDialFailure.
  assert (Hc : match cut_prefix ("open " +:+ qualifier pk +:+ "connection to " +:+ rest) "open connection to " with
    | Some r => Some (r, false)
    | None => r ← cut_prefix ("open " +:+ qualifier pk +:+ "connection to " +:+ rest) "open packet connection to "; Some (r, true)
    end = Some (rest, pk)) by (clearbody rest; destruct pk; by destruct rest).
  rewrite Hc. cbn [mbind option_bind]. unfold rest at 1.
  change (" using outbound/" +:+ ty +:+ "[" +:+ n +:+ "]" +:+ ": " +:+ e)
    with (" using outbound/" +:+ (ty +:+ "[" +:+ n +:+ "]" +:+ ": " +:+ e)).
  rewrite (index_first " "%char) by done.
  assert (Hdrop : str_drop (String.length addr + 16) rest = (ty +:+ "[" +:+ n +:+ "]") +:+ ": " +:+ e).
  { unfold rest. rewrite str_drop_add, str_drop_app, (str_drop_app " using outbound/"). by rewrite !string_app_assoc. }
  rewrite Hdrop. unfold cut_or. rewrite cut_second by (done || by rewrite !no_byte_app, Hty, Hn).
  cbn [default from_option id]. rewrite split_bracketed_print by done.
  unfold rest. by rewrite str_take_app, Hsp.
Qed.

Lemma read_refused l h p e : address h p = true ->
  classify l (print_message (MRefused h p e)) = meaning (MRefused h p e) l.
Proof.
  intros Ha. destruct (address_facts h p Ha) as [Hsp Hnb]. cbn [print_message].
  set (addr := print_addr h p) in *. clearbody addr. apply classify_plain; [done|].
  assert (Hb : forall r, classify_body l ("process connection from " +:+ r) = Some (classifyAuthFailure l r)) by (by intros []).
  rewrite Hb. f_equal. unfold classifyAuthFailure, cut_or.
  rewrite (cut_second ":"%char " "%char "") by done. cbn [default from_option id]. by rewrite Hsp.
Qed.

Lemma body_lookup l r : classify_body l ("lookup " +:+ r) = classifyLookup l r.
Proof. by destruct r. Qed.

Lemma read_lookup l d : classify l (print_message (MLookup d)) = meaning (MLookup d) l.
Proof.
  cbn [print_message]. apply classify_plain; [done|].
  change ("lookup domain " +:+ d) with ("lookup " +:+ "domain " +:+ d). rewrite body_lookup.
  unfold classifyLookup. by rewrite has_prefix_app.
Qed.

Lemma read_lookup_failed l d e : word d = true ->
  classify l (print_message (MLookupFailed d e)) = meaning (MLookupFailed d e) l.
Proof.
  intros Hd. cbn [print_message]. apply classify_plain; [done|].
  change ("lookup failed for " +:+ d +:+ ": " +:+ e) with ("lookup " +:+ "failed for " +:+ d +:+ ": " +:+ e).
  rewrite body_lookup. unfold classifyLookup.
  change (has_prefix ("failed for " +:+ d +:+ ": " +:+ e) "domain ") with false.
  change (has_prefix ("failed for " +:+ d +:+ ": " +:+ e) "succeed for ") with false. rewrite has_prefix_app.
  rewrite (str_drop_app "failed for "). unfold cut_or. by rewrite cut_second.
Qed.

(** every wording is understood.  Each message sing-box prints, for every
    address, user, rule, outbound and error text its parts may hold, is
    classified as the event it reports with exactly its own fields filled in,
    and everything else of the line is left as the header made it. *)
Theorem message_roundtrip m l : readable m = true -> classify l (print_message m) = meaning m l.
Proof.
  intros Hm. destruct m.
  - by apply read_inbound_from.
  - by apply read_inbound_to.
  - by apply read_outbound_to.
  - by apply read_route.
  - by apply read_sniffed.
  - by apply read_half.
  - by apply read_half.
  - by apply read_half.
  - apply read_connection_closed.
  - by apply read_dial.
  - by apply read_refused.
  - apply read_lookup.
  - by apply read_lookup_failed.
Qed.

Lemma message_roundtrip_witness :
  classify blank_line "[u_a1b2] inbound packet connection to [2001:db8::1]:443" =
  blank_line <| Line.User := "u_a1b2" |> <| Line.Ev := EventInboundTo |> <| Line.Packet := true |>
    <| Line.DstHost := "2001:db8::1" |> <| Line.DstPort := 443%Z |>.
Proof. exact (message_roundtrip (MInboundTo "u_a1b2" true "2001:db8::1" 443) blank_line eq_refl). Defined.

(** Payloads captured from sing-box 1.13.14. *)
Example captured_payloads :
  map (fun s => let l := ParsePayload s "info" 0 in (Line.LogID l, Line.Kind l, Line.Ev l))
    ["[2064424212 0ms] inbound/mixed[mixed-entry]: inbound connection from 127.0.0.1:62010";
     "[411327584 14ms] router: match[1] inbound=mixed-entry domain_suffix=example.com => route(chain-to-exit)";
     "[411327584 14ms] router: sniffed protocol: tls, domain: example.com";
     "[228733835 1ms] dns: exchanged A localhost. 600 IN A 127.0.0.1";
     "[2064424212 11ms] inbound/mixed[mixed-entry]: connection closed: read http request: EOF";
     "[1 0ms] outbound/direct[direct-out]: outbound something else entirely";
     "network: updated default interface eth0, index 2"]
  = [(2064424212%Z, TagInbound, EventInboundFrom); (411327584%Z, TagRouter, EventRuleMatch);
     (411327584%Z, TagRouter, EventSniffed); (228733835%Z, TagDNS, EventDNS);
     (2064424212%Z, TagInbound, EventConnectionClosed); (1%Z, TagOutbound, EventOther); (0%Z, TagOther, EventOther)].
Proof. vm_compute. reflexivity. Qed.
End Messages.
