(* ===== verification/SDK.v ===== *)
(** * What the agent uses of lattice-sdk's model package

    The package is not part of the repository.  Its structs are records of the
    fields the agent reads or writes; its constants and functions are the
    members of type classes, so that every definition that uses them takes
    them as an argument; what the agent relies on is stated as laws. *)
From S2P Require Import Prelude.

Local Open Scope Z_scope.

(** The close reasons and user kinds of a connection record. *)
Class ConnVocabulary := {
  CloseUnknown : string;
  CloseEOF : string;
  CloseCanceled : string;
  CloseUDPIdle : string;
  CloseReset : string;
  CloseTimeout : string;
  CloseHandshakeFailed : string;
  CloseDialFailed : string;
  CloseAuthFailed : string;
  CloseCoreRestart : string;
  UserKindUnobserved : string;
  UserKindUnnamed : string;
  UserKindManaged : string;
  UserKindLegacy : string
}.

Definition close_reasons `{ConnVocabulary} : list string :=
  [CloseUnknown; CloseEOF; CloseCanceled; CloseUDPIdle; CloseReset; CloseTimeout;
   CloseHandshakeFailed; CloseDialFailed; CloseAuthFailed; CloseCoreRestart].

(** The reasons are distinct, non-empty words. *)
Class ConnVocabularyLaws `{ConnVocabulary} := {
  close_reasons_distinct : NoDup close_reasons;
  close_reasons_nonempty : "" ∉ close_reasons
}.

(** [model.ConnRecord]. *)
Module ConnRecord.
Record ConnRecord := mk {
  NodeID : string;
  CoreGeneration : Z;
  LogID : Z;
  Network : string;
  StartedAt : time;
  EndedAt : time;
  UserKind : string;
  UserName : string;
  SrcIP : string;
  SrcPort : Z;
  DstHost : string;
  DstPort : Z;
  DstIP : string;
  InboundTag : string;
  InboundType : string;
  OutboundTag : string;
  OutboundType : string;
  RuleIndex : Z;
  RuleText : string;
  SniffedProtocol : string;
  SniffedDomain : string;
  Upload : Z;
  Download : Z;
  BytesKnown : bool;
  StalledAt : time;
  SessionIDs : list string;
  Open : bool;
  CloseReason : string;
  CloseError : string;
  DurationMS : Z
}.
End ConnRecord.

Abbreviation conn_record := ConnRecord.ConnRecord (only parsing).

Section Eta.
Import ConnRecord.
#[export] Instance ConnRecord_eta : Etable ConnRecord := fun r =>
  mk (NodeID r) (CoreGeneration r) (LogID r) (Network r) (StartedAt r) (EndedAt r) (UserKind r)
     (UserName r) (SrcIP r) (SrcPort r) (DstHost r) (DstPort r) (DstIP r) (InboundTag r)
     (InboundType r) (OutboundTag r) (OutboundType r) (RuleIndex r) (RuleText r)
     (SniffedProtocol r) (SniffedDomain r) (Upload r) (Download r) (BytesKnown r) (StalledAt r)
     (SessionIDs r) (Open r) (CloseReason r) (CloseError r) (DurationMS r).
End Eta.

(** Go's zero record. *)
Definition zero_record : conn_record :=
  ConnRecord.mk "" 0 0 "" 0 0 "" "" "" 0 "" 0 "" "" "" "" "" 0 "" "" "" 0 0 false 0 [] false "" "" 0.

(** [model.TraceLine] and [model.TraceBatch]. *)
Module TraceLine.
Record TraceLine := mk {
  NodeID : string;
  At : time;
  Level : string;
  LogID : Z;
  Tag : string;
  Message : string;
  Raw : string;
  SessionID : string
}.
End TraceLine.

Abbreviation trace_line := TraceLine.TraceLine (only parsing).

Module TraceBatch.
Record TraceBatch := mk {
  NodeID : string;
  CoreGeneration : Z;
  CoreStartedAt : time;
  Records : list conn_record;
  Lines : list trace_line;
  Dropped : Z;
  ShedConnections : Z;
  Unparsed : Z;
  CapturedAt : time
}.
End TraceBatch.

Abbreviation trace_batch := TraceBatch.TraceBatch (only parsing).

Section LineEta.
Import TraceLine.
#[export] Instance TraceLine_eta : Etable TraceLine := fun l =>
  mk (NodeID l) (At l) (Level l) (LogID l) (Tag l) (Message l) (Raw l) (SessionID l).
End LineEta.

Section BatchEta.
Import TraceBatch.
#[export] Instance TraceBatch_eta : Etable TraceBatch := fun b =>
  mk (NodeID b) (CoreGeneration b) (CoreStartedAt b) (Records b) (Lines b) (Dropped b)
     (ShedConnections b) (Unparsed b) (CapturedAt b).
End BatchEta.

(** A concrete vocabulary, the words the repository's README and tests show;
    it discharges the laws and serves the concrete runs. *)
Definition sample_vocabulary : ConnVocabulary := {|
  CloseUnknown := "unknown"; CloseEOF := "eof"; CloseCanceled := "canceled";
  CloseUDPIdle := "udp_idle"; CloseReset := "reset"; CloseTimeout := "timeout";
  CloseHandshakeFailed := "handshake_failed"; CloseDialFailed := "dial_failed";
  CloseAuthFailed := "auth_failed"; CloseCoreRestart := "core_restart";
  UserKindUnobserved := "unobserved"; UserKindUnnamed := "unnamed";
  UserKindManaged := "managed"; UserKindLegacy := "legacy" |}.

#[export] Instance sample_vocabulary_laws : @ConnVocabularyLaws sample_vocabulary.
Proof.
  split.
  - refine (bool_decide_unpack _ _). vm_compute. exact I.
  - refine (bool_decide_unpack _ _). vm_compute. exact I.
Qed.

(** ** Trace levels and sessions *)

(** The verbosity levels of the SDK: [TraceLevelAtLeast a b] says that level
    [a] is at least as verbose as [b]. *)
Class TraceLevels := {
  TraceLevelInfo : string;
  ValidTraceLevel : string -> bool;
  TraceLevelAtLeast : string -> string -> bool
}.

(** The levels are ordered by verbosity, and info is one of them. *)
Class TraceLevelsLaws `{TraceLevels} := {
  level_info_valid : ValidTraceLevel TraceLevelInfo = true;
  level_nonempty : ValidTraceLevel "" = false;
  level_refl : forall a, ValidTraceLevel a = true -> TraceLevelAtLeast a a = true;
  level_trans : forall a b c, TraceLevelAtLeast a b = true -> TraceLevelAtLeast b c = true ->
    TraceLevelAtLeast a c = true;
  level_total : forall a b, ValidTraceLevel a = true -> ValidTraceLevel b = true ->
    TraceLevelAtLeast a b = true \/ TraceLevelAtLeast b a = true
}.

(** [model.TracePolicy]; [pRaw] is the raw switch, a pointer that may be nil. *)
Record TracePolicyCfg := mkPolicy {
  pEnabled : bool;
  pLevel : string;
  pBudgetLinesPerSec : Z;
  pClashAPIAddr : string;
  pSecretPath : string;
  pRaw : option bool
}.

(** [model.TraceAgentSession]. *)
Record TraceAgentSession := mkSession {
  sID : string;
  sLevel : string;
  sUserNames : list string;
  sInboundTags : list string;
  sDstPatterns : list string;
  sExpiresAt : time
}.
#[export] Instance TraceAgentSession_eta : Etable TraceAgentSession := fun s =>
  mkSession (sID s) (sLevel s) (sUserNames s) (sInboundTags s) (sDstPatterns s) (sExpiresAt s).

(** [model.TraceAgentConfig]. *)
Record TraceAgentConfig := mkConfig {
  cPolicy : TracePolicyCfg;
  cSessions : list TraceAgentSession;
  cRawSourceID : string;
  cServerTime : time
}.

(** The levels sing-box documents, least verbose first. *)
Definition sample_rank (s : string) : option Z :=
  if String.eqb s "error" then Some 0 else if String.eqb s "warn" then Some 1
  else if String.eqb s "info" then Some 2 else if String.eqb s "debug" then Some 3
  else if String.eqb s "trace" then Some 4 else None.

Definition sample_levels : TraceLevels := {|
  TraceLevelInfo := "info";
  ValidTraceLevel s := bool_decide (is_Some (sample_rank s));
  TraceLevelAtLeast a b := default (-1) (sample_rank b) <=? default (-1) (sample_rank a) |}.

#[export] Instance sample_levels_laws : @TraceLevelsLaws sample_levels.
Proof.
  split; simpl; try done.
  - intros a _. apply Z.leb_refl.
  - intros a b c. rewrite !Z.leb_le. lia.
  - intros a b _ _. rewrite !Z.leb_le. lia.
Qed.

(** ** Tasks *)

(** [model.Task] and [model.TaskResult]. *)
Record Task := mkTask {
  tID : string;
  tLeaseID : string;
  tInterpreter : string;
  tScript : string;
  tTimeoutSec : Z;
  tOutputLimit : Z
}.

Record TaskResult := mkResult {
  rTaskID : string;
  rLeaseID : string;
  rNodeID : string;
  rExitCode : Z;
  rStdout : string;
  rStderr : string;
  rError : string;
  rStartedAt : time;
  rFinishedAt : time
}.

#[export] Instance Task_eq_dec : EqDecision Task.
Proof. solve_decision. Defined.
#[export] Instance TaskResult_eq_dec : EqDecision TaskResult.
Proof. solve_decision. Defined.
#[export] Instance TaskResult_eta : Etable TaskResult := fun r =>
  mkResult (rTaskID r) (rLeaseID r) (rNodeID r) (rExitCode r) (rStdout r) (rStderr r) (rError r)
    (rStartedAt r) (rFinishedAt r).

(** ** The collector's status *)

(** [model.CollectorState]. *)
Inductive CollectorState :=
  | CollectorOff | CollectorReady | CollectorNoClashAPI | CollectorStreamFailing
  | CollectorSecretUnreadable.

#[export] Instance CollectorState_eq_dec : EqDecision CollectorState.
Proof. solve_decision. Defined.

(** The SDK bounds the detail text and names where an address came from. *)
Class CollectorVocabulary := {
  BoundCollectorDetail : string -> string;
  ClashAddrFromPolicy : string;
  ClashAddrFromConfig : string
}.
