(* ===== verification/TraceShed.v ===== *)
(** * The per-second line budget (internal/traceshed/guard.go)

    [shedRing] is the bounded FIFO of shed log ids, [Guard] the budget that
    decides for every parsed line whether its connection is observed.  The
    mutex makes each method atomic, so a method is a function of the state. *)
From S2P Require Import Prelude SingboxLog.

Local Open Scope Z_scope.

Definition HardCeilingFactor : Z := 4.
Definition DefaultRingCapacity : Z := 65536.

Module ShedRing.

Record shedSlot := mkSlot { slot_id : Z; slot_seq : Z }.

Record shedRing := mk {
  ids : gmap Z Z;
  ring : list shedSlot;
  cap : nat;
  pos : nat;
  seq : Z
}.

#[export] Instance shedRing_eta : Etable shedRing :=
  fun r => mk (ids r) (ring r) (cap r) (pos r) (seq r).

Definition newShedRing (capacity : nat) : shedRing := mk ∅ [] capacity 0 0.

Definition has (r : shedRing) (id : Z) : bool := bool_decide (is_Some (ids r !! id)).

(** Go reads a missing key of the map as 0. *)
Definition mark_of (r : shedRing) (id : Z) : Z := default 0 (ids r !! id).

Definition add (r : shedRing) (id : Z) : shedRing :=
  let seq' := u64 (seq r + 1) in
  let slot := mkSlot id seq' in
  let ids' :=
    match ring_victim (cap r) (ring r) (pos r) with
    | Some old =>
        if mark_of r (slot_id old) =? slot_seq old then delete (slot_id old) (ids r) else ids r
    | None => ids r
    end in
  let put := ring_put (cap r) (ring r) (pos r) slot in
  r <| seq := seq' |> <| ring := put.1 |> <| pos := put.2 |>
    <| ids := <[id := seq']> ids' |>.

Definition remove (r : shedRing) (id : Z) : shedRing := r <| ids ::= delete id |>.

Definition len (r : shedRing) : nat := size (ids r).

Definition reset (r : shedRing) : shedRing :=
  r <| ids := ∅ |> <| ring := [] |> <| pos := 0%nat |>.

(** ** The ring is a bounded FIFO *)

(** Every mark is backed by the slot it was added under, and the slots fit
    the capacity. *)
Definition ring_wf (r : shedRing) : Prop :=
  ring_ok (cap r) (ring r) (pos r) /\
  forall id s, ids r !! id = Some s -> mkSlot id s ∈ ring r.

Lemma ring_wf_new capacity : (0 < capacity)%nat -> ring_wf (newShedRing capacity).
Proof.
  intros H. split; [by apply ring_ok_nil|]. intros id s. simpl. by rewrite lookup_empty.
Qed.

Lemma ring_wf_remove r id : ring_wf r -> ring_wf (remove r id).
Proof.
  intros [Hok Hm]. split; [done|]. intros id' s. simpl.
  rewrite lookup_delete_Some. intros [_ ?]. by apply Hm.
Qed.

Lemma ring_wf_reset r : ring_wf r -> ring_wf (reset r).
Proof.
  intros [Hok _]. split; simpl.
  - apply ring_ok_nil. apply Hok.
  - intros ??. by rewrite lookup_empty.
Qed.

(** What the ring holds, oldest first. *)
Definition slots (r : shedRing) : list shedSlot := ring_contents (ring r) (pos r).

Lemma slots_add r id :
  ring_wf r ->
  slots (add r id) =
    drop (S (length (ring r)) - cap r) (slots r) ++ [mkSlot id (u64 (seq r + 1))].
Proof. intros [Hok _]. unfold slots, add. simpl. by apply ring_contents_put. Qed.

Lemma elem_of_slots r s : s ∈ slots r <-> s ∈ ring r.
Proof. apply ring_contents_elem. Qed.

(** A mark that [add] leaves in the map was not the one the overwritten slot
    carried, so its own slot is still in the ring. *)
Lemma kept_mark_slot r id s :
  ring_wf r ->
  match ring_victim (cap r) (ring r) (pos r) with
  | Some old =>
      if mark_of r (slot_id old) =? slot_seq old then delete (slot_id old) (ids r) else ids r
  | None => ids r
  end !! id = Some s ->
  mkSlot id s ∈ drop (S (length (ring r)) - cap r) (slots r).
Proof.
  intros [Hok Hm]. destruct (decide (length (ring r) < cap r)%nat) as [Hlt|Hge].
  - unfold ring_victim. rewrite (proj2 (Nat.ltb_lt _ _) Hlt). intros Hs.
    replace (S (length (ring r)) - cap r)%nat with 0%nat by lia.
    rewrite drop_0. apply elem_of_slots. by apply Hm.
  - pose proof Hok as (Hc & Hl & Hp & Hz).
    replace (S (length (ring r)) - cap r)%nat with 1%nat by lia.
    rewrite ring_victim_head by (done || lia). fold (slots r).
    pose proof (fun id s H => proj2 (elem_of_slots r (mkSlot id s)) (Hm id s H)) as Hm'.
    destruct (slots r) as [|[oid oseq] rest]; simpl.
    { intros Hs. by apply Hm', not_elem_of_nil in Hs. }
    rewrite drop_0. unfold mark_of. destruct (Z.eqb_spec (default 0 (ids r !! oid)) oseq) as [E|E].
    + rewrite lookup_delete_Some. intros [Hne Hs]. apply Hm' in Hs.
      apply elem_of_cons in Hs as [[=]|Hs]; [congruence|done].
    + intros Hs. pose proof (Hm' _ _ Hs) as Hin.
      apply elem_of_cons in Hin as [[=]|Hin]; [|done]. subst.
      rewrite Hs in E. simpl in E. congruence.
Qed.

Lemma ring_wf_add r id : ring_wf r -> ring_wf (add r id).
Proof.
  intros Hwf. pose proof Hwf as [Hok _]. split.
  - unfold add. simpl. by apply ring_put_ok.
  - intros id' s Hs. apply elem_of_slots. rewrite slots_add by done. apply elem_of_app.
    unfold add in Hs. simpl in Hs. rewrite lookup_insert_Some in Hs.
    destruct Hs as [[-> <-]|[_ Hs]]; [right; by apply list_elem_of_singleton|].
    left. by apply kept_mark_slot.
Qed.

(** The map never outgrows the capacity. *)
Lemma ring_wf_len r : ring_wf r -> (len r <= cap r)%nat.
Proof.
  intros [Hok Hm]. unfold len.
  assert (Hsub : (map_to_list (ids r)).*1 ⊆ slot_id <$> ring r).
  { intros id ([i s] & -> & Hin)%list_elem_of_fmap. simpl.
    apply elem_of_map_to_list, Hm in Hin. apply list_elem_of_fmap. by exists (mkSlot i s). }
  pose proof (NoDup_fst_map_to_list (ids r)) as Hnd.
  pose proof (submseteq_length _ _ (NoDup_submseteq _ _ Hnd Hsub)) as Hlen.
  rewrite !length_fmap in Hlen. rewrite <- length_map_to_list. destruct Hok. lia.
Qed.

End ShedRing.

Module Guard.
Import ShedRing.

Record Guard := mk {
  budget : Z;
  windowStart : time;
  entries : Z;
  parsed : Z;
  shed : shedRing;
  shedN : Z;
  droppedN : Z
}.

#[export] Instance Guard_eta : Etable Guard := fun g =>
  mk (budget g) (windowStart g) (entries g) (parsed g) (shed g) (shedN g) (droppedN g).

Definition SetBudget (g : Guard) (n : Z) : Guard :=
  g <| budget := if n <? 1 then 1 else n |>.

Definition Budget (g : Guard) : Z := budget g.

Definition New (n ringCapacity : Z) : Guard :=
  let capacity := if ringCapacity <? 1 then DefaultRingCapacity else ringCapacity in
  SetBudget (mk 0 0 0 0 (newShedRing (Z.to_nat capacity)) 0 0) n.

Definition roll (g : Guard) (now : time) : Guard :=
  if is_zero_time (windowStart g)
     || (time_sub now (windowStart g) >=? second)
     || time_before now (windowStart g)
  then g <| windowStart := now |> <| entries := 0 |> <| parsed := 0 |>
  else g.

Definition Ceiling (g : Guard) (now : time) : Guard * bool :=
  let g := roll g now in
  let g := g <| entries ::= fun n => i64 (n + 1) |> in
  if entries g >? i64 (budget g * HardCeilingFactor)
  then (g <| droppedN ::= fun n => u64 (n + 1) |>, false)
  else (g, true).

Definition Admit (g : Guard) (now : time) (l : line) (tracked : bool) : Guard * bool :=
  let g := roll g now in
  let g := g <| parsed ::= fun n => i64 (n + 1) |> in
  let over := parsed g >? budget g in
  if negb (Line.HasLogID l) then
    if over then (g <| droppedN ::= fun n => u64 (n + 1) |>, false) else (g, true)
  else if has (shed g) (Line.LogID l) && negb (bool_decide (Line.Ev l = EventInboundFrom))
  then (g, false)
  else
    let g := if has (shed g) (Line.LogID l)
             then g <| shed ::= fun r => remove r (Line.LogID l) |> else g in
    if tracked then (g, true)
    else if over then
      (g <| shed ::= fun r => add r (Line.LogID l) |> <| shedN ::= fun n => u64 (n + 1) |>, false)
    else (g, true).

Definition Reset (g : Guard) : Guard := g <| shed ::= reset |>.

Definition Take (g : Guard) : Guard * (Z * Z) :=
  (g <| shedN := 0 |> <| droppedN := 0 |>, (shedN g, droppedN g)).

(** ** The guard as a transition system *)

Inductive op :=
  | OpCeiling (now : time)
  | OpAdmit (now : time) (l : line) (tracked : bool)
  | OpSetBudget (n : Z)
  | OpReset
  | OpTake.

Inductive answer := Kept (b : bool) | Counts (sh dr : Z) | Silent.

Definition step (g : Guard) (o : op) : Guard * answer :=
  match o with
  | OpCeiling now => let '(g', b) := Ceiling g now in (g', Kept b)
  | OpAdmit now l tracked => let '(g', b) := Admit g now l tracked in (g', Kept b)
  | OpSetBudget n => (SetBudget g n, Silent)
  | OpReset => (Reset g, Silent)
  | OpTake => let '(g', (sh, dr)) := Take g in (g', Counts sh dr)
  end.

Fixpoint run (g : Guard) (os : list op) : Guard * list answer :=
  match os with
  | [] => (g, [])
  | o :: os' => let '(g', a) := step g o in let '(g'', r) := run g' os' in (g'', a :: r)
  end.

(** ** What every operation preserves *)

Definition guard_wf (capacity : nat) (g : Guard) : Prop :=
  1 <= budget g /\ ring_wf (shed g) /\ cap (shed g) = capacity.

Lemma roll_shed g now : shed (roll g now) = shed g.
Proof. unfold roll. by case_match. Qed.

Lemma roll_budget g now : budget (roll g now) = budget g.
Proof. unfold roll. by case_match. Qed.

Lemma roll_counts g now : shedN (roll g now) = shedN g /\ droppedN (roll g now) = droppedN g.
Proof. unfold roll. by case_match. Qed.

(** The effect of [Admit] on the marks: nothing, a mark cleared, a mark set,
    or a mark cleared and set again. *)
Lemma Admit_shed g now l tracked :
  shed (Admit g now l tracked).1 = shed g \/
  shed (Admit g now l tracked).1 = remove (shed g) (Line.LogID l) \/
  shed (Admit g now l tracked).1 = add (shed g) (Line.LogID l) \/
  shed (Admit g now l tracked).1 = add (remove (shed g) (Line.LogID l)) (Line.LogID l).
Proof.
  unfold Admit. repeat (case_match; simpl); rewrite ?roll_shed; auto.
Qed.

Lemma SetBudget_pos g n : 1 <= budget (SetBudget g n).
Proof. unfold SetBudget. destruct (Z.ltb_spec n 1); simpl; lia. Qed.

Lemma Ceiling_frame g now :
  shed (Ceiling g now).1 = shed g /\ budget (Ceiling g now).1 = budget g.
Proof. unfold Ceiling. case_match; simpl; by rewrite roll_shed, roll_budget. Qed.

Lemma guard_wf_step capacity g o : guard_wf capacity g -> guard_wf capacity (step g o).1.
Proof.
  intros (Hb & Hr & Hc). destruct o as [now|now l tr|n| |]; simpl.
  - pose proof (Ceiling_frame g now) as [Hs Hbud].
    destruct (Ceiling g now) as [g' b]. simpl in *. unfold guard_wf. by rewrite Hs, Hbud.
  - assert (Hbud : budget (Admit g now l tr).1 = budget g).
    { unfold Admit. repeat (case_match; simpl); apply roll_budget. }
    pose proof (Admit_shed g now l tr) as Hs.
    destruct (Admit g now l tr) as [g' b]. simpl in *. unfold guard_wf. rewrite Hbud.
    split; [done|].
    destruct Hs as [->|[->|[->| ->]]];
      split; auto using ring_wf_add, ring_wf_remove.
  - split; [apply SetBudget_pos|done].
  - unfold guard_wf. simpl. split; [done|]. split; [by apply ring_wf_reset|done].
  - done.
Qed.

Lemma guard_wf_run capacity os : forall g, guard_wf capacity g -> guard_wf capacity (run g os).1.
Proof.
  induction os as [|o os IH]; intros g Hg; [done|]. simpl.
  pose proof (guard_wf_step capacity g o Hg) as Hs. destruct (step g o) as [g' a]. simpl in Hs.
  specialize (IH g' Hs). by destruct (run g' os).
Qed.

(** The ring capacity a guard ends up with. *)
Definition capacity_of (ringCapacity : Z) : Z :=
  if ringCapacity <? 1 then DefaultRingCapacity else ringCapacity.

Lemma capacity_of_pos c : 1 <= capacity_of c.
Proof. unfold capacity_of, DefaultRingCapacity. destruct (Z.ltb_spec c 1); lia. Qed.

Lemma guard_wf_New n c : guard_wf (Z.to_nat (capacity_of c)) (New n c).
Proof.
  pose proof (capacity_of_pos c). unfold New.
  split; [apply SetBudget_pos|]. split; [apply ring_wf_new; unfold capacity_of in *; lia|done].
Qed.

(** ** A mark outlives every younger mark that fits the ring *)

Section Lifetime.
Variable id : Z.

(** The mark of [id] carries the sequence number [s], and exactly [k] slots
    are younger than its own; the older ones have smaller numbers. *)
Definition young (r : shedRing) (s : Z) (k : nat) : Prop :=
  ids r !! id = Some s /\ s <= seq r /\
  exists pre post, slots r = pre ++ mkSlot id s :: post /\ length post = k /\
    Forall (fun x => slot_seq x < s) pre.

Definition seqs_bounded (r : shedRing) : Prop := Forall (fun x => slot_seq x <= seq r) (slots r).

Lemma seqs_bounded_add r i :
  ring_wf r -> 0 <= seq r -> seq r + 1 < 2 ^ 64 -> seqs_bounded r -> seqs_bounded (add r i).
Proof.
  intros Hwf H0 Hs Hb. unfold seqs_bounded. rewrite slots_add by done.
  change (seq (add r i)) with (u64 (seq r + 1)). rewrite u64_small by lia.
  apply Forall_app. split; [|repeat constructor; simpl; lia].
  apply Forall_drop. eapply Forall_impl; [exact Hb|]. simpl. intros; lia.
Qed.

Lemma young_new r :
  ring_wf r -> 0 <= seq r -> seq r + 1 < 2 ^ 64 -> seqs_bounded r ->
  young (add r id) (seq r + 1) 0.
Proof.
  intros Hwf H0 Hs Hb. unfold young. rewrite slots_add by done.
  change (seq (add r id)) with (u64 (seq r + 1)). rewrite u64_small by lia.
  split; [unfold add; simpl; rewrite u64_small by lia; by simplify_map_eq|].
  split; [lia|]. eexists _, []. split; [reflexivity|]. split; [done|].
  apply Forall_drop. eapply Forall_impl; [exact Hb|]. simpl. intros; lia.
Qed.

Lemma young_add r s k i :
  ring_wf r -> 0 <= seq r -> seq r + 1 < 2 ^ 64 -> i <> id -> (S k < cap r)%nat ->
  young r s k -> young (add r i) s (S k).
Proof.
  intros Hwf H0 Hs Hne Hk (Hid & Hle & pre & post & Hsl & Hlen & Hpre).
  unfold young. rewrite slots_add by done.
  change (seq (add r i)) with (u64 (seq r + 1)). rewrite u64_small by lia.
  pose proof Hwf as [Hok _]. pose proof Hok as (Hc & Hl & Hp & Hz).
  assert (Hlen' : length (ring r) = (length pre + S k)%nat).
  { rewrite <- (ring_contents_length (ring r) (pos r)). fold (slots r).
    rewrite Hsl, length_app. simpl. lia. }
  set (d := (S (length (ring r)) - cap r)%nat).
  assert (Hd : (d <= length pre)%nat) by lia.
  split; [|split; [lia|]].
  - unfold add. simpl. rewrite lookup_insert_ne by done.
    destruct (decide (length (ring r) < cap r)%nat) as [Hlt|Hge].
    + unfold ring_victim. by rewrite (proj2 (Nat.ltb_lt _ _) Hlt).
    + rewrite ring_victim_head by (done || lia). fold (slots r). rewrite Hsl.
      destruct pre as [|old pre]; [simpl in *; lia|]. simpl.
      apply Forall_cons in Hpre as [Hold _].
      destruct (Z.eqb_spec (mark_of r (slot_id old)) (slot_seq old)) as [E|E]; [|done].
      rewrite lookup_delete_ne; [done|]. intros Heq.
      unfold mark_of in E. rewrite Heq, Hid in E. simpl in E. lia.
  - exists (drop d pre), (post ++ [mkSlot i (seq r + 1)]).
    rewrite Hsl. rewrite drop_app_le by lia. rewrite <- app_assoc. simpl.
    split; [done|]. split; [rewrite length_app; simpl; lia|]. by apply Forall_drop.
Qed.

Lemma young_remove r s k i : i <> id -> young r s k -> young (remove r i) s k.
Proof.
  intros Hne (Hid & Hle & Hex). split; [simpl; by rewrite lookup_delete_ne|done].
Qed.

(** An operation that neither forgets all marks nor opens a new connection
    under [id]. *)
Definition quiet (o : op) : Prop :=
  match o with
  | OpReset => False
  | OpAdmit _ l _ =>
      ~ (Line.HasLogID l = true /\ Line.LogID l = id /\ Line.Ev l = EventInboundFrom)
  | _ => True
  end.

Lemma Admit_marked g now l tracked :
  has (shed g) id = true -> Line.HasLogID l = true -> Line.LogID l = id ->
  Line.Ev l <> EventInboundFrom ->
  (Admit g now l tracked).2 = false /\ shed (Admit g now l tracked).1 = shed g.
Proof.
  intros Hhas Hl Hid Hev. unfold Admit. rewrite Hl, Hid. simpl.
  rewrite roll_shed, Hhas, bool_decide_eq_false_2 by done. simpl. by rewrite roll_shed.
Qed.

Lemma Admit_other_shed g now l tracked :
  Line.HasLogID l = false -> shed (Admit g now l tracked).1 = shed g.
Proof. intros Hl. unfold Admit. rewrite Hl. simpl. case_match; simpl; apply roll_shed. Qed.

Lemma seq_add r i : 0 <= seq r -> seq r + 1 < 2 ^ 64 -> seq (add r i) = seq r + 1.
Proof. intros. simpl. apply u64_small. lia. Qed.

(** One operation either leaves the number of marks set so far alone, or
    sets one more. *)
Lemma step_seq g o :
  0 <= seq (shed g) -> seq (shed g) + 1 < 2 ^ 64 ->
  seq (shed (step g o).1) = seq (shed g) \/ seq (shed (step g o).1) = seq (shed g) + 1.
Proof.
  intros H0 H1. destruct o as [now|now l tr|n| |]; simpl; auto.
  - pose proof (Ceiling_frame g now) as [Hs _]. destruct (Ceiling g now). simpl in *. auto.
    rewrite Hs. auto.
  - pose proof (Admit_shed g now l tr) as Hs. destruct (Admit g now l tr). simpl in *.
    destruct Hs as [->|[->|[->| ->]]]; rewrite ?seq_add by done; auto.
Qed.

Lemma run_seq os : forall g,
  0 <= seq (shed g) -> seq (shed g) + zlen os < 2 ^ 64 ->
  seq (shed g) <= seq (shed (run g os).1) <= seq (shed g) + zlen os.
Proof.
  induction os as [|o os IH]; intros g H0 H1; [unfold zlen; simpl; lia|].
  unfold zlen in *. simpl length in *. simpl run.
  pose proof (step_seq g o H0 ltac:(lia)) as Hs. destruct (step g o) as [g' a]. simpl in Hs.
  specialize (IH g' ltac:(lia) ltac:(lia)). destruct (run g' os). simpl in *. lia.
Qed.

Lemma young_step capacity g o s k :
  guard_wf capacity g -> 0 <= seq (shed g) -> seq (shed g) + 1 < 2 ^ 64 -> quiet o ->
  (S k < cap (shed g))%nat \/ seq (shed (step g o).1) = seq (shed g) ->
  young (shed g) s k ->
  young (shed (step g o).1) s (k + Z.to_nat (seq (shed (step g o).1) - seq (shed g)))%nat.
Proof.
  intros (Hb & Hwf & Hc) H0 H1 Hq Hk Hy.
  assert (Hsame : forall r, shed (step g o).1 = r -> r = shed g ->
    young (shed (step g o).1) s (k + Z.to_nat (seq (shed (step g o).1) - seq (shed g)))%nat).
  { intros r -> ->. rewrite Z.sub_diag. simpl. by rewrite Nat.add_0_r. }
  destruct o as [now|now l tr|n| |]; try by apply (Hsame (shed g)).
  - apply (Hsame _ eq_refl). simpl. pose proof (Ceiling_frame g now) as [Hs _].
    by destruct (Ceiling g now).
  - destruct (Line.HasLogID l) eqn:Hl.
    2:{ apply (Hsame _ eq_refl). simpl. pose proof (Admit_other_shed g now l tr Hl).
        by destruct (Admit g now l tr). }
    destruct (decide (Line.LogID l = id)) as [Hid|Hid].
    { apply (Hsame _ eq_refl). simpl.
      destruct (Admit_marked g now l tr) as [_ Hs]; [|done|done| |].
      - destruct Hy as [Hy _]. unfold has. rewrite Hy. by apply bool_decide_eq_true_2.
      - intros Hev. by apply Hq.
      - by destruct (Admit g now l tr). }
    simpl in *. pose proof (Admit_shed g now l tr) as Hs.
    destruct (Admit g now l tr) as [g' b]. simpl in *.
    destruct Hs as [Hs|[Hs|[Hs|Hs]]]; rewrite Hs in *; rewrite ?seq_add in * by done;
      change (seq (remove ?r ?i)) with (seq r) in *;
      replace (Z.to_nat (seq (shed g) + 1 - seq (shed g))) with 1%nat by lia;
      rewrite ?Z.sub_diag, ?Nat.add_0_r, ?Nat.add_1_r; simpl Z.to_nat; rewrite ?Nat.add_0_r;
      auto using young_remove.
    + apply young_add; auto. destruct Hk; [done|lia].
    + apply young_add; auto using ring_wf_remove, young_remove. destruct Hk; [done|lia].
Qed.

Lemma young_run capacity os : forall g s k,
  guard_wf capacity g -> 0 <= seq (shed g) -> seq (shed g) + zlen os < 2 ^ 64 ->
  Forall quiet os ->
  Z.of_nat k + (seq (shed (run g os).1) - seq (shed g)) < Z.of_nat capacity ->
  young (shed g) s k ->
  forall i now l tr, os !! i = Some (OpAdmit now l tr) ->
    Line.HasLogID l = true -> Line.LogID l = id ->
    (run g os).2 !! i = Some (Kept false).
Proof.
  induction os as [|o os IH]; intros g s k Hwf H0 H1 Hq Hk Hy i now l tr Hi Hl Hid; [done|].
  apply Forall_cons in Hq as [Hqo Hq]. unfold zlen in *. simpl length in *.
  pose proof (guard_wf_step capacity g o Hwf) as Hwf'.
  pose proof (step_seq g o H0 ltac:(lia)) as Hs.
  pose proof (fun H => young_step capacity g o s k Hwf H0 ltac:(lia) Hqo H Hy) as Hy'.
  pose proof (run_seq os (step g o).1 ltac:(lia) ltac:(unfold zlen; lia)) as Hr.
  destruct i as [|i].
  - simpl in Hi. simplify_eq. simpl.
    destruct (Admit_marked g now l tr) as [Hb _]; [|done|done| |].
    + destruct Hy as [Hy _]. unfold has. rewrite Hy. by apply bool_decide_eq_true_2.
    + intros Hev. by apply Hqo.
    + destruct (Admit g now l tr) as [g' b]. simpl in Hb. subst. by destruct (run g' os).
  - simpl in Hi. simpl run in Hk |- *. destruct (step g o) as [g' a] eqn:Hst.
    simpl fst in *. specialize (IH g' s (k + Z.to_nat (seq (shed g') - seq (shed g)))%nat).
    destruct (run g' os) as [g'' r]. simpl in *.
    eapply IH; eauto; try lia. apply Hy'.
    destruct Hwf as (_ & _ & Hcap). rewrite Hcap. destruct Hs; [by right|left; lia].
Qed.
End Lifetime.

Lemma run_seqs_bounded capacity os : forall g,
  guard_wf capacity g -> 0 <= seq (shed g) -> seq (shed g) + zlen os < 2 ^ 64 ->
  seqs_bounded (shed g) -> seqs_bounded (shed (run g os).1).
Proof.
  induction os as [|o os IH]; intros g Hwf H0 H1 Hb; [done|].
  unfold zlen in *. simpl length in *. simpl run.
  assert (Hb' : seqs_bounded (shed (step g o).1)).
  { pose proof Hwf as (_ & Hr & _). destruct o as [now|now l tr|n| |]; simpl; auto.
    - pose proof (Ceiling_frame g now) as [Hs _]. destruct (Ceiling g now). simpl in *. by rewrite Hs.
    - pose proof (Admit_shed g now l tr) as Hs. destruct (Admit g now l tr) as [g' b]. simpl in *.
      destruct Hs as [->|[->|[->| ->]]]; auto.
      + apply seqs_bounded_add; auto; lia.
      + apply seqs_bounded_add; auto using ring_wf_remove; simpl; lia.
    - apply Forall_nil_2. }
  pose proof (guard_wf_step capacity g o Hwf) as Hwf'.
  pose proof (step_seq g o H0 ltac:(lia)) as Hs. destruct (step g o) as [g' a]. simpl in *.
  specialize (IH g' Hwf' ltac:(lia) ltac:(lia) Hb'). by destruct (run g' os).
Qed.

(** C6: a connection shed by the budget stays shed: from any reachable guard,
    once a line of an untracked id has been refused and its id marked, every
    later line of that id is dropped, whatever else happens, until the guard
    is reset, a new connection opens under the id, or as many marks as the
    ring holds have been set after it. *)
Theorem shed_for_lifetime n c os now l tr os' :
  zlen os + 1 + zlen os' < 2 ^ 64 ->
  Line.HasLogID l = true ->
  let g := (run (New n c) os).1 in
  let g1 := (Admit g now l tr).1 in
  has (shed g) (Line.LogID l) = false ->
  has (shed g1) (Line.LogID l) = true ->
  Forall (quiet (Line.LogID l)) os' ->
  seq (shed (run g1 os').1) - seq (shed g1) < capacity_of c ->
  forall i now' l' tr', os' !! i = Some (OpAdmit now' l' tr') ->
    Line.HasLogID l' = true -> Line.LogID l' = Line.LogID l ->
    (run g1 os').2 !! i = Some (Kept false).
Proof.
  intros Hlen Hl g g1 Hno Hyes Hq Hcap.
  pose proof (guard_wf_New n c) as Hwf0.
  pose proof (guard_wf_run _ os _ Hwf0) as Hwf. fold g in Hwf.
  pose proof (zlen_nonneg os). pose proof (zlen_nonneg os').
  pose proof (run_seq os (New n c) ltac:(done) ltac:(change (seq (shed (New n c))) with 0; lia)) as Hs.
  fold g in Hs. change (seq (shed (New n c))) with 0 in Hs.
  assert (Hb : seqs_bounded (shed g)).
  { eapply (run_seqs_bounded _ os); [exact Hwf0|done| |apply Forall_nil_2].
    change (seq (shed (New n c))) with 0. lia. }
  pose proof (Admit_shed g now l tr) as Hsh. fold g1 in Hsh.
  assert (Hrm : remove (shed g) (Line.LogID l) = shed g).
  { unfold remove, update_field. unfold has in Hno. apply bool_decide_eq_false in Hno.
    rewrite delete_id by (by apply eq_None_not_Some). by destruct (shed g). }
  assert (Hadd : shed g1 = add (shed g) (Line.LogID l)).
  { destruct Hsh as [H1|[H1|[H1|H1]]]; rewrite ?Hrm in H1; auto; rewrite H1 in Hyes; congruence. }
  pose proof (guard_wf_step _ g (OpAdmit now l tr) Hwf) as Hwf1.
  replace (step g (OpAdmit now l tr)).1 with g1 in Hwf1
    by (unfold g1; simpl; by destruct (Admit g now l tr)).
  pose proof Hwf as (_ & Hr & _).
  pose proof (young_new (Line.LogID l) (shed g) Hr ltac:(lia) ltac:(lia) Hb) as Hy.
  rewrite <- Hadd in Hy. pose proof (seq_add (shed g) (Line.LogID l) ltac:(lia) ltac:(lia)) as Hsq.
  rewrite <- Hadd in Hsq.
  eapply young_run; [exact Hwf1|lia|lia|exact Hq| |exact Hy]. pose proof (capacity_of_pos c). lia.
Qed.

(** A line of the given id and event, for the concrete runs below. *)
Definition line_of (id : Z) (ev : Event) : line :=
  blank_line <| Line.LogID := id |> <| Line.HasLogID := true |> <| Line.Ev := ev |>.

Lemma shed_for_lifetime_witness :
  (run (Admit (run (New 1 2) [OpAdmit 5 (line_of 7 EventInboundFrom) false]).1
          6 (line_of 8 EventInboundFrom) false).1
     [OpAdmit 7 (line_of 9 EventInboundFrom) false; OpAdmit 8 (line_of 8 EventClosed) true]).2
    !! 1%nat = Some (Kept false).
Proof.
  eapply (shed_for_lifetime 1 2 [OpAdmit 5 (line_of 7 EventInboundFrom) false] 6
            (line_of 8 EventInboundFrom) false
            [OpAdmit 7 (line_of 9 EventInboundFrom) false; OpAdmit 8 (line_of 8 EventClosed) true]
            ltac:(vm_compute; reflexivity) eq_refl eq_refl eq_refl); try reflexivity.
  apply Forall_cons_2; [intros (_ & H & _); discriminate H|].
  apply Forall_cons_2; [intros (_ & _ & H); discriminate H|apply Forall_nil_2].
Defined.

(** at no point of any run do the marks outgrow the ring: the shed map
    holds at most the configured number of ids, and the budget in force is at
    least one line. *)
Theorem guard_bounded n c os :
  let g := (run (New n c) os).1 in
  Z.of_nat (len (shed g)) <= capacity_of c /\ 1 <= Budget g.
Proof.
  intros g. pose proof (guard_wf_run _ os _ (guard_wf_New n c)) as (Hb & Hr & Hc).
  fold g in Hb, Hr, Hc. pose proof (ring_wf_len _ Hr). pose proof (capacity_of_pos c).
  split; [lia|done].
Qed.

(** ** The ceiling admits exactly its share of a second *)

Fixpoint ceilings (g : Guard) (nows : list time) : Guard * list bool :=
  match nows with
  | [] => (g, [])
  | now :: rest =>
      let '(g', b) := Ceiling g now in let '(g'', bs) := ceilings g' rest in (g'', b :: bs)
  end.

Definition passed (bs : list bool) : Z := zlen (filter (eq true) bs).

Lemma roll_same g t0 now :
  windowStart g = t0 -> t0 <> 0 -> t0 <= now < t0 + second -> roll g now = g.
Proof.
  intros Hw H0 Hn. unfold roll, is_zero_time, time_before, second in *. rewrite Hw.
  rewrite time_sub_ge_iff by (unfold min_i64, max_i64; lia).
  rewrite (proj2 (Z.eqb_neq t0 0)), Z.geb_leb, (proj2 (Z.leb_gt _ _)), (proj2 (Z.ltb_ge _ _)) by lia.
  done.
Qed.

Lemma roll_new g t0 :
  windowStart g = 0 \/ second <= t0 - windowStart g \/ t0 < windowStart g ->
  roll g t0 = g <| windowStart := t0 |> <| entries := 0 |> <| parsed := 0 |>.
Proof.
  intros H. unfold roll, is_zero_time, time_before.
  rewrite time_sub_ge_iff by (unfold min_i64, max_i64, second; lia). rewrite Z.geb_leb.
  destruct (Z.eqb_spec (windowStart g) 0), (Z.leb_spec second (t0 - windowStart g)),
    (Z.ltb_spec t0 (windowStart g)); simpl; done || lia.
Qed.

Lemma passed_cons b bs : passed (b :: bs) = (if b then 1 else 0) + passed bs.
Proof.
  unfold passed, zlen. destruct b.
  - rewrite filter_cons_True by done. simpl length. lia.
  - rewrite filter_cons_False by done. done.
Qed.

Lemma ceilings_window t0 nows : forall g,
  windowStart g = t0 -> t0 <> 0 -> 1 <= budget g < 2 ^ 60 ->
  0 <= entries g -> entries g + zlen nows < 2 ^ 63 ->
  Forall (fun t => t0 <= t < t0 + second) nows ->
  passed (ceilings g nows).2 =
    Z.max 0 (Z.min (zlen nows) (budget g * HardCeilingFactor - entries g)) /\
  u64 (droppedN (ceilings g nows).1) = u64 (droppedN g + (zlen nows - passed (ceilings g nows).2)).
Proof.
  induction nows as [|t nows IH]; intros g Hw H0 Hb He Hlen Hf.
  { unfold passed, zlen. simpl. rewrite Z.add_0_r. lia. }
  apply Forall_cons in Hf as [Ht Hf]. unfold zlen in *. simpl length in *.
  simpl ceilings. unfold Ceiling. rewrite (roll_same g t0 t) by done.
  set (g1 := g <| entries ::= fun n => i64 (n + 1) |>).
  assert (He1 : entries g1 = entries g + 1)
    by (apply i64_small; unfold min_i64, max_i64; lia).
  change (budget g1) with (budget g). rewrite He1. unfold HardCeilingFactor in *.
  rewrite i64_small by (unfold min_i64, max_i64; lia). rewrite Z.gtb_ltb.
  destruct (Z.ltb_spec (budget g * 4) (entries g + 1)) as [Hov|Hov].
  - specialize (IH (g1 <| droppedN ::= fun n => u64 (n + 1) |>)).
    set (g2 := g1 <| droppedN ::= fun n => u64 (n + 1) |>) in *.
    change (budget g2) with (budget g) in IH. change (entries g2) with (entries g1) in IH.
    change (droppedN g2) with (u64 (droppedN g + 1)) in IH. rewrite He1 in IH.
    specialize (IH Hw H0 Hb ltac:(lia) ltac:(lia) Hf) as [IH1 IH2].
    destruct (ceilings g2 nows) as [g' bs]. simpl in *. rewrite passed_cons, IH2, u64_add_l, IH1.
    split; [lia|f_equal; lia].
  - specialize (IH g1). change (budget g1) with (budget g) in IH.
    change (droppedN g1) with (droppedN g) in IH. rewrite He1 in IH.
    specialize (IH Hw H0 Hb ltac:(lia) ltac:(lia) Hf) as [IH1 IH2].
    destruct (ceilings g1 nows) as [g' bs]. simpl in *. rewrite passed_cons, IH2, IH1.
    split; [lia|f_equal; lia].
Qed.

(** the pre-parse ceiling is exact.  Of the entries of one second, counted
    from the entry that opens the window, the first four budgets pass and
    every other one is dropped and counted, whatever the instants in between. *)
Theorem ceiling_exact g t0 rest :
  1 <= budget g < 2 ^ 60 ->
  t0 <> 0 ->
  windowStart g = 0 \/ second <= t0 - windowStart g \/ t0 < windowStart g ->
  Forall (fun t => t0 <= t < t0 + second) rest ->
  zlen (t0 :: rest) < 2 ^ 63 ->
  let out := ceilings g (t0 :: rest) in
  passed out.2 = Z.min (zlen (t0 :: rest)) (budget g * HardCeilingFactor) /\
  u64 (droppedN out.1) = u64 (droppedN g + (zlen (t0 :: rest) - passed out.2)).
Proof.
  intros Hb H0 Hw Hf Hlen out.
  pose proof (roll_new g t0 Hw) as Hroll.
  set (g0 := g <| windowStart := t0 |> <| entries := 0 |> <| parsed := 0 |>) in *.
  assert (Hout : out = ceilings g0 (t0 :: rest)).
  { unfold out. simpl ceilings. unfold Ceiling. rewrite Hroll.
    rewrite (roll_same g0 t0 t0) by (done || unfold second; lia). done. }
  destruct (ceilings_window t0 (t0 :: rest) g0) as [H1 H2]; try done.
  { apply Forall_cons. split; [unfold second; lia|done]. }
  rewrite Hout, H2, H1. change (budget g0) with (budget g). change (entries g0) with 0.
  change (droppedN g0) with (droppedN g).
  pose proof (zlen_nonneg (t0 :: rest)). unfold HardCeilingFactor. split; lia.
Qed.

Lemma ceiling_exact_witness :
  passed (ceilings (New 1 2) [5; 6; 7; 8; 9]).2 = 4.
Proof.
  destruct (ceiling_exact (New 1 2) 5 [6; 7; 8; 9]) as [H _].
  - vm_compute. split; congruence.
  - discriminate.
  - left. reflexivity.
  - unfold second. repeat constructor; lia.
  - reflexivity.
  - exact H.
Defined.
(** ** Every loss is reported exactly once *)

(** Whether an operation loses a line, respectively sheds a connection. *)
Definition loses_line (g : Guard) (o : op) : bool :=
  match o with
  | OpCeiling now => negb (Ceiling g now).2
  | OpAdmit now l tr => negb (Line.HasLogID l) && negb (Admit g now l tr).2
  | _ => false
  end.

Definition sheds_conn (g : Guard) (o : op) : bool :=
  match o with
  | OpAdmit now l tr =>
      Line.HasLogID l && negb (Admit g now l tr).2 &&
      (negb (has (shed g) (Line.LogID l)) || bool_decide (Line.Ev l = EventInboundFrom))
  | _ => false
  end.

Fixpoint count_ops (f : Guard -> op -> bool) (g : Guard) (os : list op) : Z :=
  match os with
  | [] => 0
  | o :: os' => (if f g o then 1 else 0) + count_ops f (step g o).1 os'
  end.

Definition taken (a : answer) : Z * Z := match a with Counts sh dr => (sh, dr) | _ => (0, 0) end.
Definition sum_taken (f : Z * Z -> Z) (rs : list answer) : Z :=
  foldr (fun a n => f (taken a) + n) 0 rs.

Local Ltac counts H1 H2 :=
  rewrite ?H1, ?H2, ?Z.add_0_l, ?u64_idemp, ?Z.add_0_r; done.

Lemma step_counts g o :
  u64 ((taken (step g o).2).2 + droppedN (step g o).1) =
    u64 (droppedN g + if loses_line g o then 1 else 0) /\
  u64 ((taken (step g o).2).1 + shedN (step g o).1) =
    u64 (shedN g + if sheds_conn g o then 1 else 0).
Proof.
  destruct o as [now|now l tr|n| |]; simpl; rewrite ?Z.add_0_r; try done.
  - pose proof (roll_counts g now) as [H1 H2]. unfold Ceiling. cbn [entries budget update_field].
    case_goal; simpl; counts H1 H2.
  - pose proof (roll_counts g now) as [H1 H2].
    unfold Admit. cbn [parsed budget shed update_field]. rewrite roll_shed, roll_budget.
    destruct (Line.HasLogID l); simpl.
    + destruct (has (shed g) (Line.LogID l)) eqn:Hh; simpl;
        destruct (bool_decide (Line.Ev l = EventInboundFrom)) eqn:He; simpl;
        repeat (case_goal; simpl); counts H1 H2.
    + case_goal; simpl; counts H1 H2.
Qed.

(** a lost line and a shed connection are each reported exactly once.
    Over any run, what the calls of [Take] returned plus what is still
    pending is what the run lost, counted in Go's 64-bit counters: nothing is
    forgotten between two calls and nothing is counted twice. *)
Theorem losses_reported_once os : forall g,
  u64 (sum_taken snd (run g os).2 + droppedN (run g os).1) =
    u64 (droppedN g + count_ops loses_line g os) /\
  u64 (sum_taken fst (run g os).2 + shedN (run g os).1) =
    u64 (shedN g + count_ops sheds_conn g os).
Proof.
  induction os as [|o os IH]; intros g; [simpl; by rewrite !Z.add_0_r|].
  simpl run. simpl count_ops. pose proof (step_counts g o) as [Hd Hs].
  destruct (step g o) as [g' a]. simpl fst in *. specialize (IH g') as [IHd IHs].
  destruct (run g' os) as [g'' r]. simpl in *.
  split.
  - rewrite <- Z.add_assoc, <- u64_add_r, IHd, u64_add_r, Z.add_assoc, <- u64_add_l, Hd, u64_add_l.
    f_equal. lia.
  - rewrite <- Z.add_assoc, <- u64_add_r, IHs, u64_add_r, Z.add_assoc, <- u64_add_l, Hs, u64_add_l.
    f_equal. lia.
Qed.
End Guard.
