(* ===== verification/SessionAsm.v ===== *)
(** * The session assembler (internal/sessionasm/sessionasm.go)

    Connections are assembled from log lines and /connections polls.  A [conn]
    is a Go heap object reached through three indexes (the map by log id, the
    creation-ordered list, the map by source address), so the state keeps a
    store of connections and the indexes hold pointers into it; pointer
    comparison is comparison of [ptr].  One mutex guards every exported method,
    so a method is a function on the state.  A method that reads the injected
    clock takes the reading as [clock]. *)
From S2P Require Import Prelude GoStrings SingboxLog SDK.

Local Open Scope Z_scope.

Definition defaultMaxOpen : Z := 4096.
Definition defaultOrphanTTL : duration := 10 * minute.
Definition defaultSnapshotEvery : duration := 60 * second.
Definition defaultStallFloor : duration := 60 * second.
Definition defaultStallQuiet : duration := 30 * second.
Definition defaultHalfCloseGrace : duration := 2 * second.
Definition snapshotStartSkew : duration := 30 * second.

(** ** The set of log ids already emitted *)
Module DoneSet.

Record doneSet := mk { ids : gset Z; ring : list Z; cap : nat; pos : nat }.

#[export] Instance doneSet_eta : Etable doneSet := fun d => mk (ids d) (ring d) (cap d) (pos d).

Definition newDoneSet (capacity : Z) : doneSet :=
  mk ∅ [] (Z.to_nat (if capacity <? 1 then 1 else capacity)) 0.

Definition has (d : doneSet) (id : Z) : bool := bool_decide (id ∈ ids d).

Definition add (d : doneSet) (id : Z) : doneSet :=
  if has d id then d
  else
    let ids' := match ring_victim (cap d) (ring d) (pos d) with
                | Some old => ids d ∖ {[old]}
                | None => ids d
                end in
    let put := ring_put (cap d) (ring d) (pos d) id in
    d <| ring := put.1 |> <| pos := put.2 |> <| ids := {[id]} ∪ ids' |>.

Definition reset (d : doneSet) : doneSet :=
  d <| ids := ∅ |> <| ring := [] |> <| pos := 0%nat |>.

End DoneSet.

(** ** One connection in flight *)
Module Conn.

Definition rankNone : Z := 0.
Definition rankSoft : Z := 1.
Definition rankEOF : Z := 2.
Definition rankError : Z := 3.
Definition rankTerminal : Z := 4.

Record closeCandidate := mkCandidate { reason : string; err : string; rank : Z }.

Definition no_candidate : closeCandidate := mkCandidate "" "" rankNone.

Record conn := mk {
  record : conn_record;
  lastSeenAt : time;
  lastElapsedMS : Z;
  haveOutbound : bool;
  closedUp : bool;
  closedDown : bool;
  close : closeCandidate;
  firstHalfAt : time;
  sampled : bool;
  lastSnapAt : time;
  lastByteChangeAt : time;
  lastSnapSeq : Z;
  sessions : list string;
  lastEmitAt : time;
  srcKeyOf : string;
  linked : bool (* elem is not nil *)
}.

#[export] Instance conn_eta : Etable conn := fun c =>
  mk (record c) (lastSeenAt c) (lastElapsedMS c) (haveOutbound c) (closedUp c) (closedDown c)
     (close c) (firstHalfAt c) (sampled c) (lastSnapAt c) (lastByteChangeAt c) (lastSnapSeq c)
     (sessions c) (lastEmitAt c) (srcKeyOf c) (linked c).

Record SnapshotItem := mkItem {
  iSrcIP : string; iSrcPort : string;
  iDstHost : string; iDstPort : string;
  iInboundType : string; iInboundTag : string;
  iNetwork : string;
  iUpload : Z; iDownload : Z;
  iRule : string;
  iChains : list string;
  iStart : time
}.

Section Functions.
Context `{ConnVocabulary}.

Definition closeReasonFor (errText whenEmpty : string) : string :=
  if String.eqb (trim_space errText) "" then whenEmpty
  else
    let low := to_lower errText in
    if contains low "reset by peer" then CloseReset
    else if contains low "i/o timeout" || contains low "deadline exceeded" then CloseTimeout
    else if contains low "handshake" then CloseHandshakeFailed
    else if contains low "eof" then CloseEOF
    else CloseUnknown.

Definition evidenceRank (errText whenEmpty : string) : Z :=
  if negb (String.eqb (trim_space errText) "") then rankError
  else if String.eqb whenEmpty CloseEOF then rankEOF
  else rankSoft.

Definition networkOf (l : line) : string :=
  match Line.Ev l with
  | EventInboundFrom | EventInboundTo | EventOutboundTo | EventFinished | EventClosed
  | EventConnectionClosed | EventDialFailed => if Line.Packet l then "udp" else "tcp"
  | _ => ""
  end.

Definition sameHost (a b : string) : bool :=
  if String.eqb a "" || String.eqb b "" then false
  else equal_fold (trim_suffix a ".") (trim_suffix b ".").

Definition srcKey (ip port : string) : string :=
  if String.eqb ip "" then "" else ip +:+ "|" +:+ port.

Definition atoiPort (s : string) : Z := default 0 (atoi (trim_space s)).

Definition millis (d : duration) : Z := if d <=? 0 then 0 else d / millisecond.

(** The regular expression [^u_[0-9a-f]{16}$]. *)
Definition is_lower_hex (c : Ascii.ascii) : bool :=
  is_digit c || ((97 <=? byte_val c) && (byte_val c <=? 102)).
Definition managedUserName (s : string) : bool :=
  match cut_prefix s "u_" with
  | Some t => (String.length t =? 16)%nat && str_forall is_lower_hex t
  | None => false
  end.

(** The stronger evidence wins; ties keep the first. *)
Definition offer (c : conn) (cand : closeCandidate) : conn :=
  if rank cand >? rank (close c) then c <| close := cand |> else c.

(** [evalStall]: the quiet window is bracketed by two samples. *)
Definition evalStall (c : conn) (now : time) (floor quiet : duration) : conn :=
  if negb (sampled c) then c
  else if negb (is_zero_time (ConnRecord.StalledAt (record c))) then c
  else if time_sub now (ConnRecord.StartedAt (record c)) <=? floor then c
  else if time_sub (lastSnapAt c) (lastByteChangeAt c) <? quiet then c
  else c <| record ::= fun r => r <| ConnRecord.StalledAt := lastByteChangeAt c |> |>.

(** The connection a line opens ([create], less the indexing). *)
Definition fresh_conn (nodeID : string) (l : line) (at_ : time) : conn :=
  let started := time_add at_ (i64 (i64 (- Line.ElapsedMS l) * millisecond)) in
  let kind := match Line.Ev l with
              | EventInboundFrom | EventInboundTo => UserKindUnnamed
              | _ => UserKindUnobserved
              end in
  mk (zero_record <| ConnRecord.NodeID := nodeID |> <| ConnRecord.LogID := Line.LogID l |>
        <| ConnRecord.Network := networkOf l |> <| ConnRecord.StartedAt := started |>
        <| ConnRecord.UserKind := kind |>)
     at_ (Line.ElapsedMS l) false false false no_candidate 0 false 0 0 0 [] started "" false.

(** What every line does before its event is looked at ([apply], first part). *)
Definition observe (c : conn) (l : line) (at_ : time) : conn :=
  let c := c <| lastSeenAt := at_ |> in
  let c := if Line.ElapsedMS l >? lastElapsedMS c
           then c <| lastElapsedMS := Line.ElapsedMS l |> else c in
  let c := if String.eqb (ConnRecord.Network (record c)) ""
           then c <| record ::= fun r => r <| ConnRecord.Network := networkOf l |> |> else c in
  if bool_decide (Line.Kind l = TagInbound) then
    let c := if String.eqb (ConnRecord.InboundTag (record c)) ""
             then c <| record ::= fun r => r <| ConnRecord.InboundTag := Line.TagName l |> |> else c in
    if String.eqb (ConnRecord.InboundType (record c)) ""
    then c <| record ::= fun r => r <| ConnRecord.InboundType := Line.TagType l |> |> else c
  else c.

(** The record fields an event writes ([apply], the cases of the switch). *)
Definition apply_inbound_to (r : conn_record) (l : line) : conn_record :=
  let r := if negb (String.eqb (Line.DstHost l) "")
           then r <| ConnRecord.DstHost := Line.DstHost l |> <| ConnRecord.DstPort := Line.DstPort l |>
           else r in
  let r := if Line.Packet l then r <| ConnRecord.Network := "udp" |> else r in
  if negb (String.eqb (Line.User l) "") then
    r <| ConnRecord.UserName := Line.User l |>
      <| ConnRecord.UserKind :=
           if managedUserName (Line.User l) then UserKindManaged else UserKindLegacy |>
  else r.

Definition apply_rule_match (r : conn_record) (l : line) : conn_record :=
  if String.eqb (Line.Action l) "sniff" then r
  else
    let r := if Line.HasRule l then r <| ConnRecord.RuleIndex := Line.RuleIndex l |> else r in
    let r := if negb (String.eqb (Line.RuleText l) "")
             then r <| ConnRecord.RuleText := Line.RuleText l |> else r in
    if negb (String.eqb (Line.Outbound l) "") && String.eqb (ConnRecord.OutboundTag r) ""
    then r <| ConnRecord.OutboundTag := Line.Outbound l |> else r.

Definition apply_sniffed (r : conn_record) (l : line) : conn_record :=
  r <| ConnRecord.SniffedProtocol := Line.SniffProtocol l |>
    <| ConnRecord.SniffedDomain := Line.SniffDomain l |>.

Definition apply_outbound_to (r : conn_record) (l : line) : conn_record :=
  let r := r <| ConnRecord.OutboundTag := Line.TagName l |>
             <| ConnRecord.OutboundType := Line.TagType l |> in
  if String.eqb (ConnRecord.DstHost r) "" && negb (String.eqb (Line.DstHost l) "")
  then r <| ConnRecord.DstHost := Line.DstHost l |> <| ConnRecord.DstPort := Line.DstPort l |>
  else r.

Definition apply_dns (r : conn_record) (l : line) : conn_record :=
  match Line.DNSResult l with
  | first :: _ =>
      if String.eqb (ConnRecord.DstIP r) "" && sameHost (Line.DNSDomain l) (ConnRecord.DstHost r)
      then r <| ConnRecord.DstIP := first |> else r
  | [] => r
  end.

Definition apply_dial_failed (r : conn_record) (l : line) : conn_record :=
  let r := if String.eqb (ConnRecord.OutboundTag r) ""
           then r <| ConnRecord.OutboundTag := Line.OutboundName l |> else r in
  if String.eqb (ConnRecord.OutboundType r) ""
  then r <| ConnRecord.OutboundType := Line.OutboundType l |> else r.

(** [join]: byte movement, or the first sample, restarts the quiet window. *)
Definition join_moved (c : conn) (item : SnapshotItem) (at_ : time) : conn :=
  if negb (sampled c) || negb (iUpload item =? ConnRecord.Upload (record c))
     || negb (iDownload item =? ConnRecord.Download (record c))
  then c <| lastByteChangeAt := at_ |>
         <| record ::= fun r => r <| ConnRecord.StalledAt := 0 |> |>
  else c.

(** [join]: the fields a poll item fills in where no line said. *)
Definition join_fill (r : conn_record) (item : SnapshotItem) : conn_record :=
  let r := if String.eqb (ConnRecord.InboundType r) ""
           then r <| ConnRecord.InboundType := iInboundType item |> else r in
  let r := if String.eqb (ConnRecord.InboundTag r) ""
           then r <| ConnRecord.InboundTag := iInboundTag item |> else r in
  let r := if String.eqb (ConnRecord.RuleText r) ""
           then r <| ConnRecord.RuleText := iRule item |> else r in
  let r := if String.eqb (ConnRecord.Network r) ""
           then r <| ConnRecord.Network := iNetwork item |> else r in
  let r := if String.eqb (ConnRecord.DstHost r) "" && negb (String.eqb (iDstHost item) "")
           then r <| ConnRecord.DstHost := iDstHost item |>
                  <| ConnRecord.DstPort := atoiPort (iDstPort item) |>
           else r in
  if String.eqb (ConnRecord.OutboundTag r) "" then
    match iChains item with
    | first :: _ => r <| ConnRecord.OutboundTag := first |>
    | [] => r
    end
  else r.

(** [join]; the poll counter and the stall options are the caller's. *)
Definition join_conn (c : conn) (item : SnapshotItem) (at_ : time) (snapSeq : Z)
    (floor quiet : duration) : conn :=
  let c := join_moved c item at_ in
  let c := c <| record ::= fun r => r <| ConnRecord.Upload := iUpload item |>
                                      <| ConnRecord.Download := iDownload item |>
                                      <| ConnRecord.BytesKnown := true |> |>
             <| sampled := true |> <| lastSnapAt := at_ |> <| lastSnapSeq := snapSeq |>
             <| lastSeenAt := at_ |> in
  let c := c <| record ::= fun r => join_fill r item |> in
  evalStall c at_ floor quiet.

(** The direction a half close settles; [true] when both have reported. *)
Definition half_closed (c : conn) (l : line) (at_ : time) : conn :=
  let c := if is_zero_time (firstHalfAt c) then c <| firstHalfAt := at_ |> else c in
  match Line.Dir l with
  | DirectionUpload => c <| closedUp := true |>
  | DirectionDownload => c <| closedDown := true |>
  | DirectionNone =>
      if negb (closedUp c) then c <| closedUp := true |> else c <| closedDown := true |>
  end.

End Functions.
End Conn.

(** ** The assembler *)
Module Asm.
Import Conn.

Record Options := mkOptions {
  oNodeID : string;
  oCoreGeneration : Z;
  oMaxOpen : Z;
  oOrphanTTL : duration;
  oSnapshotEvery : duration;
  oStallFloor : duration;
  oStallQuiet : duration;
  oHalfCloseGrace : duration
}.

(** The counters that [Line] and its helpers keep; [Open] is computed. *)
Record Stats := mkStats {
  sOpen : Z; sEmitted : Z; sSwept : Z; sOrphaned : Z; sPartial : Z; sDropped : Z
}.
#[export] Instance Stats_eta : Etable Stats := fun s =>
  mkStats (sOpen s) (sEmitted s) (sSwept s) (sOrphaned s) (sPartial s) (sDropped s).

Abbreviation ptr := nat (only parsing).

Record Assembler := mk {
  opts : Options;
  gen : Z;
  heap : gmap nat conn;
  nextp : nat;
  opn : gmap Z nat;
  order : list nat;
  bySrc : gmap string nat;
  done : DoneSet.doneSet;
  out : list conn_record;
  stats : Stats;
  snapSeq : Z
}.
#[export] Instance Assembler_eta : Etable Assembler := fun a =>
  mk (opts a) (gen a) (heap a) (nextp a) (opn a) (order a) (bySrc a) (done a) (out a)
     (stats a) (snapSeq a).

Record Snapshot := mkSnapshot { At : time; Items : list SnapshotItem }.

Inductive durationSource := durFromCore | durFromClock.

Record ConnContext := mkContext { cUser : string; cDstHost : string; cInboundTag : string; cKnown : bool }.

Section Methods.
Context `{ConnVocabulary}.

Definition or_default (x d : Z) : Z := if x <=? 0 then d else x.

Definition New (o : Options) : Assembler :=
  let o := mkOptions (oNodeID o) (oCoreGeneration o) (or_default (oMaxOpen o) defaultMaxOpen)
             (or_default (oOrphanTTL o) defaultOrphanTTL)
             (or_default (oSnapshotEvery o) defaultSnapshotEvery)
             (or_default (oStallFloor o) defaultStallFloor)
             (or_default (oStallQuiet o) defaultStallQuiet)
             (or_default (oHalfCloseGrace o) defaultHalfCloseGrace) in
  mk o (oCoreGeneration o) ∅ 0 ∅ [] ∅ (DoneSet.newDoneSet (oMaxOpen o)) []
     (mkStats 0 0 0 0 0 0) 0.

(** Writing through a pointer. *)
Definition set_conn (a : Assembler) (p : ptr) (c : conn) : Assembler := a <| heap ::= <[p := c]> |>.

Definition push (a : Assembler) (r : conn_record) : Assembler :=
  a <| out ::= fun q => q ++ [r] |>
    <| stats ::= fun s => s <| sEmitted ::= fun n => u64 (n + 1) |> |>.

Definition forget (a : Assembler) (p : ptr) : Assembler :=
  match heap a !! p with
  | None => a
  | Some c =>
      let a := a <| opn ::= delete (ConnRecord.LogID (record c)) |> in
      let a := if linked c
               then set_conn (a <| order ::= filter (fun q => q <> p) |>) p (c <| linked := false |>)
               else a in
      if negb (String.eqb (srcKeyOf c) "") && bool_decide (bySrc a !! srcKeyOf c = Some p)
      then a <| bySrc ::= delete (srcKeyOf c) |> else a
  end.

Definition final_record (g : Z) (c : conn) (cand : closeCandidate) (endedAt : time)
    (src : durationSource) : conn_record :=
  record c <| ConnRecord.SessionIDs := sessions c |> <| ConnRecord.Open := false |>
    <| ConnRecord.EndedAt := endedAt |> <| ConnRecord.CoreGeneration := g |>
    <| ConnRecord.CloseReason := if String.eqb (reason cand) "" then CloseUnknown else reason cand |>
    <| ConnRecord.CloseError := err cand |>
    <| ConnRecord.DurationMS := match src with
         | durFromClock => millis (time_sub endedAt (ConnRecord.StartedAt (record c)))
         | durFromCore => lastElapsedMS c
         end |>.

Definition finish (a : Assembler) (p : ptr) (cand : closeCandidate) (endedAt : time)
    (src : durationSource) : Assembler :=
  match heap a !! p with
  | None => a
  | Some c =>
      let r := final_record (gen a) c cand endedAt src in
      let a := forget a p in
      let a := a <| done ::= fun d => DoneSet.add d (ConnRecord.LogID r) |> in
      if String.eqb (ConnRecord.SrcIP r) "" && String.eqb (ConnRecord.DstHost r) ""
      then a <| stats ::= fun s => s <| sPartial ::= fun n => u64 (n + 1) |> |>
      else push a r
  end.

Definition indexSrc (a : Assembler) (p : ptr) : Assembler :=
  match heap a !! p with
  | None => a
  | Some c =>
      if String.eqb (ConnRecord.SrcIP (record c)) "" then a
      else
        let key := srcKey (ConnRecord.SrcIP (record c)) (itoa (ConnRecord.SrcPort (record c))) in
        let a := if negb (String.eqb (srcKeyOf c) "") && negb (String.eqb (srcKeyOf c) key)
                    && bool_decide (bySrc a !! srcKeyOf c = Some p)
                 then a <| bySrc ::= delete (srcKeyOf c) |> else a in
        set_conn a p (c <| srcKeyOf := key |>) <| bySrc ::= <[key := p]> |>
  end.

Definition evictOldest (a : Assembler) : Assembler :=
  match order a with
  | [] => a
  | p :: _ =>
      match heap a !! p with
      | None => a
      | Some c =>
          forget a p <| done ::= fun d => DoneSet.add d (ConnRecord.LogID (record c)) |>
            <| stats ::= fun s => s <| sDropped ::= fun n => u64 (n + 1) |> |>
      end
  end.

(** Allocation of a connection: the new pointer is [nextp]. *)
Definition create (a : Assembler) (l : line) (at_ : time) : Assembler * ptr :=
  let a := if Z.of_nat (size (opn a)) >=? oMaxOpen (opts a) then evictOldest a else a in
  let p := nextp a in
  let c := fresh_conn (oNodeID (opts a)) l at_ in
  (a <| heap ::= <[p := c <| linked := true |>]> |> <| nextp := S p |>
     <| opn ::= <[Line.LogID l := p]> |> <| order ::= fun q => q ++ [p] |>, p).

Definition halfClosed (a : Assembler) (p : ptr) (l : line) (at_ : time) : Assembler :=
  match heap a !! p with
  | None => a
  | Some c =>
      let c := half_closed c l at_ in
      let a := set_conn a p c in
      if closedUp c && closedDown c then finish a p (close c) at_ durFromCore else a
  end.

Definition apply (a : Assembler) (p : ptr) (l : line) (at_ : time) : Assembler :=
  match heap a !! p with
  | None => a
  | Some c =>
      if bool_decide (Line.Ev l = EventOutboundTo) && haveOutbound c
      then set_conn a p (c <| lastSeenAt := at_ |>)
      else
        let c := observe c l at_ in
        let on_record f := set_conn a p (c <| record ::= f |>) in
        let terminal c r := finish (set_conn a p c) p (mkCandidate r (Line.Error l) rankTerminal)
                              at_ durFromCore in
        match Line.Ev l with
        | EventInboundFrom =>
            indexSrc (on_record (fun r => r <| ConnRecord.SrcIP := Line.SrcIP l |>
                                           <| ConnRecord.SrcPort := Line.SrcPort l |>)) p
        | EventInboundTo => on_record (fun r => apply_inbound_to r l)
        | EventRuleMatch => on_record (fun r => apply_rule_match r l)
        | EventSniffed => on_record (fun r => apply_sniffed r l)
        | EventOutboundTo =>
            set_conn a p (c <| haveOutbound := true |>
                            <| record ::= fun r => apply_outbound_to r l |>)
        | EventDNS => on_record (fun r => apply_dns r l)
        | EventDialFailed =>
            terminal (c <| record ::= fun r => apply_dial_failed r l |>) CloseDialFailed
        | EventAuthFailed => terminal c CloseAuthFailed
        | EventHandshakeFailed => terminal c CloseHandshakeFailed
        | EventConnectionClosed => terminal c (closeReasonFor (Line.Error l) CloseEOF)
        | EventFinished =>
            halfClosed (set_conn a p (offer c (mkCandidate (closeReasonFor (Line.Error l) CloseEOF)
              (Line.Error l) (evidenceRank (Line.Error l) CloseEOF)))) p l at_
        | EventClosed =>
            let empty := if Line.Packet l then CloseUDPIdle else CloseCanceled in
            halfClosed (set_conn a p (offer c (mkCandidate (closeReasonFor (Line.Error l) empty)
              (Line.Error l) (evidenceRank (Line.Error l) empty)))) p l at_
        | EventOther => set_conn a p c
        end
  end.

Definition collision : closeCandidate :=
  mkCandidate CloseUnknown "log id collision: a new connection reused this log id" rankTerminal.

Definition LineIn (a : Assembler) (clock : time) (l : line) : Assembler :=
  if negb (Line.HasLogID l) then a
  else
    let at_ := if is_zero_time (Line.At l) then clock else Line.At l in
    match opn a !! Line.LogID l, Line.Ev l with
    | Some p, EventInboundFrom =>
        let a := finish a p collision at_ durFromCore in
        let '(a, p') := create a l at_ in apply a p' l at_
    | None, EventInboundFrom => let '(a, p') := create a l at_ in apply a p' l at_
    | Some p, _ => apply a p l at_
    | None, _ =>
        if DoneSet.has (done a) (Line.LogID l) then a
        else let '(a, p') := create a l at_ in apply a p' l at_
    end.

Definition join (a : Assembler) (p : ptr) (item : SnapshotItem) (at_ : time) : Assembler :=
  match heap a !! p with
  | None => a
  | Some c => set_conn a p (join_conn c item at_ (snapSeq a) (oStallFloor (opts a)) (oStallQuiet (opts a)))
  end.

Definition snapshot_item (at_ : time) (a : Assembler) (item : SnapshotItem) : Assembler :=
  match bySrc a !! srcKey (iSrcIP item) (iSrcPort item) with
  | None => a
  | Some p =>
      match heap a !! p with
      | None => a
      | Some c =>
          if negb (is_zero_time (iStart item))
             && time_before (iStart item)
                  (time_add (ConnRecord.StartedAt (record c)) (- snapshotStartSkew))
          then a else join a p item at_
      end
  end.

Definition stillListed (a : Assembler) (c : conn) : bool :=
  sampled c && (lastSnapSeq c >=? snapSeq a).

Definition vanished : closeCandidate :=
  mkCandidate CloseUnknown "connection left the sing-box connection table without a close line"
    rankTerminal.

Definition sweep_one (at_ : time) (a : Assembler) (p : ptr) : Assembler :=
  match heap a !! p with
  | None => a
  | Some c =>
      if sampled c && (lastSnapSeq c <? snapSeq a) then
        if rank (close c) =? rankNone then finish a p vanished at_ durFromClock
        else finish a p (close c) at_ durFromCore
      else a
  end.

(** The loops over the list capture the successor before the body may remove
    the element, and the body removes no other, so they visit the list as it
    was on entry. *)
Definition sweepVanished (a : Assembler) (at_ : time) : Assembler :=
  foldl (sweep_one at_) a (order a).

Definition SnapshotIn (a : Assembler) (clock : time) (s : Snapshot) : Assembler :=
  let at_ := if is_zero_time (At s) then clock else At s in
  let a := a <| snapSeq ::= fun n => u64 (n + 1) |> in
  let a := foldl (snapshot_item at_) a (Items s) in
  sweepVanished a at_.

Definition emitOpen (a : Assembler) (p : ptr) (now : time) : Assembler :=
  match heap a !! p with
  | None => a
  | Some c =>
      let r := record c <| ConnRecord.SessionIDs := sessions c |> <| ConnRecord.Open := true |>
                 <| ConnRecord.CoreGeneration := gen a |>
                 <| ConnRecord.CloseReason := CloseUnknown |>
                 <| ConnRecord.DurationMS :=
                      millis (time_sub now (ConnRecord.StartedAt (record c))) |> in
      push (set_conn a p (c <| lastEmitAt := now |>)) r
  end.

Definition orphan (c : conn) : closeCandidate :=
  mkCandidate CloseUnknown
    (if String.eqb (err (close c)) "" then "no further log lines for this connection"
     else err (close c)) rankTerminal.

Definition tick_one (now : time) (a : Assembler) (p : ptr) : Assembler :=
  match heap a !! p with
  | None => a
  | Some c =>
      if negb (is_zero_time (firstHalfAt c))
         && (time_sub now (firstHalfAt c) >=? oHalfCloseGrace (opts a))
         && negb (stillListed a c)
      then finish a p (close c) (firstHalfAt c) durFromCore
      else if time_sub now (lastSeenAt c) >=? oOrphanTTL (opts a) then
        finish (a <| stats ::= fun s => s <| sOrphaned ::= fun n => u64 (n + 1) |> |>)
          p (orphan c) now durFromCore
      else
        let c := evalStall c now (oStallFloor (opts a)) (oStallQuiet (opts a)) in
        let a := set_conn a p c in
        if time_sub now (lastEmitAt c) >=? oSnapshotEvery (opts a) then emitOpen a p now else a
  end.

Definition Tick (a : Assembler) (clock now : time) : Assembler :=
  let now := if is_zero_time now then clock else now in
  foldl (tick_one now) a (order a).

Definition core_restart : closeCandidate := mkCandidate CloseCoreRestart "" rankTerminal.

Definition CoreRestart (a : Assembler) (newGeneration : Z) (clock at_ : time) : Assembler :=
  let at_ := if is_zero_time at_ then clock else at_ in
  let swept := u64 (zlen (order a)) in
  let a := foldl (fun a p => finish a p core_restart at_ durFromClock) a (order a) in
  a <| stats ::= fun s => s <| sSwept ::= fun n => u64 (n + swept) |> |>
    <| done ::= DoneSet.reset |> <| gen := newGeneration |>.

Definition Drain (a : Assembler) : Assembler * list conn_record := (a <| out := [] |>, out a).

Definition StatsOf (a : Assembler) : Stats := stats a <| sOpen := Z.of_nat (size (opn a)) |>.

Definition Context (a : Assembler) (logID : Z) : ConnContext :=
  match opn a !! logID ≫= fun p => heap a !! p with
  | None => mkContext "" "" "" false
  | Some c => mkContext (ConnRecord.UserName (record c)) (ConnRecord.DstHost (record c))
                (ConnRecord.InboundTag (record c)) true
  end.

Definition Tracked (a : Assembler) (logID : Z) : bool :=
  bool_decide (is_Some (opn a !! logID)) || DoneSet.has (done a) logID.

Definition containsSession (list_ : list string) (want : string) : bool :=
  existsb (fun v => String.eqb v want) list_.

Definition add_sessions (ss ids : list string) : list string :=
  foldl (fun acc id => if String.eqb id "" || containsSession acc id then acc else acc ++ [id]) ss ids.

Definition Tag (a : Assembler) (logID : Z) (sessionIDs : list string) : Assembler :=
  match sessionIDs with
  | [] => a
  | _ =>
      match opn a !! logID with
      | None => a
      | Some p =>
          match heap a !! p with
          | None => a
          | Some c => set_conn a p (c <| sessions := sort_strings (add_sessions (sessions c) sessionIDs) |>)
          end
      end
  end.

End Methods.
End Asm.
