(* ===== verification/SessionAsmInv.v ===== *)
(** * The assembler's indexes stay consistent

    The invariant that ties the store of connections to the map by log id, the
    creation-ordered list and the map by source address, and its preservation
    by every method.  [step] is the transition system the collector drives. *)
From S2P Require Import Prelude GoStrings SingboxLog SDK SessionAsm.

Local Open Scope Z_scope.

(** ** The done set refines a bounded queue without duplicates *)
Module DoneSetFacts.
Import DoneSet.

(** The abstract set: the ids it holds, oldest first. *)
Definition queue (d : doneSet) : list Z := ring_contents (ring d) (pos d).

Definition wf (d : doneSet) : Prop :=
  ring_ok (cap d) (ring d) (pos d) /\ NoDup (queue d) /\ forall id, id ∈ ids d <-> id ∈ queue d.

(** Adding to the abstract set: a present id keeps its place, a new one
    pushes the oldest out of a full set. *)
Definition spec_add (capacity : nat) (q : list Z) (id : Z) : list Z :=
  if bool_decide (id ∈ q) then q else drop (S (length q) - capacity) q ++ [id].

Lemma wf_new capacity : wf (newDoneSet capacity).
Proof.
  split; [|split; [apply NoDup_nil_2|intros id; unfold queue; simpl; set_solver]].
  apply ring_ok_nil. simpl. destruct (Z.ltb_spec capacity 1); lia.
Qed.

Lemma wf_reset d : wf d -> wf (reset d) /\ queue (reset d) = [].
Proof.
  intros (Hok & _). split; [|done]. split; [|split; [apply NoDup_nil_2|intros id; unfold queue; simpl; set_solver]].
  apply ring_ok_nil. apply Hok.
Qed.

Lemma has_queue d id : wf d -> has d id = bool_decide (id ∈ queue d).
Proof. intros (_ & _ & Hin). unfold has. by apply bool_decide_ext. Qed.

Lemma add_refines d id :
  wf d -> wf (add d id) /\ queue (add d id) = spec_add (cap d) (queue d) id /\ cap (add d id) = cap d.
Proof.
  intros Hwf. pose proof Hwf as (Hok & Hnd & Hin). unfold add, spec_add.
  rewrite has_queue by done. case_bool_decide as Hid; [done|].
  set (d' := _ : doneSet).
  assert (Hq : queue d' = drop (S (length (queue d)) - cap d) (queue d) ++ [id]).
  { unfold queue, d'. simpl. rewrite ring_contents_put by done. by rewrite ring_contents_length. }
  split; [|done]. split; [by apply ring_put_ok|]. rewrite Hq. split.
  - apply NoDup_app. split; [by apply drop_nodup|]. split; [|apply NoDup_singleton].
    intros x Hx ->%list_elem_of_singleton. apply Hid.
    by eapply drop_subset.
  - intros x. rewrite elem_of_app, list_elem_of_singleton. unfold d'. simpl.
    rewrite elem_of_union, elem_of_singleton.
    destruct (decide (length (ring d) < cap d)%nat) as [Hlt|Hge].
    + unfold ring_victim. rewrite (proj2 (Nat.ltb_lt _ _) Hlt).
      unfold queue at 1. rewrite ring_contents_length.
      replace (S (length (ring d)) - cap d)%nat with 0%nat by lia. rewrite drop_0, Hin. tauto.
    + pose proof Hok as (Hc & Hl & Hp & Hz). rewrite ring_victim_head by (done || lia).
      fold (queue d). unfold queue at 2. rewrite ring_contents_length.
      replace (S (length (ring d)) - cap d)%nat with 1%nat by lia.
      destruct (queue d) as [|old q]; simpl; [rewrite Hin; set_solver|].
      rewrite drop_0, elem_of_difference, Hin, elem_of_singleton, elem_of_cons.
      apply NoDup_cons in Hnd as [Hold _]. naive_solver.
Qed.

Lemma add_wf d id : wf d -> wf (add d id).
Proof. intros Hd. by apply add_refines. Qed.

Lemma has_add d id id' : wf d -> has (add d id) id' = true -> has d id' = true \/ id' = id.
Proof.
  intros Hd. pose proof (add_refines d id Hd) as (Hwf & Hq & _).
  rewrite !has_queue by done. rewrite Hq, !bool_decide_eq_true. unfold spec_add.
  case_bool_decide; [by left|].
  rewrite elem_of_app, list_elem_of_singleton. intros [Hin|?]; [left|by right].
  by eapply drop_subset.
Qed.

Lemma has_add_self d id : wf d -> has (add d id) id = true.
Proof.
  intros Hd. pose proof (add_refines d id Hd) as (Hwf & Hq & _).
  rewrite has_queue by done. rewrite Hq. apply bool_decide_eq_true. unfold spec_add.
  case_bool_decide; [done|]. apply elem_of_app. right. by apply list_elem_of_singleton.
Qed.
End DoneSetFacts.

Module AsmInv.
Import Conn Asm.

Record wf (a : Assembler) : Prop := {
  wf_nodup : NoDup (order a);
  wf_open : forall id p, opn a !! id = Some p ->
    p ∈ order a /\ exists c, heap a !! p = Some c /\ ConnRecord.LogID (record c) = id;
  wf_order : forall p, p ∈ order a ->
    exists c, heap a !! p = Some c /\ linked c = true /\
      opn a !! ConnRecord.LogID (record c) = Some p;
  wf_src : forall k p, bySrc a !! k = Some p ->
    k <> "" /\ p ∈ order a /\ exists c, heap a !! p = Some c /\ srcKeyOf c = k;
  wf_heap : forall p c, heap a !! p = Some c -> (p < nextp a)%nat;
  wf_done : DoneSetFacts.wf (done a);
  wf_cap : 1 <= oMaxOpen (opts a) /\ zlen (order a) <= oMaxOpen (opts a)
}.

(** The identity of a connection: what the indexes depend on. *)
Definition same_ident (c c' : conn) : Prop :=
  ConnRecord.LogID (record c') = ConnRecord.LogID (record c) /\
  linked c' = linked c /\ srcKeyOf c' = srcKeyOf c.

Lemma same_ident_lookup (h : gmap nat conn) p c c' q cq :
  h !! p = Some c -> same_ident c c' -> h !! q = Some cq ->
  exists cq', <[p := c']> h !! q = Some cq' /\ same_ident cq cq'.
Proof.
  intros Hc Hs Hq. destruct (decide (q = p)) as [->|Hne].
  - exists c'. rewrite lookup_insert_eq. split; [done|]. congruence.
  - exists cq. by rewrite lookup_insert_ne.
Qed.

Lemma wf_set_conn a p c c' :
  wf a -> heap a !! p = Some c -> same_ident c c' -> wf (set_conn a p c').
Proof.
  intros [H1 H2 H3 H4 H5 H6 H7] Hc Hs. split; simpl; auto.
  - intros id q Hq. destruct (H2 id q Hq) as (Hin & cq & Hcq & Hidq). split; [done|].
    destruct (same_ident_lookup _ p c c' q cq Hc Hs Hcq) as (cq' & ? & Hi & _).
    exists cq'. by rewrite Hi.
  - intros q Hin. destruct (H3 q Hin) as (cq & Hcq & Hlq & Hoq).
    destruct (same_ident_lookup _ p c c' q cq Hc Hs Hcq) as (cq' & ? & Hi & Hl & _).
    exists cq'. by rewrite Hi, Hl.
  - intros k q Hq. destruct (H4 k q Hq) as (Hne & Hin & cq & Hcq & Hkq).
    destruct (same_ident_lookup _ p c c' q cq Hc Hs Hcq) as (cq' & ? & _ & _ & Hk).
    split; [done|]. split; [done|]. exists cq'. by rewrite Hk.
  - intros q cq [[<- <-]|[_ Hq]]%lookup_insert_Some; eauto.
Qed.

(** What [forget] does to a tracked connection. *)
Lemma forget_eq a p c :
  wf a -> p ∈ order a -> heap a !! p = Some c ->
  forget a p =
    a <| heap ::= <[p := c <| linked := false |>]> |>
      <| opn ::= delete (ConnRecord.LogID (record c)) |>
      <| order ::= filter (fun q => q <> p) |>
      <| bySrc := if bool_decide (bySrc a !! srcKeyOf c = Some p)
                  then delete (srcKeyOf c) (bySrc a) else bySrc a |>.
Proof.
  intros Hwf Hin Hc. destruct (wf_order _ Hwf p Hin) as (c' & Hc' & Hl & Ho). simplify_map_eq.
  unfold forget. rewrite Hc, Hl. simpl. case_bool_decide as Hk.
  - destruct (wf_src _ Hwf _ _ Hk) as (Hne & _). rewrite (proj2 (String.eqb_neq _ _) Hne). done.
  - rewrite andb_false_r. by destruct a.
Qed.

Lemma wf_forget a p : wf a -> p ∈ order a -> wf (forget a p).
Proof.
  intros Hwf Hin. pose proof Hwf as [H1 H2 H3 H4 H5 H6 H7].
  destruct (H3 p Hin) as (c & Hc & Hl & Ho). rewrite (forget_eq a p c) by done.
  split; simpl; auto.
  - by apply NoDup_filter.
  - intros id q [Hne Hq]%lookup_delete_Some. destruct (H2 id q Hq) as (Hinq & cq & Hcq & Hidq).
    assert (q <> p) by (intros ->; simplify_map_eq). rewrite list_elem_of_filter.
    split; [done|]. exists cq. by simplify_map_eq.
  - intros q [Hne Hq]%list_elem_of_filter. destruct (H3 q Hq) as (cq & Hcq & Hlq & Hoq).
    exists cq. rewrite lookup_insert_ne by done. split; [done|]. split; [done|].
    apply lookup_delete_Some. split; [|done]. intros Heq. rewrite Heq in Ho. congruence.
  - intros k q Hq.
    assert (bySrc a !! k = Some q /\ q <> p) as [Hk Hqp].
    { case_bool_decide as Hd.
      - apply lookup_delete_Some in Hq as [Hne Hq]. split; [done|]. intros ->.
        destruct (H4 k p Hq) as (_ & _ & c' & Hc' & Hk'). simplify_map_eq.
      - split; [done|]. intros ->. destruct (H4 k p Hq) as (_ & _ & c' & Hc' & Hk').
        simplify_map_eq. }
    destruct (H4 k q Hk) as (Hne & Hinq & cq & Hcq & Hkq). split; [done|].
    split; [by apply list_elem_of_filter|]. exists cq. by rewrite lookup_insert_ne.
  - intros q cq [[<- <-]|[_ Hq]]%lookup_insert_Some; eauto.
  - split; [apply H7|]. pose proof (filter_ne_length (order a) p H1 Hin) as Hlen.
    unfold zlen in *. lia.
Qed.

(** The invariant does not depend on the counters, the output queue, the
    generation or the poll counter. *)
Definition same_index (a a' : Assembler) : Prop :=
  opts a' = opts a /\ heap a' = heap a /\ nextp a' = nextp a /\ opn a' = opn a /\
  order a' = order a /\ bySrc a' = bySrc a.

Lemma wf_same_index a a' :
  wf a -> same_index a a' -> DoneSetFacts.wf (done a') -> wf a'.
Proof.
  intros [H1 H2 H3 H4 H5 H6 H7] (E1 & E2 & E3 & E4 & E5 & E6) Hd.
  split; rewrite ?E1, ?E2, ?E3, ?E4, ?E5, ?E6; auto.
Qed.

Section WithVocabulary.
Context `{V : ConnVocabulary}.

(** The record of a connection counts as partial when it names neither end. *)
Definition partial_record (r : conn_record) : bool :=
  String.eqb (ConnRecord.SrcIP r) "" && String.eqb (ConnRecord.DstHost r) "".

(** What [finish] does to a tracked connection. *)
Record finished (a a' : Assembler) (p : nat) (c : conn) (r : conn_record) : Prop := {
  fin_wf : wf a';
  fin_opts : opts a' = opts a;
  fin_gen : gen a' = gen a;
  fin_heap : heap a' = <[p := c <| linked := false |>]> (heap a);
  fin_nextp : nextp a' = nextp a;
  fin_opn : opn a' = delete (ConnRecord.LogID (record c)) (opn a);
  fin_order : order a' = filter (fun q => q <> p) (order a);
  fin_done : done a' = DoneSet.add (done a) (ConnRecord.LogID (record c));
  fin_snap : snapSeq a' = snapSeq a;
  fin_out : out a' = if partial_record r then out a else out a ++ [r];
  fin_stats : stats a' =
    if partial_record r then stats a <| sPartial ::= fun n => u64 (n + 1) |>
    else stats a <| sEmitted ::= fun n => u64 (n + 1) |>
}.

Lemma finish_spec a p c cand t src :
  wf a -> p ∈ order a -> heap a !! p = Some c ->
  finished a (finish a p cand t src) p c (final_record (gen a) c cand t src).
Proof.
  intros Hwf Hin Hc. pose proof (wf_forget a p Hwf Hin) as Hf.
  pose proof (forget_eq a p c Hwf Hin Hc) as Heq. unfold finish. rewrite Hc.
  set (r := final_record (gen a) c cand t src). fold (partial_record r).
  assert (Hd : DoneSetFacts.wf (DoneSet.add (done a) (ConnRecord.LogID (record c)))).
  { apply DoneSetFacts.add_wf, Hwf. }
  change (ConnRecord.LogID r) with (ConnRecord.LogID (record c)).
  split; destruct (partial_record r); try (unfold push; simpl; by rewrite Heq);
    (eapply wf_same_index; [exact Hf|repeat split|unfold push; simpl; by rewrite Heq]).
Qed.

Lemma finish_missing a p cand t src : heap a !! p = None -> finish a p cand t src = a.
Proof. intros Hc. unfold finish. by rewrite Hc. Qed.

(** Moving a connection to another source key, when the entries that remain
    are its own or other connections' old ones. *)
Lemma wf_reindex a p c key src' :
  wf a -> p ∈ order a -> heap a !! p = Some c -> key <> "" ->
  (forall k q, src' !! k = Some q -> (k = key /\ q = p) \/ (bySrc a !! k = Some q /\ q <> p)) ->
  wf (set_conn a p (c <| srcKeyOf := key |>) <| bySrc := src' |>).
Proof.
  intros [H1 H2 H3 H4 H5 H6 H7] Hin Hc Hkey Hsrc. split; simpl; auto.
  - intros id q Hq. destruct (H2 id q Hq) as (Hinq & cq & Hcq & Hidq). split; [done|].
    destruct (decide (q = p)) as [->|]; [|exists cq; by rewrite lookup_insert_ne].
    exists (c <| srcKeyOf := key |>). rewrite lookup_insert_eq. split; [done|]. simpl. congruence.
  - intros q Hq. destruct (H3 q Hq) as (cq & Hcq & Hlq & Hoq).
    destruct (decide (q = p)) as [->|]; [|exists cq; by rewrite lookup_insert_ne].
    exists (c <| srcKeyOf := key |>). rewrite lookup_insert_eq. split; [done|].
    rewrite Hc in Hcq. injection Hcq as <-. done.
  - intros k q [[-> ->]|[Hk Hne]]%Hsrc.
    + split; [done|]. split; [done|]. eexists. by rewrite lookup_insert_eq.
    + destruct (H4 k q Hk) as (Hk0 & Hinq & cq & Hcq & Hkq). split; [done|]. split; [done|].
      exists cq. by rewrite lookup_insert_ne.
  - intros q cq [[<- <-]|[_ Hq]]%lookup_insert_Some; eauto.
Qed.

Lemma srcKey_nonempty ip port : ip <> "" -> srcKey ip port <> "".
Proof.
  intros Hip. unfold srcKey. rewrite (proj2 (String.eqb_neq _ _) Hip). by destruct ip.
Qed.

(** Source addresses are re-indexed without leaving a dangling entry. *)
Lemma indexSrc_spec a p c :
  wf a -> p ∈ order a -> heap a !! p = Some c ->
  wf (indexSrc a p) /\
  (indexSrc a p = a \/
   exists key src', indexSrc a p = set_conn a p (c <| srcKeyOf := key |>) <| bySrc := src' |>).
Proof.
  intros Hwf Hin Hc. pose proof Hwf as [H1 H2 H3 H4 H5 H6 H7].
  unfold indexSrc. rewrite Hc.
  destruct (String.eqb_spec (ConnRecord.SrcIP (record c)) "") as [|Hip]; [auto|].
  set (key := srcKey _ _). assert (Hkey : key <> "") by (by apply srcKey_nonempty).
  set (gone := _ && _).
  set (src' := <[key := p]> (if gone then delete (srcKeyOf c) (bySrc a) else bySrc a)).
  assert (Heq : forall a0, (if gone then a <| bySrc ::= delete (srcKeyOf c) |> else a) = a0 ->
    set_conn a0 p (c <| srcKeyOf := key |>) <| bySrc ::= <[key := p]> |> =
    set_conn a p (c <| srcKeyOf := key |>) <| bySrc := src' |>).
  { intros a0 <-. unfold src'. by destruct gone. }
  rewrite (Heq _ eq_refl). split; [|right; by exists key, src'].
  apply wf_reindex; auto.
  intros k q [[<- <-]|[Hne Hq]]%lookup_insert_Some; [by left|right].
  assert (Hold : bySrc a !! k = Some q).
  { destruct gone; [by apply lookup_delete_Some in Hq as [_ ?]|done]. }
  split; [done|]. intros ->. destruct (H4 k p Hold) as (Hk0 & _ & c' & Hc' & Hk').
  rewrite Hc in Hc'. injection Hc' as <-.
  assert (gone = true) as Hg.
  { unfold gone. rewrite Hk'. rewrite (proj2 (String.eqb_neq k "") Hk0).
    rewrite (proj2 (String.eqb_neq k key)) by congruence. by rewrite bool_decide_eq_true_2. }
  rewrite Hg in Hq. apply lookup_delete_Some in Hq as [Hne' _]. congruence.
Qed.

(** ** Elementary moves

    Every method of the assembler is a sequence of the moves below, so an
    invariant is proved once per move. *)

(** What a connection in the store may claim: bytes only once sampled, a stall
    only since the last byte it was seen moving, a close reason only from
    evidence, and half closes only with evidence. *)
Definition honest (c : conn) : Prop :=
  ConnRecord.BytesKnown (record c) = sampled c /\
  (sampled c = false -> ConnRecord.Upload (record c) = 0 /\ ConnRecord.Download (record c) = 0 /\
                        ConnRecord.StalledAt (record c) = 0) /\
  (ConnRecord.StalledAt (record c) <> 0 -> ConnRecord.StalledAt (record c) = lastByteChangeAt c) /\
  0 <= rank (close c) /\
  (rank (close c) = rankNone ->
     closedUp c = false /\ closedDown c = false /\ firstHalfAt c = 0) /\
  (rank (close c) <> rankNone -> reason (close c) ∈ close_reasons).

Definition conn_step (c c' : conn) : Prop := same_ident c c' /\ (honest c -> honest c').

(** The close candidates a connection may be finished with: a reason the
    caller states, or the evidence the connection has. *)
Definition cand_ok (c : conn) (cand : closeCandidate) : Prop :=
  reason cand ∈ close_reasons \/ (cand = close c /\ rank (close c) <> rankNone).

(** [create] less the eviction. *)
Definition alloc (a : Assembler) (l : line) (at_ : time) : Assembler :=
  a <| heap ::= <[nextp a := fresh_conn (oNodeID (opts a)) l at_ <| linked := true |>]> |>
    <| nextp := S (nextp a) |> <| opn ::= <[Line.LogID l := nextp a]> |>
    <| order ::= fun q => q ++ [nextp a] |>.

Inductive move (allow : Z -> Prop) (a : Assembler) : Assembler -> Prop :=
  | move_write p c c' :
      p ∈ order a -> heap a !! p = Some c -> conn_step c c' -> move allow a (set_conn a p c')
  | move_index p : p ∈ order a -> move allow a (indexSrc a p)
  | move_finish p c cand t src :
      p ∈ order a -> heap a !! p = Some c -> cand_ok c cand ->
      move allow a (finish a p cand t src)
  | move_evict p : head (order a) = Some p -> move allow a (evictOldest a)
  | move_alloc l t :
      allow (Line.LogID l) -> opn a !! Line.LogID l = None ->
      zlen (order a) < oMaxOpen (opts a) -> move allow a (alloc a l t)
  | move_open p now : p ∈ order a -> move allow a (emitOpen a p now)
  | move_orphaned : move allow a (a <| stats ::= fun s => s <| sOrphaned ::= fun n => u64 (n + 1) |> |>)
  | move_poll : move allow a (a <| snapSeq ::= fun n => u64 (n + 1) |>).

Definition inv (a : Assembler) : Prop :=
  wf a /\ forall p c, heap a !! p = Some c -> honest c.

Lemma wf_alloc a l t :
  wf a -> opn a !! Line.LogID l = None -> zlen (order a) < oMaxOpen (opts a) -> wf (alloc a l t).
Proof.
  intros [H1 H2 H3 H4 H5 H6 H7] Hno Hcap.
  assert (Hfresh : heap a !! nextp a = None).
  { destruct (heap a !! nextp a) eqn:E; [|done]. apply H5 in E. lia. }
  assert (Hnin : nextp a ∉ order a).
  { intros Hin. destruct (H3 _ Hin) as (c & Hc & _). congruence. }
  assert (Hlk : forall q cq, heap a !! q = Some cq -> q <> nextp a)
    by (intros q cq Hq ->; congruence).
  split; simpl.
  - apply NoDup_app. split; [done|]. split; [|apply NoDup_singleton].
    intros x Hx ->%list_elem_of_singleton. done.
  - intros id q [[<- <-]|[Hne Hq]]%lookup_insert_Some.
    + split; [set_solver|]. eexists. by rewrite lookup_insert_eq.
    + destruct (H2 id q Hq) as (Hin & cq & Hcq & Hidq). split; [set_solver|].
      exists cq. by rewrite lookup_insert_ne by (by apply not_eq_sym; eapply Hlk).
  - intros q [Hin| ->%list_elem_of_singleton]%elem_of_app.
    + destruct (H3 q Hin) as (cq & Hcq & Hl & Ho). exists cq.
      rewrite lookup_insert_ne by (by apply not_eq_sym; eapply Hlk).
      split; [done|]. split; [done|]. rewrite lookup_insert_ne; [done|congruence].
    + eexists. rewrite lookup_insert_eq. split; [done|]. split; [done|]. simpl.
      by rewrite lookup_insert_eq.
  - intros k q Hq. destruct (H4 k q Hq) as (Hk & Hin & cq & Hcq & Hkq). split; [done|].
    split; [set_solver|]. exists cq. by rewrite lookup_insert_ne by (by apply not_eq_sym; eapply Hlk).
  - intros q cq [[<- <-]|[_ Hq]]%lookup_insert_Some; [lia|]. apply H5 in Hq. lia.
  - done.
  - rewrite zlen_app. unfold zlen in *. simpl. lia.
Qed.

Lemma honest_fresh n l t : honest (fresh_conn n l t <| linked := true |>).
Proof. unfold honest. simpl. split_all; done. Qed.

Lemma wf_evict a : wf a -> wf (evictOldest a).
Proof.
  intros Hwf. unfold evictOldest. destruct (order a) as [|p ps] eqn:Ho; [done|].
  assert (Hin : p ∈ order a) by (rewrite Ho; left).
  destruct (wf_order _ Hwf p Hin) as (c & Hc & _). rewrite Hc.
  eapply wf_same_index; [exact (wf_forget a p Hwf Hin)|repeat split|].
  apply DoneSetFacts.add_wf. simpl. rewrite (forget_eq a p c) by done. apply Hwf.
Qed.

Lemma honest_insert (h : gmap nat conn) p c :
  (forall q cq, h !! q = Some cq -> honest cq) -> honest c ->
  forall q cq, <[p := c]> h !! q = Some cq -> honest cq.
Proof. intros Hh Hc q cq [[<- <-]|[_ Hq]]%lookup_insert_Some; eauto. Qed.

Lemma move_inv allow a a' : move allow a a' -> inv a -> inv a'.
Proof.
  intros Hm [Hwf Hh]. destruct Hm as [p c c' Hin Hc [Hs Hho]|p Hin|p c cand t src Hin Hc Hok
    |p Hp|l t Hal Hno Hcap|p now Hin| |].
  - split; [by eapply wf_set_conn|]. apply honest_insert; eauto.
  - destruct (wf_order _ Hwf p Hin) as (c & Hc & _).
    destruct (indexSrc_spec a p c Hwf Hin Hc) as [Hw [->|(key & src' & Heq)]]; [done|].
    split; [done|]. rewrite Heq. apply honest_insert; [done|]. by apply (Hh p c).
  - destruct (finish_spec a p c cand t src Hwf Hin Hc) as [Hw _ _ Hheap _ _ _ _ _ _ _].
    split; [done|]. rewrite Hheap. apply honest_insert; [done|]. by apply (Hh p c).
  - split; [by apply wf_evict|]. unfold evictOldest. destruct (order a) as [|q qs] eqn:Ho; [done|].
    assert (Hin : q ∈ order a) by (rewrite Ho; left).
    destruct (wf_order _ Hwf q Hin) as (c & Hc & _). rewrite Hc. simpl.
    rewrite (forget_eq a q c) by done. apply honest_insert; [done|]. by apply (Hh q c).
  - split; [by apply wf_alloc|]. apply honest_insert; [done|]. apply honest_fresh.
  - destruct (wf_order _ Hwf p Hin) as (c & Hc & _). unfold emitOpen. rewrite Hc.
    split; [|apply honest_insert; [done|]; by apply (Hh p c)].
    eapply wf_same_index; [exact (wf_set_conn a p c (c <| lastEmitAt := now |>) Hwf Hc ltac:(done))
      |repeat split|apply Hwf].
  - split; [|done]. eapply wf_same_index; [exact Hwf|repeat split|apply Hwf].
  - split; [|done]. eapply wf_same_index; [exact Hwf|repeat split|apply Hwf].
Qed.

Lemma moves_inv allow a a' : rtc (move allow) a a' -> inv a -> inv a'.
Proof. induction 1; eauto using move_inv. Qed.
End WithVocabulary.
End AsmInv.
