(* ===== verification/SessionAsmSteps.v ===== *)
(** * Every method of the assembler is a sequence of elementary moves

    The updates of a single connection keep it honest; [LineIn], [SnapshotIn],
    [Tick], [Tag] and the sweep of [CoreRestart] decompose into the moves of
    [AsmInv.move]; [run] is the transition system the collector drives. *)
From S2P Require Import Prelude GoStrings SingboxLog SDK SessionAsm SessionAsmInv.

Local Open Scope Z_scope.

Module AsmSteps.
Import Conn Asm AsmInv.

Section WithVocabulary.
Context `{V : ConnVocabulary}.

(** ** Updates of one connection *)

Lemma conn_step_refl c : conn_step c c.
Proof. done. Qed.

Lemma conn_step_trans c1 c2 c3 : conn_step c1 c2 -> conn_step c2 c3 -> conn_step c1 c3.
Proof.
  intros [(H1 & H2 & H3) Ha] [(H4 & H5 & H6) Hb]. split; [|auto].
  split; [congruence|]. split; congruence.
Qed.

(** A change of the record that touches none of the claims. *)
Definition neutral (r r' : conn_record) : Prop :=
  ConnRecord.LogID r' = ConnRecord.LogID r /\
  ConnRecord.BytesKnown r' = ConnRecord.BytesKnown r /\
  ConnRecord.Upload r' = ConnRecord.Upload r /\
  ConnRecord.Download r' = ConnRecord.Download r /\
  ConnRecord.StalledAt r' = ConnRecord.StalledAt r.

Lemma conn_step_record c f : neutral (record c) (f (record c)) -> conn_step c (c <| record ::= f |>).
Proof.
  intros (H1 & H2 & H3 & H4 & H5). split; [by split_all|].
  unfold honest. simpl. by rewrite H2, H3, H4, H5.
Qed.

Lemma conn_step_seen c t : conn_step c (c <| lastSeenAt := t |>).
Proof. done. Qed.

Lemma conn_step_if (b : bool) c c' : conn_step c c' -> conn_step c (if b then c' else c).
Proof. by destruct b. Qed.

Ltac neutral_tac := unfold neutral; repeat (case_match; simpl); split_all; reflexivity.

Lemma observe_step c l t : conn_step c (observe c l t).
Proof.
  unfold observe.
  eapply conn_step_trans; [apply (conn_step_seen c t)|].
  generalize (c <| lastSeenAt := t |>). clear c. intros c.
  eapply conn_step_trans; [apply (conn_step_if (Line.ElapsedMS l >? lastElapsedMS c) c
    (c <| lastElapsedMS := Line.ElapsedMS l |>)); done|].
  generalize (if Line.ElapsedMS l >? lastElapsedMS c
    then c <| lastElapsedMS := Line.ElapsedMS l |> else c). clear c. intros c.
  cbv zeta.
  repeat (case_match; simpl); try done;
    repeat (eapply conn_step_trans; [|apply conn_step_record; neutral_tac]); apply conn_step_refl.
Qed.

Lemma apply_inbound_to_neutral r l : neutral r (apply_inbound_to r l).
Proof. unfold apply_inbound_to. neutral_tac. Qed.
Lemma apply_rule_match_neutral r l : neutral r (apply_rule_match r l).
Proof. unfold apply_rule_match. neutral_tac. Qed.
Lemma apply_sniffed_neutral r l : neutral r (apply_sniffed r l).
Proof. unfold apply_sniffed. neutral_tac. Qed.
Lemma apply_outbound_to_neutral r l : neutral r (apply_outbound_to r l).
Proof. unfold apply_outbound_to. neutral_tac. Qed.
Lemma apply_dns_neutral r l : neutral r (apply_dns r l).
Proof. unfold apply_dns. neutral_tac. Qed.
Lemma apply_dial_failed_neutral r l : neutral r (apply_dial_failed r l).
Proof. unfold apply_dial_failed. neutral_tac. Qed.

Lemma closeReasonFor_known e w : w ∈ close_reasons -> closeReasonFor e w ∈ close_reasons.
Proof.
  intros Hw. unfold closeReasonFor, close_reasons in *.
  repeat (case_match; [set_solver|]). set_solver.
Qed.

Lemma evidenceRank_pos e w : 0 < evidenceRank e w.
Proof. unfold evidenceRank, rankError, rankEOF, rankSoft. repeat case_match; lia. Qed.

Lemma offer_step c cand :
  0 < rank cand -> reason cand ∈ close_reasons ->
  conn_step c (offer c cand) /\ (honest c -> 0 < rank (close (offer c cand))).
Proof.
  intros Hr Hk. unfold offer. rewrite Z.gtb_ltb.
  destruct (Z.ltb_spec (rank (close c)) (rank cand)) as [Hlt|Hge]; simpl; [|split; [done|lia]].
  split; [|done]. split; [done|]. unfold honest, rankNone. simpl. intuition lia.
Qed.

Lemma half_closed_step c l t : (honest c -> 0 < rank (close c)) -> conn_step c (half_closed c l t).
Proof.
  intros Hr. unfold half_closed.
  split.
  - unfold same_ident. repeat (case_match; simpl); done.
  - intros Hh. specialize (Hr Hh). unfold honest, rankNone in *.
    repeat (case_match; simpl); intuition lia.
Qed.

Lemma evalStall_step c now floor quiet : conn_step c (evalStall c now floor quiet).
Proof.
  unfold evalStall. destruct (sampled c) eqn:Hs; simpl; [|done].
  repeat case_match; try done. split; [done|].
  unfold honest. simpl. rewrite Hs. intuition congruence.
Qed.

Lemma join_moved_step c item t : conn_step c (join_moved c item t).
Proof.
  unfold join_moved. case_match; [|done]. split; [done|].
  unfold honest. simpl. intuition congruence.
Qed.

Lemma join_fill_neutral r item : neutral r (join_fill r item).
Proof. unfold join_fill. neutral_tac. Qed.

Lemma join_conn_step c item t n floor quiet : conn_step c (join_conn c item t n floor quiet).
Proof.
  unfold join_conn. cbv zeta.
  eapply conn_step_trans; [|apply evalStall_step].
  eapply conn_step_trans; [|apply conn_step_record, join_fill_neutral].
  eapply conn_step_trans; [apply (join_moved_step c item t)|].
  split; [done|]. unfold honest. simpl. intuition congruence.
Qed.

Lemma sessions_step c ss : conn_step c (c <| sessions := ss |>).
Proof. done. Qed.

(** ** Methods *)

(** The map by log id and the list have the same size. *)
Lemma wf_size a : wf a -> size (opn a) = length (order a).
Proof.
  intros Hwf. rewrite <- length_map_to_list, <- (length_fmap snd).
  apply Permutation_length, NoDup_Permutation.
  - apply NoDup_fmap_2_strong; [|apply NoDup_map_to_list].
    intros [i p] [j q] Hi Hj; simpl; intros ->.
    apply elem_of_map_to_list in Hi, Hj.
    destruct (wf_open _ Hwf _ _ Hi) as (_ & c & Hc & <-).
    destruct (wf_open _ Hwf _ _ Hj) as (_ & c' & Hc' & <-). congruence.
  - apply Hwf.
  - intros p. rewrite list_elem_of_fmap. split.
    + intros ([i q] & -> & Hi). apply elem_of_map_to_list in Hi. by apply (wf_open _ Hwf) in Hi as [? _].
    + intros Hin. destruct (wf_order _ Hwf p Hin) as (c & _ & _ & Ho).
      eexists (_, p). split; [done|]. by apply elem_of_map_to_list.
Qed.

Lemma evict_facts a p c :
  wf a -> head (order a) = Some p -> heap a !! p = Some c ->
  let a' := evictOldest a in
  opts a' = opts a /\ gen a' = gen a /\ nextp a' = nextp a /\ out a' = out a /\ snapSeq a' = snapSeq a /\
  opn a' = delete (ConnRecord.LogID (record c)) (opn a) /\
  order a' = filter (fun q => q <> p) (order a) /\
  done a' = DoneSet.add (done a) (ConnRecord.LogID (record c)) /\
  stats a' = stats a <| sDropped ::= fun n => u64 (n + 1) |>.
Proof.
  intros Hwf Hhd Hc. unfold evictOldest. destruct (order a) as [|q qs] eqn:Ho; [done|].
  simpl in Hhd. injection Hhd as ->. rewrite Hc.
  rewrite (forget_eq a p c Hwf) by (done || (rewrite Ho; left)). simpl. by rewrite Ho.
Qed.

Lemma create_moves allow a l t :
  inv a -> allow (Line.LogID l) -> opn a !! Line.LogID l = None ->
  let r := create a l t in
  rtc (move allow) a r.1 /\ r.2 ∈ order r.1 /\
  heap r.1 !! r.2 = Some (fresh_conn (oNodeID (opts a)) l t <| linked := true |>).
Proof.
  intros Hinv Hal Hno. pose proof Hinv as [Hwf _].
  assert (Hev : exists b, create a l t = (alloc b l t, nextp b) /\ rtc (move allow) a b /\
                opts b = opts a /\ opn b !! Line.LogID l = None /\ zlen (order b) < oMaxOpen (opts b)).
  { unfold create. rewrite (wf_size a Hwf), Z.geb_leb. pose proof (wf_cap _ Hwf) as [H1 H2].
    destruct (Z.leb_spec (oMaxOpen (opts a)) (Z.of_nat (length (order a)))) as [Hfull|Hroom].
    - exists (evictOldest a). split; [done|].
      destruct (order a) as [|p ps] eqn:Ho; [simpl in Hfull; lia|].
      assert (Hin : p ∈ order a) by (rewrite Ho; left).
      destruct (wf_order _ Hwf p Hin) as (c & Hc & _).
      pose proof (evict_facts a p c Hwf ltac:(by rewrite Ho) Hc) as (E1 & _ & _ & _ & _ & E2 & E3 & _).
      split; [apply rtc_once, (move_evict _ _ p); by rewrite Ho|]. split; [done|].
      rewrite E2, E3, E1. split; [by rewrite lookup_delete_None; right|].
      pose proof (filter_ne_length (order a) p (wf_nodup _ Hwf) Hin) as Hl.
      unfold zlen in *. rewrite Ho in Hl at 1. lia.
    - exists a. split; [done|]. split; [apply rtc_refl|]. split; [done|]. split; [done|].
      unfold zlen. lia. }
  destruct Hev as (b & -> & Hmoves & Hopts & Hnob & Hcap). simpl.
  split; [|split; [set_solver|by rewrite lookup_insert_eq, Hopts]].
  eapply rtc_r; [exact Hmoves|]. by apply move_alloc.
Qed.

Lemma write_move allow a p c c' :
  p ∈ order a -> heap a !! p = Some c -> conn_step c c' -> rtc (move allow) a (set_conn a p c').
Proof. intros. by eapply rtc_once, move_write. Qed.

(** A write followed by moves that start from the written connection. *)
Lemma write_then allow a p c c' b :
  p ∈ order a -> heap a !! p = Some c -> conn_step c c' ->
  rtc (move allow) (set_conn a p c') b -> rtc (move allow) a b.
Proof. intros. eapply rtc_l; [by eapply move_write|done]. Qed.

Lemma set_conn_heap a p c : heap (set_conn a p c) !! p = Some c.
Proof. apply lookup_insert_eq. Qed.

Lemma finish_moves allow a p c cand t src :
  p ∈ order a -> heap a !! p = Some c -> cand_ok c cand ->
  rtc (move allow) a (finish a p cand t src).
Proof. intros. by eapply rtc_once, move_finish. Qed.

Lemma close_reason_in r : r ∈ close_reasons -> forall e n c, cand_ok c (mkCandidate r e n).
Proof. intros. by left. Qed.

Lemma offered_half_moves allow a p c c0 cand l t :
  p ∈ order a -> heap a !! p = Some c0 -> honest c0 -> conn_step c0 c ->
  0 < rank cand -> reason cand ∈ close_reasons ->
  rtc (move allow) a (halfClosed (set_conn a p (offer c cand)) p l t).
Proof.
  intros Hin Hc Hh Hcc Hr Hk. destruct (offer_step c cand Hr Hk) as [Hoff Hpos].
  pose proof (half_closed_step (offer c cand) l t) as Hhalf.
  assert (Hpos' : 0 < rank (close (offer c cand))) by (apply Hpos, Hcc, Hh).
  specialize (Hhalf (fun _ => Hpos')).
  eapply write_then; [done|done|by eapply conn_step_trans|].
  unfold halfClosed. rewrite set_conn_heap.
  eapply write_then; [done|apply set_conn_heap|done|].
  case_match; [|apply rtc_refl].
  eapply finish_moves; [done|apply set_conn_heap|]. right. split; [done|].
  unfold rankNone. enough (close (half_closed (offer c cand) l t) = close (offer c cand)) as -> by lia.
  unfold half_closed. by repeat (case_match; simpl).
Qed.

Lemma apply_moves allow a p l t :
  inv a -> p ∈ order a -> rtc (move allow) a (apply a p l t).
Proof.
  intros [Hwf Hh] Hin. destruct (wf_order _ Hwf p Hin) as (c & Hc & _).
  pose proof (Hh p c Hc) as Hhc. unfold apply. rewrite Hc.
  case_match; [eapply write_move; [done|done|apply conn_step_seen]|].
  pose proof (observe_step c l t) as Hob. set (c1 := observe c l t) in *.
  assert (Hrec : forall f, neutral (record c1) (f (record c1)) ->
                 rtc (move allow) a (set_conn a p (c1 <| record ::= f |>))).
  { intros f Hf. eapply write_move; [done|done|].
    eapply conn_step_trans; [exact Hob|by apply conn_step_record]. }
  assert (Hterm : forall c2 r, conn_step c1 c2 -> r ∈ close_reasons ->
    rtc (move allow) a (finish (set_conn a p c2) p (mkCandidate r (Line.Error l) rankTerminal) t durFromCore)).
  { intros c2 r Hs Hr. eapply write_then; [done|done|by eapply conn_step_trans|].
    eapply finish_moves; [done|apply set_conn_heap|by left]. }
  assert (Heof : CloseEOF ∈ close_reasons) by (unfold close_reasons; set_solver).
  destruct (Line.Ev l).
  - eapply rtc_r; [|by apply move_index]. apply Hrec. unfold neutral. by split_all.
  - apply Hrec, apply_inbound_to_neutral.
  - apply Hrec, apply_rule_match_neutral.
  - apply Hrec, apply_sniffed_neutral.
  - eapply write_move; [done|done|]. eapply conn_step_trans; [exact Hob|].
    eapply conn_step_trans; [|apply conn_step_record, apply_outbound_to_neutral]. done.
  - apply Hrec, apply_dns_neutral.
  - eapply offered_half_moves; eauto using evidenceRank_pos. by apply closeReasonFor_known.
  - eapply offered_half_moves; eauto using evidenceRank_pos. apply closeReasonFor_known.
    unfold close_reasons. case_match; set_solver.
  - apply Hterm; [apply conn_step_refl|by apply closeReasonFor_known].
  - apply Hterm; [apply conn_step_record, apply_dial_failed_neutral|unfold close_reasons; set_solver].
  - apply Hterm; [apply conn_step_refl|unfold close_reasons; set_solver].
  - apply Hterm; [apply conn_step_refl|unfold close_reasons; set_solver].
  - by eapply write_move.
Qed.

Lemma finish_keeps_others a p c cand t src q :
  wf a -> p ∈ order a -> heap a !! p = Some c -> q <> p -> q ∈ order a ->
  q ∈ order (finish a p cand t src).
Proof.
  intros Hwf Hp Hc Hne Hq. rewrite (fin_order _ _ _ _ _ (finish_spec a p c cand t src Hwf Hp Hc)).
  by apply list_elem_of_filter.
Qed.

Lemma LineIn_moves a clock l :
  inv a -> rtc (move (eq (Line.LogID l))) a (LineIn a clock l).
Proof.
  intros Hinv. pose proof Hinv as [Hwf _]. unfold LineIn. case_match; [apply rtc_refl|].
  set (t := if is_zero_time (Line.At l) then clock else Line.At l).
  assert (Hnew : forall b, inv b -> opn b !! Line.LogID l = None ->
    rtc (move (eq (Line.LogID l))) b (let '(b', p') := create b l t in apply b' p' l t)).
  { intros b Hb Hno. destruct (create_moves (eq (Line.LogID l)) b l t Hb eq_refl Hno) as (Hm & Hin & _).
    destruct (create b l t) as [b' p']. simpl in *. etrans; [exact Hm|].
    apply apply_moves; [by eapply moves_inv|done]. }
  destruct (opn a !! Line.LogID l) as [p|] eqn:Ho.
  - destruct (wf_open _ Hwf _ _ Ho) as (Hin & c & Hc & Hid).
    assert (Hcol : rtc (move (eq (Line.LogID l))) a
       (let a := finish a p collision t durFromCore in
        let '(a, p') := create a l t in apply a p' l t)).
    { assert (Hf : rtc (move (eq (Line.LogID l))) a (finish a p collision t durFromCore)).
      { eapply finish_moves; [done|done|]. left. unfold close_reasons. simpl. left. }
      etrans; [exact Hf|]. apply Hnew; [by eapply moves_inv|].
      rewrite (fin_opn _ _ _ _ _ (finish_spec a p c _ _ _ Hwf Hin Hc)), Hid.
      apply lookup_delete_eq. }
    destruct (Line.Ev l); auto using apply_moves.
  - destruct (Line.Ev l); auto; (case_match; [apply rtc_refl|auto]).
Qed.

(** A loop over the list on entry, whose body works on one connection and
    removes no other. *)
Lemma loop_moves allow (f : Assembler -> nat -> Assembler) ps : forall a,
  inv a -> NoDup ps -> (forall p, p ∈ ps -> p ∈ order a) ->
  (forall b p, inv b -> p ∈ order b ->
     rtc (move allow) b (f b p) /\ forall q, q <> p -> q ∈ order b -> q ∈ order (f b p)) ->
  rtc (move allow) a (foldl f a ps).
Proof.
  induction ps as [|p ps IH]; intros a Ha Hnd Hsub Hf; [apply rtc_refl|]. simpl.
  apply NoDup_cons in Hnd as [Hp Hnd].
  destruct (Hf a p Ha (Hsub p (list_elem_of_here _ _))) as [Hm Hk].
  etrans; [exact Hm|]. apply IH; [by eapply moves_inv|done| |done].
  intros q Hq. apply Hk; [by intros ->|]. apply Hsub. by right.
Qed.

Lemma sweep_one_moves allow t b p :
  inv b -> p ∈ order b ->
  rtc (move allow) b (sweep_one t b p) /\
  forall q, q <> p -> q ∈ order b -> q ∈ order (sweep_one t b p).
Proof.
  intros [Hwf Hh] Hin. destruct (wf_order _ Hwf p Hin) as (c & Hc & _).
  unfold sweep_one. rewrite Hc. case_match; [|split; [apply rtc_refl|done]].
  destruct (Z.eqb_spec (rank (close c)) rankNone) as [E|E];
    (split; [|intros q; by apply finish_keeps_others with c]); eapply finish_moves; try done.
  - left. unfold close_reasons. simpl. left.
  - by right.
Qed.

Lemma orphan_moves allow now b p c :
  inv b -> p ∈ order b -> heap b !! p = Some c ->
  let b' := finish (b <| stats ::= fun s => s <| sOrphaned ::= fun n => u64 (n + 1) |> |>)
              p (orphan c) now durFromCore in
  rtc (move allow) b b' /\ forall q, q <> p -> q ∈ order b -> q ∈ order b'.
Proof.
  intros Hinv Hin Hc b'. set (b1 := b <| stats ::= _ |>) in b'.
  assert (Hm : move allow b b1) by apply move_orphaned.
  pose proof (move_inv _ _ _ Hm Hinv) as [Hwf _].
  split; [|intros q Hne Hq; by apply finish_keeps_others with c].
  eapply rtc_l; [exact Hm|]. eapply finish_moves; [done|done|]. left.
  unfold close_reasons. simpl. left.
Qed.

Lemma running_moves allow now b p c c' :
  p ∈ order b -> heap b !! p = Some c -> conn_step c c' ->
  let b1 := set_conn b p c' in
  let b' := if time_sub now (lastEmitAt c') >=? oSnapshotEvery (opts b1) then emitOpen b1 p now else b1 in
  rtc (move allow) b b' /\ forall q, q <> p -> q ∈ order b -> q ∈ order b'.
Proof.
  intros Hin Hc Hs b1 b'.
  assert (Hm : rtc (move allow) b b1) by (by eapply write_move).
  unfold b'. case_match; [|done]. split.
  - eapply rtc_r; [exact Hm|]. by apply move_open.
  - intros q _ Hq. unfold emitOpen. unfold b1. rewrite set_conn_heap. done.
Qed.

Lemma tick_one_moves allow now b p :
  inv b -> p ∈ order b ->
  rtc (move allow) b (tick_one now b p) /\
  forall q, q <> p -> q ∈ order b -> q ∈ order (tick_one now b p).
Proof.
  intros Hinv Hin. pose proof Hinv as [Hwf Hh]. destruct (wf_order _ Hwf p Hin) as (c & Hc & _).
  pose proof (Hh p c Hc) as (_ & _ & _ & _ & Hnone & _).
  unfold tick_one. rewrite Hc.
  destruct (_ && _ && negb (stillListed b c)) eqn:Ehalf.
  - apply andb_true_iff in Ehalf as [[Ehalf _]%andb_true_iff _].
    split; [|intros q; by apply finish_keeps_others with c].
    eapply finish_moves; [done|done|right]. split; [done|]. intros Hr.
    destruct (Hnone Hr) as (_ & _ & H0). unfold is_zero_time in Ehalf. by rewrite H0 in Ehalf.
  - destruct (time_sub now (lastSeenAt c) >=? oOrphanTTL (opts b)).
    + by apply orphan_moves.
    + apply (running_moves allow now b p c); [done|done|apply evalStall_step].
Qed.

Lemma Tick_moves allow a clock now : inv a -> rtc (move allow) a (Tick a clock now).
Proof.
  intros Hinv. apply loop_moves; [done|apply Hinv|done|].
  intros b p Hb Hp. by apply tick_one_moves.
Qed.

Lemma snapshot_item_moves allow t a item :
  inv a -> rtc (move allow) a (snapshot_item t a item).
Proof.
  intros [Hwf _]. unfold snapshot_item. case_match eqn:Es; [|apply rtc_refl].
  destruct (wf_src _ Hwf _ _ Es) as (_ & Hin & c & Hc & _). rewrite Hc.
  case_match; [apply rtc_refl|]. unfold join. rewrite Hc.
  eapply write_move; [done|done|apply join_conn_step].
Qed.

Lemma SnapshotIn_moves allow a clock s : inv a -> rtc (move allow) a (SnapshotIn a clock s).
Proof.
  intros Hinv. unfold SnapshotIn. set (t := if is_zero_time (At s) then clock else At s).
  eapply rtc_l; [apply move_poll|]. set (a1 := a <| snapSeq ::= _ |>).
  assert (Ha1 : inv a1) by (by eapply (move_inv allow), Hinv; apply move_poll).
  clearbody a1. clear Hinv a.
  assert (Hit : forall items b, inv b -> rtc (move allow) b (foldl (snapshot_item t) b items)).
  { induction items as [|item items IH]; intros b Hb; [apply rtc_refl|]. simpl.
    pose proof (snapshot_item_moves allow t b item Hb) as Hm.
    etrans; [exact Hm|]. apply IH. by eapply moves_inv. }
  etrans; [by apply Hit|]. pose proof (moves_inv allow _ _ (Hit (Items s) a1 Ha1) Ha1) as Hinv2.
  apply loop_moves; [done|apply Hinv2|done|]. intros b p Hb Hp. by apply sweep_one_moves.
Qed.

Lemma Tag_moves allow a id ss : inv a -> rtc (move allow) a (Tag a id ss).
Proof.
  intros [Hwf _]. unfold Tag. destruct ss; [apply rtc_refl|].
  destruct (opn a !! id) as [p|] eqn:Ho; [|apply rtc_refl].
  destruct (wf_open _ Hwf _ _ Ho) as (Hin & c & Hc & _). rewrite Hc.
  eapply write_move; [done|done|apply sessions_step].
Qed.

(** The sweep of a restart, less the reset that follows it. *)
Definition restart_sweep (a : Assembler) (t : time) : Assembler :=
  foldl (fun a p => finish a p core_restart t durFromClock) a (order a).

Lemma restart_moves allow a t : inv a -> rtc (move allow) a (restart_sweep a t).
Proof.
  intros Hinv. apply loop_moves; [done|apply Hinv|done|].
  intros b p [Hwf _] Hp. destruct (wf_order _ Hwf p Hp) as (c & Hc & _).
  split; [|intros q; by apply finish_keeps_others with c].
  eapply finish_moves; [done|done|]. left. unfold close_reasons. simpl. set_solver.
Qed.
End WithVocabulary.
End AsmSteps.
