(* ===== verification/SessionAsmProps.v ===== *)
(** * What the assembler guarantees

    The collector's view of the assembler as a transition system, and the
    properties of every run of it: consistent and bounded indexes, conservation
    of connections, honesty of the records, what a tick and a restart settle,
    and independence of the subscription level. *)
From S2P Require Import Prelude GoStrings SingboxLog SDK SessionAsm SessionAsmInv SessionAsmSteps.

Local Open Scope Z_scope.

Module AsmProps.
Import Conn Asm AsmInv AsmSteps.

Section WithVocabulary.
Context `{V : ConnVocabulary}.

(** ** The transition system *)

Inductive op :=
  | OpLine (clock : time) (l : line)
  | OpSnapshot (clock : time) (s : Snapshot)
  | OpTick (clock now : time)
  | OpRestart (newGeneration : Z) (clock at_ : time)
  | OpTag (logID : Z) (sessionIDs : list string)
  | OpDrain.

Definition step (a : Assembler) (o : op) : Assembler * list conn_record :=
  match o with
  | OpLine clock l => (LineIn a clock l, [])
  | OpSnapshot clock s => (SnapshotIn a clock s, [])
  | OpTick clock now => (Tick a clock now, [])
  | OpRestart g clock t => (CoreRestart a g clock t, [])
  | OpTag id ss => (Tag a id ss, [])
  | OpDrain => Drain a
  end.

(** The state after a run and what [Drain] returned on the way. *)
Fixpoint run (a : Assembler) (os : list op) : Assembler * list conn_record :=
  match os with
  | [] => (a, [])
  | o :: os' =>
      let '(a1, d1) := step a o in let '(a2, d2) := run a1 os' in (a2, d1 ++ d2)
  end.

(** Everything emitted so far, drained or still queued. *)
Definition emitted (r : Assembler * list conn_record) : list conn_record := r.2 ++ out r.1.

Lemma restart_eq a g clock t :
  CoreRestart a g clock t =
    restart_sweep a (if is_zero_time t then clock else t)
      <| stats ::= fun s => s <| sSwept ::= fun n => u64 (n + u64 (zlen (order a))) |> |>
      <| done ::= DoneSet.reset |> <| gen := g |>.
Proof. done. Qed.

Lemma inv_frame a a' :
  inv a -> same_index a a' -> DoneSetFacts.wf (done a') -> inv a'.
Proof.
  intros [Hwf Hh] Hs Hd. split; [by eapply wf_same_index|].
  destruct Hs as (_ & -> & _). done.
Qed.

Lemma step_inv a o : inv a -> inv (step a o).1.
Proof.
  intros Hinv. destruct o as [clock l|clock s|clock now|g clock t|id ss|]; simpl.
  - eapply moves_inv; [by apply LineIn_moves|done].
  - eapply (moves_inv (fun _ => False)); [by apply SnapshotIn_moves|done].
  - eapply (moves_inv (fun _ => False)); [by apply Tick_moves|done].
  - rewrite restart_eq. generalize (if is_zero_time t then clock else t). intros u.
    pose proof (moves_inv _ _ _ (restart_moves (fun _ => False) a u Hinv) Hinv) as Hi.
    eapply inv_frame; [exact Hi|repeat split|]. simpl. apply DoneSetFacts.wf_reset, Hi.
  - eapply (moves_inv (fun _ => False)); [by apply Tag_moves|done].
  - eapply inv_frame; [exact Hinv|repeat split|apply Hinv].
Qed.

Lemma run_ind_inv (P : Assembler -> list conn_record -> Prop) a0 :
  inv a0 -> P a0 (out a0) ->
  (forall a o e, inv a -> P a (e ++ out a) ->
     P (step a o).1 (e ++ (step a o).2 ++ out (step a o).1)) ->
  forall os, inv (run a0 os).1 /\ P (run a0 os).1 (emitted (run a0 os)).
Proof.
  intros Hi0 Hp0 Hstep os. unfold emitted.
  assert (Hgen : forall os a e, inv a -> P a (e ++ out a) ->
    inv (run a os).1 /\ P (run a os).1 (e ++ (run a os).2 ++ out (run a os).1)).
  { clear Hi0 Hp0 os. induction os as [|o os IH]; intros a e Hi Hp; [done|].
    simpl run. pose proof (step_inv a o Hi) as Hi'. pose proof (Hstep a o e Hi Hp) as Hp'.
    destruct (step a o) as [a1 d1]. simpl in *.
    specialize (IH a1 (e ++ d1) Hi'). rewrite <- app_assoc in IH. specialize (IH Hp').
    destruct (run a1 os) as [a2 d2]. simpl in *. by rewrite <- !app_assoc in *. }
  exact (Hgen os a0 [] Hi0 Hp0).
Qed.

Lemma inv_New o : inv (New o).
Proof.
  split; [|intros p c; simpl; by rewrite lookup_empty].
  split; simpl; try (intros ??; rewrite lookup_empty; done).
  - apply NoDup_nil_2.
  - intros p. by rewrite elem_of_nil.
  - apply DoneSetFacts.wf_new.
  - unfold or_default, defaultMaxOpen, zlen. simpl. destruct (Z.leb_spec (oMaxOpen o) 0); lia.
Qed.

(** ** Bounded, consistent indexes *)

Lemma move_opts allow a a' : inv a -> move allow a a' -> opts a' = opts a.
Proof.
  intros [Hwf _] Hm. destruct Hm as [p c c' Hin Hc|p Hin|p c cand t src Hin Hc Hok|p Hp| |p now Hin| |];
    try done.
  - destruct (wf_order _ Hwf p Hin) as (c & Hc & _).
    by destruct (indexSrc_spec a p c Hwf Hin Hc) as [_ [->|(key & src' & ->)]].
  - apply (finish_spec a p c cand t src Hwf Hin Hc).
  - assert (Hin : p ∈ order a) by (destruct (order a); [done|]; simpl in Hp; simplify_eq; left).
    destruct (wf_order _ Hwf p Hin) as (c & Hc & _). by apply (evict_facts a p c).
  - destruct (wf_order _ Hwf p Hin) as (c & Hc & _). unfold emitOpen. by rewrite Hc.
Qed.

(** An invariant of the moves is an invariant of the methods. *)
Lemma moves_keep (P : Assembler -> Prop) allow a a' :
  (forall b b', inv b -> move allow b b' -> P b -> P b') ->
  inv a -> rtc (move allow) a a' -> P a -> P a'.
Proof.
  intros Hf Hinv Hm. induction Hm as [|x y z Hxy _ IH]; [done|].
  intros Hx. apply IH; [by eapply move_inv|by eapply Hf].
Qed.

(** The same for a whole operation, given the frame of a restart and of a
    drain. *)
Lemma step_keep (P : Assembler -> Prop) a o :
  inv a ->
  (forall allow b b', inv b -> move allow b b' -> P b -> P b') ->
  (forall g clock t b, o = OpRestart g clock t -> inv b -> P b -> P (b
      <| stats ::= fun s => s <| sSwept ::= fun n => u64 (n + u64 (zlen (order a))) |> |>
      <| done ::= DoneSet.reset |> <| gen := g |>)) ->
  (o = OpDrain -> P a -> P (a <| out := [] |>)) ->
  P a -> P (step a o).1.
Proof.
  intros Hinv Hm Hr Hd. destruct o as [clock l|clock s|clock now|g clock t|id ss|]; simpl.
  - eapply moves_keep; [apply Hm|done|by apply LineIn_moves].
  - eapply (moves_keep P (fun _ => False)); [apply Hm|done|by apply SnapshotIn_moves].
  - eapply (moves_keep P (fun _ => False)); [apply Hm|done|by apply Tick_moves].
  - rewrite restart_eq. generalize (if is_zero_time t then clock else t). intros u Hp.
    pose proof (restart_moves (fun _ => False) a u Hinv) as Hmv.
    apply (Hr g clock t); [done|by eapply moves_inv|].
    eapply moves_keep; [apply Hm|done|exact Hmv|done].
  - eapply (moves_keep P (fun _ => False)); [apply Hm|done|by apply Tag_moves].
  - by apply Hd.
Qed.

Lemma step_preserve {X} (f : Assembler -> X) a o :
  inv a ->
  (forall allow b b', inv b -> move allow b b' -> f b' = f b) ->
  (forall g clock t b, o = OpRestart g clock t -> inv b -> f (b
      <| stats ::= fun s => s <| sSwept ::= fun n => u64 (n + u64 (zlen (order a))) |> |>
      <| done ::= DoneSet.reset |> <| gen := g |>) = f b) ->
  (o = OpDrain -> f (a <| out := [] |>) = f a) ->
  f (step a o).1 = f a.
Proof.
  intros Hinv Hm Hr Hd. apply (step_keep (fun b => f b = f a)); auto.
  - intros allow b b' Hb Hmv <-. by eapply Hm.
  - intros g clock t b Ho Hb <-. by eapply Hr.
Qed.

Lemma run_opts o os : inv (run (New o) os).1 /\ opts (run (New o) os).1 = opts (New o).
Proof.
  apply (run_ind_inv (fun a _ => opts a = opts (New o))); [apply inv_New|done|].
  intros b p e Hb Hp. rewrite <- Hp. apply step_preserve; auto. intros. by eapply move_opts.
Qed.

(** C17: the indexes of the assembler agree and are bounded, in every state any
    sequence of lines, polls, ticks, restarts and tags can reach: the list of
    tracked connections has no duplicate and at most [MaxOpen] entries, the map
    by log id is a bijection with it, no source address points at a finished
    connection, and [Stats] reports exactly the number tracked. *)
Theorem assembler_wf o os :
  let a := (run (New o) os).1 in
  wf a /\ sOpen (StatsOf a) = zlen (order a) /\
  zlen (order a) <= or_default (oMaxOpen o) defaultMaxOpen.
Proof.
  intros a. destruct (run_opts o os) as [[Hwf _] Ho].
  fold a in Hwf, Ho. split; [done|]. split; [unfold StatsOf; simpl; by rewrite (wf_size a Hwf)|].
  pose proof (wf_cap _ Hwf) as [_ Hc]. rewrite Ho in Hc. done.
Qed.

(** ** Conservation of connections *)

Definition finals (rs : list conn_record) : list conn_record :=
  filter (fun r => ConnRecord.Open r = false) rs.

(** Connections accounted for minus connections opened, and records counted
    minus records queued. *)
Definition balance (a : Assembler) : Z :=
  zlen (order a) + sDropped (stats a) + sPartial (stats a) + zlen (finals (out a))
  - Z.of_nat (nextp a).
Definition emission (a : Assembler) : Z := sEmitted (stats a) - zlen (out a).

Lemma finals_snoc rs r :
  zlen (finals (rs ++ [r])) = zlen (finals rs) + if ConnRecord.Open r then 0 else 1.
Proof.
  unfold finals, zlen. rewrite filter_app, length_app. destruct (ConnRecord.Open r) eqn:E.
  - rewrite filter_cons_False by congruence. simpl. lia.
  - rewrite filter_cons_True by done. simpl. lia.
Qed.

Lemma u64_shift x y : u64 (x + u64 y) = u64 (x + y).
Proof. apply u64_add_r. Qed.

(** [u64] of a sum in which one counter was incremented with wrap-around. *)
Lemma u64_bump x n k : u64 (x + u64 (n + k)) = u64 (x + n + k).
Proof. rewrite u64_add_r. f_equal. lia. Qed.

Lemma zlen_snoc {A} (l : list A) x : zlen (l ++ [x]) = zlen l + 1.
Proof. rewrite zlen_app. done. Qed.

Lemma zlen_removed a p : wf a -> p ∈ order a -> zlen (filter (fun q => q <> p) (order a)) = zlen (order a) - 1.
Proof.
  intros Hwf Hin. pose proof (filter_ne_length _ p (wf_nodup _ Hwf) Hin). unfold zlen. lia.
Qed.

Ltac to_bump n :=
  match goal with
  | |- u64 ?e = _ => match e with context [u64 (n + 1)] =>
      replace e with ((e - u64 (n + 1)) + u64 (n + 1)) by lia; rewrite u64_bump; f_equal; lia end
  end.

Lemma move_balance allow a a' :
  inv a -> move allow a a' ->
  u64 (balance a') = u64 (balance a) /\ u64 (emission a') = u64 (emission a).
Proof.
  intros [Hwf _] Hm. destruct Hm as [p c c' Hin Hc|p Hin|p c cand t src Hin Hc Hok|p Hp
    |l t _ Hno Hcap|p now Hin| |]; try done.
  - destruct (wf_order _ Hwf p Hin) as (c & Hc & _).
    by destruct (indexSrc_spec a p c Hwf Hin Hc) as [_ [->|(key & src' & ->)]].
  - destruct (finish_spec a p c cand t src Hwf Hin Hc) as [_ _ _ _ Hn _ Ho _ _ Hout Hst].
    unfold balance, emission. rewrite Hn, Ho, Hout, Hst, (zlen_removed a p Hwf Hin).
    destruct (partial_record _); simpl.
    + split; [to_bump (sPartial (stats a))|done].
    + rewrite finals_snoc, zlen_snoc. simpl.
      split; [f_equal; lia|to_bump (sEmitted (stats a))].
  - assert (Hin : p ∈ order a) by (destruct (order a); [done|]; simpl in Hp; simplify_eq; left).
    destruct (wf_order _ Hwf p Hin) as (c & Hc & _).
    destruct (evict_facts a p c Hwf Hp Hc) as (_ & _ & Hn & Hout & _ & _ & Ho & _ & Hst).
    unfold balance, emission. rewrite Hn, Ho, Hout, Hst, (zlen_removed a p Hwf Hin). simpl.
    split; [to_bump (sDropped (stats a))|done].
  - unfold balance, emission. simpl. rewrite zlen_snoc. split; [f_equal; lia|done].
  - destruct (wf_order _ Hwf p Hin) as (c & Hc & _). unfold emitOpen. rewrite Hc.
    unfold balance, emission, push. simpl. rewrite finals_snoc, zlen_snoc. simpl.
    split; [f_equal; lia|to_bump (sEmitted (stats a))].
Qed.

Lemma finals_app x y : zlen (finals (x ++ y)) = zlen (finals x) + zlen (finals y).
Proof. unfold finals. by rewrite filter_app, zlen_app. Qed.

(** Apart from a drain, a method neither returns records nor changes the two
    balances; a drain moves the queue to the caller. *)
Lemma step_balance a o :
  inv a ->
  u64 (balance (step a o).1) = u64 (balance a - zlen (finals (step a o).2)) /\
  u64 (emission (step a o).1) = u64 (emission a + zlen (step a o).2).
Proof.
  intros Hinv. assert (o = OpDrain \/ o <> OpDrain) as [->|Hnd]
    by (destruct o; auto; by right).
  - simpl. unfold balance, emission. simpl. unfold zlen at 2. simpl. split; f_equal; [|unfold zlen at 1; simpl]; lia.
  - replace (step a o).2 with (@nil conn_record) by (by destruct o).
    unfold zlen. simpl. rewrite Z.sub_0_r, Z.add_0_r.
    split; apply (step_preserve (fun a => u64 (_ a))); try done;
      intros allow b b' Hb Hm; by apply (move_balance allow).
Qed.

(** C5: no connection disappears from the books.  In every run, the number of
    connections ever opened is the number tracked, plus those dropped at the
    cap, plus those seen only at their close, plus the final records emitted,
    counted in 64 bits; and [Emitted] is the number of records handed out or
    still queued, open snapshots included. *)
Theorem connections_conserved o os :
  let r := run (New o) os in
  let a := r.1 in
  u64 (Z.of_nat (nextp a)) =
    u64 (sOpen (StatsOf a) + sDropped (StatsOf a) + sPartial (StatsOf a) + zlen (finals (emitted r))) /\
  u64 (sEmitted (StatsOf a)) = u64 (zlen (emitted r)).
Proof.
  intros r a.
  destruct (run_ind_inv (fun a e =>
    u64 (balance a + zlen (finals e) - zlen (finals (out a))) = u64 0 /\
    u64 (emission a - zlen e + zlen (out a)) = u64 0) (New o)) with (os := os) as [[Hwf _] [Hb He]].
  - apply inv_New.
  - done.
  - intros b p e Hinv [Hb He]. pose proof (step_balance b p Hinv) as [Hb' He'].
    rewrite !finals_app, !zlen_app in *. split.
    + rewrite <- Hb. rewrite <- (Z.add_0_r (_ - _)).
      replace (balance (step b p).1 + _ - _ + 0) with
        (balance (step b p).1 + (zlen (finals e) + zlen (finals (step b p).2))) by lia.
      rewrite <- u64_add_l, Hb', u64_add_l. f_equal. lia.
    + rewrite <- He.
      replace (emission (step b p).1 - _ + _) with
        (emission (step b p).1 + (- zlen e - zlen (step b p).2)) by lia.
      rewrite <- u64_add_l, He', u64_add_l. f_equal. lia.
  - fold r in Hb, He. fold a in Hb, He, Hwf. unfold balance, emission in *. unfold StatsOf. simpl.
    rewrite (wf_size a Hwf). split.
    + rewrite <- (Z.add_0_r (Z.of_nat (nextp a))), <- (u64_add_r _ 0), <- Hb, u64_add_r.
      f_equal. unfold zlen. lia.
    + rewrite <- (Z.add_0_r (zlen (emitted r))), <- (u64_add_r _ 0), <- He, u64_add_r. f_equal. lia.
Qed.

(** ** Honest records *)

(** What a record that leaves the assembler may say. *)
Definition record_honest (r : conn_record) : Prop :=
  ConnRecord.CloseReason r ∈ close_reasons /\
  (ConnRecord.BytesKnown r = false ->
     ConnRecord.Upload r = 0 /\ ConnRecord.Download r = 0 /\ ConnRecord.StalledAt r = 0) /\
  (ConnRecord.Open r = true -> ConnRecord.CloseReason r = CloseUnknown) /\
  (ConnRecord.Open r = false -> ConnRecord.SrcIP r <> "" \/ ConnRecord.DstHost r <> "").

Lemma partial_record_false r :
  partial_record r = false -> ConnRecord.SrcIP r <> "" \/ ConnRecord.DstHost r <> "".
Proof.
  unfold partial_record. intros [H|H]%andb_false_iff; apply String.eqb_neq in H; auto.
Qed.

Lemma final_record_honest g c cand t src :
  honest c -> cand_ok c cand -> partial_record (final_record g c cand t src) = false ->
  record_honest (final_record g c cand t src).
Proof.
  intros (H1 & H2 & H3 & H4 & H5 & H6) Hok Hp.
  assert (Hr : reason cand ∈ close_reasons).
  { destruct Hok as [?|[-> Hne]]; auto. }
  split; [|split; [|split; [done|]]].
  - simpl. case_match; [|done]. unfold close_reasons. left.
  - simpl. rewrite H1. auto.
  - intros _. by apply partial_record_false.
Qed.

Lemma move_honest allow a a' :
  inv a -> move allow a a' -> Forall record_honest (out a) -> Forall record_honest (out a').
Proof.
  intros [Hwf Hh] Hm Ho. destruct Hm as [p c c' Hin Hc|p Hin|p c cand t src Hin Hc Hok|p Hp
    |l t _ Hno Hcap|p now Hin| |]; try done.
  - destruct (wf_order _ Hwf p Hin) as (c & Hc & _).
    by destruct (indexSrc_spec a p c Hwf Hin Hc) as [_ [->|(key & src' & ->)]].
  - rewrite (fin_out _ _ _ _ _ (finish_spec a p c cand t src Hwf Hin Hc)).
    case_match eqn:Hp; [done|]. apply Forall_app. split; [done|]. apply Forall_singleton.
    apply final_record_honest; eauto.
  - assert (Hin : p ∈ order a) by (destruct (order a); [done|]; simpl in Hp; simplify_eq; left).
    destruct (wf_order _ Hwf p Hin) as (c & Hc & _).
    destruct (evict_facts a p c Hwf Hp Hc) as (_ & _ & _ & -> & _). done.
  - destruct (wf_order _ Hwf p Hin) as (c & Hc & _). unfold emitOpen. rewrite Hc.
    apply Forall_app. split; [done|]. apply Forall_singleton.
    destruct (Hh p c Hc) as (H1 & H2 & _). split; [simpl; unfold close_reasons; left|].
    split; [simpl; rewrite H1; auto|done].
Qed.

Lemma step_out_honest a o :
  inv a -> Forall record_honest (out a) ->
  Forall record_honest ((step a o).2 ++ out (step a o).1).
Proof.
  intros Hinv Ho. apply Forall_app. split; [by destruct o|].
  apply (step_keep (fun b => Forall record_honest (out b))); auto.
  intros allow b b' Hb Hm. by eapply move_honest.
Qed.


(** ** A restart *)

(** The tracked connections in creation order. *)
Definition tracked (a : Assembler) : list conn := omap (fun p => heap a !! p) (order a).

Definition restart_records (a : Assembler) (t : time) : list conn_record :=
  filter (fun r => partial_record r = false)
    ((fun c => final_record (gen a) c core_restart t durFromClock) <$> tracked a).

Lemma sweep_all t ps : forall a,
  inv a -> NoDup ps -> (forall p, p ∈ ps -> p ∈ order a) ->
  let a' := foldl (fun a p => finish a p core_restart t durFromClock) a ps in
  inv a' /\ order a' = filter (fun q => q ∉ ps) (order a) /\ gen a' = gen a /\
  sSwept (stats a') = sSwept (stats a) /\
  out a' = out a ++ filter (fun r => partial_record r = false)
    ((fun c => final_record (gen a) c core_restart t durFromClock) <$> omap (fun p => heap a !! p) ps).
Proof.
  induction ps as [|p ps IH]; intros a Hinv Hnd Hsub; simpl.
  { split; [done|]. rewrite app_nil_r. split; [|done].
    symmetry. apply filter_all. intros q _. apply not_elem_of_nil. }
  apply NoDup_cons in Hnd as [Hp Hnd]. pose proof Hinv as [Hwf _].
  assert (Hin : p ∈ order a) by (apply Hsub; left).
  destruct (wf_order _ Hwf p Hin) as (c & Hc & _).
  pose proof (finish_spec a p c core_restart t durFromClock Hwf Hin Hc) as Hf.
  assert (Hinv1 : inv (finish a p core_restart t durFromClock)).
  { eapply (move_inv (fun _ => False)); [|exact Hinv]. eapply move_finish; [done|done|].
    left. unfold close_reasons. simpl. set_solver. }
  destruct Hf as [_ _ Hg Hh _ _ Ho _ _ Hout Hst].
  set (a1 := finish a p core_restart t durFromClock) in *.
  destruct (IH a1 Hinv1 Hnd) as (H1 & H2 & H3 & H4 & H5).
  { intros q Hq. rewrite Ho. apply list_elem_of_filter. split; [by intros ->|].
    apply Hsub. by right. }
  split; [done|]. rewrite H2, H3, H4, H5, Hg, Ho, Hst, Hout. clear IH H1 H2 H3 H4 H5 Hst.
  split.
  { rewrite list_filter_filter. apply list_filter_iff. intros q. rewrite not_elem_of_cons. tauto. }
  split; [done|]. split; [by destruct (partial_record _)|].
  rewrite Hc. simpl.
  assert (Hom : omap (fun q => heap a1 !! q) ps = omap (fun q => heap a !! q) ps).
  { apply omap_ext_in. intros q Hq. rewrite Hh, lookup_insert_ne; [done|]. by intros ->. }
  rewrite Hom. destruct (partial_record (final_record _ _ _ _ _)) eqn:Hpr.
  - rewrite filter_cons_False by congruence. done.
  - rewrite filter_cons_True by done. by rewrite <- app_assoc.
Qed.

(** a core restart sweeps everything and loses nothing.  Every tracked
    connection is closed as [CloseCoreRestart], in creation order, under the
    generation it was opened in; nothing stays tracked or remembered as done,
    the new generation is in force, and the blast radius is counted. *)
Theorem restart_sweeps o os g clock t :
  let a := (run (New o) os).1 in
  let u := if is_zero_time t then clock else t in
  let a' := CoreRestart a g clock t in
  out a' = out a ++ restart_records a u /\
  order a' = [] /\ (forall id, Tracked a' id = false) /\ gen a' = g /\
  sSwept (StatsOf a') = u64 (sSwept (StatsOf a) + sOpen (StatsOf a)).
Proof.
  intros a u a'.
  assert (Hinv : inv a) by (apply (run_ind_inv (fun _ _ => True)); auto using inv_New).
  pose proof Hinv as [Hwf _].
  destruct (sweep_all u (order a) a Hinv (wf_nodup _ Hwf)) as ([Hwf' _] & Ho & Hg & Hs & Hout); [done|].
  unfold a'. rewrite restart_eq. fold u. unfold restart_sweep.
  set (b := foldl _ a (order a)) in *.
  assert (Hnil : order b = []).
  { rewrite Ho. apply filter_none. intros q Hq. tauto. }
  split; [done|]. split; [done|]. split; [|split; [done|]].
  - intros id. unfold Tracked. simpl. rewrite bool_decide_eq_false_2.
    + unfold DoneSet.has. simpl. apply bool_decide_eq_false. set_solver.
    + intros [p Hp]. destruct (wf_open _ Hwf' _ _ Hp) as [Hin _]. rewrite Hnil in Hin. set_solver.
  - unfold StatsOf. simpl. rewrite Hs, u64_add_r, (wf_size a Hwf). done.
Qed.

(** ** A tick settles what time decides *)

(** A connection a tick leaves alone: seen within the orphan limit, not
    waiting beyond the grace for a second half close unless it is still in the
    connection table, and reported open recently enough. *)
Definition settled (a : Assembler) (now : time) (c : conn) : Prop :=
  time_sub now (lastSeenAt c) < oOrphanTTL (opts a) /\
  (firstHalfAt c = 0 \/ time_sub now (firstHalfAt c) < oHalfCloseGrace (opts a) \/
   stillListed a c = true) /\
  time_sub now (lastEmitAt c) < oSnapshotEvery (opts a).

Definition tick_frame (b b' : Assembler) (p : nat) : Prop :=
  opts b' = opts b /\ snapSeq b' = snapSeq b /\
  (forall q, q <> p -> heap b' !! q = heap b !! q) /\ (forall q, q ∈ order b' -> q ∈ order b).

Lemma finish_frame b p c cand t src :
  wf b -> p ∈ order b -> heap b !! p = Some c ->
  tick_frame b (finish b p cand t src) p /\ p ∉ order (finish b p cand t src).
Proof.
  intros Hwf Hin Hc. destruct (finish_spec b p c cand t src Hwf Hin Hc) as [_ H1 _ H2 _ _ H3 _ H4 _ _].
  split; [split; [done|split; [done|]]|].
  - rewrite H2, H3. split; [intros q Hne; by rewrite lookup_insert_ne|].
    intros q Hq. by apply list_elem_of_filter in Hq as [_ ?].
  - rewrite H3. intros Hp. by apply list_elem_of_filter in Hp as [? _].
Qed.

Lemma evalStall_times c now f q :
  lastSeenAt (evalStall c now f q) = lastSeenAt c /\ firstHalfAt (evalStall c now f q) = firstHalfAt c /\
  lastEmitAt (evalStall c now f q) = lastEmitAt c /\ sampled (evalStall c now f q) = sampled c /\
  lastSnapSeq (evalStall c now f q) = lastSnapSeq c.
Proof. unfold evalStall. repeat (case_match; simpl); done. Qed.

Lemma time_sub_self t : time_sub t t = 0.
Proof. unfold time_sub, min_i64, max_i64. rewrite Z.sub_diag. done. Qed.

Lemma tick_one_settles now b p :
  inv b -> p ∈ order b -> 0 < oSnapshotEvery (opts b) ->
  tick_frame b (tick_one now b p) p /\
  (p ∈ order (tick_one now b p) ->
   exists c, heap (tick_one now b p) !! p = Some c /\ settled b now c).
Proof.
  intros [Hwf Hh] Hin Hpos. destruct (wf_order _ Hwf p Hin) as (c & Hc & _).
  unfold tick_one. rewrite Hc. destruct (_ && _ && negb (stillListed b c)) eqn:Ehalf.
  { destruct (finish_frame b p c (close c) (firstHalfAt c) durFromCore Hwf Hin Hc) as [Hf Hout].
    split; [done|]. intros Hin'. done. }
  destruct (time_sub now (lastSeenAt c) >=? oOrphanTTL (opts b)) eqn:Ettl.
  { set (b1 := b <| stats ::= _ |>).
    assert (Hwf1 : wf b1) by (eapply wf_same_index; [exact Hwf|repeat split|apply Hwf]).
    destruct (finish_frame b1 p c (orphan c) now durFromCore Hwf1 Hin Hc) as [Hf Hout].
    split; [done|]. intros Hin'. done. }
  set (c1 := evalStall c now _ _).
  destruct (evalStall_times c now (oStallFloor (opts b)) (oStallQuiet (opts b)))
    as (T1 & T2 & T3 & T4 & T5). fold c1 in T1, T2, T3, T4, T5.
  assert (Hhalf : firstHalfAt c1 = 0 \/ time_sub now (firstHalfAt c1) < oHalfCloseGrace (opts b) \/
                  stillListed b c1 = true).
  { unfold stillListed in *. rewrite T2, T4, T5. unfold is_zero_time in Ehalf.
    apply andb_false_iff in Ehalf as [[Ez|Eg]%andb_false_iff|El];
      [bool_to_prop; auto..|apply negb_false_iff in El; auto]. }
  bool_to_prop. change (opts (set_conn b p c1)) with (opts b).
  destruct (time_sub now (lastEmitAt c1) >=? oSnapshotEvery (opts b)) eqn:Eem.
  - unfold emitOpen. rewrite set_conn_heap. split.
    + split; [done|]. split; [done|]. split; [|done].
      intros q Hne. simpl. by rewrite !lookup_insert_ne.
    + intros _. exists (c1 <| lastEmitAt := now |>). split; [apply lookup_insert_eq|].
      unfold settled. simpl. rewrite time_sub_self. split; [by rewrite T1|]. split; [exact Hhalf|done].
  - split.
    + split; [done|]. split; [done|]. split; [|done]. intros q Hne. simpl. by rewrite lookup_insert_ne.
    + intros _. exists c1. split; [apply lookup_insert_eq|]. bool_to_prop.
      unfold settled. rewrite T1. done.
Qed.

Lemma tick_loop now ps : forall b,
  inv b -> NoDup ps -> (forall p, p ∈ ps -> p ∈ order b) -> 0 < oSnapshotEvery (opts b) ->
  let b' := foldl (tick_one now) b ps in
  opts b' = opts b /\ snapSeq b' = snapSeq b /\ (forall q, q ∈ order b' -> q ∈ order b) /\
  (forall q, q ∉ ps -> heap b' !! q = heap b !! q) /\
  (forall p, p ∈ ps -> p ∈ order b' -> exists c, heap b' !! p = Some c /\ settled b' now c).
Proof.
  induction ps as [|p ps IH]; intros b Hb Hnd Hsub Hpos; simpl.
  { split_all; auto. intros p Hp. by apply not_elem_of_nil in Hp. }
  apply NoDup_cons in Hnd as [Hp Hnd].
  assert (Hin : p ∈ order b) by (apply Hsub; left).
  destruct (tick_one_settles now b p Hb Hin Hpos) as [(F1 & F2 & F3 & F4) Hset].
  destruct (tick_one_moves (fun _ => False) now b p Hb Hin) as [Hm Hk].
  set (b1 := tick_one now b p) in *. assert (Hb1 : inv b1) by (by eapply moves_inv).
  destruct (IH b1 Hb1 Hnd) as (G1 & G2 & G3 & G4 & G5); [|by rewrite F1|].
  { intros q Hq. apply Hk; [by intros ->|]. apply Hsub. by right. }
  split; [by rewrite G1|]. split; [by rewrite G2|]. split; [auto|]. split.
  { intros q [Hne Hq]%not_elem_of_cons. rewrite G4 by done. by apply F3. }
  intros q [->|Hq]%elem_of_cons Hq'; [|by apply G5].
  destruct (Hset (G3 _ Hq')) as (c & Hc & Hs). exists c. rewrite G4 by done. split; [done|].
  unfold settled, stillListed in *. by rewrite G1, G2, F1, F2.
Qed.

(** after a tick nothing overdue is left.  Every connection still tracked
    has been seen within the orphan limit, has not been waiting longer than
    the half-close grace for its second half unless the last poll listed it,
    and has been reported within the snapshot interval; a tick opens nothing. *)
Theorem tick_leaves_nothing_overdue o os clock now :
  let a := (run (New o) os).1 in
  let n := if is_zero_time now then clock else now in
  let a' := Tick a clock now in
  (forall p, p ∈ order a' ->
     p ∈ order a /\ exists c, heap a' !! p = Some c /\ settled a' n c).
Proof.
  intros a n a' p Hp. destruct (run_opts o os) as [Hinv Ho]. fold a in Hinv, Ho.
  destruct (tick_loop n (order a) a Hinv) as (_ & _ & Hsub & _ & Hset); [apply Hinv|done| |].
  - rewrite Ho. simpl. unfold or_default, defaultSnapshotEvery, second.
    destruct (Z.leb_spec (oSnapshotEvery o) 0); lia.
  - pose proof (Hsub p Hp) as Hin. auto.
Qed.

(** ** The outbound line, emitted twice, writes once *)

Lemma apply_outbound a p c l t :
  heap a !! p = Some c -> Line.Ev l = EventOutboundTo ->
  exists c', apply a p l t = set_conn a p c' /\ haveOutbound c' = true /\ lastSeenAt c' = t /\
    (haveOutbound c = true -> c' = c <| lastSeenAt := t |>).
Proof.
  intros Hc Hev. unfold apply. rewrite Hc, Hev, bool_decide_eq_true_2 by done. simpl.
  destruct (haveOutbound c) eqn:Ho; [by exists (c <| lastSeenAt := t |>)|].
  eexists. split; [done|]. split; [done|]. split; [|done].
  unfold observe. by repeat (case_match; simpl).
Qed.

Definition line_time (clock : time) (l : line) : time :=
  if is_zero_time (Line.At l) then clock else Line.At l.

(** A line of a connection that is tracked. *)
Lemma LineIn_live a clock l p :
  Line.HasLogID l = true -> opn a !! Line.LogID l = Some p -> Line.Ev l <> EventInboundFrom ->
  LineIn a clock l = apply a p l (line_time clock l).
Proof.
  intros Hl Ho Hev. unfold LineIn. rewrite Hl, Ho. simpl. by destruct (Line.Ev l).
Qed.

(** the duplicate outbound line writes nothing.  Whatever state the
    assembler is in, once an outbound line of a connection has been folded in,
    a second one of the same connection changes no index, no counter, no
    record and emits nothing: it only moves the instant the connection was
    last seen; if the first was ignored, so is the second. *)
Theorem outbound_line_idempotent o os k1 l1 k2 l2 :
  Line.Ev l1 = EventOutboundTo -> Line.Ev l2 = EventOutboundTo ->
  Line.HasLogID l1 = true -> Line.HasLogID l2 = true -> Line.LogID l2 = Line.LogID l1 ->
  let a1 := LineIn (run (New o) os).1 k1 l1 in
  LineIn a1 k2 l2 = a1 \/
  exists p c, opn a1 !! Line.LogID l1 = Some p /\ heap a1 !! p = Some c /\
    LineIn a1 k2 l2 = set_conn a1 p (c <| lastSeenAt := line_time k2 l2 |>).
Proof.
  intros E1 E2 H1 H2 Hid. set (a := (run (New o) os).1). intros a1.
  destruct (run_opts o os) as [Hinv _]. fold a in Hinv. pose proof Hinv as [Hwf _].
  assert (Hlive : forall b p c, opn b !! Line.LogID l1 = Some p -> heap b !! p = Some c ->
    apply b p l1 (line_time k1 l1) = a1 ->
    exists p c, opn a1 !! Line.LogID l1 = Some p /\ heap a1 !! p = Some c /\
      LineIn a1 k2 l2 = set_conn a1 p (c <| lastSeenAt := line_time k2 l2 |>)).
  { intros b p c Ho Hc <-. destruct (apply_outbound b p c l1 (line_time k1 l1) Hc E1)
      as (c' & -> & Hob & _ & _).
    exists p, c'. split; [done|]. split; [apply set_conn_heap|].
    rewrite (LineIn_live _ k2 l2 p) by (done || (simpl; congruence)).
    destruct (apply_outbound (set_conn b p c') p c' l2 (line_time k2 l2) (set_conn_heap _ _ _) E2)
      as (c2 & -> & _ & _ & Heq). by rewrite Heq. }
  destruct (opn a !! Line.LogID l1) as [p|] eqn:Ho.
  - right. destruct (wf_open _ Hwf _ _ Ho) as (_ & c & Hc & _).
    apply (Hlive a p c Ho Hc). unfold a1. symmetry. apply LineIn_live; congruence.
  - destruct (DoneSet.has (done a) (Line.LogID l1)) eqn:Hd.
    + left. assert (Ha : a1 = a) by (unfold a1, LineIn; by rewrite H1, Ho, E1, Hd).
      rewrite Ha. unfold LineIn. by rewrite H2, Hid, Ho, E2, Hd.
    + right. destruct (create_moves (fun _ => True) a l1 (line_time k1 l1) Hinv I Ho) as (_ & _ & Hh).
      eapply (Hlive (create a l1 (line_time k1 l1)).1 (create a l1 (line_time k1 l1)).2).
      * unfold create. simpl. apply lookup_insert_eq.
      * exact Hh.
      * unfold a1, LineIn. rewrite H1, Ho, E1, Hd. simpl. fold (line_time k1 l1).
        by destruct (create a l1 (line_time k1 l1)).
Qed.

(** ** Two half closes settle the same way in either order *)

Definition is_half_close (l : line) : bool :=
  match Line.Ev l with EventFinished | EventClosed => true | _ => false end.

(** The close evidence a half-close line carries. *)
Definition evidence (l : line) : closeCandidate :=
  let empty := match Line.Ev l with
               | EventFinished => CloseEOF
               | _ => if Line.Packet l then CloseUDPIdle else CloseCanceled
               end in
  mkCandidate (closeReasonFor (Line.Error l) empty) (Line.Error l) (evidenceRank (Line.Error l) empty).

Definition stronger (k e : closeCandidate) : closeCandidate := if rank e >? rank k then e else k.

Lemma close_offer c e : close (offer c e) = stronger (close c) e.
Proof. unfold offer, stronger. by case_match. Qed.

Lemma observe_close c l t :
  close (observe c l t) = close c /\ closedUp (observe c l t) = closedUp c /\
  closedDown (observe c l t) = closedDown c /\
  ConnRecord.SrcIP (record (observe c l t)) = ConnRecord.SrcIP (record c).
Proof. unfold observe. by repeat (case_match; simpl). Qed.

Lemma set_conn_twice a p c c' : set_conn (set_conn a p c) p c' = set_conn a p c'.
Proof. unfold set_conn, update_field. simpl. by rewrite insert_insert_eq. Qed.

(** The connection after a half-close line, before it is finished. *)
Definition after_half (c : conn) (l : line) (t : time) : conn :=
  half_closed (offer (observe c l t) (evidence l)) l t.

Lemma after_half_facts c l t :
  close (after_half c l t) = stronger (close c) (evidence l) /\
  ConnRecord.SrcIP (record (after_half c l t)) = ConnRecord.SrcIP (record c) /\
  (Line.Dir l = DirectionUpload ->
     closedUp (after_half c l t) = true /\ closedDown (after_half c l t) = closedDown c) /\
  (Line.Dir l = DirectionDownload ->
     closedUp (after_half c l t) = closedUp c /\ closedDown (after_half c l t) = true).
Proof.
  destruct (observe_close c l t) as (O1 & O2 & O3 & O4).
  unfold after_half, half_closed.
  rewrite <- O1, <- close_offer, <- O2, <- O3, <- O4.
  unfold offer. repeat (case_match; simpl); split_all; done.
Qed.

Lemma after_half_ident c l t : same_ident c (after_half c l t).
Proof.
  destruct (observe_step c l t) as [(O1 & O2 & O3) _]. unfold after_half.
  assert (Hoff : same_ident (observe c l t) (offer (observe c l t) (evidence l)))
    by (unfold offer; by case_match).
  destruct Hoff as (F1 & F2 & F3). rewrite O1 in F1. rewrite O2 in F2. rewrite O3 in F3.
  unfold half_closed, same_ident. repeat (case_match; simpl); done.
Qed.

Lemma apply_half a p c l t :
  heap a !! p = Some c -> is_half_close l = true ->
  apply a p l t =
    let c' := after_half c l t in
    let a' := set_conn a p c' in
    if closedUp c' && closedDown c' then finish a' p (close c') t durFromCore else a'.
Proof.
  intros Hc Hl. unfold is_half_close in Hl. unfold apply, after_half, evidence. rewrite Hc.
  destruct (Line.Ev l); try done; cbn zeta beta iota; rewrite bool_decide_eq_false_2 by done;
    unfold halfClosed; rewrite set_conn_heap, set_conn_twice; done.
Qed.

Lemma stronger_comm k e1 e2 :
  rank e1 <> rank e2 -> stronger (stronger k e1) e2 = stronger (stronger k e2) e1.
Proof.
  intros Hne. unfold stronger. rewrite !Z.gtb_ltb.
  destruct (Z.ltb_spec (rank k) (rank e1)), (Z.ltb_spec (rank k) (rank e2)); simpl;
    rewrite ?Z.gtb_ltb;
    destruct (Z.ltb_spec (rank e1) (rank e2)), (Z.ltb_spec (rank e2) (rank e1)); try lia; try done;
    repeat case_match; bool_to_prop; try lia; done.
Qed.

Lemma half_not_from l : is_half_close l = true -> Line.Ev l <> EventInboundFrom.
Proof. unfold is_half_close. intros H E. by rewrite E in H. Qed.

(** Two half closes of opposite directions finish the connection, with the
    strongest evidence seen. *)
Lemma two_halves a k p c l1 l2 :
  inv a -> opn a !! Line.LogID l1 = Some p -> heap a !! p = Some c ->
  is_half_close l1 = true -> is_half_close l2 = true ->
  Line.HasLogID l1 = true -> Line.HasLogID l2 = true -> Line.LogID l2 = Line.LogID l1 ->
  closedUp c = false -> closedDown c = false -> ConnRecord.SrcIP (record c) <> "" ->
  (Line.Dir l1 = DirectionUpload /\ Line.Dir l2 = DirectionDownload) \/
  (Line.Dir l1 = DirectionDownload /\ Line.Dir l2 = DirectionUpload) ->
  let best := stronger (stronger (close c) (evidence l1)) (evidence l2) in
  exists r, out (LineIn (LineIn a k l1) k l2) = out a ++ [r] /\
    opn (LineIn (LineIn a k l1) k l2) !! Line.LogID l1 = None /\
    ConnRecord.CloseReason r = (if String.eqb (reason best) "" then CloseUnknown else reason best) /\
    ConnRecord.CloseError r = err best.
Proof.
  intros Hinv Ho Hc Hh1 Hh2 Hi1 Hi2 Hid Hu Hd Hip Hdir best.
  pose proof Hinv as [Hwf _].
  destruct (wf_open _ Hwf _ _ Ho) as (Hin & c0 & Hc0 & Hlog). rewrite Hc in Hc0. injection Hc0 as <-.
  assert (Hinv1 : inv (LineIn a k l1)) by (apply (step_inv a (OpLine k l1) Hinv)).
  revert Hinv1. rewrite (LineIn_live a k l1 p) by auto using half_not_from.
  rewrite (apply_half a p c) by done. cbv zeta. set (t1 := line_time k l1). set (c1 := after_half c l1 t1).
  destruct (after_half_facts c l1 t1) as (K1 & I1 & U1 & D1). fold c1 in K1, I1, U1, D1.
  assert (Hone : closedUp c1 && closedDown c1 = false).
  { destruct Hdir as [[E _]|[E _]]; [destruct (U1 E) as [_ ->]; by rewrite Hd, andb_false_r
      |destruct (D1 E) as [-> _]; by rewrite Hu]. }
  rewrite Hone. intros Hinv1. set (a1 := set_conn a p c1) in *. pose proof Hinv1 as [Hwf1 _].
  rewrite (LineIn_live a1 k l2 p) by (auto using half_not_from; simpl; congruence).
  rewrite (apply_half a1 p c1 l2) by (done || apply set_conn_heap). cbv zeta.
  set (t2 := line_time k l2). set (c2 := after_half c1 l2 t2).
  destruct (after_half_facts c1 l2 t2) as (K2 & I2 & U2 & D2). fold c2 in K2, I2, U2, D2.
  assert (Hboth : closedUp c2 && closedDown c2 = true).
  { destruct Hdir as [[E1 E2]|[E1 E2]].
    - destruct (D2 E2) as [-> ->]. by destruct (U1 E1) as [-> _].
    - destruct (U2 E2) as [-> ->]. by destruct (D1 E1) as [_ ->]. }
  rewrite Hboth.
  assert (Hwf2 : wf (set_conn a1 p c2)).
  { eapply (wf_set_conn a1 p c1); [done|apply set_conn_heap|apply after_half_ident]. }
  pose proof (finish_spec (set_conn a1 p c2) p c2 (close c2) t2 durFromCore Hwf2 Hin
    (set_conn_heap _ _ _)) as [_ _ _ _ _ Hopn _ _ _ Hout _].
  exists (final_record (gen a) c2 (close c2) t2 durFromCore).
  split; [rewrite Hout; unfold partial_record; simpl; rewrite I2, I1;
          by rewrite (proj2 (String.eqb_neq _ _) Hip)|].
  split; [|simpl; by rewrite K2, K1].
  destruct (after_half_ident c1 l2 t2) as [L2 _]. destruct (after_half_ident c l1 t1) as [L1 _].
  fold c2 in L2. fold c1 in L1. rewrite Hopn, L2, L1, Hlog. apply lookup_delete_eq.
Qed.

(** the order of the two half closes does not matter.  When the upload and
    the download half of a connection carry evidence of different strength,
    the connection is finished with the same reason and the same error text in
    whichever order the two lines arrive, and the evidence is the strongest
    seen, so an error on one direction is never hidden by a clean other one. *)
Theorem half_close_order_independent o os k p c lu ld :
  let a := (run (New o) os).1 in
  opn a !! Line.LogID lu = Some p -> heap a !! p = Some c ->
  is_half_close lu = true -> is_half_close ld = true ->
  Line.HasLogID lu = true -> Line.HasLogID ld = true -> Line.LogID ld = Line.LogID lu ->
  Line.Dir lu = DirectionUpload -> Line.Dir ld = DirectionDownload ->
  closedUp c = false -> closedDown c = false -> ConnRecord.SrcIP (record c) <> "" ->
  rank (evidence lu) <> rank (evidence ld) ->
  exists r1 r2,
    out (LineIn (LineIn a k lu) k ld) = out a ++ [r1] /\
    out (LineIn (LineIn a k ld) k lu) = out a ++ [r2] /\
    ConnRecord.CloseReason r1 = ConnRecord.CloseReason r2 /\
    ConnRecord.CloseError r1 = ConnRecord.CloseError r2 /\
    (rank (close c) < rank (evidence lu) -> rank (evidence ld) < rank (evidence lu) ->
     ConnRecord.CloseError r1 = Line.Error lu) /\
    (rank (close c) < rank (evidence ld) -> rank (evidence lu) < rank (evidence ld) ->
     ConnRecord.CloseError r1 = Line.Error ld).
Proof.
  intros a Ho Hc Hh1 Hh2 Hi1 Hi2 Hid Hd1 Hd2 Hu Hd Hip Hne.
  destruct (run_opts o os) as [Hinv _]. fold a in Hinv.
  destruct (two_halves a k p c lu ld) as (r1 & O1 & _ & R1 & E1); auto.
  destruct (two_halves a k p c ld lu) as (r2 & O2 & _ & R2 & E2); auto; [congruence|].
  rewrite (stronger_comm _ (evidence ld) (evidence lu)) in R2, E2 by congruence.
  exists r1, r2. split; [done|]. split; [done|]. split; [congruence|]. split; [congruence|].
  rewrite E1. unfold stronger. rewrite !Z.gtb_ltb. split; intros Hs Hr.
  - rewrite (proj2 (Z.ltb_lt _ _) Hs). by rewrite (proj2 (Z.ltb_ge _ _)) by lia.
  - destruct (Z.ltb_spec (rank (close c)) (rank (evidence lu)));
      by rewrite (proj2 (Z.ltb_lt _ _)) by lia.
Qed.

(** ** Which ids a method can make tracked *)

Lemma Tracked_spec a id :
  Tracked a id = true <-> is_Some (opn a !! id) \/ DoneSet.has (done a) id = true.
Proof. unfold Tracked. rewrite orb_true_iff, bool_decide_eq_true. done. Qed.

(** A connection that leaves the map joins the done set, and nothing else
    joins either; only an allowed id is opened. *)
Lemma move_tracked allow a a' id :
  inv a -> move allow a a' -> Tracked a' id = true -> Tracked a id = true \/ allow id.
Proof.
  intros [Hwf _] Hm. rewrite !Tracked_spec.
  destruct Hm as [p c c' Hin Hc|p Hin|p c cand t src Hin Hc Hok|p Hp
    |l t Hal Hno Hcap|p now Hin| |]; auto.
  - destruct (wf_order _ Hwf p Hin) as (c & Hc & _).
    destruct (indexSrc_spec a p c Hwf Hin Hc) as [_ [->|(key & src' & ->)]]; auto.
  - destruct (finish_spec a p c cand t src Hwf Hin Hc) as [_ _ _ _ _ -> _ -> _ _ _].
    destruct (wf_order _ Hwf p Hin) as (c1 & Hc1 & _ & Hop). rewrite Hc in Hc1. injection Hc1 as <-.
    intros [[q [_ Hq]%lookup_delete_Some]|Hd]; [left; left; eauto|].
    apply (DoneSetFacts.has_add _ _ _ (wf_done _ Hwf)) in Hd as [Hd| ->]; left; [by right|left; eauto].
  - assert (Hin : p ∈ order a) by (destruct (order a); [done|]; simpl in Hp; simplify_eq; left).
    destruct (wf_order _ Hwf p Hin) as (c & Hc & _ & Hop).
    destruct (evict_facts a p c Hwf Hp Hc) as (_ & _ & _ & _ & _ & -> & _ & -> & _).
    intros [[q [_ Hq]%lookup_delete_Some]|Hd]; [left; left; eauto|].
    apply (DoneSetFacts.has_add _ _ _ (wf_done _ Hwf)) in Hd as [Hd| ->]; left; [by right|left; eauto].
  - simpl. intros [[q [[<- _]|[_ Hq]]%lookup_insert_Some]|Hd]; eauto.
  - destruct (wf_order _ Hwf p Hin) as (c & Hc & _). unfold emitOpen. rewrite Hc. auto.
Qed.

Lemma moves_tracked allow a a' id :
  inv a -> rtc (move allow) a a' -> Tracked a' id = true -> Tracked a id = true \/ allow id.
Proof.
  intros Hinv Hm. induction Hm as [|x y z Hxy _ IH]; [auto|]. intros Hz.
  destruct IH as [Hy|]; [by eapply move_inv|done| |auto]. by apply (move_tracked allow x y).
Qed.
End WithVocabulary.

(** ** Concrete runs *)
Section Samples.

#[local] Existing Instance sample_vocabulary.

Definition sample_options : Options := mkOptions "node-a" 1 0 0 0 0 0 0.
Definition t0 : time := 1000 * second.

Definition sample_line (id : Z) (ev : Event) : line :=
  blank_line <| Line.At := t0 |> <| Line.LogID := id |> <| Line.HasLogID := true |> <| Line.Ev := ev |>.

(** A connection accepted from 10.0.0.9:40000. *)
Definition sample_open : list op :=
  [OpLine 0 (sample_line 7 EventInboundFrom <| Line.SrcIP := "10.0.0.9"%string |>
               <| Line.SrcPort := 40000 |> <| Line.Kind := TagInbound |>)].

Definition sample_up : line := sample_line 7 EventClosed <| Line.Dir := DirectionUpload |>.
Definition sample_down : line := sample_line 7 EventFinished <| Line.Dir := DirectionDownload |>.

Lemma tick_leaves_nothing_overdue_witness :
  exists c, heap (Tick (run (New sample_options) sample_open).1 0 (t0 + second)) !! 0%nat = Some c /\
    settled (Tick (run (New sample_options) sample_open).1 0 (t0 + second)) (t0 + second) c.
Proof.
  refine (proj2 (tick_leaves_nothing_overdue sample_options sample_open 0 (t0 + second) 0%nat _)).
  vm_compute. left.
Defined.

Lemma outbound_line_idempotent_witness :
  LineIn (LineIn (run (New sample_options) sample_open).1 0 (sample_line 7 EventOutboundTo)) 0
    (sample_line 7 EventOutboundTo) =
    LineIn (run (New sample_options) sample_open).1 0 (sample_line 7 EventOutboundTo) \/
  exists p c, opn (LineIn (run (New sample_options) sample_open).1 0 (sample_line 7 EventOutboundTo)) !! 7
      = Some p /\
    heap (LineIn (run (New sample_options) sample_open).1 0 (sample_line 7 EventOutboundTo)) !! p = Some c /\
    LineIn (LineIn (run (New sample_options) sample_open).1 0 (sample_line 7 EventOutboundTo)) 0
      (sample_line 7 EventOutboundTo) =
    set_conn (LineIn (run (New sample_options) sample_open).1 0 (sample_line 7 EventOutboundTo)) p
      (c <| lastSeenAt := t0 |>).
Proof.
  exact (outbound_line_idempotent sample_options sample_open 0 (sample_line 7 EventOutboundTo) 0
           (sample_line 7 EventOutboundTo) eq_refl eq_refl eq_refl eq_refl eq_refl).
Defined.

Lemma half_close_order_independent_witness :
  exists r1 r2,
    out (LineIn (LineIn (run (New sample_options) sample_open).1 0 sample_up) 0 sample_down) = [r1] /\
    out (LineIn (LineIn (run (New sample_options) sample_open).1 0 sample_down) 0 sample_up) = [r2] /\
    ConnRecord.CloseReason r1 = ConnRecord.CloseReason r2.
Proof.
  destruct (heap (run (New sample_options) sample_open).1 !! 0%nat) as [c|] eqn:Hc;
    [|vm_compute in Hc; discriminate Hc].
  assert (Hf : closedUp c = false /\ closedDown c = false /\ ConnRecord.SrcIP (record c) <> ""%string).
  { vm_compute in Hc. injection Hc as <-. split; [reflexivity|]. split; [reflexivity|]. discriminate. }
  destruct Hf as (Hu & Hd & Hip).
  destruct (half_close_order_independent sample_options sample_open 0 0%nat c sample_up sample_down
              eq_refl Hc eq_refl eq_refl eq_refl eq_refl eq_refl eq_refl eq_refl Hu Hd Hip
              ltac:(vm_compute; discriminate)) as (r1 & r2 & H1 & H2 & H3 & _).
  exists r1, r2. split; [exact H1|]. split; [exact H2|exact H3].
Defined.
End Samples.
End AsmProps.
