(* ===== verification/TracePolicy.v ===== *)
(** * The trace policy (internal/tracepolicy/tracepolicy.go)

    The node's collection policy merged with the trace sessions running on it:
    what verbosity to subscribe at, and which sessions a line belongs to.  The
    package is pure; the level order of the SDK is a parameter. *)
From S2P Require Import Prelude GoStrings SingboxLog SDK.

Local Open Scope Z_scope.

Record Decision_ := mkDecision { Keep : bool; SessionIDs : list string; DLevel : string }.

Record Set_ := mkSet {
  nodeEnabled : bool;
  nodeLevel : string;
  sessions : list TraceAgentSession;
  subscribe : string;
  expiresNext : time
}.
#[export] Instance Set_eta : Etable Set_ := fun s =>
  mkSet (nodeEnabled s) (nodeLevel s) (sessions s) (subscribe s) (expiresNext s).

(** The zero value of [Set]. *)
Definition zero_set : Set_ := mkSet false "" [] "" 0.

Section Policy.
Context `{L : TraceLevels}.

Definition normalizeLevel (l : string) : string :=
  let candidate := to_lower (trim_space l) in
  if ValidTraceLevel candidate then candidate else TraceLevelInfo.

Definition cleanStrings (ins : list string) : list string :=
  filter (fun v => v <> ""%string) (trim_space <$> ins).

Definition normalizeSession (s : TraceAgentSession) : option TraceAgentSession :=
  let s := s <| sID ::= trim_space |> in
  if String.eqb (sID s) "" then None
  else Some (s <| sLevel ::= normalizeLevel |> <| sUserNames ::= cleanStrings |>
               <| sInboundTags ::= cleanStrings |> <| sDstPatterns ::= cleanStrings |>).

(** One iteration of the loop of [Build]. *)
Definition build_step (now : time) (s : Set_) (raw : TraceAgentSession) : Set_ :=
  match normalizeSession raw with
  | None => s
  | Some sess =>
      if negb (time_after (sExpiresAt sess) now) then s
      else
        let s := s <| sessions ::= fun l => l ++ [sess] |> in
        let s := if TraceLevelAtLeast (sLevel sess) (subscribe s)
                 then s <| subscribe := sLevel sess |> else s in
        if is_zero_time (expiresNext s) || time_before (sExpiresAt sess) (expiresNext s)
        then s <| expiresNext := sExpiresAt sess |> else s
  end.

Definition by_id (a b : TraceAgentSession) : bool := String.leb (sID a) (sID b).

Definition Build (cfg : TraceAgentConfig) (now : time) : Set_ :=
  let level := normalizeLevel (pLevel (cPolicy cfg)) in
  let s := mkSet (pEnabled (cPolicy cfg)) level [] TraceLevelInfo 0 in
  let s := if nodeEnabled s then s <| subscribe := nodeLevel s |> else s in
  let s := foldl (build_step now) s (cSessions cfg) in
  s <| sessions ::= insertion_sort by_id |>.

Definition SubscribeLevel (s : Set_) : string :=
  if String.eqb (subscribe s) "" then TraceLevelInfo else subscribe s.

Definition Enabled (s : Set_) : bool := nodeEnabled s || (0 <? zlen (sessions s)).

Definition containsExact (values : list string) (want : string) : bool :=
  if String.eqb want "" then false else existsb (fun v => String.eqb v want) values.

Definition matchesInboundTag (tags : list string) (l : line) : bool :=
  existsb (fun t => String.eqb t (Line.TagName l) || String.eqb t (Line.Tag l)) tags.

Definition matchesDstPattern (patterns : list string) (dstHost : string) : bool :=
  if String.eqb dstHost "" then false
  else let host := to_lower dstHost in existsb (fun p => contains host (to_lower p)) patterns.

Definition sessionMatches (sess : TraceAgentSession) (l : line) (user dstHost : string) : bool :=
  if (0 <? zlen (sUserNames sess)) && negb (containsExact (sUserNames sess) user) then false
  else if (0 <? zlen (sInboundTags sess)) && negb (matchesInboundTag (sInboundTags sess) l) then false
  else if (0 <? zlen (sDstPatterns sess)) && negb (matchesDstPattern (sDstPatterns sess) dstHost)
  then false else true.

(** One iteration of the loop of [Match]: the ids collected and the most
    verbose level among them. *)
Definition match_step (lineLevel : string) (l : line) (user dstHost : string)
    (acc : list string * string) (sess : TraceAgentSession) : list string * string :=
  if negb (TraceLevelAtLeast (sLevel sess) lineLevel) then acc
  else if negb (sessionMatches sess l user dstHost) then acc
  else (acc.1 ++ [sID sess],
        if String.eqb acc.2 "" || TraceLevelAtLeast (sLevel sess) acc.2 then sLevel sess else acc.2).

Definition Match (s : Set_) (l : line) (user dstHost : string) : Decision_ :=
  if negb (Enabled s) then mkDecision false [] ""
  else
    let lineLevel := normalizeLevel (Line.Level l) in
    let '(ids, best) := foldl (match_step lineLevel l user dstHost) ([], ""%string) (sessions s) in
    let floorKeeps := nodeEnabled s && TraceLevelAtLeast (nodeLevel s) lineLevel in
    let keep := floorKeeps || (0 <? zlen ids) in
    mkDecision keep ids (if floorKeeps then nodeLevel s else if keep then best else "").

Definition PolicyOf (s : Set_) : TracePolicyCfg := 
  mkPolicy (nodeEnabled s) (nodeLevel s) 0 "" "" None.
Definition ActiveSessions (s : Set_) : list TraceAgentSession := sessions s.
Definition ExpiresNext (s : Set_) : time := expiresNext s.

(** ** What [Build] keeps *)

(** A session as [Build] uses it, if it is usable and still running. *)
Definition running_session (now : time) (raw : TraceAgentSession) : option TraceAgentSession :=
  match normalizeSession raw with
  | Some sess => if time_after (sExpiresAt sess) now then Some sess else None
  | None => None
  end.

Definition running (cfg : TraceAgentConfig) (now : time) : list TraceAgentSession :=
  omap (running_session now) (cSessions cfg).

(** The earliest expiry of the sessions, 0 when there is none. *)
Definition earliest (l : list TraceAgentSession) : time :=
  foldl (fun e s => if is_zero_time e || time_before (sExpiresAt s) e then sExpiresAt s else e) 0 l.

(** The most verbose level among the sessions and a starting level. *)
Definition most_verbose (start : string) (l : list TraceAgentSession) : string :=
  foldl (fun m s => if TraceLevelAtLeast (sLevel s) m then sLevel s else m) start l.

Definition floor_level (cfg : TraceAgentConfig) : string :=
  if pEnabled (cPolicy cfg) then normalizeLevel (pLevel (cPolicy cfg)) else TraceLevelInfo.

Lemma build_loop now raws : forall s,
  foldl (build_step now) s raws =
    let run := omap (running_session now) raws in
    s <| sessions ::= fun l => l ++ run |>
      <| subscribe := most_verbose (subscribe s) run |>
      <| expiresNext := foldl (fun e s => if is_zero_time e || time_before (sExpiresAt s) e
                                          then sExpiresAt s else e) (expiresNext s) run |>.
Proof.
  induction raws as [|raw raws IH]; intros s; simpl.
  { unfold update_field. simpl. rewrite app_nil_r. by destruct s. }
  rewrite IH. unfold build_step, running_session.
  destruct (normalizeSession raw) as [sess|]; [|done].
  destruct (time_after (sExpiresAt sess) now); simpl; [|done].
  destruct (TraceLevelAtLeast (sLevel sess) (subscribe s)); simpl;
    destruct (is_zero_time (expiresNext s) || time_before (sExpiresAt sess) (expiresNext s));
    unfold update_field; simpl; by rewrite <- app_assoc.
Qed.

(** The loops of [Build] in closed form. *)
Lemma Build_eq cfg now :
  Build cfg now = mkSet (pEnabled (cPolicy cfg)) (normalizeLevel (pLevel (cPolicy cfg)))
    (insertion_sort by_id (running cfg now)) (most_verbose (floor_level cfg) (running cfg now))
    (earliest (running cfg now)).
Proof.
  unfold Build. rewrite build_loop. unfold floor_level, running, earliest, update_field. simpl.
  by destruct (pEnabled (cPolicy cfg)).
Qed.

Lemma elem_of_running cfg now sess :
  sess ∈ running cfg now <->
  exists raw, raw ∈ cSessions cfg /\ normalizeSession raw = Some sess /\ now < sExpiresAt sess.
Proof.
  unfold running. rewrite list_elem_of_omap. split; intros (raw & Hin & Hr); exists raw.
  - unfold running_session in Hr. destruct (normalizeSession raw) as [s'|]; [|done].
    destruct (time_after (sExpiresAt s') now) eqn:E; [|done]. simplify_eq.
    unfold time_after in E. bool_to_prop. done.
  - split; [done|]. destruct Hr as [Hn Ht]. unfold running_session, time_after. rewrite Hn.
    by rewrite (proj2 (Z.ltb_lt _ _) Ht).
Qed.

Lemma elem_of_sessions cfg now sess : sess ∈ sessions (Build cfg now) <-> sess ∈ running cfg now.
Proof. rewrite Build_eq. simpl. by rewrite insertion_sort_perm. Qed.

Lemma earliest_spec l e0 :
  Forall (fun s => 0 < sExpiresAt s) l -> 0 <= e0 ->
  let e := foldl (fun e s => if is_zero_time e || time_before (sExpiresAt s) e
                             then sExpiresAt s else e) e0 l in
  0 <= e /\ (e = 0 -> e0 = 0 /\ l = []) /\ (e0 <> 0 -> e <= e0) /\ Forall (fun s => e <= sExpiresAt s) l.
Proof.
  revert e0. induction l as [|s l IH]; intros e0 Hl H0; simpl; [split_all; auto; lia|].
  apply Forall_cons in Hl as [Hs Hl]. unfold is_zero_time, time_before in *.
  set (e1 := if _ || _ then sExpiresAt s else e0).
  assert (He1 : 0 < e1 /\ e1 <= sExpiresAt s /\ (e0 <> 0 -> e1 <= e0)).
  { unfold e1. destruct (Z.eqb_spec e0 0), (Z.ltb_spec (sExpiresAt s) e0); simpl; lia. }
  destruct (IH e1 Hl ltac:(lia)) as (G1 & G2 & G3 & G4).
  split; [done|]. split; [intros Hz; destruct (G2 Hz); lia|]. split; [intros; lia|].
  apply Forall_cons. split; [lia|done].
Qed.

(** between two expiries the merged policy does not change.  If no session
    running at [now] expires up to [now'], which is what [ExpiresNext] reports,
    building the policy at [now'] gives the very set built at [now]: a caller
    that rebuilds exactly when [ExpiresNext] says never misses a change. *)
Theorem build_stable_until_expiry cfg now now' :
  0 <= now <= now' ->
  ExpiresNext (Build cfg now) = 0 \/ now' < ExpiresNext (Build cfg now) ->
  Build cfg now' = Build cfg now.
Proof.
  intros Hn Hx. rewrite (Build_eq cfg now) in Hx. simpl in Hx.
  assert (Hpos : Forall (fun s => 0 < sExpiresAt s) (running cfg now)).
  { apply Forall_forall. intros s (raw & _ & _ & Hs)%elem_of_running. lia. }
  destruct (earliest_spec _ 0 Hpos ltac:(lia)) as (G1 & G2 & _ & G4). fold (earliest (running cfg now)) in *.
  assert (Hsame : running cfg now' = running cfg now); [|by rewrite !Build_eq, Hsame].
  unfold running. apply omap_ext_in. intros raw Hraw. unfold running_session, time_after.
  destruct (normalizeSession raw) as [sess|] eqn:En; [|done].
  destruct (Z.ltb_spec now (sExpiresAt sess)) as [Hlt|Hge].
  - assert (Hin : sess ∈ running cfg now) by (apply elem_of_running; eauto).
    destruct Hx as [H0|Hx]; [destruct (G2 H0) as [_ Hnil]; rewrite Hnil in Hin; by apply not_elem_of_nil in Hin|].
    rewrite Forall_forall in G4. specialize (G4 sess Hin). simpl in G4.
    by rewrite (proj2 (Z.ltb_lt _ _)) by lia.
  - by rewrite (proj2 (Z.ltb_ge _ _)) by lia.
Qed.

(** ** Which sessions a line belongs to *)

(** The sessions that ask for a line. *)
Definition asks (l : line) (user dstHost : string) (sess : TraceAgentSession) : bool :=
  TraceLevelAtLeast (sLevel sess) (normalizeLevel (Line.Level l)) && sessionMatches sess l user dstHost.

Lemma match_loop l user dst ss : forall acc,
  (foldl (match_step (normalizeLevel (Line.Level l)) l user dst) acc ss).1 =
    acc.1 ++ (sID <$> filter (fun s => asks l user dst s = true) ss).
Proof.
  induction ss as [|s ss IH]; intros acc; simpl; [by rewrite app_nil_r|].
  rewrite IH. unfold match_step. destruct (asks l user dst s) eqn:E.
  - rewrite filter_cons_True by done. unfold asks in E. apply andb_true_iff in E as [-> ->]. simpl.
    by rewrite <- app_assoc.
  - rewrite filter_cons_False by congruence. unfold asks in E.
    destruct (TraceLevelAtLeast (sLevel s) _); simpl in *; [by rewrite E|done].
Qed.

Lemma Match_ids s l user dst :
  Enabled s = true ->
  SessionIDs (Match s l user dst) = sID <$> filter (fun x => asks l user dst x = true) (sessions s) /\
  Keep (Match s l user dst) =
    (nodeEnabled s && TraceLevelAtLeast (nodeLevel s) (normalizeLevel (Line.Level l)))
    || existsb (asks l user dst) (sessions s).
Proof.
  intros He. unfold Match. rewrite He. simpl.
  pose proof (match_loop l user dst (sessions s) ([], ""%string)) as Hl.
  destruct (foldl _ _ (sessions s)) as [ids best]. simpl in *. split; [done|].
  f_equal. rewrite Hl. unfold zlen. rewrite length_fmap. clear.
  induction (sessions s) as [|x ss IH]; [done|]. simpl. destruct (asks l user dst x) eqn:E.
  - by rewrite filter_cons_True.
  - rewrite filter_cons_False by congruence. done.
Qed.

Lemma Match_disabled s l user dst : Enabled s = false -> Match s l user dst = mkDecision false [] "".
Proof. intros He. unfold Match. by rewrite He. Qed.

(** a line is kept exactly for those who asked.  Under the policy built at
    [now], the ids of a decision are those of the sessions of the config that
    are usable, have not expired at [now], allow the line's level and match its
    user, inbound and destination; and the line is kept when there is one or
    when the enabled node floor covers its level, and only then. *)
Theorem match_exact cfg now l user dst :
  let d := Match (Build cfg now) l user dst in
  (forall id, id ∈ SessionIDs d <->
     exists raw sess, raw ∈ cSessions cfg /\ normalizeSession raw = Some sess /\
       now < sExpiresAt sess /\ asks l user dst sess = true /\ id = sID sess) /\
  (Keep d = true <->
     (pEnabled (cPolicy cfg) = true /\
      TraceLevelAtLeast (normalizeLevel (pLevel (cPolicy cfg))) (normalizeLevel (Line.Level l)) = true) \/
     SessionIDs d <> []).
Proof.
  intros d. unfold d. destruct (Enabled (Build cfg now)) eqn:He.
  - destruct (Match_ids (Build cfg now) l user dst He) as [Hi Hk]. rewrite Hi, Hk. split.
    + intros id. rewrite list_elem_of_fmap. setoid_rewrite list_elem_of_filter.
      setoid_rewrite elem_of_sessions. setoid_rewrite elem_of_running. naive_solver.
    + rewrite orb_true_iff, andb_true_iff, existsb_exists. rewrite Build_eq at 1 2. simpl.
      apply or_iff_compat_l. split.
      * intros (x & Hx & Ha) Hnil%fmap_nil_inv.
        apply (filter_nil_not_elem_of _ _ _ Hnil Ha). by apply list_elem_of_In.
      * intros Hne. destruct (filter _ _) as [|x xs] eqn:E; [done|]. exists x.
        assert (Hx : x ∈ filter (fun x => asks l user dst x = true) (sessions (Build cfg now)))
          by (rewrite E; left).
        apply list_elem_of_filter in Hx as [Ha Hx]. split; [by apply list_elem_of_In|done].
  - rewrite Match_disabled by done. simpl. unfold Enabled in He. apply orb_false_iff in He as [Hn Hs].
    rewrite Build_eq in Hn. simpl in Hn. rewrite Hn. bool_to_prop. split.
    + intros id. split; [by intros ?%not_elem_of_nil|]. intros (raw & sess & Hr & Hno & Hx & _).
      assert (Hin : sess ∈ sessions (Build cfg now)) by (apply elem_of_sessions, elem_of_running; eauto).
      destruct (sessions (Build cfg now)); [by apply not_elem_of_nil in Hin|]. unfold zlen in Hs. simpl in Hs. lia.
    + naive_solver.
Qed.

(** ** What to subscribe at *)
Section Laws.
Context `{!TraceLevelsLaws}.

Lemma normalizeLevel_valid l : ValidTraceLevel (normalizeLevel l) = true.
Proof. unfold normalizeLevel. case_match; [done|apply level_info_valid]. Qed.

Lemma running_level_valid cfg now sess :
  sess ∈ running cfg now -> ValidTraceLevel (sLevel sess) = true.
Proof.
  intros (raw & _ & Hn & _)%elem_of_running. unfold normalizeSession in Hn.
  case_match; [done|]. simplify_eq. apply normalizeLevel_valid.
Qed.

Lemma most_verbose_spec ss : forall m,
  ValidTraceLevel m = true -> Forall (fun s => ValidTraceLevel (sLevel s) = true) ss ->
  let v := most_verbose m ss in
  ValidTraceLevel v = true /\ TraceLevelAtLeast v m = true /\
  Forall (fun s => TraceLevelAtLeast v (sLevel s) = true) ss /\
  (v = m \/ exists s, s ∈ ss /\ v = sLevel s).
Proof.
  unfold most_verbose. induction ss as [|s ss IH]; intros m Hm Hss; simpl.
  { split_all; auto using level_refl. }
  apply Forall_cons in Hss as [Hs Hss].
  destruct (TraceLevelAtLeast (sLevel s) m) eqn:E.
  - destruct (IH (sLevel s) Hs Hss) as (G1 & G2 & G3 & G4). split; [done|].
    split; [eauto using level_trans|]. split; [by apply Forall_cons|].
    right. destruct G4 as [->|(x & Hx & ->)]; [exists s; split; [left|done]|exists x; split; [by right|done]].
  - destruct (IH m Hm Hss) as (G1 & G2 & G3 & G4). split; [done|]. split; [done|].
    assert (TraceLevelAtLeast m (sLevel s) = true).
    { destruct (level_total m (sLevel s) Hm Hs); congruence. }
    split; [apply Forall_cons; eauto using level_trans|].
    destruct G4 as [->|(x & Hx & ->)]; [by left|right; exists x; split; [by right|done]].
Qed.

Lemma subscribe_spec cfg now :
  let v := SubscribeLevel (Build cfg now) in
  v = most_verbose (floor_level cfg) (running cfg now) /\ ValidTraceLevel v = true /\
  TraceLevelAtLeast v (floor_level cfg) = true /\
  Forall (fun s => TraceLevelAtLeast v (sLevel s) = true) (running cfg now) /\
  (v = floor_level cfg \/ exists s, s ∈ running cfg now /\ v = sLevel s).
Proof.
  assert (Hf : ValidTraceLevel (floor_level cfg) = true).
  { unfold floor_level. case_match; [apply normalizeLevel_valid|apply level_info_valid]. }
  assert (Hr : Forall (fun s => ValidTraceLevel (sLevel s) = true) (running cfg now)).
  { apply Forall_forall. intros s. apply running_level_valid. }
  pose proof (most_verbose_spec _ _ Hf Hr) as Hm.
  assert (Hv : SubscribeLevel (Build cfg now) = most_verbose (floor_level cfg) (running cfg now)).
  { unfold SubscribeLevel. rewrite Build_eq. simpl.
    destruct (String.eqb_spec (most_verbose (floor_level cfg) (running cfg now)) "") as [E|E]; [|done].
    rewrite E in Hm. destruct Hm as [Hm _]. rewrite level_nonempty in Hm. done. }
  rewrite Hv. split; [done|exact Hm].
Qed.

(** C40: the subscription is exactly as verbose as somebody needs.  The level the
    agent subscribes at is at least as verbose as the node floor and as every
    running session, and it is the level of one of them; and every line the
    policy keeps is within it, so no line a session was started to see is cut
    off by the subscription. *)
Theorem subscribe_is_least_sufficient cfg now :
  let s := Build cfg now in
  TraceLevelAtLeast (SubscribeLevel s) (floor_level cfg) = true /\
  (forall sess, sess ∈ ActiveSessions s ->
     TraceLevelAtLeast (SubscribeLevel s) (sLevel sess) = true) /\
  (SubscribeLevel s = floor_level cfg \/
   exists sess, sess ∈ ActiveSessions s /\ SubscribeLevel s = sLevel sess) /\
  (forall l user dst, Keep (Match s l user dst) = true ->
     TraceLevelAtLeast (SubscribeLevel s) (normalizeLevel (Line.Level l)) = true).
Proof.
  intros s. unfold ActiveSessions. destruct (subscribe_spec cfg now) as (_ & _ & Hfl & Hall & Hone).
  fold s in Hfl, Hall, Hone. rewrite Forall_forall in Hall.
  split; [done|]. split; [intros sess Hin%elem_of_sessions; by apply Hall|]. split.
  { destruct Hone as [->|(x & Hx & ->)]; [by left|right]. exists x. split; [by apply elem_of_sessions|done]. }
  intros l user dst Hk. destruct (Enabled s) eqn:He; [|by rewrite Match_disabled in Hk].
  rewrite (proj2 (Match_ids s l user dst He)) in Hk. apply orb_true_iff in Hk as [Hk|Hk].
  - apply andb_true_iff in Hk as [Hn Hl]. unfold s in Hn, Hl. rewrite Build_eq in Hn, Hl. simpl in *.
    unfold floor_level in Hfl. rewrite Hn in Hfl. eauto using level_trans.
  - apply existsb_exists in Hk as (x & Hx & Ha). apply andb_true_iff in Ha as [Ha _].
    apply list_elem_of_In, elem_of_sessions, Hall in Hx. eauto using level_trans.
Qed.
End Laws.
End Policy.

(** ** Concrete policies *)
Section Samples.
#[local] Existing Instance sample_levels.

Definition sample_session : TraceAgentSession :=
  mkSession " op-1 " "DEBUG" ["u_1"; " "] [] ["Example.COM"] (90 * second).
Definition sample_cfg : TraceAgentConfig := 
  mkConfig (mkPolicy true "info" 0 "" "" None) [sample_session] "" 0.

Example sample_keep :
  Match (Build sample_cfg (60 * second))
    (blank_line <| Line.Level := "debug"%string |>) "u_1" "www.example.com"
  = mkDecision true ["op-1"] "debug".
Proof. reflexivity. Qed.

Lemma build_stable_until_expiry_witness :
  Build sample_cfg (80 * second) = Build sample_cfg (60 * second).
Proof.
  refine (build_stable_until_expiry sample_cfg (60 * second) (80 * second) _ _).
  - vm_compute. split; discriminate.
  - right. vm_compute. reflexivity.
Defined.

Lemma subscribe_is_least_sufficient_witness :
  TraceLevelAtLeast (SubscribeLevel (Build sample_cfg (60 * second))) "debug" = true.
Proof.
  apply (proj1 (proj2 (subscribe_is_least_sufficient sample_cfg (60 * second)))
    (mkSession "op-1" "debug" ["u_1"] [] ["Example.COM"] (90 * second))).
  vm_compute. left.
Defined.
End Samples.
