(* ===== verification/TraceShip.v ===== *)
(** * The trace shipper (internal/traceship/traceship.go)

    [Ship] holds the shipper's state and methods.  The queue mutex makes each
    method that takes it atomic, so a method is a function of the state; the
    flush mutex allows one flush cycle at a time, and the step relation of
    [ShipRun] interleaves one cycle's method calls with any other callers'.
    The HTTP exchange is an environment: [post] translates what it answers
    the way the code does. *)
From S2P Require Import Prelude GoStrings SDK.

Local Open Scope Z_scope.

Definition defaultMaxBatchRecords : Z := 200.
Definition defaultMaxBatchLines : Z := 500.
Definition defaultMaxPending : Z := 5000.
Definition defaultFlushInterval : duration := second.
Definition maxBackoff : duration := minute.
Definition errBodyLimit : nat := 512.
Definition maxBatchBytes : Z := Z.shiftl 4 20.
Definition StatusTooManyRequests : Z := 429.
Definition StatusOK : Z := 200.

Module Ship.

(** The tunables of [Config]; the server address, the token and the HTTP
    client belong to the environment. *)
Record Config := mkConfig {
  cfgNodeID : string;
  cfgMaxBatchRecords : Z;
  cfgMaxBatchLines : Z;
  cfgMaxPending : Z;
  cfgFlushInterval : duration
}.

Record Shipper := mk {
  nodeID : string;
  maxBatchRecords : Z;
  maxBatchLines : Z;
  maxPending : Z;
  flushInterval : duration;
  records : list conn_record;
  lines : list trace_line;
  inflightRecords : list conn_record;
  inflightLines : list trace_line;
  coreGeneration : Z;
  coreStartedAt : time;
  dropped : Z;
  droppedTotal : Z;
  unparsed : Z;
  unparsedTotal : Z;
  shed : Z;
  shippedRecords : Z;
  shippedLines : Z;
  shippedBatches : Z;
  lastError : string;
  lastSuccess : time;
  loggedShipErr : bool;
  retryUntil : time;
  backoffFailures : Z
}.

#[export] Instance Shipper_eta : Etable Shipper := fun s =>
  mk (nodeID s) (maxBatchRecords s) (maxBatchLines s) (maxPending s) (flushInterval s)
     (records s) (lines s) (inflightRecords s) (inflightLines s) (coreGeneration s)
     (coreStartedAt s) (dropped s) (droppedTotal s) (unparsed s) (unparsedTotal s) (shed s)
     (shippedRecords s) (shippedLines s) (shippedBatches s) (lastError s) (lastSuccess s)
     (loggedShipErr s) (retryUntil s) (backoffFailures s).

Definition or_default (v d : Z) : Z := if v <=? 0 then d else v.

Definition New (cfg : Config) : Shipper :=
  mk (trim_space (cfgNodeID cfg))
     (or_default (cfgMaxBatchRecords cfg) defaultMaxBatchRecords)
     (or_default (cfgMaxBatchLines cfg) defaultMaxBatchLines)
     (or_default (cfgMaxPending cfg) defaultMaxPending)
     (or_default (cfgFlushInterval cfg) defaultFlushInterval)
     [] [] [] [] 0 0 0 0 0 0 0 0 0 0 "" 0 false 0 0.

(** The loop of [trimLocked]: how many of the oldest records and lines go,
    with [r] and [l] of them remaining and [over] more to drop. *)
Fixpoint trim_loop (over r l : nat) (dropRecords dropLines : nat) : nat * nat :=
  match over with
  | O => (dropRecords, dropLines)
  | S over' =>
      if ((r =? 0) && (l =? 0))%nat then (dropRecords, dropLines)
      else if (r <=? l)%nat then trim_loop over' r (l - 1) dropRecords (dropLines + 1)
      else trim_loop over' (r - 1) l (dropRecords + 1) dropLines
  end.

Definition trimLocked (s : Shipper) : Shipper :=
  let over := zlen (records s) + zlen (lines s) - maxPending s in
  if over <=? 0 then s
  else
    let '(dropRecords, dropLines) :=
      trim_loop (Z.to_nat over) (length (records s)) (length (lines s)) 0 0 in
    let n := Z.of_nat (dropRecords + dropLines) in
    s <| records ::= drop dropRecords |> <| lines ::= drop dropLines |>
      <| dropped ::= fun d => u64 (d + n) |> <| droppedTotal ::= fun d => u64 (d + n) |>.

Definition AddRecords (rs : list conn_record) (s : Shipper) : Shipper :=
  match rs with [] => s | _ => trimLocked (s <| records ::= fun q => q ++ rs |>) end.

Definition AddLines (ls : list trace_line) (s : Shipper) : Shipper :=
  match ls with [] => s | _ => trimLocked (s <| lines ::= fun q => q ++ ls |>) end.

Definition SetCore (generation : Z) (startedAt : time) (s : Shipper) : Shipper :=
  s <| coreGeneration := generation |> <| coreStartedAt := startedAt |>.

Definition AddUnparsed (n : Z) (s : Shipper) : Shipper :=
  if n =? 0 then s
  else s <| unparsed ::= fun c => u64 (c + n) |> <| unparsedTotal ::= fun c => u64 (c + n) |>.

Definition AddDropped (n : Z) (s : Shipper) : Shipper :=
  if n =? 0 then s
  else s <| dropped ::= fun c => u64 (c + n) |> <| droppedTotal ::= fun c => u64 (c + n) |>.

Definition AddShed (n : Z) (s : Shipper) : Shipper :=
  if n =? 0 then s
  else s <| shed ::= fun c => u64 (c + n) |> <| dropped ::= fun c => u64 (c + n) |>
         <| droppedTotal ::= fun c => u64 (c + n) |>.

(** ** Batches *)

Definition slen (s : string) : Z := Z.of_nat (String.length s).

Definition record_cost (r : conn_record) : Z :=
  slen (ConnRecord.DstHost r) + slen (ConnRecord.CloseError r) + slen (ConnRecord.RuleText r)
  + slen (ConnRecord.UserName r) + 256.

Definition line_cost (l : trace_line) : Z :=
  slen (TraceLine.Message l) + slen (TraceLine.Raw l) + slen (TraceLine.Tag l) + 128.

(** One counting loop of [trimToByteBudget]: [size] bytes are taken and
    [others] items were kept before this queue. *)
Fixpoint budget_loop {A} (cost : A -> Z) (others : nat) (items : list A) (size : Z) (kept : nat)
    : Z * nat :=
  match items with
  | [] => (size, kept)
  | x :: rest =>
      let n := cost x in
      if (maxBatchBytes <? size + n) && (0 <? others + kept)%nat then (size, kept)
      else budget_loop cost others rest (size + n) (kept + 1)
  end.

Definition trimToByteBudget (s : Shipper) (recordN lineN : nat) : nat * nat :=
  let '(size, keptRecords) := budget_loop record_cost 0 (take recordN (records s)) 0 0 in
  let '(_, keptLines) := budget_loop line_cost keptRecords (take lineN (lines s)) size 0 in
  (keptRecords, keptLines).

Definition takeBatch (now : time) (s : Shipper) : Shipper * option trace_batch :=
  if negb (is_zero_time (retryUntil s)) && time_before now (retryUntil s) then (s, None)
  else
    let '(recordN, lineN) :=
      trimToByteBudget s (Z.to_nat (Z.min (zlen (records s)) (maxBatchRecords s)))
                         (Z.to_nat (Z.min (zlen (lines s)) (maxBatchLines s))) in
    if (recordN =? 0)%nat && (lineN =? 0)%nat && (dropped s =? 0) && (unparsed s =? 0) && (shed s =? 0)
    then (s, None)
    else
      let batch := TraceBatch.mk (nodeID s) (coreGeneration s) (coreStartedAt s)
        (take recordN (records s)) (take lineN (lines s)) (dropped s) (shed s) (unparsed s) now in
      let s1 := if (0 <? recordN)%nat
        then s <| inflightRecords := take recordN (records s) |> <| records ::= drop recordN |>
        else s in
      let s2 := if (0 <? lineN)%nat
        then s1 <| inflightLines := take lineN (lines s1) |> <| lines ::= drop lineN |>
        else s1 in
      (s2, Some batch).

Definition prepend {A} (head tail : list A) : list A := head ++ tail.

Definition restore (s : Shipper) : Shipper :=
  let s1 := match inflightRecords s with
            | [] => s
            | _ => s <| records := prepend (inflightRecords s) (records s) |>
                     <| inflightRecords := [] |>
            end in
  let s2 := match inflightLines s1 with
            | [] => s1
            | _ => s1 <| lines := prepend (inflightLines s1) (lines s1) |>
                      <| inflightLines := [] |>
            end in
  trimLocked s2.

Definition saturatingSub (a b : Z) : Z := if a <=? b then 0 else a - b.

Definition commit (now : time) (batch : trace_batch) (s : Shipper) : Shipper :=
  s <| shippedRecords ::= fun c => u64 (c + zlen (inflightRecords s)) |>
    <| shippedLines ::= fun c => u64 (c + zlen (inflightLines s)) |>
    <| inflightRecords := [] |> <| inflightLines := [] |>
    <| dropped ::= fun d => saturatingSub d (TraceBatch.Dropped batch) |>
    <| shed ::= fun d => saturatingSub d (TraceBatch.ShedConnections batch) |>
    <| unparsed ::= fun d => saturatingSub d (TraceBatch.Unparsed batch) |>
    <| shippedBatches ::= fun c => u64 (c + 1) |>
    <| lastSuccess := now |> <| lastError := "" |> <| loggedShipErr := false |>
    <| retryUntil := 0 |> <| backoffFailures := 0 |>.

(** ** Refusals *)

Fixpoint backoff_loop (i : nat) (wait : duration) : duration :=
  match i with
  | O => wait
  | S i' => if wait <? maxBackoff then backoff_loop i' (i64 (wait * 2)) else wait
  end.

Definition backoffFor (failures : Z) (base : duration) : duration :=
  let base := if base <=? 0 then defaultFlushInterval else base in
  let wait := backoff_loop (Z.to_nat (failures - 1)) base in
  if maxBackoff <? wait then maxBackoff else wait.

Definition recordFailure (now : time) (status : Z) (retryAfter : duration) (err : string)
    (s : Shipper) : Shipper :=
  let s := s <| lastError := err |> in
  let s := if status =? StatusTooManyRequests then
      let failures := i64 (backoffFailures s + 1) in
      let wait := if retryAfter <=? 0 then backoffFor failures (flushInterval s) else retryAfter in
      s <| backoffFailures := failures |> <| retryUntil := time_add now wait |>
    else s in
  s <| loggedShipErr := true |>.

(** What the HTTP exchange can answer. *)
Inductive outcome :=
  | EncodeFailed (err : string)
  | RequestFailed (err : string)
  | DoFailed (err : string)
  | Responded (statusCode : Z) (status : string) (retryAfter : string) (body : string).

Definition errorSnippet (body : string) : string :=
  let text := String.concat " " (fields (str_take errBodyLimit body)) in
  if String.eqb text "" then ""%string else ": " +:+ text.

Section Answers.
(** [http.ParseTime]: the instant an HTTP date header names. *)
Context (ParseTime : string -> option time).

Definition parseRetryAfter (header : string) (now : time) : duration :=
  let header := trim_space header in
  if String.eqb header "" then 0
  else match atoi header with
       | Some secs => if secs <=? 0 then 0 else i64 (secs * second)
       | None =>
           match ParseTime header with
           | Some t => let d := time_sub t now in if 0 <? d then d else 0
           | None => 0
           end
       end.

Context {E : Type} (clock : E -> time * E) (exchange : E -> trace_batch -> outcome * E).

(** [post]: the status, the wait the server asked for, and the error.  The
    environment [E] answers each request and each reading of the clock. *)
Definition post (e : E) (batch : trace_batch) : (Z * duration * option string) * E :=
  let '(o, e) := exchange e batch in
  match o with
  | EncodeFailed err => ((0, 0, Some ("encode trace batch: " +:+ err)), e)
  | RequestFailed err => ((0, 0, Some err), e)
  | DoFailed err => ((0, 0, Some ("ship trace batch: " +:+ err)), e)
  | Responded code status header body =>
      if code =? StatusOK then ((code, 0, None), e)
      else
        let '(now, e) := clock e in
        ((code, parseRetryAfter header now,
          Some ("ship trace batch: " +:+ status +:+ errorSnippet body)), e)
  end.

(** [Flush]: the result is the error, if any; running out of [fuel] is
    [None]. *)
Fixpoint Flush (fuel : nat) (e : E) (s : Shipper) : option (Shipper * option string * E) :=
  match fuel with
  | O => None
  | S fuel' =>
      let '(now, e) := clock e in
      match takeBatch now s with
      | (s, None) => Some (s, None, e)
      | (s, Some batch) =>
          match post e batch with
          | ((status, retryAfter, Some err), e) =>
              let s := restore s in
              let '(now, e) := clock e in
              Some (recordFailure now status retryAfter err s, Some err, e)
          | ((_, _, None), e) =>
              let '(now, e) := clock e in
              Flush fuel' e (commit now batch s)
          end
      end
  end.
End Answers.

(** ** Reporting *)
Record Stats := mkStats {
  stPending : Z;
  stPendingRecords : Z;
  stPendingLines : Z;
  stShippedRecords : Z;
  stShippedLines : Z;
  stShippedBatches : Z;
  stDropped : Z;
  stDroppedTotal : Z;
  stUnparsed : Z;
  stUnparsedTotal : Z;
  stLastError : string;
  stLastSuccess : time
}.

Definition StatsOf (s : Shipper) : Stats :=
  let pendingRecords := zlen (records s) + zlen (inflightRecords s) in
  let pendingLines := zlen (lines s) + zlen (inflightLines s) in
  mkStats (pendingRecords + pendingLines) pendingRecords pendingLines (shippedRecords s)
    (shippedLines s) (shippedBatches s) (dropped s) (droppedTotal s) (unparsed s)
    (unparsedTotal s) (lastError s) (lastSuccess s).
End Ship.
