(* ===== verification/TraceShipProps.v ===== *)
(** * Properties of the trace shipper

    [ShipFacts] has the loops in closed form, [ShipRun] the interleavings of a
    flush cycle with the other callers and the accounting invariant, and
    [ShipFlush] the sequential flush loop. *)
From S2P Require Import Prelude GoStrings SDK TraceShip.

Local Open Scope Z_scope.
Import Ship.

Module ShipFacts.

(** ** The capacity trim *)

Lemma trim_loop_spec over r l dr dl :
  (over <= r + l)%nat ->
  let '(dr', dl') := trim_loop over r l dr dl in
  (dr' + dl' = dr + dl + over /\ dr <= dr' <= dr + r /\ dl <= dl' <= dl + l)%nat.
Proof.
  revert r l dr dl. induction over as [|over IH]; intros r l dr dl Ho; simpl; [lia|].
  destruct ((r =? 0) && (l =? 0))%nat eqn:E0.
  { apply andb_true_iff in E0 as [?%Nat.eqb_eq ?%Nat.eqb_eq]. lia. }
  assert (~ (r = 0 /\ l = 0))%nat.
  { intros [-> ->]. done. }
  destruct (Nat.leb_spec r l).
  - specialize (IH r (l - 1)%nat dr (dl + 1)%nat ltac:(lia)). destruct (trim_loop _ _ _ _ _). lia.
  - specialize (IH (r - 1)%nat l (dr + 1)%nat dl ltac:(lia)). destruct (trim_loop _ _ _ _ _). lia.
Qed.

(** The longer queue pays: whichever queue lost something ends within one item
    of being the shorter one. *)
Lemma trim_loop_fair over r l dr dl :
  (over <= r + l)%nat ->
  let '(dr', dl') := trim_loop over r l dr dl in
  ((dr < dr' -> l - (dl' - dl) <= r - (dr' - dr)) /\
   (dl < dl' -> r - (dr' - dr) <= l - (dl' - dl) + 1))%nat.
Proof.
  revert r l dr dl. induction over as [|over IH]; intros r l dr dl Ho; simpl; [lia|].
  destruct ((r =? 0) && (l =? 0))%nat eqn:E0; [lia|].
  assert (~ (r = 0 /\ l = 0))%nat by (intros [-> ->]; done).
  destruct (Nat.leb_spec r l).
  - specialize (IH r (l - 1)%nat dr (dl + 1)%nat ltac:(lia)).
    pose proof (trim_loop_spec over r (l - 1) dr (dl + 1) ltac:(lia)).
    destruct (trim_loop _ _ _ _ _) as [dr' dl'].
    split; [lia|]. intros _. destruct (decide (dl + 1 < dl')%nat); [lia|].
    destruct (decide (dr < dr')%nat); lia.
  - specialize (IH (r - 1)%nat l (dr + 1)%nat dl ltac:(lia)).
    pose proof (trim_loop_spec over (r - 1) l (dr + 1) dl ltac:(lia)).
    destruct (trim_loop _ _ _ _ _) as [dr' dl'].
    split; [|lia]. intros _. destruct (decide (dr + 1 < dr')%nat); [lia|].
    destruct (decide (dl < dl')%nat); lia.
Qed.

(** The counters are 64-bit values. *)
Definition in_range (s : Shipper) : Prop :=
  0 <= dropped s < 2 ^ 64 /\ 0 <= droppedTotal s < 2 ^ 64 /\
  0 <= unparsed s < 2 ^ 64 /\ 0 <= unparsedTotal s < 2 ^ 64 /\ 0 <= shed s < 2 ^ 64.

Definition cut_to (nr nl : nat) (s : Shipper) : Shipper :=
  let n := Z.of_nat (nr + nl) in
  s <| records ::= drop nr |> <| lines ::= drop nl |>
    <| dropped ::= fun d => u64 (d + n) |> <| droppedTotal ::= fun d => u64 (d + n) |>.

Lemma cut_to_0 s : in_range s -> cut_to 0 0 s = s.
Proof.
  intros (Hd & Ht & _). destruct s. unfold cut_to, update_field. simpl in *.
  rewrite !Z.add_0_r, !u64_small by lia. done.
Qed.

Definition queued (s : Shipper) : Z := zlen (records s) + zlen (lines s).

Lemma trimLocked_spec s :
  in_range s -> 0 <= maxPending s ->
  exists nr nl, trimLocked s = cut_to nr nl s /\
    (nr <= length (records s))%nat /\ (nl <= length (lines s))%nat /\
    Z.of_nat (nr + nl) = Z.max 0 (queued s - maxPending s) /\
    ((0 < nr)%nat -> zlen (drop nl (lines s)) <= zlen (drop nr (records s))) /\
    ((0 < nl)%nat -> zlen (drop nr (records s)) <= zlen (drop nl (lines s)) + 1).
Proof.
  intros Hr Hm. unfold trimLocked. fold (queued s).
  destruct (Z.leb_spec (queued s - maxPending s) 0) as [Hle|Hgt].
  { exists 0%nat, 0%nat. rewrite cut_to_0 by done. split_all; try done; lia. }
  unfold queued, zlen in *.
  pose proof (trim_loop_spec (Z.to_nat (Z.of_nat (length (records s)) + Z.of_nat (length (lines s))
    - maxPending s)) (length (records s)) (length (lines s)) 0 0 ltac:(lia)) as H1.
  pose proof (trim_loop_fair (Z.to_nat (Z.of_nat (length (records s)) + Z.of_nat (length (lines s))
    - maxPending s)) (length (records s)) (length (lines s)) 0 0 ltac:(lia)) as H2.
  destruct (trim_loop _ _ _ _ _) as [nr nl]. exists nr, nl.
  rewrite !length_drop. split; [done|]. lia.
Qed.

(** ** The byte budget *)

Definition total_cost {A} (cost : A -> Z) (items : list A) : Z :=
  foldr (fun x a => cost x + a) 0 items.

Lemma budget_loop_spec {A} (cost : A -> Z) others items size kept :
  let '(size', kept') := budget_loop cost others items size kept in
  let n := (kept' - kept)%nat in
  (kept <= kept' <= kept + length items)%nat /\
  size' = size + total_cost cost (take n items) /\
  ((1 < n)%nat \/ (n = 1 /\ 0 < others + kept)%nat -> size' <= maxBatchBytes) /\
  (items <> [] -> (others + kept = 0)%nat -> (0 < n)%nat) /\
  (forall x, items !! n = Some x -> maxBatchBytes < size' + cost x).
Proof.
  revert size kept. induction items as [|x items IH]; intros size kept; simpl.
  { rewrite take_nil. simpl. split_all; try lia; [done|]. intros x. by rewrite lookup_nil. }
  destruct ((maxBatchBytes <? size + cost x) && (0 <? others + kept)%nat) eqn:E.
  { rewrite Nat.sub_diag. simpl. bool_to_prop. apply Nat.ltb_lt in H0.
    split_all; try lia. intros y [= <-]. lia. }
  specialize (IH (size + cost x) (kept + 1)%nat).
  destruct (budget_loop _ _ _ _ _) as [size' kept']. destruct IH as (H1 & H2 & H3 & H4 & H5).
  replace (kept' - kept)%nat with (S (kept' - (kept + 1))) by lia. simpl.
  split_all; try lia; [|exact H5]. intros Hn.
  destruct (decide (kept' - (kept + 1) = 0)%nat) as [E0|]; [|lia].
  rewrite E0 in H2. simpl in H2. subst size'.
  apply andb_false_iff in E as [E|E]; [bool_to_prop; lia|]. apply Nat.ltb_ge in E. lia.
Qed.

Definition batch_bytes (s : Shipper) (r l : nat) : Z :=
  total_cost record_cost (take r (records s)) + total_cost line_cost (take l (lines s)).

(** a request fits the byte budget and still makes progress.  The counts
    [trimToByteBudget] keeps never exceed what was asked for, keep something
    whenever there is something, stay within the budget unless a single item
    exceeds it on its own, and are as large as the budget allows: the next
    record, or the next line, would not have fitted. *)
Theorem byte_budget_kept s recordN lineN r l :
  trimToByteBudget s recordN lineN = (r, l) ->
  (recordN <= length (records s))%nat -> (lineN <= length (lines s))%nat ->
  (r <= recordN /\ l <= lineN)%nat /\
  (0 < recordN + lineN -> 0 < r + l)%nat /\
  ((1 < r + l)%nat -> batch_bytes s r l <= maxBatchBytes) /\
  (forall x, (r < recordN)%nat -> records s !! r = Some x ->
     maxBatchBytes < batch_bytes s r 0 + record_cost x) /\
  (forall x, (l < lineN)%nat -> lines s !! l = Some x ->
     maxBatchBytes < batch_bytes s r l + line_cost x).
Proof.
  unfold trimToByteBudget. intros E HR HL.
  pose proof (budget_loop_spec record_cost 0 (take recordN (records s)) 0 0) as H.
  destruct (budget_loop record_cost _ _ _ _) as [size kr]. rewrite Nat.sub_0_r in H.
  pose proof (budget_loop_spec line_cost kr (take lineN (lines s)) size 0) as K.
  destruct (budget_loop line_cost _ _ _ _) as [size' kl]. rewrite Nat.sub_0_r in K.
  injection E as -> ->. rewrite !length_take in *.
  destruct H as (H1 & H2 & H3 & H4 & H5), K as (K1 & K2 & K3 & K4 & K5).
  rewrite !take_take in *. rewrite (Nat.min_l r) in H2 by lia. rewrite (Nat.min_l l) in K2 by lia.
  unfold batch_bytes. simpl. split_all; try lia.
  - intros Hp. destruct (records s) as [|a q] eqn:Er; [simpl in *|].
    + assert (recordN = 0)%nat as -> by lia. assert (r = 0)%nat as -> by lia.
      destruct (lines s) as [|b q]; [simpl in *; lia|]. destruct lineN; [lia|].
      specialize (K4 ltac:(simpl; done)). lia.
    + destruct recordN; [|specialize (H4 ltac:(simpl; done)); lia].
      assert (r = 0)%nat as -> by lia.
      destruct (lines s) as [|b q']; [simpl in *; lia|]. destruct lineN; [lia|].
      specialize (K4 ltac:(simpl; done)). lia.
  - intros Hn. destruct l as [|l']; [simpl in *; lia|]. destruct (decide (l' = 0)%nat); lia.
  - intros x Hx Hl. specialize (H5 x). rewrite lookup_take_lt in H5 by lia.
    specialize (H5 Hl). lia.
  - intros x Hx Hl. specialize (K5 x). rewrite lookup_take_lt in K5 by lia.
    specialize (K5 Hl). lia.
Qed.
End ShipFacts.

Module ShipRun.
Import ShipFacts.

(** Where the one flush cycle is: between cycles, with a batch on the wire, or
    with a refusal that [restore] has handled and [recordFailure] has not. *)
Inductive phase :=
  | Idle
  | Sending (batch : trace_batch)
  | Refused.

(** The atomic steps of all callers. *)
Inductive label :=
  | LAddRecords (rs : list conn_record)
  | LAddLines (ls : list trace_line)
  | LSetCore (generation : Z) (startedAt : time)
  | LAddUnparsed (n : Z)
  | LAddDropped (n : Z)
  | LAddShed (n : Z)
  | LTake (now : time)
  | LCommit (now : time) (batch : trace_batch)
  | LRestore
  | LFail (now : time) (status : Z) (retryAfter : duration) (err : string).

Inductive step : Shipper -> phase -> label -> Shipper -> phase -> Prop :=
  | step_records s p rs : step s p (LAddRecords rs) (AddRecords rs s) p
  | step_lines s p ls : step s p (LAddLines ls) (AddLines ls s) p
  | step_core s p g t : step s p (LSetCore g t) (SetCore g t s) p
  | step_unparsed s p n : 0 <= n < 2 ^ 64 -> step s p (LAddUnparsed n) (AddUnparsed n s) p
  | step_dropped s p n : 0 <= n < 2 ^ 64 -> step s p (LAddDropped n) (AddDropped n s) p
  | step_shed s p n : 0 <= n < 2 ^ 64 -> step s p (LAddShed n) (AddShed n s) p
  | step_take_none s now : (takeBatch now s).2 = None ->
      step s Idle (LTake now) (takeBatch now s).1 Idle
  | step_take s now b : (takeBatch now s).2 = Some b ->
      step s Idle (LTake now) (takeBatch now s).1 (Sending b)
  | step_commit s now b : step s (Sending b) (LCommit now b) (commit now b s) Idle
  | step_restore s b : step s (Sending b) LRestore (restore s) Refused
  | step_fail s now status ra err :
      step s Refused (LFail now status ra err) (recordFailure now status ra err s) Idle.

(** Runs from a new shipper; the trace is latest first. *)
Inductive run (cfg : Config) : list label -> Shipper -> phase -> Prop :=
  | run_new : run cfg [] (New cfg) Idle
  | run_step tr s p l s' p' : run cfg tr s p -> step s p l s' p' -> run cfg (l :: tr) s' p'.

(** What a trace handed over, what the server accepted, and what was counted
    from outside. *)
Fixpoint added_records (tr : list label) : list conn_record :=
  match tr with
  | [] => []
  | LAddRecords rs :: tr => added_records tr ++ rs
  | _ :: tr => added_records tr
  end.
Fixpoint added_lines (tr : list label) : list trace_line :=
  match tr with
  | [] => []
  | LAddLines ls :: tr => added_lines tr ++ ls
  | _ :: tr => added_lines tr
  end.
Fixpoint accepted (tr : list label) : list trace_batch :=
  match tr with
  | [] => []
  | LCommit _ b :: tr => accepted tr ++ [b]
  | _ :: tr => accepted tr
  end.
Definition delivered_records (tr : list label) : list conn_record :=
  concat (map TraceBatch.Records (accepted tr)).
Definition delivered_lines (tr : list label) : list trace_line :=
  concat (map TraceBatch.Lines (accepted tr)).
Definition label_dropped (l : label) : Z :=
  match l with LAddDropped n | LAddShed n => n | _ => 0 end.
Definition label_shed (l : label) : Z := match l with LAddShed n => n | _ => 0 end.
Definition label_unparsed (l : label) : Z := match l with LAddUnparsed n => n | _ => 0 end.
Definition sum_of {A} (f : A -> Z) (l : list A) : Z := foldr (fun x a => f x + a) 0 l.

Lemma sum_of_snoc {A} (f : A -> Z) l x : sum_of f (l ++ [x]) = sum_of f l + f x.
Proof. induction l; simpl; lia. Qed.

(** Items handed over and neither delivered nor held any more. *)
Definition lost (tr : list label) (s : Shipper) : Z :=
  zlen (added_records tr) + zlen (added_lines tr)
  - zlen (delivered_records tr) - zlen (delivered_lines tr)
  - zlen (inflightRecords s) - zlen (inflightLines s) - queued s.

Definition all_drops (tr : list label) (s : Shipper) : Z := sum_of label_dropped tr + lost tr s.

Definition inflight_of (p : phase) : list conn_record * list trace_line :=
  match p with Sending b => (TraceBatch.Records b, TraceBatch.Lines b) | _ => ([], []) end.

(** A counter that is reported in instalments: [total] so far, [sent] of it in
    accepted batches, [flying] of it in the batch on the wire, [owed] kept. *)
Definition instalments (total sent flying owed : Z) : Prop :=
  0 <= sent /\ 0 <= flying <= owed /\ sent + owed = total.

Definition flying (f : trace_batch -> Z) (p : phase) : Z :=
  match p with Sending b => f b | _ => 0 end.

(** The accounting invariant. *)
Record core (cfg : Config) (tr : list label) (s : Shipper) (p : phase) : Prop := {
  core_caps : 0 < maxBatchRecords s /\ 0 < maxBatchLines s /\ 0 < maxPending s /\
    maxBatchRecords s = maxBatchRecords (New cfg) /\ maxBatchLines s = maxBatchLines (New cfg) /\
    maxPending s = maxPending (New cfg);
  core_range : in_range s;
  core_inflight : (inflightRecords s, inflightLines s) = inflight_of p /\
    zlen (inflightRecords s) <= maxBatchRecords s /\ zlen (inflightLines s) <= maxBatchLines s;
  core_records : sublist (delivered_records tr ++ inflightRecords s ++ records s) (added_records tr);
  core_lines : sublist (delivered_lines tr ++ inflightLines s ++ lines s) (added_lines tr);
  core_shipped : shippedRecords s = u64 (zlen (delivered_records tr)) /\
    shippedLines s = u64 (zlen (delivered_lines tr)) /\ shippedBatches s = u64 (zlen (accepted tr));
  core_dropped_total : droppedTotal s = u64 (all_drops tr s);
  core_dropped : all_drops tr s < 2 ^ 64 ->
    instalments (all_drops tr s) (sum_of TraceBatch.Dropped (accepted tr))
      (flying TraceBatch.Dropped p) (dropped s) /\
    instalments (sum_of label_shed tr) (sum_of TraceBatch.ShedConnections (accepted tr))
      (flying TraceBatch.ShedConnections p) (shed s) /\
    shed s <= dropped s /\
    shed s - flying TraceBatch.ShedConnections p <= dropped s - flying TraceBatch.Dropped p;
  core_unparsed : unparsedTotal s = u64 (sum_of label_unparsed tr) /\
    (sum_of label_unparsed tr < 2 ^ 64 ->
     instalments (sum_of label_unparsed tr) (sum_of TraceBatch.Unparsed (accepted tr))
      (flying TraceBatch.Unparsed p) (unparsed s));
  core_sums : 0 <= sum_of label_unparsed tr /\
    0 <= sum_of label_shed tr <= sum_of label_dropped tr
}.

Lemma sublist_zlen {A} (l k : list A) : sublist l k -> zlen l <= zlen k.
Proof. intros H%sublist_length. unfold zlen. lia. Qed.

Lemma lost_nonneg cfg tr s p : core cfg tr s p -> 0 <= lost tr s.
Proof.
  intros [_ _ _ Hr%sublist_zlen Hl%sublist_zlen _ _ _ _]. autorewrite with zlen in *.
  unfold lost, queued. lia.
Qed.

Lemma core_new cfg : core cfg [] (New cfg) Idle /\ queued (New cfg) <= maxPending (New cfg).
Proof.
  assert (Hd : forall v d, 0 < d -> 0 < or_default v d).
  { intros v d Hd. unfold or_default. destruct (Z.leb_spec v 0); lia. }
  pose proof (Hd (cfgMaxPending cfg) defaultMaxPending ltac:(done)).
  pose proof (Hd (cfgMaxBatchRecords cfg) defaultMaxBatchRecords ltac:(done)).
  pose proof (Hd (cfgMaxBatchLines cfg) defaultMaxBatchLines ltac:(done)).
  split; [|unfold queued, zlen; simpl; lia].
  split; try done; simpl; split_all; try done; unfold zlen; simpl; lia.
Qed.

(** ** Steps that only edit the queues *)

(** Dropping the oldest of a queue loses exactly what is counted. *)
Lemma core_cut cfg tr s p nr nl :
  core cfg tr s p -> (nr <= length (records s))%nat -> (nl <= length (lines s))%nat ->
  core cfg tr (cut_to nr nl s) p.
Proof.
  intros C HR HL. pose proof (lost_nonneg _ _ _ _ C) as H0.
  destruct C as [Hcaps Hrng Hfl Hr Hl Hsh Hdt Hd Hu Hs].
  assert (Hlost : all_drops tr (cut_to nr nl s) = all_drops tr s + Z.of_nat (nr + nl)).
  { unfold all_drops, lost, queued, cut_to. upd. simpl. autorewrite with zlen.
    unfold zlen. lia. }
  split; try done.
  - destruct Hrng as (? & ? & ? & ? & ?). unfold in_range, cut_to. upd. simpl.
    auto with agent.
  - refine (transitivity _ Hr). apply sublist_app; [done|]. apply sublist_app; [done|].
    unfold cut_to. upd. simpl. apply sublist_drop.
  - refine (transitivity _ Hl). apply sublist_app; [done|]. apply sublist_app; [done|].
    unfold cut_to. upd. simpl. apply sublist_drop.
  - rewrite Hlost, <- u64_add_l, <- Hdt. done.
  - rewrite Hlost. intros Hlt. specialize (Hd ltac:(lia)). destruct Hrng as ((? & ?) & _).
    change (dropped (cut_to nr nl s)) with (u64 (dropped s + Z.of_nat (nr + nl))).
    change (shed (cut_to nr nl s)) with (shed s).
    unfold instalments in *. rewrite u64_small; lia.
Qed.

Lemma core_trim cfg tr s p :
  core cfg tr s p -> core cfg tr (trimLocked s) p /\ queued (trimLocked s) <= maxPending (trimLocked s).
Proof.
  intros C. destruct C as [Hcaps Hrng] eqn:EC. clear EC.
  destruct (trimLocked_spec s Hrng ltac:(lia)) as (nr & nl & -> & HR & HL & Hn & _).
  split; [by apply core_cut|].
  unfold queued, cut_to in *. upd. simpl. autorewrite with zlen. unfold zlen in *. lia.
Qed.

Lemma sublist_push {A} (a b q rs l : list A) :
  sublist (a ++ b ++ q) l -> sublist (a ++ b ++ q ++ rs) (l ++ rs).
Proof. intros H. rewrite !app_assoc. apply sublist_app; [by rewrite <- app_assoc|done]. Qed.

(** The counters and queues a state's accounting reads. *)
Lemma core_push_records cfg tr s p rs :
  core cfg tr s p -> core cfg (LAddRecords rs :: tr) (s <| records ::= fun q => q ++ rs |>) p.
Proof.
  intros [Hcaps Hrng Hfl Hr Hl Hsh Hdt Hd Hu Hs].
  assert (Ha : all_drops (LAddRecords rs :: tr) (s <| records ::= fun q => q ++ rs |>) = all_drops tr s).
  { unfold all_drops, lost, queued, delivered_records, delivered_lines. upd. simpl.
    autorewrite with zlen. lia. }
  split; rewrite ?Ha; try done. simpl. by apply sublist_push.
Qed.

Lemma core_push_lines cfg tr s p ls :
  core cfg tr s p -> core cfg (LAddLines ls :: tr) (s <| lines ::= fun q => q ++ ls |>) p.
Proof.
  intros [Hcaps Hrng Hfl Hr Hl Hsh Hdt Hd Hu Hs].
  assert (Ha : all_drops (LAddLines ls :: tr) (s <| lines ::= fun q => q ++ ls |>) = all_drops tr s).
  { unfold all_drops, lost, queued, delivered_records, delivered_lines. upd. simpl.
    autorewrite with zlen. lia. }
  split; rewrite ?Ha; try done. simpl. by apply sublist_push.
Qed.

(** A step that neither hands anything over nor counts anything. *)
Lemma core_silent cfg tr p l s' :
  added_records (l :: tr) = added_records tr -> added_lines (l :: tr) = added_lines tr ->
  accepted (l :: tr) = accepted tr ->
  label_dropped l = 0 -> label_shed l = 0 -> label_unparsed l = 0 ->
  core cfg tr s' p -> core cfg (l :: tr) s' p.
Proof.
  intros E1 E2 E3 E4 E5 E6 [Hcaps Hrng Hfl Hr Hl Hsh Hdt Hd Hu Hs].
  assert (Ha : all_drops (l :: tr) s' = all_drops tr s').
  { unfold all_drops, lost, delivered_records, delivered_lines. rewrite E1, E2, E3. simpl. lia. }
  assert (Hu' : sum_of label_unparsed (l :: tr) = sum_of label_unparsed tr) by (simpl; lia).
  assert (Hs' : sum_of label_shed (l :: tr) = sum_of label_shed tr) by (simpl; lia).
  assert (Hd' : sum_of label_dropped (l :: tr) = sum_of label_dropped tr) by (simpl; lia).
  split; unfold delivered_records, delivered_lines;
    rewrite ?Ha, ?E1, ?E2, ?E3, ?Hu', ?Hs', ?Hd'; done.
Qed.

(** ** Steps that count *)

Lemma instalments_more total sent fl owed n :
  instalments total sent fl owed -> 0 <= n -> total + n < 2 ^ 64 ->
  instalments (n + total) sent fl (u64 (owed + n)).
Proof. unfold instalments. intros ? ? ?. rewrite u64_small; lia. Qed.

Lemma core_add_unparsed cfg tr s p n :
  core cfg tr s p -> 0 <= n < 2 ^ 64 -> core cfg (LAddUnparsed n :: tr) (AddUnparsed n s) p.
Proof.
  intros C Hn. unfold AddUnparsed. destruct (Z.eqb_spec n 0) as [->|Hne].
  { by apply core_silent. }
  destruct C as [Hcaps Hrng Hfl Hr Hl Hsh Hdt Hd Hu Hs]. split; try done.
  - unfold in_range in *. upd. simpl. destruct Hrng as (? & ? & ? & ? & ?). auto with agent.
  - simpl. destruct Hu as [Hu1 Hu2]. split.
    + rewrite Hu1. upd. simpl. rewrite u64_add_l. f_equal. lia.
    + intros Hlt. apply instalments_more; [apply Hu2| |]; lia.
  - simpl. lia.
Qed.

Lemma all_drops_counted tr l s s' n :
  added_records (l :: tr) = added_records tr -> added_lines (l :: tr) = added_lines tr ->
  accepted (l :: tr) = accepted tr -> label_dropped l = n ->
  records s' = records s -> lines s' = lines s ->
  inflightRecords s' = inflightRecords s -> inflightLines s' = inflightLines s ->
  all_drops (l :: tr) s' = n + all_drops tr s.
Proof.
  unfold all_drops, lost, queued, delivered_records, delivered_lines.
  intros -> -> -> <- -> -> -> ->. simpl. lia.
Qed.

Lemma core_add_dropped cfg tr s p n :
  core cfg tr s p -> 0 <= n < 2 ^ 64 -> core cfg (LAddDropped n :: tr) (AddDropped n s) p.
Proof.
  intros C Hn. pose proof (lost_nonneg _ _ _ _ C) as H0.
  unfold AddDropped. destruct (Z.eqb_spec n 0) as [->|Hne]; [by apply core_silent|].
  destruct C as [Hcaps Hrng Hfl Hr Hl Hsh Hdt Hd Hu Hs].
  match goal with |- core _ _ ?s' _ =>
    pose proof (all_drops_counted tr (LAddDropped n) s s' n eq_refl eq_refl eq_refl eq_refl
      eq_refl eq_refl eq_refl eq_refl) as Ha end.
  split; rewrite ?Ha; try done.
  - unfold in_range in *. upd. simpl. destruct Hrng as (? & ? & ? & ? & ?). auto with agent.
  - upd. simpl. rewrite Hdt, u64_add_l. f_equal. lia.
  - intros Hlt. specialize (Hd ltac:(lia)). destruct Hd as (Hd1 & Hd2 & Hd3 & Hd4).
    split; [apply instalments_more; [done|lia..]|]. split; [done|].
    upd. simpl. unfold instalments in *. rewrite u64_small; lia.
  - simpl. lia.
Qed.

Lemma core_add_shed cfg tr s p n :
  core cfg tr s p -> 0 <= n < 2 ^ 64 -> core cfg (LAddShed n :: tr) (AddShed n s) p.
Proof.
  intros C Hn. pose proof (lost_nonneg _ _ _ _ C) as H0.
  unfold AddShed. destruct (Z.eqb_spec n 0) as [->|Hne]; [by apply core_silent|].
  destruct C as [Hcaps Hrng Hfl Hr Hl Hsh Hdt Hd Hu Hs].
  match goal with |- core _ _ ?s' _ =>
    pose proof (all_drops_counted tr (LAddShed n) s s' n eq_refl eq_refl eq_refl eq_refl
      eq_refl eq_refl eq_refl eq_refl) as Ha end.
  split; rewrite ?Ha; try done.
  - unfold in_range in *. upd. simpl. destruct Hrng as (? & ? & ? & ? & ?). auto with agent.
  - upd. simpl. rewrite Hdt, u64_add_l. f_equal. lia.
  - intros Hlt. specialize (Hd ltac:(lia)). destruct Hd as (Hd1 & Hd2 & Hd3 & Hd4).
    assert (sum_of label_shed tr <= all_drops tr s) by (unfold all_drops; lia).
    split; [apply instalments_more; [done|lia..]|].
    split; [apply (instalments_more (sum_of label_shed tr) _ _ _ n); [done|lia..]|].
    upd. simpl. unfold instalments in *. rewrite !u64_small; lia.
  - simpl. lia.
Qed.

(** ** The flush cycle *)

(** The counts a batch takes. *)
Definition batch_counts (s : Shipper) : nat * nat :=
  trimToByteBudget s (Z.to_nat (Z.min (zlen (records s)) (maxBatchRecords s)))
                     (Z.to_nat (Z.min (zlen (lines s)) (maxBatchLines s))).

Lemma trimToByteBudget_le s a b :
  (a <= length (records s))%nat -> (b <= length (lines s))%nat ->
  ((trimToByteBudget s a b).1 <= a /\ (trimToByteBudget s a b).2 <= b)%nat /\
  (0 < a + b -> 0 < (trimToByteBudget s a b).1 + (trimToByteBudget s a b).2)%nat.
Proof.
  intros HA HB. unfold trimToByteBudget.
  pose proof (budget_loop_spec record_cost 0 (take a (records s)) 0 0) as H.
  destruct (budget_loop record_cost _ _ _ _) as [size kr]. rewrite Nat.sub_0_r in H.
  pose proof (budget_loop_spec line_cost kr (take b (lines s)) size 0) as K.
  destruct (budget_loop line_cost _ _ _ _) as [size' kl]. rewrite Nat.sub_0_r in K.
  rewrite !length_take in *. destruct H as (H1 & _ & _ & H4 & _), K as (K1 & _ & _ & K4 & _). simpl.
  split; [lia|]. intros Hp. destruct (decide (0 < kr)%nat); [lia|].
  assert (a = 0)%nat.
  { destruct a; [done|]. destruct (records s); [simpl in *; lia|].
    specialize (H4 ltac:(simpl; done) eq_refl). lia. }
  destruct b; [lia|]. destruct (lines s); [simpl in *; lia|].
  specialize (K4 ltac:(simpl; done)). lia.
Qed.

Lemma batch_counts_le s :
  0 < maxBatchRecords s -> 0 < maxBatchLines s ->
  let '(r, l) := batch_counts s in
  (r <= length (records s))%nat /\ (l <= length (lines s))%nat /\
  Z.of_nat r <= maxBatchRecords s /\ Z.of_nat l <= maxBatchLines s /\
  (0 < queued s -> (0 < r + l)%nat).
Proof.
  intros Hr Hl. unfold batch_counts, queued, zlen.
  match goal with |- context [trimToByteBudget s ?a ?b] =>
    destruct (trimToByteBudget_le s a b ltac:(lia) ltac:(lia)) as [Hle Hp];
    destruct (trimToByteBudget s a b) as [r l] end.
  simpl in *. split_all; lia.
Qed.

(** [takeBatch] with the in-flight slices empty: the batch is the head of the
    queues, moved into the in-flight slices. *)
Definition taken (r l : nat) (s : Shipper) : Shipper :=
  s <| inflightRecords := take r (records s) |> <| records ::= drop r |>
    <| inflightLines := take l (lines s) |> <| lines ::= drop l |>.

Definition batch_of (now : time) (r l : nat) (s : Shipper) : trace_batch :=
  TraceBatch.mk (nodeID s) (coreGeneration s) (coreStartedAt s) (take r (records s))
    (take l (lines s)) (dropped s) (shed s) (unparsed s) now.

Lemma takeBatch_some now s s' b :
  inflightRecords s = [] -> inflightLines s = [] -> takeBatch now s = (s', Some b) ->
  s' = taken (batch_counts s).1 (batch_counts s).2 s /\
  b = batch_of now (batch_counts s).1 (batch_counts s).2 s.
Proof.
  intros HR HL. unfold takeBatch. case_match; [done|]. fold (batch_counts s).
  destruct (batch_counts s) as [r l]. case_match; [done|]. intros [= <- <-]. split; [|done].
  destruct s. simpl in HR, HL. subst. by destruct r, l.
Qed.

Lemma takeBatch_none now s :
  (takeBatch now s).2 = None -> (takeBatch now s).1 = s.
Proof.
  unfold takeBatch. case_match; [done|]. destruct (trimToByteBudget _ _ _). by case_match.
Qed.

Lemma core_take cfg tr s now r l :
  core cfg tr s Idle -> batch_counts s = (r, l) ->
  core cfg tr (taken r l s) (Sending (batch_of now r l s)) /\ queued (taken r l s) <= queued s.
Proof.
  intros [Hcaps Hrng Hfl Hr Hl Hsh Hdt Hd Hu Hs] Hb.
  pose proof (batch_counts_le s ltac:(lia) ltac:(lia)) as Hc. rewrite Hb in Hc.
  destruct Hfl as ([= HR HL] & _). rewrite HR, HL in *.
  assert (Ha : all_drops tr (taken r l s) = all_drops tr s).
  { unfold all_drops, lost, queued, taken. upd. simpl. rewrite HR, HL.
    autorewrite with zlen. unfold zlen. simpl. lia. }
  split.
  - split; rewrite ?Ha; try done.
    + split; [done|]. simpl. upd. simpl. rewrite !zlen_take. lia.
    + unfold taken. upd. simpl. by rewrite take_drop.
    + unfold taken. upd. simpl. by rewrite take_drop.
    + intros Hlt. specialize (Hd Hlt). unfold instalments in *. simpl in *. lia.
    + destruct Hu as [Hu1 Hu2]. split; [done|]. intros Hlt. specialize (Hu2 Hlt).
      unfold instalments in *. simpl in *. lia.
  - unfold queued, taken. upd. simpl. autorewrite with zlen.
    pose proof (zlen_nonneg (records s)). pose proof (zlen_nonneg (lines s)). lia.
Qed.

Lemma saturatingSub_le a b : b <= a -> saturatingSub a b = a - b.
Proof. unfold saturatingSub. destruct (Z.leb_spec a b); lia. Qed.

Lemma saturatingSub_range a b : 0 <= a < 2 ^ 64 -> 0 <= b -> 0 <= saturatingSub a b < 2 ^ 64.
Proof. unfold saturatingSub. destruct (Z.leb_spec a b); lia. Qed.

Lemma instalments_paid total sent fl owed :
  instalments total sent fl owed -> instalments total (sent + fl) 0 (saturatingSub owed fl).
Proof. unfold instalments. intros. rewrite saturatingSub_le; lia. Qed.

Lemma delivered_snoc {A} (f : trace_batch -> list A) (bs : list trace_batch) b :
  concat (map f (bs ++ [b])) = concat (map f bs) ++ f b.
Proof. rewrite map_app, concat_app. simpl. by rewrite app_nil_r. Qed.

(** The counters a batch carries are those of a state, so they are in range. *)
Definition batch_range (p : phase) : Prop :=
  match p with
  | Sending b => 0 <= TraceBatch.Dropped b /\ 0 <= TraceBatch.ShedConnections b /\
      0 <= TraceBatch.Unparsed b
  | _ => True
  end.

Lemma core_commit cfg tr s now b :
  core cfg tr s (Sending b) -> batch_range (Sending b) ->
  core cfg (LCommit now b :: tr) (commit now b s) Idle.
Proof.
  intros [Hcaps Hrng Hfl Hr Hl Hsh Hdt Hd Hu Hs] Hb.
  destruct Hfl as ([= HR HL] & Hf1 & Hf2).
  assert (Hdr : delivered_records (LCommit now b :: tr) = delivered_records tr ++ inflightRecords s).
  { unfold delivered_records. simpl. by rewrite delivered_snoc, HR. }
  assert (Hdl : delivered_lines (LCommit now b :: tr) = delivered_lines tr ++ inflightLines s).
  { unfold delivered_lines. simpl. by rewrite delivered_snoc, HL. }
  assert (Ha : all_drops (LCommit now b :: tr) (commit now b s) = all_drops tr s).
  { unfold all_drops, lost. rewrite Hdr, Hdl. unfold queued, commit. upd. simpl.
    autorewrite with zlen. unfold zlen. simpl. lia. }
  assert (Hac : forall f, sum_of f (accepted (LCommit now b :: tr)) = sum_of f (accepted tr) + f b).
  { intros f. apply sum_of_snoc. }
  split; rewrite ?Ha, ?Hdr, ?Hdl, ?Hac; try done.
  - destruct Hrng as (? & ? & ? & ? & ?), Hb as (? & ? & ?).
    unfold in_range, commit. upd. simpl. split_all; try apply saturatingSub_range; lia.
  - split; [done|]. split; unfold zlen; simpl; lia.
  - rewrite <- app_assoc. simpl. exact Hr.
  - rewrite <- app_assoc. simpl. exact Hl.
  - destruct Hsh as (H1 & H2 & H3). unfold commit. upd. simpl.
    rewrite H1, H2, H3, !u64_add_l, !zlen_app. done.
  - intros Hlt. destruct (Hd Hlt) as (H1 & H2 & H3 & H4).
    split; [by apply (instalments_paid _ _ (TraceBatch.Dropped b))|].
    split; [by apply (instalments_paid _ _ (TraceBatch.ShedConnections b))|].
    unfold instalments, commit in *. simpl flying in *. upd.
    rewrite !saturatingSub_le by lia. lia.
  - destruct Hu as [Hu1 Hu2]. split; [done|]. intros Hlt.
    by apply (instalments_paid _ _ (TraceBatch.Unparsed b)), Hu2.
Qed.

(** [restore] before its trim. *)
Definition put_back (s : Shipper) : Shipper :=
  s <| records := inflightRecords s ++ records s |> <| inflightRecords := [] |>
    <| lines := inflightLines s ++ lines s |> <| inflightLines := [] |>.

Lemma restore_eq s : restore s = trimLocked (put_back s).
Proof. destruct s as [? ? ? ? ? ? ? ir il]. unfold restore, put_back, prepend. by destruct ir, il. Qed.

Lemma core_put_back cfg tr s b :
  core cfg tr s (Sending b) -> core cfg tr (put_back s) Refused.
Proof.
  intros [Hcaps Hrng Hfl Hr Hl Hsh Hdt Hd Hu Hs].
  assert (Ha : all_drops tr (put_back s) = all_drops tr s).
  { unfold all_drops, lost, queued, put_back. upd. simpl. autorewrite with zlen.
    unfold zlen. simpl. lia. }
  split; rewrite ?Ha; try done.
  - split; [done|]. unfold zlen. simpl. lia.
  - intros Hlt. specialize (Hd Hlt). unfold instalments in *. simpl in *. lia.
  - destruct Hu as [Hu1 Hu2]. split; [done|]. intros Hlt. specialize (Hu2 Hlt).
    unfold instalments in *. simpl in *. lia.
Qed.

(** States that agree on what the accounting reads. *)
Lemma core_fail cfg tr s now status ra err :
  core cfg tr s Refused -> core cfg tr (recordFailure now status ra err s) Idle.
Proof.
  intros [Hcaps Hrng Hfl Hr Hl Hsh Hdt Hd Hu Hs]. unfold recordFailure.
  destruct (status =? _); split; done.
Qed.

(** ** Every reachable state *)

Definition inv cfg tr s p : Prop :=
  core cfg tr s p /\ queued s <= maxPending s /\ batch_range p.

Lemma core_step cfg tr s p l s' p' :
  inv cfg tr s p -> step s p l s' p' -> inv cfg (l :: tr) s' p'.
Proof.
  intros (C & B & R) Hst. destruct Hst as
    [s p rs|s p ls|s p g t|s p n Hn|s p n Hn|s p n Hn|s now Hn|s now b Hb|s now b|s b|s now st ra err].
  - destruct rs as [|x rs]; [split; [apply core_silent; simpl; rewrite ?app_nil_r; done|done]|].
    destruct (core_trim _ _ _ _ (core_push_records _ _ _ _ (x :: rs) C)) as [? ?].
    done.
  - destruct ls as [|x ls]; [split; [apply core_silent; simpl; rewrite ?app_nil_r; done|done]|].
    destruct (core_trim _ _ _ _ (core_push_lines _ _ _ _ (x :: ls) C)) as [? ?].
    done.
  - split; [|done]. apply core_silent; try done. destruct C. by split.
  - split; [by apply core_add_unparsed|]. unfold AddUnparsed. by case_match.
  - split; [by apply core_add_dropped|]. unfold AddDropped. by case_match.
  - split; [by apply core_add_shed|]. unfold AddShed. by case_match.
  - rewrite takeBatch_none by done. split; [by apply core_silent|done].
  - destruct (takeBatch now s) as [s' ob] eqn:E. simpl in Hb. subst ob.
    destruct (core_inflight _ _ _ _ C) as ([= HR HL] & _).
    apply takeBatch_some in E as [-> ->]; [|done..].
    destruct (batch_counts s) as [r l] eqn:Hbc.
    destruct (core_take _ _ _ now _ _ C Hbc) as [C' Q']. simpl.
    split; [by apply core_silent|]. split.
    + change (maxPending (taken r l s)) with (maxPending s). lia.
    + destruct (core_range _ _ _ _ C) as (? & ? & ? & ? & ?). simpl. lia.
  - split; [by apply core_commit|]. done.
  - rewrite restore_eq. destruct (core_trim _ _ _ _ (core_put_back _ _ _ _ C)) as [? ?].
    split; [by apply core_silent|done].
  - split; [apply core_silent; try done; by apply core_fail|].
    unfold recordFailure. by case_match.
Qed.

Lemma run_inv cfg tr s p : run cfg tr s p -> inv cfg tr s p.
Proof.
  induction 1; [|by eapply core_step].
  destruct (core_new cfg). by split.
Qed.

(** C7: every item is counted exactly once.  Whatever the interleaving of the
    callers with the flush cycle, the records the server accepted, then the
    ones on the wire, then the queued ones are the records handed over, in
    their order, less the dropped ones; likewise the lines; the shipped
    counters count what was accepted and [droppedTotal] what was handed over
    and is neither accepted nor held, plus what was counted from outside
    (all modulo 2^64). *)
Theorem items_accounted_once cfg tr s p :
  run cfg tr s p ->
  sublist (delivered_records tr ++ inflightRecords s ++ records s) (added_records tr) /\
  sublist (delivered_lines tr ++ inflightLines s ++ lines s) (added_lines tr) /\
  shippedRecords s = u64 (zlen (delivered_records tr)) /\
  shippedLines s = u64 (zlen (delivered_lines tr)) /\
  droppedTotal s = u64 (sum_of label_dropped tr +
    (zlen (added_records tr) - zlen (delivered_records tr ++ inflightRecords s ++ records s)) +
    (zlen (added_lines tr) - zlen (delivered_lines tr ++ inflightLines s ++ lines s))).
Proof.
  intros [[_ _ _ Hr Hl (H1 & H2 & _) Hd _ _ _] _]%run_inv. split_all; try done.
  rewrite Hd. unfold all_drops, lost, queued. autorewrite with zlen. f_equal. lia.
Qed.

(** memory is bounded.  The queues never hold more than [MaxPending] items,
    and with the one batch on the wire no more than that plus one batch is
    pending. *)
Theorem pending_bounded cfg tr s p :
  run cfg tr s p ->
  queued s <= maxPending (New cfg) /\
  stPending (StatsOf s) <=
    maxPending (New cfg) + maxBatchRecords (New cfg) + maxBatchLines (New cfg).
Proof.
  intros [[(_ & _ & _ & E1 & E2 & E3) _ (_ & H1 & H2) _ _ _ _ _ _ _] [Hq _]]%run_inv.
  rewrite <- E1, <- E2, <- E3. unfold queued in *. simpl. lia.
Qed.

(** no loss goes unreported.  As long as fewer than 2^64 were counted, the
    drops reported in accepted batches and the drops still owed are together
    all drops, and likewise for shed connections and unparsed lines; what the
    batch on the wire reports is still owed, so a refused report is repeated;
    and the shed connections are part of the drops. *)
Theorem losses_reach_server cfg tr s p :
  run cfg tr s p ->
  all_drops tr s < 2 ^ 64 -> sum_of label_unparsed tr < 2 ^ 64 ->
  sum_of TraceBatch.Dropped (accepted tr) + dropped s = all_drops tr s /\
  sum_of TraceBatch.ShedConnections (accepted tr) + shed s = sum_of label_shed tr /\
  sum_of TraceBatch.Unparsed (accepted tr) + unparsed s = sum_of label_unparsed tr /\
  flying TraceBatch.Dropped p <= dropped s /\
  flying TraceBatch.ShedConnections p <= shed s /\
  flying TraceBatch.Unparsed p <= unparsed s /\
  shed s <= dropped s.
Proof.
  intros [[_ _ _ _ _ _ _ Hd [_ Hu] _] _]%run_inv H1 H2.
  specialize (Hd H1). specialize (Hu H2). unfold instalments in *. lia.
Qed.

(** over capacity the oldest go, and the longer queue pays.  The trim drops
    exactly the excess, always from the front of the queues; a queue that lost
    something is afterwards at most one item longer than the other, and lines
    go first when both are equally long. *)
Theorem trim_drops_oldest_fairly s :
  in_range s -> 0 <= maxPending s ->
  exists nr nl,
    records (trimLocked s) = drop nr (records s) /\ lines (trimLocked s) = drop nl (lines s) /\
    Z.of_nat (nr + nl) = Z.max 0 (queued s - maxPending s) /\
    queued (trimLocked s) = Z.min (queued s) (maxPending s) /\
    ((0 < nr)%nat -> zlen (lines (trimLocked s)) <= zlen (records (trimLocked s))) /\
    ((0 < nl)%nat -> zlen (records (trimLocked s)) <= zlen (lines (trimLocked s)) + 1).
Proof.
  intros Hr Hm. destruct (trimLocked_spec s Hr Hm) as (nr & nl & -> & HR & HL & Hn & H1 & H2).
  exists nr, nl. unfold queued, cut_to in *. upd. split_all; try done.
  autorewrite with zlen. unfold zlen in *. lia.
Qed.
End ShipRun.

Module ShipFlush.
Import ShipFacts ShipRun.

Definition backing_off (now : time) (s : Shipper) : Prop :=
  retryUntil s <> 0 /\ now < retryUntil s.

(** Nothing left to say. *)
Definition drained (s : Shipper) : Prop :=
  records s = [] /\ lines s = [] /\ dropped s = 0 /\ unparsed s = 0 /\ shed s = 0.

Lemma take_none now s :
  0 < maxBatchRecords s -> 0 < maxBatchLines s -> (takeBatch now s).2 = None ->
  backing_off now s \/ drained s.
Proof.
  intros HR HL. unfold takeBatch.
  destruct (negb (is_zero_time (retryUntil s)) && time_before now (retryUntil s)) eqn:E.
  { unfold is_zero_time, time_before in E. bool_to_prop. by left. }
  pose proof (batch_counts_le s HR HL) as Hb. fold (batch_counts s).
  destruct (batch_counts s) as [r l]. case_match eqn:E2; [|done]. intros _. right.
  bool_to_prop. repeat match goal with H : (_ =? _)%nat = true |- _ => apply Nat.eqb_eq in H end.
  unfold queued, zlen in Hb.
  assert (length (records s) = 0 /\ length (lines s) = 0)%nat as [?%nil_length_inv ?%nil_length_inv] by lia.
  done.
Qed.

Lemma take_some_idle now s s' b :
  takeBatch now s = (s', Some b) -> ~ drained s.
Proof.
  unfold takeBatch. case_match; [done|]. intros E (Hr & Hl & Hd & Hu & Hs).
  rewrite Hr, Hl, Hd, Hu, Hs in E. unfold trimToByteBudget in E. by rewrite Hr, Hl, !take_nil in E.
Qed.

(** How many requests a flush may need. *)
Definition requests (s : Shipper) : Z :=
  queued s + (if (dropped s =? 0) && (unparsed s =? 0) && (shed s =? 0) then 0 else 1).

Lemma saturatingSub_self a : saturatingSub a a = 0.
Proof. unfold saturatingSub. by rewrite Z.leb_refl. Qed.

Lemma requests_commit now now' s r l :
  0 < maxBatchRecords s -> 0 < maxBatchLines s -> batch_counts s = (r, l) -> ~ drained s ->
  requests (commit now' (batch_of now r l s) (taken r l s)) < requests s.
Proof.
  intros HR HL Hb Hnd. pose proof (batch_counts_le s HR HL) as Hc. rewrite Hb in Hc.
  unfold requests, queued, commit, taken. upd. simpl. rewrite !saturatingSub_self. simpl.
  autorewrite with zlen. unfold queued, zlen in *.
  destruct ((dropped s =? 0) && _ && _) eqn:E; [|lia].
  bool_to_prop. assert (~ (length (records s) = 0 /\ length (lines s) = 0)%nat); [|lia].
  intros [?%nil_length_inv ?%nil_length_inv]. by apply Hnd.
Qed.

Section Flush.
Context (ParseTime : string -> option time).
Context {E : Type} (clock : E -> time * E) (exchange : E -> trace_batch -> outcome * E).
Context (cfg : Config).

Definition flushed (e : E) (tr : list label) (s : Shipper) (res : option (Shipper * option string * E)) :=
  exists tr' s' r e', res = Some (s', r, e') /\ run cfg (tr' ++ tr) s' Idle /\
    delivered_records (tr' ++ tr) ++ records s' = delivered_records tr ++ records s /\
    delivered_lines (tr' ++ tr) ++ lines s' = delivered_lines tr ++ lines s /\
    match r with
    | None => s' = s /\ backing_off (clock e).1 s \/ drained s'
    | Some err => lastError s' = err
    end.

Lemma restore_taken s r l :
  in_range s -> 0 <= maxPending s -> queued s <= maxPending s ->
  records (restore (taken r l s)) = records s /\ lines (restore (taken r l s)) = lines s.
Proof.
  intros Hr Hm Hq. rewrite restore_eq. unfold trimLocked.
  assert (Hq' : zlen (records (put_back (taken r l s))) + zlen (lines (put_back (taken r l s))) = queued s).
  { unfold put_back, taken, queued. upd. by rewrite !take_drop. }
  rewrite Hq'. change (maxPending (put_back (taken r l s))) with (maxPending s).
  destruct (Z.leb_spec (queued s - maxPending s) 0); [|lia].
  unfold put_back, taken. upd. by rewrite !take_drop.
Qed.

Lemma recordFailure_fields now st ra err s :
  records (recordFailure now st ra err s) = records s /\
  lines (recordFailure now st ra err s) = lines s /\
  lastError (recordFailure now st ra err s) = err.
Proof. unfold recordFailure. by case_match. Qed.

Lemma flush_spec fuel : forall e tr s,
  run cfg tr s Idle -> requests s < Z.of_nat fuel ->
  flushed e tr s (Flush ParseTime clock exchange fuel e s).
Proof.
  induction fuel as [|fuel IH]; intros e tr s Hrun Hf.
  { unfold requests, queued in Hf. pose proof (zlen_nonneg (records s)).
    pose proof (zlen_nonneg (lines s)). destruct (_ && _) in Hf; lia. }
  destruct (run_inv _ _ _ _ Hrun) as (C & Hq & _).
  destruct (core_caps _ _ _ _ C) as (HR & HL & HP & _).
  destruct (core_inflight _ _ _ _ C) as ([= FR FL] & _).
  simpl. destruct (clock e) as [now e1] eqn:Ec.
  destruct (takeBatch now s) as [s1 [b|]] eqn:Et; last first.
  { pose proof (takeBatch_none now s) as Hn. pose proof (take_none now s HR HL) as Hd.
    rewrite Et in Hn, Hd. simpl in *. specialize (Hn eq_refl). subst s1.
    exists [], s, None, e1. split_all; try done. rewrite Ec. simpl. destruct (Hd eq_refl); auto. }
  assert (Hrun1 : run cfg (LTake now :: tr) s1 (Sending b)).
  { apply (run_step _ _ _ _ _ _ _ Hrun). replace s1 with (takeBatch now s).1 by (by rewrite Et).
    apply step_take. by rewrite Et. }
  pose proof (take_some_idle _ _ _ _ Et) as Hnd.
  apply takeBatch_some in Et as [-> ->]; [|done..].
  destruct (batch_counts s) as [r l] eqn:Hbc. simpl in Hrun1 |- *.
  destruct (post _ _ _ _ _) as [[[st ra] [err|]] e2].
  - destruct (clock e2) as [now2 e3].
    exists [LFail now2 st ra err; LRestore; LTake now], (recordFailure now2 st ra err (restore (taken r l s))),
      (Some err), e3.
    destruct (recordFailure_fields now2 st ra err (restore (taken r l s))) as (-> & -> & Hle).
    destruct (restore_taken s r l (core_range _ _ _ _ C) ltac:(lia) Hq) as [-> ->].
    split_all; try done. simpl. eapply run_step; [|constructor]. eapply run_step; [|constructor]. done.
  - destruct (clock e2) as [now2 e3].
    set (s2 := commit now2 (batch_of now r l s) (taken r l s)).
    assert (Hrun2 : run cfg (LCommit now2 (batch_of now r l s) :: LTake now :: tr) s2 Idle).
    { eapply run_step; [done|constructor]. }
    pose proof (requests_commit now now2 s r l HR HL Hbc Hnd) as Hlt. fold s2 in Hlt.
    destruct (IH e3 _ _ Hrun2 ltac:(lia)) as (tr' & s' & res & e' & E1 & E2 & E3 & E4 & E5).
    exists (tr' ++ [LCommit now2 (batch_of now r l s); LTake now]), s', res, e'.
    rewrite <- app_assoc. simpl. split_all; try done.
    + rewrite E3. unfold delivered_records, s2, commit, taken. upd. simpl.
      rewrite delivered_snoc. simpl. by rewrite <- app_assoc, take_drop.
    + rewrite E4. unfold delivered_lines, s2, commit, taken. upd. simpl.
      rewrite delivered_snoc. simpl. by rewrite <- app_assoc, take_drop.
    + destruct res; [done|]. destruct E5 as [[_ [Hz _]]|]; [|by right]. by destruct Hz.
Qed.

End Flush.
End ShipFlush.

Module ShipBackoff.
Import ShipFacts ShipRun ShipFlush.

Lemma backoff_loop_spec i : forall wait,
  0 < wait -> Z.min maxBackoff (backoff_loop i wait) = Z.min maxBackoff (wait * 2 ^ Z.of_nat i).
Proof.
  induction i as [|i IH]; intros wait Hw; [simpl; f_equal; lia|].
  simpl backoff_loop. rewrite Nat2Z.inj_succ, Z.pow_succ_r by lia.
  pose proof (Z.pow_pos_nonneg 2 (Z.of_nat i) ltac:(lia) ltac:(lia)).
  destruct (Z.ltb_spec wait maxBackoff) as [Hlt|Hge].
  - rewrite i64_small by (unfold maxBackoff, minute, second, min_i64, max_i64 in *; lia).
    rewrite IH by lia. f_equal. lia.
  - rewrite !Z.min_l; nia.
Qed.

(** the wait after the n-th refusal in a row is the flush interval doubled
    n - 1 times, capped at one minute; the doubling never overflows, whatever
    the interval. *)
Theorem backoff_closed_form failures base :
  backoffFor failures base =
    Z.min maxBackoff (or_default base defaultFlushInterval * 2 ^ Z.max 0 (failures - 1)).
Proof.
  unfold backoffFor. fold (or_default base defaultFlushInterval).
  assert (0 < or_default base defaultFlushInterval).
  { unfold or_default. destruct (Z.leb_spec base 0); [done|lia]. }
  replace (Z.max 0 (failures - 1)) with (Z.of_nat (Z.to_nat (failures - 1))) by lia.
  rewrite <- backoff_loop_spec by done. destruct (Z.ltb_spec maxBackoff (backoff_loop
    (Z.to_nat (failures - 1)) (or_default base defaultFlushInterval))); lia.
Qed.

Definition refusal_wait (s : Shipper) (retryAfter : duration) : duration :=
  if retryAfter <=? 0 then backoffFor (i64 (backoffFailures s + 1)) (flushInterval s) else retryAfter.

(** a refused agent stays quiet.  After a 429 no flush sends anything until
    the wait the server asked for, or failing that the backoff, is over: the
    shipper is left as it is and the environment sees only a clock reading.
    Any other failure leaves an earlier wait alone. *)
Theorem too_many_requests_waits {E} ParseTime (clock : E -> time * E) exchange
    now status retryAfter err s e fuel :
  0 < now -> (clock e).1 < now + refusal_wait s retryAfter -> 0 <= refusal_wait s retryAfter ->
  let s' := recordFailure now status retryAfter err s in
  if status =? StatusTooManyRequests
  then Flush ParseTime clock exchange (S fuel) e s' = Some (s', None, (clock e).2)
  else retryUntil s' = retryUntil s /\ backoffFailures s' = backoffFailures s.
Proof.
  intros Hn Ht Hw. cbv zeta. unfold recordFailure. destruct (status =? StatusTooManyRequests); [|done].
  simpl. destruct (clock e) as [t e'] eqn:Ec. simpl in Ht. unfold takeBatch. upd.
  match goal with |- context [time_add now ?w] => change w with (refusal_wait s retryAfter) end.
  unfold time_add, is_zero_time, time_before.
  destruct (Z.eqb_spec (now + refusal_wait s retryAfter) 0); [lia|].
  by destruct (Z.ltb_spec t (now + refusal_wait s retryAfter)); [|lia].
Qed.
End ShipBackoff.

(** ** Concrete runs *)
Module ShipSamples.
Import ShipFacts ShipRun ShipFlush ShipBackoff.

Definition ship_cfg : Config := mkConfig " node-1 " 2 2 3 0.
Definition rec (n : Z) : conn_record := zero_record <| ConnRecord.LogID := n |>.
Definition raw (n : Z) : trace_line := TraceLine.mk "node-1" 0 "info" n "" "m" "m" "s".

(** Four records over a capacity of three, then a batch accepted while a line
    is added. *)
Definition ship_labels : list label :=
  [LAddRecords [rec 1; rec 2; rec 3; rec 4]; LAddShed 2; LTake 10; LAddLines [raw 9]].
Definition ship_before : Shipper :=
  Eval vm_compute in AddShed 2 (AddRecords [rec 1; rec 2; rec 3; rec 4] (New ship_cfg)).
Definition ship_batch : trace_batch := Eval vm_compute in
  default (TraceBatch.mk "" 0 0 [] [] 0 0 0 0) (takeBatch 10 ship_before).2.
Definition ship_during : Shipper :=
  Eval vm_compute in AddLines [raw 9] (takeBatch 10 ship_before).1.
Definition ship_after : Shipper := Eval vm_compute in commit 11 ship_batch ship_during.
Definition ship_trace : list label := LCommit 11 ship_batch :: rev ship_labels.

Lemma ship_run_before : run ship_cfg (rev (take 2 ship_labels)) ship_before Idle.
Proof.
  eapply (run_step _ _ (AddRecords [rec 1; rec 2; rec 3; rec 4] (New ship_cfg)) Idle).
  - eapply (run_step _ _ _ Idle); [apply run_new|apply step_records].
  - change ship_before with (AddShed 2 (AddRecords [rec 1; rec 2; rec 3; rec 4] (New ship_cfg))).
    by apply step_shed.
Qed.

Lemma ship_run : run ship_cfg ship_trace ship_after Idle.
Proof.
  eapply (run_step _ _ ship_during (Sending ship_batch)); [|change ship_after with (commit 11 ship_batch ship_during); apply step_commit].
  eapply (run_step _ _ (takeBatch 10 ship_before).1 (Sending ship_batch)).
  - eapply run_step; [apply ship_run_before|by apply step_take].
  - change ship_during with (AddLines [raw 9] (takeBatch 10 ship_before).1). apply step_lines.
Qed.

Lemma items_accounted_once_witness :
  sublist ([rec 2; rec 3] ++ [] ++ [rec 4]) [rec 1; rec 2; rec 3; rec 4] /\
  droppedTotal ship_after = 3.
Proof.
  pose proof (items_accounted_once ship_cfg ship_trace ship_after Idle ship_run) as (H & _ & _ & _ & D).
  split; [exact H|reflexivity].
Defined.

Lemma pending_bounded_witness : queued ship_after <= 3.
Proof. exact (proj1 (pending_bounded ship_cfg ship_trace ship_after Idle ship_run)). Defined.

Lemma losses_reach_server_witness :
  sum_of TraceBatch.Dropped (accepted ship_trace) + dropped ship_after = 3.
Proof.
  exact (proj1 (losses_reach_server ship_cfg ship_trace ship_after Idle ship_run
    ltac:(vm_compute; reflexivity) ltac:(vm_compute; reflexivity))).
Defined.

Lemma trim_drops_oldest_fairly_witness :
  queued (trimLocked (ship_before <| lines := [raw 7; raw 8] |>)) = 3.
Proof.
  destruct (trim_drops_oldest_fairly (ship_before <| lines := [raw 7; raw 8] |>))
    as (nr & nl & _ & _ & _ & H & _).
  - vm_compute. repeat split; discriminate.
  - vm_compute. discriminate.
  - exact H.
Defined.

Lemma byte_budget_kept_witness : batch_bytes ship_during 1 1 <= maxBatchBytes.
Proof.
  refine (proj1 (proj2 (proj2 (byte_budget_kept ship_during 1 1 1 1 _ _ _))) _);
    [vm_compute; reflexivity|vm_compute; lia..].
Defined.

Definition accept_all (e : Z) (b : trace_batch) : outcome * Z :=
  (Responded StatusOK "200 OK" "" "", e).
Definition refuse_all (e : Z) (b : trace_batch) : outcome * Z :=
  (Responded StatusTooManyRequests "429 Too Many Requests" "7" "slow  down", e).
Definition tick_clock (e : Z) : time * Z := (e, e + second).

Example flush_refused :
  match Flush (fun _ => None) tick_clock refuse_all 5 second ship_before with
  | Some (s, r, _) => (r, retryUntil s, zlen (records s))
  | None => (None, 0, 0)
  end = (Some "ship trace batch: 429 Too Many Requests: slow down"%string, 10 * second, 3).
Proof. reflexivity. Qed.


Lemma too_many_requests_waits_witness :
  Flush (fun _ => None) tick_clock refuse_all 3 (2 * second)
    (recordFailure second 429 (7 * second) "busy" ship_before)
  = Some (recordFailure second 429 (7 * second) "busy" ship_before, None, 3 * second).
Proof.
  apply (too_many_requests_waits (fun _ => None) tick_clock refuse_all second 429 (7 * second) "busy"
    ship_before (2 * second) 2); vm_compute; [reflexivity|reflexivity|discriminate].
Defined.
End ShipSamples.
