(* ===== verification/Collector.v ===== *)
(** * The trace collector (cmd/lattice-agent/tracesource.go)

    The collector owns the pipeline: the assembler, the budget guard and the
    shipper of the running core, the merged policy, the per-connection capture
    state, the raw log queue and the status it reports.  Its mutex makes each
    method atomic; a hook of the log stream, a tick of the assembler loop or a
    connection poll is one function of the state.  Network answers, file reads
    and clocks are arguments. *)
From S2P Require Import Prelude GoStrings SingboxLog SDK TraceShed SessionAsm TracePolicy TraceShip.

Local Open Scope Z_scope.

Definition defaultTraceBudgetLines : Z := 5000.
Definition traceStreamGrace : duration := 15 * second.
Definition traceConnPollFailLimit : Z := 3.
Definition traceDiscoveryFailLimit : Z := traceConnPollFailLimit.
Definition traceLinesWindow : Z := 10.
Definition tracePendingPerConn : nat := 8.
Definition tracePendingConns : nat := 512.
Definition traceRawQueueMax : Z := 5000.

(** [Time.Unix]: the whole seconds since 1970. *)
Definition unix (t : time) : Z := t / second - 62135596800.

Definition Parsed (l : line) : bool := negb (bool_decide (Line.Ev l = EventOther)).

Module Collector.

(** [model.CollectorStatus]: the part the collector keeps. *)
Record CollectorStatus := mkStatus {
  stState : CollectorState;
  stSince : time;
  stClashAPIAddr : string;
  stAddrSource : string;
  stDetail : string
}.
#[export] Instance CollectorStatus_eta : Etable CollectorStatus := fun s =>
  mkStatus (stState s) (stSince s) (stClashAPIAddr s) (stAddrSource s) (stDetail s).

Record traceCollector := mk {
  policy : Set_;
  generation : Z;
  coreStart : time;
  asm : option Asm.Assembler;
  shipper : option Ship.Shipper;
  guard : option Guard.Guard;
  hasClient : bool;
  haveLevel : string;
  runCancel : bool;
  streamCancel : bool;
  addr : string;
  lastUpload : Z;
  lastDownload : Z;
  sawTotals : bool;
  observationGaps : Z;
  lastAsmDropped : Z;
  lastAsmPartial : Z;
  serverSkew : duration;
  budget : Z;
  configured : bool;
  status : CollectorStatus;
  streamEpoch : Z;
  streamOpen : bool;
  streamOpened : bool;
  streamDownSince : time;
  streamErr : string;
  connPollFailures : Z;
  connErr : string;
  discoveryFailures : Z;
  discoveryErr : string;
  secretHash : string;
  lineSecs : list Z;
  lineCounts : list Z;
  unparsedTotal : Z;
  shedTotal : Z;
  countersSince : time;
  pending : gmap Z (list trace_line);
  pendingOrder : list Z;
  tagged : gmap Z (list string);
  rawSourceID : string;
  rawQueue : list string;
  rawDropped : Z;
  rawEpoch : Z;
  unparsed : Z
}.

#[export] Instance traceCollector_eta : Etable traceCollector := fun c =>
  mk (policy c) (generation c) (coreStart c) (asm c) (shipper c) (guard c) (hasClient c)
     (haveLevel c) (runCancel c) (streamCancel c) (addr c) (lastUpload c) (lastDownload c)
     (sawTotals c) (observationGaps c) (lastAsmDropped c) (lastAsmPartial c) (serverSkew c)
     (budget c) (configured c) (status c) (streamEpoch c) (streamOpen c) (streamOpened c)
     (streamDownSince c) (streamErr c) (connPollFailures c) (connErr c) (discoveryFailures c)
     (discoveryErr c) (secretHash c) (lineSecs c) (lineCounts c) (unparsedTotal c) (shedTotal c)
     (countersSince c) (pending c) (pendingOrder c) (tagged c) (rawSourceID c) (rawQueue c)
     (rawDropped c) (rawEpoch c) (unparsed c).

Definition newTraceCollector (start : time) : traceCollector :=
  mk zero_set 1 0 None None None false "" false false "" 0 0 false 0 0 0 0 0 false
     (mkStatus CollectorOff start "" "" "") 0 false false 0 "" 0 "" 0 "" "" 
     (replicate 11 0) (replicate 11 0) 0 0 start ∅ [] ∅ "" [] 0 0 0.

(** ** The per-second line ring *)

Definition ring_slot (sec : Z) : nat := Z.to_nat (sec mod 11).

Definition countLineLocked (now : time) (c : traceCollector) : traceCollector :=
  let sec := unix now in
  let i := ring_slot sec in
  let c := if bool_decide (lineSecs c !! i = Some sec) then c
           else c <| lineSecs ::= <[i := sec]> |> <| lineCounts ::= <[i := 0]> |> in
  c <| lineCounts ::= alter (fun n => u32 (n + 1)) i |>.

(** The sum [linesPerSecLocked] divides by the window. *)
Definition linesInWindow (now : time) (c : traceCollector) : Z :=
  let cur := unix now in
  foldr (fun '(sec, n) acc => if (cur - traceLinesWindow <=? sec) && (sec <? cur)
                              then u64 (acc + n) else acc)
    0 (zip (lineSecs c) (lineCounts c)).

(** ** The pre-identity buffer *)

Definition remove_first (id : Z) (l : list Z) : list Z :=
  match list_find (eq id) l with
  | Some (i, _) => take i l ++ drop (S i) l
  | None => l
  end.

Definition bufferPending (logID : Z) (l : trace_line) (c : traceCollector) : traceCollector :=
  if bool_decide (is_Some (tagged c !! logID)) then c
  else
    let c :=
      if bool_decide (is_Some (pending c !! logID)) then c
      else
        let c :=
          if (tracePendingConns <=? length (pendingOrder c))%nat then
            match pendingOrder c with
            | oldest :: rest => c <| pendingOrder := rest |> <| pending ::= delete oldest |>
            | [] => c
            end
          else c in
        c <| pendingOrder ::= fun o => o ++ [logID] |> in
    let q := default [] (pending c !! logID) in
    if (tracePendingPerConn <=? length q)%nat then c
    else c <| pending ::= <[logID := q ++ [l]]> |>.

Definition stamp (sessionIDs : list string) (q : list trace_line) : list trace_line :=
  concat (map (fun s => map (fun l => l <| TraceLine.SessionID := s |>) q) sessionIDs).

Definition claimPending (logID : Z) (sessionIDs : list string) (c : traceCollector)
    : traceCollector * list trace_line :=
  if bool_decide (is_Some (tagged c !! logID)) then (c, [])
  else
    let q := default [] (pending c !! logID) in
    (c <| tagged ::= <[logID := sessionIDs]> |> <| pending ::= delete logID |>
       <| pendingOrder ::= remove_first logID |>,
     stamp sessionIDs q).

Definition forgetConn (logID : Z) (c : traceCollector) : traceCollector :=
  let c := c <| tagged ::= delete logID |> in
  if bool_decide (is_Some (pending c !! logID))
  then c <| pending ::= delete logID |> <| pendingOrder ::= remove_first logID |>
  else c.

(** ** The raw log queue *)

Definition setRawSourceLocked (id : string) (c : traceCollector) : traceCollector :=
  let c := if String.eqb id "" && ((0 <? zlen (rawQueue c)) || (0 <? rawDropped c))
           then c <| rawQueue := [] |> <| rawDropped := 0 |> <| rawEpoch ::= fun e => u64 (e + 1) |>
           else c in
  c <| rawSourceID := id |>.

Definition effectiveRawSourceID (cfg : TraceAgentConfig) : string :=
  match pRaw (cPolicy cfg) with
  | Some false => ""
  | _ => trim_space (cRawSourceID cfg)
  end.

(** What [flushRaw] puts on the wire, and the epoch it was taken in. *)
Record rawBatch := mkRaw { rbSource : string; rbLines : list string; rbDropped : Z; rbEpoch : Z }.

(** [flushRaw] up to the request, and after the server took it. *)
Definition flushRaw_begin (c : traceCollector) : option rawBatch :=
  if String.eqb (rawSourceID c) "" || (zlen (rawQueue c) =? 0) then None
  else Some (mkRaw (rawSourceID c) (rawQueue c) (rawDropped c) (rawEpoch c)).

Definition flushRaw_end (b : rawBatch) (accepted : bool) (c : traceCollector) : traceCollector :=
  if accepted && (rawEpoch c =? rbEpoch b)
  then c <| rawQueue ::= drop (length (rbLines b)) |> <| rawDropped := 0 |>
  else c.

Section Methods.
Context `{ConnVocabulary} `{TraceLevels} `{CollectorVocabulary}.

(** ** The status *)

Definition setStatusLocked (now : time) (state : CollectorState) (detail : string)
    (c : traceCollector) : traceCollector * bool :=
  let c := c <| configured := true |>
             <| status ::= fun s => s <| stDetail := BoundCollectorDetail detail |> |> in
  if bool_decide (stState (status c) = state) then (c, false)
  else (c <| status ::= fun s => s <| stState := state |> <| stSince := now |> |>, true).

(** The result says whether the state changed, which is when the beat is
    nudged. *)
Definition setStatus (now : time) (state : CollectorState) (detail a source : string)
    (c : traceCollector) : traceCollector * bool :=
  setStatusLocked now state detail
    (c <| status ::= fun s => s <| stClashAPIAddr := a |> <| stAddrSource := source |> |>).

Definition evaluateStream (now : time) (c : traceCollector) : traceCollector * bool :=
  if negb (runCancel c) then (c, false)
  else if connPollFailures c >=? traceConnPollFailLimit
  then setStatusLocked now CollectorStreamFailing ("connections: " +:+ connErr c) c
  else if discoveryFailures c >=? traceDiscoveryFailLimit
  then setStatusLocked now CollectorNoClashAPI
         (discoveryErr c +:+ "; the stream to " +:+ addr c +:+ " keeps running") c
  else if streamOpen c then setStatusLocked now CollectorReady "" c
  else if negb (is_zero_time (streamDownSince c))
          && (time_sub now (streamDownSince c) >=? traceStreamGrace)
  then setStatusLocked now CollectorStreamFailing ("log stream: " +:+ streamErr c) c
  else if negb (streamOpened c) && negb (String.eqb (streamErr c) "")
  then setStatusLocked now CollectorStreamFailing ("log stream: " +:+ streamErr c) c
  else (c, false).

(** [Status]: what the metrics beat reports. *)
Record StatusReport := mkReport {
  rpStatus : CollectorStatus;
  rpLevel : string;
  rpRawLines : bool;
  rpLinesInWindow : Z;
  rpBudgetLinesPerSec : Z;
  rpShedConnections : Z;
  rpUnparsed : Z;
  rpCountersSince : time
}.

Definition Status (now : time) (c : traceCollector) : option StatusReport :=
  if negb (configured c) then None
  else Some (mkReport (status c)
    (if bool_decide (stState (status c) = CollectorReady) then haveLevel c else "")
    (negb (String.eqb (rawSourceID c) "") && runCancel c)
    (linesInWindow now c)
    (if budget c <=? 0 then defaultTraceBudgetLines else budget c)
    (shedTotal c) (unparsedTotal c) (countersSince c)).

(** ** Stream hooks and discovery *)

Definition noteStreamOpen (now : time) (epoch : Z) (c : traceCollector) : traceCollector :=
  if negb (streamEpoch c =? epoch) then c
  else (evaluateStream now (c <| streamOpen := true |> <| streamOpened := true |>
                              <| streamDownSince := 0 |> <| streamErr := "" |>)).1.

Definition noteStreamError (now : time) (epoch : Z) (err : string) (c : traceCollector)
    : traceCollector :=
  let c := c <| observationGaps ::= fun n => u64 (n + 1) |> in
  if negb (streamEpoch c =? epoch) then c
  else
    let c := c <| streamOpen := false |> in
    let c := if is_zero_time (streamDownSince c) then c <| streamDownSince := now |> else c in
    (evaluateStream now (c <| streamErr := err |>)).1.

Definition noteDiscovery (now : time) (detail : string) (c : traceCollector) : traceCollector :=
  let c := if String.eqb detail "" then c <| discoveryFailures := 0 |> <| discoveryErr := "" |>
           else c <| discoveryFailures ::= fun n => i64 (n + 1) |> <| discoveryErr := detail |> in
  (evaluateStream now c).1.

(** What reading the node's sing-box config gave: a failure with its one-line
    detail, or [experimental.clash_api] (absent, or its controller). *)
Inductive clashRead := ReadFailed (detail : string) | ReadConfig (controller : option string).

(** [singboxapi.ValidateLoopbackAddr] is an argument of [resolveAddr]. *)
Definition resolveAddr (ValidateLoopbackAddr : string -> option string) (configPath : string)
    (pol : TracePolicyCfg) (read : clashRead) : string * string * string * bool :=
  let a := trim_space (pClashAPIAddr pol) in
  if negb (String.eqb a "") then (a, ClashAddrFromPolicy, "", false)%string
  else match read with
  | ReadFailed detail => ("", "", detail, true)%string
  | ReadConfig None => ("", "", "no experimental.clash_api in " +:+ configPath, false)%string
  | ReadConfig (Some ctl) =>
      if String.eqb ctl ""
      then ("", "", "experimental.clash_api in " +:+ configPath +:+ " has no external_controller", false)%string
      else match ValidateLoopbackAddr ctl with
      | Some normalized => (normalized, ClashAddrFromConfig, "", false)%string
      | None => ("", "", "external_controller " +:+ ctl +:+ " in " +:+ configPath
                   +:+ " is not a loopback host:port", false)%string
      end
  end.

(** ** The pipeline *)

Definition setBudget (n : Z) (c : traceCollector) : traceCollector :=
  let n := if n <=? 0 then defaultTraceBudgetLines else n in
  let c := c <| budget := n |> in
  c <| guard ::= fmap (fun g => Guard.SetBudget g n) |>.

(** [startPipeline]: [secret] is what the secret files gave, [client] the error
    of building the API client, if any; a hash of the secret is kept. *)
Definition startPipeline (now : time) (nodeID a source : string) (secret : string + string)
    (client : option string) (hash : string -> string) (c : traceCollector) : traceCollector * bool :=
  match secret with
  | inl err =>
      ((setStatus now CollectorSecretUnreadable
         ("cannot read the Clash API secret: " +:+ err) a source c).1, false)
  | inr sec =>
      match client with
      | Some err => ((setStatus now CollectorNoClashAPI err a source c).1, false)
      | None =>
          let b := if budget c <=? 0 then defaultTraceBudgetLines else budget c in
          let newAsm := Asm.New (Asm.mkOptions nodeID (generation c) 0 0 0 0 0 0) in
          let newShipper := Ship.New (Ship.mkConfig nodeID 0 0 0 0) in
          (c <| hasClient := true |> <| asm := Some newAsm |>
             <| shipper := Some (Ship.SetCore (generation c) (coreStart c) newShipper) |>
             <| guard := Some (Guard.New b DefaultRingCapacity) |> <| runCancel := true |> <| addr := a |>
             <| status ::= fun s => s <| stClashAPIAddr := a |> <| stAddrSource := source |> |>
             <| connPollFailures := 0 |> <| connErr := "" |>
             <| secretHash := hash (trim_space sec) |>, true)
      end
  end.

(** [refreshSecret]: a changed secret is taken only while the stream is down. *)
Definition refreshSecret (secret : string + string) (hash : string -> string) (c : traceCollector)
    : traceCollector * bool :=
  match secret with
  | inl _ => (c, false)
  | inr sec =>
      let sum := hash (trim_space sec) in
      if String.eqb sum (secretHash c) || negb (hasClient c) || streamOpen c then (c, false)
      else (c <| secretHash := sum |>, true)
  end.

Definition restartStream (level : string) (c : traceCollector) : traceCollector :=
  if negb (hasClient c) || negb (bool_decide (is_Some (asm c)))
     || negb (bool_decide (is_Some (guard c))) || negb (runCancel c) then c
  else c <| streamCancel := true |> <| haveLevel := level |> <| streamEpoch ::= fun e => u64 (e + 1) |>
         <| streamOpen := false |> <| streamOpened := false |>
         <| streamDownSince := 0 |> <| streamErr := "" |>.

(** [stop] returns the shipper with everything it is to deliver last. *)
Definition stop (c : traceCollector) : traceCollector * option Ship.Shipper :=
  let c' := c <| streamCancel := false |> <| runCancel := false |> <| asm := None |>
    <| shipper := None |> <| hasClient := false |> <| guard := None |> <| haveLevel := "" |>
    <| addr := "" |> <| streamEpoch ::= fun e => u64 (e + 1) |> <| streamOpen := false |>
    <| streamOpened := false |> <| streamDownSince := 0 |> <| streamErr := "" |>
    <| connPollFailures := 0 |> <| connErr := "" |> <| discoveryFailures := 0 |>
    <| discoveryErr := "" |> <| secretHash := "" |> in
  match asm c, shipper c with
  | Some a, Some sh =>
      let sh := Ship.AddRecords (Asm.Drain a).2 sh in
      match guard c with
      | Some g =>
          let '(_, (sheds, drops)) := Guard.Take g in
          (c' <| shedTotal ::= fun n => u64 (n + sheds) |>,
           Some (Ship.AddDropped drops (Ship.AddShed sheds sh)))
      | None => (c', Some sh)
      end
  | _, _ => (c', None)
  end.

(** [applyConfig], with the answers of the config read, the secret read and the
    client construction. *)
Definition applyConfig (now : time) (nodeID : string) (resolved : string * string * string * bool)
    (secret : string + string) (client : option string) (hash : string -> string)
    (cfg : TraceAgentConfig) (c : traceCollector) : traceCollector :=
  let set := Build cfg now in
  let c := if is_zero_time (cServerTime cfg) then c
           else c <| serverSkew := time_sub (cServerTime cfg) now |> in
  let c := setRawSourceLocked (effectiveRawSourceID cfg) (c <| policy := set |>) in
  let pipelineUp := runCancel c in
  let running := addr c in
  let runningSource := stAddrSource (status c) in
  let have := haveLevel c in
  let c := setBudget (pBudgetLinesPerSec (cPolicy cfg)) c in
  if negb (Enabled set) then (setStatus now CollectorOff "" "" "" (stop c).1).1
  else
    let '(a, source, detail, transient) := resolved in
    if String.eqb a "" && negb (transient && pipelineUp)
    then (setStatus now CollectorNoClashAPI detail "" "" (stop c).1).1
    else
      let keep := String.eqb a "" in
      let a := if keep then running else a in
      let source := if keep then runningSource else source in
      let c := noteDiscovery now (if keep then detail else "") c in
      let replaced := pipelineUp && negb (String.eqb running a) in
      let c := if replaced then (stop c).1 else c in
      let pipelineUp := pipelineUp && negb replaced in
      if negb pipelineUp then
        let '(c, ok) := startPipeline now nodeID a source secret client hash c in
        if negb ok then c
        else if String.eqb "" (SubscribeLevel set) then c
        else restartStream (SubscribeLevel set) c
      else
        let c := c <| status ::= fun s => s <| stClashAPIAddr := a |> <| stAddrSource := source |> |> in
        let '(c, resubscribe) := refreshSecret secret hash c in
        if String.eqb have (SubscribeLevel set) && negb resubscribe then c
        else restartStream (SubscribeLevel set) c.

(** ** The hot path *)

(** The user and destination a line is matched with: the connection's, where
    the assembler knows them. *)
Definition line_identity (a : Asm.Assembler) (l : line) : string * string :=
  let user := Line.User l in
  let dst := Line.DstHost l in
  if Line.HasLogID l then
    let ctx := Asm.Context a (Line.LogID l) in
    if Asm.cKnown ctx then
      ((if String.eqb (Asm.cUser ctx) "" then user else Asm.cUser ctx),
       (if String.eqb (Asm.cDstHost ctx) "" then dst else Asm.cDstHost ctx))
    else (user, dst)
  else (user, dst).

Definition base_line (nodeID : string) (now : time) (l : line) : trace_line :=
  TraceLine.mk nodeID now (Line.Level l) (Line.LogID l) (Line.Tag l) (Line.Message l) (Line.Raw l) "".

Definition queue_raw (keep : bool) (l : line) (c : traceCollector) : traceCollector :=
  if keep && negb (String.eqb (rawSourceID c) "") then
    if zlen (rawQueue c) <? traceRawQueueMax
    then c <| rawQueue ::= fun q => q ++ [Line.Raw l] |>
    else c <| rawDropped ::= fun n => u64 (n + 1) |>
  else c.

(** An admitted line after the assembler has it: what is queued, buffered,
    claimed and shipped. *)
Definition deliver (nodeID : string) (now : time) (l : line) (a : Asm.Assembler) (sh : Ship.Shipper)
    (c : traceCollector) : traceCollector :=
  let '(user, dst) := line_identity a l in
  let decision := Match (policy c) l user dst in
  let base := base_line nodeID now l in
  let c := queue_raw (Keep decision) l c in
  let claimed := tagged c !! Line.LogID l in
  let alreadyTagged := bool_decide (is_Some claimed) in
  if Line.HasLogID l && negb alreadyTagged && (zlen (SessionIDs decision) =? 0)
  then bufferPending (Line.LogID l) base c
  else
    let '(c, sessions, backlog) :=
      if Line.HasLogID l then
        match claimed with
        | Some ss => (c, ss, [])
        | None =>
            if 0 <? zlen (SessionIDs decision) then
              let '(c, backlog) := claimPending (Line.LogID l) (SessionIDs decision) c in
              (c, SessionIDs decision, backlog)
            else (c, SessionIDs decision, [])
        end
      else (c, SessionIDs decision, []) in
    let a := if Line.HasLogID l && (0 <? zlen sessions) && negb alreadyTagged
             then Asm.Tag a (Line.LogID l) sessions else a in
    let sh := Ship.AddLines backlog sh in
    let c := c <| asm := Some a |> in
    if (negb (Keep decision) && negb alreadyTagged) || (zlen sessions =? 0)
    then c <| shipper := Some sh |>
    else c <| shipper := Some (Ship.AddLines
           (map (fun s => base <| TraceLine.SessionID := s |>) sessions) sh) |>.

(** One entry of the log stream; [entry] is what [ParseEntry] made of it,
    [clock] the assembler's clock. *)
Definition onEntry (nodeID : string) (now clock : time) (entry : option line) (c : traceCollector)
    : traceCollector :=
  let c := countLineLocked now c in
  match guard c, asm c with
  | Some g, Some a =>
      let '(g, under) := Guard.Ceiling g now in
      let c := c <| guard := Some g |> in
      if negb under then c
      else
        let bad := match entry with None => true | Some l => negb (Parsed l) end in
        let c := if bad then c <| unparsed ::= fun n => u64 (n + 1) |>
                              <| unparsedTotal ::= fun n => u64 (n + 1) |> else c in
        match entry with
        | None => c
        | Some l =>
            let '(g, admitted) := Guard.Admit g now l (Line.HasLogID l && Asm.Tracked a (Line.LogID l)) in
            let c := c <| guard := Some g |> in
            if negb admitted then c
            else
              let a := Asm.LineIn a clock l in
              let c := c <| asm := Some a |> in
              match shipper c with
              | None => c
              | Some sh => deliver nodeID now l a sh c
              end
        end
  | _, _ => c
  end.

(** ** Restarts, polls and ticks *)

Definition noteCoreRestart (now clock : time) (c : traceCollector) : traceCollector :=
  let gen := u64 (generation c + 1) in
  c <| generation := gen |> <| coreStart := now |>
    <| asm ::= fmap (fun a => Asm.CoreRestart a gen clock now) |>
    <| guard ::= fmap Guard.Reset |>
    <| shipper ::= fmap (Ship.SetCore gen now) |>.

(** One round of [pollConnections]: an error, or the totals and the items. *)
Definition pollConnections (now clock : time) (answer : string + (Z * Z * Asm.Snapshot))
    (c : traceCollector) : traceCollector :=
  match answer with
  | inl err =>
      (evaluateStream now (c <| connPollFailures ::= fun n => i64 (n + 1) |> <| connErr := err |>)).1
  | inr (up, down, snap) =>
      let c := c <| connPollFailures := 0 |> <| connErr := "" |> in
      let regressed := sawTotals c && ((up <? lastUpload c) || (down <? lastDownload c)) in
      let c := c <| lastUpload := up |> <| lastDownload := down |> <| sawTotals := true |> in
      let c := (evaluateStream now c).1 in
      let c := if regressed then noteCoreRestart now clock c else c in
      c <| asm ::= fmap (fun a => Asm.SnapshotIn a clock snap) |>
  end.

Definition expireSessionsLocally (now : time) (c : traceCollector) : traceCollector :=
  let set := policy c in
  let next := ExpiresNext set in
  let t := time_add now (serverSkew c) in
  if is_zero_time next || time_before t next then c
  else
    let rebuilt := Build (mkConfig (PolicyOf set) (ActiveSessions set) "" 0) t in
    let c := c <| policy := rebuilt |> in
    if String.eqb (SubscribeLevel rebuilt) (haveLevel c) then c
    else restartStream (SubscribeLevel rebuilt) c.

Definition forget_final (records : list conn_record) (c : traceCollector) : traceCollector :=
  foldl (fun c r => if ConnRecord.Open r then c else forgetConn (ConnRecord.LogID r) c) c records.

(** The part of a tick that hands the loss counters to the shipper. *)
Definition forward_losses (c : traceCollector) : traceCollector :=
  match asm c, shipper c, guard c with
  | Some a, Some sh, Some g =>
      let st := Asm.StatsOf a in
      let '(g, (sheds, drops)) := Guard.Take g in
      let n := unparsed c in
      let c := c <| guard := Some g |> <| unparsed := 0 |> <| shedTotal ::= fun k => u64 (k + sheds) |> in
      let d := u64 (Asm.sDropped st - lastAsmDropped c) in
      let '(c, drops) := if 0 <? d then (c <| lastAsmDropped := Asm.sDropped st |>, u64 (drops + d))
                         else (c, drops) in
      let d := u64 (Asm.sPartial st - lastAsmPartial c) in
      let '(c, drops) := if 0 <? d then (c <| lastAsmPartial := Asm.sPartial st |>, u64 (drops + d))
                         else (c, drops) in
      c <| shipper := Some (Ship.AddShed sheds (Ship.AddDropped drops (Ship.AddUnparsed n sh))) |>
  | _, _, _ => c
  end.

(** One tick of [driveAssembler], less the raw flush, which is its own step. *)
Definition driveTick (now clock : time) (c : traceCollector) : traceCollector :=
  let c := expireSessionsLocally now c in
  match asm c with
  | None => c
  | Some a =>
      let '(a, records) := Asm.Drain (Asm.Tick a clock now) in
      let c := c <| asm := Some a |> in
      let c := match records with
               | [] => c
               | _ => (forget_final records c) <| shipper ::= fmap (Ship.AddRecords records) |>
               end in
      (evaluateStream now (forward_losses c)).1
  end.
End Methods.
End Collector.
