(* ===== verification/CollectorRing.v ===== *)
(** * The collector's line-rate ring

    [Module LineRate] proves the ring of per-second counters of the collector
    ([countLineLocked], [linesPerSecLocked]) equal to counting the lines of the
    window directly. *)
From S2P Require Import Prelude GoStrings SingboxLog SDK Collector.
From stdpp Require Import sorting.

Local Open Scope Z_scope.

Module LineRate.
Import Collector.

(** How many of the seconds satisfy [P]. *)
Definition count (P : Z -> bool) (us : list Z) : Z := zlen (List.filter P us).

Lemma count_cons P u us : count P (u :: us) = (if P u then 1 else 0) + count P us.
Proof. unfold count, zlen. simpl. destruct (P u); simpl length; lia. Qed.

Lemma count_app P us vs : count P (us ++ vs) = count P us + count P vs.
Proof. unfold count. rewrite List.filter_app. unfold zlen. rewrite length_app. lia. Qed.

Lemma count_ext P Q us : (forall u, u ∈ us -> P u = Q u) -> count P us = count Q us.
Proof.
  induction us as [|u us IH]; intros Hpq; [done|].
  rewrite !count_cons, IH by set_solver. by rewrite Hpq by set_solver.
Qed.

Lemma count_none P us : (forall u, u ∈ us -> P u = false) -> count P us = 0.
Proof.
  induction us as [|u us IH]; intros Hp; [done|].
  rewrite count_cons, IH by set_solver. by rewrite Hp by set_solver.
Qed.

Lemma count_bound P us : 0 <= count P us <= zlen us.
Proof.
  unfold count, zlen. split; [lia|]. induction us as [|u us IH]; simpl; [lia|].
  destruct (P u); simpl length; lia.
Qed.

Lemma ring_slot_lt u : (ring_slot u < 11)%nat.
Proof. unfold ring_slot. pose proof (Z.mod_pos_bound u 11 ltac:(lia)). lia. Qed.

Lemma zsum_add (f g : nat -> Z) l :
  foldr Z.add 0 (map (fun i => f i + g i) l) = foldr Z.add 0 (map f l) + foldr Z.add 0 (map g l).
Proof. induction l; simpl; lia. Qed.

Lemma zsum_indicator k (b : bool) :
  (k < 11)%nat ->
  foldr Z.add 0 (map (fun i => if b && bool_decide (k = i) then 1 else 0) (seq 0 11)) = if b then 1 else 0.
Proof. intros Hk. destruct b; [|done]. do 11 (destruct k as [|k]; [done|]). lia. Qed.

(** Every second is in exactly one slot. *)
Lemma count_by_slot P us :
  foldr Z.add 0 (map (fun i => count (fun u => P u && bool_decide (ring_slot u = i)) us) (seq 0 11))
  = count P us.
Proof.
  induction us as [|u us IH]; [done|]. rewrite count_cons, <-IH.
  erewrite map_ext by (intros i; apply count_cons). rewrite zsum_add. f_equal.
  apply zsum_indicator, ring_slot_lt.
Qed.

(** The latest second of a slot, and how many lines came in that second. *)
Definition slot_sec (us : list Z) (i : nat) : Z :=
  foldl (fun s u => if bool_decide (ring_slot u = i) then u else s) 0 us.
Definition slot_count (us : list Z) (i : nat) : Z :=
  count (fun u => (u =? slot_sec us i) && bool_decide (ring_slot u = i)) us.

Lemma slot_sec_snoc us u i :
  slot_sec (us ++ [u]) i = if bool_decide (ring_slot u = i) then u else slot_sec us i.
Proof. unfold slot_sec. by rewrite foldl_app. Qed.

Lemma slot_sec_spec us i :
  StronglySorted Z.le us ->
  (forall u, u ∈ us -> ring_slot u = i -> u <= slot_sec us i) /\
  (slot_sec us i = 0 \/ slot_sec us i ∈ us /\ ring_slot (slot_sec us i) = i).
Proof.
  induction us as [|u us IH] using rev_ind; intros Hs.
  { split; [set_solver|by left]. }
  apply StronglySorted_app in Hs as (Hle & Hs & _). destruct (IH Hs) as [Hub Hin].
  rewrite slot_sec_snoc. case_bool_decide as Hi.
  - split; [|right; set_solver]. intros v [Hv|Hv]%elem_of_app _; [apply Hle; set_solver|].
    assert (v = u) as -> by set_solver. lia.
  - split; [|set_solver]. intros v [Hv|Hv]%elem_of_app Hvi; [by apply Hub|set_solver].
Qed.

Lemma slot_count_snoc us u i :
  StronglySorted Z.le (us ++ [u]) -> 0 <= u ->
  slot_count (us ++ [u]) i =
    if bool_decide (ring_slot u = i)
    then (if bool_decide (slot_sec us i = u) then slot_count us i else 0) + 1
    else slot_count us i.
Proof.
  intros Hs Hu. apply StronglySorted_app in Hs as (Hle & Hs & _).
  unfold slot_count. rewrite slot_sec_snoc, count_app, count_cons.
  change (count _ []) with 0. rewrite Z.add_0_r.
  case_bool_decide as Hi; rewrite ?andb_false_r; [|lia].
  rewrite Z.eqb_refl. cbn [andb]. f_equal. case_bool_decide as Heq; [by rewrite Heq|].
  apply count_none. intros v Hv. apply andb_false_iff.
  destruct (Z.eqb_spec v u) as [->|]; [right|by left]. apply bool_decide_eq_false_2. intros Hvi.
  destruct (slot_sec_spec us i Hs) as [Hub [H0|[Hin Hslot]]]; specialize (Hub u Hv Hvi); [lia|].
  specialize (Hle _ u Hin ltac:(set_solver)). lia.
Qed.

(** Writing one slot of a table of eleven. *)
Lemma insert_slot {A} (f : nat -> A) i x :
  (i < 11)%nat ->
  <[i := x]> (map f (seq 0 11)) = map (fun j => if bool_decide (i = j) then x else f j) (seq 0 11).
Proof. intros Hi. do 11 (destruct i as [|i]; [done|]). lia. Qed.

Lemma lookup_slot {A} (f : nat -> A) i : (i < 11)%nat -> map f (seq 0 11) !! i = Some (f i).
Proof. intros Hi. do 11 (destruct i as [|i]; [done|]). lia. Qed.

Lemma alter_slot (g : Z -> Z) f i :
  (i < 11)%nat ->
  alter g i (map f (seq 0 11)) = map (fun j => if bool_decide (i = j) then g (f j) else f j) (seq 0 11).
Proof. intros Hi. do 11 (destruct i as [|i]; [done|]). lia. Qed.

Lemma ring_holds c ts :
  lineSecs c = replicate 11 0 -> lineCounts c = replicate 11 0 ->
  StronglySorted Z.le (map unix ts) -> Forall (fun t => 0 <= unix t) ts -> zlen ts < 2 ^ 32 ->
  let c' := foldl (fun c t => countLineLocked t c) c ts in
  lineSecs c' = map (slot_sec (map unix ts)) (seq 0 11) /\
  lineCounts c' = map (slot_count (map unix ts)) (seq 0 11).
Proof.
  intros Hc1 Hc2. induction ts as [|t ts IH] using rev_ind; intros Hs Hpos Hlen; [done|].
  rewrite foldl_snoc. rewrite map_app in *. cbn [map] in *. unfold zlen in *. rewrite length_app in Hlen. simpl length in Hlen.
  apply Forall_app in Hpos as [Hpos Ht]. apply Forall_cons in Ht as [Ht _].
  destruct IH as [Is Ic]; [by apply StronglySorted_app_1_l in Hs|done|lia|].
  set (us := map unix ts) in *. set (u := unix t) in *.
  set (c1 := foldl _ c ts) in *. clearbody c1. pose proof (ring_slot_lt u) as Hlt.
  assert (Hsmall : forall i, u32 (slot_count us i + 1) = slot_count us i + 1).
  { intros i. unfold u32. apply Z.mod_small. unfold slot_count.
    match goal with |- context [count ?P us] => pose proof (count_bound P us) as Hb end.
    unfold us, zlen in Hb. rewrite length_map in Hb. unfold us. lia. }
  unfold countLineLocked. fold u. rewrite Is, lookup_slot by done.
  rewrite (bool_decide_ext _ (slot_sec us (ring_slot u) = u)) by (split; congruence).
  case_bool_decide as Hsec; upd; rewrite ?Is, ?Ic, ?insert_slot, ?alter_slot by done.
  - split; apply map_ext; intros i; [rewrite slot_sec_snoc|rewrite (slot_count_snoc us u i Hs Ht)].
    + case_bool_decide; [by subst|done].
    + case_bool_decide as Hi; [|done]. subst i. by rewrite bool_decide_eq_true_2, Hsmall by done.
  - split; apply map_ext; intros i; [rewrite slot_sec_snoc|rewrite (slot_count_snoc us u i Hs Ht)].
    + by case_bool_decide.
    + case_bool_decide as Hi; [|done]. subst i. by rewrite bool_decide_eq_false_2 by done.
Qed.

(** The sum over the slots of the window, without the machine width. *)
Lemma window_sum cur (f : nat -> Z) (g : nat -> Z) l :
  (forall i, 0 <= g i) -> foldr Z.add 0 (map g l) < 2 ^ 64 ->
  foldr (fun '(sec, n) acc => if (cur - traceLinesWindow <=? sec) && (sec <? cur) then u64 (acc + n) else acc)
    0 (zip (map f l) (map g l))
  = foldr Z.add 0 (map (fun i => if (cur - traceLinesWindow <=? f i) && (f i <? cur) then g i else 0) l)
  /\ 0 <= foldr Z.add 0 (map g l)
  /\ 0 <= foldr Z.add 0 (map (fun i => if (cur - traceLinesWindow <=? f i) && (f i <? cur) then g i else 0) l)
       <= foldr Z.add 0 (map g l).
Proof.
  intros Hg. induction l as [|i l IH]; cbn [map foldr zip zip_with]; [lia|]. intros Hlt.
  pose proof (Hg i). assert (foldr Z.add 0 (map g l) < 2 ^ 64) by lia.
  destruct IH as (IHe & IHp & IHb); [done|]. rewrite IHe.
  destruct (_ && _); split; try lia. rewrite u64_small; lia.
Qed.

Lemma slot_counts_bound us : foldr Z.add 0 (map (slot_count us) (seq 0 11)) <= zlen us.
Proof.
  transitivity (count (fun _ => true) us); [|apply count_bound].
  rewrite <-(count_by_slot (fun _ => true)). generalize (seq 0 11) as l.
  induction l as [|i l IH]; cbn [map foldr]; [lia|]. apply Z.add_le_mono; [|done].
  unfold slot_count. generalize (slot_sec us i) as s. intros s. clear.
  induction us as [|u us IH]; [done|]. rewrite !count_cons. cbv beta. revert IH. destruct (_ =? s), (bool_decide _); cbn [andb]; intros; lia.
Qed.

(** Two seconds of one slot are equal or eleven apart. *)
Lemma same_slot u v : ring_slot u = ring_slot v -> u < v -> u + 11 <= v.
Proof.
  unfold ring_slot. intros Hs Hlt. pose proof (Z.mod_pos_bound u 11). pose proof (Z.mod_pos_bound v 11).
  pose proof (Z.div_mod u 11). pose proof (Z.div_mod v 11). lia.
Qed.

(** the reported line rate is exact.  With the wall clock not going back, the
    ring counts exactly the lines of the ten whole seconds before the current
    one: eleven slots are enough for none of them to be overwritten, and a
    slot left from an earlier round is never counted. *)
Theorem line_rate_exact c ts now :
  lineSecs c = replicate 11 0 -> lineCounts c = replicate 11 0 ->
  StronglySorted Z.le (map unix (ts ++ [now])) -> Forall (fun t => 0 <= unix t) ts -> zlen ts < 2 ^ 32 ->
  linesInWindow now (foldl (fun c t => countLineLocked t c) c ts)
  = zlen (List.filter (fun t => (unix now - 10 <=? unix t) && (unix t <? unix now)) ts).
Proof.
  intros Hc1 Hc2 Hs Hpos Hlen. rewrite map_app in Hs. cbn [map] in Hs.
  apply StronglySorted_app in Hs as (Hle & Hs & _).
  destruct (ring_holds c ts Hc1 Hc2 Hs Hpos Hlen) as [Hr1 Hr2]. cbv zeta in *.
  unfold linesInWindow. rewrite Hr1, Hr2. set (us := map unix ts) in *. set (cur := unix now) in *.
  transitivity (count (fun u => (cur - 10 <=? u) && (u <? cur)) us).
  2: { unfold count, us, zlen. clear. f_equal. induction ts; simpl; [done|]. case_match; simpl; lia. }
  assert (Hus : zlen us < 2 ^ 32) by (unfold us, zlen in *; by rewrite length_map).
  assert (Hup : Forall (fun u => 0 <= u) us) by (by apply Forall_map).
  assert (Hsum : foldr Z.add 0 (map (slot_count us) (seq 0 11)) < 2 ^ 64).
  { pose proof (slot_counts_bound us). lia. }
  destruct (window_sum cur (slot_sec us) (slot_count us) (seq 0 11)) as [-> _];
    [intros i; apply count_bound|done|].
  rewrite <-count_by_slot. f_equal. apply map_ext. intros i.
  destruct (slot_sec_spec us i Hs) as [Hub Hin]. unfold slot_count, traceLinesWindow.
  assert (Hcur : forall u, u ∈ us -> 0 <= u /\ u <= cur /\
    ((u =? slot_sec us i) && bool_decide (ring_slot u = i) = true \/
     bool_decide (ring_slot u = i) = false \/ u < slot_sec us i /\ u < cur - 10)).
  { intros u Hu. assert (0 <= u) by (by eapply (proj1 (Forall_forall _ _)) in Hup).
    split; [done|]. split; [apply Hle; set_solver|].
    destruct (decide (ring_slot u = i)) as [Hi|]; [|right; left; by apply bool_decide_eq_false_2].
    specialize (Hub u Hu Hi). destruct (Z.eq_dec u (slot_sec us i)) as [->|Hne].
    { left. by rewrite Z.eqb_refl, bool_decide_eq_true_2. }
    do 2 right. split; [lia|]. destruct Hin as [|[Hin Hslot]]; [lia|].
    pose proof (Hle _ cur Hin ltac:(set_solver)). pose proof (same_slot u (slot_sec us i)). lia. }
  destruct (_ && (slot_sec us i <? cur)) eqn:Ew.
  - apply count_ext. intros u Hu. destruct (Hcur u Hu) as (? & ? & [E|[E|[E1 E2]]]).
    + rewrite E. apply andb_true_iff in E as [->%Z.eqb_eq E]. by rewrite Ew, E.
    + by rewrite E, !andb_false_r.
    + assert ((u =? slot_sec us i) = false) as -> by lia. by assert ((cur - 10 <=? u) = false) as -> by lia.
  - symmetry. apply count_none. intros u Hu. destruct (Hcur u Hu) as (? & ? & [E|[E|[E1 E2]]]).
    + apply andb_true_iff in E as [->%Z.eqb_eq E]. by rewrite Ew.
    + by rewrite E, !andb_false_r.
    + by assert ((cur - 10 <=? u) = false) as -> by lia.
Qed.

Lemma line_rate_exact_witness : linesInWindow 62135596830000000000
  (foldl (fun c t => countLineLocked t c) (newTraceCollector 0)
     [62135596801000000000; 62135596821000000000; 62135596821500000000; 62135596830000000000]) = 2.
Proof.
  rewrite (line_rate_exact (newTraceCollector 0)); [reflexivity..| | |done].
  - cbn. repeat constructor; unfold unix, second; vm_compute; discriminate.
  - repeat constructor; vm_compute; discriminate.
Defined.
End LineRate.
