(* ===== verification/CollectorProps.v ===== *)
(** * Properties of the trace collector

    [TrackerIface] states what the collector relies on from whatever assembles
    connections; the assembler discharges it.  [CollectorProps] is the
    collector as a transition system and what every run of it guarantees. *)
From S2P Require Import Prelude GoStrings SingboxLog SDK TraceShed.
From S2P Require Import SessionAsm SessionAsmInv SessionAsmSteps SessionAsmProps.
From S2P Require Import TracePolicy TraceShip Collector.

Local Open Scope Z_scope.

(** ** What the collector needs of the assembler *)

(** Operations on a tracker other than feeding a line, as the collector uses
    them. *)
Inductive tracker_op :=
  | TrSnapshot (clock : time) (s : Asm.Snapshot)
  | TrTick (clock now : time)
  | TrRestart (generation : Z) (clock now : time)
  | TrTag (id : Z) (sessions : list string)
  | TrDrain.

(** A tracker of connections: which log ids it tracks, how a line is fed and
    how the other operations act.  Its laws: feeding a line tracks at most
    that line's id in addition, and nothing else adds a tracked id. *)
Class Tracker (T : Type) := {
  tr_tracked : T -> Z -> bool;
  tr_feed : T -> time -> line -> T;
  tr_op : T -> tracker_op -> T;
  tr_ok : T -> Prop
}.
Class TrackerLaws (T : Type) `{Tracker T} := {
  feed_ok : forall t clock l, tr_ok t -> tr_ok (tr_feed t clock l);
  op_ok : forall t o, tr_ok t -> tr_ok (tr_op t o);
  feed_tracked : forall t clock l id, tr_ok t -> tr_tracked (tr_feed t clock l) id = true ->
    tr_tracked t id = true \/ id = Line.LogID l;
  op_tracked : forall t o id, tr_ok t -> tr_tracked (tr_op t o) id = true -> tr_tracked t id = true
}.

Section AsmTracker.
Context `{ConnVocabulary}.
Import Asm AsmInv AsmSteps AsmProps.

#[export] Instance asm_tracker : Tracker Asm.Assembler := {|
  tr_tracked := Tracked;
  tr_feed := LineIn;
  tr_op a o := match o with
    | TrSnapshot clock s => SnapshotIn a clock s
    | TrTick clock now => Tick a clock now
    | TrRestart g clock now => CoreRestart a g clock now
    | TrTag id ss => Tag a id ss
    | TrDrain => (Drain a).1
    end;
  tr_ok := inv |}.

Lemma done_reset d id : DoneSet.has (DoneSet.reset d) id = false.
Proof. unfold DoneSet.has, DoneSet.reset. upd. apply bool_decide_eq_false_2. set_solver. Qed.

Lemma restart_tracked a g clock t id :
  inv a -> Tracked (CoreRestart a g clock t) id = true -> Tracked a id = true.
Proof.
  intros Hinv. rewrite restart_eq. generalize (if is_zero_time t then clock else t). intros u.
  pose proof (restart_moves (fun _ => False) a u Hinv) as Hm.
  rewrite (Tracked_spec _ id). intros [Ho|Hd]; [|exfalso].
  2: { revert Hd. upd. by rewrite done_reset. }
  assert (Ht : Tracked (restart_sweep a u) id = true) by (apply Tracked_spec; left; exact Ho).
  by destruct (moves_tracked _ _ _ id Hinv Hm Ht).
Qed.

#[export] Instance asm_tracker_laws : TrackerLaws Asm.Assembler.
Proof.
  split.
  - intros a clock l. exact (step_inv a (OpLine clock l)).
  - intros a [clock s|clock now|g clock now|i ss|]; simpl.
    + exact (step_inv a (OpSnapshot clock s)).
    + exact (step_inv a (OpTick clock now)).
    + exact (step_inv a (OpRestart g clock now)).
    + exact (step_inv a (OpTag i ss)).
    + exact (step_inv a OpDrain).
  - intros a clock l id Hinv. simpl. intros Ht.
    destruct (moves_tracked _ _ _ id Hinv (LineIn_moves a clock l Hinv) Ht); auto.
  - intros a o id Hinv. destruct o as [clock s|clock now|g clock now|i ss|]; simpl; intros Ht.
    + by destruct (moves_tracked _ _ _ id Hinv (SnapshotIn_moves (fun _ => False) a clock s Hinv) Ht).
    + by destruct (moves_tracked _ _ _ id Hinv (Tick_moves (fun _ => False) a clock now Hinv) Ht).
    + by apply restart_tracked in Ht.
    + by destruct (moves_tracked _ _ _ id Hinv (Tag_moves (fun _ => False) a i ss Hinv) Ht).
    + done.
Qed.
End AsmTracker.

(** ** The guard's marks *)
Module GuardMarks.
Import ShedRing Guard.

Lemma has_spec r x : has r x = true <-> is_Some (ids r !! x).
Proof. unfold has. by rewrite bool_decide_eq_true. Qed.

Lemma has_add_inv r id x : has (add r id) x = true -> x = id \/ has r x = true.
Proof.
  rewrite !has_spec. unfold add. upd. intros [m [[-> _]|[Hne Hx]]%lookup_insert_Some]; [by left|right].
  destruct (ring_victim _ _ _) as [old|]; [|by eexists]. case_match; [|by eexists].
  apply lookup_delete_Some in Hx as [_ Hx]. by eexists.
Qed.

Lemma has_remove_inv r id x : has (remove r id) x = true -> x <> id /\ has r x = true.
Proof.
  rewrite !has_spec. unfold remove. upd. intros [m [Hne Hx]%lookup_delete_Some].
  split; [done|by eexists].
Qed.

Lemma has_reset r x : has (reset r) x = false.
Proof. apply not_true_is_false. rewrite has_spec. unfold reset. upd. rewrite lookup_empty. by intros []. Qed.

(** An admitted line's connection is unmarked, and only an untracked one is
    newly marked. *)
Lemma Admit_marks g now l tracked x :
  let '(g', b) := Admit g now l tracked in
  has (shed g') x = true ->
  (has (shed g) x = true /\ (b = true -> Line.HasLogID l = true -> x <> Line.LogID l)) \/
  (b = false /\ tracked = false /\ Line.HasLogID l = true /\ x = Line.LogID l).
Proof.
  unfold Admit.
  set (g1 := roll g now <| parsed ::= fun n => i64 (n + 1) |>).
  assert (Hs1 : shed g1 = shed g) by (unfold g1; upd; apply roll_shed).
  destruct (Line.HasLogID l) eqn:Hid; cbn [negb]; last first.
  { destruct (_ >? _); cbv beta iota; upd; rewrite Hs1; intros Hx; left; split; done. }
  destruct (has (shed g1) (Line.LogID l)) eqn:Hm; simpl.
  - destruct (bool_decide (Line.Ev l = EventInboundFrom)); cbn [negb].
    + destruct tracked; [cbv beta iota; upd; intros [Hne Hx]%has_remove_inv; rewrite Hs1 in Hx; by left|].
      destruct (_ >? _); cbv beta iota; upd.
      * intros [->|[Hne Hx]%has_remove_inv]%has_add_inv; [by right|]. rewrite Hs1 in Hx. by left.
      * intros [Hne Hx]%has_remove_inv. rewrite Hs1 in Hx. by left.
    + cbv beta iota. rewrite Hs1. by left.
  - assert (Hne : has (shed g) x = true -> x <> Line.LogID l).
    { rewrite Hs1 in Hm. intros Hx ->. congruence. }
    destruct tracked; [cbv beta iota; rewrite Hs1; auto|]. destruct (_ >? _); cbv beta iota; upd; rewrite Hs1.
    + intros [->|Hx]%has_add_inv; [by right|auto].
    + auto.
Qed.

(** A tracked connection without a mark is always kept. *)
Lemma Admit_tracked g now l :
  Line.HasLogID l = true -> has (shed g) (Line.LogID l) = false -> (Admit g now l true).2 = true.
Proof. intros Hid Hm. unfold Admit. rewrite Hid. upd. rewrite roll_shed, Hm. done. Qed.
End GuardMarks.

Module CollectorProps.
Import Collector GuardMarks.

Section Props.
Context `{ConnVocabulary} `{TraceLevels} `{CollectorVocabulary}.
Implicit Types (c : traceCollector).

(** ** The collector as a transition system *)
Inductive op :=
  | OpEntry (now clock : time) (entry : option line)
  | OpApply (now : time) (resolved : string * string * string * bool) (secret : string + string)
      (client : option string) (hash : string -> string) (cfg : TraceAgentConfig)
  | OpStreamOpen (now : time) (epoch : Z)
  | OpStreamError (now : time) (epoch : Z) (err : string)
  | OpPoll (now clock : time) (answer : string + (Z * Z * Asm.Snapshot))
  | OpTick (now clock : time)
  | OpRawEnd (b : rawBatch) (accepted : bool).

Definition step (nodeID : string) (c : traceCollector) (o : op) : traceCollector :=
  match o with
  | OpEntry now clock entry => onEntry nodeID now clock entry c
  | OpApply now resolved secret client hash cfg =>
      applyConfig now nodeID resolved secret client hash cfg c
  | OpStreamOpen now epoch => noteStreamOpen now epoch c
  | OpStreamError now epoch err => noteStreamError now epoch err c
  | OpPoll now clock answer => pollConnections now clock answer c
  | OpTick now clock => driveTick now clock c
  | OpRawEnd b accepted => flushRaw_end b accepted c
  end.

Definition run (nodeID : string) (start : time) (os : list op) : traceCollector :=
  foldl (step nodeID) (newTraceCollector start) os.

(** ** The invariant *)

(** No tracked connection is marked as shed. *)
Definition pipe_ok (c : traceCollector) : Prop :=
  forall a, asm c = Some a -> tr_ok a /\
    forall g, guard c = Some g -> forall id, tr_tracked a id = true -> ShedRing.has (Guard.shed g) id = false.

(** The buffer holds the connections of the order, once each, within bounds,
    and none that a session has claimed. *)
Record buf_ok (c : traceCollector) : Prop := {
  buf_nodup : NoDup (pendingOrder c);
  buf_keys : forall id, id ∈ pendingOrder c <-> is_Some (pending c !! id);
  buf_conns : (length (pendingOrder c) <= tracePendingConns)%nat;
  buf_lines : forall id q, pending c !! id = Some q -> (length q <= tracePendingPerConn)%nat;
  buf_untagged : forall id, is_Some (pending c !! id) -> tagged c !! id = None
}.

Definition good (c : traceCollector) : Prop := pipe_ok c /\ buf_ok c.

(** States that agree on what the invariant reads. *)
Definition agree (c c' : traceCollector) : Prop :=
  asm c' = asm c /\ guard c' = guard c /\ pending c' = pending c /\
  pendingOrder c' = pendingOrder c /\ tagged c' = tagged c.

Lemma agree_trans c1 c2 c3 : agree c1 c2 -> agree c2 c3 -> agree c1 c3.
Proof. unfold agree. intros (-> & -> & -> & -> & ->). done. Qed.

Definition same_buffer (c c' : traceCollector) : Prop :=
  pending c' = pending c /\ pendingOrder c' = pendingOrder c /\ tagged c' = tagged c.

Lemma buf_agree c c' : same_buffer c c' -> buf_ok c -> buf_ok c'.
Proof. intros (Hp & Ho & Ht) [? ? ? ? ?]. split; rewrite ?Hp, ?Ho, ?Ht; done. Qed.

Lemma good_agree c c' : agree c c' -> good c -> good c'.
Proof.
  intros (Ha & Hg & Hb) [Hp Hbuf]. split; [|by apply (buf_agree c)].
  unfold pipe_ok. rewrite Ha, Hg. exact Hp.
Qed.

Ltac agree_by := unfold agree; upd; done.

Lemma setStatusLocked_agree now st d c : agree c (setStatusLocked now st d c).1.
Proof. unfold setStatusLocked. case_match; cbn [fst]; agree_by. Qed.

Lemma setStatus_agree now st d a s c : agree c (setStatus now st d a s c).1.
Proof.
  unfold setStatus. eapply agree_trans; [|apply setStatusLocked_agree]. agree_by.
Qed.

Lemma evaluateStream_agree now c : agree c (evaluateStream now c).1.
Proof. unfold evaluateStream. repeat case_match; try apply setStatusLocked_agree; done. Qed.

Lemma noteStreamOpen_agree now e c : agree c (noteStreamOpen now e c).
Proof.
  unfold noteStreamOpen. case_match; [done|]. eapply agree_trans; [|apply evaluateStream_agree]. agree_by.
Qed.

Lemma noteStreamError_agree now e err c : agree c (noteStreamError now e err c).
Proof.
  unfold noteStreamError. case_match; [agree_by|]. case_match;
    (eapply agree_trans; [|apply evaluateStream_agree]); agree_by.
Qed.

Lemma noteDiscovery_agree now d c : agree c (noteDiscovery now d c).
Proof.
  unfold noteDiscovery. eapply agree_trans; [|apply evaluateStream_agree]. case_match; agree_by.
Qed.

Lemma restartStream_agree l c : agree c (restartStream l c).
Proof. unfold restartStream. case_match; [done|agree_by]. Qed.

Lemma countLineLocked_agree now c : agree c (countLineLocked now c).
Proof. unfold countLineLocked. case_match; agree_by. Qed.

Lemma setRawSourceLocked_agree id c : agree c (setRawSourceLocked id c).
Proof. unfold setRawSourceLocked. case_match; agree_by. Qed.

Lemma queue_raw_agree k l c : agree c (queue_raw k l c).
Proof. unfold queue_raw. repeat case_match; try agree_by; done. Qed.

Lemma flushRaw_end_agree b ok c : agree c (flushRaw_end b ok c).
Proof. unfold flushRaw_end. case_match; [agree_by|done]. Qed.

Lemma refreshSecret_agree s h c : agree c (refreshSecret s h c).1.
Proof. unfold refreshSecret. repeat case_match; cbn [fst]; try agree_by; done. Qed.

(** ** The buffer *)

Lemma remove_first_elem id x l : NoDup l -> x ∈ remove_first id l <-> x ∈ l /\ x <> id.
Proof.
  intros Hnd. unfold remove_first. destruct (list_find (eq id) l) as [[i y]|] eqn:Hf.
  - apply list_find_Some in Hf as (Hi & <- & _).
    pose proof (take_drop_middle l i id Hi) as Hl.
    assert (Hnd' : NoDup (take i l ++ id :: drop (S i) l)) by (by rewrite Hl).
    rewrite <- Hl at 3. rewrite !elem_of_app, elem_of_cons.
    apply NoDup_app in Hnd' as (_ & Hd & [Hnot _]%NoDup_cons). split.
    + intros [Hx|Hx]; (split; [auto|]); intros ->; [apply (Hd id Hx); left|done].
    + intros [[?|[->|?]] ?]; auto; done.
  - split; [|tauto]. intros Hx. split; [done|]. intros ->.
    apply list_find_None in Hf. rewrite Forall_forall in Hf. by apply (Hf id Hx).
Qed.

Lemma remove_first_sublist id l : sublist (remove_first id l) l.
Proof.
  unfold remove_first. destruct (list_find (eq id) l) as [[i y]|]; [|done].
  rewrite <- (take_drop i l) at 3. apply sublist_app; [done|]. rewrite <- Nat.add_1_r, <- drop_drop.
  apply sublist_drop.
Qed.

(** Dropping one connection from the buffer. *)
Lemma buf_remove c id t :
  buf_ok c -> (forall x, x <> id -> t !! x = tagged c !! x) ->
  buf_ok (c <| tagged := t |> <| pending ::= delete id |> <| pendingOrder ::= remove_first id |>).
Proof.
  intros [Hnd Hk Hc Hl Hu] Ht. pose proof (remove_first_sublist id (pendingOrder c)) as Hsub.
  split; upd.
  - by eapply sublist_NoDup.
  - intros x. rewrite remove_first_elem, Hk, lookup_delete_is_Some by done. naive_solver.
  - apply sublist_length in Hsub. lia.
  - intros x q [_ Hx]%lookup_delete_Some. by apply (Hl x).
  - intros x [Hne Hx]%lookup_delete_is_Some. rewrite Ht by congruence. auto.
Qed.

Lemma buf_evict c o rest :
  buf_ok c -> pendingOrder c = o :: rest ->
  buf_ok (c <| pendingOrder := rest |> <| pending ::= delete o |>).
Proof.
  intros [Hnd Hk Hc Hl Hu] Ho. rewrite Ho in *. apply NoDup_cons in Hnd as [Hnot Hnd]. split; upd.
  - done.
  - intros x. rewrite lookup_delete_is_Some, <- Hk, elem_of_cons. split; [|naive_solver].
    intros Hx. split; [|by right]. intros ->. done.
  - simpl in Hc. lia.
  - intros x q [_ Hx]%lookup_delete_Some. by apply (Hl x).
  - intros x [_ Hx]%lookup_delete_is_Some. auto.
Qed.

Lemma buf_open c id l :
  buf_ok c -> pending c !! id = None -> tagged c !! id = None ->
  (length (pendingOrder c) < tracePendingConns)%nat ->
  buf_ok (c <| pendingOrder ::= fun o => o ++ [id] |> <| pending ::= <[id := [l]]> |>).
Proof.
  intros [Hnd Hk Hc Hl Hu] Hp Ht Hlen. split; upd.
  - apply NoDup_app. split; [done|]. split; [|apply NoDup_singleton].
    intros x Hx Hin. apply list_elem_of_singleton in Hin as ->. apply Hk in Hx as [? Hx]. congruence.
  - intros x. rewrite elem_of_app, list_elem_of_singleton, Hk, lookup_insert_is_Some'. naive_solver.
  - rewrite length_app. simpl. lia.
  - intros x q [[<- <-]|[_ Hx]]%lookup_insert_Some; [simpl; unfold tracePendingPerConn; lia|by apply (Hl x)].
  - intros x [<-|[_ Hx]]%lookup_insert_is_Some; auto.
Qed.

Lemma buf_extend c id q l :
  buf_ok c -> pending c !! id = Some q -> (length q < tracePendingPerConn)%nat ->
  buf_ok (c <| pending ::= <[id := q ++ [l]]> |>).
Proof.
  intros [Hnd Hk Hc Hl Hu] Hp Hlen. split; upd; try done.
  - intros x. rewrite Hk, lookup_insert_is_Some'. split; [by right|]. intros [<-|]; [by exists q|done].
  - intros x q' [[<- <-]|[_ Hx]]%lookup_insert_Some; [rewrite length_app; simpl; lia|by apply (Hl x)].
  - intros x [<-|[_ Hx]]%lookup_insert_is_Some; auto.
Qed.

(** The shape of [bufferPending]: the assembler and the guard are untouched. *)
Lemma bufferPending_pipe id l c :
  asm (bufferPending id l c) = asm c /\ guard (bufferPending id l c) = guard c.
Proof. unfold bufferPending. repeat case_match; upd; done. Qed.

Lemma bufferPending_ok id l c : buf_ok c -> buf_ok (bufferPending id l c).
Proof.
  intros Hb. unfold bufferPending. case_bool_decide as Ht; [done|].
  assert (Htag : tagged c !! id = None) by (by apply eq_None_not_Some).
  case_bool_decide as Hp.
  { destruct Hp as [q Hq]. rewrite Hq. cbn [default]. case_match eqn:E; [done|].
    apply buf_extend; [done..|]. by apply Nat.leb_gt in E. }
  assert (Hnone : pending c !! id = None) by (by apply eq_None_not_Some).
  assert (Hmain : forall c1, buf_ok c1 -> pending c1 !! id = None -> tagged c1 !! id = None ->
    (length (pendingOrder c1) < tracePendingConns)%nat ->
    buf_ok (let c2 := c1 <| pendingOrder ::= fun o => o ++ [id] |> in
      let q := default [] (pending c2 !! id) in
      if (tracePendingPerConn <=? length q)%nat then c2 else c2 <| pending ::= <[id := q ++ [l]]> |>)).
  { intros c1 Hc1 Hn1 Ht1 Hlen1. cbv zeta. upd. rewrite Hn1. cbn [default app length].
    change (tracePendingPerConn <=? 0)%nat with false. cbv iota. by apply buf_open. }
  destruct (tracePendingConns <=? length (pendingOrder c))%nat eqn:E; [|apply Nat.leb_gt in E; auto].
  apply Nat.leb_le in E. destruct (pendingOrder c) as [|o rest] eqn:Ho; [by simpl in E; unfold tracePendingConns in E; lia|].
  apply Hmain.
  - by apply buf_evict.
  - upd. apply lookup_delete_None. by right.
  - by upd.
  - upd. pose proof (buf_conns _ Hb) as Hlen. rewrite Ho in Hlen. simpl in Hlen. lia.
Qed.

Lemma claimPending_ok id ss c : buf_ok c -> buf_ok (claimPending id ss c).1.
Proof.
  intros Hb. unfold claimPending. case_bool_decide; [done|]. cbn [fst].
  apply (buf_agree (c <| tagged := <[id := ss]> (tagged c) |> <| pending ::= delete id |>
    <| pendingOrder ::= remove_first id |>)); [unfold same_buffer; by upd|].
  apply buf_remove; [done|]. intros x Hx. by rewrite lookup_insert_ne.
Qed.

Lemma claimPending_pipe id ss c :
  asm (claimPending id ss c).1 = asm c /\ guard (claimPending id ss c).1 = guard c.
Proof. unfold claimPending. case_match; cbn [fst]; upd; done. Qed.

Lemma forgetConn_pipe id c : asm (forgetConn id c) = asm c /\ guard (forgetConn id c) = guard c.
Proof. unfold forgetConn. case_match; upd; done. Qed.

Lemma forgetConn_ok id c : buf_ok c -> buf_ok (forgetConn id c).
Proof.
  intros Hb. unfold forgetConn. case_bool_decide as Hp.
  - apply (buf_agree (c <| tagged := delete id (tagged c) |> <| pending ::= delete id |>
      <| pendingOrder ::= remove_first id |>)); [unfold same_buffer; by upd|].
    apply buf_remove; [done|]. intros x Hx. by rewrite lookup_delete_ne.
  - destruct Hb as [Hnd Hk Hc Hl Hu]. split; upd; try done. intros x Hx.
    apply lookup_delete_None. auto.
Qed.

(** ** The pipeline *)

(** The assembler moved on without tracking anything new. *)
Lemma pipe_shrink c c' a a' :
  pipe_ok c -> asm c = Some a -> asm c' = Some a' -> guard c' = guard c -> tr_ok a' ->
  (forall id, tr_tracked a' id = true -> tr_tracked a id = true) -> pipe_ok c'.
Proof.
  intros Hp Ha Ha' Hg Hok Hsub a1 Ha1. rewrite Ha' in Ha1. injection Ha1 as <-. split; [done|].
  rewrite Hg. intros g Hgg id Ht. destruct (Hp a Ha) as [_ Hm]. by apply (Hm g), Hsub.
Qed.

Lemma pipe_op c c' a o :
  pipe_ok c -> asm c = Some a -> asm c' = Some (tr_op a o) -> guard c' = guard c -> pipe_ok c'.
Proof.
  intros Hp Ha Ha' Hg. destruct (Hp a Ha) as [Hok _].
  eapply (pipe_shrink c c' a); [done..|by apply op_ok|]. intros id. by apply op_tracked.
Qed.

Lemma pipe_same c c' : pipe_ok c -> asm c' = asm c -> guard c' = guard c -> pipe_ok c'.
Proof. unfold pipe_ok. intros Hp -> ->. exact Hp. Qed.

Lemma deliver_good nodeID now l a sh c :
  good c -> asm c = Some a -> good (deliver nodeID now l a sh c).
Proof.
  intros Hg Ha. unfold deliver. destruct (line_identity a l) as [user dst].
  set (d := Match (policy c) l user dst).
  pose proof (queue_raw_agree (Keep d) l c) as Hag.
  set (c1 := queue_raw (Keep d) l c) in *.
  assert (Hg1 : good c1) by (by apply (good_agree c)).
  assert (Ha1 : asm c1 = Some a) by (destruct Hag as (-> & _); done).
  clearbody c1. clear Hag. destruct Hg1 as [Hp1 Hb1].
  set (already := bool_decide (is_Some (tagged c1 !! Line.LogID l))).
  destruct (Line.HasLogID l && negb already && (zlen (SessionIDs d) =? 0)) eqn:Ebuf.
  { split; [|by apply bufferPending_ok].
    destruct (bufferPending_pipe (Line.LogID l) (base_line nodeID now l) c1) as [E1 E2].
    by apply (pipe_same c1). }
  assert (Hgen : forall c2 sessions backlog, good c2 -> asm c2 = Some a ->
    good (let a' := if Line.HasLogID l && (0 <? zlen sessions) && negb already
                    then Asm.Tag a (Line.LogID l) sessions else a in
          let sh' := Ship.AddLines backlog sh in
          let c3 := c2 <| asm := Some a' |> in
          if (negb (Keep d) && negb already) || (zlen sessions =? 0)
          then c3 <| shipper := Some sh' |>
          else c3 <| shipper := Some (Ship.AddLines
            (map (fun s => base_line nodeID now l <| TraceLine.SessionID := s |>) sessions) sh') |>)).
  { intros c2 sessions backlog [Hp2 Hb2] Ha2. cbv zeta.
    set (a' := if Line.HasLogID l && (0 <? zlen sessions) && negb already
               then Asm.Tag a (Line.LogID l) sessions else a).
    assert (Hok' : tr_ok a' /\ forall id, tr_tracked a' id = true -> tr_tracked a id = true).
    { unfold a'. destruct (Hp2 a Ha2) as [Hok _]. case_match; [|done].
      split; [exact (op_ok (T := Asm.Assembler) a (TrTag (Line.LogID l) sessions) Hok)|].
      intros id. exact (op_tracked (T := Asm.Assembler) a (TrTag (Line.LogID l) sessions) id Hok). }
    destruct Hok' as [Hok' Hsub].
    case_match; (split; [eapply (pipe_shrink c2 _ a a'); [done|done|upd; done|upd; done|done|done]
                        |apply (buf_agree c2); [unfold same_buffer; by upd|done]]). }
  destruct (Line.HasLogID l) eqn:Hid; [|by apply Hgen].
  destruct (tagged c1 !! Line.LogID l) as [ss|]; [by apply Hgen|].
  destruct (0 <? zlen (SessionIDs d)); [|by apply Hgen].
  pose proof (claimPending_ok (Line.LogID l) (SessionIDs d) c1 Hb1) as Hb2.
  pose proof (claimPending_pipe (Line.LogID l) (SessionIDs d) c1) as [E1 E2].
  destruct (claimPending _ _ _) as [c2 backlog]. cbn [fst] in *.
  apply Hgen; [|congruence]. split; [by apply (pipe_same c1)|done].
Qed.

Lemma Ceiling_marks g now : Guard.shed (Guard.Ceiling g now).1 = Guard.shed g.
Proof. unfold Guard.Ceiling. case_match; cbn [fst]; upd; apply Guard.roll_shed. Qed.

Lemma onEntry_good nodeID now clock entry c : good c -> good (onEntry nodeID now clock entry c).
Proof.
  intros Hg. unfold onEntry. pose proof (countLineLocked_agree now c) as Hag.
  set (c1 := countLineLocked now c) in *. assert (Hg1 : good c1) by (by apply (good_agree c)).
  clearbody c1. clear Hag Hg c. destruct Hg1 as [Hp Hb].
  destruct (guard c1) as [g|] eqn:Egd; [|by split]. destruct (asm c1) as [a|] eqn:Ea; [|by split].
  pose proof (Ceiling_marks g now) as Hcm. destruct (Guard.Ceiling g now) as [g1 under]. cbn [fst] in Hcm.
  destruct (Hp a Ea) as [Hok Hmarks]. specialize (Hmarks g Egd).
  assert (Hset : forall c2 g2, asm c2 = Some a -> guard c2 = Some g2 -> same_buffer c1 c2 ->
    (forall id, tr_tracked a id = true -> ShedRing.has (Guard.shed g2) id = false) -> good c2).
  { intros c2 g2 H1a H2a H3a H4a. split; [|by apply (buf_agree c1)].
    intros a' Ha'. rewrite H1a in Ha'. injection Ha' as <-. split; [done|].
    intros g' Hg'. rewrite H2a in Hg'. by injection Hg' as <-. }
  destruct under; cbn [negb]; last first.
  { apply (Hset _ g1); [by upd|by upd|unfold same_buffer; by upd|]. intros id Ht. rewrite Hcm. auto. }
  set (bad := match entry with None => true | Some l => negb (Parsed l) end).
  match goal with |- context [if bad then ?x else ?y] => set (c2 := if bad then x else y) end.
  assert (Hc2 : asm c2 = Some a /\ guard c2 = Some g1 /\ same_buffer c1 c2).
  { unfold c2. destruct bad; (split; [by upd|]); (split; [by upd|]); unfold same_buffer; by upd. }
  destruct Hc2 as (Ha2 & Hg2 & Hb2). clearbody c2.
  assert (Hgood2 : good c2).
  { apply (Hset _ g1); [done..|]. intros id Ht. rewrite Hcm. auto. }
  destruct entry as [l|]; [|done].
  pose proof (fun x => Admit_marks g1 now l (Line.HasLogID l && Asm.Tracked a (Line.LogID l)) x) as Hadm.
  destruct (Guard.Admit g1 now l _) as [g2 admitted].
  destruct admitted; cbn [negb]; last first.
  { apply (Hset _ g2); [by upd|by upd| |].
    - destruct Hb2 as (? & ? & ?). unfold same_buffer. by upd.
    - intros id Ht. apply not_true_is_false. intros Hx.
      destruct (Hadm id Hx) as [[Hx' _]|(_ & Htr & Hlid & ->)].
      + rewrite Hcm in Hx'. by rewrite Hmarks in Hx'.
      + rewrite Hlid in Htr. simpl in Htr. unfold tr_tracked in Ht. simpl in Ht. congruence. }
  set (a2 := Asm.LineIn a clock l).
  set (c3 := c2 <| guard := Some g2 |> <| asm := Some a2 |>).
  assert (Hgood3 : good c3).
  { split; [|apply (buf_agree c1); [destruct Hb2 as (? & ? & ?); unfold same_buffer, c3; by upd|done]].
    intros a' Ha'. assert (a' = a2) as -> by (unfold c3 in Ha'; revert Ha'; upd; congruence).
    split; [exact (feed_ok (T := Asm.Assembler) a clock l Hok)|]. intros g' Hg' id Ht.
    assert (g' = g2) as -> by (unfold c3 in Hg'; revert Hg'; upd; congruence).
    apply not_true_is_false. intros Hx. destruct (Hadm id Hx) as [[Hx' Hne]|(Hf & _)]; [|done].
    rewrite Hcm in Hx'. destruct (feed_tracked (T := Asm.Assembler) a clock l id Hok Ht) as [Ht'|Heq].
    - by rewrite Hmarks in Hx'.
    - destruct (Line.HasLogID l) eqn:Hlid; [by apply Hne|].
      assert (a2 = a) as Hsame by (unfold a2, Asm.LineIn; by rewrite Hlid).
      rewrite Hsame in Ht. by rewrite Hmarks in Hx'. }
  destruct (shipper c3) as [sh|]; [|exact Hgood3].
  apply deliver_good; [done|]. unfold c3. by upd.
Qed.

Lemma pipe_down c : asm c = None -> pipe_ok c.
Proof. unfold pipe_ok. intros ->. done. Qed.

Lemma stop_good c : good c -> good (stop c).1.
Proof.
  intros [_ Hb]. assert (Hs : asm (stop c).1 = None /\ same_buffer c (stop c).1).
  { unfold stop, same_buffer. repeat case_match; cbn [fst]; upd; done. }
  destruct Hs as [Ha Hs]. split; [by apply pipe_down|by apply (buf_agree c)].
Qed.

Lemma New_untracked o id : Asm.Tracked (Asm.New o) id = false.
Proof.
  apply not_true_is_false. rewrite AsmProps.Tracked_spec. intros [[p Hp]|Hd].
  - unfold Asm.New in Hp. simpl in Hp. by rewrite lookup_empty in Hp.
  - unfold Asm.New in Hd. cbn in Hd. unfold DoneSet.has, DoneSet.newDoneSet in Hd. simpl in Hd.
    apply bool_decide_eq_true in Hd. set_solver.
Qed.

Lemma startPipeline_good now n a s sec cl h c : good c -> good (startPipeline now n a s sec cl h c).1.
Proof.
  intros Hg. unfold startPipeline. destruct sec as [err|sec]; [by apply (good_agree c), Hg; apply setStatus_agree|].
  destruct cl as [err|]; [apply (good_agree c); [apply setStatus_agree|done]|]. cbn [fst].
  destruct Hg as [_ Hb]. split; [|apply (buf_agree c); [unfold same_buffer; by upd|done]].
  unfold pipe_ok. upd. intros a' [= <-]. split; [apply AsmProps.inv_New|].
  intros g _ id Ht. unfold tr_tracked in Ht. simpl in Ht. by rewrite New_untracked in Ht.
Qed.

(** The guard changed, but not its marks, or its marks are gone. *)
Lemma pipe_guard c c' f :
  pipe_ok c -> asm c' = asm c -> guard c' = f <$> guard c ->
  (forall g id, ShedRing.has (Guard.shed (f g)) id = true -> ShedRing.has (Guard.shed g) id = true) ->
  pipe_ok c'.
Proof.
  intros Hp Ha Hg Hf a Ha'. rewrite Ha in Ha'. destruct (Hp a Ha') as [Hok Hm]. split; [done|].
  rewrite Hg. intros g' Hg'. destruct (guard c) as [g|]; [|done]. injection Hg' as <-.
  intros id Ht. apply not_true_is_false. intros Hx%Hf. by rewrite (Hm g) in Hx.
Qed.

Lemma setBudget_good n c : good c -> good (setBudget n c).
Proof.
  intros [Hp Hb]. unfold setBudget.
  split; [|apply (buf_agree c); [unfold same_buffer; by upd|done]].
  eapply (pipe_guard c); [done|by upd|upd; reflexivity|]. intros g id. unfold Guard.SetBudget. by upd.
Qed.

Lemma applyConfig_good now n res sec cl h cfg c : good c -> good (applyConfig now n res sec cl h cfg c).
Proof.
  intros Hg. unfold applyConfig.
  set (c0 := if is_zero_time (cServerTime cfg) then c else _).
  assert (Hg0 : good c0) by (apply (good_agree c); [unfold c0; case_match; [done|agree_by]|done]).
  clearbody c0. clear Hg c. cbv zeta.
  set (c1 := setRawSourceLocked _ _).
  assert (Hg1 : good c1).
  { eapply good_agree; [apply setRawSourceLocked_agree|]. apply (good_agree c0); [agree_by|done]. }
  clearbody c1. clear Hg0 c0.
  pose proof (setBudget_good (pBudgetLinesPerSec (cPolicy cfg)) c1 Hg1) as Hg2.
  set (c2 := setBudget _ c1) in *. clearbody c2.
  destruct (Enabled (Build cfg now)); cbn [negb];
    [|eapply good_agree; [apply setStatus_agree|by apply stop_good]].
  destruct res as [[[a source] detail] transient].
  destruct (String.eqb a "" && _);
    [eapply good_agree; [apply setStatus_agree|by apply stop_good]|].
  set (c3 := noteDiscovery now _ c2).
  assert (Hg3 : good c3) by (by apply (good_agree c2); [apply noteDiscovery_agree|]). clearbody c3.
  match goal with |- context [if ?b then (stop c3).1 else c3] =>
    assert (Hg4 : good (if b then (stop c3).1 else c3)) by (destruct b; [by apply stop_good|done]);
    set (c4 := if b then (stop c3).1 else c3) in * end.
  clearbody c4. case_match.
  - match goal with |- context [startPipeline now n ?a' ?s' sec cl h c4] =>
      pose proof (startPipeline_good now n a' s' sec cl h c4 Hg4) as Hg5;
      destruct (startPipeline now n a' s' sec cl h c4) as [c5 ok] end. cbn [fst] in Hg5.
    destruct ok; cbn [negb]; [|done]. destruct (String.eqb "" _); [done|].
    eapply good_agree; [apply restartStream_agree|done].
  - match goal with |- context [refreshSecret sec h ?c'] => set (c5 := c') end.
    assert (Hg5 : good c5) by (apply (good_agree c4); [unfold c5; agree_by|done]). clearbody c5.
    pose proof (refreshSecret_agree sec h c5) as Hag. destruct (refreshSecret sec h c5) as [c6 resub].
    cbn [fst] in Hag. pose proof (good_agree _ _ Hag Hg5) as Hg6.
    destruct (String.eqb _ _ && _); [done|]. eapply good_agree; [apply restartStream_agree|done].
Qed.

Lemma noteCoreRestart_good now clock c : good c -> good (noteCoreRestart now clock c).
Proof.
  intros [Hp Hb]. unfold noteCoreRestart.
  split; [|apply (buf_agree c); [unfold same_buffer; by upd|done]].
  unfold pipe_ok. upd. intros a' Ha'. destruct (asm c) as [a|] eqn:Ea; [|done]. injection Ha' as <-.
  destruct (Hp a Ea) as [Hok _].
  split; [exact (op_ok (T := Asm.Assembler) a (TrRestart (u64 (generation c + 1)) clock now) Hok)|].
  intros g Hg id _. destruct (guard c) as [g0|]; [|done]. injection Hg as <-.
  unfold Guard.Reset. upd. apply has_reset.
Qed.

Lemma fmap_op_good (o : tracker_op) c c' :
  good c -> asm c' = (fun a => tr_op a o) <$> asm c -> guard c' = guard c -> same_buffer c c' -> good c'.
Proof.
  intros [Hp Hb] Ha Hg Hs. split; [|by apply (buf_agree c)].
  destruct (asm c) as [a|] eqn:Ea; [by apply (pipe_op c c' a o)|by apply pipe_down].
Qed.

Lemma pollConnections_good now clock ans c : good c -> good (pollConnections now clock ans c).
Proof.
  intros Hg. unfold pollConnections. destruct ans as [err|[[up down] snap]].
  { eapply good_agree; [apply evaluateStream_agree|]. apply (good_agree c); [agree_by|done]. }
  cbv zeta. match goal with |- context [(evaluateStream now ?c').1] => set (c1 := c') end.
  assert (Hg1 : good c1) by (apply (good_agree c); [unfold c1; agree_by|done]). clearbody c1.
  pose proof (good_agree _ _ (evaluateStream_agree now c1) Hg1) as Hg2.
  set (c2 := (evaluateStream now c1).1) in *. clearbody c2.
  match goal with |- context [if ?b then noteCoreRestart now clock c2 else c2] =>
    assert (Hg3 : good (if b then noteCoreRestart now clock c2 else c2))
      by (destruct b; [by apply noteCoreRestart_good|done]);
    set (c3 := if b then noteCoreRestart now clock c2 else c2) in * end.
  clearbody c3. eapply (fmap_op_good (TrSnapshot clock snap) c3); [done|by upd|by upd|].
  unfold same_buffer. by upd.
Qed.

Lemma expireSessionsLocally_agree now c : agree c (expireSessionsLocally now c).
Proof.
  unfold expireSessionsLocally. case_match; [done|]. case_match; [agree_by|].
  eapply agree_trans; [|apply restartStream_agree]. agree_by.
Qed.

Lemma forget_final_ok rs : forall c, buf_ok c ->
  buf_ok (forget_final rs c) /\ asm (forget_final rs c) = asm c /\ guard (forget_final rs c) = guard c.
Proof.
  unfold forget_final. induction rs as [|r rs IH]; intros c Hb; [done|]. cbn [foldl].
  destruct (ConnRecord.Open r); [by apply IH|].
  destruct (IH _ (forgetConn_ok (ConnRecord.LogID r) c Hb)) as (H3 & -> & ->).
  destruct (forgetConn_pipe (ConnRecord.LogID r) c) as [-> ->]. done.
Qed.

Lemma forward_losses_good c : good c -> good (forward_losses c).
Proof.
  intros [Hp Hb].
  assert (Hf : asm (forward_losses c) = asm c /\ same_buffer c (forward_losses c) /\
    (guard (forward_losses c) = guard c \/ guard (forward_losses c) = (fun g => (Guard.Take g).1) <$> guard c)).
  { unfold forward_losses, same_buffer.
    destruct (asm c) as [a|] eqn:Ea; [|by auto]. destruct (shipper c) as [sh|]; [|by auto].
    destruct (guard c) as [g|] eqn:Egd; [|by auto]. cbn -[u64].
    destruct (0 <? _), (0 <? _); upd; auto. }
  destruct Hf as (Ha & Hs & Hg). split; [|by apply (buf_agree c)].
  destruct Hg as [Hg|Hg]; [by apply (pipe_same c)|].
  eapply (pipe_guard c); [done|done|exact Hg|]. intros g id. unfold Guard.Take. cbn [fst]. by upd.
Qed.

Lemma driveTick_good now clock c : good c -> good (driveTick now clock c).
Proof.
  intros Hg. unfold driveTick.
  pose proof (good_agree _ _ (expireSessionsLocally_agree now c) Hg) as Hg1.
  set (c1 := expireSessionsLocally now c) in *. clearbody c1.
  destruct (asm c1) as [a|] eqn:Ea; [|done].
  set (recs := (Asm.Drain (Asm.Tick a clock now)).2).
  change (Asm.Drain (Asm.Tick a clock now)) with
    (tr_op (tr_op a (TrTick clock now)) TrDrain, recs). cbv beta iota.
  assert (Hg2 : good (c1 <| asm := Some (tr_op (tr_op a (TrTick clock now)) TrDrain) |>)).
  { eapply (fmap_op_good TrDrain (c1 <| asm := Some (tr_op a (TrTick clock now)) |>));
      [|by upd|by upd|unfold same_buffer; by upd].
    eapply (fmap_op_good (TrTick clock now) c1); [done|upd; by rewrite Ea|by upd|unfold same_buffer; by upd]. }
  set (c2 := c1 <| asm := _ |>) in *. clearbody c2.
  eapply good_agree; [apply evaluateStream_agree|]. apply forward_losses_good.
  destruct recs as [|r recs]; [done|]. destruct Hg2 as [Hp Hb].
  destruct (forget_final_ok (r :: recs) c2 Hb) as (Hb' & Ha' & Hgd').
  split; [apply (pipe_same c2); [done|by upd|by upd]|].
  eapply buf_agree; [|exact Hb']. unfold same_buffer. by upd.
Qed.

Lemma good_new start : good (newTraceCollector start).
Proof.
  split; [by apply pipe_down|]. split; simpl.
  - apply NoDup_nil_2.
  - intros id. rewrite lookup_empty, elem_of_nil. split; [done|by intros []].
  - unfold tracePendingConns. lia.
  - intros id q. by rewrite lookup_empty.
  - intros id. rewrite lookup_empty. by intros [].
Qed.

Lemma step_good nodeID c o : good c -> good (step nodeID c o).
Proof.
  intros Hg. destruct o; simpl.
  - by apply onEntry_good.
  - by apply applyConfig_good.
  - by apply (good_agree c); [apply noteStreamOpen_agree|].
  - by apply (good_agree c); [apply noteStreamError_agree|].
  - by apply pollConnections_good.
  - by apply driveTick_good.
  - by apply (good_agree c); [apply flushRaw_end_agree|].
Qed.

Lemma run_good nodeID start os : good (run nodeID start os).
Proof.
  unfold run. induction os as [|o os IH] using rev_ind; [apply good_new|].
  rewrite foldl_snoc. by apply step_good.
Qed.

(** ** What every run guarantees *)


(** the pre-identity buffer is bounded and consistent.  In every reachable
    state it holds at most 512 connections of at most eight lines each, every
    one listed exactly once in the eviction order, and none that a session has
    already claimed. *)
Theorem pending_buffer_bounded nodeID start os :
  let c := run nodeID start os in
  NoDup (pendingOrder c) /\ (length (pendingOrder c) <= 512)%nat /\
  (forall id, id ∈ pendingOrder c <-> is_Some (pending c !! id)) /\
  (forall id q, pending c !! id = Some q -> (length q <= 8)%nat /\ tagged c !! id = None).
Proof.
  intros c. destruct (run_good nodeID start os) as [_ [Hnd Hk Hc Hl Hu]]. fold c in Hnd, Hk, Hc, Hl, Hu.
  split_all; try done. intros id q Hq. split; [by apply (Hl id)|]. by apply Hu; exists q.
Qed.

(** a claim delivers the whole opening.  When a session claims a connection
    the buffer's lines come out once per session, in order and stamped with
    that session; the connection leaves the buffer and is claimed from then
    on, so its opening is never delivered twice. *)
Theorem claim_delivers_opening id ss c :
  tagged c !! id = None ->
  let '(c', out) := claimPending id ss c in
  out = concat (map (fun s => map (fun l => l <| TraceLine.SessionID := s |>)
          (default [] (pending c !! id))) ss) /\
  tagged c' !! id = Some ss /\ pending c' !! id = None /\
  (claimPending id ss c').2 = [] /\
  (forall l, bufferPending id l c' = c') /\
  (forall id', id' <> id -> pending c' !! id' = pending c !! id' /\ tagged c' !! id' = tagged c !! id').
Proof.
  intros Ht. unfold claimPending at 1. rewrite bool_decide_eq_false_2 by (rewrite Ht; by intros []).
  set (c' := c <| tagged ::= _ |> <| pending ::= _ |> <| pendingOrder ::= _ |>).
  assert (Htag : tagged c' !! id = Some ss) by (unfold c'; upd; apply lookup_insert_eq).
  split; [done|]. split; [done|]. split; [unfold c'; upd; apply lookup_delete_eq|].
  split; [unfold claimPending; by rewrite bool_decide_eq_true_2 by (by exists ss)|].
  split; [intros l; unfold bufferPending; by rewrite bool_decide_eq_true_2 by (by exists ss)|].
  intros id' Hne. unfold c'. upd. by rewrite lookup_delete_ne, lookup_insert_ne by done.
Qed.

(** ** The status *)

(** hooks of a replaced subscription change nothing that is reported.  An
    accept of an old epoch is ignored; an error of an old epoch only counts an
    observation gap. *)
Theorem stale_hooks_are_harmless now epoch err c :
  streamEpoch c <> epoch ->
  noteStreamOpen now epoch c = c /\
  noteStreamError now epoch err c = c <| observationGaps ::= fun n => u64 (n + 1) |> /\
  (forall now', Status now' (noteStreamError now epoch err c) = Status now' c).
Proof.
  intros Hne. apply Z.eqb_neq in Hne. unfold noteStreamOpen, noteStreamError. upd. rewrite Hne. cbn [negb].
  split; [done|]. split; [done|]. intros now'. unfold Status, linesInWindow. by upd.
Qed.

(** What [evaluateStream] decides, when it decides anything. *)
Definition verdict (now : time) (c : traceCollector) : option CollectorState :=
  if negb (runCancel c) then None
  else if connPollFailures c >=? 3 then Some CollectorStreamFailing
  else if discoveryFailures c >=? 3 then Some CollectorNoClashAPI
  else if streamOpen c then Some CollectorReady
  else if negb (streamDownSince c =? 0) && (15 * second <=? time_sub now (streamDownSince c))
  then Some CollectorStreamFailing
  else if negb (streamOpened c) && negb (String.eqb (streamErr c) "") then Some CollectorStreamFailing
  else None.

Lemma setStatusLocked_spec now st d c :
  let '(c', changed) := setStatusLocked now st d c in
  stState (status c') = st /\ configured c' = true /\
  changed = negb (bool_decide (stState (status c) = st)) /\
  stSince (status c') = (if bool_decide (stState (status c) = st) then stSince (status c) else now).
Proof.
  unfold setStatusLocked. upd. destruct (decide (stState (status c) = st)) as [Heq|Hne].
  - rewrite bool_decide_eq_true_2 by done. upd. done.
  - rewrite bool_decide_eq_false_2 by done. upd. done.
Qed.

(** The state an evaluation sets, and what changes with it. *)
Lemma evaluation_of now c :
  let '(c', changed) := evaluateStream now c in
  match verdict now c with
  | None => c' = c /\ changed = false
  | Some st =>
      stState (status c') = st /\ changed = negb (bool_decide (stState (status c) = st)) /\
      stSince (status c') = (if bool_decide (stState (status c) = st) then stSince (status c) else now)
  end.
Proof.
  unfold evaluateStream, verdict. unfold traceConnPollFailLimit, traceDiscoveryFailLimit, is_zero_time, traceStreamGrace.
  change traceConnPollFailLimit with 3. rewrite (Z.geb_leb (time_sub _ _)).
  destruct (runCancel c); cbn [negb]; [|done].
  repeat match goal with |- context [if ?b then setStatusLocked ?n ?st ?d c else _] =>
    destruct b; [pose proof (setStatusLocked_spec n st d c) as Hs;
      destruct (setStatusLocked n st d c); tauto|] end.
  done.
Qed.

(** A stream that went down at [t1] after having been up, with nothing else
    failing and the state still ready. *)
Record dropped_at (t1 : time) (since : time) (c : traceCollector) : Prop := {
  da_run : runCancel c = true;
  da_open : streamOpen c = false;
  da_opened : streamOpened c = true;
  da_down : streamDownSince c = t1;
  da_ready : stState (status c) = CollectorReady;
  da_since : stSince (status c) = since;
  da_conn : connPollFailures c < 3;
  da_disc : discoveryFailures c < 3
}.

Lemma dropped_evaluate t1 since t c :
  dropped_at t1 since c -> t1 <> 0 ->
  evaluateStream t c =
    if 15 * second <=? time_sub t t1
    then setStatusLocked t CollectorStreamFailing ("log stream: " +:+ streamErr c) c
    else (c, false).
Proof.
  intros [Hr Ho Hod Hdn _ _ Hcp Hds] Hz. unfold evaluateStream, is_zero_time.
  rewrite Hr, Ho, Hod, Hdn. cbn [negb andb]. unfold traceDiscoveryFailLimit, traceConnPollFailLimit, traceStreamGrace.
  rewrite !Z.geb_leb. destruct (Z.leb_spec 3 (connPollFailures c)); [lia|].
  destruct (Z.leb_spec 3 (discoveryFailures c)); [lia|]. by rewrite (proj2 (Z.eqb_neq t1 0)) by done.
Qed.

Lemma dropped_again t1 since t e err c :
  dropped_at t1 since c -> t1 <> 0 -> streamEpoch c = e -> time_sub t t1 < 15 * second ->
  dropped_at t1 since (noteStreamError t e err c) /\ streamEpoch (noteStreamError t e err c) = e.
Proof.
  intros Hd Hz He Ht. unfold noteStreamError. upd. rewrite He, Z.eqb_refl. cbn [negb].
  pose proof (da_down _ _ _ Hd) as Hdn. rewrite Hdn. unfold is_zero_time.
  rewrite (proj2 (Z.eqb_neq t1 0)) by done.
  match goal with |- context [evaluateStream t ?x] => set (c1 := x) end.
  assert (Hd1 : dropped_at t1 since c1) by (destruct Hd; split; unfold c1; upd; done).
  rewrite (dropped_evaluate t1 since) by done. destruct (Z.leb_spec (15 * second) (time_sub t t1)); [lia|].
  cbn [fst]. split; [done|]. unfold c1. by upd.
Qed.

(** a stream drop shorter than the grace is never reported.  From a ready
    pipeline, an error starts the fifteen seconds and later errors do not
    restart them; until they are over every evaluation leaves the state alone,
    a reconnect within them restores ready with its original time, and the
    first evaluation after them reports the stream as failing from then on. *)
Theorem stream_drop_grace c e t1 err drops :
  runCancel c = true -> streamEpoch c = e -> streamOpen c = true -> streamOpened c = true ->
  streamDownSince c = 0 -> stState (status c) = CollectorReady ->
  connPollFailures c < 3 -> discoveryFailures c < 3 -> t1 <> 0 ->
  Forall (fun d => time_sub d.1 t1 < 15 * second) drops ->
  let c1 := foldl (fun c d => noteStreamError d.1 e d.2 c) (noteStreamError t1 e err c) drops in
  stState (status c1) = CollectorReady /\ streamDownSince c1 = t1 /\
  (forall t, time_sub t t1 < 15 * second -> evaluateStream t c1 = (c1, false)) /\
  (forall t, let c2 := noteStreamOpen t e c1 in
     stState (status c2) = CollectorReady /\ stSince (status c2) = stSince (status c)) /\
  (forall t, 15 * second <= time_sub t t1 ->
     let '(c2, changed) := evaluateStream t c1 in
     stState (status c2) = CollectorStreamFailing /\ stSince (status c2) = t /\ changed = true).
Proof.
  intros Hr He Ho Hod Hdn Hst Hcp Hds Hz Hdrops.
  assert (Hfirst : dropped_at t1 (stSince (status c)) (noteStreamError t1 e err c) /\
                   streamEpoch (noteStreamError t1 e err c) = e).
  { unfold noteStreamError. upd. rewrite He, Z.eqb_refl, Hdn. cbn [negb is_zero_time].
    unfold is_zero_time. rewrite Z.eqb_refl.
    match goal with |- context [evaluateStream t1 ?x] => set (c1 := x) end.
    assert (Hd1 : dropped_at t1 (stSince (status c)) c1) by (split; unfold c1; upd; done).
    rewrite (dropped_evaluate _ _ _ _ Hd1 Hz). unfold time_sub. rewrite Z.sub_diag.
    destruct (Z.leb_spec (15 * second) (Z.max min_i64 (Z.min max_i64 0))) as [Hl|_]; [by vm_compute in Hl|].
    cbn [fst]. split; [done|]. unfold c1. by upd. }
  intros c1. assert (Hall : dropped_at t1 (stSince (status c)) c1 /\ streamEpoch c1 = e).
  { unfold c1. clear c1. revert Hfirst. generalize (noteStreamError t1 e err c) as x.
    induction Hdrops as [|[t er] drops Ht _ IH]; cbn [foldl fst snd]; intros x [Hx Hxe]; [done|].
    apply IH. by apply dropped_again. }
  clearbody c1. destruct Hall as [Hd1 He1].
  split; [apply Hd1|]. split; [apply Hd1|]. split.
  { intros t Ht. rewrite (dropped_evaluate _ _ _ _ Hd1 Hz).
    by destruct (Z.leb_spec (15 * second) (time_sub t t1)); [lia|]. }
  split.
  { intros t. unfold noteStreamOpen. rewrite He1, Z.eqb_refl. cbn [negb].
    match goal with |- context [evaluateStream t ?x] => pose proof (evaluation_of t x) as Hev;
      set (c2 := x) in * end.
    destruct Hd1 as [Hr1 _ _ _ Hst1 Hsi1 Hcp1 Hds1].
    assert (Hv : verdict t c2 = Some CollectorReady).
    { unfold verdict, c2. upd. rewrite Hr1. cbn [negb]. rewrite !Z.geb_leb.
      destruct (Z.leb_spec 3 (connPollFailures c1)); [lia|].
      by destruct (Z.leb_spec 3 (discoveryFailures c1)); [lia|]. }
    destruct (evaluateStream t c2) as [c3 ch]. cbn [fst]. rewrite Hv in Hev. destruct Hev as (-> & _ & ->).
    split; [done|]. unfold c2. upd. by rewrite Hst1, bool_decide_eq_true_2. }
  intros t Ht. rewrite (dropped_evaluate _ _ _ _ Hd1 Hz).
  destruct (Z.leb_spec (15 * second) (time_sub t t1)); [|lia].
  pose proof (setStatusLocked_spec t CollectorStreamFailing ("log stream: " +:+ streamErr c1) c1) as Hs.
  destruct (setStatusLocked _ _ _ _) as [c2 ch]. destruct Hs as (-> & _ & -> & ->).
  by rewrite (da_ready _ _ _ Hd1).
Qed.

(** ** The raw log *)

(** turning the raw switch off discards the queue for good.  Nothing queued
    before is shipped later, also when the switch comes back on, and a request
    that was on the wire at that moment removes nothing of what is queued
    afterwards. *)
Theorem raw_off_discards c b id lines :
  flushRaw_begin c = Some b -> 0 <= rawEpoch c < 2 ^ 64 ->
  let off := setRawSourceLocked "" c in
  let on := setRawSourceLocked id off <| rawQueue ::= fun q => q ++ lines |> in
  rawQueue off = [] /\ rawDropped off = 0 /\ flushRaw_begin off = None /\
  rawQueue on = lines /\ forall ok, flushRaw_end b ok on = on.
Proof.
  intros Hb He. unfold flushRaw_begin in Hb.
  destruct (String.eqb (rawSourceID c) "" || (zlen (rawQueue c) =? 0)) eqn:E; [done|].
  injection Hb as <-. apply orb_false_iff in E as [_ Hq%Z.eqb_neq].
  assert (Hoff : rawQueue (setRawSourceLocked "" c) = [] /\ rawDropped (setRawSourceLocked "" c) = 0 /\
    rawEpoch (setRawSourceLocked "" c) = u64 (rawEpoch c + 1) /\ rawSourceID (setRawSourceLocked "" c) = "").
  { unfold setRawSourceLocked. simpl (String.eqb "" ""). cbn [andb].
    assert ((0 <? zlen (rawQueue c)) = true) as -> by (apply Z.ltb_lt; pose proof (zlen_nonneg (rawQueue c)); lia).
    cbn [orb]. by upd. }
  destruct Hoff as (H1a & H2a & H3a & H4a). cbv zeta. split; [done|]. split; [done|].
  split; [unfold flushRaw_begin; by rewrite H4a|].
  set (off := setRawSourceLocked "" c) in *. clearbody off.
  assert (Hon : rawQueue (setRawSourceLocked id off) = [] /\ rawEpoch (setRawSourceLocked id off) = u64 (rawEpoch c + 1)).
  { unfold setRawSourceLocked. rewrite H1a, H2a. cbn [zlen length]. rewrite andb_false_r. by upd. }
  destruct Hon as [Hq1 He1]. split; [upd; by rewrite Hq1|].
  intros ok. unfold flushRaw_end. upd. rewrite He1. cbn [rbEpoch].
  assert ((u64 (rawEpoch c + 1) =? rawEpoch c) = false) as ->; [|by rewrite andb_false_r].
  apply Z.eqb_neq. unfold u64. destruct (decide (rawEpoch c + 1 < 2 ^ 64)).
  - rewrite Z.mod_small; lia.
  - replace (rawEpoch c + 1) with (1 * 2 ^ 64) by lia. rewrite Z.mod_mul by lia. lia.
Qed.

(** Lines dropped while a raw batch is on the wire are counted and then lost:
    the queue stays full during the request, and accepting the batch sets the
    counter to zero although the batch reported only the count it left with. *)
Theorem raw_drops_in_flight_vanish c b l :
  flushRaw_begin c = Some b -> traceRawQueueMax <= zlen (rawQueue c) ->
  let during := queue_raw true l c in
  rbDropped b = rawDropped c /\ rawDropped during = u64 (rawDropped c + 1) /\
  rawDropped (flushRaw_end b true during) = 0.
Proof.
  intros Hb Hfull. unfold flushRaw_begin in Hb.
  destruct (String.eqb (rawSourceID c) "" || _) eqn:E; [done|]. injection Hb as <-.
  apply orb_false_iff in E as [Hs _]. unfold queue_raw. rewrite Hs. cbn [negb andb].
  destruct (Z.ltb_spec (zlen (rawQueue c)) traceRawQueueMax); [lia|].
  split; [done|]. split; [by upd|]. unfold flushRaw_end. upd. rewrite Z.eqb_refl. cbn [andb]. by upd.
Qed.

(** ** Losses *)

(** a tick forwards the losses once.  As long as the assembler is the one
    the remembered counters came from, a tick hands the shipper exactly the
    guard's dropped lines and shed connections, the assembler's new drops and
    partial records, and the unparsed lines, and starts counting afresh. *)
Theorem tick_forwards_losses_once c a sh g :
  asm c = Some a -> shipper c = Some sh -> guard c = Some g ->
  0 <= lastAsmDropped c <= Asm.sDropped (Asm.stats a) -> Asm.sDropped (Asm.stats a) < 2 ^ 64 ->
  0 <= lastAsmPartial c <= Asm.sPartial (Asm.stats a) -> Asm.sPartial (Asm.stats a) < 2 ^ 64 ->
  0 <= Guard.droppedN g < 2 ^ 64 ->
  let c' := forward_losses c in
  shipper c' = Some (Ship.AddShed (Guard.shedN g) (Ship.AddDropped
    (u64 (Guard.droppedN g + (Asm.sDropped (Asm.stats a) - lastAsmDropped c)
          + (Asm.sPartial (Asm.stats a) - lastAsmPartial c)))
    (Ship.AddUnparsed (unparsed c) sh))) /\
  lastAsmDropped c' = Asm.sDropped (Asm.stats a) /\ lastAsmPartial c' = Asm.sPartial (Asm.stats a) /\
  unparsed c' = 0 /\ guard c' = Some (Guard.Take g).1 /\ asm c' = Some a.
Proof.
  intros Ha Hs Hg Hd Hd' Hp Hp' Hgd. unfold forward_losses. rewrite Ha, Hs, Hg.
  unfold Guard.Take. cbv beta iota zeta. unfold Asm.StatsOf. upd.
  rewrite (u64_small (_ - lastAsmDropped c)) by lia.
  destruct (Z.ltb_spec 0 (Asm.sDropped (Asm.stats a) - lastAsmDropped c)) as [Hlt|Hge]; cbv beta iota; upd;
    rewrite (u64_small (_ - lastAsmPartial c)) by lia;
    destruct (Z.ltb_spec 0 (Asm.sPartial (Asm.stats a) - lastAsmPartial c)) as [Hlt'|Hge']; cbv beta iota; upd.
  all: repeat split; try done; try lia.
  all: do 2 f_equal; rewrite ?u64_add_l; f_equal; first [f_equal; lia | rewrite u64_small; lia].
Qed.

(** ** Captures that outlive their session *)

(** The lines of a connection a session has claimed go on being shipped under
    that session's id whatever the policy has become since, its expiry on this
    node included. *)
Theorem claimed_capture_outlives_session nodeID now t l a sh c ss :
  Line.HasLogID l = true -> tagged c !! Line.LogID l = Some ss -> ss <> [] ->
  shipper (deliver nodeID now l a sh (expireSessionsLocally t c)) =
    Some (Ship.AddLines (map (fun s => base_line nodeID now l <| TraceLine.SessionID := s |>) ss) sh).
Proof.
  intros Hid Ht Hss. assert (Ht' : tagged (expireSessionsLocally t c) !! Line.LogID l = Some ss).
  { by destruct (expireSessionsLocally_agree t c) as (_ & _ & _ & _ & ->). }
  generalize dependent (expireSessionsLocally t c). intros c1 Ht'. unfold deliver.
  destruct (line_identity a l) as [user dst].
  assert (Htq : tagged (queue_raw (Keep (Match (policy c1) l user dst)) l c1) !! Line.LogID l = Some ss).
  { by destruct (queue_raw_agree (Keep (Match (policy c1) l user dst)) l c1) as (_ & _ & _ & _ & ->). }
  set (c2 := queue_raw _ l c1) in *. clearbody c2. rewrite Hid, Htq. cbn [andb].
  rewrite bool_decide_eq_true_2 by eauto. cbn [negb andb]. rewrite andb_false_r. cbn [orb].
  assert ((zlen ss =? 0) = false) as ->; [|by upd].
  apply Z.eqb_neq. destruct ss; [done|]. unfold zlen. simpl length. lia.
Qed.
End Props.

(** ** Concrete runs *)
Section CollectorSamples.
#[local] Existing Instance sample_vocabulary.
#[local] Existing Instance sample_levels.

Definition sample_collector_vocabulary : CollectorVocabulary := {|
  BoundCollectorDetail s := s; ClashAddrFromPolicy := "policy"; ClashAddrFromConfig := "config" |}.
#[local] Existing Instance sample_collector_vocabulary.

Definition at_ (n : Z) : time := (63000000000 + n) * second.

(** A node with the trace on and one session capturing user u_1. *)
Definition node_cfg (on : bool) : TraceAgentConfig :=
  mkConfig (mkPolicy on "info" 0 "" "" None)
    [mkSession "op-1" "debug" ["u_1"] [] [] (at_ 90)] "raw-1" 0.
Definition op_apply (n : Z) (on : bool) : op :=
  OpApply (at_ n) ("127.0.0.1:9090"%string, "config"%string, ""%string, false) (inr "s3cret"%string) None
    (fun s => s) (node_cfg on).
Definition entry (n : Z) (l : line) : op := OpEntry (at_ n) n (Some (l <| Line.At := at_ n |>)).

Definition conn_line (id : Z) (ev : Event) : line :=
  blank_line <| Line.LogID := id |> <| Line.HasLogID := true |> <| Line.Ev := ev |> <| Line.Level := "info"%string |>.
Definition opening : line :=
  conn_line 7 EventInboundFrom <| Line.SrcIP := "10.0.0.9"%string |> <| Line.SrcPort := 40000 |>
    <| Line.Kind := TagInbound |>.
Definition naming : line := conn_line 7 EventInboundTo <| Line.User := "u_1"%string |>
  <| Line.DstHost := "example.com"%string |> <| Line.DstPort := 443 |> <| Line.Kind := TagInbound |>.

(** The trace comes on, the stream opens and a connection sends its first line. *)
Definition opened : list op := [op_apply 0 true; OpStreamOpen (at_ 1) 1; entry 2 opening].

(** The pipeline that run has. *)
Definition pipeline (c : traceCollector) : option (Asm.Assembler * Ship.Shipper * Guard.Guard) :=
  a ← asm c; sh ← shipper c; g ← guard c; Some (a, sh, g).

Lemma pipeline_some (P : Asm.Assembler -> Ship.Shipper -> Guard.Guard -> bool) c :
  match pipeline c with Some (a, sh, g) => P a sh g | None => false end = true ->
  exists a sh g, asm c = Some a /\ shipper c = Some sh /\ guard c = Some g /\ P a sh g = true.
Proof.
  unfold pipeline. destruct (asm c) as [a|]; [|done]. destruct (shipper c) as [sh|]; [|done].
  destruct (guard c) as [g|]; [|done]. intros Hp. by exists a, sh, g.
Qed.


Lemma claim_delivers_opening_witness :
  tagged (claimPending 7 ["op-1"] (run "node-a" 0 opened)).1 !! 7 = Some ["op-1"].
Proof.
  assert (Ht : tagged (run "node-a" 0 opened) !! 7 = None) by (vm_compute; reflexivity).
  pose proof (claim_delivers_opening 7 ["op-1"] (run "node-a" 0 opened) Ht) as Hc.
  destruct (claimPending 7 ["op-1"] (run "node-a" 0 opened)) as [c' out]. exact (proj1 (proj2 Hc)).
Defined.

Lemma stale_hooks_are_harmless_witness :
  noteStreamOpen (at_ 3) 9 (run "node-a" 0 opened) = run "node-a" 0 opened.
Proof.
  assert (He : streamEpoch (run "node-a" 0 opened) <> 9) by (vm_compute; discriminate).
  exact (proj1 (stale_hooks_are_harmless (at_ 3) 9 "eof" (run "node-a" 0 opened) He)).
Defined.

Lemma stream_drop_grace_witness :
  streamDownSince (foldl (fun c d => noteStreamError d.1 1 d.2 c)
    (noteStreamError (at_ 4) 1 "eof" (run "node-a" 0 opened)) [(at_ 12, "refused"%string)]) = at_ 4.
Proof.
  assert (Hf : runCancel (run "node-a" 0 opened) = true /\ streamEpoch (run "node-a" 0 opened) = 1 /\
    streamOpen (run "node-a" 0 opened) = true /\ streamOpened (run "node-a" 0 opened) = true /\
    streamDownSince (run "node-a" 0 opened) = 0 /\ stState (status (run "node-a" 0 opened)) = CollectorReady /\
    connPollFailures (run "node-a" 0 opened) < 3 /\ discoveryFailures (run "node-a" 0 opened) < 3)
    by (vm_compute; split_all; reflexivity).
  destruct Hf as (F1 & F2 & F3 & F4 & F5 & F6 & F7 & F8).
  assert (Hd : Forall (fun d => time_sub d.1 (at_ 4) < 15 * second) [(at_ 12, "refused"%string)])
    by (repeat constructor).
  assert (Hz : at_ 4 <> 0) by (vm_compute; discriminate).
  destruct (stream_drop_grace (run "node-a" 0 opened) 1 (at_ 4) "eof" [(at_ 12, "refused"%string)]
    F1 F2 F3 F4 F5 F6 F7 F8 Hz Hd) as (_ & Hdown & _). exact Hdown.
Defined.

Lemma tick_forwards_losses_once_witness :
  exists a sh g, asm (run "node-a" 0 opened) = Some a /\ shipper (run "node-a" 0 opened) = Some sh /\
    guard (run "node-a" 0 opened) = Some g /\
    lastAsmDropped (forward_losses (run "node-a" 0 opened)) = Asm.sDropped (Asm.stats a).
Proof.
  destruct (pipeline_some (fun a _ g => (Asm.sDropped (Asm.stats a) =? 0)
    && (Asm.sPartial (Asm.stats a) =? 0) && (Guard.droppedN g =? 0)) (run "node-a" 0 opened)) as (a & sh & g & Ha & Hs & Hg & Hp).
  { vm_compute. reflexivity. }
  apply andb_true_iff in Hp as [[Hp1%Z.eqb_eq Hp2%Z.eqb_eq]%andb_true_iff Hd%Z.eqb_eq].
  exists a, sh, g. do 3 (split; [assumption|]).
  assert (Hl : lastAsmDropped (run "node-a" 0 opened) = 0 /\ lastAsmPartial (run "node-a" 0 opened) = 0)
    by (vm_compute; split; reflexivity).
  destruct Hl as [Hl1 Hl2].
  assert (Hb1 : 0 <= lastAsmDropped (run "node-a" 0 opened) <= Asm.sDropped (Asm.stats a)) by (rewrite Hl1, Hp1; lia).
  assert (Hb2 : 0 <= lastAsmPartial (run "node-a" 0 opened) <= Asm.sPartial (Asm.stats a)) by (rewrite Hl2, Hp2; lia).
  destruct (tick_forwards_losses_once (run "node-a" 0 opened) a sh g Ha Hs Hg Hb1 ltac:(lia) Hb2 ltac:(lia) ltac:(lia))
    as (_ & Hlast & _). exact Hlast.
Defined.

(** The raw queue after one kept line. *)
Lemma raw_off_discards_witness :
  exists b, flushRaw_begin (run "node-a" 0 opened) = Some b /\
    rawQueue (setRawSourceLocked "" (run "node-a" 0 opened)) = [].
Proof.
  assert (Hb : flushRaw_begin (run "node-a" 0 opened) = Some (mkRaw "raw-1" [""%string] 0 0))
    by (vm_compute; reflexivity).
  assert (He : 0 <= rawEpoch (run "node-a" 0 opened) < 2 ^ 64) by (vm_compute; split; [discriminate|reflexivity]).
  exists (mkRaw "raw-1" [""%string] 0 0). split; [exact Hb|].
  exact (proj1 (raw_off_discards (run "node-a" 0 opened) _ "raw-1" [] Hb He)).
Defined.

Lemma claimed_capture_outlives_session_witness :
  exists a sh, shipper (deliver "node-a" (at_ 201) (conn_line 7 EventOther) a sh
      (expireSessionsLocally (at_ 200) (run "node-a" 0 (opened ++ [entry 3 naming])))) =
    Some (Ship.AddLines [base_line "node-a" (at_ 201) (conn_line 7 EventOther)
                           <| TraceLine.SessionID := "op-1"%string |>] sh).
Proof.
  exists (Asm.New (Asm.mkOptions "node-a" 1 0 0 0 0 0 0)), (Ship.New (Ship.mkConfig "node-a" 0 0 0 0)).
  assert (Ht : tagged (run "node-a" 0 (opened ++ [entry 3 naming])) !! 7 = Some ["op-1"%string])
    by (vm_compute; reflexivity).
  exact (claimed_capture_outlives_session "node-a" (at_ 201) (at_ 200) (conn_line 7 EventOther) _ _
    (run "node-a" 0 (opened ++ [entry 3 naming])) ["op-1"%string] eq_refl Ht ltac:(discriminate)).
Defined.

(** A connection's first line is held, its second names the user the session
    captures, and both are shipped; its session expires at 90 s and the third
    line is shipped under it all the same. *)
Example capture_run :
  (fun sh => map TraceLine.SessionID (Ship.lines sh)) <$> shipper (run "node-a" 0 (opened ++ [entry 3 naming]))
    = Some ["op-1"; "op-1"]%string /\
  (fun sh => map TraceLine.SessionID (Ship.lines sh)) <$>
    shipper (run "node-a" 0 (opened ++ [entry 3 naming; OpTick (at_ 200) 200; entry 201 (conn_line 7 EventOther)]))
    = Some ["op-1"; "op-1"; "op-1"]%string /\
  ActiveSessions (policy (run "node-a" 0 (opened ++ [entry 3 naming; OpTick (at_ 200) 200]))) = [].
Proof. split; [|split]; vm_compute; reflexivity. Qed.

(** The collector remembers the loss counters of the assembler it had.  After
    one connection seen only at its end, a tick, and the trace switched off and
    on, the new assembler's counter is below the remembered one, and the next
    tick reports 2^64-1 dropped lines that never existed. *)
Theorem pipeline_restart_reports_phantom_drops :
  Ship.droppedTotal <$> shipper (run "node-a" 0
    [op_apply 0 true; OpStreamOpen (at_ 1) 1; entry 2 (conn_line 8 EventConnectionClosed); OpTick (at_ 200) 200;
     op_apply 201 false; op_apply 202 true; OpTick (at_ 203) 203]) = Some (2 ^ 64 - 1).
Proof. vm_compute. reflexivity. Qed.
End CollectorSamples.
End CollectorProps.
