(* ===== verification/TaskOutbox.v ===== *)
(** * The durable task outbox (internal/taskoutbox/outbox.go)

    The store is a directory of journal files.  The model keeps the directory
    as it is visible, and every directory state since the last successful
    directory sync: after a crash each name holds what it held in one of
    them.  Each system call asks the environment, which lets it happen, fails
    it, or kills the process before it; an operation that is killed part way
    returns nothing.  The temporary file is synced before it is published, so
    a published file's data is durable with its name. *)
From S2P Require Import Prelude GoStrings SDK.

Local Open Scope Z_scope.

Definition entryVersion : Z := 1.
Definition stateLeased : string := "leased".
Definition stateDone : string := "completed".
Definition maxEntries : nat := 1024.
Definition maxEntrySize : Z := Z.shiftl 4 20.
Definition linechainProtocol : string := "linechain-e3-v2".

(** ** Journal entries *)
Record Entry := mkEntry {
  Version : Z;
  State : string;
  eTask : Task;
  DurableProtocol : string;
  Result : option TaskResult;
  ExecutionStartedAt : time;
  UpdatedAt : time;
  key : string
}.

#[export] Instance Entry_eta : Etable Entry := fun e =>
  mkEntry (Version e) (State e) (eTask e) (DurableProtocol e) (Result e) (ExecutionStartedAt e)
    (UpdatedAt e) (key e).

(** What decoding a journal file can give: a malformed document, more text
    after the document, or an entry. *)
Inductive decoded :=
  | DecodeFailed (err : string)
  | TrailingData
  | TrailingFailed (err : string)
  | Decoded (entry : Entry).

(** encoding/json and crypto/sha256 as the store uses them: [unmarshal] reads a
    whole file, [wire_result] is a result as it comes back out of JSON (invalid
    UTF-8 is replaced, for example), [same_result] is [reflect.DeepEqual],
    which also compares how time stamps are represented, [sha256hex] is the
    lower-case hexadecimal digest. *)
Class Codec := {
  marshal : Entry -> option string;
  unmarshal : string -> decoded;
  wire_result : TaskResult -> TaskResult;
  same_result : TaskResult -> TaskResult -> bool;
  sha256hex : string -> string;
  (** tasks that came out of a JSON document of the server *)
  issued : Task -> Prop
}.

(** A journal entry of an issued task survives the round trip through its file;
    the key is not written.  Two results that are deeply equal are equal. *)
Class CodecLaws `{Codec} := {
  round_trip : forall e data, issued (eTask e) -> marshal e = Some data ->
    unmarshal data = Decoded (e <| Result ::= fmap wire_result |> <| key := "" |>);
  wire_ids : forall t r, issued t -> rTaskID r = tID t -> rLeaseID r = tLeaseID t ->
    rTaskID (wire_result r) = tID t /\ rLeaseID (wire_result r) = tLeaseID t;
  same_result_eq : forall a b, same_result a b = true -> a = b
}.

Definition entryKey `{Codec} (taskID leaseID : string) : string :=
  sha256hex (taskID +:+ String (byte_of 0) leaseID).

(** ** The file system *)
Inductive node :=
  | File (perm : Z) (data : string)
  | Symlink
  | Dir
  | Special.
Abbreviation directory := (gmap string node).

Inductive call :=
  | CReadDir | CLstat (name : string) | COpen (name : string) | CCreate | CChmod | CWrite | CFsync
  | CClose | CLink (name : string) | CRename (name : string) | CRemove (name : string) | CSyncDir
  | CPost (result : TaskResult) | CFetch | CRun (task : Task).

Inductive answer := Happens | Fails (err : string) | Dies.

Inductive error :=
  | EIDsRequired | ERedelivered (id : string) | ErrCapacity
  | ENotAwaiting (id : string) | ELeaseMismatch
  | EConfirm (err : string) | EBeforeRecovery (e : error)
  | ELinechainRecovery (id : string) | ERecover (id : string) (e : error)
  | ERecoverConfirm (id : string) (e confirm : error)
  | EUnconfirmed | ERemove (err : string) | ESync (err : string)
  | EReadDir (err : string) | EInspect (err : string) | ENotRegular (name : string)
  | ENotPrivate (name : string) | ETooLarge (name : string) | EOpen (err : string)
  | EDecode (err : string) | ETrailing | ETrailingErr (err : string) | EInvalid (name : string)
  | EUnsupported (protocol : string) | EKeyMismatch (name : string) | EState (state : string)
  | ELeasedResult | EResultMismatch
  | EStaleInspect (err : string) | EStaleNotRegular (name : string) | EStaleRemove (err : string)
  | EEncode | EEntryTooLarge | ECreate (err : string) | ESecure (err : string) | EWrite (err : string)
  | EFsync (err : string) | EClose (err : string) | EPublishNew (err : string)
  | ERemoveTemp (err : string) | EPublish (err : string) | ESyncOutbox (err : string)
  | EHttp (err : string) | EProtocol (protocol : string) | ENotDurable (protocol : string)
  | ELinechainUnavailable | EJournalLease (id : string) (e : error)
  | EReportUnexecuted (journal post : error) | EJournalResult (id : string) (e : error)
  | EConfirmPublished (journal confirm : error) | EUploadConfirmed (journal flush : error)
  | EReadPending (e : error) | EEmptyResult (id : string) | EFlush (id : string) (e : error)
  | ERemoveAck (id : string) (e : error) | ERecoverInterrupted (e : error)
  | EPostResult (id : string) (e : error).

(** What the outside world sees of the agent: the events of interest. *)
Inductive event :=
  | EvLease (task : Task)             (* a new lease journal was published *)
  | EvRun (task : Task)               (* host code was launched for a journaled lease *)
  | EvRunDirect (task : Task)         (* host code was launched for a task without a journal *)
  | EvUpload (result : TaskResult)    (* a journaled result was sent *)
  | EvAck (result : TaskResult)       (* the server acknowledged a result *)
  | EvReport (result : TaskResult)    (* a result without a journal was sent *)
  | EvUnlink (name : string).         (* a journal file was unlinked *)

(** The environment: it answers system calls, tells the time, names temporary
    files, returns the task batch of a poll and the results of tasks. *)
Class Os (E : Type) := {
  ask : call -> E -> answer * E;
  clock : E -> time * E;
  temp_name : E -> string * E;
  fetched : E -> list (Task * bool * string) * E;
  ran : Task -> E -> TaskResult * E;
  stopping : E -> bool * E
}.

Record world {E : Type} := mkWorld {
  vis : directory;
  hist : list directory;
  durabilityUnconfirmed : bool;
  env : E;
  log : list event
}.
Arguments world : clear implicits.
Arguments mkWorld {E}.

#[export] Instance world_eta E : Etable (world E) := fun w =>
  mkWorld (vis w) (hist w) (durabilityUnconfirmed w) (env w) (log w).

(** ** The monad: state, and death of the process *)
Definition M (E A : Type) : Type := world E -> option A * world E.
#[export] Instance M_ret E : MRet (M E) := fun A a w => (Some a, w).
#[export] Instance M_bind E : MBind (M E) := fun A B k m w =>
  match m w with (Some a, w') => k a w' | (None, w') => (None, w') end.

(** Every way an operation can end: with a result, or with the process dead. *)
Definition wp {E A} (m : M E A) (Q : A -> world E -> Prop) (D : world E -> Prop) (w : world E) : Prop :=
  match m w with (Some a, w') => Q a w' | (None, w') => D w' end.

Lemma wp_ret {E A} (a : A) Q D (w : world E) : Q a w -> wp (mret a) Q D w.
Proof. done. Qed.

Lemma wp_bind {E A B} (m : M E A) (k : A -> M E B) Q D w :
  wp m (fun a w' => wp (k a) Q D w') D w -> wp (m ≫= k) Q D w.
Proof. unfold wp, mbind, M_bind. by destruct (m w) as [[a|] w']. Qed.

Lemma wp_mono {E A} (m : M E A) (Q Q' : A -> world E -> Prop) (D D' : world E -> Prop) w :
  wp m Q D w -> (forall a w', Q a w' -> Q' a w') -> (forall w', D w' -> D' w') -> wp m Q' D' w.
Proof. unfold wp. destruct (m w) as [[a|] w']; auto. Qed.

(** Run a step by its specification, then the rest. *)
Lemma wp_step {E A B} (m : M E A) (k : A -> M E B) (R : A -> world E -> Prop) (DR : world E -> Prop) Q D w :
  wp m R DR w -> (forall w', DR w' -> D w') -> (forall a w', R a w' -> wp (k a) Q D w') ->
  wp (m ≫= k) Q D w.
Proof. intros Hm HD HQ. apply wp_bind. by apply (wp_mono _ R _ DR). Qed.

Section Calls.
Context {E : Type} `{Os E}.

Definition modify (f : world E -> world E) : M E unit := fun w => (Some tt, f w).
Definition gets {A} (f : world E -> A) : M E A := fun w => (Some (f w), w).

Definition syscall (c : call) : M E (option string) := fun w =>
  let '(a, e) := ask c (env w) in
  let w := w <| env := e |> in
  match a with Happens => (Some None, w) | Fails err => (Some (Some err), w) | Dies => (None, w) end.

Definition draw {A} (f : E -> A * E) : M E A := fun w =>
  let '(a, e) := f (env w) in (Some a, w <| env := e |>).

Definition now_utc : M E time := draw clock.
Definition emit (ev : event) : M E unit := modify (fun w => w <| log ::= cons ev |>).

(** A directory operation is visible at once and durable at the next sync. *)
Definition edit (f : directory -> directory) : M E unit :=
  modify (fun w => w <| vis ::= f |> <| hist ::= cons (f (vis w)) |>).

Definition set_unconfirmed (b : bool) : M E unit :=
  modify (fun w => w <| durabilityUnconfirmed := b |>).

(** [os.Remove]. *)
Definition unlink (name : string) : M E (option string) :=
  syscall (CRemove name) ≫= fun r =>
  match r with
  | Some err => mret (Some err)
  | None =>
      gets vis ≫= fun d =>
      match d !! name with
      | None => mret (Some "no such file or directory"%string)
      | Some _ => edit (delete name) ;; mret None
      end
  end.

(** [syncDir]. *)
Definition sync_dir : M E (option string) :=
  syscall CSyncDir ≫= fun r =>
  match r with
  | Some err => mret (Some err)
  | None => modify (fun w => w <| hist := [vis w] |>) ;; mret None
  end.
End Calls.

(** ** The store *)
Module Outbox.
Section Store.
Context `{Codec} {E : Type} `{Os E}.

Definition path (k : string) : string := k +:+ ".json".

(** The checks of [read] on a decoded journal. *)
Definition check_entry (k : string) (e : Entry) : error + Entry :=
  if negb (Version e =? entryVersion) || String.eqb (tID (eTask e)) ""
     || String.eqb (tLeaseID (eTask e)) "" then inl (EInvalid (path k))
  else if has_prefix (DurableProtocol e) "linechain-e3-"
          && negb (String.eqb (DurableProtocol e) linechainProtocol)
  then inl (EUnsupported (DurableProtocol e))
  else if negb (String.eqb k (entryKey (tID (eTask e)) (tLeaseID (eTask e))))
  then inl (EKeyMismatch (path k))
  else if negb (String.eqb (State e) stateLeased) && negb (String.eqb (State e) stateDone)
  then inl (EState (State e))
  else if String.eqb (State e) stateLeased && bool_decide (is_Some (Result e))
  then inl ELeasedResult
  else if String.eqb (State e) stateDone &&
          match Result e with
          | None => true
          | Some r => negb (String.eqb (rTaskID r) (tID (eTask e)))
                      || negb (String.eqb (rLeaseID r) (tLeaseID (eTask e)))
          end
  then inl EResultMismatch
  else inr (e <| key := k |>).

(** [read] once the file is open. *)
Definition read_data (k data : string) : error + Entry :=
  match unmarshal data with
  | DecodeFailed err => inl (EDecode err)
  | TrailingData => inl ETrailing
  | TrailingFailed err => inl (ETrailingErr err)
  | Decoded e => check_entry k e
  end.

Definition read (k : string) : M E (error + Entry) :=
  r ← syscall (CLstat (path k));
  d ← gets vis;
  match r, d !! path k with
  | Some err, _ => mret (inl (EInspect err))
  | None, None => mret (inl (EInspect "no such file or directory"))
  | None, Some (File perm data) =>
      if negb (Z.land perm 63 =? 0) then mret (inl (ENotPrivate (path k)))
      else if maxEntrySize <? Z.of_nat (String.length data) then mret (inl (ETooLarge (path k)))
      else
        r ← syscall (COpen (path k));
        match r with
        | Some err => mret (inl (EOpen err))
        | None => mret (read_data k data)
        end
  | None, Some _ => mret (inl (ENotRegular (path k)))
  end.

(** The loop of [readAll] over the directory entries. *)
Fixpoint read_entries (names : list (string * node)) (entries : list Entry)
    : M E (error + list Entry) :=
  match names with
  | [] => mret (inr entries)
  | (name, n) :: rest =>
      if match n with Dir => true | _ => false end || negb (has_suffix name ".json")
      then read_entries rest entries
      else if (maxEntries <=? length entries)%nat then mret (inl ErrCapacity)
      else
        r ← read (trim_suffix name ".json");
        match r with
        | inl err => mret (inl err)
        | inr e => read_entries rest (entries ++ [e])
        end
  end.

(** [os.ReadDir] lists the names in order. *)
Definition list_dir (d : directory) : list (string * node) :=
  insertion_sort (fun a b => String.leb a.1 b.1) (map_to_list d).

Definition readAll : M E (error + list Entry) :=
  r ← syscall CReadDir;
  match r with
  | Some err => mret (inl (EReadDir err))
  | None => d ← gets vis; read_entries (list_dir d) []
  end.

(** ** Publication *)

(** The temporary file is written, synced and closed under a name of its own;
    on failure it is removed again. *)
Definition write_temp (data : string) : M E (error + string) :=
  r ← syscall CCreate;
  match r with
  | Some err => mret (inl (ECreate err))
  | None =>
      rnd ← draw temp_name;
      let tmp := ".task-result-" +:+ rnd +:+ ".tmp" in
      d ← gets vis;
      if bool_decide (is_Some (d !! tmp)) then mret (inl (ECreate "file exists"))
      else
        edit <[tmp := File 384 ""]> ;;
        r ← syscall CChmod;
        match r with
        | Some err => unlink tmp ;; mret (inl (ESecure err))
        | None =>
            r ← syscall CWrite;
            match r with
            | Some err => unlink tmp ;; mret (inl (EWrite err))
            | None =>
                edit <[tmp := File 384 data]> ;;
                r ← syscall CFsync;
                match r with
                | Some err => unlink tmp ;; mret (inl (EFsync err))
                | None =>
                    r ← syscall CClose;
                    match r with
                    | Some err => unlink tmp ;; mret (inl (EClose err))
                    | None => mret (inr tmp)
                    end
                end
            end
        end
  end.

(** The final directory sync of [writeEntry]. *)
Definition sync_published : M E (bool * option error) :=
  r ← sync_dir;
  match r with
  | Some err => set_unconfirmed true ;; mret (true, Some (ESyncOutbox err))
  | None => set_unconfirmed false ;; mret (true, None)
  end.

Definition writeEntry (k : string) (entry : Entry) (createOnly : bool) : M E (bool * option error) :=
  match marshal entry with
  | None => mret (false, Some EEncode)
  | Some data =>
      if maxEntrySize <? Z.of_nat (String.length data) then mret (false, Some EEntryTooLarge)
      else
        t ← write_temp data;
        match t with
        | inl err => mret (false, Some err)
        | inr tmp =>
            if createOnly then
              r ← syscall (CLink (path k));
              d ← gets vis;
              match r, d !! path k with
              | Some err, _ => unlink tmp ;; mret (false, Some (EPublishNew err))
              | None, Some _ => unlink tmp ;; mret (false, Some (EPublishNew "file exists"))
              | None, None =>
                  edit <[path k := File 384 data]> ;;
                  emit (EvLease (eTask entry)) ;;
                  r ← unlink tmp;
                  match r with
                  | Some err => set_unconfirmed true ;; mret (true, Some (ERemoveTemp err))
                  | None => sync_published
                  end
              end
            else
              r ← syscall (CRename (path k));
              match r with
              | Some err => unlink tmp ;; mret (false, Some (EPublish err))
              | None => edit (fun d => <[path k := File 384 data]> (delete tmp d)) ;; sync_published
              end
        end
  end.

Definition write (k : string) (entry : Entry) := writeEntry k entry false.
Definition writeNew (k : string) (entry : Entry) := writeEntry k entry true.

(** ** Operations *)

(** The scan of [begin]: [Some] when a journaled entry decides. *)
Fixpoint begin_scan (k : string) (task : Task) (protocol : string) (entries : list Entry)
    : option (bool * option error) :=
  match entries with
  | [] => None
  | e :: rest =>
      if String.eqb (tID (eTask e)) (tID task) then
        if String.eqb (key e) k && bool_decide (eTask e = task)
           && String.eqb (DurableProtocol e) protocol
        then Some (false, None)
        else Some (false, Some (ERedelivered (tID task)))
      else begin_scan k task protocol rest
  end.

Definition begin (task : Task) (protocol : string) : M E (bool * option error) :=
  if String.eqb (trim_space (tID task)) "" || String.eqb (trim_space (tLeaseID task)) ""
  then mret (false, Some EIDsRequired)
  else
    r ← readAll;
    match r with
    | inl err => mret (false, Some err)
    | inr entries =>
        let k := entryKey (tID task) (tLeaseID task) in
        match begin_scan k task protocol entries with
        | Some result => mret result
        | None =>
            if (maxEntries <=? length entries)%nat then mret (false, Some ErrCapacity)
            else
              now ← now_utc;
              writeNew k (mkEntry entryVersion stateLeased task protocol None now now "")
        end
    end.

Definition Begin (task : Task) := begin task "".
Definition BeginWithProtocol (task : Task) (protocol : string) := begin task protocol.

Definition Complete (result : TaskResult) : M E (bool * option error) :=
  let k := entryKey (rTaskID result) (rLeaseID result) in
  r ← read k;
  match r with
  | inl err => mret (false, Some err)
  | inr entry =>
      if String.eqb (State entry) stateDone &&
         match Result entry with Some r => same_result r result | None => false end
      then mret (false, None)
      else if negb (String.eqb (State entry) stateLeased)
      then mret (false, Some (ENotAwaiting (rTaskID result)))
      else if negb (String.eqb (tID (eTask entry)) (rTaskID result))
              || negb (String.eqb (tLeaseID (eTask entry)) (rLeaseID result))
      then mret (false, Some ELeaseMismatch)
      else
        now ← now_utc;
        write k (entry <| State := stateDone |> <| Result := Some result |> <| UpdatedAt := now |>)
  end.

Definition ConfirmDurability : M E (option error) :=
  r ← sync_dir;
  match r with
  | Some err => mret (Some (EConfirm err))
  | None => set_unconfirmed false ;; mret None
  end.

Definition unknown_outcome : string :=
  "agent restarted or lost durable result after task launch; execution outcome is unknown and the task was not re-executed".

Definition interrupted_result (nodeID : string) (e : Entry) (now : time) : TaskResult :=
  mkResult (tID (eTask e)) (tLeaseID (eTask e)) nodeID (-1) "" "" unknown_outcome
    (ExecutionStartedAt e) now.

Fixpoint recover_entries (nodeID : string) (entries : list Entry) : M E (option error) :=
  match entries with
  | [] => mret None
  | e :: rest =>
      if negb (String.eqb (State e) stateLeased) then recover_entries nodeID rest
      else if String.eqb (DurableProtocol e) linechainProtocol
      then mret (Some (ELinechainRecovery (tID (eTask e))))
      else
        now ← now_utc;
        let e' := e <| State := stateDone |> <| Result := Some (interrupted_result nodeID e now) |>
                    <| UpdatedAt := now |> in
        w ← write (key e) e';
        match w with
        | (_, None) => recover_entries nodeID rest
        | (false, Some err) => mret (Some (ERecover (tID (eTask e)) err))
        | (true, Some err) =>
            c ← ConfirmDurability;
            match c with
            | Some confirm => mret (Some (ERecoverConfirm (tID (eTask e)) err confirm))
            | None => recover_entries nodeID rest
            end
        end
  end.

Definition RecoverInterrupted (nodeID : string) : M E (option error) :=
  c ← ConfirmDurability;
  match c with
  | Some err => mret (Some (EBeforeRecovery err))
  | None =>
      r ← readAll;
      match r with
      | inl err => mret (Some err)
      | inr entries => recover_entries nodeID entries
      end
  end.

Definition pending_leb (a b : Entry) : bool :=
  if UpdatedAt a =? UpdatedAt b then String.leb (key a) (key b) else UpdatedAt a <? UpdatedAt b.

Definition is_pending (e : Entry) : bool :=
  String.eqb (State e) stateDone && bool_decide (is_Some (Result e)).

Definition Pending : M E (error + list Entry) :=
  u ← gets durabilityUnconfirmed;
  if (u : bool) then mret (inl EUnconfirmed)
  else
    r ← readAll;
    match r with
    | inl err => mret (inl err)
    | inr entries => mret (inr (insertion_sort pending_leb (filter (fun e => is_pending e = true) entries)))
    end.

Definition Snapshot : M E (error + list Entry) := readAll.

Definition Remove (entry : Entry) : M E (option error) :=
  let k := if String.eqb (key entry) ""
           then entryKey (tID (eTask entry)) (tLeaseID (eTask entry)) else key entry in
  r ← unlink (path k);
  match r with
  | Some err => mret (Some (ERemove err))
  | None =>
      emit (EvUnlink (path k)) ;;
      r ← sync_dir;
      match r with
      | Some err => set_unconfirmed true ;; mret (Some (ESync err))
      | None => mret None
      end
  end.

(** ** Opening *)
Definition is_temp (name : string) : bool :=
  has_prefix name ".task-result-" && has_suffix name ".tmp".

Fixpoint cleanup_entries (names : list (string * node)) (removed : bool) : M E (option error) :=
  match names with
  | [] =>
      if removed then
        r ← sync_dir;
        mret (ESync <$> r)
      else mret None
  | (name, n) :: rest =>
      if negb (is_temp name) then cleanup_entries rest removed
      else
        r ← syscall (CLstat name);
        match r, n with
        | Some err, _ => mret (Some (EStaleInspect err))
        | None, File _ _ =>
            r ← unlink name;
            match r with
            | Some err => mret (Some (EStaleRemove err))
            | None => cleanup_entries rest true
            end
        | None, _ => mret (Some (EStaleNotRegular name))
        end
  end.

Definition cleanupTemps : M E (option error) :=
  r ← syscall CReadDir;
  match r with
  | Some err => mret (Some (EReadDir err))
  | None => d ← gets vis; cleanup_entries (list_dir d) false
  end.

(** [openWithSync] once the private directory exists and its lock is held: a
    new store has nothing unconfirmed. *)
Definition Open : M E (option error) :=
  set_unconfirmed false ;;
  c ← cleanupTemps;
  match c with
  | Some err => mret (Some err)
  | None =>
      r ← readAll;
      match r with inl err => mret (Some err) | inr _ => mret None end
  end.
End Store.
End Outbox.
