(* ===== verification/TaskOutboxInv.v ===== *)
(** * The journal invariant of the task outbox

    [OutboxInv] says what every directory a crash may expose satisfies, given
    the events so far, and how each operation of the store changes it. *)
From S2P Require Import Prelude GoStrings SDK TaskOutbox.

Local Open Scope Z_scope.

Module OutboxInv.
Import Outbox.

(** ** Names *)
Lemma path_suffix k : has_suffix (path k) ".json" = true.
Proof. apply has_suffix_app. Qed.

Lemma trim_path k : trim_suffix (path k) ".json" = k.
Proof.
  unfold trim_suffix, cut_suffix. rewrite path_suffix. simpl. unfold path. rewrite string_app_length.
  replace (String.length k + String.length ".json" - 5)%nat with (String.length k) by (simpl; lia).
  apply str_take_app.
Qed.

Lemma path_trim name : has_suffix name ".json" = true -> path (trim_suffix name ".json") = name.
Proof.
  intros Hs. unfold trim_suffix, cut_suffix. rewrite Hs. simpl. unfold path.
  unfold has_suffix in Hs. apply andb_true_iff in Hs as [_ Hs%String.eqb_eq].
  rewrite <- Hs. apply str_take_drop.
Qed.

#[export] Instance path_inj : Inj (=) (=) path.
Proof. intros a b Hab. by rewrite <- (trim_path a), <- (trim_path b), Hab. Qed.

Lemma path_not_temp k : is_temp (path k) = false.
Proof.
  unfold is_temp. destruct (has_suffix (path k) ".tmp") eqn:E; [|apply andb_false_r].
  apply has_suffix_last in E; [|done]. unfold path in E. by rewrite last_byte_app in E.
Qed.

Definition temp_path (rnd : string) : string := ".task-result-" +:+ rnd +:+ ".tmp".

Lemma temp_path_temp rnd : is_temp (temp_path rnd) = true.
Proof.
  unfold is_temp, temp_path. apply andb_true_iff. split; [by destruct rnd|].
  rewrite <- string_app_assoc. apply has_suffix_app.
Qed.

Lemma temp_ne_path tmp k : is_temp tmp = true -> tmp <> path k.
Proof. intros Ht ->. by rewrite path_not_temp in Ht. Qed.

(** ** Stored entries *)
Section Inv.
Context `{CL : CodecLaws} {E : Type} `{Os E}.
Implicit Types (w : world E) (d : directory) (k : string).

Definition keyOf (t : Task) : string := entryKey (tID t) (tLeaseID t).
Definition result_key (r : TaskResult) : string := entryKey (rTaskID r) (rLeaseID r).

Definition protocol_ok (p : string) : Prop :=
  (has_prefix p "linechain-e3-" && negb (String.eqb p linechainProtocol))%bool = false.

(** An entry [read] accepts. *)
Definition good_entry (e : Entry) : Prop :=
  Version e = entryVersion /\ tID (eTask e) <> "" /\ tLeaseID (eTask e) <> "" /\
  protocol_ok (DurableProtocol e) /\ issued (eTask e) /\
  ((State e = stateLeased /\ Result e = None) \/
   (State e = stateDone /\ exists r, Result e = Some r /\
      rTaskID r = tID (eTask e) /\ rLeaseID r = tLeaseID (eTask e))).

(** An entry as [read] returns it. *)
Definition as_read (k : string) (e : Entry) : Entry :=
  e <| Result ::= fmap wire_result |> <| key := k |>.

Definition stored (k : string) (n : node) (e : Entry) : Prop :=
  exists data, n = File 384 data /\ marshal e = Some data /\
    (maxEntrySize <? Z.of_nat (String.length data)) = false /\ good_entry e /\ k = keyOf (eTask e).

(** What a reader of file [n] under key [k] sees. *)
Definition holds (k : string) (n : node) (o : Entry) : Prop :=
  exists e, stored k n e /\ o = as_read k e.

Lemma good_checks e :
  good_entry e ->
  check_entry (keyOf (eTask e)) (e <| Result ::= fmap wire_result |> <| key := "" |>) =
    inr (as_read (keyOf (eTask e)) e).
Proof.
  intros (Hv & Hi & Hl & Hp & Hs & Hst). unfold protocol_ok in Hp. destruct e as [v st t p r a u k0]. cbn in *.
  unfold check_entry. cbn. subst v. simpl.
  apply String.eqb_neq in Hi, Hl. rewrite Hi, Hl. simpl. rewrite Hp. fold (keyOf t).
  rewrite String.eqb_refl. simpl. destruct Hst as [[-> ->]|[-> (r0 & -> & H1 & H2)]]; [done|].
  destruct (wire_ids t r0 Hs H1 H2) as [E1 E2]. cbn. rewrite E1, E2, !String.eqb_refl. done.
Qed.

Lemma stored_read k data e : stored k (File 384 data) e -> read_data k data = inr (as_read k e).
Proof.
  intros (data' & [= <-] & Hm & _ & Hg & ->). unfold read_data.
  rewrite (round_trip e data) by (unfold good_entry in Hg; tauto). by apply good_checks.
Qed.

Lemma holds_inj k n o o' : holds k n o -> holds k n o' -> o = o'.
Proof.
  intros (e & Hs & ->) (e' & Hs' & ->). assert (exists data, n = File 384 data) as [data ->].
  { destruct Hs as (data & -> & _). by exists data. }
  apply stored_read in Hs, Hs'. congruence.
Qed.

(** The facts about an entry a reader relies on. *)
Lemma holds_facts k n o :
  holds k n o -> key o = k /\ keyOf (eTask o) = k /\ issued (eTask o) /\
    ((State o = stateLeased /\ Result o = None) \/
     (State o = stateDone /\ exists r, Result o = Some r /\ result_key r = k)).
Proof.
  intros (e & (data & -> & _ & _ & (_ & _ & _ & _ & Hi & Hst) & ->) & ->).
  destruct e as [v st t p r a u k0]. cbn in *. split_all; try done.
  destruct Hst as [[-> ->]|[-> (r0 & -> & H1 & H2)]]; [by left|right]. split; [done|].
  exists (wire_result r0). split; [done|]. destruct (wire_ids t r0 Hi H1 H2) as [E1 E2].
  unfold result_key, keyOf. cbn. by rewrite E1, E2.
Qed.

(** ** What the events oblige the journal to hold *)

(** [t] was launched and its journal has not been unlinked since. *)
Fixpoint live (l : list event) (t : Task) : Prop :=
  match l with
  | [] => False
  | EvRun t' :: l => t' = t \/ live l t
  | EvUnlink n :: l => n <> path (keyOf t) /\ live l t
  | _ :: l => live l t
  end.

(** The result sent for key [k] since its last lease was published. *)
Fixpoint verdict (l : list event) (k : string) : option TaskResult :=
  match l with
  | [] => None
  | EvUpload r :: l => if String.eqb (result_key r) k then Some r else verdict l k
  | EvLease t :: l => if String.eqb (keyOf t) k then None else verdict l k
  | _ :: l => verdict l k
  end.

(** The order of events that the outbox guarantees. *)
Fixpoint log_ok (l : list event) : Prop :=
  match l with
  | [] => True
  | EvRun t :: l => (exists l', l = EvLease t :: l') /\ (forall t', live l t' -> tID t' <> tID t) /\
      log_ok l
  | EvUpload r :: l => (forall r', verdict l (result_key r) = Some r' -> r' = r) /\ log_ok l
  | EvUnlink n :: l => (exists r l', l = EvAck r :: l' /\ n = path (result_key r)) /\ log_ok l
  | _ :: l => log_ok l
  end.

Record dir_ok (l : list event) (d : directory) : Prop := {
  ok_files : forall k n, d !! path k = Some n -> exists o, holds k n o;
  ok_live : forall t, live l t -> exists n o,
    d !! path (keyOf t) = Some n /\ holds (keyOf t) n o /\ eTask o = t;
  ok_verdict : forall k r n, verdict l k = Some r -> d !! path k = Some n ->
    exists o, holds k n o /\ State o = stateDone /\ Result o = Some r
}.

Record Inv (w : world E) : Prop := {
  inv_vis : vis w ∈ hist w;
  inv_dirs : forall d, d ∈ hist w -> dir_ok (log w) d;
  inv_log : log_ok (log w)
}.

(** ** Directories that agree on the journal files *)
Definition json_eq (d d' : directory) : Prop := forall k, d' !! path k = d !! path k.

#[local] Instance json_eq_equiv : Equivalence json_eq.
Proof.
  unfold json_eq. split.
  - done.
  - intros d d' Heq k. by rewrite Heq.
  - intros d1 d2 d3 H12 H23 k. by rewrite H23, H12.
Qed.

Lemma dir_ok_ext l d d' : json_eq d d' -> dir_ok l d -> dir_ok l d'.
Proof.
  intros Heq [H1 H2 H3]. split.
  - intros k n Hn. rewrite Heq in Hn. eauto.
  - intros t Ht. destruct (H2 t Ht) as (n & o & Hn & Ho). exists n, o. by rewrite Heq.
  - intros k r n Hv Hn. rewrite Heq in Hn. eauto.
Qed.

(** Steps that leave the journal files, the events and the flag alone. *)
Definition quiet (w w' : world E) : Prop :=
  log w' = log w /\ durabilityUnconfirmed w' = durabilityUnconfirmed w /\
  json_eq (vis w) (vis w') /\ vis w' ∈ hist w' /\
  forall d', d' ∈ hist w' -> exists d, d ∈ hist w /\ json_eq d d'.

Definition synced (w : world E) : Prop := forall d, d ∈ hist w -> json_eq (vis w) d.

Lemma quiet_refl w : vis w ∈ hist w -> quiet w w.
Proof.
  intros Hv. split; [done|]. split; [done|]. split; [done|]. split; [done|].
  intros d Hd. by exists d.
Qed.

Lemma quiet_trans w1 w2 w3 : quiet w1 w2 -> quiet w2 w3 -> quiet w1 w3.
Proof.
  intros (L1 & F1 & V1 & _ & D1) (L2 & F2 & V2 & I2 & D2). unfold quiet. rewrite L2, F2.
  split; [done|]. split; [done|]. split; [|split; [done|]].
  - by transitivity (vis w2).
  - intros d Hd. destruct (D2 d Hd) as (d2 & Hd2 & E2). destruct (D1 d2 Hd2) as (d1 & Hd1 & E1).
    exists d1. split; [done|]. by transitivity d2.
Qed.

Lemma quiet_inv w w' : quiet w w' -> Inv w -> Inv w'.
Proof.
  intros (L & _ & V & I & D) [_ Hd Hl]. split; [done| |by rewrite L].
  intros d' Hd'. destruct (D d' Hd') as (d & Hin & Heq). rewrite L.
  apply (dir_ok_ext _ d); auto.
Qed.

Lemma quiet_synced w w' : quiet w w' -> synced w -> synced w'.
Proof.
  intros (_ & _ & V & _ & D) Hs d' Hd'. destruct (D d' Hd') as (d & Hin & Heq).
  transitivity (vis w); [by symmetry|]. transitivity d; auto.
Qed.

(** ** System calls and temporary files *)

(** Only the environment moved on. *)
Definition same (w w' : world E) : Prop :=
  vis w' = vis w /\ hist w' = hist w /\ durabilityUnconfirmed w' = durabilityUnconfirmed w /\
  log w' = log w.

Lemma same_quiet w w' : same w w' -> vis w ∈ hist w -> quiet w w'.
Proof.
  intros (V & Hh & F & L) Hv. split; [done|]. split; [done|]. split; [by rewrite V|].
  split; [by rewrite V, Hh|]. intros d Hd. rewrite Hh in Hd. by exists d.
Qed.

Lemma same_trans w1 w2 w3 : same w1 w2 -> same w2 w3 -> same w1 w3.
Proof. unfold same. intros (-> & -> & -> & ->). done. Qed.

Lemma same_inv w w' : same w w' -> Inv w -> Inv w'.
Proof. intros Hs HI. apply (quiet_inv w); [|done]. apply same_quiet; [done|apply HI]. Qed.

Lemma syscall_spec c w : wp (syscall c) (fun _ w' => same w w') (same w) w.
Proof. unfold wp, syscall. destruct (ask c (env w)) as [[|err|] e]; done. Qed.

Lemma draw_spec {A} (f : E -> A * E) w : wp (draw f) (fun _ w' => same w w') (same w) w.
Proof. unfold wp, draw. by destruct (f (env w)). Qed.

Lemma gets_bind {A B} (f : world E -> A) (k : A -> M E B) Q D w :
  wp (k (f w)) Q D w -> wp (gets f ≫= k) Q D w.
Proof. done. Qed.

Lemma modify_bind {B} f (k : unit -> M E B) Q D w :
  wp (k tt) Q D (f w) -> wp (modify f ≫= k) Q D w.
Proof. done. Qed.

Definition edited (f : directory -> directory) (w : world E) : world E :=
  w <| vis ::= f |> <| hist ::= cons (f (vis w)) |>.

Lemma edit_bind {B} f (k : unit -> M E B) Q D w :
  wp (k tt) Q D (edited f w) -> wp (edit f ≫= k) Q D w.
Proof. done. Qed.

(** Editing a name that is not a journal file is quiet. *)
Lemma edit_quiet f w :
  Inv w -> json_eq (vis w) (f (vis w)) ->
  quiet w (edited f w).
Proof.
  intros HI Hf. split; [done|]. split; [done|]. split; [exact Hf|]. split; [left|].
  intros d' [->|Hd]%elem_of_cons; [exists (vis w); split; [apply HI|done]|by exists d'].
Qed.

Lemma json_insert_temp tmp n d : is_temp tmp = true -> json_eq d (<[tmp := n]> d).
Proof. intros Ht k. by rewrite lookup_insert_ne by (apply (temp_ne_path _ k), Ht). Qed.

Lemma json_delete_temp tmp d : is_temp tmp = true -> json_eq d (delete tmp d).
Proof. intros Ht k. by rewrite lookup_delete_ne by (apply (temp_ne_path _ k), Ht). Qed.

(** Go on after a quiet step. *)
Lemma quiet_then {A B} (m : M E A) (k : A -> M E B) w0 w Q D (R : A -> world E -> Prop) :
  quiet w0 w -> Inv w ->
  wp m (fun a w' => quiet w w' /\ R a w') (quiet w) w ->
  (forall w', quiet w0 w' -> Inv w' -> D w') ->
  (forall a w', quiet w0 w' -> Inv w' -> R a w' -> wp (k a) Q D w') ->
  wp (m ≫= k) Q D w.
Proof.
  intros Hq0 HI Hm HD HQ. eapply wp_step; [exact Hm| |].
  - intros w' Hw'. apply HD; [by apply (quiet_trans _ w)|by apply (quiet_inv w)].
  - intros a w' [Hw' HR]. apply HQ; [by apply (quiet_trans _ w)|by apply (quiet_inv w)|done].
Qed.

Lemma syscall_quiet c w : Inv w -> wp (syscall c) (fun _ w' => quiet w w' /\ same w w') (quiet w) w.
Proof.
  intros HI. eapply wp_mono; [apply syscall_spec|simpl; intros a w' Hs|intros w' Hs].
  - split; [|done]. apply same_quiet; [done|apply HI].
  - apply same_quiet; [done|apply HI].
Qed.

Lemma unlink_temp tmp w :
  is_temp tmp = true -> Inv w -> wp (unlink tmp) (fun _ w' => quiet w w' /\ True) (quiet w) w.
Proof.
  intros Ht HI. unfold unlink.
  eapply (quiet_then _ _ w); [apply quiet_refl, HI|done|by apply syscall_quiet|done|].
  intros [err|] w' Hq HI' Hs; [by apply wp_ret|]. apply gets_bind.
  destruct (vis w' !! tmp); [|by apply wp_ret]. apply edit_bind, wp_ret. split; [|done].
  apply (quiet_trans _ w'); [done|]. by apply edit_quiet; [|apply json_delete_temp].
Qed.

(** Give up on a temporary file. *)
Lemma unlink_then {A} tmp (a : A) w0 w (Q : A -> world E -> Prop) :
  is_temp tmp = true -> quiet w0 w -> Inv w -> (forall w', quiet w0 w' -> Q a w') ->
  wp (unlink tmp ;; mret a) Q (quiet w0) w.
Proof.
  intros Ht Hq HI HQ. eapply (quiet_then _ _ w0); [done|done|by apply unlink_temp|done|].
  intros _ w' Hq' _ _. apply wp_ret. auto.
Qed.

Lemma write_temp_spec data w :
  Inv w ->
  wp (write_temp data) (fun r w' => quiet w w' /\
    match r with inr tmp => is_temp tmp = true | inl _ => True end) (quiet w) w.
Proof.
  intros HI. unfold write_temp.
  pose proof (quiet_refl w (inv_vis _ HI)) as Hq0.
  eapply (quiet_then _ _ w); [done..|by apply syscall_quiet|done|].
  intros [err|] w1 Hq1 HI1 _; [by apply wp_ret|].
  eapply (quiet_then _ _ w); [done..| |done|].
  { eapply wp_mono; [apply draw_spec|intros a w' Hs; split; [by apply same_quiet; [|apply HI1]|exact Hs]
      |intros w' Hs; by apply same_quiet; [|apply HI1]]. }
  intros rnd w2 Hq2 HI2 _. apply gets_bind. fold (temp_path rnd).
  pose proof (temp_path_temp rnd) as Ht. case_bool_decide; [by apply wp_ret|].
  apply edit_bind.
  match goal with |- wp _ _ _ ?w' => set (w3 := w') end.
  assert (quiet w w3) as Hq3.
  { apply (quiet_trans _ w2); [done|]. by apply edit_quiet; [|apply json_insert_temp]. }
  assert (HI3 := quiet_inv _ _ Hq3 HI).
  eapply (quiet_then _ _ w); [done..|by apply syscall_quiet|done|].
  intros [err|] w4 Hq4 HI4 _; [by apply unlink_then|].
  eapply (quiet_then _ _ w); [done..|by apply syscall_quiet|done|].
  intros [err|] w5 Hq5 HI5 _; [by apply unlink_then|].
  apply edit_bind.
  match goal with |- wp _ _ _ ?w' => set (w6 := w') end.
  assert (quiet w w6) as Hq6.
  { apply (quiet_trans _ w5); [done|]. by apply edit_quiet; [|apply json_insert_temp]. }
  assert (HI6 := quiet_inv _ _ Hq6 HI).
  eapply (quiet_then _ _ w); [done..|by apply syscall_quiet|done|].
  intros [err|] w7 Hq7 HI7 _; [by apply unlink_then|].
  eapply (quiet_then _ _ w); [done..|by apply syscall_quiet|done|].
  intros [err|] w8 Hq8 HI8 _; [by apply unlink_then|by apply wp_ret].
Qed.

(** ** Reading *)

Lemma same_refl w : same w w.
Proof. done. Qed.

(** Go on after a step that only moved the environment. *)
Lemma same_then {A B} (m : M E A) (k : A -> M E B) w0 w Q (D : world E -> Prop) (R : A -> Prop) :
  same w0 w -> wp m (fun a w' => same w w' /\ R a) (same w) w ->
  (forall w', same w0 w' -> D w') ->
  (forall a w', same w0 w' -> R a -> wp (k a) Q D w') ->
  wp (m ≫= k) Q D w.
Proof.
  intros Hs Hm HD HQ. eapply wp_step; [exact Hm| |].
  - intros w' Hw'. apply HD. by apply (same_trans _ w).
  - intros a w' [Hw' HR]. apply HQ; [by apply (same_trans _ w)|done].
Qed.

Lemma syscall_same c w : wp (syscall c) (fun _ w' => same w w' /\ True) (same w) w.
Proof. eapply wp_mono; [apply syscall_spec|done|done]. Qed.

Lemma read_spec k w :
  Inv w ->
  wp (read k) (fun r w' => same w w' /\
    match r with inr o => exists n, vis w !! path k = Some n /\ holds k n o | inl _ => True end)
    (same w) w.
Proof.
  intros HI. unfold read. eapply (same_then _ _ w); [done|apply syscall_same|done|].
  intros r w1 Hs1 _. apply gets_bind. pose proof (proj1 Hs1) as V. rewrite V.
  destruct r as [err|]; [by apply wp_ret|].
  destruct (vis w !! path k) as [n|] eqn:Hn; [|by apply wp_ret].
  destruct (ok_files _ _ (inv_dirs _ HI _ (inv_vis _ HI)) k n Hn) as (o & e & Hst & ->).
  assert (exists data, n = File 384 data /\ (maxEntrySize <? Z.of_nat (String.length data)) = false)
    as (data & -> & Hlen).
  { destruct Hst as (data & -> & _ & Hlen & _). by exists data. }
  change (negb (Z.land 384 63 =? 0)) with false. cbv iota. rewrite Hlen.
  eapply (same_then _ _ w); [done|apply syscall_same|done|].
  intros [err|] w2 Hs2 _; apply wp_ret; [done|]. split; [done|].
  rewrite (stored_read _ _ _ Hst). exists (File 384 data). split; [done|]. by exists e.
Qed.

(** The entries a directory holds. *)
Definition entries_of (d : directory) (es : list Entry) : Prop :=
  (forall o, o ∈ es <-> exists k n, d !! path k = Some n /\ holds k n o) /\ NoDup (key <$> es).

Lemma list_dir_elem d name n : (name, n) ∈ list_dir d <-> d !! name = Some n.
Proof. unfold list_dir. rewrite insertion_sort_perm. apply elem_of_map_to_list. Qed.

Lemma list_dir_nodup d : NoDup (list_dir d).*1.
Proof. unfold list_dir. rewrite insertion_sort_perm. apply NoDup_fst_map_to_list. Qed.

Definition named_entries (names : list (string * node)) (es : list Entry) : Prop :=
  (forall o, o ∈ es <-> exists k n, (path k, n) ∈ names /\ holds k n o) /\ NoDup (key <$> es).

Lemma holds_file k n o : holds k n o -> n <> Dir.
Proof. intros (e & (data & -> & _) & _). done. Qed.

Lemma read_entries_spec names : forall acc w,
  Inv w -> NoDup names.*1 -> (forall name n, (name, n) ∈ names -> vis w !! name = Some n) ->
  wp (read_entries names acc) (fun r w' => same w w' /\
    match r with inr es => exists new, es = acc ++ new /\ named_entries names new | inl _ => True end)
    (same w) w.
Proof.
  induction names as [|[name n] names IH]; intros acc w HI Hnd Hin; cbn [read_entries].
  { apply wp_ret. split; [done|]. exists []. rewrite app_nil_r. split; [done|]. split; [|constructor].
    intros o. split; [by intros ?%not_elem_of_nil|]. by intros (k & n & ?%not_elem_of_nil & _). }
  rewrite fmap_cons in Hnd. apply NoDup_cons in Hnd as [Hnot Hnd].
  assert (Hin' : forall name n, (name, n) ∈ names -> vis w !! name = Some n).
  { intros. apply Hin. by right. }
  destruct (_ || _) eqn:Hskip.
  { eapply wp_mono; [by apply IH| |done]. intros r w' [Hs Hr]. split; [done|].
    destruct r as [|es]; [done|]. destruct Hr as (new & -> & Hn & Hk). exists new. split; [done|].
    split; [|done]. intros o. rewrite Hn. split; intros (k & m & Hm & Ho); exists k, m; split; try done.
    - by right.
    - apply elem_of_cons in Hm as [[= <- <-]|]; [|done]. exfalso. apply orb_true_iff in Hskip as [Hd|Hd].
      + apply holds_file in Ho. by destruct m.
      + by rewrite path_suffix in Hd. }
  apply orb_false_iff in Hskip as [_ Hsuf%negb_false_iff].
  case_match; [by apply wp_ret|].
  eapply (same_then _ _ w); [done|by apply read_spec|done|].
  intros [err|o] w1 Hs1 Hr; [by apply wp_ret|]. rewrite path_trim in Hr by done.
  destruct Hr as (m & Hm & Ho). rewrite (Hin name n) in Hm by left. injection Hm as <-.
  set (k0 := trim_suffix name ".json") in *. assert (Hname : path k0 = name) by (by apply path_trim).
  eapply wp_mono; [apply IH| |intros w' Hs'; by apply (same_trans _ w1)].
  - by apply (same_inv w).
  - done.
  - destruct Hs1 as (-> & _). done.
  - intros r w' [Hs' Hr]. split; [by apply (same_trans _ w1)|]. destruct r as [|es]; [done|].
    destruct Hr as (new & -> & Hn & Hk). exists (o :: new). rewrite <- app_assoc. split; [done|].
    split.
    + intros o'. rewrite elem_of_cons, Hn. split.
      * intros [->|(k & n' & ? & ?)]; [exists k0, n; rewrite Hname; split; [left|done]|].
        exists k, n'. split; [by right|done].
      * intros (k & n' & [Heq|]%elem_of_cons & Ho'); [left|right; eauto].
        injection Heq as Hp ->. rewrite <- Hname in Hp. apply (inj path) in Hp as ->.
        by apply (holds_inj k0 n).
    + simpl. constructor; [|done]. intros Hel. apply list_elem_of_fmap in Hel as (o' & Hko & Ho').
      apply Hn in Ho' as (k & n' & Hin2 & Hh). apply holds_facts in Hh as (Hk1 & _), Ho as (Hk2 & _).
      apply Hnot. rewrite <- Hname, <- Hk2, Hko, Hk1. by apply (list_elem_of_fmap_2 fst _ (path k, n')).
Qed.

Lemma readAll_spec w :
  Inv w ->
  wp readAll (fun r w' => same w w' /\
    match r with inr es => entries_of (vis w) es | inl _ => True end) (same w) w.
Proof.
  intros HI. unfold readAll. eapply (same_then _ _ w); [done|apply syscall_same|done|].
  intros [err|] w1 Hs _; [by apply wp_ret|]. apply gets_bind.
  eapply wp_mono; [apply read_entries_spec| |intros w' Hs'; by apply (same_trans _ w1)].
  - by apply (same_inv w).
  - apply list_dir_nodup.
  - intros name n. apply list_dir_elem.
  - intros r w' [Hs' Hr]. split; [by apply (same_trans _ w1)|]. destruct r as [|es]; [done|].
    destruct Hr as (new & -> & Hn & Hk). simpl. destruct Hs as (<- & _). split; [|done].
    intros o. rewrite Hn. by setoid_rewrite list_dir_elem.
Qed.

(** ** Publishing *)

(** [w'] shows entry [e] under key [k], and otherwise the journal of [w]. *)
Definition published (k : string) (e : Entry) (w w' : world E) : Prop :=
  exists n, stored k n e /\
    forall k', vis w' !! path k' = if decide (k' = k) then Some n else vis w !! path k'.

Lemma sync_dir_spec w :
  Inv w ->
  wp sync_dir (fun r w' => match r with
    | Some _ => same w w'
    | None => vis w' = vis w /\ hist w' = [vis w] /\ log w' = log w /\
        durabilityUnconfirmed w' = durabilityUnconfirmed w
    end) (same w) w.
Proof.
  intros HI. unfold sync_dir. eapply (same_then _ _ w); [done|apply syscall_same|done|].
  intros [err|] w1 Hs _; [by apply wp_ret|]. apply modify_bind, wp_ret.
  destruct Hs as (V & Hh & F & L). cbn. by rewrite V, L, F.
Qed.

Lemma inv_after_sync w w' :
  Inv w -> vis w' = vis w -> hist w' = [vis w] -> log w' = log w -> Inv w' /\ synced w'.
Proof.
  intros [Hv Hd Hl] V Hh L. split.
  - split; [rewrite V, Hh; left| |by rewrite L]. intros d. rewrite Hh, L, list_elem_of_singleton.
    intros ->. by apply Hd.
  - intros d. rewrite Hh, V, list_elem_of_singleton. by intros ->.
Qed.

(** After publishing: the flag tells whether the journal is durable. *)
Definition settled (err : option error) (w' : world E) : Prop :=
  match err with
  | None => durabilityUnconfirmed w' = false /\ synced w'
  | Some _ => durabilityUnconfirmed w' = true
  end.

Lemma sync_published_spec w :
  Inv w ->
  wp sync_published (fun r w' => Inv w' /\ r.1 = true /\ vis w' = vis w /\ log w' = log w /\
    settled r.2 w') Inv w.
Proof.
  intros HI. unfold sync_published.
  eapply wp_step; [by apply sync_dir_spec|intros w' Hs; by apply (same_inv w)|].
  intros [err|] w1 Hw1; apply modify_bind, wp_ret.
  - destruct (same_inv _ _ Hw1 HI) as [? ? ?], Hw1 as (V & Hh & F & L). by split.
  - destruct Hw1 as (V & Hh & L & F). destruct (inv_after_sync w w1) as [[? ? ?] ?]; [done..|]. by split.
Qed.

Lemma inv_edited f ev w :
  (forall d, d ∈ hist w -> dir_ok (ev ++ log w) d) -> dir_ok (ev ++ log w) (f (vis w)) ->
  log_ok (ev ++ log w) -> Inv (edited f w <| log ::= app ev |>).
Proof.
  intros Hd Hf Hl. split; [left| |done]. intros d [->|?]%elem_of_cons; [done|by apply Hd].
Qed.

(** Replacing the file of key [k]. *)
Lemma dir_ok_insert l d d' k n e :
  dir_ok l d -> stored k n e ->
  (forall t, live l t -> keyOf t = k -> eTask e = t) -> verdict l k = None ->
  (forall k', d' !! path k' = if decide (k' = k) then Some n else d !! path k') ->
  dir_ok l d'.
Proof.
  intros [H1 H2 H3] Hst Hlive Hv Hd'. split.
  - intros k' n'. rewrite Hd'. case_decide as Hk; [|by apply H1]. intros [= <-]. subst k'.
    exists (as_read k e). by exists e.
  - intros t Ht. rewrite Hd'. case_decide as Hk; [|by apply H2].
    exists n, (as_read k e). split; [done|]. rewrite Hk. split; [by exists e|]. by apply Hlive.
  - intros k' r n' Hv'. rewrite Hd'. case_decide as Hk; [congruence|]. by apply H3.
Qed.

Definition good_file (k data : string) (e : Entry) : Prop :=
  marshal e = Some data /\ (maxEntrySize <? Z.of_nat (String.length data)) = false /\
  good_entry e /\ k = keyOf (eTask e).

Lemma write_spec k e w :
  Inv w -> good_entry e -> k = keyOf (eTask e) ->
  (forall t, live (log w) t -> keyOf t = k -> eTask e = t) -> verdict (log w) k = None ->
  wp (write k e) (fun r w' => Inv w' /\ log w' = log w /\
    match r with
    | (false, err) => err <> None /\ quiet w w'
    | (true, err) => published k e w w' /\ settled err w'
    end) Inv w.
Proof.
  intros HI Hg Hk Hlive Hv. unfold write, writeEntry.
  assert (Hdead : forall w', quiet w w' -> Inv w') by (intros; by apply (quiet_inv w)).
  assert (Hfail : forall w' (err : error), quiet w w' -> Inv w' /\ log w' = log w /\ Some err <> None /\ quiet w w').
  { intros w' err (L & Hq). split; [by apply Hdead|]. done. }
  destruct (marshal e) as [data|] eqn:Hm; [|by apply wp_ret, Hfail, quiet_refl, HI].
  destruct (maxEntrySize <? _) eqn:Hlen; [by apply wp_ret, Hfail, quiet_refl, HI|].
  pose proof (quiet_refl w (inv_vis _ HI)) as Hq0.
  eapply (quiet_then _ _ w); [done..|by apply write_temp_spec|by auto|].
  intros [err|tmp] w1 Hq1 HI1 Ht; [by apply wp_ret, Hfail|]. simpl.
  eapply (quiet_then _ _ w); [done..|by apply syscall_quiet|by auto|].
  intros [err|] w2 Hq2 HI2 _.
  { eapply wp_mono; [by apply (unlink_then _ _ w _ (fun a w' => quiet w w' /\ a = (false, Some (EPublish err))))
      | |by auto].
    intros a w' [Hq ->]. by apply Hfail. }
  apply edit_bind.
  assert (Hst : stored k (File 384 data) e) by (by exists data).
  set (w3 := edited _ w2).
  assert (Hvis : forall k', vis w3 !! path k' =
      if decide (k' = k) then Some (File 384 data) else vis w !! path k').
  { intros k'. cbn. destruct Hq2 as (_ & _ & Heq & _). case_decide as Hkk.
    - subst k'. by rewrite lookup_insert_eq.
    - rewrite lookup_insert_ne by (intros ?%(inj path); congruence).
      rewrite lookup_delete_ne by (by apply temp_ne_path). apply Heq. }
  assert (L2 : log w2 = log w) by apply Hq2.
  assert (HI3 : Inv w3).
  { assert (Hd : dir_ok (log w2) (vis w3)).
    { rewrite L2. eapply dir_ok_insert; [apply HI, HI|exact Hst|done..]. }
    destruct HI2 as [_ Hd2 Hl2]. split; [left| |done].
    intros d [->|?]%elem_of_cons; [done|by apply Hd2]. }
  eapply wp_mono; [by apply sync_published_spec| |done].
  intros [b err] w4 (HI4 & Hb & V4 & L4 & Hset). simpl in *. subst b. split; [done|].
  split; [by rewrite L4|]. split; [|done]. exists (File 384 data). split; [done|].
  intros k'. by rewrite V4.
Qed.

Lemma dir_ok_lease l d t : dir_ok l d -> dir_ok (EvLease t :: l) d.
Proof.
  intros [H1 H2 H3]. split; [done..|]. intros k r n Hv. apply H3. simpl in Hv. by case_match.
Qed.

Lemma writeNew_spec k e w :
  Inv w -> good_entry e -> k = keyOf (eTask e) ->
  wp (writeNew k e) (fun r w' => Inv w' /\
    match r with
    | (false, err) => err <> None /\ quiet w w'
    | (true, err) => log w' = EvLease (eTask e) :: log w /\ vis w !! path k = None /\
        published k e w w' /\ settled err w'
    end) Inv w.
Proof.
  intros HI Hg Hk. unfold writeNew, writeEntry.
  assert (Hdead : forall w', quiet w w' -> Inv w') by (intros; by apply (quiet_inv w)).
  assert (Hfail : forall w' (err : error), quiet w w' -> Inv w' /\ Some err <> None /\ quiet w w').
  { intros w' err Hq. split; [by apply Hdead|]. done. }
  destruct (marshal e) as [data|] eqn:Hm; [|by apply wp_ret, Hfail, quiet_refl, HI].
  destruct (maxEntrySize <? _) eqn:Hlen; [by apply wp_ret, Hfail, quiet_refl, HI|].
  pose proof (quiet_refl w (inv_vis _ HI)) as Hq0.
  eapply (quiet_then _ _ w); [done..|by apply write_temp_spec|by auto|].
  intros [err|tmp] w1 Hq1 HI1 Ht; [by apply wp_ret, Hfail|]. simpl.
  eapply (quiet_then _ _ w); [done..|by apply syscall_quiet|by auto|].
  intros r w2 Hq2 HI2 _. apply gets_bind.
  assert (Hgiveup : forall err, wp (unlink tmp ;; mret (false, Some (EPublishNew err)))
    (fun r w' => Inv w' /\ match r with
      | (false, err) => err <> None /\ quiet w w'
      | (true, err) => log w' = EvLease (eTask e) :: log w /\ vis w !! path k = None /\
          published k e w w' /\ settled err w' end) Inv w2).
  { intros err. eapply wp_mono; [by apply (unlink_then _ _ w _ (fun a w' => quiet w w' /\
      a = (false, Some (EPublishNew err))))| |by auto]. intros a w' [Hq ->]. by apply Hfail. }
  destruct r as [err|]; [apply Hgiveup|]. destruct (vis w2 !! path k) as [n|] eqn:Hn; [apply Hgiveup|].
  apply edit_bind, modify_bind.
  assert (Hst : stored k (File 384 data) e) by (by exists data).
  set (w3 := edited _ w2 <| log ::= _ |>).
  assert (L2 : log w2 = log w) by apply Hq2.
  assert (Hvis : forall k', vis w3 !! path k' =
      if decide (k' = k) then Some (File 384 data) else vis w2 !! path k').
  { intros k'. cbn. case_decide as Hkk; [subst k'; by rewrite lookup_insert_eq|].
    by rewrite lookup_insert_ne by (intros ?%(inj path); congruence). }
  assert (HI3 : Inv w3).
  { pose proof (dir_ok_lease _ _ (eTask e) (inv_dirs _ HI2 _ (inv_vis _ HI2))) as Hok.
    assert (Hd : dir_ok (EvLease (eTask e) :: log w2) (vis w3)).
    { eapply dir_ok_insert; [exact Hok|exact Hst| | |exact Hvis].
      - intros t Hl Hkt. destruct (ok_live _ _ Hok t Hl) as (n & o & Hn' & _). congruence.
      - simpl. by rewrite <- Hk, String.eqb_refl. }
    destruct HI2 as [_ Hd2 Hl2]. split; [left| |done].
    intros d [->|?]%elem_of_cons; [done|by apply dir_ok_lease, Hd2]. }
  assert (Heq : json_eq (vis w) (vis w2)) by apply Hq2.
  assert (Hnone : vis w !! path k = None) by (by rewrite <- Heq).
  assert (Hpub : forall w', json_eq (vis w3) (vis w') -> published k e w w').
  { intros w' Hj. exists (File 384 data). split; [done|]. intros k'. rewrite Hj, Hvis.
    case_decide; [done|apply Heq]. }
  eapply (quiet_then _ _ w3); [apply quiet_refl, HI3|done|by apply unlink_temp|intros; done|].
  intros [err|] w4 (L4 & F4 & V4 & Hq4) HI4 _.
  - apply modify_bind, wp_ret. split; [|split; [|split; [done|split]]].
    + destruct HI4. by split.
    + cbn. by rewrite L4, <- L2.
    + apply Hpub. exact V4.
    + done.
  - eapply wp_mono; [by apply sync_published_spec| |done].
    intros [b err] w5 (HI5 & Hb & V5 & L5 & Hset). simpl in *. subst b.
    split; [done|]. split; [by rewrite L5, L4, <- L2|]. split; [done|]. split; [|done].
    apply Hpub. by rewrite V5.
Qed.

(** ** The operations of the store *)

Lemma begin_scan_none k task protocol es :
  begin_scan k task protocol es = None -> forall o, o ∈ es -> tID (eTask o) <> tID task.
Proof.
  induction es as [|e es IH]; simpl; [by intros _ o ?%not_elem_of_nil|].
  destruct (String.eqb_spec (tID (eTask e)) (tID task)) as [Heq|Hne]; [by case_match|].
  intros Hs o [->|Ho]%elem_of_cons; [done|by apply IH].
Qed.

Lemma begin_scan_some k task protocol es r : begin_scan k task protocol es = Some r -> r.1 = false.
Proof.
  induction es as [|e es IH]; simpl; [done|]. case_match; [|done]. case_match; by intros [= <-].
Qed.

Lemma trim_space_nonempty s : String.eqb (trim_space s) "" = false -> s <> "".
Proof. intros Hs ->. done. Qed.

Lemma good_leased task protocol now :
  tID task <> "" -> tLeaseID task <> "" -> issued task -> protocol_ok protocol ->
  good_entry (mkEntry entryVersion stateLeased task protocol None now now "").
Proof. intros. unfold good_entry. cbn. split_all; try done. by left. Qed.

Lemma begin_spec task protocol w :
  Inv w -> issued task -> protocol_ok protocol ->
  wp (begin task protocol) (fun r w' => Inv w' /\
    match r with
    | (false, _) => quiet w w'
    | (true, err) => log w' = EvLease task :: log w /\
        (forall t, live (log w) t -> tID t <> tID task) /\
        (exists e, published (keyOf task) e w w' /\ eTask e = task) /\ settled err w'
    end) Inv w.
Proof.
  intros HI Hi Hp. unfold begin.
  pose proof (quiet_refl w (inv_vis _ HI)) as Hq0.
  destruct (_ || _) eqn:Hids; [by apply wp_ret|].
  apply orb_false_iff in Hids as [Hid%trim_space_nonempty Hlid%trim_space_nonempty].
  assert (Hdead : forall w', same w w' -> Inv w') by (intros; by apply (same_inv w)).
  assert (Hsame : forall w', same w w' -> quiet w w') by (intros; apply same_quiet; [done|apply HI]).
  eapply (same_then _ _ w); [done|by apply readAll_spec|done|].
  intros [err|es] w1 Hs1 Hes; [apply wp_ret; auto|].
  destruct (begin_scan _ task protocol es) as [[b err]|] eqn:Hscan.
  { apply begin_scan_some in Hscan. simpl in Hscan. subst b. apply wp_ret. auto. }
  case_match; [apply wp_ret; auto|].
  eapply (same_then _ _ w); [done| |done|].
  { eapply wp_mono; [apply draw_spec|intros a w' Hs; exact (conj Hs I)|done]. }
  intros now w2 Hs2 _. fold (keyOf task).
  pose proof (Hdead _ Hs2) as HI2. pose proof (Hsame _ Hs2) as Hq2.
  eapply wp_mono; [apply (writeNew_spec _ _ w2); [done|by apply good_leased|done]| |done].
  intros [[|] err] w3 (HI3 & Hr); (split; [done|]).
  - destruct Hr as (L3 & Hn & (n & Hst & Hv) & Hset). destruct Hs2 as (V2 & _ & _ & L2).
    split; [by rewrite L3, L2|]. split.
    + intros t Ht. destruct (ok_live _ _ (inv_dirs _ HI _ (inv_vis _ HI)) t Ht) as (m & o & Hm & Ho & <-).
      apply (begin_scan_none _ _ _ _ Hscan), (proj1 Hes). eauto.
    + split; [|done]. eexists. split; [exists n; split; [exact Hst|]|done].
      intros k'. by rewrite Hv, V2.
  - destruct Hr as [_ Hq]. by apply (quiet_trans _ w2).
Qed.

(** A leased journal has no verdict, and is the journal of its live task. *)
Lemma leased_facts w k n o :
  Inv w -> vis w !! path k = Some n -> holds k n o -> State o = stateLeased ->
  verdict (log w) k = None /\ (forall t, live (log w) t -> keyOf t = k -> eTask o = t).
Proof.
  intros HI Hn Ho Hs. pose proof (inv_dirs _ HI _ (inv_vis _ HI)) as [_ H2 H3]. split.
  - destruct (verdict (log w) k) as [r|] eqn:Hv; [|done].
    destruct (H3 k r n Hv Hn) as (o' & Ho' & Hd & _). rewrite (holds_inj _ _ _ _ Ho Ho'), Hd in Hs. done.
  - intros t Ht <-. destruct (H2 t Ht) as (n' & o' & Hn' & Ho' & <-).
    assert (n' = n) as -> by congruence. by rewrite (holds_inj _ _ _ _ Ho Ho').
Qed.

(** The completed form of a leased journal. *)
Lemma good_completed k n o r now :
  holds k n o -> rTaskID r = tID (eTask o) -> rLeaseID r = tLeaseID (eTask o) ->
  good_entry (o <| State := stateDone |> <| Result := Some r |> <| UpdatedAt := now |>).
Proof.
  intros (e & (data & _ & _ & _ & (Hv & Hi & Hl & Hp & Hs & _) & _) & ->) H1 H2.
  destruct e. cbn in *. split_all; try done. unfold good_entry. cbn. split_all; try done. right. eauto.
Qed.

Lemma Complete_spec result w :
  Inv w ->
  wp (Complete result) (fun r w' => Inv w' /\ log w' = log w /\
    match r with (false, _) => quiet w w' | (true, err) => settled err w' end) Inv w.
Proof.
  intros HI. unfold Complete. fold (result_key result).
  assert (Hdead : forall w', same w w' -> Inv w') by (intros; by apply (same_inv w)).
  assert (Hkeep : forall w', same w w' -> Inv w' /\ log w' = log w /\ quiet w w').
  { intros w' Hs. split; [auto|]. split; [apply Hs|]. apply same_quiet; [done|apply HI]. }
  eapply (same_then _ _ w); [done|by apply read_spec|done|].
  intros [err|o] w1 Hs1 Hr; [by apply wp_ret, Hkeep|]. destruct Hr as (n & Hn & Ho).
  destruct (String.eqb (State o) stateDone && _) eqn:Hd; [by apply wp_ret, Hkeep|].
  destruct (String.eqb_spec (State o) stateLeased) as [Hl|]; [|by apply wp_ret, Hkeep]. cbn [negb].
  destruct (_ || _) eqn:Hids; [by apply wp_ret, Hkeep|].
  apply orb_false_iff in Hids as [H1%negb_false_iff%String.eqb_eq H2%negb_false_iff%String.eqb_eq].
  eapply (same_then _ _ w); [done| |done|].
  { eapply wp_mono; [apply draw_spec|intros a w' Hs; exact (conj Hs I)|done]. }
  intros now w2 Hs2 _. destruct (leased_facts _ _ _ _ HI Hn Ho Hl) as [Hv Hlive].
  destruct (holds_facts _ _ _ Ho) as (_ & Hk & _).
  assert (L2 : log w2 = log w) by apply Hs2.
  eapply wp_mono; [apply (write_spec _ _ w2)| |done].
  - by apply Hdead.
  - by eapply good_completed.
  - by rewrite <- Hk.
  - rewrite L2. exact Hlive.
  - by rewrite L2.
  - intros [[|] err] w3 (HI3 & L3 & Hr); (split; [done|]); (split; [by rewrite L3|]).
    + apply Hr.
    + apply (quiet_trans _ w2); [|apply Hr]. apply same_quiet; [done|apply HI].
Qed.

Definition confirmed (w : world E) : Prop := durabilityUnconfirmed w = false /\ synced w.

Lemma confirmed_quiet w w' : quiet w w' -> confirmed w -> confirmed w'.
Proof. intros Hq [Hf Hs]. split; [by destruct Hq as (_ & -> & _)|by apply (quiet_synced w)]. Qed.

Lemma ConfirmDurability_spec w :
  Inv w ->
  wp ConfirmDurability (fun r w' => Inv w' /\ log w' = log w /\ vis w' = vis w /\
    match r with None => confirmed w' | Some _ => same w w' end) Inv w.
Proof.
  intros HI. unfold ConfirmDurability.
  eapply wp_step; [by apply sync_dir_spec|intros w' Hs; by apply (same_inv w)|].
  intros [err|] w1 Hw1.
  - apply wp_ret. split; [by apply (same_inv w)|]. by destruct Hw1 as (V & Hh & F & L).
  - apply modify_bind, wp_ret. destruct Hw1 as (V & Hh & L & F).
    destruct (inv_after_sync w w1) as [[? ? ?] ?]; [done..|]. by split.
Qed.

(** Every entry of the list is the one its key shows. *)
Definition shown (w : world E) (es : list Entry) : Prop :=
  NoDup (key <$> es) /\ forall o, o ∈ es -> exists n, vis w !! path (key o) = Some n /\ holds (key o) n o.

Definition completed_at (w : world E) (k : string) : Prop :=
  exists n o, vis w !! path k = Some n /\ holds k n o /\ State o = stateDone.

(** What a list of edits to the keys [ks] leaves. *)
Definition only_at (ks : list string) (w w' : world E) : Prop :=
  forall k, k ∉ ks -> vis w' !! path k = vis w !! path k.

Lemma shown_tail o es w w' :
  shown w (o :: es) -> only_at [key o] w w' -> shown w' es.
Proof.
  intros [Hnd Hs] Ho. rewrite fmap_cons in Hnd. apply NoDup_cons in Hnd as [Hnot Hnd].
  split; [done|]. intros o' Hin.
  destruct (Hs o') as (n & Hn & Hh); [by right|]. exists n. rewrite Ho; [done|].
  rewrite list_elem_of_singleton. intros Hk. apply Hnot. rewrite <- Hk. by apply list_elem_of_fmap_2.
Qed.

Definition recovered (es : list Entry) (w : world E) (r : option error) (w' : world E) : Prop :=
  Inv w' /\ log w' = log w /\ only_at (key <$> es) w w' /\
  (r = None -> confirmed w' /\ forall o, o ∈ es -> completed_at w' (key o)).

Lemma recovered_cons o es w w1 r w' :
  only_at [key o] w w1 -> log w1 = log w -> (r = None -> completed_at w1 (key o)) ->
  shown w (o :: es) -> recovered es w1 r w' -> recovered (o :: es) w r w'.
Proof.
  intros H1 L1 Hc [Hnd _] (HI & L & Hoa & Hr). rewrite fmap_cons in *.
  apply NoDup_cons in Hnd as [Hnot _]. split; [done|].
  split; [by rewrite L|]. split.
  - intros k [Hk1 Hk2]%not_elem_of_cons. rewrite Hoa by done. apply H1. by rewrite list_elem_of_singleton.
  - intros Hnone. destruct (Hr Hnone) as [Hconf Hall]. split; [done|].
    intros o' [->|Hin]%elem_of_cons; [|by apply Hall].
    destruct (Hc Hnone) as (n & o' & Hn & Hh). exists n, o'. by rewrite Hoa.
Qed.

Lemma published_only k e w w' : published k e w w' -> only_at [k] w w'.
Proof.
  intros (n & _ & Hv) k' Hk. rewrite Hv. rewrite decide_False; [done|].
  intros ->. apply Hk. left.
Qed.

Lemma published_completed k e w w' :
  published k e w w' -> State e = stateDone -> completed_at w' k.
Proof.
  intros (n & Hst & Hv) Hs. exists n, (as_read k e). rewrite Hv, decide_True by done.
  split; [done|]. split; [by exists e|]. by destruct e.
Qed.

Lemma recover_entries_spec nodeID es : forall w,
  Inv w -> confirmed w -> shown w es ->
  wp (recover_entries nodeID es) (recovered es w) Inv w.
Proof.
  induction es as [|o es IH]; intros w HI Hc Hsh; cbn [recover_entries].
  { apply wp_ret. split; [done|]. split; [done|]. split; [done|]. intros _. split; [done|].
    by intros o ?%not_elem_of_nil. }
  destruct (proj2 Hsh o) as (n & Hn & Ho); [left|].
  destruct (holds_facts _ _ _ Ho) as (_ & Hk & Hi & Hst).
  assert (Hself : forall w', same w w' -> only_at [key o] w w') by (intros w' (V & _) k _; by rewrite V).
  destruct (String.eqb_spec (State o) stateLeased) as [Hl|Hnl]; cbn [negb]; last first.
  { eapply wp_mono; [apply IH; [done..|]| |done].
    - by apply (shown_tail o _ w); [|apply Hself].
    - intros r w'. apply (recovered_cons o es w w); [by apply Hself|done| |done].
      intros _. destruct Hst as [[? _]|[Hd _]]; [done|]. by exists n, o. }
  destruct (String.eqb (DurableProtocol o) linechainProtocol).
  { by apply wp_ret. }
  eapply (same_then _ _ w); [done| |intros; by apply (same_inv w)|].
  { eapply wp_mono; [apply draw_spec|intros a w' Hs; exact (conj Hs I)|done]. }
  intros now w1 Hs1 _. destruct (leased_facts _ _ _ _ HI Hn Ho Hl) as [Hv Hlive].
  assert (L1 : log w1 = log w) by apply Hs1.
  eapply wp_step; [apply (write_spec _ _ w1)|done|].
  { by apply (same_inv w). }
  { by apply (good_completed (key o) n o). }
  { by rewrite <- Hk at 1. }
  { by rewrite L1. }
  { by rewrite L1. }
  assert (Hpub : forall w', published (key o) (o <| State := stateDone |>
      <| Result := Some (interrupted_result nodeID o now) |> <| UpdatedAt := now |>) w1 w' ->
      only_at [key o] w w' /\ completed_at w' (key o)).
  { intros w' Hp. split; [|by eapply published_completed].
    intros k Hkk. rewrite (published_only _ _ _ _ Hp) by done. by destruct Hs1 as (-> & _). }
  intros [[|] [err|]] w2 (HI2 & L2 & Hr); cbv iota beta in Hr |- *.
  - destruct Hr as [[Hoa Hcm]%Hpub _].
    eapply wp_step; [by apply ConfirmDurability_spec|done|].
    intros [c|] w3 (HI3 & L3 & V3 & Hcf).
    + apply wp_ret. split; [done|]. split; [congruence|]. split; [|done].
      intros k. rewrite fmap_cons. intros [H1 H2]%not_elem_of_cons. rewrite V3.
      apply Hoa. by rewrite list_elem_of_singleton.
    + assert (Hoa3 : only_at [key o] w w3) by (intros k Hkk; rewrite V3; by apply Hoa).
      eapply wp_mono; [apply IH; [done..|by apply (shown_tail o _ w)]| |done].
      intros r w'. apply recovered_cons; [done|congruence| |done].
      intros _. destruct Hcm as (m & o' & Hm). exists m, o'. by rewrite V3.
  - destruct Hr as [[Hoa Hcm]%Hpub Hset].
    eapply wp_mono; [apply IH; [done..|by apply (shown_tail o _ w)]| |done].
    intros r w'. apply recovered_cons; [done|congruence|done|done].
  - apply wp_ret. destruct Hr as [_ (_ & _ & Heq & _)]. split; [done|]. split; [congruence|].
    split; [|done]. intros k _. rewrite Heq. by destruct Hs1 as (-> & _).
  - by destruct Hr as [[] _].
Qed.

Lemma entries_shown w es : entries_of (vis w) es -> shown w es.
Proof.
  intros [Hes Hnd]. split; [done|]. intros o (k & n & Hn & Ho)%Hes.
  destruct (holds_facts _ _ _ Ho) as (-> & _). eauto.
Qed.

Lemma RecoverInterrupted_spec nodeID w :
  Inv w ->
  wp (RecoverInterrupted nodeID) (fun r w' => Inv w' /\ log w' = log w /\
    (r = None -> confirmed w' /\
       forall k n, vis w' !! path k = Some n -> completed_at w' k)) Inv w.
Proof.
  intros HI. unfold RecoverInterrupted.
  eapply wp_step; [by apply ConfirmDurability_spec|done|].
  intros [err|] w1 (HI1 & L1 & V1 & Hc); [by apply wp_ret|].
  eapply (same_then _ _ w1); [done|by apply readAll_spec|intros; by apply (same_inv w1)|].
  intros [err|es] w2 Hs2 Hes.
  { apply wp_ret. split; [by apply (same_inv w1)|]. split; [|done]. destruct Hs2 as (_ & _ & _ & ->). done. }
  assert (Hes2 : entries_of (vis w2) es) by (by destruct Hs2 as (-> & _)).
  eapply wp_mono; [apply recover_entries_spec| |done].
  - by apply (same_inv w1).
  - apply (confirmed_quiet w1); [apply same_quiet; [done|apply HI1]|done].
  - by apply entries_shown.
  - intros r w3 (HI3 & L3 & Hoa & Hr). split; [done|]. split; [destruct Hs2 as (_ & _ & _ & ?); congruence|].
    intros Hnone. destruct (Hr Hnone) as [Hcf Hall]. split; [done|]. intros k n Hn.
    destruct (decide (k ∈ (key <$> es))) as [(o & -> & Ho)%list_elem_of_fmap|Hnot]; [by apply Hall|].
    exfalso. apply Hnot. rewrite Hoa in Hn by done.
    destruct (ok_files _ _ (inv_dirs _ (same_inv _ _ Hs2 HI1) _ (inv_vis _ (same_inv _ _ Hs2 HI1))) k n Hn)
      as (o & Ho). assert (Hin : o ∈ es) by (apply Hes2; eauto).
    destruct (holds_facts _ _ _ Ho) as (<- & _). by apply list_elem_of_fmap_2.
Qed.

(** What [Pending] promises: the completed entries, oldest first. *)
Definition pending_of (d : directory) (ps : list Entry) : Prop :=
  (forall o, o ∈ ps <-> (exists k n, d !! path k = Some n /\ holds k n o) /\ State o = stateDone) /\
  NoDup (key <$> ps) /\ Sorted (fun a b => pending_leb a b = true) ps.

Lemma pending_leb_total a b : pending_leb a b = true \/ pending_leb b a = true.
Proof.
  unfold pending_leb. rewrite (Z.eqb_sym (UpdatedAt b)).
  destruct (Z.eqb_spec (UpdatedAt a) (UpdatedAt b)) as [|Hne]; [apply string_leb_total|].
  rewrite !Z.ltb_lt. lia.
Qed.

Lemma nodup_filter_keys (P : Entry -> Prop) `{forall e, Decision (P e)} es :
  NoDup (key <$> es) -> NoDup (key <$> filter P es).
Proof.
  induction es as [|e es IH]; [done|]. rewrite fmap_cons. intros [Hnot Hnd]%NoDup_cons.
  rewrite filter_cons. case_decide; [|by apply IH]. rewrite fmap_cons. apply NoDup_cons.
  split; [|by apply IH]. intros (o & Hk & [_ Ho]%list_elem_of_filter)%list_elem_of_fmap. apply Hnot.
  rewrite Hk. by apply list_elem_of_fmap_2.
Qed.

Lemma is_pending_held k n o : holds k n o -> is_pending o = true <-> State o = stateDone.
Proof.
  intros Ho. destruct (holds_facts _ _ _ Ho) as (_ & _ & _ & Hst). unfold is_pending. split.
  - by intros [?%String.eqb_eq _]%andb_true_iff.
  - destruct Hst as [[-> _]|[-> (r & -> & _)]]; done.
Qed.

Lemma Pending_spec w :
  Inv w ->
  wp Pending (fun r w' => same w w' /\
    match r with
    | inr ps => durabilityUnconfirmed w = false /\ pending_of (vis w) ps
    | inl _ => True
    end) (same w) w.
Proof.
  intros HI. unfold Pending. apply gets_bind.
  destruct (durabilityUnconfirmed w) eqn:Hf; [by apply wp_ret|].
  eapply (same_then _ _ w); [done|by apply readAll_spec|done|].
  intros [err|es] w1 Hs Hes; apply wp_ret; (split; [done|]); [done|]. split; [done|].
  destruct Hes as [Hes Hnd]. split; [|split].
  - intros o. rewrite insertion_sort_perm, list_elem_of_filter, Hes. split.
    + intros [Hp (k & n & Hn & Ho)]. split; [eauto|]. by apply (is_pending_held k n).
    + intros [(k & n & Hn & Ho) Hst]. split; [by apply (is_pending_held k n)|eauto].
  - rewrite insertion_sort_perm. by apply nodup_filter_keys.
  - apply insertion_sort_sorted, pending_leb_total.
Qed.

(** ** Removal *)

Lemma dir_ok_unlink l d k d' :
  dir_ok l d -> (forall k', k' <> k -> d' !! path k' = d !! path k') ->
  (d' !! path k = None \/ d' !! path k = d !! path k) ->
  dir_ok (EvUnlink (path k) :: l) d'.
Proof.
  intros [H1 H2 H3] Hd' Hk.
  assert (Hsub : forall k' n, d' !! path k' = Some n -> d !! path k' = Some n).
  { intros k' n Hn. destruct (decide (k' = k)) as [->|]; [|by rewrite <- Hd'].
    destruct Hk as [Hk|Hk]; congruence. }
  split; [by eauto| |by eauto]. intros t [Hne Ht].
  destruct (H2 t Ht) as (n & o & Hn & Ho). exists n, o. rewrite Hd'; [done|].
  intros Heq. apply Hne. by rewrite Heq.
Qed.

Lemma unlink_spec name w :
  wp (unlink name) (fun r w' => match r with
    | Some _ => same w w'
    | None => exists w1, same w w1 /\ w' = edited (delete name) w1
    end) (same w) w.
Proof.
  unfold unlink. eapply (same_then _ _ w); [done|apply syscall_same|done|].
  intros [err|] w1 Hs _; [by apply wp_ret|]. apply gets_bind.
  destruct (vis w1 !! name); [|by apply wp_ret]. apply edit_bind, wp_ret. by exists w1.
Qed.

Lemma Remove_spec o n r l w :
  Inv w -> log w = EvAck r :: l -> result_key r = key o -> vis w !! path (key o) = Some n -> holds (key o) n o ->
  wp (Remove o) (fun res w' => Inv w' /\
    (res = None -> log w' = EvUnlink (path (key o)) :: log w /\ synced w' /\
      durabilityUnconfirmed w' = durabilityUnconfirmed w /\
      forall k, vis w' !! path k = if decide (k = key o) then None else vis w !! path k)) Inv w.
Proof.
  intros HI Hack Hrk Hn Ho. destruct (holds_facts _ _ _ Ho) as (_ & Hk & _). unfold Remove.
  fold (keyOf (eTask o)). rewrite Hk.
  replace (if String.eqb (key o) "" then key o else key o) with (key o) by (by case_match).
  eapply wp_step; [apply unlink_spec|intros w' Hs; by apply (same_inv w)|].
  intros [err|] w' Hw'; [apply wp_ret; split; [by apply (same_inv w)|done]|].
  destruct Hw' as (w1 & Hs1 & ->). assert (HI1 := same_inv _ _ Hs1 HI).
  destruct Hs1 as (V1 & Hh1 & F1 & L1). apply modify_bind.
  set (w2 := edited _ w1 <| log ::= _ |>).
  assert (Hv2 : forall k, vis w2 !! path k = if decide (k = key o) then None else vis w !! path k).
  { intros k. cbn. rewrite V1. case_decide as Hkk; [subst k; by rewrite lookup_delete_eq|].
    by rewrite lookup_delete_ne by (intros ?%(inj path); congruence). }
  assert (HI2 : Inv w2).
  { destruct HI1 as [_ Hd1 Hl1]. split; [left| |split; [|exact Hl1]; exists r, l;
      split; [exact (eq_trans L1 Hack)|by rewrite Hrk]].
    intros d [->|Hd]%elem_of_cons.
    - apply (dir_ok_unlink (log w1) (vis w)); [rewrite L1; by apply HI, HI| |left; by rewrite Hv2, decide_True].
      intros k' Hk'. by rewrite Hv2, decide_False.
    - apply (dir_ok_unlink (log w1) d); [by apply Hd1|done|by right]. }
  eapply wp_step; [by apply sync_dir_spec|intros w' Hs; by apply (same_inv w2)|].
  intros [err|] w3 Hw3.
  - apply modify_bind, wp_ret. split; [|done]. by destruct (same_inv _ _ Hw3 HI2).
  - apply wp_ret. destruct Hw3 as (V3 & Hh3 & L3 & F3).
    destruct (inv_after_sync w2 w3) as [? ?]; [done..|]. split; [done|]. intros _.
    split; [rewrite L3, <- L1; done|]. split; [done|]. split; [rewrite F3, <- F1; done|].
    intros k. by rewrite V3.
Qed.
End Inv.
End OutboxInv.
