(* ===== verification/TaskCycle.v ===== *)
(** * The task cycle (cmd/lattice-agent/main.go: pollTasks, executeTask, ...)

    One cycle recovers what a previous process left, uploads what is pending,
    leases a batch and executes it in order.  This is the agent without a
    line-chain manager ([manager == nil]): a line-chain lease is refused before
    anything happens.  The HTTP requests and the task processes belong to the
    environment. *)
From S2P Require Import Prelude GoStrings SDK TaskOutbox.

Local Open Scope Z_scope.

Module Cycle.
Import Outbox.
Section Cycle.
Context `{Codec} {E : Type} `{Os E}.

(** [leasedAgentTask]. *)
Record leasedAgentTask := mkLeased {
  lTask : Task;
  DurableResult : bool;
  lProtocol : string
}.

Definition netguardProtocol : string := "netguard-v1".

Definition validateDurablePair (leased : leasedAgentTask) : option error :=
  if negb (DurableResult leased) then
    if negb (String.eqb (lProtocol leased) "") then Some (ENotDurable (lProtocol leased)) else None
  else if negb (String.eqb (lProtocol leased) linechainProtocol)
          && negb (String.eqb (lProtocol leased) netguardProtocol)
  then Some (EProtocol (lProtocol leased))
  else if String.eqb (lProtocol leased) linechainProtocol then Some ELinechainUnavailable
  else None.

(** [postAgentJSON] of a result: once the request is made the server may have
    it, whatever comes back. *)
Definition post_result (ev : event) (result : TaskResult) : M E (option error) :=
  emit ev ;;
  r ← syscall (CPost result);
  match r with
  | Some err => mret (Some (EHttp err))
  | None => emit (EvAck result) ;; mret None
  end.

(** [runTask]: the environment runs the task and says how it ended. *)
Definition runTask (ev : event) (task : Task) : M E TaskResult :=
  emit ev ;;
  syscall (CRun task) ;;
  draw (ran task).

Fixpoint flush_entries (retain : bool) (entries : list Entry) : M E (option error) :=
  match entries with
  | [] => mret None
  | e :: rest =>
      match Result e with
      | None => mret (Some (EEmptyResult (tID (eTask e))))
      | Some result =>
          p ← post_result (EvUpload result) result;
          match p with
          | Some err => mret (Some (EFlush (tID (eTask e)) err))
          | None =>
              if retain && String.eqb (DurableProtocol e) linechainProtocol
              then flush_entries retain rest
              else
                r ← Remove e;
                match r with
                | Some err => mret (Some (ERemoveAck (tID (eTask e)) err))
                | None => flush_entries retain rest
                end
          end
      end
  end.

Definition flushTaskResultsRetain (retain : bool) : M E (option error) :=
  r ← Pending;
  match r with
  | inl err => mret (Some (EReadPending err))
  | inr pending => flush_entries retain pending
  end.

Definition flushTaskResults : M E (option error) := flushTaskResultsRetain false.

Definition not_executed : string :=
  "task was not executed because its durable lease journal could not be written".

(** The direct path of a task without the durable-result protocol. *)
Definition execute_direct (nodeID : string) (task : Task) : M E (option error) :=
  result ← runTask (EvRunDirect task) task;
  let result := result <| rNodeID := nodeID |> in
  result ← (if is_zero_time (rFinishedAt result)
            then now ← now_utc; mret (result <| rFinishedAt := now |>) else mret result);
  p ← post_result (EvReport result) result;
  mret (EPostResult (tID task) <$> p).

(** From the published lease on. *)
Definition execute_journaled (nodeID : string) (task : Task) : M E (option error) :=
  result ← runTask (EvRun task) task;
  let result := result <| rNodeID := nodeID |> in
  c ← Complete result;
  match c with
  | (completed, Some err) =>
      let journalErr := EJournalResult (tID task) err in
      if (completed : bool) then
        d ← ConfirmDurability;
        match d with
        | Some confirm => mret (Some (EConfirmPublished journalErr confirm))
        | None =>
            f ← flushTaskResults;
            match f with
            | Some flush => mret (Some (EUploadConfirmed journalErr flush))
            | None => mret (Some journalErr)
            end
        end
      else mret (Some journalErr)
  | (_, None) => flushTaskResults
  end.

(** A lease that could not be journaled is reported, not executed. *)
Definition report_unexecuted (nodeID : string) (task : Task) (journalErr : error)
    : M E (option error) :=
  now ← now_utc;
  let failure := mkResult (tID task) (tLeaseID task) nodeID (-1) "" "" not_executed 0 now in
  p ← post_result (EvReport failure) failure;
  match p with
  | Some postErr => mret (Some (EReportUnexecuted journalErr postErr))
  | None => mret (Some journalErr)
  end.

Definition executeTask (nodeID : string) (leased : leasedAgentTask) : M E (option error) :=
  let task := lTask leased in
  match validateDurablePair leased with
  | Some err => mret (Some err)
  | None =>
      if negb (String.eqb (lProtocol leased) "")
         && negb (String.eqb (lProtocol leased) linechainProtocol)
         && negb (String.eqb (lProtocol leased) netguardProtocol)
      then mret (Some (EProtocol (lProtocol leased)))
      else if negb (DurableResult leased) then execute_direct nodeID task
      else
        b ← BeginWithProtocol task (lProtocol leased);
        match b with
        | (true, Some err) => mret (Some (EJournalLease (tID task) err))
        | (false, Some err) => report_unexecuted nodeID task (EJournalLease (tID task) err)
        | (false, None) => mret None
        | (true, None) => execute_journaled nodeID task
        end
  end.

Fixpoint executeTasks (nodeID : string) (tasks : list leasedAgentTask) : M E (option error) :=
  match tasks with
  | [] => mret None
  | leased :: rest =>
      stop ← draw stopping;
      if (stop : bool) then mret None
      else
        r ← executeTask nodeID leased;
        match r with
        | Some err => mret (Some err)
        | None => executeTasks nodeID rest
        end
  end.

Definition pollTasks (nodeID : string) : M E (error + list leasedAgentTask) :=
  r ← RecoverInterrupted nodeID;
  match r with
  | Some err => mret (inl (ERecoverInterrupted err))
  | None =>
      f ← flushTaskResults;
      match f with
      | Some err => mret (inl err)
      | None =>
          g ← syscall CFetch;
          match g with
          | Some err => mret (inl (EHttp err))
          | None =>
              tasks ← draw fetched;
              mret (inr (map (fun '(t, durable, protocol) => mkLeased t durable protocol) tasks))
          end
      end
  end.

Definition runTasks (nodeID : string) : M E (option error) :=
  r ← pollTasks nodeID;
  match r with
  | inl err => mret (Some err)
  | inr tasks => executeTasks nodeID tasks
  end.
End Cycle.
End Cycle.
