(* ===== verification/TaskCycleProps.v ===== *)
(** * Properties of the task cycle

    Runs of the agent over one outbox directory: a process opens the store and
    goes through task cycles; it may be killed before any system call, and the
    machine may crash at any time, after which every journal name shows what
    it held in one of the directory states since the last sync. *)
From S2P Require Import Prelude GoStrings SDK TaskOutbox TaskOutboxInv TaskCycle.
From Stdlib Require Import Ascii.

Local Open Scope Z_scope.

Module CycleProps.
Import Outbox OutboxInv Cycle.

Section Props.
Context `{CL : CodecLaws} {E : Type} `{OS : Os E}.
Implicit Types (w : world E).

(** The server's batches consist of tasks that came out of its documents. *)
Definition batches_issued : Prop := forall e, Forall (fun '(t, _, _) => issued t) (fetched e).1.
Context (Hfetched : batches_issued).

(** ** Opening *)

Lemma sync_quiet w : Inv w -> wp sync_dir (fun _ w' => quiet w w' /\ True) (quiet w) w.
Proof.
  intros HI. eapply wp_mono; [by apply sync_dir_spec| |].
  - intros [err|] w' Hw'; (split; [|done]); [by apply same_quiet; [|apply HI]|].
    destruct Hw' as (V & Hh & L & F). split; [done|]. split; [done|]. split; [by rewrite V|].
    split; [rewrite V, Hh; left|]. intros d. rewrite Hh, list_elem_of_singleton. intros ->.
    exists (vis w). split; [apply HI|done].
  - intros w' Hs. by apply same_quiet; [|apply HI].
Qed.

Lemma cleanup_spec names removed w0 w :
  quiet w0 w -> Inv w ->
  wp (cleanup_entries names removed) (fun _ w' => quiet w0 w') (quiet w0) w.
Proof.
  revert removed w. induction names as [|[name n] names IH]; intros removed w Hq HI; cbn [cleanup_entries].
  { destruct removed; [|by apply wp_ret].
    eapply (quiet_then _ _ w0); [done..|by apply sync_quiet|done|]. intros r w' Hq' _ _. by apply wp_ret. }
  destruct (is_temp name) eqn:Ht; cbn [negb]; [|by apply IH].
  eapply (quiet_then _ _ w0); [done..|by apply syscall_quiet|done|].
  intros [err|] w1 Hq1 HI1 _; [by apply wp_ret|]. destruct n; try by apply wp_ret.
  eapply (quiet_then _ _ w0); [done..|by apply unlink_temp|done|].
  intros [err|] w2 Hq2 HI2 _; [by apply wp_ret|by apply IH].
Qed.

Lemma Open_spec w : Inv w -> wp Open (fun _ w' => Inv w' /\ log w' = log w) Inv w.
Proof.
  intros HI. unfold Open. apply modify_bind.
  match goal with |- wp _ _ _ ?w' => set (w1 := w') end.
  assert (HI1 : Inv w1) by (destruct HI; by split).
  pose proof (quiet_refl w1 (inv_vis _ HI1)) as Hq1.
  assert (Hdead : forall w', quiet w1 w' -> Inv w') by (intros; by apply (quiet_inv w1)).
  unfold cleanupTemps.
  eapply wp_step; [|exact Hdead|].
  { eapply (quiet_then _ _ w1 _ (fun _ w' => quiet w1 w') (quiet w1)); [done..|by apply syscall_quiet|done|].
    intros [err|] w2 Hq2 HI2 _; [by apply wp_ret|]. apply gets_bind. by apply cleanup_spec. }
  intros [err|] w2 Hq2; [apply wp_ret; split; [auto|apply Hq2]|].
  assert (HI2 := Hdead _ Hq2).
  eapply wp_step; [by apply readAll_spec|intros w' Hs; by apply (same_inv w2)|].
  intros r w3 [Hs3 _].
  assert (HI3 : Inv w3 /\ log w3 = log w).
  { split; [by apply (same_inv w2)|]. destruct Hs3 as (_ & _ & _ & ->). apply Hq2. }
  destruct r; by apply wp_ret.
Qed.

(** ** Events *)

Definition neutral (ev : event) : Prop :=
  match ev with EvReport _ | EvRunDirect _ | EvAck _ => True | _ => False end.

Lemma dir_ok_neutral ev l d : neutral ev -> dir_ok l d -> dir_ok (ev :: l) d.
Proof. intros Hn [H1 H2 H3]. destruct ev; try done; by split. Qed.

Definition logged (ev : event) (w : world E) : world E := w <| log ::= cons ev |>.

Lemma emit_bind {B} ev (k : unit -> M E B) Q D w :
  wp (k tt) Q D (logged ev w) -> wp (emit ev ≫= k) Q D w.
Proof. done. Qed.

Lemma inv_logged ev w :
  Inv w -> (forall d, d ∈ hist w -> dir_ok (ev :: log w) d) -> log_ok (ev :: log w) -> Inv (logged ev w).
Proof. intros [H1 _ _] Hd Hl. by split. Qed.

Lemma inv_neutral ev w : neutral ev -> Inv w -> Inv (logged ev w).
Proof.
  intros Hn HI. apply inv_logged; [done| |].
  - intros d Hd. apply dir_ok_neutral; [done|by apply HI].
  - pose proof (inv_log _ HI). by destruct ev.
Qed.

Lemma confirmed_logged ev w : confirmed w -> confirmed (logged ev w).
Proof. done. Qed.

(** Launching a task whose lease journal is durable. *)
Lemma inv_run task l n o w :
  Inv w -> synced w -> log w = EvLease task :: l -> (forall t, live l t -> tID t <> tID task) ->
  vis w !! path (keyOf task) = Some n -> holds (keyOf task) n o -> eTask o = task ->
  Inv (logged (EvRun task) w).
Proof.
  intros HI Hs L Hl Hn Ho Ht. apply inv_logged; [done| |].
  - intros d Hd. destruct (inv_dirs _ HI d Hd) as [H1 H2 H3]. split; [done| |done].
    intros t [<-|Hlive]; [|by apply H2]. exists n, o. by rewrite (Hs d Hd).
  - rewrite L. simpl. split; [by eexists|]. split; [exact Hl|].
    pose proof (inv_log _ HI) as Hlog. rewrite L in Hlog. exact Hlog.
Qed.

(** Sending a durable result. *)
Lemma inv_upload o n r w :
  Inv w -> synced w -> vis w !! path (key o) = Some n -> holds (key o) n o -> State o = stateDone ->
  Result o = Some r -> Inv (logged (EvUpload r) w) /\ result_key r = key o.
Proof.
  intros HI Hs Hn Ho Hst Hr. destruct (holds_facts _ _ _ Ho) as (_ & _ & _ & Hcase).
  assert (Hk : result_key r = key o).
  { destruct Hcase as [[Hl _]|[_ (r' & Hr' & <-)]]; [by rewrite Hst in Hl|congruence]. }
  split; [|done]. apply inv_logged; [done| |].
  - intros d Hd. destruct (inv_dirs _ HI d Hd) as [H1 H2 H3]. split; [done..|].
    intros k r' n' Hv Hn'. simpl in Hv. destruct (String.eqb_spec (result_key r) k) as [<-|]; [|by eauto].
    injection Hv as <-. rewrite Hk in *. rewrite (Hs d Hd), Hn in Hn'. injection Hn' as <-.
    by exists o.
  - simpl. split; [|apply HI]. intros r' Hv. rewrite Hk in Hv.
    destruct (ok_verdict _ _ (inv_dirs _ HI _ (inv_vis _ HI)) _ _ _ Hv Hn) as (o' & Ho' & _ & Hr').
    rewrite (holds_inj _ _ _ _ Ho' Ho) in Hr'. congruence.
Qed.

(** ** Uploading what is pending *)

(** [flush_entries] keeps the store confirmed, and removes what it uploaded. *)
Definition flushed (es : list Entry) (w : world E) (r : option error) (w' : world E) : Prop :=
  Inv w' /\ (r = None -> confirmed w' /\
    forall k, vis w' !! path k = if decide (k ∈ key <$> es) then None else vis w !! path k).

Lemma post_spec ev result w :
  wp (post_result ev result) (fun r w' => exists w1, same (logged ev w) w1 /\
    w' = match r with Some _ => w1 | None => logged (EvAck result) w1 end)
    (fun w' => same (logged ev w) w') w.
Proof.
  unfold post_result. apply emit_bind.
  eapply (same_then _ _ (logged ev w)); [done|apply syscall_same|done|].
  intros [err|] w1 Hs _; [apply wp_ret; by exists w1|].
  apply emit_bind, wp_ret. by exists w1.
Qed.

Lemma flush_entries_spec es : forall w,
  Inv w -> confirmed w -> shown w es -> (forall o, o ∈ es -> State o = stateDone) ->
  wp (flush_entries false es) (flushed es w) Inv w.
Proof.
  induction es as [|o es IH]; intros w HI Hc Hsh Hdone; cbn [flush_entries].
  { apply wp_ret. split; [done|]. intros _. split; [done|]. done. }
  destruct (proj2 Hsh o) as (n & Hn & Ho); [left|].
  assert (Hst : State o = stateDone) by (apply Hdone; left).
  destruct (Result o) as [r|] eqn:Hr; [|by apply wp_ret].
  destruct (inv_upload o n r w HI (proj2 Hc) Hn Ho Hst Hr) as [HIu Hk].
  eapply wp_step; [apply post_spec|intros w' Hs; by apply (same_inv (logged (EvUpload r) w))|].
  intros [err|] w' (w1 & Hs1 & ->).
  { apply wp_ret. split; [by apply (same_inv (logged (EvUpload r) w))|done]. }
  cbn [andb]. assert (HI1 : Inv (logged (EvAck r) w1)).
  { apply inv_neutral; [done|]. by apply (same_inv (logged (EvUpload r) w)). }
  destruct Hs1 as (V1 & Hh1 & F1 & L1).
  eapply wp_step; [eapply (Remove_spec o n r); [exact HI1|done|done| |exact Ho]|done|].
  { cbn. rewrite V1. exact Hn. }
  intros [err|] w2 [HI2 Hr2]; [by apply wp_ret|].
  destruct (Hr2 eq_refl) as (L2 & Hs2 & F2 & V2). clear Hr2.
  assert (V2' : forall k, vis w2 !! path k = if decide (k = key o) then None else vis w !! path k).
  { intros k. rewrite V2. cbn. by rewrite V1. }
  eapply wp_mono; [apply IH| |done].
  - done.
  - split; [|done]. rewrite F2. cbn. rewrite F1. apply Hc.
  - apply (shown_tail o _ w); [done|]. intros k Hkk. rewrite V2', decide_False; [done|].
    intros ->. apply Hkk. left.
  - intros o' Ho'. apply Hdone. by right.
  - intros res w3 [HI3 H3]. split; [done|]. intros Hres. destruct (H3 Hres) as [Hc3 V3]. split; [done|].
    intros k. rewrite V3, V2', fmap_cons. destruct Hsh as [Hnd _]. rewrite fmap_cons in Hnd.
    apply NoDup_cons in Hnd as [Hnot _].
    destruct (decide (k ∈ key <$> es)) as [Hin|Hin]; [by rewrite decide_True by (by right)|].
    destruct (decide (k = key o)) as [->|Hne]; [by rewrite decide_True by left|].
    rewrite decide_False; [done|]. by intros [?|?]%elem_of_cons.
Qed.

Lemma flushTaskResults_spec w :
  Inv w -> confirmed w ->
  wp flushTaskResults (fun r w' => Inv w' /\ (r = None -> confirmed w' /\
    forall k n, vis w' !! path k = Some n -> vis w !! path k = Some n /\ ~ completed_at w k)) Inv w.
Proof.
  intros HI Hc. unfold flushTaskResults, flushTaskResultsRetain.
  eapply wp_step; [by apply Pending_spec|intros w' Hs; by apply (same_inv w)|].
  intros [err|ps] w1 [Hs1 Hps]; [apply wp_ret; split; [by apply (same_inv w)|done]|].
  destruct Hps as (_ & Hps & Hnd & _).
  assert (HI1 := same_inv _ _ Hs1 HI).
  eapply wp_mono; [apply flush_entries_spec| |done].
  - done.
  - apply (confirmed_quiet w); [apply same_quiet; [done|apply HI]|done].
  - split; [done|]. intros o [(k & n & Hn & Ho) _]%Hps. destruct (holds_facts _ _ _ Ho) as (-> & _).
    exists n. destruct Hs1 as (-> & _). done.
  - intros o [_ Hd]%Hps. done.
  - intros r w2 [HI2 Hr]. split; [done|]. intros Hnone. destruct (Hr Hnone) as [Hc2 V2].
    split; [done|]. intros k n. rewrite V2. destruct Hs1 as (-> & _). case_decide as Hin; [done|].
    intros Hn. split; [done|]. intros (n' & o & Hn' & Ho & Hd). apply Hin.
    destruct (holds_facts _ _ _ Ho) as (<- & _). apply list_elem_of_fmap_2, Hps.
    split; [|done]. by exists (key o), n'.
Qed.

(** ** Executing a batch *)

Definition keeps_confirmed (r : option error) (w' : world E) : Prop :=
  Inv w' /\ (r = None -> confirmed w').

Lemma flush_keeps w : Inv w -> confirmed w -> wp flushTaskResults keeps_confirmed Inv w.
Proof.
  intros HI Hc. eapply wp_mono; [by apply flushTaskResults_spec| |done].
  intros r w' [HI' Hr]. split; [done|]. intros Hn. by apply Hr.
Qed.

Lemma runTask_spec ev task w :
  wp (runTask ev task) (fun _ w' => same (logged ev w) w') (same (logged ev w)) w.
Proof.
  unfold runTask. apply emit_bind.
  eapply (same_then _ _ (logged ev w)); [done|apply syscall_same|done|].
  intros _ w1 Hs _. eapply wp_mono; [apply draw_spec| |].
  - intros a w' Hs'. by apply (same_trans _ w1).
  - intros w' Hs'. by apply (same_trans _ w1).
Qed.

Lemma execute_direct_spec nodeID task w :
  Inv w -> confirmed w -> wp (execute_direct nodeID task) keeps_confirmed Inv w.
Proof.
  intros HI Hc. unfold execute_direct.
  assert (HI0 : Inv (logged (EvRunDirect task) w)) by (by apply inv_neutral).
  assert (Hdead : forall w', same (logged (EvRunDirect task) w) w' -> Inv w').
  { intros w' Hs. by apply (same_inv _ _ Hs). }
  eapply wp_step; [apply runTask_spec|exact Hdead|].
  intros result w1 Hs1. cbv zeta.
  assert (Hq : quiet (logged (EvRunDirect task) w) w1) by (apply same_quiet; [done|apply HI0]).
  eapply (same_then _ _ (logged (EvRunDirect task) w) w1 _ _ (fun _ => True)); [done| |done|].
  { case_match; [|apply wp_ret; done].
    eapply (same_then _ _ w1 w1 _ _ (fun _ => True)); [done| |done|intros a w' Hs _; by apply wp_ret].
    eapply wp_mono; [apply draw_spec|done|done]. }
  intros result' w2 Hs2 _. assert (HI2 := Hdead _ Hs2).
  assert (Hq2 : quiet (logged (EvRunDirect task) w) w2) by (apply same_quiet; [done|apply HI0]).
  assert (HIr : Inv (logged (EvReport result') w2)) by (by apply inv_neutral).
  eapply wp_step; [apply post_spec|intros w' Hs; by apply (same_inv _ _ Hs)|].
  intros r w' (w3 & Hs3 & ->). apply wp_ret.
  assert (HI3 : Inv w3) by (by apply (same_inv _ _ Hs3)).
  assert (Hc3 : confirmed w3).
  { apply (confirmed_quiet (logged (EvReport result') w2)); [apply same_quiet; [done|apply HIr]|].
    by apply (confirmed_quiet (logged (EvRunDirect task) w) w2). }
  destruct r; split; try done. by apply inv_neutral.
Qed.

Lemma execute_journaled_spec nodeID task l n o w :
  Inv w -> confirmed w -> log w = EvLease task :: l -> (forall t, live l t -> tID t <> tID task) ->
  vis w !! path (keyOf task) = Some n -> holds (keyOf task) n o -> eTask o = task ->
  wp (execute_journaled nodeID task) keeps_confirmed Inv w.
Proof.
  intros HI Hc L Hl Hn Ho Ht. unfold execute_journaled.
  assert (HI0 := inv_run task l n o w HI (proj2 Hc) L Hl Hn Ho Ht).
  eapply wp_step; [apply runTask_spec|intros w' Hs; by apply (same_inv _ _ Hs)|].
  intros result w1 Hs1. assert (HI1 := same_inv _ _ Hs1 HI0).
  assert (Hc1 : confirmed w1).
  { apply (confirmed_quiet (logged (EvRun task) w)); [apply same_quiet; [done|apply HI0]|done]. }
  eapply wp_step; [by apply Complete_spec|done|].
  intros [[|] [err|]] w2 (HI2 & L2 & Hr); cbv iota beta in Hr |- *.
  - eapply wp_step; [by apply ConfirmDurability_spec|done|].
    intros [c|] w3 (HI3 & L3 & V3 & Hc3); [by apply wp_ret|].
    eapply wp_step; [by apply flush_keeps|done|]. intros [f|] w4 [HI4 Hc4]; by apply wp_ret.
  - by apply flush_keeps.
  - by apply wp_ret.
  - apply flush_keeps; [done|]. by apply (confirmed_quiet w1).
Qed.

Lemma report_spec nodeID task e w :
  Inv w -> wp (report_unexecuted nodeID task e) keeps_confirmed Inv w.
Proof.
  intros HI. unfold report_unexecuted.
  eapply wp_step; [apply draw_spec|intros w' Hs; by apply (same_inv _ _ Hs)|].
  intros now w1 Hs1. assert (HI1 := same_inv _ _ Hs1 HI). cbv zeta.
  match goal with |- wp (post_result ?ev _ ≫= _) _ _ _ =>
    assert (HIr : Inv (logged ev w1)) by (by apply inv_neutral) end.
  eapply wp_step; [apply post_spec|intros w' Hs; by apply (same_inv _ _ Hs)|].
  intros [err|] w' (w2 & Hs2 & ->); apply wp_ret; (split; [|done]).
  - by apply (same_inv _ _ Hs2).
  - apply inv_neutral; [done|]. by apply (same_inv _ _ Hs2).
Qed.

Lemma executeTask_spec nodeID leased w :
  Inv w -> confirmed w -> issued (lTask leased) ->
  wp (executeTask nodeID leased) keeps_confirmed Inv w.
Proof.
  intros HI Hc Hi. unfold executeTask. cbv zeta.
  destruct (validateDurablePair leased) as [err|] eqn:Hval; [by apply wp_ret|].
  destruct (_ && _) in |- *; [by apply wp_ret|].
  destruct (DurableResult leased) eqn:Hd; cbn [negb]; [|by apply execute_direct_spec].
  assert (Hp : protocol_ok (lProtocol leased)).
  { unfold validateDurablePair in Hval. rewrite Hd in Hval. cbn [negb] in Hval.
    destruct (String.eqb_spec (lProtocol leased) linechainProtocol) as [->|]; [done|].
    destruct (String.eqb_spec (lProtocol leased) netguardProtocol) as [->|]; [done|]. done. }
  unfold BeginWithProtocol.
  eapply wp_step; [by apply begin_spec|done|].
  intros [[|] [err|]] w1 (HI1 & Hr); cbv iota beta in Hr |- *.
  - by apply wp_ret.
  - destruct Hr as (L1 & Hl & (e & (n & Hst & Hv) & Ht) & Hc1).
    eapply (execute_journaled_spec _ _ (log w) n (as_read (keyOf (lTask leased)) e)); try done.
    + by rewrite Hv, decide_True.
    + by exists e.
  - by apply report_spec.
  - apply wp_ret. split; [done|]. intros _. by apply (confirmed_quiet w).
Qed.

Lemma executeTasks_spec nodeID tasks : forall w,
  Inv w -> confirmed w -> Forall (fun l => issued (lTask l)) tasks ->
  wp (executeTasks nodeID tasks) keeps_confirmed Inv w.
Proof.
  induction tasks as [|leased tasks IH]; intros w HI Hc Hall; cbn [executeTasks]; [by apply wp_ret|].
  apply Forall_cons in Hall as [Hi Hall].
  eapply wp_step; [apply draw_spec|intros w' Hs; by apply (same_inv _ _ Hs)|].
  intros stop w1 Hs1. assert (HI1 := same_inv _ _ Hs1 HI).
  assert (Hc1 : confirmed w1) by (apply (confirmed_quiet w); [apply same_quiet; [done|apply HI]|done]).
  destruct stop; [by apply wp_ret|].
  eapply wp_step; [by apply executeTask_spec|done|].
  intros [err|] w2 [HI2 Hc2]; [by apply wp_ret|]. apply IH; auto.
Qed.

(** ** Polling *)

(** No journal is left. *)
Definition outbox_empty (w : world E) : Prop := forall k, vis w !! path k = None.

Lemma pollTasks_spec nodeID w :
  Inv w ->
  wp (pollTasks nodeID) (fun r w' => Inv w' /\
    match r with
    | inr tasks => confirmed w' /\ outbox_empty w' /\ Forall (fun l => issued (lTask l)) tasks
    | inl _ => True
    end) Inv w.
Proof.
  intros HI. unfold pollTasks.
  eapply wp_step; [by apply RecoverInterrupted_spec|done|].
  intros [err|] w1 (HI1 & L1 & Hr); [by apply wp_ret|]. destruct (Hr eq_refl) as [Hc1 Hall].
  eapply wp_step; [by apply flushTaskResults_spec|done|].
  intros [err|] w2 [HI2 Hf]; [by apply wp_ret|]. destruct (Hf eq_refl) as [Hc2 Hv2].
  assert (Hempty : outbox_empty w2).
  { intros k. destruct (vis w2 !! path k) as [n|] eqn:Hn; [|done].
    apply Hv2 in Hn as [Hn Hnot]. destruct Hnot. by apply (Hall k n). }
  eapply wp_step; [apply syscall_spec|intros w' Hs; by apply (same_inv _ _ Hs)|].
  intros [err|] w3 Hs3; [apply wp_ret; split; [by apply (same_inv _ _ Hs3)|done]|].
  assert (HI3 := same_inv _ _ Hs3 HI2).
  assert (Hc3 : confirmed w3) by (apply (confirmed_quiet w2); [apply same_quiet; [done|apply HI2]|done]).
  unfold wp, draw, mbind, M_bind. specialize (Hfetched (env w3)).
  destruct (fetched (env w3)) as [tasks e]. cbn in *. split; [by destruct HI3|].
  split; [done|]. split.
  - intros k. destruct Hs3 as (V3 & _). exact (eq_trans (f_equal (lookup (path k)) V3) (Hempty k)).
  - apply Forall_map. eapply Forall_impl; [exact Hfetched|]. by intros [[t b] q].
Qed.

Lemma runTasks_spec nodeID w : Inv w -> wp (runTasks nodeID) (fun _ w' => Inv w') Inv w.
Proof.
  intros HI. unfold runTasks. eapply wp_step; [by apply pollTasks_spec|done|].
  intros [err|tasks] w1 [HI1 Hr]; [by apply wp_ret|]. destruct Hr as (Hc & _ & Hall).
  eapply wp_mono; [by apply executeTasks_spec| |done]. by intros r w' [? _].
Qed.

(** ** Runs of the agent over one outbox *)

(** A crash: every name but a temporary file's shows what it held in one of
    the states since the last sync; what it shows is what is durable. *)
Definition crash (w w' : world E) : Prop :=
  (forall name, is_temp name = false -> exists d, d ∈ hist w /\ vis w' !! name = d !! name) /\
  hist w' = [vis w'] /\ log w' = log w.

(** [reach w alive]: the state [w] can come about, [alive] says whether a
    process has the store open. *)
Inductive reach (nodeID : string) : world E -> bool -> Prop :=
  | reach_boot e : reach nodeID (mkWorld ∅ [∅] false e []) false
  | reach_open w r w' : reach nodeID w false -> Open w = (r, w') ->
      reach nodeID w' (match r with Some None => true | _ => false end)
  | reach_cycle w r w' : reach nodeID w true -> runTasks nodeID w = (r, w') ->
      reach nodeID w' (match r with Some _ => true | None => false end)
  | reach_exit w alive : reach nodeID w alive -> reach nodeID w false
  | reach_crash w alive w' : reach nodeID w alive -> crash w w' -> reach nodeID w' false.

Lemma crash_dir_ok w w' : Inv w -> crash w w' -> dir_ok (log w') (vis w').
Proof.
  intros HI (Hd & _ & ->).
  assert (Hk : forall k, exists d, dir_ok (log w) d /\ vis w' !! path k = d !! path k).
  { intros k. destruct (Hd (path k) (path_not_temp k)) as (d & Hin & Heq). exists d.
    split; [by apply HI|done]. }
  split.
  - intros k n Hn. destruct (Hk k) as (d & [H1 _ _] & Heq). apply H1. congruence.
  - intros t Ht. destruct (Hk (keyOf t)) as (d & [_ H2 _] & ->). by apply H2.
  - intros k r n Hv Hn. destruct (Hk k) as (d & [_ _ H3] & Heq). apply (H3 k r n Hv). congruence.
Qed.

(** A crash may lose nothing. *)
Lemma crash_to_vis w b e : Inv w -> crash w (mkWorld (vis w) [vis w] b e (log w)).
Proof.
  intros HI. split; [|done]. intros name _. exists (vis w). split; [apply HI|done].
Qed.

Lemma wp_run {A} (m : M E A) Q D w r w' :
  wp m Q D w -> m w = (r, w') -> match r with Some a => Q a w' | None => D w' end.
Proof. unfold wp. intros Hw Heq. by rewrite Heq in Hw. Qed.

Lemma reach_inv nodeID w alive : reach nodeID w alive -> Inv w.
Proof.
  induction 1 as [e|w r w' _ IH Ho|w r w' _ IH Hc|w b _ IH|w b w' _ IH Hcr].
  - split; [left| |done]. intros d Hd. apply list_elem_of_singleton in Hd as ->.
    split; [intros k n|done|done]. by rewrite lookup_empty.
  - pose proof (wp_run _ _ _ _ _ _ (Open_spec w IH) Ho) as Hw. destruct r; [apply Hw|exact Hw].
  - pose proof (wp_run _ _ _ _ _ _ (runTasks_spec nodeID w IH) Hc) as Hw. by destruct r.
  - done.
  - pose proof (crash_dir_ok _ _ IH Hcr) as Hok. destruct Hcr as (Hd & Hh & L). split.
    + rewrite Hh. left.
    + intros d. rewrite Hh, list_elem_of_singleton. by intros ->.
    + rewrite L. apply IH.
Qed.

(** ** What a log of events says *)

Lemma log_ok_app l1 l2 : log_ok (l1 ++ l2) -> log_ok l2.
Proof. induction l1 as [|ev l1 IH]; [done|]. destruct ev; simpl; intros; split_all; auto. Qed.

Lemma live_or_unlinked l1 t l2 :
  live (l1 ++ EvRun t :: l2) t \/ exists l0 l0', l1 = l0 ++ EvUnlink (path (keyOf t)) :: l0'.
Proof.
  induction l1 as [|ev l1 IH]; simpl; [by left; left|].
  destruct IH as [IH|(l0 & l0' & ->)]; [|right; by exists (ev :: l0), l0'].
  destruct ev; simpl; try by left; auto.
  destruct (decide (name = path (keyOf t))) as [->|]; [right; by exists [], l1|by left].
Qed.

Lemma verdict_kept l1 r l2 :
  log_ok (l1 ++ EvUpload r :: l2) -> (forall t, EvLease t ∈ l1 -> keyOf t <> result_key r) ->
  verdict (l1 ++ EvUpload r :: l2) (result_key r) = Some r.
Proof.
  induction l1 as [|ev l1 IH]; intros Hok Hl; simpl; [by rewrite String.eqb_refl|].
  assert (IH' : verdict (l1 ++ EvUpload r :: l2) (result_key r) = Some r).
  { apply IH; [by apply (log_ok_app [ev])|]. intros t Ht. apply Hl. by right. }
  destruct ev; try done; simpl in *.
  - destruct (String.eqb_spec (keyOf task) (result_key r)) as [Heq|]; [|done].
    destruct (Hl task); [left|done].
  - destruct (String.eqb_spec (result_key result) (result_key r)) as [Heq|]; [|done].
    f_equal. symmetry. apply (proj1 Hok). by rewrite Heq.
Qed.

(** ** The guarantees *)




(** the journal never wedges.  Every journal file of every reachable state,
    crashes included, is private, within the size limit and accepted by
    [read], so reading the store fails only when a system call fails or the
    store is over capacity. *)
Theorem journal_always_readable nodeID w alive k n :
  reach nodeID w alive -> vis w !! path k = Some n ->
  exists data o, n = File 384 data /\ Z.of_nat (String.length data) <= maxEntrySize /\
    read_data k data = inr o /\ key o = k /\ keyOf (eTask o) = k.
Proof.
  intros Hr%reach_inv Hn.
  destruct (ok_files _ _ (inv_dirs _ Hr _ (inv_vis _ Hr)) k n Hn) as (o & Ho).
  destruct (holds_facts _ _ _ Ho) as (Hk & Hk' & _). destruct Ho as (e & Hst & ->).
  pose proof Hst as (data & -> & _ & Hlen%Z.ltb_ge & _). exists data, (as_read k e).
  by rewrite (stored_read _ _ _ Hst).
Qed.

(** a successful poll leaves no debt.  When a poll returns a batch, every
    result of an earlier lease has been acknowledged and unlinked durably: the
    outbox is empty in every directory state a crash could expose. *)
Theorem poll_leaves_no_debt nodeID w alive tasks w' :
  reach nodeID w alive -> pollTasks nodeID w = (Some (inr tasks), w') ->
  durabilityUnconfirmed w' = false /\ forall d k, d ∈ hist w' -> d !! path k = None.
Proof.
  intros Hr%reach_inv Hp.
  destruct (wp_run _ _ _ _ _ _ (pollTasks_spec nodeID w Hr) Hp) as (_ & [Hf Hs] & He & _).
  split; [done|]. intros d k Hd. rewrite (Hs d Hd). apply He.
Qed.

(** the results to upload.  [Pending] refuses while the journal may not be
    durable; otherwise it returns exactly the completed entries of the
    directory, each once, oldest first, and changes nothing. *)
Theorem pending_is_exact nodeID w alive ps w' :
  reach nodeID w alive -> Pending w = (Some (inr ps), w') ->
  durabilityUnconfirmed w = false /\ vis w' = vis w /\ log w' = log w /\
  (forall o, o ∈ ps <-> (exists k n, vis w !! path k = Some n /\ holds k n o) /\ State o = stateDone) /\
  NoDup (key <$> ps) /\ Sorted (fun a b => pending_leb a b = true) ps.
Proof.
  intros Hr%reach_inv Hp.
  destruct (wp_run _ _ _ _ _ _ (Pending_spec w Hr) Hp) as ((V & _ & _ & L) & Hf & Hps & Hnd & Hs).
  done.
Qed.
End Props.
End CycleProps.

(** ** A concrete agent

    A codec that writes entries as bit strings and an environment in which
    every call succeeds and the server leases the same task on every poll. *)
Module CycleSample.
Import Outbox OutboxInv Cycle CycleProps.

Definition task_tuple (t : Task) :=
  (tID t, tLeaseID t, tInterpreter t, tScript t, tTimeoutSec t, tOutputLimit t).
#[export] Instance Task_countable : Countable Task.
Proof.
  refine (inj_countable' task_tuple (fun '(a, b, c, d, e, f) => mkTask a b c d e f) _). by intros [].
Defined.

Definition result_tuple (r : TaskResult) :=
  (rTaskID r, rLeaseID r, rNodeID r, rExitCode r, rStdout r, rStderr r, rError r,
   (rStartedAt r, rFinishedAt r)).
#[export] Instance TaskResult_countable : Countable TaskResult.
Proof.
  refine (inj_countable' result_tuple
    (fun '(a, b, c, d, e, f, g, (h, i)) => mkResult a b c d e f g h i) _). by intros [].
Defined.

Abbreviation wire_tuple := (Z * string * Task * string * option TaskResult * Z * Z)%type.

Definition sample_codec : Codec := {|
  marshal e := Some (bits_of (encode (A := wire_tuple)
    (Version e, State e, eTask e, DurableProtocol e, Result e, ExecutionStartedAt e, UpdatedAt e)));
  unmarshal s := match decode (A := wire_tuple) (of_bits s) with
    | Some (v, st, t, p, r, a, u) => Decoded (mkEntry v st t p r a u "")
    | None => DecodeFailed "syntax"
    end;
  wire_result r := r;
  same_result a b := bool_decide (a = b);
  sha256hex s := s;
  issued _ := True |}.

#[export] Instance sample_codec_laws : @CodecLaws sample_codec.
Proof.
  split.
  - intros [v st t p r a u k] data _ [= <-]. cbn. rewrite of_bits_of, decode_encode.
    by destruct r.
  - done.
  - intros a b. simpl. by rewrite bool_decide_eq_true.
Qed.

Definition sample_task : Task := mkTask "t1" "l1" "sh" "true" 5 100.

#[export] Instance sample_os : Os Z := {|
  ask _ e := (Happens, e);
  clock e := (e, e + 1);
  temp_name e := ("7"%string, e);
  fetched e := ([(sample_task, true, "netguard-v1"%string)], e);
  ran t e := (mkResult (tID t) (tLeaseID t) "" 0 "ok" "" "" e (e + 1), e + 2);
  stopping e := (false, e) |}.

#[local] Existing Instance sample_codec.

Lemma sample_fetched : batches_issued (E := Z).
Proof. intros e. by repeat constructor. Qed.

(** Boot, open the store, and run two cycles. *)
Definition at_boot : world Z := mkWorld ∅ [∅] false 10 [].
Definition opened := Open at_boot.
Definition first_cycle := runTasks "n1" opened.2.
Definition second_cycle := runTasks "n1" first_cycle.2.

Definition first_result : TaskResult := mkResult "t1" "l1" "n1" 0 "ok" "" "" 11 12.
Definition second_result : TaskResult := mkResult "t1" "l1" "n1" 0 "ok" "" "" 15 16.

Example two_cycles_log :
  log second_cycle.2 =
    [EvUnlink (path (keyOf sample_task)); EvAck second_result; EvUpload second_result;
     EvRun sample_task; EvLease sample_task;
     EvUnlink (path (keyOf sample_task)); EvAck first_result; EvUpload first_result;
     EvRun sample_task; EvLease sample_task].
Proof. vm_compute. reflexivity. Qed.

Lemma sample_reach : reach "n1" first_cycle.2 true.
Proof.
  apply (reach_cycle "n1" opened.2 (Some None)); [|vm_compute; reflexivity].
  apply (reach_open "n1" at_boot (Some None)); [apply reach_boot|vm_compute; reflexivity].
Qed.

Lemma sample_reach2 : reach "n1" second_cycle.2 true.
Proof.
  apply (reach_cycle "n1" first_cycle.2 (Some None)); [apply sample_reach|vm_compute; reflexivity].
Qed.

End CycleSample.

(** The same agent when the first upload fails: the result stays journaled and
    is sent again by the next poll. *)
Module FlakySample.
Import Outbox OutboxInv Cycle CycleProps CycleSample.

#[export] Instance flaky_os : Os (bool * Z) := {|
  ask c e := match c, e.1 with
    | CPost _, true => (Fails "timeout", (false, e.2))
    | _, _ => (Happens, e)
    end;
  clock e := (e.2, (e.1, e.2 + 1));
  temp_name e := ("7"%string, e);
  fetched e := ([(sample_task, true, "netguard-v1"%string)], e);
  ran t e := (mkResult (tID t) (tLeaseID t) "" 0 "ok" "" "" e.2 (e.2 + 1), (e.1, e.2 + 2));
  stopping e := (false, e) |}.

#[local] Existing Instance sample_codec.

Lemma flaky_fetched : batches_issued (E := bool * Z).
Proof. intros e. by repeat constructor. Qed.

Definition flaky_boot : world (bool * Z) := mkWorld ∅ [∅] false (true, 10) [].
Definition flaky_opened := Open flaky_boot.
Definition failed_cycle := runTasks "n1" flaky_opened.2.
Definition next_cycle := runTasks "n1" failed_cycle.2.

Example flaky_log :
  log next_cycle.2 =
    [EvUnlink (path (keyOf sample_task)); EvAck second_result; EvUpload second_result;
     EvRun sample_task; EvLease sample_task;
     EvUnlink (path (keyOf sample_task)); EvAck first_result;
     EvUpload first_result; EvUpload first_result; EvRun sample_task; EvLease sample_task].
Proof. vm_compute. reflexivity. Qed.

Lemma flaky_reach : reach "n1" failed_cycle.2 true.
Proof.
  apply (reach_cycle "n1" flaky_opened.2 (Some (Some (EFlush "t1" (EHttp "timeout")))));
    [|vm_compute; reflexivity].
  apply (reach_open "n1" flaky_boot (Some None)); [apply reach_boot|vm_compute; reflexivity].
Qed.

Lemma flaky_reach2 : reach "n1" next_cycle.2 true.
Proof.
  apply (reach_cycle "n1" failed_cycle.2 (Some None)); [apply flaky_reach|vm_compute; reflexivity].
Qed.


Definition after_crash : world (bool * Z) :=
  mkWorld (vis failed_cycle.2) [vis failed_cycle.2] false (false, 0) (log failed_cycle.2).

Definition journal_node : node := default Dir (vis failed_cycle.2 !! path (keyOf sample_task)).
Definition pending_entries : list Entry :=
  match (Pending failed_cycle.2).1 with Some (inr ps) => ps | _ => [] end.
Definition polled : list leasedAgentTask :=
  match (pollTasks "n1" failed_cycle.2).1 with Some (inr ts) => ts | _ => [] end.

Lemma journal_node_ok : vis failed_cycle.2 !! path (keyOf sample_task) = Some journal_node.
Proof. vm_compute. reflexivity. Qed.
Lemma pending_ok : Pending failed_cycle.2 = (Some (inr pending_entries), (Pending failed_cycle.2).2).
Proof. vm_compute. reflexivity. Qed.
Lemma polled_ok :
  pollTasks "n1" failed_cycle.2 = (Some (inr polled), (pollTasks "n1" failed_cycle.2).2).
Proof. vm_compute. reflexivity. Qed.
Lemma still_live : live (log failed_cycle.2) sample_task.
Proof. vm_compute. left. reflexivity. Qed.
Lemma crash_ok : crash failed_cycle.2 after_crash.
Proof.
  exact (crash_to_vis failed_cycle.2 false (false, 0) (reach_inv flaky_fetched _ _ _ flaky_reach)).
Qed.


Lemma journal_always_readable_witness :
  exists data o, journal_node = File 384 data /\ Z.of_nat (String.length data) <= maxEntrySize /\
    read_data (keyOf sample_task) data = inr o /\ key o = keyOf sample_task /\
    keyOf (eTask o) = keyOf sample_task.
Proof.
  exact (journal_always_readable flaky_fetched "n1" failed_cycle.2 true (keyOf sample_task) journal_node
    flaky_reach journal_node_ok).
Defined.

Lemma pending_is_exact_witness : NoDup (key <$> pending_entries).
Proof.
  exact (proj1 (proj2 (proj2 (proj2 (proj2
    (pending_is_exact flaky_fetched "n1" failed_cycle.2 true pending_entries _ flaky_reach pending_ok)))))).
Defined.

Lemma poll_leaves_no_debt_witness :
  durabilityUnconfirmed (pollTasks "n1" failed_cycle.2).2 = false.
Proof.
  exact (proj1 (poll_leaves_no_debt flaky_fetched "n1" failed_cycle.2 true polled _ flaky_reach polled_ok)).
Defined.
End FlakySample.
