(* ===== verification/LineFs.v ===== *)
(** * Files with crashes, for the line-chain transactions

    A world maps paths to files.  A change of a name is visible at once and
    durable once its directory is synced; until then a crash may show any of
    the contents the name has had since the last sync, independently of other
    names.  Every system call and every command asks the environment, which
    lets it happen, fails it, or kills the process before it. *)
From S2P Require Import Prelude GoStrings GoPath SDK TaskOutbox.

Local Open Scope Z_scope.
Create HintDb linefs.

(** What a name can denote: a regular file with its permissions and whether
    the agent's user owns it, a directory, or something else. *)
Inductive inode := Reg (perm : Z) (owned : bool) (data : string) | Directory | Special.
#[export] Instance inode_eq_dec : EqDecision inode.
Proof. solve_decision. Defined.

Inductive command := CmdCheck | CmdRestart | CmdVerify.

(** The calls the transaction code makes.  A temporary file is created, secured,
    written, synced and closed under a fresh name no other code looks at, so
    its calls can fail but change no name of interest. *)
Inductive lcall :=
  | LOpen (path : string) | LStat (path : string) | LRead (path : string) | LLstat (path : string)
  | LReadDir (path : string) | LParents (path : string)
  | LCreate (path : string) | LChmod (path : string) | LWrite (path : string) | LFsync (path : string)
  | LClose (path : string) | LRename (path : string) | LReopen (path : string) | LRefsync (path : string)
  | LSyncDir (path : string) | LRemove (path : string)
  | LCommand (c : command) | LComplete (result : TaskResult).

(** What the outside sees: the service was checked, restarted and found active
    with the files as they were then, and a result was handed over with the
    files as they were then and as a crash could have left them. *)
Inductive levent :=
  | EvVerified (files : gmap string inode)
  | EvCompleted (result : TaskResult) (files : gmap string inode) (unsynced : gmap string (list (option inode))).

Class LineOs (E : Type) := {
  lask : lcall -> E -> answer * E;
  lclock : E -> time * E
}.

Record lworld {E : Type} := mkLworld {
  cur : gmap string inode;
  past : gmap string (list (option inode));
  lenv : E;
  llog : list levent
}.
Arguments lworld : clear implicits.
Arguments mkLworld {E}.
#[export] Instance lworld_eta E : Etable (lworld E) := fun w => mkLworld (cur w) (past w) (lenv w) (llog w).

(** Everything the name may hold after a crash. *)
Definition held (files : gmap string inode) (unsynced : gmap string (list (option inode))) (p : string)
    : list (option inode) := files !! p :: default [] (unsynced !! p).
Definition possible {E} (w : lworld E) (p : string) : list (option inode) := held (cur w) (past w) p.

Definition L (E A : Type) : Type := lworld E -> option A * lworld E.
#[export] Instance L_ret E : MRet (L E) := fun A a w => (Some a, w).
#[export] Instance L_bind E : MBind (L E) := fun A B k m w =>
  match m w with (Some a, w') => k a w' | (None, w') => (None, w') end.

(** A computation with an error result, run to the next one. *)
Definition andThen {E A B} (m : L E (string + A)) (k : A -> L E (string + B)) : L E (string + B) :=
  m ≫= fun r => match r with inl err => mret (inl err) | inr a => k a end.
Notation "x ←? m ; k" := (andThen m (fun x => k)) (at level 20, m at level 100, k at level 200, right associativity).
Notation "m ;;? k" := (andThen m (fun _ => k)) (at level 100, k at level 200, right associativity).

(** Every way a computation can end: with a result, or with the process dead. *)
Definition lwp {E A} (m : L E A) (Q : A -> lworld E -> Prop) (D : lworld E -> Prop) (w : lworld E) : Prop :=
  match m w with (Some a, w') => Q a w' | (None, w') => D w' end.

Section Calls.
Context {E : Type} `{LineOs E}.

Definition lmodify (f : lworld E -> lworld E) : L E unit := fun w => (Some tt, f w).
Definition lgets {A} (f : lworld E -> A) : L E A := fun w => (Some (f w), w).
Definition ok {A} (a : A) : L E (string + A) := mret (inr a).
Definition fail {A} (err : string) : L E (string + A) := mret (inl err).

Definition lsys (c : lcall) : L E (string + unit) := fun w =>
  let '(a, e) := lask c (lenv w) in
  let w := w <| lenv := e |> in
  match a with Happens => (Some (inr tt), w) | Fails err => (Some (inl err), w) | Dies => (None, w) end.

Definition lnow : L E time := fun w => let '(t, e) := lclock (lenv w) in (Some t, w <| lenv := e |>).

Definition lemit (ev : levent) : L E unit := lmodify (fun w => w <| llog ::= cons ev |>).

(** The name [p] is made to hold [v]. *)
Definition put (p : string) (v : option inode) : L E unit :=
  lmodify (fun w => w <| cur ::= partial_alter (fun _ => v) p |> <| past ::= <[p := possible w p]> |>).

(** [syncDir]: the names of the directory are durable as they are. *)
Definition syncDir (dir : string) : L E (string + unit) :=
  lsys (LSyncDir dir) ;;?
  lmodify (fun w => w <| past ::= filter (fun x => path_dir x.1 <> dir) |>) ≫= fun _ => ok tt.

(** [os.Remove], with [os.ErrNotExist] told apart. *)
Definition remove_file (p : string) : L E (string + bool) :=
  lsys (LRemove p) ;;?
  lgets (fun w => cur w !! p) ≫= fun v =>
  match v with
  | None => ok false
  | Some _ => put p None ≫= fun _ => ok true
  end.

(** [writeFile]: the data is durable before the name shows it. *)
Definition writeFile (p data : string) : L E (string + unit) :=
  lsys (LCreate p) ;;? lsys (LChmod p) ;;? lsys (LWrite p) ;;? lsys (LFsync p) ;;? lsys (LClose p) ;;?
  lsys (LRename p) ;;?
  put p (Some (Reg 384 true data)) ≫= fun _ =>
  lsys (LReopen p) ;;? lsys (LRefsync p) ;;?
  syncDir (path_dir p).
End Calls.

(** ** Reasoning *)

Lemma lwp_ret {E A} (a : A) Q D (w : lworld E) : Q a w -> lwp (mret a) Q D w.
Proof. done. Qed.

Lemma lwp_bind {E A B} (m : L E A) (k : A -> L E B) Q D w :
  lwp m (fun a w' => lwp (k a) Q D w') D w -> lwp (m ≫= k) Q D w.
Proof. unfold lwp, mbind, L_bind. by destruct (m w) as [[a|] w']. Qed.

Lemma lwp_mono {E A} (m : L E A) (Q Q' : A -> lworld E -> Prop) (D D' : lworld E -> Prop) w :
  lwp m Q D w -> (forall a w', Q a w' -> Q' a w') -> (forall w', D w' -> D' w') -> lwp m Q' D' w.
Proof. unfold lwp. destruct (m w) as [[a|] w']; auto. Qed.

Lemma lwp_step {E A B} (m : L E A) (k : A -> L E B) (R : A -> lworld E -> Prop) (DR : lworld E -> Prop) Q D w :
  lwp m R DR w -> (forall w', DR w' -> D w') -> (forall a w', R a w' -> lwp (k a) Q D w') -> lwp (m ≫= k) Q D w.
Proof. intros Hm HD HQ. apply lwp_bind. by apply (lwp_mono _ R _ DR). Qed.

(** Run a fallible step by its specification: an error ends the computation. *)
Lemma lwp_then {E A B} (m : L E (string + A)) (k : A -> L E (string + B)) (R : string + A -> lworld E -> Prop)
    (DR : lworld E -> Prop) Q D w :
  lwp m R DR w -> (forall w', DR w' -> D w') -> (forall err w', R (inl err) w' -> Q (inl err) w') ->
  (forall a w', R (inr a) w' -> lwp (k a) Q D w') -> lwp (andThen m k) Q D w.
Proof.
  intros Hm HD HE HQ. unfold andThen. eapply lwp_step; [exact Hm|exact HD|].
  intros [err|a] w' Hr; [apply lwp_ret; auto|auto].
Qed.

Lemma lwp_run {E A} (m : L E A) Q D w r w' : lwp m Q D w -> m w = (Some r, w') -> Q r w'.
Proof. unfold lwp. intros Hm Hr. by rewrite Hr in Hm. Qed.
Lemma lwp_dead {E A} (m : L E A) Q D w w' : lwp m Q D w -> m w = (None, w') -> D w'.
Proof. unfold lwp. intros Hm Hr. by rewrite Hr in Hm. Qed.

Section Effects.
Context {E : Type} `{LineOs E}.
Implicit Types (w : lworld E).

(** The log grew, and no result was handed over. *)
Definition log_grew w w' : Prop :=
  exists more, llog w' = more ++ llog w /\ Forall (fun e => match e with EvVerified _ => True | EvCompleted _ _ _ => False end) more.

(** Nothing changed but what may still be undone; the log only grows. *)
Definition shrink w w' : Prop :=
  cur w' = cur w /\ log_grew w w' /\ forall p v, v ∈ possible w' p -> v ∈ possible w p.

Lemma log_grew_same w w' : llog w' = llog w -> log_grew w w'.
Proof. intros Hl. by exists []. Qed.
Lemma log_grew_trans w1 w2 w3 : log_grew w1 w2 -> log_grew w2 w3 -> log_grew w1 w3.
Proof.
  intros (l & E1 & Hl) (k & E2 & Hk). exists (k ++ l). rewrite <-app_assoc, E2, E1. split; [done|by apply Forall_app].
Qed.
Lemma shrink_refl w : shrink w w.
Proof. split; [done|]. split; [by apply log_grew_same|done]. Qed.
Lemma shrink_trans w1 w2 w3 : shrink w1 w2 -> shrink w2 w3 -> shrink w1 w3.
Proof.
  intros (H1 & H2 & H3) (H4 & H5 & H6). split; [congruence|]. split; [by eapply log_grew_trans|auto].
Qed.
Lemma shrink_log w w' e : shrink w w' -> e ∈ llog w -> e ∈ llog w'.
Proof. intros (_ & (l & -> & _) & _) He. apply elem_of_app. by right. Qed.
Lemma shrink_completed w w' r files unsynced :
  shrink w w' -> EvCompleted r files unsynced ∈ llog w' -> EvCompleted r files unsynced ∈ llog w.
Proof.
  intros (_ & (l & -> & Hl) & _). rewrite elem_of_app. intros [He|He]; [|done].
  by rewrite Forall_forall in Hl; apply Hl in He.
Qed.
Lemma shrink_cur w w' p : shrink w w' -> cur w' !! p = cur w !! p.
Proof. intros (-> & _). done. Qed.

(** A property of worlds that survives syncs and time. *)
Definition shrinking (P : lworld E -> Prop) : Prop := forall w w', shrink w w' -> P w -> P w'.

(** The world in which the name holds something else. *)
Definition with_name (p : string) (v : option inode) w : lworld E :=
  w <| cur ::= partial_alter (fun _ => v) p |> <| past ::= <[p := possible w p]> |>.

Lemma with_name_at p v w : cur (with_name p v w) !! p = v.
Proof. unfold with_name. upd. apply lookup_partial_alter_eq. Qed.
Lemma with_name_ne p v w q : q <> p -> cur (with_name p v w) !! q = cur w !! q.
Proof. intros Hq. unfold with_name. upd. by apply lookup_partial_alter_ne. Qed.
Lemma with_name_possible p v w x : x ∈ possible (with_name p v w) p <-> x = v \/ x ∈ possible w p.
Proof.
  unfold possible at 1, held. rewrite with_name_at. unfold with_name. upd. rewrite lookup_insert_eq. simpl.
  by rewrite elem_of_cons.
Qed.
Lemma with_name_possible_ne p v w q : q <> p -> possible (with_name p v w) q = possible w q.
Proof.
  intros Hq. unfold possible, held. rewrite with_name_ne by done. unfold with_name. upd.
  by rewrite lookup_insert_ne by done.
Qed.
Lemma with_name_log p v w : llog (with_name p v w) = llog w.
Proof. unfold with_name. by upd. Qed.
Lemma with_name_same p w : shrink (with_name p (cur w !! p) w) w.
Proof.
  split; [|split].
  - apply map_eq. intros q. destruct (decide (q = p)) as [->|Hq]; [by rewrite with_name_at|by rewrite with_name_ne].
  - by apply log_grew_same; rewrite with_name_log.
  - intros q v Hv. destruct (decide (q = p)) as [->|Hq]; [|by rewrite with_name_possible_ne].
    rewrite with_name_possible. by right.
Qed.

(** All the name may hold is [v]. *)
Definition durable p (v : option inode) w : Prop := forall x, x ∈ possible w p -> x = v.

Lemma possible_cur p w : cur w !! p ∈ possible w p.
Proof. left. Qed.
Lemma durable_cur p v w : durable p v w -> cur w !! p = v.
Proof. intros Hd. apply Hd, possible_cur. Qed.

Lemma lsys_spec c w : lwp (lsys c) (fun _ w' => shrink w w') (shrink w) w.
Proof.
  unfold lsys, lwp. destruct (lask c (lenv w)) as [[] e];
    (split; [by upd|split; [apply log_grew_same; by upd|unfold possible; by upd]]).
Qed.
Lemma lnow_spec w : lwp lnow (fun _ w' => shrink w w') (shrink w) w.
Proof.
  unfold lnow, lwp. destruct (lclock (lenv w)) as [t e].
  split; [by upd|split; [apply log_grew_same; by upd|unfold possible; by upd]].
Qed.
Lemma lemit_spec files w :
  lwp (lemit (EvVerified files)) (fun _ w' => shrink w w' /\ EvVerified files ∈ llog w') (shrink w) w.
Proof.
  unfold lemit, lmodify, lwp. split; [|upd; left].
  split; [by upd|split; [|unfold possible; by upd]]. exists [EvVerified files]. split; [by upd|by repeat constructor].
Qed.

(** An operation that changes no name, and makes those of a directory durable. *)
Definition settles dir {A} (op : L E (string + A)) : Prop := forall w,
  lwp op (fun r w' => shrink w w' /\
    forall a, r = inr a -> forall p, path_dir p = dir -> durable p (cur w !! p) w') (shrink w) w.

Lemma syncDir_spec dir : settles dir (syncDir dir).
Proof.
  intros w. unfold syncDir. eapply lwp_then; [apply lsys_spec|auto|by intros|].
  intros [] w1 Hs. unfold lwp, lmodify, mbind, L_bind, ok, mret, L_ret.
  set (w2 := w1 <| past ::= _ |>).
  assert (Hin : forall p, path_dir p = dir -> possible w2 p = [cur w1 !! p]).
  { intros p Hd. unfold possible, held, w2. upd. rewrite map_lookup_filter_None_2; [done|].
    right. intros x _. simpl. tauto. }
  assert (Hout : forall p, path_dir p <> dir -> possible w2 p = possible w1 p).
  { intros p Hd. unfold possible, held, w2. upd. destruct (past w1 !! p) as [l|] eqn:El.
    - by rewrite (map_lookup_filter_Some_2 _ _ _ l).
    - rewrite map_lookup_filter_None_2; [done|by left]. }
  split.
  - eapply shrink_trans; [exact Hs|]. split; [unfold w2; by upd|].
    split; [apply log_grew_same; unfold w2; by upd|].
    intros p v. destruct (decide (path_dir p = dir)) as [Hd|Hd]; [|by rewrite Hout].
    rewrite Hin, list_elem_of_singleton by done. intros ->. left.
  - intros _ _ p Hd x. destruct Hs as (Hc & _ & _). rewrite <-Hc, Hin by done. by rewrite list_elem_of_singleton.
Qed.

Lemma settles_lsys dir {A} c (op : L E (string + A)) : settles dir op -> settles dir (lsys c ;;? op).
Proof.
  intros Hop w. eapply lwp_then; [apply lsys_spec|auto|by intros|]. intros [] w1 Hs.
  eapply lwp_mono; [apply Hop| |].
  - intros r w' [H1 H2]. split; [by eapply shrink_trans|]. intros a Hr p Hp. rewrite <-(shrink_cur _ _ p Hs). eauto.
  - intros w'. by apply shrink_trans.
Qed.

(** An operation that makes [p] hold [v]: it may fail or die before or after,
    and when it succeeds the name holds [v] durably. *)
Definition wrote p (v : option inode) w w' : Prop := shrink w w' \/ shrink (with_name p v w) w'.
Definition done_writing p (v : option inode) w (w' : lworld E) : Prop :=
  shrink (with_name p v w) w' /\ durable p v w'.
Definition written p (v : option inode) {A} w (r : string + A) w' : Prop :=
  wrote p v w w' /\ forall a, r = inr a -> done_writing p v w w'.
Definition writes p (v : option inode) {A} (op : L E (string + A)) : Prop :=
  forall w, lwp op (written p v w) (wrote p v w) w.

Lemma with_name_before p v w w1 w2 : shrink w w1 -> shrink (with_name p v w1) w2 -> shrink (with_name p v w) w2.
Proof.
  intros Hs. apply shrink_trans. split; [|split].
  - apply map_eq. intros q. destruct (decide (q = p)) as [->|Hq]; [by rewrite !with_name_at|].
    rewrite !with_name_ne by done. by apply shrink_cur.
  - destruct Hs as (_ & (l & Hl & Hq) & _). exists l. by rewrite !with_name_log.
  - intros q x. destruct (decide (q = p)) as [->|Hq].
    + rewrite !with_name_possible. intros [->|Hx]; [by left|right]. by apply Hs.
    + rewrite !with_name_possible_ne by done. apply Hs.
Qed.
Lemma wrote_before p v w w1 w2 : shrink w w1 -> wrote p v w1 w2 -> wrote p v w w2.
Proof.
  intros Hs [Hw|Hw]; [left; by eapply shrink_trans|right]. by eapply with_name_before.
Qed.

Lemma lsys_then {B} c (k : unit -> L E (string + B)) Q D w :
  (forall w', shrink w w' -> D w') -> (forall err w', shrink w w' -> Q (inl err) w') ->
  (forall w', shrink w w' -> lwp (k tt) Q D w') -> lwp (andThen (lsys c) k) Q D w.
Proof.
  intros HD HE HK. eapply lwp_then; [apply lsys_spec|exact HD|exact HE|]. intros []. apply HK.
Qed.

Lemma writes_before p v {A} (op : L E (string + A)) w w1 :
  shrink w w1 -> lwp op (written p v w1) (wrote p v w1) w1 -> lwp op (written p v w) (wrote p v w) w1.
Proof.
  intros Hs Hop. eapply lwp_mono; [exact Hop| |intros w'; by apply wrote_before].
  intros r w' [H1 H2]. split; [by eapply wrote_before|]. intros a Hr. destruct (H2 a Hr) as [H3 H4]. split; [|done].
  by apply (with_name_before _ _ _ _ _ Hs).
Qed.
Lemma writes_lsys p v {A} c (op : L E (string + A)) : writes p v op -> writes p v (lsys c ;;? op).
Proof.
  intros Hop w. eapply lwp_then; [apply lsys_spec|by left| |].
  - intros err w' Hs. split; [by left|done].
  - intros [] w1 Hs. by apply writes_before.
Qed.

Lemma writes_put p v {A} (op : L E (string + A)) : settles (path_dir p) op -> writes p v (put p v ≫= fun _ => op).
Proof.
  intros Hop w. apply lwp_bind. change (lwp op (written p v w) (wrote p v w) (with_name p v w)).
  eapply lwp_mono; [apply Hop| |].
  - intros r w' [H1 H2]. split; [by right|]. intros a Hr. split; [done|].
    specialize (H2 a Hr p eq_refl). by rewrite with_name_at in H2.
  - intros w'. by right.
Qed.

Lemma writeFile_spec p data : writes p (Some (Reg 384 true data)) (writeFile p data).
Proof.
  do 6 apply writes_lsys. apply writes_put. do 2 apply settles_lsys. apply syncDir_spec.
Qed.

(** Removing a name and syncing its directory. *)
Lemma remove_spec p : writes p None (remove_file p ;;? syncDir (path_dir p)).
Proof.
  intros w. unfold remove_file, andThen at 1. apply lwp_bind.
  eapply lwp_then; [apply lsys_spec|by left| |].
  { intros err w' Hs. split; [by left|done]. }
  intros [] w1 Hs. apply lwp_bind. change (lwp (lgets (fun w => cur w !! p)) ?Q ?D w1) with (Q (cur w1 !! p) w1).
  cbv beta. destruct (cur w1 !! p) as [n|] eqn:En.
  - change (lwp (put p None ≫= fun _ => syncDir (path_dir p)) (written p None w) (wrote p None w) w1).
    apply (writes_before _ _ _ _ _ Hs), writes_put, syncDir_spec.
  - apply lwp_ret. eapply lwp_mono; [apply syncDir_spec| |].
    + intros r w' [H1 H2]. split; [left; by eapply shrink_trans|]. intros a Hr. split.
      * apply (with_name_before _ _ _ _ _ Hs). rewrite <-En. eapply shrink_trans; [apply with_name_same|done].
      * rewrite <-En. eauto.
    + intros w' H1. left. by eapply shrink_trans.
Qed.

(** Run such an operation inside a computation that keeps [R]. *)
Lemma writes_then {A B} {p v} {op : L E (string + A)} (k : A -> L E (string + B)) (R : lworld E -> Prop) Q D w :
  lwp op (written p v w) (wrote p v w) w -> shrinking R -> R w -> R (with_name p v w) ->
  (forall w', R w' -> D w') -> (forall err w', R w' -> Q (inl err) w') ->
  (forall a w', done_writing p v w w' -> R w' -> lwp (k a) Q D w') -> lwp (andThen op k) Q D w.
Proof.
  intros Hop HR H0 H1 HD HE HK.
  assert (Hin : forall w', wrote p v w w' -> R w') by (intros w' [Hw|Hw]; [exact (HR _ _ Hw H0)|exact (HR _ _ Hw H1)]).
  eapply lwp_then; [exact Hop|by auto| |].
  - intros err w' [Hw _]. auto.
  - intros a w' [Hw Hd]. eauto.
Qed.

(** An operation that changes no name and returns what the files say. *)
Definition reads {A} (op : L E (string + A)) (P : gmap string inode -> A -> Prop) : Prop := forall w,
  lwp op (fun r w' => shrink w w' /\ forall a, r = inr a -> P (cur w) a) (shrink w) w.

Lemma reads_lsys {A} c (op : L E (string + A)) P : reads op P -> reads (lsys c ;;? op) P.
Proof.
  intros Hop w. eapply lwp_then; [apply lsys_spec|auto|by intros|]. intros [] w1 Hs.
  eapply lwp_mono; [apply Hop| |].
  - intros r w' [H1 H2]. destruct (id Hs) as (Hc & _). rewrite Hc in H2. split; [by eapply shrink_trans|done].
  - intros w'. by apply shrink_trans.
Qed.
Lemma reads_ok {A} (a : A) (P : gmap string inode -> A -> Prop) : (forall files, P files a) -> reads (ok a) P.
Proof. intros HP w. apply lwp_ret. split; [apply shrink_refl|]. by intros ? [= <-]. Qed.
Lemma reads_fail {A} err (P : gmap string inode -> A -> Prop) : reads (fail err) P.
Proof. intros w. apply lwp_ret. split; [apply shrink_refl|done]. Qed.
Lemma reads_look {A} p (k : option inode -> L E (string + A)) (P : gmap string inode -> A -> Prop) :
  (forall v, reads (k v) (fun files a => files !! p = v -> P files a)) ->
  reads (lgets (fun w => cur w !! p) ≫= k) P.
Proof.
  intros Hk w. apply lwp_bind. change (lwp (lgets (fun w => cur w !! p)) ?Q ?D w) with (Q (cur w !! p) w). cbv beta.
  eapply lwp_mono; [apply Hk| |auto]. intros r w' [H1 H2]. split; [done|]. intros a Hr. by apply H2.
Qed.
Lemma reads_then {A B} {op : L E (string + A)} {k : A -> L E (string + B)} (P : gmap string inode -> A -> Prop)
    (P' : gmap string inode -> B -> Prop) :
  reads op P -> (forall a, reads (k a) (fun files b => P files a -> P' files b)) -> reads (andThen op k) P'.
Proof.
  intros Hop Hk w. eapply lwp_then; [apply Hop|auto| |].
  - intros err w' [H1 _]. split; [done|by intros].
  - intros a w1 [H1 H2]. eapply lwp_mono; [apply Hk| |].
    + intros r w' [H3 H4]. split; [by eapply shrink_trans|]. intros b Hb. destruct (id H1) as (Hc & _). rewrite <-Hc.
      apply H4; [done|]. rewrite Hc. auto.
    + intros w'. by apply shrink_trans.
Qed.
End Effects.
#[export] Hint Resolve reads_lsys reads_fail shrink_refl : linefs.
