(* ===== verification/LineChain.v ===== *)
(** * Line-chain transactions (internal/linechain/manager.go, sidecar_patch.go)

    A line chain is two files of the node: a fragment of the sing-box
    configuration and the semantic sidecar.  [Apply] replaces both as one
    transaction with a journal and backups; [ResolveAfterRun] and recovery turn
    it into one terminal result.  encoding/json and crypto/sha256 are the class
    [LineJson]. *)
From S2P Require Import Prelude GoStrings GoPath SDK TaskOutbox LineFs.
From Stdlib Require Import Ascii.

Local Open Scope string_scope.

Definition journalVersion : Z := 2.
Definition maxDocumentSize : Z := Z.shiftl 4 20.
Definition maxArtifactSize : Z := maxDocumentSize.
Definition semanticSidecarMetadataSchema : string := "lattice.singbox-metadata.v2".
Definition semanticSidecarPatchSchema : string := "lattice.singbox-linechain-sidecar-patch.v1".
Definition semanticArtifactSchema : string := "lattice.singbox-linechain-artifact.v2".

(** ** Data *)
Record SidecarPatchV2 := mkPatch {
  pSchema : string;
  SourceLineUUID : string;
  SourceInboundTag : string;
  ExpectedDownstreamLineUUID : option string;
  DesiredDownstreamLineUUID : option string
}.

Record semanticArtifactBindingV2 := mkBinding {
  bSchema : string;
  bOperation : string;
  bFragmentBasename : string;
  bPreviousFragmentSHA256 : option string;
  bFragmentSHA256 : option string;
  bSidecarPatchSHA256 : string
}.

Record wireDocumentV2 := mkWire {
  wVersion : Z;
  wDurableProtocol : string;
  wOperation : string;
  wFragmentBasename : string;
  wFragment : option string;
  wPreviousFragmentSHA256 : option string;
  wFragmentSHA256 : option string;
  wSidecarPatchSHA256 : string;
  wArtifactSHA256 : string
}.

Record Document := mkDocument {
  dWire : wireDocumentV2;
  dConfigDir : string;
  dFragmentPath : string;
  dSidecarPath : string;
  dSidecarPatch : SidecarPatchV2;
  dSidecarPatchCanonical : string
}.

(** The phases of a transaction; any other text is [PhaseUnknown]. *)
Inductive phase :=
  | Prepared | FragmentPublished | PairPublished | DesiredVerified | OldRestored
  | TerminalDesired | TerminalOld | PhaseUnknown (text : string).
#[export] Instance phase_eq_dec : EqDecision phase.
Proof. solve_decision. Defined.

Record journal := mkJournal {
  jVersion : Z;
  jTaskID : string;
  jLeaseID : string;
  jFragmentPath : string;
  jSidecarPath : string;
  jFragmentOld : string;
  jSidecarOld : string;
  jArtifactSHA256 : string;
  jSidecarPatchSHA256 : string;
  jFragmentOutputSHA256 : string;
  jSidecarOutputSHA256 : string;
  jTaskScriptSHA : string;
  jFragmentHadOld : bool;
  jSidecarHadOld : bool;
  jPhase : phase;
  jResult : option TaskResult
}.
#[export] Instance journal_eta : Etable journal := fun j =>
  mkJournal (jVersion j) (jTaskID j) (jLeaseID j) (jFragmentPath j) (jSidecarPath j) (jFragmentOld j)
    (jSidecarOld j) (jArtifactSHA256 j) (jSidecarPatchSHA256 j) (jFragmentOutputSHA256 j)
    (jSidecarOutputSHA256 j) (jTaskScriptSHA j) (jFragmentHadOld j) (jSidecarHadOld j) (jPhase j) (jResult j).

(** encoding/json and crypto/sha256 as this package uses them.  [json_object]
    gives the names and raw values of an object with nothing after it,
    [json_array] of null is [Some None], the decoders of documents and journals
    refuse unknown fields and trailing data. *)
Class LineJson := {
  json_object : string -> option (list (string * string));
  json_array : string -> option (option (list string));
  json_string : string -> option string;
  enc_object : gmap string string -> option string;
  enc_array : list string -> option string;
  enc_chain : string -> option string;
  wire_decode : string -> option wireDocumentV2;
  patch_decode : string -> option SidecarPatchV2;
  patch_encode : SidecarPatchV2 -> option string;
  binding_encode : semanticArtifactBindingV2 -> option string;
  journal_encode : journal -> option string;
  journal_decode : string -> option journal;
  result_encode : TaskResult -> option string;
  lsha256 : string -> string
}.

(** ** Shapes of names and digests *)
Definition is_hex (c : ascii) : bool :=
  is_digit c || ((97 <=? byte_val c) && (byte_val c <=? 102))%Z.

(** [validSHA]: 64 lower-case hexadecimal digits. *)
Definition validSHA (s : string) : bool := (String.length s =? 64)%nat && str_forall is_hex s.

(** [linechainBasenameRE]. *)
Definition linechainBasename (s : string) : bool :=
  match cut_prefix s "lattice-linechain-" with
  | Some t => match cut_suffix t ".json" with
              | Some h => (String.length h =? 20)%nat && str_forall is_hex h
              | None => false
              end
  | None => false
  end.

Fixpoint match_shape (shape : list (ascii -> bool)) (s : string) : bool :=
  match shape, s with
  | [], EmptyString => true
  | f :: shape, String c s => f c && match_shape shape s
  | _, _ => false
  end.

(** [lowercaseUUIDv4RE]. *)
Definition lowercaseUUIDv4 (s : string) : bool :=
  let dash := Ascii.eqb "-"%char in
  match_shape (replicate 8 is_hex ++ dash :: replicate 4 is_hex ++ dash :: Ascii.eqb "4"%char :: replicate 3 is_hex
    ++ dash :: (fun c => bool_decide (c ∈ ["8"; "9"; "a"; "b"]%char)) :: replicate 3 is_hex
    ++ dash :: replicate 12 is_hex) s.

Section Documents.
Context `{LineJson}.

Definition digest (data : string) : string := lsha256 data.
Definition digestPtr (s : option string) : string := from_option digest "" s.
Definition digestMaybe (data : string) (exists_ : bool) : string := if exists_ then digest data else "".

(** ** JSON objects *)

Fixpoint unique_fields (seen : gmap string string) (l : list (string * string)) : option (gmap string string) :=
  match l with
  | [] => Some seen
  | (name, value) :: l => if bool_decide (is_Some (seen !! name)) then None
                          else unique_fields (<[name := value]> seen) l
  end.

Definition decodeUniqueJSONObject (raw : string) : option (gmap string string) :=
  json_object raw ≫= unique_fields ∅.

Definition decodeJSONObject (raw : string) : option (gmap string string) :=
  if String.eqb (trim_space raw) "" || String.eqb (trim_space raw) "null" then None
  else decodeUniqueJSONObject raw.

(** ** The sidecar patch *)

Definition patch_fields : list string :=
  ["schema"; "source_line_uuid"; "source_inbound_tag"; "expected_downstream_line_uuid"; "desired_downstream_line_uuid"].

Definition has_all (names : list string) (m : gmap string string) : bool :=
  forallb (fun n => bool_decide (is_Some (m !! n))) names.

Definition uuid_or_absent (v : option string) : bool := from_option lowercaseUUIDv4 true v.

Definition canonicalSemanticSidecarPatch (raw : string) : option (SidecarPatchV2 * string) :=
  fields ← decodeJSONObject raw;
  if negb (has_all patch_fields fields) || negb (size fields =? 5)%nat then None
  else
    patch ← patch_decode raw;
    if negb (String.eqb (pSchema patch) semanticSidecarPatchSchema)
       || negb (lowercaseUUIDv4 (SourceLineUUID patch))
       || String.eqb (trim_space (SourceInboundTag patch)) ""
       || negb (String.eqb (SourceInboundTag patch) (trim_space (SourceInboundTag patch)))
    then None
    else if negb (uuid_or_absent (ExpectedDownstreamLineUUID patch))
            || negb (uuid_or_absent (DesiredDownstreamLineUUID patch)) then None
    else
      canonical ← patch_encode patch;
      if String.eqb raw canonical then Some (patch, canonical) else None.

Definition sha_or_absent (v : option string) : bool := from_option validSHA true v.

Definition canonicalSemanticArtifactBinding (b : semanticArtifactBindingV2) : option string :=
  let prev := bool_decide (is_Some (bPreviousFragmentSHA256 b)) in
  let frag := bool_decide (is_Some (bFragmentSHA256 b)) in
  if negb (String.eqb (bSchema b) semanticArtifactSchema) || negb (linechainBasename (bFragmentBasename b))
     || negb (validSHA (bSidecarPatchSHA256 b)) then None
  else if negb (if String.eqb (bOperation b) "create" then negb prev && frag
                else if String.eqb (bOperation b) "replace" then prev && frag
                else if String.eqb (bOperation b) "remove" then prev && negb frag else false) then None
  else if negb (sha_or_absent (bPreviousFragmentSHA256 b)) || negb (sha_or_absent (bFragmentSHA256 b)) then None
  else binding_encode b.

Definition verifySemanticArtifactBinding (fragment : option string) (patch : string)
    (b : semanticArtifactBindingV2) (issued : string) : bool :=
  match bFragmentSHA256 b, fragment with
  | None, None => true
  | Some sha, Some f => String.eqb (digest f) sha
  | _, _ => false
  end
  && String.eqb (digest patch) (bSidecarPatchSHA256 b)
  && match canonicalSemanticArtifactBinding b with
     | None => false
     | Some canonical => validSHA issued && String.eqb (digest canonical) issued
     end.

(** ** Merging the sidecar *)

Definition validateSemanticSidecarTop (top : gmap string string) : bool :=
  match top !! "schema" ≫= json_string with
  | Some schema => String.eqb schema semanticSidecarMetadataSchema
  | None => false
  end && match top !! "inbounds" ≫= json_array with Some (Some _) => true | _ => false end.

Definition semanticInboundIdentity (raw : string) : option (string * string) :=
  value ← decodeJSONObject raw;
  uuid ← value !! "line_uuid" ≫= json_string;
  tag ← value !! "tag" ≫= json_string;
  if lowercaseUUIDv4 uuid && negb (String.eqb (trim_space tag) "") && String.eqb tag (trim_space tag)
  then Some (uuid, tag) else None.

(** The scan for the one inbound the patch names. *)
Fixpoint scan_inbounds (patch : SidecarPatchV2) (i : nat) (match_ : option nat) (seenUUID seenTag : gset string)
    (inbounds : list string) : option (option nat) :=
  match inbounds with
  | [] => Some match_
  | raw :: rest =>
      '(uuid, tag) ← semanticInboundIdentity raw;
      if bool_decide (uuid ∈ seenUUID) || bool_decide (tag ∈ seenTag) then None
      else
        let hitUUID := String.eqb uuid (SourceLineUUID patch) in
        let hitTag := String.eqb tag (SourceInboundTag patch) in
        if hitUUID || hitTag then
          if negb hitUUID || negb hitTag || bool_decide (is_Some match_) then None
          else scan_inbounds patch (S i) (Some i) ({[uuid]} ∪ seenUUID) ({[tag]} ∪ seenTag) rest
        else scan_inbounds patch (S i) match_ ({[uuid]} ∪ seenUUID) ({[tag]} ∪ seenTag) rest
  end.

Definition currentDownstreamIdentity (inbound : gmap string string) : option (option string) :=
  match inbound !! "chain" with
  | None => Some None
  | Some raw =>
      chain ← decodeJSONObject raw;
      rawDownstream ← chain !! "downstream_line_uuid";
      if String.eqb (trim_space rawDownstream) "null" then Some None
      else
        value ← json_string rawDownstream;
        if lowercaseUUIDv4 value then Some (Some value) else None
  end.

Definition nullableStringEqual (a b : option string) : bool := bool_decide (a = b).

Definition patched_inbound (patch : SidecarPatchV2) (inbound : gmap string string) : option (gmap string string) :=
  match DesiredDownstreamLineUUID patch with
  | None => Some (delete "chain" inbound)
  | Some u => encoded ← enc_chain u; Some (<["chain" := encoded]> inbound)
  end.

Definition newline : string := String (ascii_of_nat 10) "".

Definition mergeManagedSidecar (current : string) (patch : SidecarPatchV2) : option string :=
  top ← decodeJSONObject current;
  if negb (validateSemanticSidecarTop top) then None
  else
    inbounds ← top !! "inbounds" ≫= json_array;
    let inbounds := default [] inbounds in
    m ← scan_inbounds patch 0 None ∅ ∅ inbounds;
    i ← m;
    inbound ← inbounds !! i ≫= decodeJSONObject;
    currentDownstream ← currentDownstreamIdentity inbound;
    if negb (nullableStringEqual currentDownstream (ExpectedDownstreamLineUUID patch)) then None
    else
      patched ← patched_inbound patch inbound;
      encodedInbound ← enc_object patched;
      encodedInbounds ← enc_array (<[i := encodedInbound]> inbounds);
      out ← enc_object (<["inbounds" := encodedInbounds]> top);
      Some (out +:+ newline).
End Documents.

(** ** The manager *)
Record Manager := mkManager { mDir : string; configDir : string; sidecarPath : string }.

Module Chain.
Section Chain.
Context `{LineJson} {E : Type} `{LineOs E} (m : Manager).

Definition Configured : bool := negb (String.eqb (configDir m) "") && negb (String.eqb (sidecarPath m) "").

Definition journalPath (taskID leaseID : string) : string :=
  path_join (mDir m) (lsha256 (taskID +:+ String (byte_of 0) leaseID) +:+ ".json").
Definition fragmentBackup (path : string) : string := path +:+ ".fragment.old".
Definition sidecarBackup (path : string) : string := path +:+ ".sidecar.old".

Definition journalTerminal (p : phase) : bool :=
  match p with TerminalDesired | TerminalOld => true | _ => false end.

Definition resultSHA (r : option TaskResult) : string :=
  match r with Some r => from_option digest "" (result_encode r) | None => "" end.
Definition journalSHA (j : journal) : string := from_option digest "" (journal_encode j).

(** ** Files *)

(** [validateParents] looks at the directories above the path. *)
Definition validateParents (p : string) : L E (string + unit) := lsys (LParents p).

(** [readValidatedFile]: the data, or that there is no file. *)
Definition readValidatedFile (p : string) (private : bool) : L E (string + option string) :=
  lsys (LOpen p) ;;?
  lgets (fun w => cur w !! p) ≫= fun v =>
  match v with
  | None => ok None
  | Some (Reg perm owned data) =>
      lsys (LStat p) ;;?
      if negb owned || (private && negb (Z.land perm 63 =? 0)%Z) then fail "not a trusted regular file"
      else
        lsys (LRead p) ;;?
        if (maxArtifactSize <? Z.of_nat (String.length data))%Z then fail "file too large" else ok (Some data)
  | Some _ => fail "not a trusted regular file"
  end.
Definition readCurrent (p : string) : L E (string + option string) := readValidatedFile p false.

(** [readJournal]; [None] when the file does not exist. *)
Definition readJournal (p : string) : L E (string + option journal) :=
  lsys (LOpen p) ;;?
  lgets (fun w => cur w !! p) ≫= fun v =>
  match v with
  | None => ok None
  | Some (Reg perm owned data) =>
      lsys (LStat p) ;;?
      if negb owned || negb (Z.land perm 63 =? 0)%Z then fail "invalid linechain journal"
      else
        lsys (LRead p) ;;?
        if (maxDocumentSize <? Z.of_nat (String.length data))%Z then fail "journal too large"
        else match journal_decode data with
        | None => fail "decode"
        | Some j =>
            if negb (jVersion j =? journalVersion)%Z || String.eqb (jTaskID j) "" || String.eqb (jLeaseID j) ""
            then fail "invalid linechain journal identity" else ok (Some j)
        end
  | Some _ => fail "invalid linechain journal"
  end.

Definition need_journal (p : string) : L E (string + journal) :=
  r ←? readJournal p; match r with Some j => ok j | None => fail "no such file or directory" end.

(** [writeJSON] of a journal. *)
Definition writeJournal (p : string) (j : journal) : L E (string + unit) :=
  match journal_encode j with None => fail "encode" | Some b => writeFile p b end.

Definition publish (p : string) (content : option string) : L E (string + unit) :=
  validateParents p ;;?
  match content with
  | None => remove_file p ;;? syncDir (path_dir p)
  | Some data => writeFile p data
  end.

Definition writeBackup (p : string) (data : option string) : L E (string + unit) :=
  match data with None => ok tt | Some d => writeFile p d end.

Definition requirePrevious (data : option string) (want : string) : bool :=
  if String.eqb want "" then bool_decide (data = None)
  else match data with Some d => String.eqb (digest d) (to_lower want) | None => false end.

(** ** Commands *)
Definition checkRestartVerify : L E (string + unit) :=
  lsys (LCommand CmdCheck) ;;? lsys (LCommand CmdRestart) ;;? lsys (LCommand CmdVerify) ;;?
  lgets cur ≫= fun files => lemit (EvVerified files) ≫= fun _ => ok tt.

(** [pairMatches]: an unreadable file never matches. *)
Definition digest_of (v : option string) : string := digestMaybe (default "" v) (bool_decide (is_Some v)).

Definition pairMatches (j : journal) (desired : bool) : L E bool :=
  readCurrent (jFragmentPath j) ≫= fun a =>
  readCurrent (jSidecarPath j) ≫= fun b =>
  mret match a, b with
  | inr a, inr b =>
      if desired then String.eqb (digest_of a) (jFragmentOutputSHA256 j)
                      && String.eqb (digest_of b) (jSidecarOutputSHA256 j)
      else Bool.eqb (bool_decide (is_Some a)) (jFragmentHadOld j)
           && Bool.eqb (bool_decide (is_Some b)) (jSidecarHadOld j)
           && String.eqb (digest_of a) (jFragmentOld j) && String.eqb (digest_of b) (jSidecarOld j)
  | _, _ => false
  end.

(** ** Restoring the old pair *)

Definition restoreFile (dst backup : string) (had : bool) (want : string) : L E (string + unit) :=
  if had then
    data ←? readValidatedFile backup true;
    match data with
    | None => fail "required linechain backup is missing"
    | Some data => if negb (String.eqb (digest data) want) then fail "backup digest mismatch"
                   else publish dst (Some data)
    end
  else publish dst None.

(** [restoreOld] returns the journal with its phase. *)
Definition restoreOld (path : string) (j : journal) : L E (string + journal) :=
  restoreFile (jFragmentPath j) (fragmentBackup path) (jFragmentHadOld j) (jFragmentOld j) ;;?
  restoreFile (jSidecarPath j) (sidecarBackup path) (jSidecarHadOld j) (jSidecarOld j) ;;?
  pairMatches j false ≫= fun same : bool =>
  if negb same then fail "restored pair digest mismatch"
  else
    let j := j <| jPhase := OldRestored |> in
    writeJournal path j ;;? ok j.

Definition rollback (path : string) (j : journal) (cause : string) : L E (string + unit) :=
  restoreOld path j ;;? checkRestartVerify ;;? fail cause.

(** ** Validation *)

Definition backup_matches (p : string) (had : bool) (want : string) : L E (string + unit) :=
  data ←? readValidatedFile p true;
  if Bool.eqb (bool_decide (is_Some data)) had && match data with Some d => String.eqb (digest d) want | None => true end
  then ok tt else fail "linechain journal backup shape does not match authority".

Definition sha_shape (had : bool) (sha : string) : bool := if had then validSHA sha else String.eqb sha "".

(** The checks of [validateJournal] on the journal itself. *)
Definition journal_shape (path : string) (j : journal) : bool :=
  Configured
  && String.eqb (path_clean path) (journalPath (jTaskID j) (jLeaseID j))
  && String.eqb (path_clean (jFragmentPath j)) (path_join (configDir m) (path_base (jFragmentPath j)))
  && linechainBasename (path_base (jFragmentPath j))
  && String.eqb (path_clean (jSidecarPath j)) (sidecarPath m)
  && match jPhase j with PhaseUnknown _ => false | _ => true end
  && Bool.eqb (journalTerminal (jPhase j)) (bool_decide (is_Some (jResult j)))
  && match jResult j with
     | None => true
     | Some r => String.eqb (rTaskID r) (jTaskID j) && String.eqb (rLeaseID r) (jLeaseID j)
                 && negb (is_zero_time (rFinishedAt r))
     end
  && sha_shape (jFragmentHadOld j) (jFragmentOld j) && sha_shape (jSidecarHadOld j) (jSidecarOld j)
  && (String.eqb (jFragmentOutputSHA256 j) "" || validSHA (jFragmentOutputSHA256 j))
  && validSHA (jSidecarOutputSHA256 j) && validSHA (jSidecarPatchSHA256 j) && validSHA (jArtifactSHA256 j)
  && validSHA (jTaskScriptSHA j).

Definition validateJournal (path : string) (j : journal) : L E (string + unit) :=
  if negb (journal_shape path j) then fail "linechain journal is invalid"
  else if journalTerminal (jPhase j) then ok tt
  else
    backup_matches (fragmentBackup path) (jFragmentHadOld j) (jFragmentOld j) ;;?
    backup_matches (sidecarBackup path) (jSidecarHadOld j) (jSidecarOld j).

Definition binding_of (w : wireDocumentV2) : semanticArtifactBindingV2 :=
  mkBinding semanticArtifactSchema (wOperation w) (wFragmentBasename w) (wPreviousFragmentSHA256 w)
    (wFragmentSHA256 w) (wSidecarPatchSHA256 w).

(** The operation and the shapes it calls for. *)
Definition operation_shape (w : wireDocumentV2) (p : SidecarPatchV2) : bool :=
  let prev := bool_decide (is_Some (wPreviousFragmentSHA256 w)) in
  let frag := bool_decide (is_Some (wFragment w)) in
  let sha := bool_decide (is_Some (wFragmentSHA256 w)) in
  let expected := bool_decide (is_Some (ExpectedDownstreamLineUUID p)) in
  let desired := bool_decide (is_Some (DesiredDownstreamLineUUID p)) in
  if String.eqb (wOperation w) "create" then negb prev && frag && sha && desired
  else if String.eqb (wOperation w) "replace" then prev && frag && sha && expected && desired
  else if String.eqb (wOperation w) "remove" then prev && negb frag && negb sha && expected && negb desired
  else false.

(** The checks of [validateDocument] before it looks at the directories. *)
Definition document_shape (d : Document) : bool :=
  let w := dWire d in
  (wVersion w =? 2)%Z && String.eqb (wDurableProtocol w) "linechain-e3-v2"
  && negb (String.eqb (wFragmentBasename w) "") && operation_shape w (dSidecarPatch d)
  && verifySemanticArtifactBinding (wFragment w) (dSidecarPatchCanonical d) (binding_of w) (wArtifactSHA256 w)
  && Configured && String.eqb (path_clean (dConfigDir d)) (configDir m)
  && path_abs (path_clean (dConfigDir d)) && negb (String.eqb (path_clean (dConfigDir d)) "/")
  && forallb (fun p => path_abs p && negb (String.eqb (path_clean p) "/") && negb (contains (path_clean p) ".."))
       [dFragmentPath d; dSidecarPath d]
  && negb (String.eqb (path_clean (dFragmentPath d)) (path_clean (dSidecarPath d)))
  && String.eqb (path_dir (path_clean (dFragmentPath d))) (path_clean (dConfigDir d))
  && linechainBasename (path_base (dFragmentPath d))
  && String.eqb (path_clean (dSidecarPath d)) (sidecarPath m).

Definition validateDocument (d : Document) : L E (string + unit) :=
  if negb (document_shape d) then fail "linechain document is invalid"
  else
    validateParents (dFragmentPath d) ;;? validateParents (dSidecarPath d) ;;?
    if sha_or_absent (wPreviousFragmentSHA256 (dWire d)) && sha_or_absent (wFragmentSHA256 (dWire d))
    then ok tt else fail "previous artifact digest is invalid".

(** ** Cleaning up *)
Fixpoint remove_all (paths : list string) : L E (string + unit) :=
  match paths with
  | [] => ok tt
  | p :: rest => remove_file p ;;? remove_all rest
  end.

Definition Cleanup (taskID leaseID : string) : L E (string + unit) :=
  let path := journalPath taskID leaseID in
  remove_all [fragmentBackup path; sidecarBackup path; path] ;;? syncDir (mDir m).

(** ** Recovery *)

Record RecoveryAuthority := mkAuthority {
  aTaskScriptSHA : string;
  aArtifactSHA256 : string;
  aPhase : phase;
  aResultSHA256 : string;
  aJournalSHA256 : string
}.

Definition authorized (a : RecoveryAuthority) (j : journal) : bool :=
  String.eqb (journalSHA j) (aJournalSHA256 a) && String.eqb (jTaskScriptSHA j) (aTaskScriptSHA a)
  && String.eqb (jArtifactSHA256 j) (aArtifactSHA256 a) && bool_decide (jPhase j = aPhase a)
  && String.eqb (resultSHA (jResult j)) (aResultSHA256 a).

Definition interrupted : string := "linechain transaction interrupted; exact old pair restored".
Definition recovered_failed : string :=
  "recovered desired runtime verification failed; exact old pair restored and verified".

(** The result for a journal that has none: [result] is the one for the old
    pair after an interruption. *)
Definition settle (path : string) (j : journal) (result : TaskResult) : L E (string + journal) :=
  (if bool_decide (jPhase j = DesiredVerified) then pairMatches j true else (mret false : L E bool)) ≫= fun same : bool =>
  r ←? (if same then
          checkRestartVerify ≫= fun v : string + unit =>
          match v with
          | inr _ => ok (j <| jPhase := TerminalDesired |>, result <| rExitCode := 0%Z |> <| rError := "" |>)
          | inl _ =>
              j ←? restoreOld path j; checkRestartVerify ;;?
              ok (j <| jPhase := TerminalOld |>, result <| rError := recovered_failed |>)
          end
        else
          j ←? restoreOld path j; checkRestartVerify ;;?
          ok (j <| jPhase := TerminalOld |>, result));
  let j := r.1 <| jResult := Some r.2 |> in
  writeJournal path j ;;? ok j.

(** [complete] says whether the caller takes the result. *)
Definition recoverOne (path : string) (complete : bool) (nodeID expectedScriptSHA : string)
    (expected : option RecoveryAuthority) : L E (string + unit) :=
  j ←? need_journal path;
  validateJournal path j ;;?
  if negb (String.eqb expectedScriptSHA "") && negb (String.eqb (jTaskScriptSHA j) expectedScriptSHA)
  then fail "linechain retry task script does not match journal authority"
  else if negb (from_option (fun a => authorized a j) true expected)
  then fail "linechain journal changed after authority capture"
  else
    j ←? match jResult j with
         | Some _ => ok j
         | None =>
             lnow ≫= fun now =>
             settle path j (mkResult (jTaskID j) (jLeaseID j) nodeID (-1) "" "" interrupted 0 now)
         end;
    if complete then
      match jResult j with
      | None => fail "no result"
      | Some result =>
          lgets id ≫= fun w => lemit (EvCompleted result (cur w) (past w)) ≫= fun _ =>
          lsys (LComplete result) ;;? Cleanup (jTaskID j) (jLeaseID j)
      end
    else ok tt.

(** The journal files of the directory, in name order. *)
Definition journal_names (files : gmap string inode) : list string :=
  insertion_sort String.leb (map fst (filter (fun x =>
    path_dir x.1 = mDir m /\ x.2 <> Directory /\ has_suffix x.1 ".json" = true) (map_to_list files))).

Fixpoint recover_each (paths : list string) (nodeID : string)
    (authority : option (gmap string RecoveryAuthority)) : L E (string + unit) :=
  match paths with
  | [] => ok tt
  | path :: rest =>
      expected ←? match authority with
                  | None => ok None
                  | Some known =>
                      j ←? need_journal path;
                      match known !! (jTaskID j +:+ String (byte_of 0) (jLeaseID j)) with
                      | None => fail "linechain recovery journal is outside captured authority"
                      | Some a => ok (Some a)
                      end
                  end;
      recoverOne path true nodeID "" expected ;;? recover_each rest nodeID authority
  end.

Definition RequireRecoveredAuthorized (nodeID : string) (authority : option (gmap string RecoveryAuthority))
    : L E (string + unit) :=
  lsys (LReadDir (mDir m)) ;;? lgets cur ≫= fun files => recover_each (journal_names files) nodeID authority.

Definition RequireRecovered (nodeID : string) : L E (string + unit) := RequireRecoveredAuthorized nodeID None.

(** [Snapshot]: the identities of the journals. *)
Record JournalRef := mkRef {
  fTaskID : string;
  fLeaseID : string;
  fPhase : phase;
  fResult : option TaskResult;
  fTerminal : bool;
  fTaskScriptSHA : string;
  fArtifactSHA256 : string;
  fJournalSHA256 : string
}.

Fixpoint snapshot_each (paths : list string) (seen : gset string) (refs : list JournalRef)
    : L E (string + list JournalRef) :=
  match paths with
  | [] => ok refs
  | path :: rest =>
      if (1024 <=? length refs)%nat then fail "linechain journal capacity exceeded"
      else
        j ←? need_journal path;
        let key := jTaskID j +:+ String (byte_of 0) (jLeaseID j) in
        if bool_decide (key ∈ seen) then fail "duplicate linechain journal identity"
        else if negb (String.eqb (path_base path) (path_base (journalPath (jTaskID j) (jLeaseID j))))
        then fail "linechain journal filename does not match task and lease"
        else
          validateJournal path j ;;?
          snapshot_each rest ({[key]} ∪ seen)
            (refs ++ [mkRef (jTaskID j) (jLeaseID j) (jPhase j) (jResult j) (journalTerminal (jPhase j))
                        (jTaskScriptSHA j) (jArtifactSHA256 j) (journalSHA j)])
  end.

Definition Snapshot : L E (string + list JournalRef) :=
  lsys (LReadDir (mDir m)) ;;? lgets cur ≫= fun files => snapshot_each (journal_names files) ∅ [].

(** ** The outcome of the helper's run *)

Definition verification_failed : string :=
  "desired linechain runtime verification failed after helper return; exact old pair restored and verified".
Definition helper_failed : string :=
  "linechain helper did not leave a verified desired pair; exact old pair restored".

Definition succeeded (r : TaskResult) : bool := (rExitCode r =? 0)%Z && String.eqb (rError r) "".

Definition with_finish (r : TaskResult) : L E TaskResult :=
  if is_zero_time (rFinishedAt r) then lnow ≫= fun now => mret (r <| rFinishedAt := now |>) else mret r.

Definition ResolveAfterRun (task : Task) (result : TaskResult) : L E (string + TaskResult) :=
  let path := journalPath (tID task) (tLeaseID task) in
  r ←? readJournal path;
  match r with
  | None => if succeeded result then fail "no such file or directory" else with_finish result ≫= fun result => ok result
  | Some j =>
      match jResult j with
      | Some r => ok r
      | None =>
          with_finish result ≫= fun result =>
          r ←? (if succeeded result && bool_decide (jPhase j = DesiredVerified) then
                  pairMatches j true ≫= fun same : bool =>
                  if negb same then fail "desired linechain pair is not exact"
                  else
                    checkRestartVerify ≫= fun v : string + unit =>
                    match v with
                    | inr _ => ok (j <| jPhase := TerminalDesired |>, result)
                    | inl _ =>
                        j ←? restoreOld path j; checkRestartVerify ;;?
                        ok (j <| jPhase := TerminalOld |>,
                            result <| rExitCode := (-1)%Z |> <| rError := verification_failed |>)
                    end
                else
                  j ←? restoreOld path j; checkRestartVerify ;;?
                  ok (j <| jPhase := TerminalOld |>,
                      result <| rExitCode ::= fun c => if (c =? 0)%Z then (-1)%Z else c |>
                             <| rError ::= fun e => if String.eqb e "" then helper_failed else e |>));
          writeJournal path (r.1 <| jResult := Some r.2 |>) ;;? ok r.2
      end
  end.

(** ** Applying a document *)

Definition wire_fields : list string :=
  ["version"; "durable_protocol"; "operation"; "fragment_basename"; "fragment"; "sidecar_patch";
   "previous_fragment_sha256"; "fragment_sha256"; "sidecar_patch_sha256"; "artifact_sha256"].

(** The document an input text stands for. *)
Definition parseDocument (raw : string) : option Document :=
  if (maxDocumentSize <? Z.of_nat (String.length raw))%Z then None
  else
    wire ← wire_decode raw;
    if negb (wVersion wire =? 2)%Z || negb (String.eqb (wDurableProtocol wire) "linechain-e3-v2") then None
    else
      fields ← decodeUniqueJSONObject raw;
      if negb (has_all wire_fields fields) then None
      else if negb (String.eqb (path_base (wFragmentBasename wire)) (wFragmentBasename wire))
              || negb (linechainBasename (wFragmentBasename wire)) then None
      else
        '(patch, canonical) ← fields !! "sidecar_patch" ≫= canonicalSemanticSidecarPatch;
        if negb (verifySemanticArtifactBinding (wFragment wire) canonical (binding_of wire) (wArtifactSHA256 wire))
        then None
        else Some (mkDocument wire (configDir m) (path_join (configDir m) (wFragmentBasename wire)) (sidecarPath m)
                     patch canonical).

(** The journal [Apply] starts with. *)
Definition first_journal (taskID leaseID script : string) (d : Document) (fragmentOld sidecarOld : option string)
    (merged : string) : journal :=
  mkJournal journalVersion taskID leaseID (dFragmentPath d) (dSidecarPath d) (digest_of fragmentOld)
    (digest_of sidecarOld) (wArtifactSHA256 (dWire d)) (wSidecarPatchSHA256 (dWire d))
    (digestPtr (wFragment (dWire d))) (digest merged) script
    (bool_decide (is_Some fragmentOld)) (bool_decide (is_Some sidecarOld)) Prepared None.

(** From the read old pair on. *)
Definition replace_pair (path : string) (j : journal) (fragmentOld sidecarOld fragment : option string)
    (merged : string) : L E (string + unit) :=
  writeBackup (fragmentBackup path) fragmentOld ;;?
  writeBackup (sidecarBackup path) sidecarOld ;;?
  writeJournal path j ;;?
  publish (jFragmentPath j) fragment ≫= fun p =>
  match p with
  | inl err => rollback path j ("publish fragment: " +:+ err)
  | inr _ =>
      let j := j <| jPhase := FragmentPublished |> in
      writeJournal path j ;;?
      publish (jSidecarPath j) (Some merged) ≫= fun p =>
      match p with
      | inl err => rollback path j ("publish sidecar: " +:+ err)
      | inr _ =>
          let j := j <| jPhase := PairPublished |> in
          writeJournal path j ;;?
          checkRestartVerify ≫= fun v : string + unit =>
          match v with
          | inl err => rollback path j err
          | inr _ => writeJournal path (j <| jPhase := DesiredVerified |>)
          end
      end
  end.

Definition Apply (raw taskID leaseID taskScriptSHA : string) : L E (string + unit) :=
  let script := trim_space taskScriptSHA in
  if String.eqb (trim_space taskID) "" || String.eqb (trim_space leaseID) ""
  then fail "task and lease identity are required"
  else if negb (validSHA script) then fail "linechain task script binding is required"
  else match parseDocument raw with
  | None => fail "linechain document is invalid"
  | Some d =>
      validateDocument d ;;?
      let path := journalPath taskID leaseID in
      lsys (LLstat path) ;;?
      lgets (fun w => cur w !! path) ≫= fun v =>
      match v with
      | Some _ => recoverOne path false "" script None
      | None =>
          fragmentOld ←? readCurrent (dFragmentPath d);
          sidecarOld ←? readCurrent (dSidecarPath d);
          if negb (requirePrevious fragmentOld (default "" (wPreviousFragmentSHA256 (dWire d))))
          then fail "fragment artifact does not match previous digest"
          else match sidecarOld with
          | None => fail "current semantic sidecar is required"
          | Some old =>
              match mergeManagedSidecar old (dSidecarPatch d) with
              | None => fail "the current semantic sidecar cannot be merged"
              | Some merged =>
                  replace_pair path (first_journal taskID leaseID script d fragmentOld sidecarOld merged)
                    fragmentOld sidecarOld (wFragment (dWire d)) merged
              end
          end
      end
  end.
End Chain.
End Chain.
