(* ===== verification/LineMerge.v ===== *)
(** * What merging the sidecar changes (internal/linechain/sidecar_patch.go) *)
From S2P Require Import Prelude GoStrings GoPath SDK TaskOutbox LineFs LineChain.

Local Open Scope string_scope.

(** encoding/json on raw messages: what was marshalled is read back with every
    raw value compacted, and what was marshalled is compact. *)
Class LineObjectLaws `{LineJson} := {
  jcompact : string -> string;
  object_round : forall o out, enc_object o = Some out ->
    jcompact out = out /\ decodeUniqueJSONObject out = Some (jcompact <$> o) /\
    decodeUniqueJSONObject (out +:+ newline) = Some (jcompact <$> o);
  array_round : forall l out, enc_array l = Some out ->
    jcompact out = out /\ json_array out = Some (Some (jcompact <$> l));
  chain_round : forall u out, enc_chain u = Some out -> jcompact out = out
}.

Section Merge.
Context `{OL : LineObjectLaws}.

(** The inbound is the one the patch names. *)
Definition named (patch : SidecarPatchV2) (raw : string) : Prop :=
  semanticInboundIdentity raw = Some (SourceLineUUID patch, SourceInboundTag patch).
(** It shares an identifier with the patch. *)
Definition touched (patch : SidecarPatchV2) (raw : string) : Prop :=
  exists uuid tag, semanticInboundIdentity raw = Some (uuid, tag) /\
    (uuid = SourceLineUUID patch \/ tag = SourceInboundTag patch).

(** The scan finds the only inbound that shares an identifier with the patch. *)
Lemma scan_spec patch l : forall i found us ts i',
  scan_inbounds patch i found us ts l = Some (Some i') ->
  found = Some i' /\ (forall raw, raw ∈ l -> ~ touched patch raw) \/
  found = None /\ exists k raw, i' = (i + k)%nat /\ l !! k = Some raw /\ named patch raw /\
    forall k' raw', l !! k' = Some raw' -> touched patch raw' -> k' = k.
Proof.
  induction l as [|raw l IH]; intros i found us ts i' Hs; simpl in Hs.
  { injection Hs as ->. left. split; [done|]. intros raw Hr. by apply elem_of_nil in Hr. }
  destruct (semanticInboundIdentity raw) as [[uuid tag]|] eqn:Hid; [|done]. simpl in Hs.
  destruct (_ || _); [done|].
  destruct (String.eqb_spec uuid (SourceLineUUID patch)) as [Hu|Hu],
    (String.eqb_spec tag (SourceInboundTag patch)) as [Ht|Ht]; simpl in Hs; try done.
  - case_bool_decide as Hf; [done|]. apply IH in Hs as [[[= <-] Hno]|[[=] _]]. right.
    assert (found = None) as -> by (destruct found; [by destruct Hf|done]). split; [done|]. exists 0%nat, raw.
    split; [lia|]. split; [done|]. split; [unfold named; congruence|].
    intros [|k'] raw' Hk Htouch; [done|]. exfalso. apply (Hno raw'); [|done]. by eapply list_elem_of_lookup_2.
  - assert (Hnt : ~ touched patch raw) by (intros (u & t & Hid' & Hor); rewrite Hid in Hid'; injection Hid' as <- <-; by destruct Hor).
    apply IH in Hs as [[-> Hno]|[-> (k & r & -> & Hl & Hn & Hun)]].
    + left. split; [done|]. intros r Hr. apply elem_of_cons in Hr as [->|Hr]; auto.
    + right. split; [done|]. exists (S k), r. split; [lia|]. split; [done|]. split; [done|].
      intros [|k'] r' Hk Htouch; simpl in Hk; [by injection Hk as ->|]. f_equal. by eapply Hun.
Qed.

(** A merge finds the one inbound the patch names, and only if its chain points
    where the patch expects; it replaces that inbound's chain and nothing else:
    every other field of the inbound, every other inbound and every other field
    of the sidecar is read back as it was. *)
Theorem merge_changes_one_chain current patch out :
  mergeManagedSidecar current patch = Some out ->
  exists (top : gmap string string) (inbounds : list string) (i : nat) (raw : string) (inbound : gmap string string),
    decodeJSONObject current = Some top /\ top !! "inbounds" ≫= json_array = Some (Some inbounds) /\
    inbounds !! i = Some raw /\ named patch raw /\
    (forall k r, inbounds !! k = Some r -> touched patch r -> k = i) /\
    decodeJSONObject raw = Some inbound /\
    currentDownstreamIdentity inbound = Some (ExpectedDownstreamLineUUID patch) /\
    exists (top' : gmap string string) (inbounds' : list string) (raw' : string) (inbound' : gmap string string),
      decodeUniqueJSONObject out = Some top' /\ delete "inbounds" top' = jcompact <$> delete "inbounds" top /\
      top' !! "inbounds" ≫= json_array = Some (Some inbounds') /\
      inbounds' = <[i := raw']> (jcompact <$> inbounds) /\
      decodeUniqueJSONObject raw' = Some inbound' /\
      delete "chain" inbound' = jcompact <$> delete "chain" inbound /\
      inbound' !! "chain" = DesiredDownstreamLineUUID patch ≫= enc_chain.
Proof.
  unfold mergeManagedSidecar. intros Hm. destruct (decodeJSONObject current) as [top|] eqn:Etop; [|done]. simpl in Hm.
  destruct (validateSemanticSidecarTop top) eqn:Ev; [|done]. simpl in Hm.
  apply andb_true_iff in Ev as [_ Ev].
  destruct (top !! "inbounds" ≫= json_array) as [[inbounds|]|] eqn:Ein; [|done|done]. clear Ev. simpl in Hm.
  destruct (scan_inbounds patch 0 None ∅ ∅ inbounds) as [[i|]|] eqn:Es; [|done|done]. simpl in Hm.
  apply scan_spec in Es as [[[=] _]|[_ (k & raw & -> & Hl & Hn & Hun)]]. simpl in Hm. rewrite Hl in Hm. simpl in Hm.
  destruct (decodeJSONObject raw) as [inbound|] eqn:Eraw; [|done]. simpl in Hm.
  destruct (currentDownstreamIdentity inbound) as [down|] eqn:Ed; [|done]. simpl in Hm.
  unfold nullableStringEqual in Hm. case_bool_decide as Hdown; [|done]. simpl in Hm. subst down.
  destruct (patched_inbound patch inbound) as [patched|] eqn:Ep; [|done]. simpl in Hm.
  destruct (enc_object patched) as [raw'|] eqn:Ee; [|done]. simpl in Hm.
  destruct (enc_array (<[k:=raw']> inbounds)) as [arr|] eqn:Ea; [|done]. simpl in Hm.
  destruct (enc_object (<["inbounds":=arr]> top)) as [o|] eqn:Eo; [|done]. simpl in Hm. injection Hm as <-.
  destruct (object_round _ _ Ee) as (Hc1 & Hr1 & _). destruct (array_round _ _ Ea) as (Hc2 & Hr2).
  destruct (object_round _ _ Eo) as (_ & _ & Hr3).
  exists top, inbounds, k, raw, inbound. do 6 (split; [done|]). split; [done|].
  exists (jcompact <$> <["inbounds":=arr]> top), (<[k:=raw']> (jcompact <$> inbounds)), raw', (jcompact <$> patched).
  split; [done|]. split; [|split; [|split; [done|split; [done|]]]].
  - by rewrite <-fmap_delete, delete_insert_eq.
  - rewrite lookup_fmap, lookup_insert_eq. simpl. rewrite Hc2, Hr2. do 2 f_equal. by rewrite list_fmap_insert, Hc1.
  - revert Ep. unfold patched_inbound. destruct (DesiredDownstreamLineUUID patch) as [u|]; simpl.
    + destruct (enc_chain u) as [c|] eqn:Ec; [|done]. simpl. intros [= <-].
      rewrite <-fmap_delete, delete_insert_eq. split; [done|]. rewrite lookup_fmap, lookup_insert_eq. simpl.
      by rewrite (chain_round _ _ Ec).
    + intros [= <-]. rewrite <-fmap_delete, delete_delete_eq. split; [done|].
      by rewrite lookup_fmap, lookup_delete_eq.
Qed.
End Merge.
