(* ===== verification/LineChainInv.v ===== *)
(** * The invariant of a line-chain transaction

    One transaction replaces the pair (old fragment, old sidecar) by the pair
    (desired fragment, desired sidecar).  [Inv] says what the files of the
    transaction may hold, now and after a crash, between any two steps of the
    manager; every operation of the manager keeps it. *)
From S2P Require Import Prelude GoStrings GoPath SDK TaskOutbox LineFs LineChain.

Import Chain.

(** What the transaction code relies on of encoding/json and crypto/sha256: a
    journal of valid texts is read back as it was written, its result as JSON
    renders it; a result keeps its exit code, its identity, whether it has an
    error and whether it has an end. *)
Class LineJsonLaws `{LineJson} := {
  ltext : string -> Prop;
  lwire : TaskResult -> TaskResult;
  journal_round : forall j b,
    Forall ltext [jTaskID j; jLeaseID j; jFragmentPath j; jSidecarPath j; jFragmentOld j; jSidecarOld j;
      jArtifactSHA256 j; jSidecarPatchSHA256 j; jFragmentOutputSHA256 j; jSidecarOutputSHA256 j; jTaskScriptSHA j] ->
    (forall t, jPhase j <> PhaseUnknown t) ->
    journal_encode j = Some b -> journal_decode b = Some (j <| jResult ::= fmap lwire |>);
  lwire_exit : forall r, rExitCode (lwire r) = rExitCode r;
  lwire_error : forall r, rError (lwire r) = ""%string <-> rError r = ""%string;
  lwire_ids : forall r, ltext (rTaskID r) -> ltext (rLeaseID r) ->
    rTaskID (lwire r) = rTaskID r /\ rLeaseID (lwire r) = rLeaseID r;
  lwire_finished : forall r, is_zero_time (rFinishedAt (lwire r)) = is_zero_time (rFinishedAt r);
  sha_valid : forall s, validSHA (lsha256 s) = true
}.

(** The clock does not show the year one. *)
Class LineOsLaws (E : Type) `{LineOs E} := { lclock_set : forall e, is_zero_time (lclock e).1 = false }.

(** A transaction: its identity, its document, the pair it found and the
    sidecar it computed. *)
Record transaction := mkTx {
  xTask : string;
  xLease : string;
  xScript : string;
  xDocument : Document;
  oldFragment : option string;
  oldSidecar : string;
  newSidecar : string
}.

Definition newFragment (x : transaction) : option string := wFragment (dWire (xDocument x)).

(** The name holds a file with these data, or no file. *)
Definition hold (data : option string) (v : option inode) : Prop :=
  match data with None => v = None | Some s => exists perm, v = Some (Reg perm true s) end.

Lemma hold_inj a b v : hold a v -> hold b v -> a = b.
Proof. destruct a, b; simpl; [|naive_solver..]. intros [? ->] [? [=]]. congruence. Qed.

Definition file_of (data : option string) : option inode := Reg 384 true <$> data.
Lemma hold_file data : hold data (file_of data).
Proof. destruct data; simpl; eauto. Qed.

Section Tx.
Context `{JL : LineJsonLaws} {E : Type} `{OL : LineOsLaws E} (m : Manager) (x : transaction).
Implicit Types (w : lworld E) (j : journal).

Definition jp : string := journalPath m (xTask x) (xLease x).
Definition bf : string := fragmentBackup jp.
Definition bs : string := sidecarBackup jp.
Definition fp : string := dFragmentPath (xDocument x).
Definition sp : string := dSidecarPath (xDocument x).

(** The journal of the transaction, before its phase and its result. *)
Definition base : journal :=
  first_journal (xTask x) (xLease x) (xScript x) (xDocument x) (oldFragment x) (Some (oldSidecar x)) (newSidecar x).

(** The results of the task, and those a phase goes with. *)
Definition sound (r : TaskResult) : Prop :=
  rTaskID r = xTask x /\ rLeaseID r = xLease x /\ is_zero_time (rFinishedAt r) = false.
Definition fits (p : phase) (r : option TaskResult) : Prop :=
  match p, r with
  | TerminalDesired, Some r => succeeded r = true /\ sound r
  | TerminalOld, Some r => succeeded r = false /\ sound r
  | (Prepared | FragmentPublished | PairPublished | DesiredVerified | OldRestored), None => True
  | _, _ => False
  end.
Definition ours j : Prop := j = base <| jPhase := jPhase j |> <| jResult := jResult j |> /\ fits (jPhase j) (jResult j).

(** The name holds this journal. *)
Definition shows j (v : option inode) : Prop := exists perm b, v = Some (Reg perm true b) /\ journal_decode b = Some j.

Definition recorded j (v : option inode) : Prop := exists b, v = Some (Reg 384 true b) /\ journal_decode b = Some j.

(** Whatever happens, the name holds these data. *)
Definition sure p (data : option string) w : Prop := forall v, v ∈ possible w p -> hold data v.
Definition pair_sure (desired : bool) w : Prop :=
  if desired then sure fp (newFragment x) w /\ sure sp (Some (newSidecar x)) w
  else sure fp (oldFragment x) w /\ sure sp (Some (oldSidecar x)) w.

(** The files are this pair. *)
Definition pair_in (desired : bool) (files : gmap string inode) : Prop :=
  if desired then hold (newFragment x) (files !! fp) /\ hold (Some (newSidecar x)) (files !! sp)
  else hold (oldFragment x) (files !! fp) /\ hold (Some (oldSidecar x)) (files !! sp).
Definition verified (desired : bool) w : Prop :=
  exists files, EvVerified files ∈ llog w /\ pair_in desired files.

(** Every result handed over was right: a crash right then would have left the
    pair it speaks of. *)
Definition told w : Prop := forall r files unsynced, EvCompleted r files unsynced ∈ llog w ->
  forall v, (v ∈ held files unsynced fp -> hold (if succeeded r then newFragment x else oldFragment x) v) /\
    (v ∈ held files unsynced sp -> hold (Some (if succeeded r then newSidecar x else oldSidecar x)) v).

Definition unfinished w : Prop := forall v j, v ∈ possible w jp -> shows j v -> journalTerminal (jPhase j) = false.
Definition backed w : Prop := durable bf (file_of (oldFragment x)) w /\ durable bs (file_of (Some (oldSidecar x))) w.

Record Inv w : Prop := {
  i_fragment : forall v, v ∈ possible w fp -> hold (oldFragment x) v \/ hold (newFragment x) v;
  i_sidecar : forall v, v ∈ possible w sp -> hold (Some (oldSidecar x)) v \/ hold (Some (newSidecar x)) v;
  i_journal : forall v, v ∈ possible w jp -> v = None \/ exists j, recorded j v /\ ours j;
  i_backup : forall v, v ∈ possible w bf -> v = None \/ v = file_of (oldFragment x);
  i_backup' : forall v, v ∈ possible w bs -> v = None \/ v = file_of (Some (oldSidecar x));
  i_before : None ∈ possible w jp -> pair_sure false w;
  i_backed : forall v, v ∈ possible w jp -> v <> None -> backed w;
  i_desired : forall v j, v ∈ possible w jp -> shows j v -> jPhase j = TerminalDesired ->
    pair_sure true w /\ verified true w;
  i_old : forall v j, v ∈ possible w jp -> shows j v -> jPhase j = TerminalOld ->
    pair_sure false w /\ verified false w;
  i_verified : forall v j, v ∈ possible w jp -> shows j v -> jPhase j = DesiredVerified ->
    pair_in true (cur w) -> pair_sure true w;
  i_absent : cur w !! jp = None -> durable jp None w;
  i_unfinished : forall j, shows j (cur w !! jp) -> journalTerminal (jPhase j) = false -> unfinished w;
  i_told : told w
}.

(** ** Facts that survive *)
Lemma shows_inj j j' v : shows j v -> shows j' v -> j = j'.
Proof. intros (p & b & -> & H1) (p' & b' & [= -> ->] & H2). congruence. Qed.

Lemma recorded_shows j v : recorded j v -> shows j v.
Proof. intros (b & -> & Hb). by exists 384%Z, b. Qed.

Lemma durable_shrink p v : shrinking (durable (E := E) p v).
Proof. intros w w' (_ & _ & Hs) Hd y Hy. by apply Hd, Hs. Qed.
Lemma sure_shrink p data : shrinking (sure p data).
Proof. intros w w' (_ & _ & Hs) Hd v Hv. by apply Hd, Hs. Qed.
Lemma pair_sure_shrink b : shrinking (pair_sure b).
Proof. intros w w' Hs. destruct b; intros [H1 H2]; split; by eapply sure_shrink. Qed.
Lemma verified_shrink b : shrinking (verified b).
Proof. intros w w' Hs (files & Hf & Hp). exists files. split; [by eapply shrink_log|done]. Qed.
Lemma told_shrink : shrinking told.
Proof. intros w w' Hs Ht r files unsynced He. by eapply Ht, shrink_completed. Qed.
Lemma unfinished_shrink : shrinking unfinished.
Proof. intros w w' (_ & _ & Hs) Hu v j Hv. by apply Hu, Hs. Qed.
Lemma backed_shrink : shrinking backed.
Proof. intros w w' Hs [H1 H2]. split; by eapply durable_shrink. Qed.

Lemma Inv_shrink : shrinking Inv.
Proof.
  intros w w' Hs HI. assert (Hq : forall p v, v ∈ possible w' p -> v ∈ possible w p) by apply Hs.
  assert (Hc : cur w' = cur w) by apply Hs. destruct HI. split; intros.
  - auto.
  - auto.
  - auto.
  - auto.
  - auto.
  - eapply pair_sure_shrink; eauto.
  - eapply backed_shrink; eauto.
  - edestruct i_desired0 as [? ?]; eauto.
    split; [by eapply pair_sure_shrink|by eapply verified_shrink].
  - edestruct i_old0 as [? ?]; eauto.
    split; [by eapply pair_sure_shrink|by eapply verified_shrink].
  - rewrite Hc in *. eapply pair_sure_shrink; eauto.
  - rewrite Hc in *. intros v Hv. by apply i_absent0, Hq.
  - rewrite Hc in *. eapply unfinished_shrink; eauto.
  - by eapply told_shrink.
Qed.

(** ** Changing a name *)

(** The names of the transaction are five, and its contents have five digests. *)
Class TxLaws := {
  tx_paths : NoDup [jp; bf; bs; fp; sp];
  tx_text : Forall ltext [xTask x; xLease x; fp; sp; digest_of (oldFragment x); digest (oldSidecar x);
    wArtifactSHA256 (dWire (xDocument x)); wSidecarPatchSHA256 (dWire (xDocument x)); digestPtr (newFragment x);
    digest (newSidecar x); xScript x];
  tx_digests : forall a b, a ∈ [oldFragment x; newFragment x; Some (oldSidecar x); Some (newSidecar x)] ->
    b ∈ [oldFragment x; newFragment x; Some (oldSidecar x); Some (newSidecar x)] -> digestPtr a = digestPtr b -> a = b
}.
Context `{TL : !TxLaws}.

Lemma tx_names : jp <> bf /\ jp <> bs /\ jp <> fp /\ jp <> sp /\ bf <> bs /\ bf <> fp /\ bf <> sp /\ bs <> fp /\ bs <> sp /\ fp <> sp.
Proof.
  pose proof tx_paths as Hn. rewrite !NoDup_cons, !not_elem_of_cons in Hn. tauto.
Qed.

Lemma sure_other p data w q v : q <> p -> sure p data w -> sure p data (with_name q v w).
Proof. intros Hq Hs y. rewrite with_name_possible_ne by done. apply Hs. Qed.
Lemma sure_put p data w v : hold data v -> sure p data w -> sure p data (with_name p v w).
Proof. intros Hv Hs y. rewrite with_name_possible. intros [->|Hy]; auto. Qed.
Lemma sure_durable p data v w : hold data v -> durable p v w -> sure p data w.
Proof. intros Hv Hd y Hy. by rewrite (Hd y Hy). Qed.
Lemma sure_cur p data w : sure p data w -> hold data (cur w !! p).
Proof. intros Hs. apply Hs, possible_cur. Qed.

(** Reads of a name that is not the one changed. *)
Local Ltac names := pose proof tx_names; intuition congruence.
Local Ltac elsewhere :=
  repeat first
    [ rewrite with_name_possible_ne by names | rewrite with_name_ne by names | rewrite with_name_log
    | match goal with
      | H : context [possible (with_name ?p ?v ?w) ?q] |- _ => rewrite (with_name_possible_ne p v w q) in H by names
      | H : context [cur (with_name ?p ?v ?w) !! ?q] |- _ => rewrite (with_name_ne p v w q) in H by names
      end ].

Lemma verified_put b p v w : verified b w -> verified b (with_name p v w).
Proof. intros (files & Hf & Hp). exists files. by rewrite with_name_log. Qed.
Lemma told_put p v w : told w -> told (with_name p v w).
Proof. intros Ht r files unsynced. rewrite with_name_log. apply Ht. Qed.
Lemma unfinished_put p v w : p <> jp -> unfinished w -> unfinished (with_name p v w).
Proof. intros Hp Hu y j. rewrite with_name_possible_ne by done. apply Hu. Qed.
Lemma backed_put p v w : p <> bf -> p <> bs -> backed w -> backed (with_name p v w).
Proof. intros H1 H2 [H3 H4]. split; intros y; rewrite with_name_possible_ne by done; auto. Qed.
Lemma backed_holds w : backed w -> hold (oldFragment x) (cur w !! bf) /\ hold (Some (oldSidecar x)) (cur w !! bs).
Proof.
  intros [H1 H2]. rewrite (durable_cur _ _ _ H1), (durable_cur _ _ _ H2). split; [apply hold_file|apply (hold_file (Some _))].
Qed.

(** No journal may turn up that is not this early. *)
Definition early w : Prop :=
  forall v, v ∈ possible w jp -> exists j, shows j v /\ (jPhase j = Prepared \/ jPhase j = FragmentPublished).
Lemma early_shrink : shrinking early.
Proof. intros w w' (_ & _ & Hs) He v Hv. by apply He, Hs. Qed.
Lemma early_no_none w : early w -> None ∉ possible w jp.
Proof. intros He Hn. by destruct (He _ Hn) as (j & (perm & b & [=] & _) & _). Qed.
Lemma early_phase w v j : early w -> v ∈ possible w jp -> shows j v -> jPhase j = Prepared \/ jPhase j = FragmentPublished.
Proof. intros He Hv Hj. destruct (He v Hv) as (j' & Hj' & Hp). by rewrite (shows_inj _ _ _ Hj Hj'). Qed.

Lemma Inv_put_fragment w data v :
  Inv w -> unfinished w -> hold data v -> data = oldFragment x \/ data = newFragment x /\ early w ->
  Inv (with_name fp v w).
Proof.
  intros HI Hu Hv Hd. destruct HI. split.
  - intros y. rewrite with_name_possible. intros [->|Hy]; [|auto].
    destruct Hd as [->|[-> _]]; auto.
  - intros y. elsewhere. auto.
  - intros y. elsewhere. auto.
  - intros y. elsewhere. auto.
  - intros y. elsewhere. auto.
  - elsewhere. intros Hn. destruct Hd as [->|[-> He]]; [|by apply early_no_none in He].
    destruct (i_before0 Hn) as [H1 H2]. split; [by apply sure_put|apply sure_other; [names|done]].
  - intros y. elsewhere. intros Hy Hn. apply backed_put; [names..|]. eauto.
  - intros y j. elsewhere. intros Hy Hj Hp. specialize (Hu y j Hy Hj). by rewrite Hp in Hu.
  - intros y j. elsewhere. intros Hy Hj Hp. specialize (Hu y j Hy Hj). by rewrite Hp in Hu.
  - intros y j. elsewhere. intros Hy Hj Hp [H1 H2]. rewrite with_name_at in H1. elsewhere.
    destruct Hd as [->|[-> He]]; [|destruct (early_phase _ _ _ He Hy Hj); congruence].
    assert (Hsame := hold_inj _ _ _ Hv H1).
    assert (Hin : pair_in true (cur w)).
    { split; [|done]. rewrite <-Hsame. destruct (i_fragment0 _ (possible_cur fp w)); congruence. }
    destruct (i_verified0 y j Hy Hj Hp Hin) as [H3 H4].
    split; [by apply sure_put|apply sure_other; [names|done]].
  - elsewhere. intros Hn y. elsewhere. by apply i_absent0.
  - elsewhere. intros j Hj Ht. apply unfinished_put; [names|done].
  - by apply told_put.
Qed.

Lemma Inv_put_sidecar w data v :
  Inv w -> unfinished w -> hold (Some data) v -> data = oldSidecar x \/ data = newSidecar x /\ early w ->
  Inv (with_name sp v w).
Proof.
  intros HI Hu Hv Hd. destruct HI. split.
  - intros y. elsewhere. auto.
  - intros y. rewrite with_name_possible. intros [->|Hy]; [|auto].
    destruct Hd as [->|[-> _]]; auto.
  - intros y. elsewhere. auto.
  - intros y. elsewhere. auto.
  - intros y. elsewhere. auto.
  - elsewhere. intros Hn. destruct Hd as [->|[-> He]]; [|by apply early_no_none in He].
    destruct (i_before0 Hn) as [H1 H2]. split; [apply sure_other; [names|done]|by apply sure_put].
  - intros y. elsewhere. intros Hy Hn. apply backed_put; [names..|]. eauto.
  - intros y j. elsewhere. intros Hy Hj Hp. specialize (Hu y j Hy Hj). by rewrite Hp in Hu.
  - intros y j. elsewhere. intros Hy Hj Hp. specialize (Hu y j Hy Hj). by rewrite Hp in Hu.
  - intros y j. elsewhere. intros Hy Hj Hp [H1 H2]. rewrite with_name_at in H2. elsewhere.
    destruct Hd as [->|[-> He]]; [|destruct (early_phase _ _ _ He Hy Hj); congruence].
    assert (Hsame := hold_inj _ _ _ Hv H2).
    assert (Hin : pair_in true (cur w)).
    { split; [done|]. rewrite <-Hsame. destruct (i_sidecar0 _ (possible_cur sp w)); congruence. }
    destruct (i_verified0 y j Hy Hj Hp Hin) as [H3 H4].
    split; [apply sure_other; [names|done]|by apply sure_put].
  - elsewhere. intros Hn y. elsewhere. by apply i_absent0.
  - elsewhere. intros j Hj Ht. apply unfinished_put; [names|done].
  - by apply told_put.
Qed.

(** A backup is written while there is no journal. *)
Lemma Inv_put_backup w p v :
  Inv w -> cur w !! jp = None -> (p = bf /\ v = file_of (oldFragment x) \/ p = bs /\ v = file_of (Some (oldSidecar x))) ->
  Inv (with_name p v w).
Proof.
  intros HI Hj0 Hp. assert (Hn : forall y, y ∈ possible w jp -> y = None) by (apply (i_absent w HI Hj0)).
  assert (Hno : forall y j, y ∈ possible w jp -> ~ shows j y) by (intros y j Hy (a & b & -> & _); by apply Hn in Hy).
  assert (Hne : p <> jp /\ p <> fp /\ p <> sp) by names. destruct Hne as (Hne1 & Hne2 & Hne3).
  destruct HI. split.
  - intros y. rewrite with_name_possible_ne by done. auto.
  - intros y. rewrite with_name_possible_ne by done. auto.
  - intros y. rewrite with_name_possible_ne by done. auto.
  - intros y. destruct Hp as [[-> Hv]|[-> _]]; [|elsewhere; auto]. rewrite with_name_possible. intros [->|Hy]; auto.
  - intros y. destruct Hp as [[-> _]|[-> Hv]]; [elsewhere; auto|]. rewrite with_name_possible. intros [->|Hy]; auto.
  - rewrite with_name_possible_ne by done. intros Hb. destruct (i_before0 Hb). split; by apply sure_other.
  - intros y. rewrite with_name_possible_ne by done. intros Hy Hs. by apply Hn in Hy.
  - intros y j. rewrite with_name_possible_ne by done. intros Hy Hs. by apply Hno in Hs.
  - intros y j. rewrite with_name_possible_ne by done. intros Hy Hs. by apply Hno in Hs.
  - intros y j. rewrite with_name_possible_ne by done. intros Hy Hs. by apply Hno in Hs.
  - rewrite with_name_ne by done. intros _ y. rewrite with_name_possible_ne by done. auto.
  - rewrite with_name_ne by done. intros j Hs. by destruct (Hno _ j (possible_cur jp w)).
  - by apply told_put.
Qed.

(** A journal is written over one that is not final. *)
Lemma Inv_put_journal w j b :
  Inv w -> unfinished w -> backed w -> journal_decode b = Some j -> ours j ->
  (jPhase j = DesiredVerified -> pair_sure true w) ->
  (jPhase j = TerminalDesired -> pair_sure true w /\ verified true w) ->
  (jPhase j = TerminalOld -> pair_sure false w /\ verified false w) ->
  Inv (with_name jp (Some (Reg 384 true b)) w).
Proof.
  intros HI Hu Hb Hdec Ho Hdv Htd Hto. set (v := Some (Reg 384 true b)).
  assert (Hshow : shows j v) by (exists 384%Z, b; done). assert (Hrec : recorded j v) by (by exists b).
  assert (Hpair : forall d, pair_sure d w -> pair_sure d (with_name jp v w)).
  { intros [] [H1 H2]; split; apply sure_other; try done; names. }
  assert (Hpairv : forall d, pair_sure d w /\ verified d w -> pair_sure d (with_name jp v w) /\ verified d (with_name jp v w)).
  { intros d [H1 H2]. split; [auto|by apply verified_put]. }
  destruct HI. split.
  - intros y. elsewhere. auto.
  - intros y. elsewhere. auto.
  - intros y. rewrite with_name_possible. intros [->|Hy]; [right; by exists j|auto].
  - intros y. elsewhere. auto.
  - intros y. elsewhere. auto.
  - rewrite with_name_possible. intros [[=]|Hn]. auto.
  - intros y _ _. apply backed_put; [names..|done].
  - intros y k. rewrite with_name_possible. intros [->|Hy] Hk Hp; [|eauto].
    rewrite (shows_inj _ _ _ Hk Hshow) in Hp. auto.
  - intros y k. rewrite with_name_possible. intros [->|Hy] Hk Hp; [|eauto].
    rewrite (shows_inj _ _ _ Hk Hshow) in Hp. auto.
  - intros y k Hy Hk Hp [H1 H2]. elsewhere. apply Hpair. rewrite with_name_possible in Hy. destruct Hy as [->|Hy].
    + rewrite (shows_inj _ _ _ Hk Hshow) in Hp. auto.
    + by apply (i_verified0 y k).
  - by rewrite with_name_at.
  - rewrite with_name_at. intros k Hk Ht y l. rewrite with_name_possible. intros [->|Hy] Hl; [|eauto].
    by rewrite (shows_inj _ _ _ Hl Hk).
  - by apply told_put.
Qed.

(** ** Reading *)
Lemma readValidatedFile_spec p private :
  reads (readValidatedFile (E := E) p private) (fun files data => hold data (files !! p)).
Proof.
  apply reads_lsys, reads_look. intros [[perm [] data| |]|]; simpl.
  - apply reads_lsys. destruct (_ && _); [apply reads_fail|]. apply reads_lsys.
    destruct (Z.ltb _ _); [apply reads_fail|apply reads_ok]. simpl. eauto.
  - apply reads_lsys, reads_fail.
  - apply reads_fail.
  - apply reads_fail.
  - by apply reads_ok.
Qed.

Lemma readJournal_spec p :
  reads (readJournal (E := E) p)
    (fun files r => match r with None => files !! p = None | Some j => shows j (files !! p) end).
Proof.
  apply reads_lsys, reads_look. intros [[perm [] data| |]|]; simpl.
  - apply reads_lsys. destruct (negb _); [apply reads_fail|]. apply reads_lsys.
    destruct (Z.ltb _ _); [apply reads_fail|]. destruct (journal_decode data) eqn:Ed; [|apply reads_fail].
    destruct (_ || _); [apply reads_fail|apply reads_ok]. intros files Hf. by exists perm, data.
  - apply reads_lsys, reads_fail.
  - apply reads_fail.
  - apply reads_fail.
  - by apply reads_ok.
Qed.
Lemma need_journal_spec p : reads (need_journal (E := E) p) (fun files j => shows j (files !! p)).
Proof. eapply reads_then; [apply readJournal_spec|]. intros [j|]; [by apply reads_ok|apply reads_fail]. Qed.

Lemma validateJournal_spec path j : reads (validateJournal (E := E) m path j) (fun _ _ => True).
Proof.
  assert (Hb : forall p had want, reads (backup_matches (E := E) p had want) (fun _ _ => True)).
  { intros p had want. eapply reads_then; [apply readValidatedFile_spec|]. intros data.
    destruct (_ && _); [by apply reads_ok|apply reads_fail]. }
  unfold validateJournal. destruct (journal_shape m path j); [|apply reads_fail].
  simpl. destruct (journalTerminal _); [by apply reads_ok|].
  eapply reads_then; [apply Hb|]. intros ? w. eapply lwp_mono; [apply Hb|naive_solver..].
Qed.

Lemma checkRestartVerify_spec w :
  lwp (checkRestartVerify (E := E)) (fun r w' => shrink w w' /\ (r = inr tt -> EvVerified (cur w) ∈ llog w')) (shrink w) w.
Proof.
  unfold checkRestartVerify.
  apply lsys_then; [done|by intros|]. intros w1 H1.
  apply lsys_then; [by eauto using shrink_trans|split; [by eauto using shrink_trans|done]|]. intros w2 H2.
  apply lsys_then; [by eauto using shrink_trans|split; [by eauto using shrink_trans|done]|]. intros w3 H3.
  assert (H4 : shrink w w3) by eauto using shrink_trans.
  change (lwp (lemit (EvVerified (cur w3)) ≫= fun _ => ok tt)
    (fun r w' => shrink w w' /\ (r = inr tt -> EvVerified (cur w) ∈ llog w')) (shrink w) w3).
  destruct (id H4) as (<- & _). eapply lwp_step; [apply lemit_spec|by eauto using shrink_trans|].
  intros [] w4 [H5 H6]. apply lwp_ret. split; [by eauto using shrink_trans|done].
Qed.

(** ** Writing *)
Lemma publish_spec p content : writes p (file_of content) (publish (E := E) p content).
Proof. apply writes_lsys. destruct content; [apply writeFile_spec|apply remove_spec]. Qed.

(** Restoring one file, given that its backup is what is to be restored. *)
Lemma restoreFile_spec dst backup want data w :
  hold data (cur w !! backup) ->
  let op := restoreFile (E := E) dst backup (bool_decide (is_Some data)) want in
  lwp op (written dst (file_of data) w) (wrote dst (file_of data) w) w.
Proof.
  intros Hh op. unfold op, restoreFile. case_bool_decide as Hd.
  - eapply lwp_then; [apply readValidatedFile_spec|by left| |].
    + intros err w' [Hs _]. split; [by left|done].
    + intros r w1 [Hs Hr]. specialize (Hr r eq_refl). rewrite (hold_inj _ _ _ Hr Hh).
      destruct data as [d|]; [|by destruct Hd].
      destruct (negb _); [apply lwp_ret; split; [by left|done]|]. apply (writes_before _ _ _ _ _ Hs), publish_spec.
  - destruct data; [by destruct Hd|]. apply publish_spec.
Qed.

Lemma ours_phase j p r : ours j -> fits p r -> ours (j <| jPhase := p |> <| jResult := r |>).
Proof. intros [Hj _] Hf. split; [rewrite Hj; by destruct j|done]. Qed.

Lemma ours_fields j : ours j ->
  jTaskID j = xTask x /\ jLeaseID j = xLease x /\
  jFragmentPath j = fp /\ jSidecarPath j = sp /\ jFragmentHadOld j = bool_decide (is_Some (oldFragment x)) /\
  jSidecarHadOld j = true /\ jFragmentOld j = digest_of (oldFragment x) /\ jSidecarOld j = digest (oldSidecar x) /\
  jFragmentOutputSHA256 j = digestPtr (newFragment x) /\ jSidecarOutputSHA256 j = digestPtr (Some (newSidecar x)).
Proof. intros [-> _]. done. Qed.

Lemma ours_encoded j b : ours j -> journal_encode j = Some b -> journal_decode b = Some (j <| jResult ::= fmap lwire |>).
Proof.
  intros [Hj Hf] He. apply journal_round; [|intros t Ht; by rewrite Ht in Hf|done].
  rewrite Hj. pose proof tx_text as Ht. unfold base, first_journal. upd. exact Ht.
Qed.
Lemma fits_wire p r : fits p r -> fits p (lwire <$> r).
Proof.
  assert (Hsnd : forall r, sound r -> sound (lwire r)).
  { intros q (H1 & H2 & H3). pose proof tx_text as Ht. rewrite !Forall_cons in Ht. destruct Ht as (T1 & T2 & _).
    unfold sound. rewrite lwire_finished. destruct (lwire_ids q) as [-> ->]; [by rewrite H1|by rewrite H2|done]. }
  assert (Hs : forall r, succeeded (lwire r) = succeeded r).
  { intros q. unfold succeeded. rewrite lwire_exit. f_equal.
    destruct (String.eqb_spec (rError q) ""), (String.eqb_spec (rError (lwire q)) ""); try done;
      by destruct (lwire_error q); exfalso; auto. }
  destruct p, r; simpl; try done; rewrite Hs; intros [? ?]; auto.
Qed.

(** What holds after the name was changed. *)
Lemma after_write p v w w' (P : lworld E -> Prop) : shrinking P -> P (with_name p v w) -> done_writing p v w w' -> P w'.
Proof. intros HP Hw [Hs _]. by apply (HP _ _ Hs). Qed.

(** The journal is durably this one, and the rest is as it was. *)
Definition journaled j w w' : Prop :=
  Inv w' /\ (forall v, v ∈ possible w' jp -> shows (j <| jResult ::= fmap lwire |>) v) /\ backed w' /\
  (forall p data, p <> jp -> sure p data w -> sure p data w') /\ (forall d, verified d w -> verified d w').

Lemma journaled_pair j w w' d : journaled j w w' -> pair_sure d w -> pair_sure d w'.
Proof. intros (_ & _ & _ & Hs & _) Hp. destruct d, Hp; split; apply Hs; try done; names. Qed.

Lemma journaled_unfinished j w w' : journaled j w w' -> journalTerminal (jPhase j) = false -> unfinished w'.
Proof. intros (_ & Hs & _) Ht v k Hv Hk. rewrite (shows_inj _ _ _ Hk (Hs v Hv)). by upd. Qed.

(** Writing a journal of the transaction over one that is not final. *)
Lemma writeJournal_spec j w :
  Inv w -> unfinished w -> backed w -> ours j ->
  (jPhase j = DesiredVerified -> pair_sure true w) ->
  (jPhase j = TerminalDesired -> pair_sure true w /\ verified true w) ->
  (jPhase j = TerminalOld -> pair_sure false w /\ verified false w) ->
  lwp (writeJournal jp j) (fun r w' => Inv w' /\ (r = inr tt -> journaled j w w')) Inv w.
Proof.
  intros HI Hu Hb Ho Hdv Htd Hto. unfold writeJournal. destruct (journal_encode j) as [b|] eqn:Eb; [|by apply lwp_ret].
  assert (Hdec := ours_encoded j b Ho Eb). set (v := Some (Reg 384 true b)).
  assert (HI' : Inv (with_name jp v w)).
  { apply (Inv_put_journal w _ b HI Hu Hb Hdec); upd; [|auto..].
    split; upd; [|apply fits_wire, Ho]. destruct Ho as [Hj _]. rewrite Hj. by destruct j. }
  eapply lwp_mono; [apply writeFile_spec| |].
  - intros r w' [Hw Hd]. fold v in Hw, Hd. assert (HI2 : Inv w') by (destruct Hw as [Hw|Hw]; by eapply Inv_shrink).
    split; [done|]. intros ->. specialize (Hd tt eq_refl). split; [done|]. split; [|split].
    + intros y Hy. destruct Hd as [_ Hd]. rewrite (Hd y Hy). by exists 384%Z, b.
    + eapply after_write, Hd; [apply backed_shrink|apply backed_put; [names..|done]].
    + split.
      * intros p data Hp Hs. eapply after_write, Hd; [apply sure_shrink|by apply sure_other].
      * intros d Hv'. eapply after_write, Hd; [apply verified_shrink|by apply verified_put].
  - intros w' [Hw|Hw]; by eapply Inv_shrink.
Qed.

(** [pairMatches] reads the pair. *)
Lemma pairMatches_spec j desired w :
  lwp (pairMatches (E := E) j desired) (fun same w' => shrink w w' /\ (same = true -> exists a b,
    hold a (cur w !! jFragmentPath j) /\ hold b (cur w !! jSidecarPath j) /\
    (desired = true -> digest_of a = jFragmentOutputSHA256 j /\ digest_of b = jSidecarOutputSHA256 j))) (shrink w) w.
Proof.
  unfold pairMatches. eapply lwp_step; [apply readValidatedFile_spec|done|]. intros ra w1 [H1 Ha].
  eapply lwp_step; [apply readValidatedFile_spec|by eauto using shrink_trans|]. intros rb w2 [H2 Hb].
  apply lwp_ret. split; [by eauto using shrink_trans|].
  destruct ra as [|a], rb as [|b]; try done. specialize (Ha a eq_refl). specialize (Hb b eq_refl).
  rewrite (shrink_cur _ _ _ H1) in Hb. intros Hm. exists a, b. split; [done|]. split; [done|]. intros ->.
  apply andb_true_iff in Hm as [Hm1 Hm2]. split; by apply String.eqb_eq.
Qed.

Lemma digest_of_ptr a : digest_of a = digestPtr a.
Proof. by destruct a. Qed.

(** A pair of the right digests is the desired pair. *)
Lemma pairMatches_desired j w : Inv w -> ours j ->
  lwp (pairMatches (E := E) j true) (fun same w' => shrink w w' /\ (same = true -> pair_in true (cur w))) (shrink w) w.
Proof.
  intros HI Hj. eapply lwp_mono; [apply pairMatches_spec| |auto]. intros same w' [Hs Hm]. split; [done|].
  intros Ht. destruct (Hm Ht) as (a & b & Ha & Hb & Hd). destruct (Hd eq_refl) as [H1 H2]. clear Hd Hm.
  destruct (ours_fields j Hj) as (_ & _ & Ef & Es & _ & _ & _ & _ & Edf & Eds).
  rewrite Ef in Ha. rewrite Es in Hb. rewrite digest_of_ptr, Edf in H1. rewrite digest_of_ptr, Eds in H2.
  assert (Ea : a = newFragment x).
  { destruct (i_fragment w HI _ (possible_cur fp w)) as [Hf|Hf]; rewrite (hold_inj _ _ _ Ha Hf) in *; [|done].
    apply tx_digests; [set_solver..|done]. }
  assert (Eb : b = Some (newSidecar x)).
  { destruct (i_sidecar w HI _ (possible_cur sp w)) as [Hf|Hf]; rewrite (hold_inj _ _ _ Hb Hf) in *; [|done].
    apply tx_digests; [set_solver..|done]. }
  subst. done.
Qed.

(** Restoring the old pair, from a journal that is not final. *)
Lemma restoreOld_spec j w :
  Inv w -> shows j (cur w !! jp) -> ours j -> journalTerminal (jPhase j) = false ->
  lwp (restoreOld jp j) (fun r w' => Inv w' /\ forall j', r = inr j' ->
    ours j' /\ jPhase j' = OldRestored /\ unfinished w' /\ backed w' /\ pair_sure false w') Inv w.
Proof.
  intros HI Hj Ho Ht. assert (Hu := i_unfinished w HI j Hj Ht).
  assert (Hb : backed w) by (apply (i_backed w HI _ (possible_cur jp w)); by destruct Hj as (? & ? & -> & _)).
  assert (Hr : jResult j = None) by (destruct Ho as [_ Hf]; by destruct (jPhase j), (jResult j)).
  assert (Hnext : ours (j <| jPhase := OldRestored |>)).
  { assert (Hn := ours_phase j OldRestored None Ho I). destruct j. simpl in Hr. by subst. }
  destruct (ours_fields j Ho) as (_ & _ & Ef & Es & Ehf & Ehs & _ & _ & _ & _).
  unfold restoreOld. rewrite Ef, Es, Ehf, Ehs.
  eapply (writes_then _ Inv); [apply restoreFile_spec, backed_holds, Hb|apply Inv_shrink|done| |auto|by split|].
  { eapply Inv_put_fragment; [done|done|apply hold_file|by left]. }
  intros _ w1 Hw1 HI1.
  assert (Hu1 : unfinished w1) by (eapply after_write, Hw1; [apply unfinished_shrink|apply unfinished_put; [names|done]]).
  assert (Hb1 : backed w1) by (eapply after_write, Hw1; [apply backed_shrink|apply backed_put; [names..|done]]).
  assert (Hf1 : sure fp (oldFragment x) w1) by (eapply sure_durable; [apply hold_file|apply Hw1]).
  eapply (writes_then _ Inv); [apply (restoreFile_spec _ _ _ (Some (oldSidecar x))), backed_holds, Hb1|apply Inv_shrink|done| |auto|by split|].
  { eapply Inv_put_sidecar; [done|done|apply (hold_file (Some _))|by left]. }
  intros _ w2 Hw2 HI2.
  assert (Hu2 : unfinished w2) by (eapply after_write, Hw2; [apply unfinished_shrink|apply unfinished_put; [names|done]]).
  assert (Hb2 : backed w2) by (eapply after_write, Hw2; [apply backed_shrink|apply backed_put; [names..|done]]).
  assert (Hp2 : pair_sure false w2).
  { split; [|eapply sure_durable; [apply (hold_file (Some _))|apply Hw2]].
    eapply after_write, Hw2; [apply sure_shrink|apply sure_other; [names|done]]. }
  eapply lwp_step; [apply pairMatches_spec|intros w'; by eauto using Inv_shrink|]. intros same w3 [Hs _].
  assert (HI3 := Inv_shrink _ _ Hs HI2). destruct same; [|by apply lwp_ret]. simpl.
  eapply lwp_then; [apply writeJournal_spec|auto| |].
  1: done. 1: by eapply unfinished_shrink. 1: by eapply backed_shrink. 1: exact Hnext. 1-3: done.
  { intros err w' [Hw _]. by split. }
  intros [] w4 [HI4 Hj4]. apply lwp_ret. split; [done|]. intros j' [= <-]. specialize (Hj4 eq_refl).
  split; [done|]. split; [done|]. split; [by eapply journaled_unfinished|]. split; [apply Hj4|].
  by apply (journaled_pair _ _ _ false Hj4), (pair_sure_shrink false _ _ Hs).
Qed.

(** ** Outcomes *)

(** A result is right: the pair is durably the one it speaks of, and the
    service was found active with it. *)
Definition verdict (r : TaskResult) w : Prop := pair_sure (succeeded r) w /\ verified (succeeded r) w.

(** The journal can be made final with the result. *)
Definition ready (q : journal * TaskResult) w : Prop :=
  ours (q.1 <| jResult := Some q.2 |>) /\ unfinished w /\ backed w /\ verdict q.2 w /\
  jPhase q.1 = if succeeded q.2 then TerminalDesired else TerminalOld.

Lemma verdict_shrink r : shrinking (verdict r).
Proof. intros w w' Hs [H1 H2]. split; [by eapply pair_sure_shrink|by eapply verified_shrink]. Qed.

Lemma sure_pair_in b w : pair_sure b w -> pair_in b (cur w).
Proof. destruct b; intros [H1 H2]; split; by apply sure_cur. Qed.

(** Verifying the service with a durable pair. *)
Lemma verify_pair b w : pair_sure b w ->
  lwp (checkRestartVerify (E := E)) (fun r w' => shrink w w' /\ (r = inr tt -> verified b w')) (shrink w) w.
Proof.
  intros Hp. eapply lwp_mono; [apply checkRestartVerify_spec| |auto]. intros r w' [Hs Hv]. split; [done|].
  intros ->. exists (cur w). split; [auto|by apply sure_pair_in].
Qed.

(** The old pair is restored and verified. *)
Lemma restore_verify j bad w :
  Inv w -> shows j (cur w !! jp) -> ours j -> journalTerminal (jPhase j) = false -> succeeded bad = false -> sound bad ->
  lwp (j ←? restoreOld jp j; checkRestartVerify ;;? ok (j <| jPhase := TerminalOld |>, bad))
    (fun r w' => Inv w' /\ forall q, r = inr q -> ready q w') Inv w.
Proof.
  intros HI Hj Ho Ht Hbad Hsound. eapply lwp_then; [by apply restoreOld_spec|auto|by intros err w' [? _]|].
  intros k w1 [HI1 Hk]. destruct (Hk k eq_refl) as (Hok & _ & Hu & Hb & Hp).
  eapply lwp_then; [by apply (verify_pair false)|intros w'; by eauto using Inv_shrink| |].
  { intros err w' [Hs _]. split; [by eapply Inv_shrink|done]. }
  intros [] w2 [Hs Hv]. apply lwp_ret. split; [by eapply Inv_shrink|]. intros q [= <-]. unfold ready, verdict. simpl.
  rewrite Hbad. split; [by apply ours_phase|]. split; [by eapply unfinished_shrink|]. split; [by eapply backed_shrink|].
  split; [|done]. split; [by eapply pair_sure_shrink|auto].
Qed.

(** The desired pair is verified, or the old one restored and verified. *)
Lemma verify_or_restore j good bad w :
  Inv w -> shows j (cur w !! jp) -> ours j -> jPhase j = DesiredVerified -> pair_in true (cur w) ->
  succeeded good = true -> succeeded bad = false -> sound good -> sound bad ->
  lwp (checkRestartVerify ≫= fun v : string + unit =>
       match v with
       | inr _ => ok (j <| jPhase := TerminalDesired |>, good)
       | inl _ => j ←? restoreOld jp j; checkRestartVerify ;;? ok (j <| jPhase := TerminalOld |>, bad)
       end) (fun r w' => Inv w' /\ forall q, r = inr q -> ready q w') Inv w.
Proof.
  intros HI Hj Ho Hdv Hin Hgood Hbad Hsound Hsound'.
  assert (Hp : pair_sure true w) by (by apply (i_verified w HI _ j (possible_cur jp w))).
  eapply lwp_step; [by apply (verify_pair true)|intros w'; by eauto using Inv_shrink|].
  intros v w1 [Hs Hv]. assert (HI1 := Inv_shrink _ _ Hs HI).
  assert (Hj1 : shows j (cur w1 !! jp)) by (by rewrite (shrink_cur _ _ _ Hs)).
  assert (Ht : journalTerminal (jPhase j) = false) by (by rewrite Hdv).
  destruct v as [err|[]]; [by apply restore_verify|].
  apply lwp_ret. split; [done|]. intros q [= <-]. unfold ready, verdict. simpl. rewrite Hgood.
  split; [by apply ours_phase|]. split; [by apply (i_unfinished w1 HI1 j)|]. split.
  { apply (i_backed w1 HI1 _ (possible_cur jp w1)). by destruct Hj1 as (? & ? & -> & _). }
  split; [|done]. split; [by eapply pair_sure_shrink|auto].
Qed.

(** The final journal is written. *)
Lemma record_result q w : Inv w -> ready q w ->
  lwp (writeJournal jp (q.1 <| jResult := Some q.2 |>))
    (fun r w' => Inv w' /\ (r = inr tt -> verdict q.2 w' /\ journaled (q.1 <| jResult := Some q.2 |>) w w')) Inv w.
Proof.
  intros HI (Ho & Hu & Hb & [Hp Hv] & Hph). eapply lwp_mono; [apply writeJournal_spec| |auto].
  1-4: done. 1-3: upd; rewrite Hph; destruct (succeeded q.2); done.
  intros r w' [HI' Hj]. split; [done|]. intros Hr. specialize (Hj Hr). split; [|done].
  split; [by eapply journaled_pair|]. by apply Hj.
Qed.
End Tx.
