(* ===== verification/LineChainSteps.v ===== *)
(** * Every operation of the manager keeps the transaction's invariant

    The specifications of the operations of [Chain] on the files of one
    transaction: what they leave, however the calls go and wherever the
    process dies. *)
From S2P Require Import Prelude GoStrings GoPath SDK TaskOutbox LineFs LineChain LineChainInv.

Import Chain.

Section Steps.
Context `{JL : LineJsonLaws} {E : Type} `{OL : LineOsLaws E} (m : Manager) (x : transaction) `{TL : !TxLaws m x}.
Implicit Types (w : lworld E) (j : journal).

Local Abbreviation jp := (jp m x).
Local Abbreviation bf := (bf m x).
Local Abbreviation bs := (bs m x).
Local Abbreviation fp := (fp x).
Local Abbreviation sp := (sp x).
Local Abbreviation Inv := (Inv m x).
Local Abbreviation ours := (ours x).
Local Abbreviation verdict := (verdict x).

Lemma shown_ours w j : Inv w -> shows j (cur w !! jp) -> ours j.
Proof.
  intros HI Hj. destruct (i_journal m x w HI _ (possible_cur jp w)) as [Hn|(k & Hk & Ho)].
  - destruct Hj as (? & ? & Hj & _). congruence.
  - by rewrite (shows_inj _ _ _ Hj (recorded_shows _ _ Hk)).
Qed.

Lemma no_result j : ours j -> jResult j = None -> journalTerminal (jPhase j) = false.
Proof. intros [_ Hf] Hr. rewrite Hr in Hf. by destruct (jPhase j). Qed.

(** A journal with a result tells the truth. *)
Lemma final_verdict w j r : Inv w -> shows j (cur w !! jp) -> jResult j = Some r -> verdict r w.
Proof.
  intros HI Hj Hr. assert (Ho := shown_ours w j HI Hj). destruct Ho as [_ Hf]. rewrite Hr in Hf.
  assert (Hv := possible_cur jp w). unfold LineChainInv.verdict.
  destruct (jPhase j) eqn:Hp; simpl in Hf; try done; destruct Hf as [-> _].
  - by apply (i_desired m x w HI _ j Hv).
  - by apply (i_old m x w HI _ j Hv).
Qed.

Lemma verdict_held r w : verdict r w -> forall v,
  (v ∈ held (cur w) (past w) fp -> hold (if succeeded r then newFragment x else oldFragment x) v) /\
  (v ∈ held (cur w) (past w) sp -> hold (Some (if succeeded r then newSidecar x else oldSidecar x)) v).
Proof. intros [Hp _] v. destruct (succeeded r), Hp as [H1 H2]; split; auto. Qed.

Lemma lnow_set w : lwp (lnow (E := E)) (fun t w' => shrink w w' /\ is_zero_time t = false) (shrink w) w.
Proof.
  assert (Hs := lnow_spec w). assert (Hc := lclock_set (lenv w)). unfold lwp, lnow in *.
  by destruct (lclock (lenv w)).
Qed.

(** ** Recovery *)
Lemma settle_spec j result w :
  Inv w -> shows j (cur w !! jp) -> jResult j = None -> succeeded result = false -> sound x result ->
  lwp (settle jp j result) (fun r w' => Inv w' /\ forall k, r = inr k ->
    exists q, k = q.1 <| jResult := Some q.2 |> /\ ours k /\ verdict q.2 w') Inv w.
Proof.
  intros HI Hj Hr Hbad Hsound. assert (Ho := shown_ours w j HI Hj). assert (Ht := no_result j Ho Hr).
  unfold settle.
  set (good := result <| rExitCode := 0%Z |> <| rError := ""%string |>).
  assert (Hbad' : succeeded (result <| rError := recovered_failed |>) = false) by apply andb_false_r.
  eapply (lwp_step _ _ (fun same w' => shrink w w' /\
    (same = true -> jPhase j = DesiredVerified /\ pair_in x true (cur w'))) (shrink w)).
  { case_bool_decide as Hdv; [|apply lwp_ret; split; [apply shrink_refl|done]].
    eapply lwp_mono; [by apply (pairMatches_desired m x)| |auto]. intros same w' [Hs Hm]. split; [done|].
    intros ->. split; [done|]. destruct (id Hs) as (-> & _). auto. }
  { intros w' Hw. by apply (Inv_shrink m x _ _ Hw). }
  intros same w1 [Hs Hm]. assert (HI1 := Inv_shrink m x _ _ Hs HI).
  assert (Hj1 : shows j (cur w1 !! jp)) by (by rewrite (shrink_cur _ _ _ Hs)).
  eapply (lwp_then _ _ (fun r w' => Inv w' /\ forall q, r = inr q -> ready m x q w') Inv); [|auto|by intros err w' [? _]|].
  { destruct same; [|by apply restore_verify]. destruct (Hm eq_refl). by apply verify_or_restore. }
  intros q w2 [HI2 Hq]. specialize (Hq q eq_refl).
  eapply lwp_then; [by apply record_result|auto|by intros err w' [? _]|].
  intros [] w3 [HI3 Hw3]. destruct (Hw3 eq_refl) as [Hv _]. apply lwp_ret. split; [done|].
  intros k [= <-]. exists q. split; [done|]. split; [apply Hq|done].
Qed.

Lemma Cleanup_log taskID leaseID w (P : list levent -> Prop) : P (llog w) ->
  lwp (Cleanup (E := E) m taskID leaseID) (fun _ w' => P (llog w')) (fun w' => P (llog w')) w.
Proof.
  intros HP.
  assert (Hsys : forall {A} c (k : unit -> L E (string + A)) v, (forall v, P (llog v) ->
    lwp (k tt) (fun _ w' => P (llog w')) (fun w' => P (llog w')) v) -> P (llog v) ->
    lwp (andThen (lsys c) k) (fun _ w' => P (llog w')) (fun w' => P (llog w')) v).
  { intros A c k v Hk Hv. unfold andThen, lwp, lsys, mbind, L_bind. destruct (lask c (lenv v)) as [[] e].
    - apply (Hk (v <| lenv := e |>)). by upd.
    - simpl. by upd.
    - by upd. }
  assert (Hsync : forall dir v, P (llog v) -> lwp (syncDir dir) (fun _ w' => P (llog w')) (fun w' => P (llog w')) v).
  { intros dir v. apply Hsys. intros u Hu. unfold lwp, lmodify, mbind, L_bind, ok, mret, L_ret. by upd. }
  assert (Hrm : forall p v, P (llog v) -> lwp (remove_file p) (fun _ w' => P (llog w')) (fun w' => P (llog w')) v).
  { intros p v. apply Hsys. intros u Hu. unfold lwp, lgets, put, lmodify, mbind, L_bind, ok, mret, L_ret.
    destruct (cur u !! p); by upd. }
  assert (Hall : forall ps v, P (llog v) -> lwp (remove_all ps) (fun _ w' => P (llog w')) (fun w' => P (llog w')) v).
  { induction ps as [|p ps IH]; intros v Hv; simpl; [by apply lwp_ret|].
    eapply lwp_then; [by apply Hrm|auto|auto|]. intros ? v' Hv'. by apply IH. }
  unfold Cleanup. eapply lwp_then; [by apply Hall|auto|auto|]. intros ? v' Hv'. by apply Hsync.
Qed.

(** Recovery of the transaction keeps the invariant when nobody takes the
    result; a result that is taken is right. *)
Lemma recoverOne_spec complete nodeID script expected w :
  Inv w -> lwp (recoverOne m jp complete nodeID script expected)
    (fun _ w' => if complete then told x w' else Inv w') (fun w' => if complete then told x w' else Inv w') w.
Proof.
  intros HI. assert (Hw : forall w', Inv w' -> if complete then told x w' else Inv w').
  { intros w' HI'. destruct complete; [apply HI'|done]. }
  unfold recoverOne. eapply lwp_then; [apply need_journal_spec|intros w' Hs; by apply Hw, (Inv_shrink m x _ _ Hs)| |].
  { intros err w' [Hs _]. by apply Hw, (Inv_shrink m x _ _ Hs). }
  intros j w1 [Hs Hj]. specialize (Hj j eq_refl). assert (HI1 := Inv_shrink m x _ _ Hs HI).
  rewrite <-(shrink_cur _ _ _ Hs) in Hj. clear w HI Hs.
  eapply lwp_then; [apply validateJournal_spec|intros w' Hs; by apply Hw, (Inv_shrink m x _ _ Hs)| |].
  { intros err w' [Hs _]. by apply Hw, (Inv_shrink m x _ _ Hs). }
  intros ? w2 [Hs _]. assert (HI2 := Inv_shrink m x _ _ Hs HI1). rewrite <-(shrink_cur _ _ _ Hs) in Hj. clear w1 HI1 Hs.
  match goal with |- lwp (if ?c then _ else _) _ _ _ => destruct c; [by apply lwp_ret, Hw|] end.
  match goal with |- lwp (if ?c then _ else _) _ _ _ => destruct c; [by apply lwp_ret, Hw|] end.
  eapply (lwp_then _ _ (fun r w' => Inv w' /\ forall k, r = inr k -> ours k /\
    forall res, jResult k = Some res -> verdict res w') Inv); [|exact Hw|intros err w' [? _]; by apply Hw|].
  - destruct (jResult j) as [res|] eqn:Hr.
    + apply lwp_ret. split; [done|]. intros k [= <-]. split; [by eapply shown_ours|].
      intros res' Hr'. by eapply final_verdict.
    + eapply lwp_step; [apply lnow_set|intros w' Hs; by apply (Inv_shrink m x _ _ Hs)|].
      intros now w3 [Hs Hnow]. destruct (ours_fields x j (shown_ours w2 j HI2 Hj)) as (Hid & Hlease & _).
      eapply lwp_mono; [apply settle_spec| |auto].
      * by apply (Inv_shrink m x _ _ Hs).
      * by rewrite (shrink_cur _ _ _ Hs).
      * done.
      * done.
      * done.
      * intros r w' [HI' Hk]. split; [done|]. intros k Hrk. destruct (Hk k Hrk) as (q & -> & Ho & Hv).
        split; [done|]. upd. by intros res [= <-].
  - intros k w3 [HI3 Hk]. destruct (Hk k eq_refl) as [_ Hv]. destruct complete; [|by apply lwp_ret].
    destruct (jResult k) as [res|] eqn:Hr; [|apply lwp_ret, HI3].
    specialize (Hv res eq_refl). apply lwp_bind.
    set (w4 := w3 <| llog ::= cons (EvCompleted res (cur w3) (past w3)) |>).
    assert (Ht : told x w4).
    { intros r files unsynced He. unfold w4 in He. upd. apply elem_of_cons in He as [[= -> -> ->]|He].
      - by apply verdict_held.
      - by apply (i_told m x w3 HI3). }
    change (lwp (lsys (LComplete res) ;;? Cleanup m (jTaskID k) (jLeaseID k)) (fun _ => told x) (told x) w4).
    eapply lwp_then; [apply lsys_spec|intros w' Hs; exact (told_shrink x _ _ Hs Ht)|intros err w' Hs; exact (told_shrink x _ _ Hs Ht)|].
    intros [] w5 Hs. by apply (Cleanup_log _ _ _ (fun l => forall r files unsynced, EvCompleted r files unsynced ∈ l -> _)), (told_shrink x _ _ Hs).
Qed.

(** ** The helper's outcome *)
Lemma with_finish_spec r w :
  lwp (with_finish (E := E) r) (fun r' w' => shrink w w' /\ succeeded r' = succeeded r /\
    rTaskID r' = rTaskID r /\ rLeaseID r' = rLeaseID r /\ is_zero_time (rFinishedAt r') = false) (shrink w) w.
Proof.
  unfold with_finish. destruct (is_zero_time _) eqn:Hz; [|apply lwp_ret; split; [apply shrink_refl|done]].
  eapply lwp_step; [apply lnow_set|done|]. intros now w' [Hs Hnow]. by apply lwp_ret.
Qed.

Lemma resolve_failed_result r :
  succeeded (r <| rExitCode ::= fun c => if (c =? 0)%Z then (-1)%Z else c |>
               <| rError ::= fun e => if String.eqb e "" then helper_failed else e |>) = false.
Proof.
  unfold succeeded. upd. apply andb_false_iff. right. destruct (String.eqb_spec (rError r) ""); [done|].
  by apply String.eqb_neq.
Qed.

(** A journal without a result is decided. *)
Lemma resolve_decides j result w :
  Inv w -> shows j (cur w !! jp) -> jResult j = None -> sound x result ->
  lwp (r ←? (if succeeded result && bool_decide (jPhase j = DesiredVerified) then
               pairMatches j true ≫= fun same : bool =>
               if negb same then fail "desired linechain pair is not exact"
               else
                 checkRestartVerify ≫= fun v : string + unit =>
                 match v with
                 | inr _ => ok (j <| jPhase := TerminalDesired |>, result)
                 | inl _ =>
                     j ←? restoreOld jp j; checkRestartVerify ;;?
                     ok (j <| jPhase := TerminalOld |>,
                         result <| rExitCode := (-1)%Z |> <| rError := verification_failed |>)
                 end
             else
               j ←? restoreOld jp j; checkRestartVerify ;;?
               ok (j <| jPhase := TerminalOld |>,
                   result <| rExitCode ::= fun c => if (c =? 0)%Z then (-1)%Z else c |>
                          <| rError ::= fun e => if String.eqb e "" then helper_failed else e |>));
       writeJournal jp (r.1 <| jResult := Some r.2 |>) ;;? ok r.2)
    (fun r w' => Inv w' /\ forall q, r = inr q -> verdict q w' /\
      forall v, v ∈ possible w' jp -> exists k, shows k v /\ jResult k = Some (lwire q)) Inv w.
Proof.
  intros HI Hj Hr Hsound. assert (Ho := shown_ours w j HI Hj). assert (Ht := no_result j Ho Hr).
  eapply (lwp_then _ _ (fun r w' => Inv w' /\ forall q, r = inr q -> ready m x q w') Inv); [|auto|by intros err w' [? _]|].
  - destruct (succeeded result) eqn:Hsucc; simpl; [|apply restore_verify; auto using resolve_failed_result].
    case_bool_decide as Hdv; [|apply restore_verify; auto using resolve_failed_result].
    eapply lwp_step; [by apply (pairMatches_desired m x)|intros w' Hs; by apply (Inv_shrink m x _ _ Hs)|].
    intros same w1 [Hs Hm]. assert (HI1 := Inv_shrink m x _ _ Hs HI). destruct same; simpl; [|by apply lwp_ret].
    apply verify_or_restore; try done; [by rewrite (shrink_cur _ _ _ Hs)|]. destruct (id Hs) as (-> & _). auto.
  - intros q w2 [HI2 Hq]. specialize (Hq q eq_refl).
    eapply lwp_then; [by apply record_result|auto|by intros err w' [? _]|].
    intros [] w3 [HI3 Hw3]. destruct (Hw3 eq_refl) as [Hv (_ & Hd & _)]. apply lwp_ret. split; [done|].
    intros k [= <-]. split; [done|]. intros v Hin. eexists. split; [by apply Hd|]. by upd.
Qed.

Lemma ResolveAfterRun_spec task result w :
  Inv w -> tID task = xTask x -> tLeaseID task = xLease x -> rTaskID result = xTask x -> rLeaseID result = xLease x ->
  lwp (ResolveAfterRun m task result) (fun r w' => Inv w' /\ forall q, r = inr q ->
    pair_sure x (succeeded q) w' /\
    (forall j, shows j (cur w !! jp) -> verified x (succeeded q) w' /\ (jResult j = None ->
      forall v, v ∈ possible w' jp -> exists k, shows k v /\ jResult k = Some (lwire q)))) Inv w.
Proof.
  intros HI Hid Hlease Hrid Hrlease. unfold ResolveAfterRun. rewrite Hid, Hlease.
  change (journalPath m (xTask x) (xLease x)) with jp.
  eapply lwp_then; [apply readJournal_spec|intros w' Hs; by apply (Inv_shrink m x _ _ Hs)| |].
  { intros err w' [Hs _]. split; [by apply (Inv_shrink m x _ _ Hs)|done]. }
  intros r w1 [Hs Hr]. specialize (Hr r eq_refl). rewrite <-(shrink_cur _ _ _ Hs) in Hr |- *.
  assert (HI1 := Inv_shrink m x _ _ Hs HI). clear w HI Hs. destruct r as [j|].
  - destruct (jResult j) as [res|] eqn:Ej.
    + apply lwp_ret. split; [done|]. intros q [= <-].
      destruct (final_verdict w1 j res HI1 Hr Ej) as [H1 H2]. split; [done|]. intros k Hk. split; [done|].
      rewrite (shows_inj _ _ _ Hk Hr). congruence.
    + eapply lwp_step; [apply with_finish_spec|intros w' Hs; by apply (Inv_shrink m x _ _ Hs)|].
      intros result' w2 (Hs & _ & H1 & H2 & H3).
      eapply lwp_mono; [apply resolve_decides| |auto].
      * by apply (Inv_shrink m x _ _ Hs).
      * by rewrite (shrink_cur _ _ _ Hs).
      * done.
      * by rewrite <-H1, <-H2 in *.
      * intros r w' [HI' Hq]. split; [done|]. intros q Hrq. destruct (Hq q Hrq) as [[? ?] ?]. auto.
  - destruct (succeeded result) eqn:Hsucc; [by apply lwp_ret|].
    eapply lwp_step; [apply with_finish_spec|intros w' Hs; by apply (Inv_shrink m x _ _ Hs)|].
    intros result' w2 (Hs & Hsucc' & _). apply lwp_ret. split; [by apply (Inv_shrink m x _ _ Hs)|]. intros q [= <-].
    rewrite Hsucc', Hsucc. split.
    + apply (pair_sure_shrink x _ _ _ Hs), (i_before m x w1 HI1). rewrite <-Hr. apply possible_cur.
    + intros k (? & ? & Hk & _). congruence.
Qed.

(** A decided journal is only read back. *)
Lemma ResolveAfterRun_decided task result j res w :
  tID task = xTask x -> tLeaseID task = xLease x -> shows j (cur w !! jp) -> jResult j = Some res ->
  lwp (ResolveAfterRun m task result) (fun r w' => shrink w w' /\ forall q, r = inr q -> q = res) (shrink w) w.
Proof.
  intros Hid Hlease Hj Hres. unfold ResolveAfterRun. rewrite Hid, Hlease.
  eapply lwp_then; [apply readJournal_spec|done| |]; [intros err w' [Hs _]; by split|].
  intros r w1 [Hs Hr]. specialize (Hr r eq_refl). destruct r as [k|].
  - rewrite (shows_inj _ _ _ Hr Hj), Hres. apply lwp_ret. split; [done|]. by intros q [= <-].
  - destruct Hj as (? & ? & Hj & _). change (journalPath m (xTask x) (xLease x)) with jp in Hr. congruence.
Qed.

(** ** Applying *)

(** The journal is durably [j], which has no result, and the backups are there. *)
Definition at_journal j w : Prop :=
  Inv w /\ ours j /\ jResult j = None /\ backed m x w /\ forall v, v ∈ possible w jp -> shows j v.

Lemma at_journal_shrink j w w' : shrink w w' -> at_journal j w -> at_journal j w'.
Proof.
  intros Hs (HI & Ho & Hr & Hb & Hj). split; [by apply (Inv_shrink m x _ _ Hs)|]. split; [done|]. split; [done|].
  split; [by apply (backed_shrink m x _ _ Hs)|]. intros v Hv. by apply Hj, Hs.
Qed.
Lemma at_journal_unfinished j w : at_journal j w -> unfinished m x w.
Proof.
  intros (HI & Ho & Hr & _ & Hj). apply (i_unfinished m x w HI j); [apply Hj, possible_cur|by apply no_result].
Qed.
Lemma at_journal_early j w : at_journal j w -> jPhase j = Prepared \/ jPhase j = FragmentPublished -> early m x w.
Proof. intros (_ & _ & _ & _ & Hj) Hp v Hv. exists j. auto. Qed.
Lemma at_journal_put j w p v : p <> jp -> p <> bf -> p <> bs -> at_journal j w -> Inv (with_name p v w) ->
  at_journal j (with_name p v w).
Proof.
  intros H1 H2 H3 (_ & Ho & Hr & Hb & Hj) HI. split; [done|]. split; [done|]. split; [done|].
  split; [by apply backed_put|]. intros y. rewrite with_name_possible_ne by done. apply Hj.
Qed.

(** The next phase is written. *)
Lemma advance j p w :
  Inv w -> unfinished m x w -> backed m x w -> ours j -> jResult j = None -> fits x p None ->
  (p = DesiredVerified -> pair_sure x true w) ->
  lwp (writeJournal jp (j <| jPhase := p |>)) (fun r w' => Inv w' /\ (r = inr tt -> at_journal (j <| jPhase := p |>) w' /\
    (forall q data, q <> jp -> sure q data w -> sure q data w') /\ (forall d, verified x d w -> verified x d w'))) Inv w.
Proof.
  intros HI Hu Hb Ho Hr Hf Hdv.
  assert (Hk : ours (j <| jPhase := p |>)) by (assert (Hk := ours_phase x j p None Ho Hf); destruct j; simpl in Hr; by subst).
  eapply lwp_mono; [apply writeJournal_spec| |auto]; try done; upd.
  - intros ->. done.
  - intros ->. done.
  - intros r w' [HI' Hj]. split; [done|]. intros Hr'. destruct (Hj Hr') as (_ & Hs & Hb' & Hq & Hv).
    split; [|done]. split; [done|]. split; [done|]. split; [done|]. split; [done|]. intros v Hv'.
    specialize (Hs v Hv'). destruct j; simpl in Hr; by subst.
Qed.

Lemma rollback_spec j cause w : at_journal j w ->
  lwp (rollback jp j cause) (fun r w' => Inv w' /\ forall u, r <> inr u) Inv w.
Proof.
  intros (HI & Ho & Hr & Hb & Hj). unfold rollback.
  eapply lwp_then; [apply restoreOld_spec|auto|by intros err w' [? _]|]; try done;
    [apply Hj, possible_cur|by apply no_result|].
  intros k w1 [HI1 _]. eapply lwp_then; [apply checkRestartVerify_spec|intros w' Hs; by apply (Inv_shrink m x _ _ Hs)| |].
  - intros err w' [Hs _]. split; [by apply (Inv_shrink m x _ _ Hs)|done].
  - intros [] w2 [Hs _]. apply lwp_ret. split; [by apply (Inv_shrink m x _ _ Hs)|done].
Qed.

(** One file of the pair is published under a journal of an early phase. *)
Lemma publish_step p content j w :
  at_journal j w -> jPhase j = Prepared \/ jPhase j = FragmentPublished ->
  p = fp /\ content = newFragment x \/ p = sp /\ content = Some (newSidecar x) ->
  lwp (publish p content) (fun r w' => at_journal j w' /\ (r = inr tt -> sure p content w' /\
    forall q data, q <> p -> sure q data w -> sure q data w')) Inv w.
Proof.
  intros Ha Hp Hpc. assert (Hu := at_journal_unfinished j w Ha). assert (He := at_journal_early j w Ha Hp).
  assert (HI : Inv w) by apply Ha.
  assert (HI' : Inv (with_name p (file_of content) w)).
  { destruct Hpc as [[-> ->]|[-> ->]].
    - by apply (Inv_put_fragment m x w (newFragment x)); [..|apply hold_file|auto].
    - by apply (Inv_put_sidecar m x w (newSidecar x)); [..|apply (hold_file (Some _))|auto]. }
  assert (Ha' : at_journal j (with_name p (file_of content) w)).
  { pose proof (tx_names m x) as Hn. apply at_journal_put; [intuition congruence..|done|done]. }
  eapply lwp_mono; [apply publish_spec| |].
  - intros r w' [Hw Hd]. split; [destruct Hw as [Hw|Hw]; by eapply at_journal_shrink|]. intros ->.
    destruct (Hd tt eq_refl) as [Hs Hdur]. split; [eapply sure_durable; [apply hold_file|done]|].
    intros q data Hq Hsure. apply (sure_shrink _ _ _ _ Hs). by apply sure_other.
  - intros w' [Hw|Hw]; by apply (Inv_shrink m x _ _ Hw).
Qed.

(** A backup is written before there is a journal. *)
Lemma writeBackup_spec p data w :
  Inv w -> cur w !! jp = None -> p = bf /\ data = oldFragment x \/ p = bs /\ data = Some (oldSidecar x) ->
  lwp (writeBackup p data) (fun r w' => Inv w' /\ cur w' !! jp = None /\ (r = inr tt -> durable p (file_of data) w' /\
    forall q v, q <> p -> durable q v w -> durable q v w')) Inv w.
Proof.
  intros HI Hj Hp. assert (Hne : p <> jp) by (pose proof (tx_names m x); intuition congruence).
  destruct data as [d|]; simpl.
  - assert (HI' : Inv (with_name p (Some (Reg 384 true d)) w)).
    { apply Inv_put_backup; try done. destruct Hp as [[-> <-]|[-> [= <-]]]; [left|right]; done. }
    eapply lwp_mono; [apply writeFile_spec| |intros w' [Hw|Hw]; by apply (Inv_shrink m x _ _ Hw)].
    intros r w' [Hw Hd]. split; [destruct Hw as [Hw|Hw]; by apply (Inv_shrink m x _ _ Hw)|]. split.
    + destruct Hw as [Hw|Hw]; rewrite (shrink_cur _ _ _ Hw); [done|by rewrite with_name_ne].
    + intros ->. destruct (Hd tt eq_refl) as [Hs Hdur]. split; [done|].
      intros q v Hq Hsure. apply (durable_shrink _ _ _ _ Hs). intros y. rewrite with_name_possible_ne by done. auto.
  - apply lwp_ret. split; [done|]. split; [done|]. intros _. split; [|done]. intros v Hv.
    destruct Hp as [[-> Hd]|[_ [=]]]. destruct (i_backup m x w HI v Hv) as [->|Hh]; [done|]. by rewrite <-Hd in Hh.
Qed.

(** What a complete application leaves. *)
Definition applied w : Prop := pair_sure x true w /\ verified x true w /\
  forall v, v ∈ possible w jp -> exists j, shows j v /\ ours j /\ jPhase j = DesiredVerified.

(** From the published pair on. *)
Lemma verify_published j w : at_journal j w -> pair_sure x true w ->
  lwp (checkRestartVerify ≫= fun v : string + unit =>
       match v with inl err => rollback jp j err | inr _ => writeJournal jp (j <| jPhase := DesiredVerified |>) end)
    (fun r w' => Inv w' /\ (r = inr tt -> applied w')) Inv w.
Proof.
  intros Ha Hp. eapply lwp_step; [by apply (verify_pair x true)|intros w' Hs; apply (Inv_shrink m x _ _ Hs), Ha|].
  intros v w1 [Hs Hv]. assert (Ha1 := at_journal_shrink _ _ _ Hs Ha). destruct v as [err|[]].
  - eapply lwp_mono; [by apply rollback_spec| |auto]. intros r w' [HI' Hr]. split; [done|]. by intros ->; destruct (Hr tt).
  - assert (Hp1 := pair_sure_shrink x true _ _ Hs Hp). destruct (id Ha1) as (HI1 & Ho & Hr & Hb & _).
    eapply lwp_mono; [apply advance| |auto]; try done; [by eapply at_journal_unfinished|].
    intros r w' [HI' Hj]. split; [done|]. intros Hr'. destruct (Hj Hr') as ((_ & Ho' & _ & _ & Hs') & Hq & Hv'). split; [|split].
    + pose proof (tx_names m x). destruct Hp1. split; apply Hq; try done; intuition congruence.
    + auto.
    + intros v Hin. eexists. by split; [apply Hs'|].
Qed.

Lemma replace_pair_spec w :
  Inv w -> cur w !! jp = None ->
  lwp (replace_pair jp (base x) (oldFragment x) (Some (oldSidecar x)) (newFragment x) (newSidecar x))
    (fun r w' => Inv w' /\ (r = inr tt -> applied w')) Inv w.
Proof.
  intros HI Hj. unfold replace_pair. pose proof (tx_names m x) as Hn.
  eapply lwp_then; [apply writeBackup_spec; [done|done|by left]|auto|by intros err w' [? _]|].
  intros [] w1 (HI1 & Hj1 & Hb1). destruct (Hb1 eq_refl) as [Hbf _].
  eapply lwp_then; [apply writeBackup_spec; [done|done|by right]|auto|by intros err w' [? _]|].
  intros [] w2 (HI2 & Hj2 & Hb2). destruct (Hb2 eq_refl) as [Hbs Hk2].
  assert (Hback : backed m x w2) by (split; [apply Hk2; [intuition congruence|done]|done]).
  assert (Hu : unfinished m x w2).
  { intros v j Hv (? & ? & -> & _). by apply (i_absent m x w2 HI2 Hj2) in Hv. }
  assert (Ho : ours (base x)) by done.
  eapply lwp_then; [by apply (advance (base x) Prepared)|auto|by intros err w' [? _]|].
  intros [] w3 [_ Ha3]. destruct (Ha3 eq_refl) as [Ha _]. clear Ha3. change (base x <| jPhase := Prepared |>) with (base x) in Ha.
  change (jFragmentPath (base x)) with fp. change (jSidecarPath (base x <| jPhase := FragmentPublished |>)) with sp.
  eapply lwp_step; [apply (publish_step fp (newFragment x) (base x)); auto|auto|].
  intros [err|[]] w4 [Ha4 Hf4]; [eapply lwp_mono; [by apply rollback_spec|intros r w' [? Hr]; split; [done|by intros ->; destruct (Hr tt)]|auto]|].
  destruct (Hf4 eq_refl) as [Hf _].
  set (j1 := base x <| jPhase := FragmentPublished |>).
  eapply lwp_then; [apply (advance (base x) FragmentPublished); try done; try apply Ha4; by eapply at_journal_unfinished|auto|by intros err w' [? _]|].
  intros [] w5 [_ Ha5]. destruct (Ha5 eq_refl) as (Ha5' & Hk5 & _). clear Ha5. fold j1 in Ha5'.
  eapply lwp_step; [apply (publish_step sp (Some (newSidecar x)) j1); auto|auto|].
  intros [err|[]] w6 [Ha6 Hf6]; [eapply lwp_mono; [by apply rollback_spec|intros r w' [? Hr]; split; [done|by intros ->; destruct (Hr tt)]|auto]|].
  destruct (Hf6 eq_refl) as [Hs6 Hk6].
  eapply lwp_then; [apply (advance j1 PairPublished); try done; try apply Ha6; by eapply at_journal_unfinished|auto|by intros err w' [? _]|].
  intros [] w7 [_ Ha7]. destruct (Ha7 eq_refl) as (Ha7' & Hk7 & _). clear Ha7.
  apply verify_published; [done|]. split; [|by apply Hk7; [intuition congruence|]].
  apply Hk7, Hk6, Hk5; [intuition congruence..|done].
Qed.

(** The document of the transaction, as the server issued it. *)
Definition issues (raw script : string) : Prop :=
  parseDocument m raw = Some (xDocument x) /\ trim_space script = xScript x /\
  mergeManagedSidecar (oldSidecar x) (dSidecarPatch (xDocument x)) = Some (newSidecar x).

Lemma validateDocument_spec d : reads (validateDocument (E := E) m d) (fun _ _ => True).
Proof.
  unfold validateDocument. destruct (negb _); [apply reads_fail|]. do 2 apply reads_lsys.
  destruct (_ && _); [by apply reads_ok|apply reads_fail].
Qed.

Lemma Apply_spec raw script w :
  Inv w -> issues raw script ->
  lwp (Apply m raw (xTask x) (xLease x) script)
    (fun r w' => Inv w' /\ (r = inr tt -> cur w !! jp = None -> applied w')) Inv w.
Proof.
  intros HI (Hraw & Hscript & Hmerge). unfold Apply. rewrite Hraw, Hscript.
  destruct (_ || _); [by apply lwp_ret|]. destruct (negb (validSHA _)); [by apply lwp_ret|].
  assert (Hstep : forall w', shrink w w' -> Inv w') by (intros w' Hs; by apply (Inv_shrink m x _ _ Hs)).
  eapply lwp_then; [apply validateDocument_spec|done|intros err w' [Hs _]; split; [by auto|done]|].
  intros [] w1 [Hs1 _].
  apply lsys_then; [by eauto using shrink_trans|intros err w' Hs; split; [by eauto using shrink_trans|done]|].
  intros w2 Hs2. assert (Hs : shrink w w2) by eauto using shrink_trans. clear w1 Hs1 Hs2.
  apply lwp_bind. change (lwp (lgets (fun w => cur w !! ?p)) ?Q ?D w2) with (Q (cur w2 !! p) w2). cbv beta.
  change (journalPath m (xTask x) (xLease x)) with jp. rewrite (shrink_cur _ _ jp Hs).
  destruct (cur w !! jp) as [n|] eqn:En.
  { eapply lwp_mono; [apply (recoverOne_spec false); auto|by split|done]. }
  assert (Hold : pair_sure x false w2).
  { apply (i_before m x w2); [auto|]. rewrite <-En, <-(shrink_cur _ _ jp Hs). apply possible_cur. }
  eapply lwp_then; [apply readValidatedFile_spec|by eauto using shrink_trans| |].
  { intros err w' [Hs' _]. split; [by eauto using shrink_trans|done]. }
  intros f w3 [Hs3 Hf]. specialize (Hf f eq_refl).
  eapply lwp_then; [apply readValidatedFile_spec|by eauto using shrink_trans| |].
  { intros err w' [Hs' _]. split; [by eauto using shrink_trans|done]. }
  intros s w4 [Hs4 Hsc]. specialize (Hsc s eq_refl). rewrite (shrink_cur _ _ _ Hs3) in Hsc.
  assert (Ef : f = oldFragment x) by (eapply hold_inj; [exact Hf|apply sure_cur, Hold]).
  assert (Es : s = Some (oldSidecar x)) by (eapply hold_inj; [exact Hsc|apply sure_cur, Hold]).
  subst f s. assert (Hs' : shrink w w4) by eauto using shrink_trans.
  destruct (negb _); [apply lwp_ret; split; [by auto|done]|]. rewrite Hmerge.
  eapply lwp_mono; [apply replace_pair_spec| |done].
  - auto.
  - by rewrite (shrink_cur _ _ _ Hs').
  - intros r w' [HI' Ha]. auto.
Qed.
End Steps.
