(* ===== verification/LineChainProps.v ===== *)
(** * What the line-chain transactions guarantee

    [reach] is every state one transaction can get into: applied by the helper,
    resolved after its run, recovered, and interrupted by crashes, in any
    order and however often.  In all of them a result says exactly what is on
    disk. *)
From S2P Require Import Prelude GoStrings GoPath SDK TaskOutbox LineFs LineChain LineChainInv LineChainSteps.

Import Chain.

Section Props.
Context `{JL : LineJsonLaws} {E : Type} `{OL : LineOsLaws E} (m : Manager) (x : transaction) `{TL : !TxLaws m x}.
Implicit Types (w : lworld E).

(** Before the transaction: no journal, no backups, the old pair. *)
Definition started w : Prop :=
  durable (jp m x) None w /\ durable (bf m x) None w /\ durable (bs m x) None w /\ pair_sure x false w /\
  forall r files unsynced, EvCompleted r files unsynced ∉ llog w.

(** A crash: every name holds one of the things it may hold, independently, and
    what is there then stays. *)
Definition crashed w (files : gmap string inode) (e : E) : lworld E := mkLworld files ∅ e (llog w).

Inductive reach : lworld E -> Prop :=
  | reach_start w : started w -> reach w
  | reach_apply w raw script r w' :
      reach w -> issues m x raw script -> Apply m raw (xTask x) (xLease x) script w = (r, w') -> reach w'
  | reach_resolve w task result r w' :
      reach w -> tID task = xTask x -> tLeaseID task = xLease x -> rTaskID result = xTask x -> rLeaseID result = xLease x ->
      ResolveAfterRun m task result w = (r, w') -> reach w'
  | reach_recover w nodeID script expected r w' :
      reach w -> recoverOne m (jp m x) false nodeID script expected w = (r, w') -> reach w'
  | reach_crash w files e : reach w -> (forall p, files !! p ∈ possible w p) -> reach (crashed w files e).

Lemma crashed_possible w files e p : possible (crashed w files e) p = [files !! p].
Proof. unfold possible, held, crashed. simpl. by rewrite lookup_empty. Qed.

Lemma crashed_sure w files e p data : (forall p, files !! p ∈ possible w p) -> sure p data w -> sure p data (crashed w files e).
Proof. intros Hf Hs v. rewrite crashed_possible, list_elem_of_singleton. intros ->. auto. Qed.
Lemma crashed_pair w files e d : (forall p, files !! p ∈ possible w p) -> pair_sure x d w -> pair_sure x d (crashed w files e).
Proof. intros Hf Hp. destruct d, Hp; split; by apply crashed_sure. Qed.

Lemma Inv_crashed w files e : (forall p, files !! p ∈ possible w p) -> Inv m x w -> Inv m x (crashed w files e).
Proof.
  intros Hf HI. assert (Hp : forall p v, v ∈ possible (crashed w files e) p -> v = files !! p).
  { intros p v. by rewrite crashed_possible, list_elem_of_singleton. }
  assert (Hq : forall p v, v ∈ possible (crashed w files e) p -> v ∈ possible w p) by (intros p v ->%Hp; auto).
  destruct HI. split.
  1-5: eauto.
  - intros Hn. apply crashed_pair; eauto.
  - intros v Hv Hn. destruct (i_backed v (Hq _ _ Hv) Hn). split; intros y Hy; auto.
  - intros v j Hv Hj Hph. destruct (i_desired v j (Hq _ _ Hv) Hj Hph). split; [by apply crashed_pair|done].
  - intros v j Hv Hj Hph. destruct (i_old v j (Hq _ _ Hv) Hj Hph). split; [by apply crashed_pair|done].
  - intros _ _ _ _ _ [H1 H2]. split; intros v ->%Hp; done.
  - intros Hn v ->%Hp. done.
  - intros j Hj Ht v k ->%Hp Hk. by rewrite (shows_inj _ _ _ Hk Hj).
  - done.
Qed.

Lemma Inv_started w : started w -> Inv m x w.
Proof.
  intros (Hj & Hbf & Hbs & Hp & Hl). assert (Hno : forall v j, v ∈ possible w (jp m x) -> ~ shows j v).
  { intros v j ->%Hj (? & ? & [=] & _). }
  split.
  - intros v Hv. left. by apply Hp.
  - intros v Hv. left. by apply Hp.
  - intros v ->%Hj. by left.
  - intros v ->%Hbf. by left.
  - intros v ->%Hbs. by left.
  - done.
  - intros v ->%Hj. done.
  - intros v j Hv Hs. by apply Hno in Hs.
  - intros v j Hv Hs. by apply Hno in Hs.
  - intros v j Hv Hs. by apply Hno in Hs.
  - done.
  - intros j Hs. by apply Hno in Hs; [|apply possible_cur].
  - intros r files unsynced He. by apply Hl in He.
Qed.

Lemma lwp_always {A} (op : L E A) (Q : A -> lworld E -> Prop) (P : lworld E -> Prop) w r w' :
  lwp op Q P w -> (forall a v, Q a v -> P v) -> op w = (r, w') -> P w'.
Proof. unfold lwp. intros Hw Hq Hr. rewrite Hr in Hw. destruct r; eauto. Qed.

Lemma reach_Inv w : reach w -> Inv m x w.
Proof.
  induction 1 as [w Hw|w raw script r w' _ IH Hi Hr|w task result r w' _ IH H1 H2 H3 H4 Hr|w node script ex r w' _ IH Hr|w files e _ IH Hf].
  - by apply Inv_started.
  - eapply lwp_always; [by apply Apply_spec| |exact Hr]. by intros a v [? _].
  - eapply lwp_always; [by apply (ResolveAfterRun_spec m x)| |exact Hr]. by intros a v [? _].
  - eapply lwp_always; [by apply (recoverOne_spec m x false)| |exact Hr]. done.
  - by apply Inv_crashed.
Qed.

(** C2: A result of [ResolveAfterRun] is exact, whatever happened before: after a
    success the desired pair is on disk and stays there through a crash, after
    a failure the old pair is and does; and when a journal decided it, the
    service was found active with that very pair. *)
Theorem resolved_result_exact w task result q w' :
  reach w -> tID task = xTask x -> tLeaseID task = xLease x -> rTaskID result = xTask x -> rLeaseID result = xLease x ->
  ResolveAfterRun m task result w = (Some (inr q), w') ->
  pair_sure x (succeeded q) w' /\
  ((exists j, shows j (cur w !! jp m x)) -> verified x (succeeded q) w').
Proof.
  intros Hw H1 H2 H3 H4 Hr. assert (Hs := ResolveAfterRun_spec m x task result w (reach_Inv w Hw) H1 H2 H3 H4).
  destruct (lwp_run _ _ _ _ _ _ Hs Hr) as [_ Hq]. destruct (Hq q eq_refl) as [Hp Hv]. split; [done|].
  intros [j Hj]. by apply (Hv j).
Qed.

(** Recovery hands over only exact results: whenever a result is passed on, a
    crash at that moment would leave the pair it speaks of. *)
Theorem recovered_result_exact w nodeID script expected r w' :
  reach w -> recoverOne m (jp m x) true nodeID script expected w = (r, w') -> told x w'.
Proof.
  intros Hw Hr. eapply lwp_always; [by apply (recoverOne_spec m x true), reach_Inv| |exact Hr]. done.
Qed.

(** A successful application leaves the desired pair, durably, verified with the
    running service, under a journal that says so. *)
Theorem apply_publishes_pair w raw script w' :
  reach w -> issues m x raw script -> cur w !! jp m x = None ->
  Apply m raw (xTask x) (xLease x) script w = (Some (inr tt), w') -> applied m x w'.
Proof.
  intros Hw Hi Hj Hr. assert (Hs := Apply_spec m x raw script w (reach_Inv w Hw) Hi).
  destruct (lwp_run _ _ _ _ _ _ Hs Hr) as [_ Ha]. auto.
Qed.

(** Once a result is decided it is the result: after any crash, whoever asks
    again is given the same one as the journal renders it. *)
Theorem resolved_result_stable w task result q w' j files e task' result' q' w'' :
  reach w -> tID task = xTask x -> tLeaseID task = xLease x -> tID task' = xTask x -> tLeaseID task' = xLease x ->
  rTaskID result = xTask x -> rLeaseID result = xLease x -> shows j (cur w !! jp m x) -> jResult j = None ->
  ResolveAfterRun m task result w = (Some (inr q), w') ->
  (forall p, files !! p ∈ possible w' p) ->
  ResolveAfterRun m task' result' (crashed w' files e) = (Some (inr q'), w'') -> q' = lwire q.
Proof.
  intros Hw H1 H2 H3 H4 H5 H6 Hj Hn Hr Hf Hr'. assert (Hs := ResolveAfterRun_spec m x task result w (reach_Inv w Hw) H1 H2 H5 H6).
  destruct (lwp_run _ _ _ _ _ _ Hs Hr) as [_ Hq]. destruct (Hq q eq_refl) as [_ Hv]. destruct (Hv j Hj) as [_ Hk].
  destruct (Hk Hn _ (Hf (jp m x))) as (k & Hk1 & Hk2). clear Hs Hq Hv Hk Hr.
  assert (Hs := ResolveAfterRun_decided m x task' result' k _ (crashed w' files e) H3 H4 Hk1 Hk2).
  destruct (lwp_run _ _ _ _ _ _ Hs Hr') as [_ Hq]. auto.
Qed.
End Props.
