(* ===== verification/LineChainLive.v ===== *)
(** * Recovery ends a transaction

    When every call happens, recovery of a transaction in any reachable state
    runs to its end: the result is handed over and the journal and the backups
    are gone. *)
From S2P Require Import Prelude GoStrings GoPath SDK TaskOutbox LineFs LineChain LineChainInv LineChainSteps LineChainProps.

Import Chain.

(** The operation returns without an error. *)
Definition succeeds {E A} (op : L E (string + A)) (w : lworld E) : Prop := exists a w', op w = (Some (inr a), w').

Section Live.
Context `{JL : LineJsonLaws} {E : Type} `{OL : LineOsLaws E} (m : Manager) (x : transaction) `{TL : !TxLaws m x}.
Implicit Types (w : lworld E) (j : journal).

Local Abbreviation jp := (jp m x).
Local Abbreviation Inv := (Inv m x).
Local Abbreviation ours := (ours x).

(** Every call happens. *)
Definition calm : Prop := forall c (e : E), (lask c e).1 = Happens.
Context (Hcalm : calm).

Lemma lwp_succeeds {A} (op : L E (string + A)) Q D w :
  succeeds op w -> lwp op Q D w -> exists a w', op w = (Some (inr a), w') /\ Q (inr a) w'.
Proof. intros (a & w' & Hr) Hw. exists a, w'. split; [done|]. by eapply lwp_run. Qed.

(** Steps that succeed, one after the other; [Q] is what the first leaves. *)
Lemma succeeds_then {A B} (op : L E (string + A)) (k : A -> L E (string + B)) Q D w :
  succeeds op w -> lwp op Q D w -> (forall a w', Q (inr a) w' -> succeeds (k a) w') -> succeeds (andThen op k) w.
Proof.
  intros Hs Hw Hk. destruct (lwp_succeeds op Q D w Hs Hw) as (a & w' & Hr & Hq). destruct (Hk a w' Hq) as (b & w'' & Hb).
  exists b, w''. unfold andThen, mbind, L_bind. by rewrite Hr.
Qed.
Lemma succeeds_after {A B} (op : L E (string + A)) (k : A -> L E (string + B)) w :
  succeeds op w -> (forall a w', succeeds (k a) w') -> succeeds (andThen op k) w.
Proof.
  intros (a & w' & Hr) Hk. destruct (Hk a w') as (b & w'' & Hb). exists b, w''. unfold andThen, mbind, L_bind. by rewrite Hr.
Qed.
Lemma run_then {A B} (op : L E (string + A)) (k : A -> L E (string + B)) a w w1 :
  op w = (Some (inr a), w1) -> succeeds (k a) w1 -> succeeds (andThen op k) w.
Proof. intros Hr (b & w'' & Hb). exists b, w''. unfold andThen, mbind, L_bind. by rewrite Hr. Qed.
Lemma succeeds_ok {A} (a : A) w : succeeds (ok a) w.
Proof. by exists a, w. Qed.

Lemma lsys_calm c w : succeeds (lsys c) w.
Proof. unfold succeeds, lsys. assert (Hc := Hcalm c (lenv w)). destruct (lask c (lenv w)) as [a e]. simpl in Hc. subst. eauto. Qed.

Lemma syncDir_calm dir w : succeeds (syncDir dir) w.
Proof. apply succeeds_after; [apply lsys_calm|]. intros [] w'. unfold succeeds, lmodify, mbind, L_bind, ok, mret, L_ret. eauto. Qed.

Lemma writeFile_calm p data w : succeeds (writeFile p data) w.
Proof.
  unfold writeFile. do 6 (apply succeeds_after; [apply lsys_calm|]; intros [] ?).
  unfold succeeds, mbind, L_bind, put, lmodify.
  match goal with |- exists a w', (lsys ?c ;;? ?k) ?v = _ => change (succeeds (lsys c ;;? k) v) end.
  do 2 (apply succeeds_after; [apply lsys_calm|]; intros [] ?). apply syncDir_calm.
Qed.

Lemma remove_file_calm p w : succeeds (remove_file p) w.
Proof.
  apply succeeds_after; [apply lsys_calm|]. intros [] w'.
  unfold succeeds, lgets, mbind, L_bind, ok, mret, L_ret, put, lmodify. destruct (cur w' !! p); eauto.
Qed.

Lemma publish_calm p content w : succeeds (publish p content) w.
Proof.
  apply succeeds_after; [apply lsys_calm|]. intros [] w'. destruct content; [apply writeFile_calm|].
  apply succeeds_after; [apply remove_file_calm|]. intros ? w''. apply syncDir_calm.
Qed.

Lemma verify_calm w : succeeds (checkRestartVerify (E := E)) w.
Proof. unfold checkRestartVerify. do 3 (apply succeeds_after; [apply lsys_calm|]; intros [] ?). repeat eexists. Qed.

(** A file that is there, trusted and small is read. *)
Definition readable (private : bool) (v : option inode) : Prop :=
  match v with
  | None => True
  | Some (Reg perm owned data) => owned = true /\ (private = true -> Z.land perm 63 = 0%Z) /\
      (Z.of_nat (String.length data) <= maxArtifactSize)%Z
  | _ => False
  end.

Lemma read_calm p private data w : readable private (cur w !! p) -> hold data (cur w !! p) ->
  exists w', readValidatedFile p private w = (Some (inr data), w') /\ shrink w w'.
Proof.
  intros Hr Hh. assert (Hs : succeeds (readValidatedFile p private) w).
  { eapply succeeds_then; [apply lsys_calm|apply lsys_spec|]. intros [] w1 Hs1. rewrite <-(shrink_cur _ _ p Hs1) in Hr.
    unfold succeeds, mbind, L_bind, lgets. simpl.
    destruct (cur w1 !! p) as [[perm owned d| |]|]; [|done|done|unfold ok, mret, L_ret; eauto].
    destruct Hr as (-> & Hp & Hl). match goal with |- exists a w', ?f w1 = _ => change (succeeds f w1) end.
    apply succeeds_after; [apply lsys_calm|]. intros [] w2. simpl.
    assert (Hc : private && negb (Z.land perm 63 =? 0)%Z = false).
    { destruct private; simpl; [|done]. by rewrite Hp. }
    rewrite Hc. apply succeeds_after; [apply lsys_calm|]. intros [] w3.
    rewrite (proj2 (Z.ltb_ge _ _) Hl). apply succeeds_ok. }
  destruct (lwp_succeeds _ _ _ _ Hs (readValidatedFile_spec p private w)) as (d & w' & Hrun & Hsh & Hd).
  exists w'. rewrite (hold_inj _ _ _ Hh (Hd d eq_refl)). done.
Qed.

(** What a transaction that was begun has passed: its journal has the shape the
    manager accepts and can be encoded, and what it read was small enough. *)
Class TxLive := {
  live_ids : xTask x <> ""%string /\ xLease x <> ""%string;
  live_shape : journal_shape m jp (base x) = true;
  live_fragment : forall s, oldFragment x = Some s -> (Z.of_nat (String.length s) <= maxArtifactSize)%Z;
  live_sidecar : (Z.of_nat (String.length (oldSidecar x)) <= maxArtifactSize)%Z;
  live_encode : forall j, ours j -> is_Some (journal_encode j)
}.
Context `{!TxLive}.

Lemma hold_readable data v : hold data v ->
  (forall s, data = Some s -> (Z.of_nat (String.length s) <= maxArtifactSize)%Z) -> readable false v.
Proof. destruct data; simpl; [intros [perm ->] Hs|by intros ->]. simpl. split; [done|]. split; [done|auto]. Qed.
Lemma backup_readable data :
  (forall s, data = Some s -> (Z.of_nat (String.length s) <= maxArtifactSize)%Z) -> readable true (file_of data).
Proof. destruct data; simpl; [|done]. intros Hs. split; [done|]. split; [done|auto]. Qed.
Lemma sidecar_small s : Some (oldSidecar x) = Some s -> (Z.of_nat (String.length s) <= maxArtifactSize)%Z.
Proof. intros [= <-]. apply live_sidecar. Qed.
Local Hint Resolve live_fragment sidecar_small : core.

Lemma pairMatches_old j w : ours j -> pair_in x false (cur w) -> exists w', pairMatches j false w = (Some true, w') /\ shrink w w'.
Proof.
  intros Ho [Hf Hs]. destruct (ours_fields x j Ho) as (_ & _ & Ef & Es & Ehf & Ehs & Edf & Eds & _).
  unfold pairMatches. rewrite Ef, Es, Ehf, Ehs, Edf, Eds.
  destruct (read_calm (fp x) false (oldFragment x) w) as (w1 & Hr1 & Hs1); [by eapply hold_readable, live_fragment|exact Hf|].
  rewrite <-(shrink_cur _ _ _ Hs1) in Hs.
  destruct (read_calm (sp x) false (Some (oldSidecar x)) w1) as (w2 & Hr2 & Hs2); [by eapply hold_readable, sidecar_small|exact Hs|].
  exists w2. split; [|by eapply shrink_trans]. unfold mbind, L_bind, readCurrent. rewrite Hr1, Hr2.
  unfold mret, L_ret. rewrite Bool.eqb_reflx, !String.eqb_refl. done.
Qed.

Lemma restoreFile_calm dst backup data w :
  cur w !! backup = file_of data -> (forall s, data = Some s -> (Z.of_nat (String.length s) <= maxArtifactSize)%Z) ->
  succeeds (restoreFile dst backup (bool_decide (is_Some data)) (digest_of data)) w.
Proof.
  intros Hb Hl. unfold restoreFile. destruct data as [d|]; [|by apply publish_calm].
  rewrite bool_decide_true by eauto.
  destruct (read_calm backup true (Some d) w) as (w1 & Hr & _); [rewrite Hb; by apply backup_readable|rewrite Hb; apply (hold_file (Some d))|].
  apply (run_then _ _ _ _ _ Hr). simpl. rewrite String.eqb_refl. apply publish_calm.
Qed.

Lemma writeJournal_calm j w : ours j -> succeeds (writeJournal jp j) w.
Proof. intros Ho. unfold writeJournal. destruct (live_encode j Ho) as [b ->]. apply writeFile_calm. Qed.

Lemma restoreOld_calm j w :
  backed m x w -> ours j -> journalTerminal (jPhase j) = false -> succeeds (restoreOld jp j) w.
Proof.
  intros Hb Ho Ht. assert (Hr : jResult j = None) by (destruct Ho as [_ Hf]; by destruct (jPhase j), (jResult j)).
  destruct (ours_fields x j Ho) as (_ & _ & Ef & Es & Ehf & Ehs & Edf & Eds & _).
  pose proof (tx_names m x) as Hn. unfold restoreOld. rewrite Ef, Es, Ehf, Ehs, Edf, Eds. destruct (backed_holds m x w Hb) as [Hh1 Hh2].
  eapply succeeds_then; [|by apply restoreFile_spec|].
  { apply restoreFile_calm; [apply durable_cur, Hb|auto]. }
  intros u w1 [_ Hw1]. specialize (Hw1 u eq_refl).
  assert (Hb1 : backed m x w1) by (eapply after_write, Hw1; [apply backed_shrink|apply backed_put; [intuition congruence..|done]]).
  destruct (backed_holds m x w1 Hb1) as [_ Hh3].
  eapply succeeds_then; [|by apply (restoreFile_spec _ _ _ (Some (oldSidecar x)))|].
  { apply (restoreFile_calm _ _ (Some (oldSidecar x))); [apply durable_cur, Hb1|auto]. }
  intros u' w2 [_ Hw2]. specialize (Hw2 u' eq_refl).
  assert (Hp : pair_in x false (cur w2)).
  { split; rewrite (shrink_cur _ _ _ (proj1 Hw2)); [|rewrite with_name_at; apply (hold_file (Some _))].
    rewrite with_name_ne by intuition congruence. rewrite (shrink_cur _ _ _ (proj1 Hw1)), with_name_at. apply hold_file. }
  destruct (pairMatches_old j w2 Ho Hp) as (w3 & Hm & _).
  assert (Hnext : ours (j <| jPhase := OldRestored |>)).
  { assert (Hk := ours_phase x j OldRestored None Ho I). destruct j. simpl in Hr. by subst. }
  unfold succeeds, mbind, L_bind. rewrite Hm. simpl.
  match goal with |- exists a w', ?f w3 = _ => change (succeeds f w3) end.
  apply succeeds_after; [by apply writeJournal_calm|]. intros [] w4. apply succeeds_ok.
Qed.

(** Reading never kills the process. *)
Lemma read_alive p private w : exists r w', readValidatedFile p private w = (Some r, w').
Proof.
  unfold readValidatedFile, andThen, mbind, L_bind, lgets. destruct (lsys_calm (LOpen p) w) as ([] & w1 & ->). simpl.
  destruct (cur w1 !! p) as [[perm owned d| |]|]; unfold fail, ok, mret, L_ret; [|by eauto..].
  destruct (lsys_calm (LStat p) w1) as ([] & w2 & ->). destruct (_ || _); [by eauto|].
  destruct (lsys_calm (LRead p) w2) as ([] & w3 & ->). destruct (Z.ltb _ _); by eauto.
Qed.
Lemma pairMatches_alive j d w : exists b w', pairMatches j d w = (Some b, w').
Proof.
  unfold pairMatches, mbind, L_bind, readCurrent. destruct (read_alive (jFragmentPath j) false w) as (r1 & w1 & ->).
  destruct (read_alive (jSidecarPath j) false w1) as (r2 & w2 & ->). unfold mret, L_ret. eauto.
Qed.

Lemma restore_verify_calm j (q : TaskResult) w :
  backed m x w -> ours j -> journalTerminal (jPhase j) = false ->
  succeeds (j ←? restoreOld jp j; checkRestartVerify ;;? ok (j <| jPhase := TerminalOld |>, q)) w.
Proof.
  intros Hb Ho Ht. apply succeeds_after; [by apply restoreOld_calm|]. intros k w1.
  apply succeeds_after; [apply verify_calm|]. intros [] w2. apply succeeds_ok.
Qed.

Lemma settle_calm j result w :
  Inv w -> shows j (cur w !! jp) -> jResult j = None -> succeeded result = false -> sound x result ->
  succeeds (settle jp j result) w.
Proof.
  intros HI Hj Hr Hbad Hsound. assert (Ho := shown_ours m x w j HI Hj). assert (Ht := no_result x j Ho Hr).
  assert (Hbad' : succeeded (result <| rError := recovered_failed |>) = false) by apply andb_false_r.
  assert (Hb : forall w, Inv w -> shows j (cur w !! jp) -> backed m x w).
  { intros v HIv (? & ? & Hv & _). apply (i_backed m x v HIv _ (possible_cur jp v)). congruence. }
  unfold settle. set (pm := if bool_decide _ then _ else _).
  assert (Hpm : exists b w1, pm w = (Some b, w1) /\ shrink w w1 /\ (b = true -> jPhase j = DesiredVerified /\ pair_in x true (cur w1))).
  { unfold pm. case_bool_decide as Hdv; [|exists false, w; split; [done|split; [apply shrink_refl|done]]].
    destruct (pairMatches_alive j true w) as (b & w1 & Hrun).
    destruct (lwp_run _ _ _ _ _ _ (pairMatches_desired m x j w HI Ho) Hrun) as [Hs Hm].
    exists b, w1. split; [done|]. split; [done|]. intros ->. split; [done|]. destruct (id Hs) as (-> & _). auto. }
  destruct Hpm as (b & w1 & Hrun & Hs & Hm). unfold succeeds, mbind, L_bind. rewrite Hrun.
  match goal with |- exists a w', ?f w1 = _ => change (succeeds f w1) end.
  assert (HI1 := Inv_shrink m x _ _ Hs HI). assert (Hj1 : shows j (cur w1 !! jp)) by (by rewrite (shrink_cur _ _ _ Hs)).
  eapply (succeeds_then _ _ (fun r w' => Inv w' /\ forall q, r = inr q -> ready m x q w') Inv).
  - destruct b; [|by apply restore_verify_calm; auto].
    destruct (verify_calm w1) as ([] & w2 & Hv). unfold succeeds, mbind, L_bind. rewrite Hv. unfold ok, mret, L_ret. eauto.
  - destruct b; [|by apply restore_verify]. destruct (Hm eq_refl). by apply verify_or_restore.
  - intros q w2 [HI2 Hq]. destruct (Hq q eq_refl) as [Hq1 _].
    apply succeeds_after; [by apply writeJournal_calm|]. intros [] w3. apply succeeds_ok.
Qed.

(** ** Cleaning up *)
Lemma remove_all_calm ps w : exists w', remove_all ps w = (Some (inr tt), w') /\
  (forall p, p ∈ ps -> cur w' !! p = None) /\ (forall p, p ∉ ps -> cur w' !! p = cur w !! p).
Proof.
  revert w. induction ps as [|p ps IH]; intros w; simpl.
  - exists w. split; [done|]. split; [intros p Hp; by apply elem_of_nil in Hp|done].
  - destruct (remove_file_calm p w) as (b & w1 & Hr).
    assert (Hc : cur w1 = delete p (cur w)).
    { revert Hr. unfold remove_file, andThen, mbind, L_bind, lgets. assert (Hs := lsys_spec (LRemove p) w). unfold lwp in Hs.
      destruct (lsys (LRemove p) w) as [[[err|[]]|] w0]; [done| |done]. destruct Hs as (Hs & _). rewrite Hs.
      destruct (cur w !! p) eqn:Ep; unfold put, lmodify, ok, mret, L_ret; intros [= _ <-]; upd; rewrite ?Hs.
      - done.
      - by rewrite delete_id. }
    destruct (IH w1) as (w2 & Hr2 & Hin & Hout). exists w2. split; [|split].
    + unfold andThen, mbind, L_bind. by rewrite Hr.
    + intros q Hq. destruct (decide (q ∈ ps)) as [Hq'|Hq']; [auto|]. apply elem_of_cons in Hq as [->|Hq]; [|done].
      by rewrite Hout, Hc, lookup_delete_eq.
    + intros q Hq. apply not_elem_of_cons in Hq as [Hq1 Hq2]. by rewrite Hout, Hc, lookup_delete_ne.
Qed.

Lemma Cleanup_calm w : exists w', Cleanup m (xTask x) (xLease x) w = (Some (inr tt), w') /\
  (forall p, p ∈ [bf m x; bs m x; jp] -> cur w' !! p = None) /\
  (forall p, p ∉ [bf m x; bs m x; jp] -> cur w' !! p = cur w !! p).
Proof.
  destruct (remove_all_calm [bf m x; bs m x; jp] w) as (w1 & Hr & Hin & Hout).
  destruct (lwp_succeeds _ _ _ _ (syncDir_calm (mDir m) w1) (syncDir_spec (mDir m) w1)) as ([] & w2 & Hr2 & Hs & _).
  exists w2. split; [|split].
  - unfold Cleanup, andThen, mbind, L_bind. change (journalPath m (xTask x) (xLease x)) with jp.
    change (fragmentBackup jp) with (bf m x). change (sidecarBackup jp) with (bs m x). by rewrite Hr.
  - intros p Hp. rewrite (shrink_cur _ _ _ Hs). auto.
  - intros p Hp. rewrite (shrink_cur _ _ _ Hs). auto.
Qed.

(** ** Reading the journal back *)
Lemma shape_ours j : ours j -> journal_shape m jp j = true.
Proof.
  intros [Hj Hf]. pose proof live_shape as Hs. rewrite Hj. unfold journal_shape in *. revert Hs. upd.
  rewrite !andb_true_iff. intros Hs. destruct_and! Hs. split_and!; try done.
  - by destruct (jPhase j).
  - by destruct (jPhase j), (jResult j).
  - destruct (jResult j) as [r|]; [|done].
    assert (Hsnd : sound x r) by (destruct (jPhase j); simpl in Hf; try done; apply Hf).
    destruct Hsnd as (H18 & H19 & H20). rewrite H20. change (jTaskID (base x)) with (xTask x).
    change (jLeaseID (base x)) with (xLease x). by rewrite H18, H19, !String.eqb_refl.
Qed.

Lemma backup_calm p data w :
  cur w !! p = file_of data -> (forall s, data = Some s -> (Z.of_nat (String.length s) <= maxArtifactSize)%Z) ->
  exists w', backup_matches p (bool_decide (is_Some data)) (digest_of data) w = (Some (inr tt), w') /\ shrink w w'.
Proof.
  intros Hp Hl. destruct (read_calm p true data w) as (w1 & Hr & Hs); [rewrite Hp; by apply backup_readable|rewrite Hp; apply hold_file|].
  exists w1. split; [|done]. unfold backup_matches, andThen, mbind, L_bind. rewrite Hr, Bool.eqb_reflx. simpl.
  destruct data; simpl; [by rewrite String.eqb_refl|done].
Qed.

Lemma validateJournal_calm j w : Inv w -> shows j (cur w !! jp) -> succeeds (validateJournal m jp j) w.
Proof.
  intros HI Hj. assert (Ho := shown_ours m x w j HI Hj). unfold validateJournal. rewrite (shape_ours j Ho). simpl.
  destruct (journalTerminal (jPhase j)); [apply succeeds_ok|].
  assert (Hb : backed m x w) by (apply (i_backed m x w HI _ (possible_cur jp w)); by destruct Hj as (? & ? & -> & _)).
  destruct (ours_fields x j Ho) as (_ & _ & _ & _ & -> & -> & -> & -> & _).
  destruct (backup_calm (bf m x) (oldFragment x) w) as (w1 & Hr1 & Hs1); [apply durable_cur, Hb|auto|].
  assert (Hb1 := backed_shrink m x _ _ Hs1 Hb).
  destruct (backup_calm (bs m x) (Some (oldSidecar x)) w1) as (w2 & Hr2 & _); [apply durable_cur, Hb1|auto|].
  apply (run_then _ _ _ _ _ Hr1). by exists tt, w2.
Qed.

Lemma need_journal_calm w b :
  Inv w -> cur w !! jp = Some (Reg 384 true b) -> (Z.of_nat (String.length b) <= maxDocumentSize)%Z ->
  succeeds (need_journal jp) w.
Proof.
  intros HI Hj Hl. destruct (i_journal m x w HI _ (possible_cur jp w)) as [Hn|(j & (b' & Hb & Hd) & Ho)]; [congruence|].
  rewrite Hj in Hb. injection Hb as <-.
  destruct (ours_fields x j Ho) as (Hid & Hlease & _). assert (Hver : jVersion j = journalVersion) by (destruct Ho as [-> _]; done).
  eapply succeeds_then; [|apply readJournal_spec|].
  - unfold readJournal. eapply succeeds_then; [apply lsys_calm|apply lsys_spec|]. intros [] w1 Hs.
    unfold succeeds, mbind, L_bind, lgets. rewrite (shrink_cur _ _ jp Hs), Hj.
    match goal with |- exists a w', ?f w1 = _ => change (succeeds f w1) end.
    apply succeeds_after; [apply lsys_calm|]. intros [] w2. simpl. apply succeeds_after; [apply lsys_calm|]. intros [] w3.
    rewrite (proj2 (Z.ltb_ge _ _) Hl), Hd, Hver, Hid, Hlease. destruct live_ids as [H3 H4].
    rewrite (proj2 (String.eqb_neq _ _) H3), (proj2 (String.eqb_neq _ _) H4). simpl. apply succeeds_ok.
  - intros [k|] w' [_ Hk]; [apply succeeds_ok|]. specialize (Hk None eq_refl). simpl in Hk. congruence.
Qed.

(** ** The whole recovery *)

(** The decided journal, and its right result. *)
Lemma decide_calm nodeID j w : Inv w -> shows j (cur w !! jp) ->
  exists k res w', (match jResult j with
     | Some _ => ok j
     | None => lnow ≫= fun now => settle jp j (mkResult (jTaskID j) (jLeaseID j) nodeID (-1) "" "" interrupted 0 now)
     end) w = (Some (inr k), w') /\ jResult k = Some res /\ ours k /\ verdict x res w'.
Proof.
  intros HI Hsh. assert (Ho := shown_ours m x w j HI Hsh). destruct (ours_fields x j Ho) as (Hid & Hlease & _).
  destruct (jResult j) as [res|] eqn:Er.
  - exists j, res, w. split; [done|]. split; [done|]. split; [done|by eapply final_verdict].
  - assert (Hnow := lnow_set w). unfold lwp in Hnow. unfold mbind, L_bind.
    destruct (lnow w) as [[now|] w3] eqn:En; [|by unfold lnow in En; destruct (lclock (lenv w))].
    destruct Hnow as [Hs3 Hz]. assert (HI3 := Inv_shrink m x _ _ Hs3 HI).
    assert (Hsh3 : shows j (cur w3 !! jp)) by (by rewrite (shrink_cur _ _ _ Hs3)).
    set (r0 := mkResult _ _ _ _ _ _ _ _ _). assert (Hsnd : sound x r0) by done.
    destruct (lwp_succeeds _ _ _ _ (settle_calm j r0 w3 HI3 Hsh3 Er eq_refl Hsnd) (settle_spec m x j r0 w3 HI3 Hsh3 Er eq_refl Hsnd))
      as (k & w4 & Hr4 & _ & Hk). destruct (Hk k eq_refl) as (q & -> & Hok & Hv).
    exists (q.1 <| jResult := Some q.2 |>), q.2, w4. done.
Qed.

Lemma recoverOne_calm nodeID w b :
  Inv w -> cur w !! jp = Some (Reg 384 true b) -> (Z.of_nat (String.length b) <= maxDocumentSize)%Z ->
  exists res w', recoverOne m jp true nodeID "" None w = (Some (inr tt), w') /\
    (exists files unsynced, EvCompleted res files unsynced ∈ llog w') /\
    (forall p, p ∈ [bf m x; bs m x; jp] -> cur w' !! p = None) /\ pair_in x (succeeded res) (cur w').
Proof.
  intros HI Hj Hl. unfold recoverOne.
  destruct (lwp_succeeds _ _ _ _ (need_journal_calm w b HI Hj Hl) (need_journal_spec jp w)) as (j & w1 & Hr1 & Hs1 & Hsh).
  specialize (Hsh j eq_refl). rewrite <-(shrink_cur _ _ _ Hs1) in Hsh. assert (HI1 := Inv_shrink m x _ _ Hs1 HI).
  destruct (lwp_succeeds _ _ _ _ (validateJournal_calm j w1 HI1 Hsh) (validateJournal_spec m jp j w1)) as ([] & w2 & Hr2 & Hs2 & _).
  rewrite <-(shrink_cur _ _ _ Hs2) in Hsh. assert (HI2 := Inv_shrink m x _ _ Hs2 HI1).
  destruct (decide_calm nodeID j w2 HI2 Hsh) as (k & res & w3 & Hr3 & Hres & Hok & [Hv _]).
  destruct (ours_fields x k Hok) as (Hkid & Hklease & _).
  set (w4 := w3 <| llog ::= cons (EvCompleted res (cur w3) (past w3)) |>).
  assert (Hev : EvCompleted res (cur w3) (past w3) ∈ llog w4) by (unfold w4; upd; left).
  assert (Hc4 : cur w4 = cur w3) by (unfold w4; by upd).
  destruct (lwp_succeeds _ _ _ _ (lsys_calm (LComplete res) w4) (lsys_spec (LComplete res) w4)) as ([] & w5 & Hr5 & Hs5).
  destruct (Cleanup_calm w5) as (w6 & Hr6 & Hgone & Hkeep).
  exists res, w6. split; [|split; [|split; [done|]]].
  - unfold andThen, mbind, L_bind in Hr3 |- *. rewrite Hr1, Hr2. simpl. rewrite Hr3, Hres, Hkid, Hklease.
    unfold lgets, lemit, lmodify. simpl. change (w3 <| llog ::= _ |>) with w4. by rewrite Hr5.
  - exists (cur w3), (past w3).
    exact (lwp_run _ _ _ _ _ _ (Cleanup_log m _ _ w5 (fun l => EvCompleted res (cur w3) (past w3) ∈ l) (shrink_log _ _ _ Hs5 Hev)) Hr6).
  - pose proof (tx_names m x) as Hn. assert (Hp := sure_pair_in x _ _ Hv). rewrite <-Hc4 in Hp.
    assert (Hf : cur w6 !! fp x = cur w4 !! fp x) by (rewrite Hkeep by set_solver; by apply shrink_cur).
    assert (Hs : cur w6 !! sp x = cur w4 !! sp x) by (rewrite Hkeep by set_solver; by apply shrink_cur).
    destruct (succeeded res); destruct Hp; split; congruence.
Qed.

End Live.
