(* ===== verification/LineChainSample.v ===== *)
(** * A concrete line-chain transaction

    A codec that discharges the laws, one transaction, and the states it goes
    through; the theorems are applied to them. *)
From S2P Require Import Prelude GoStrings GoPath SDK TaskOutbox LineFs LineChain LineChainInv.
From S2P Require Import LineChainSteps LineChainProps LineChainLive LineMerge.
From Stdlib Require Import Ascii.

Import Chain.
Local Open Scope string_scope.

(** ** A codec *)

(** Texts one after the other: each character after an x, a semicolon ends. *)
Fixpoint put_text (s : string) : string :=
  match s with EmptyString => ";" | String c t => String "x"%char (String c (put_text t)) end.
Fixpoint put_texts (l : list string) : string :=
  match l with [] => "" | s :: l => put_text s +:+ put_texts l end.
Fixpoint get_texts (acc s : string) : option (list string) :=
  match s with
  | EmptyString => Some []
  | String c t =>
      if Ascii.eqb c "x"%char then
        match t with String d t => get_texts (acc +:+ String d "") t | EmptyString => None end
      else if Ascii.eqb c ";"%char then cons acc <$> get_texts "" t
      else if Ascii.eqb c (ascii_of_nat 10) then Some [] else None
  end.

Lemma get_put_text s acc rest : get_texts acc (put_text s +:+ rest) = cons (acc +:+ s) <$> get_texts "" rest.
Proof.
  revert acc. induction s as [|c s IH]; intros acc.
  - change (put_text "" +:+ rest) with (String ";"%char rest). simpl. by rewrite app_empty_r.
  - change (put_text (String c s) +:+ rest) with (String "x"%char (String c (put_text s +:+ rest))). simpl.
    rewrite IH. by rewrite string_app_assoc, app_cons, app_empty.
Qed.
Lemma get_put_texts l tail : get_texts "" tail = Some [] -> get_texts "" (put_texts l +:+ tail) = Some l.
Proof.
  intros Ht. induction l as [|s l IH]; simpl; [by rewrite app_empty|].
  by rewrite string_app_assoc, get_put_text, IH.
Qed.

(** Objects start with a brace and arrays with a bracket. *)
Definition toy_object (o : gmap string string) : string :=
  String "{"%char (put_texts (mjoin ((fun x => [x.1; x.2]) <$> map_to_list o))).
Fixpoint pairs (l : list string) : option (list (string * string)) :=
  match l with
  | [] => Some []
  | a :: b :: l => cons (a, b) <$> pairs l
  | [_] => None
  end.
Definition toy_get_object (s : string) : option (list (string * string)) :=
  match s with String c t => if Ascii.eqb c "{"%char then get_texts "" t ≫= pairs else None | _ => None end.
Definition toy_get_array (s : string) : option (option (list string)) :=
  if String.eqb s "null" then Some None
  else match s with String c t => if Ascii.eqb c "["%char then Some <$> get_texts "" t else None | _ => None end.

Lemma pairs_flat l : pairs (mjoin ((fun x : string * string => [x.1; x.2]) <$> l)) = Some l.
Proof. 
  induction l as [|[a b] l IH]; [done|].
  change (cons (a, b) <$> pairs (mjoin ((fun x : string * string => [x.1; x.2]) <$> l)) = Some ((a, b) :: l)). by rewrite IH.
Qed.

Lemma unique_fields_list o : unique_fields ∅ (map_to_list o) = Some o.
Proof.
  assert (Hg : forall l seen, NoDup l.*1 -> (forall k, k ∈ l.*1 -> seen !! k = None) ->
    unique_fields seen l = Some (list_to_map l ∪ seen)).
  { induction l as [|[k v] l IH]; intros seen Hn Hs; simpl; [by rewrite (left_id_L ∅ (∪))|].
    apply NoDup_cons in Hn as [Hk Hn]. rewrite bool_decide_false by (rewrite Hs by left; by intros [? [=]]).
    rewrite IH; [|done|].
    - f_equal. rewrite <-insert_union_l. rewrite insert_union_r; [done|]. by apply not_elem_of_list_to_map_1.
    - intros k' Hk'. rewrite lookup_insert_ne by (intros ->; by apply Hk). apply Hs. by right. }
  rewrite Hg; [|apply NoDup_fst_map_to_list|done]. by rewrite (right_id_L ∅ (∪)), list_to_map_to_list.
Qed.

(** Strings, nulls and numbers. *)
Definition toy_string (s : string) : string := String "'"%char s.
Definition toy_get_string (raw : string) : option string :=
  match raw with String c t => if Ascii.eqb c "'"%char then Some t else None | _ => None end.
Definition toy_nullable (v : option string) : string := from_option toy_string "null" v.
Definition toy_get_nullable (raw : string) : option (option string) :=
  if String.eqb raw "null" then Some None else Some <$> toy_get_string raw.
Definition toy_number (z : Z) : string := bits_of (encode z).
Definition toy_get_number (raw : string) : option Z := decode (of_bits raw).
Arguments toy_number : simpl never.
Arguments toy_get_number : simpl never.
Lemma toy_number_round z : toy_get_number (toy_number z) = Some z.
Proof. unfold toy_get_number, toy_number. by rewrite of_bits_of, decode_encode. Qed.

Definition toy_fields (raw : string) : option (gmap string string) := list_to_map <$> toy_get_object raw.

Definition toy_patch (p : SidecarPatchV2) : string :=
  toy_object (list_to_map [("schema", toy_string (pSchema p)); ("source_line_uuid", toy_string (SourceLineUUID p));
    ("source_inbound_tag", toy_string (SourceInboundTag p));
    ("expected_downstream_line_uuid", toy_nullable (ExpectedDownstreamLineUUID p));
    ("desired_downstream_line_uuid", toy_nullable (DesiredDownstreamLineUUID p))]).
Definition toy_get_patch (raw : string) : option SidecarPatchV2 :=
  o ← toy_fields raw;
  a ← o !! "schema" ≫= toy_get_string; b ← o !! "source_line_uuid" ≫= toy_get_string;
  c ← o !! "source_inbound_tag" ≫= toy_get_string; d ← o !! "expected_downstream_line_uuid" ≫= toy_get_nullable;
  e ← o !! "desired_downstream_line_uuid" ≫= toy_get_nullable;
  Some (mkPatch a b c d e).

Definition toy_wire (w : wireDocumentV2) (patch : string) : string :=
  toy_object (list_to_map [("version", toy_number (wVersion w)); ("durable_protocol", toy_string (wDurableProtocol w));
    ("operation", toy_string (wOperation w)); ("fragment_basename", toy_string (wFragmentBasename w));
    ("fragment", toy_nullable (wFragment w)); ("sidecar_patch", patch);
    ("previous_fragment_sha256", toy_nullable (wPreviousFragmentSHA256 w));
    ("fragment_sha256", toy_nullable (wFragmentSHA256 w));
    ("sidecar_patch_sha256", toy_string (wSidecarPatchSHA256 w));
    ("artifact_sha256", toy_string (wArtifactSHA256 w))]).
Definition toy_get_wire (raw : string) : option wireDocumentV2 :=
  o ← toy_fields raw;
  a ← o !! "version" ≫= toy_get_number; b ← o !! "durable_protocol" ≫= toy_get_string;
  c ← o !! "operation" ≫= toy_get_string; d ← o !! "fragment_basename" ≫= toy_get_string;
  e ← o !! "fragment" ≫= toy_get_nullable; f ← o !! "previous_fragment_sha256" ≫= toy_get_nullable;
  g ← o !! "fragment_sha256" ≫= toy_get_nullable; h ← o !! "sidecar_patch_sha256" ≫= toy_get_string;
  i ← o !! "artifact_sha256" ≫= toy_get_string;
  Some (mkWire a b c d e f g h i).

(** Results, phases and journals. *)
Definition toy_result (r : TaskResult) : string :=
  put_texts [rTaskID r; rLeaseID r; rNodeID r; toy_number (rExitCode r); rStdout r; rStderr r; rError r;
    toy_number (rStartedAt r); toy_number (rFinishedAt r)].
Definition toy_get_result (raw : string) : option TaskResult :=
  l ← get_texts "" raw;
  match l with
  | [a; b; c; d; e; f; g; h; i] =>
      d ← toy_get_number d; h ← toy_get_number h; i ← toy_get_number i; Some (mkResult a b c d e f g h i)
  | _ => None
  end.

Definition toy_phase (p : phase) : string :=
  match p with
  | Prepared => "prepared" | FragmentPublished => "fragment_published" | PairPublished => "pair_published"
  | DesiredVerified => "desired_verified" | OldRestored => "old_restored" | TerminalDesired => "terminal_desired"
  | TerminalOld => "terminal_old" | PhaseUnknown t => t
  end.
Definition toy_get_phase (s : string) : phase :=
  default (PhaseUnknown s) (snd <$> list_find (fun p => toy_phase p = s)
    [Prepared; FragmentPublished; PairPublished; DesiredVerified; OldRestored; TerminalDesired; TerminalOld]).

Definition toy_bool (b : bool) : string := if b then "true" else "false".

Definition toy_journal (j : journal) : string :=
  put_texts [toy_number (jVersion j); jTaskID j; jLeaseID j; jFragmentPath j; jSidecarPath j; jFragmentOld j; jSidecarOld j;
    jArtifactSHA256 j; jSidecarPatchSHA256 j; jFragmentOutputSHA256 j; jSidecarOutputSHA256 j; jTaskScriptSHA j;
    toy_bool (jFragmentHadOld j); toy_bool (jSidecarHadOld j); toy_phase (jPhase j); from_option toy_result "" (jResult j)].
Definition toy_get_journal (raw : string) : option journal :=
  l ← get_texts "" raw;
  match l with
  | [v; a; b; c; d; e; f; g; h; i; k; l; fo; so; p; r] =>
      v ← toy_get_number v;
      r ← if String.eqb r "" then Some None else Some <$> toy_get_result r;
      Some (mkJournal v a b c d e f g h i k l (String.eqb fo "true") (String.eqb so "true") (toy_get_phase p) r)
  | _ => None
  end.

(** A checksum of 64 hexadecimal digits. *)
Definition hex_digit (d : Z) : ascii := byte_of (if (d <? 10)%Z then 48 + d else 87 + d)%Z.
Fixpoint hex_digits (n : nat) (z : Z) : string :=
  match n with O => "" | S n => String (hex_digit (z mod 16)%Z) (hex_digits n (z / 16)%Z) end.
Fixpoint checksum (acc : Z) (s : string) : Z :=
  match s with EmptyString => acc | String c t => checksum ((acc * 263 + byte_val c + 1) mod 2305843009213693951)%Z t end.
Definition toy_sha (s : string) : string := hex_digits 64 (checksum 7 s).

#[export] Instance toy_json : LineJson := {|
  json_object := toy_get_object;
  json_array := toy_get_array;
  json_string := toy_get_string;
  enc_object o := Some (toy_object o);
  enc_array l := Some (String "["%char (put_texts l));
  enc_chain u := Some (toy_object (list_to_map [("downstream_line_uuid", toy_string u)]));
  wire_decode := toy_get_wire;
  patch_decode := toy_get_patch;
  patch_encode p := Some (toy_patch p);
  binding_encode b := Some (put_texts [bSchema b; bOperation b; bFragmentBasename b;
    toy_nullable (bPreviousFragmentSHA256 b); toy_nullable (bFragmentSHA256 b); bSidecarPatchSHA256 b]);
  journal_encode j := Some (toy_journal j);
  journal_decode := toy_get_journal;
  result_encode r := Some (toy_result r);
  lsha256 := toy_sha |}.

Lemma hex_digit_hex d : (0 <= d < 16)%Z -> is_hex (hex_digit d) = true.
Proof.
  intros Hd. assert (Hc : d ∈ seqZ 0 16) by (apply elem_of_seqZ; lia). clear Hd. revert d Hc.
  apply Forall_forall. by repeat constructor.
Qed.
Lemma toy_sha_valid s : validSHA (toy_sha s) = true.
Proof.
  unfold validSHA, toy_sha. generalize (checksum 7 s).
  assert (Hl : forall n z, String.length (hex_digits n z) = n) by (induction n; simpl; auto).
  assert (Hh : forall n z, str_forall is_hex (hex_digits n z) = true).
  { induction n as [|n IH]; intros z; simpl; [done|]. rewrite IH, hex_digit_hex; [done|]. apply Z.mod_pos_bound. lia. }
  intros z. by rewrite Hl, Hh.
Qed.

Lemma toy_result_round r : toy_get_result (toy_result r) = Some r.
Proof.
  unfold toy_get_result, toy_result. rewrite <-(app_empty_r (put_texts _)), get_put_texts by done.
  unfold mbind, option_bind. cbv beta iota. rewrite !toy_number_round. by destruct r.
Qed.
Lemma toy_journal_round j : (forall t, jPhase j <> PhaseUnknown t) -> toy_get_journal (toy_journal j) = Some j.
Proof.
  intros Hp. unfold toy_get_journal, toy_journal. rewrite <-(app_empty_r (put_texts _)), get_put_texts by done.
  unfold mbind, option_bind. cbv beta iota. rewrite toy_number_round.
  assert (Hr : (if String.eqb (from_option toy_result "" (jResult j)) "" then Some None
    else Some <$> toy_get_result (from_option toy_result "" (jResult j))) = Some (jResult j)).
  { destruct (jResult j) as [r|]; [|done]. simpl. rewrite toy_result_round.
    destruct (String.eqb_spec (toy_result r) "") as [He|]; [|done]. unfold toy_result in He. by destruct (rTaskID r). }
  rewrite Hr. assert (Hph : toy_get_phase (toy_phase (jPhase j)) = jPhase j).
  { destruct (jPhase j) as [| | | | | | |t]; try reflexivity. by destruct (Hp t). }
  rewrite Hph. destruct j as [????????????[] [] ? ?]; reflexivity.
Qed.

#[export] Instance toy_laws : @LineJsonLaws toy_json.
Proof.
  refine {| ltext := fun _ => True; lwire := fun r => r |}; try done.
  - intros j b _ Hp [= <-]. simpl. rewrite toy_journal_round by done. f_equal. destruct j as [??????????????? []]; reflexivity.
  - apply toy_sha_valid.
Defined.

#[export] Instance toy_object_laws : @LineObjectLaws toy_json.
Proof.
  refine {| jcompact := fun s => s |}; [|..|done].
  - intros o out [= <-]. rewrite map_fmap_id. split; [done|].
    assert (Hd : forall tail, get_texts "" tail = Some [] -> decodeUniqueJSONObject (toy_object o +:+ tail) = Some o).
    { intros tail Ht. unfold decodeUniqueJSONObject, toy_object. rewrite app_cons. set (l := mjoin _).
      change ((get_texts "" (put_texts l +:+ tail) ≫= pairs) ≫= unique_fields ∅ = Some o).
      rewrite get_put_texts by done. change (pairs l ≫= unique_fields ∅ = Some o). unfold l. rewrite pairs_flat.
      apply unique_fields_list. }
    split; [|by apply Hd]. rewrite <-(app_empty_r (toy_object o)). by apply Hd.
  - intros l out [= <-]. split; [done|]. rewrite list_fmap_id. simpl. unfold toy_get_array. simpl.
    by rewrite <-(app_empty_r (put_texts l)), get_put_texts.
Defined.

(** ** A transaction *)
Definition sample_manager : Manager := mkManager "/t" "/c" "/s/meta.json".
Definition uuid1 : string := "11111111-1111-4111-8111-111111111111".
Definition uuid2 : string := "22222222-2222-4222-9222-222222222222".
Definition sample_patch : SidecarPatchV2 := mkPatch semanticSidecarPatchSchema uuid1 "in" None (Some uuid2).
Definition sample_basename : string := "lattice-linechain-0123456789abcdef0123.json".

(** The wire document, bound as [BindDocument] does. *)
Definition bound (fragment : option string) (operation : string) (prev : option string) : wireDocumentV2 :=
  let b := mkBinding semanticArtifactSchema operation sample_basename prev (toy_sha <$> fragment)
    (toy_sha (toy_patch sample_patch)) in
  mkWire 2 "linechain-e3-v2" operation sample_basename fragment prev (toy_sha <$> fragment)
    (toy_sha (toy_patch sample_patch)) (toy_sha (default "" (canonicalSemanticArtifactBinding b))).
Definition sample_wire : wireDocumentV2 := bound (Some "outbound") "create" None.
Definition sample_raw : string := toy_wire sample_wire (toy_patch sample_patch).
Definition sample_doc : Document :=
  mkDocument sample_wire "/c" (path_join "/c" sample_basename) "/s/meta.json" sample_patch (toy_patch sample_patch).

Definition sample_inbound : string :=
  toy_object (list_to_map [("line_uuid", toy_string uuid1); ("tag", toy_string "in"); ("port", "443")]).
Definition sample_sidecar : string :=
  toy_object (list_to_map [("schema", toy_string semanticSidecarMetadataSchema);
    ("inbounds", String "["%char (put_texts [sample_inbound])); ("note", toy_string "kept")]).
Definition sample_merged : string := default "" (mergeManagedSidecar sample_sidecar sample_patch).

Definition sample_tx : transaction :=
  mkTx "t1" "l1" (toy_sha "script") sample_doc None sample_sidecar sample_merged.

(** An environment in which every call happens, at a fixed time. *)
#[export] Instance calm_os : LineOs unit := {| lask _ e := (Happens, e); lclock e := (1000%Z, e) |}.
#[export] Instance calm_os_laws : LineOsLaws unit.
Proof. by split. Qed.

Definition sample_start : lworld unit := mkLworld {["/s/meta.json" := Reg 420 true sample_sidecar]} ∅ tt [].
Definition sample_applied := Apply sample_manager sample_raw "t1" "l1" (toy_sha "script") sample_start.
Definition sample_task : Task := mkTask "t1" "l1" "sh" "script" 5 100.
Definition helper_result : TaskResult := mkResult "t1" "l1" "n1" 0 "ok" "" "" 900 950.
Definition sample_resolved := ResolveAfterRun sample_manager sample_task helper_result sample_applied.2.

Example sample_runs :
  sample_applied.1 = Some (inr tt) /\ sample_resolved.1 = Some (inr helper_result) /\
  cur sample_resolved.2 !! "/s/meta.json" = Some (Reg 384 true sample_merged).
Proof. vm_compute. done. Qed.

#[export] Instance sample_tx_laws : TxLaws sample_manager sample_tx.
Proof.
  split.
  - refine (bool_decide_unpack _ _). vm_compute. exact I.
  - by repeat constructor.
  - set (l := [oldFragment sample_tx; newFragment sample_tx; Some (oldSidecar sample_tx); Some (newSidecar sample_tx)]).
    assert (Hall : NoDup (digestPtr <$> l)) by (refine (bool_decide_unpack _ _); vm_compute; exact I).
    intros a b Ha Hb Hab. apply list_elem_of_lookup in Ha as [i Hi]. apply list_elem_of_lookup in Hb as [k Hk].
    assert (i = k) as -> by (eapply (NoDup_lookup _ _ _ _ Hall); rewrite list_lookup_fmap, ?Hi, ?Hk; simpl; by f_equal).
    congruence.
Qed.

Lemma pair_fst {A B} (p : A * B) a : p.1 = a -> p = (a, p.2).
Proof. destruct p. simpl. by intros ->. Qed.

Lemma sample_issues : issues sample_manager sample_tx sample_raw (toy_sha "script").
Proof. split; [|split]; vm_compute; reflexivity. Qed.

Lemma sample_started : started sample_manager sample_tx sample_start.
Proof.
  assert (Hd : forall p, possible sample_start p = [cur sample_start !! p]).
  { intros p. unfold possible, held. simpl. by rewrite lookup_empty. }
  unfold started, durable, pair_sure, sure. split; [|split; [|split; [|split]]].
  4: split.
  1-5: intros v; rewrite Hd, list_elem_of_singleton; intros ->; vm_compute; eauto.
  intros r files unsynced He. by apply elem_of_nil in He.
Qed.

Lemma sample_reach_applied : reach sample_manager sample_tx sample_applied.2.
Proof.
  apply (reach_apply _ _ sample_start sample_raw (toy_sha "script") sample_applied.1).
  - apply reach_start, sample_started.
  - apply sample_issues.
  - apply surjective_pairing.
Qed.

Lemma sample_resolved_eq : sample_resolved = (Some (inr helper_result), sample_resolved.2).
Proof. apply pair_fst, sample_runs. Qed.

Lemma resolved_result_exact_witness :
  succeeded helper_result = true /\ pair_sure sample_tx true sample_resolved.2.
Proof.
  split; [reflexivity|].
  apply (resolved_result_exact sample_manager sample_tx sample_applied.2 sample_task helper_result helper_result sample_resolved.2
    sample_reach_applied eq_refl eq_refl eq_refl eq_refl sample_resolved_eq).
Defined.

Definition recovered := recoverOne sample_manager (jp sample_manager sample_tx) true "n1" "" None sample_applied.2.
Lemma recovered_result_exact_witness : told sample_tx recovered.2.
Proof.
  apply (recovered_result_exact sample_manager sample_tx sample_applied.2 "n1" "" None recovered.1 recovered.2
    sample_reach_applied). apply surjective_pairing.
Defined.

Lemma apply_publishes_pair_witness : applied sample_manager sample_tx sample_applied.2.
Proof.
  apply (apply_publishes_pair sample_manager sample_tx sample_start sample_raw (toy_sha "script") sample_applied.2).
  - apply reach_start, sample_started.
  - apply sample_issues.
  - vm_compute. reflexivity.
  - apply pair_fst, sample_runs.
Defined.

(** The machine loses power after the verdict; asked again, the manager says the same. *)
Definition after_power_loss : lworld unit := crashed sample_resolved.2 (cur sample_resolved.2) tt.
Definition asked_again := ResolveAfterRun sample_manager sample_task helper_result after_power_loss.

Definition journal_file : string :=
  match cur sample_applied.2 !! jp sample_manager sample_tx with Some (Reg _ _ b) => b | _ => "" end.
Definition sample_journal : journal := default (base sample_tx) (journal_decode journal_file).

Lemma sample_journal_file : cur sample_applied.2 !! jp sample_manager sample_tx = Some (Reg 384 true journal_file) /\
  journal_decode journal_file = Some sample_journal /\ jResult sample_journal = None /\
  (Z.of_nat (String.length journal_file) <=? maxDocumentSize)%Z = true.
Proof. vm_compute. done. Qed.
Lemma sample_journal_shown : shows sample_journal (cur sample_applied.2 !! jp sample_manager sample_tx).
Proof. destruct sample_journal_file as (Hf & Hd & _). exists 384%Z, journal_file. split; [exact Hf|exact Hd]. Qed.

Lemma resolved_result_stable_witness : exists q, asked_again.1 = Some (inr q) /\ q = lwire helper_result.
Proof.
  assert (Hrun : asked_again.1 = Some (inr helper_result)) by (vm_compute; reflexivity).
  exists helper_result. split; [exact Hrun|].
  apply (resolved_result_stable sample_manager sample_tx sample_applied.2 sample_task helper_result helper_result sample_resolved.2
    sample_journal (cur sample_resolved.2) tt sample_task helper_result helper_result asked_again.2
    sample_reach_applied eq_refl eq_refl eq_refl eq_refl eq_refl eq_refl sample_journal_shown (proj1 (proj2 (proj2 sample_journal_file))) sample_resolved_eq).
  - intros p. apply possible_cur.
  - apply pair_fst, Hrun.
Defined.

#[export] Instance sample_tx_live : TxLive sample_manager sample_tx.
Proof.
  split.
  - done.
  - vm_compute. reflexivity.
  - done.
  - vm_compute. done.
  - intros j _. eexists. reflexivity.
Qed.


Lemma merge_changes_one_chain_witness : exists top' : gmap string string,
  decodeUniqueJSONObject sample_merged = Some top' /\ top' !! "note" = Some (toy_string "kept").
Proof.
  destruct (merge_changes_one_chain sample_sidecar sample_patch sample_merged) as
    (top & inb & i & raw & inbound & Htop & _ & _ & _ & _ & _ & _ & top' & _ & _ & _ & Ht & Hd & _).
  - vm_compute. reflexivity.
  - exists top'. split; [exact Ht|]. assert (Hn : delete "inbounds" top' !! "note" = Some (toy_string "kept")).
    + rewrite Hd, lookup_fmap. assert (Et : Some top = decodeJSONObject sample_sidecar) by done.
      assert (Ek : option_map (fun t : gmap string string => delete "inbounds" t !! "note") (decodeJSONObject sample_sidecar)
        = Some (Some (toy_string "kept"))) by (vm_compute; reflexivity).
      rewrite <-Et in Ek. injection Ek as ->. reflexivity.
    + by rewrite lookup_delete_ne in Hn.
Defined.

(** ** A result that did not last

    A final journal whose directory could not be synced is still believed when
    it is read again.  Here the sync after the verdict fails, recovery in the
    same boot hands the success over, and power is lost before the clean-up is
    synced: the journal comes back without its result, the service no longer
    starts, and recovery hands over a failure and the old pair. *)
Module Lost.

(** The answers to directory syncs and to service checks, in order; all else happens. *)
Record script := mkScript { syncs : list answer; checks : list answer }.
Definition next (l : list answer) : answer * list answer :=
  match l with [] => (Happens, []) | a :: l => (a, l) end.
#[local] Instance script_os : LineOs script := {|
  lask c e :=
    match c with
    | LSyncDir _ => let '(a, l) := next (syncs e) in (a, mkScript l (checks e))
    | LCommand CmdVerify => let '(a, l) := next (checks e) in (a, mkScript (syncs e) l)
    | _ => (Happens, e)
    end;
  lclock e := (1000%Z, e) |}.

Definition start : lworld script :=
  mkLworld {["/s/meta.json" := Reg 420 true sample_sidecar]} ∅
    (mkScript (replicate 7 Happens ++ [Fails "input/output error"; Dies]) [Happens; Happens; Fails "inactive"]) [].
Definition applied_to := Apply sample_manager sample_raw "t1" "l1" (toy_sha "script") start.
Definition undecided := ResolveAfterRun sample_manager sample_task helper_result applied_to.2.
Definition handed_over := recoverOne sample_manager (jp sample_manager sample_tx) true "n1" "" None undecided.2.
Definition reboot : lworld script := crashed handed_over.2 (cur applied_to.2) (lenv handed_over.2).
Definition handed_over_again := recoverOne sample_manager (jp sample_manager sample_tx) true "n1" "" None reboot.

Definition verdicts (l : list levent) : list bool :=
  omap (fun e => match e with EvCompleted r _ _ => Some (succeeded r) | _ => None end) l.

Example lost_runs :
  applied_to.1 = Some (inr tt) /\ undecided.1 = Some (inl "input/output error") /\ handed_over.1 = None /\
  handed_over_again.1 = Some (inr tt) /\ verdicts (llog handed_over_again.2) = [false; true].
Proof. vm_compute. done. Qed.

(** What a crash may leave can be checked name by name. *)
Definition may_leave (files : gmap string inode) (w : lworld script) : bool :=
  forallb (fun p => bool_decide (files !! p ∈ possible w p)) (elements (dom files ∪ dom (cur w) ∪ dom (past w))).
Lemma may_leave_sound files w : may_leave files w = true -> forall p, files !! p ∈ possible w p.
Proof.
  intros Hl p. destruct (decide (p ∈ dom files ∪ dom (cur w) ∪ dom (past w))) as [Hp|Hp].
  - apply elem_of_elements in Hp. unfold may_leave in Hl. rewrite forallb_forall in Hl.
    apply list_elem_of_In in Hp. apply Hl in Hp. by apply bool_decide_eq_true in Hp.
  - rewrite !not_elem_of_union, !not_elem_of_dom in Hp. destruct Hp as [[Hf Hc] Hq].
    unfold possible, held. rewrite Hf, Hc, Hq. left.
Qed.

Lemma start_started : started sample_manager sample_tx start.
Proof.
  assert (Hd : forall p, possible start p = [cur start !! p]).
  { intros p. unfold possible, held. simpl. by rewrite lookup_empty. }
  unfold started, durable, pair_sure, sure. split; [|split; [|split; [|split]]].
  4: split.
  1-5: intros v; rewrite Hd, list_elem_of_singleton; intros ->; vm_compute; eauto.
  intros r files unsynced He. by apply elem_of_nil in He.
Qed.

(** A result recovery has handed over can be contradicted by a later recovery:
    both a success and a failure are handed over for the same task and lease,
    one before and one after a power failure. *)
Theorem handed_over_result_can_change : exists (w0 w1 w2 w3 w4 : lworld script) (files : gmap string inode) (err : string),
  started sample_manager sample_tx w0 /\
  Apply sample_manager sample_raw "t1" "l1" (toy_sha "script") w0 = (Some (inr tt), w1) /\
  ResolveAfterRun sample_manager sample_task helper_result w1 = (Some (inl err), w2) /\
  recoverOne sample_manager (jp sample_manager sample_tx) true "n1" "" None w2 = (None, w3) /\
  (forall p, files !! p ∈ possible w3 p) /\
  recoverOne sample_manager (jp sample_manager sample_tx) true "n1" "" None (crashed w3 files (lenv w3)) = (Some (inr tt), w4) /\
  verdicts (llog w4) = [false; true].
Proof.
  exists start, applied_to.2, undecided.2, handed_over.2, handed_over_again.2, (cur applied_to.2), "input/output error".
  destruct lost_runs as (H1 & H2 & H3 & H4 & H5).
  split; [apply start_started|]. split; [apply pair_fst, H1|]. split; [apply pair_fst, H2|]. split; [apply pair_fst, H3|].
  split; [apply may_leave_sound; vm_compute; reflexivity|]. split; [apply pair_fst, H4|exact H5].
Qed.
End Lost.
