(* ===== verification/GoRegexp.v ===== *)
(** * Anchored regular expressions (regexp)

    The subset of Go's regular expressions the agent's anchored patterns use,
    with the leftmost-first semantics the package documents: the match a
    backtracking engine finds first.  Repetition is over single bytes, so
    matching is structural in the subject.  Classes are byte classes: a literal
    follows every repetition the agent captures, so a match never splits a
    multi-byte rune. *)
From Stdlib Require Import Ascii.
From S2P Require Import Prelude GoStrings.

Local Open Scope string_scope.

Module Regexp.

Inductive re :=
  | Lit (s : string)
  | Cls (P : ascii -> bool)
  | Star (P : ascii -> bool)          (* greedy *)
  | PlusLazy (P : ascii -> bool)
  | Opt (r : re)                      (* greedy *)
  | Alt (r1 r2 : re)
  | Seq (r1 r2 : re)
  | Grp (name : string) (r : re)
  | Eos.
Definition Plus (P : ascii -> bool) : re := Seq (Cls P) (Star P).
Fixpoint seqs (l : list re) : re := match l with [] => Lit "" | [r] => r | r :: l => Seq r (seqs l) end.

(** Byte classes: digits, [\s], [\S], [.]. *)
Definition is_space (c : ascii) : bool :=
  let b := byte_val c in ((b =? 9) || (b =? 10) || (b =? 12) || (b =? 13) || (b =? 32))%Z.
Definition not_space (c : ascii) : bool := negb (is_space c).
Definition dot (c : ascii) : bool := negb (byte_val c =? 10)%Z.
Definition is_upper (c : ascii) : bool := ((65 <=? byte_val c) && (byte_val c <=? 90))%Z.
Definition is_lower (c : ascii) : bool := ((97 <=? byte_val c) && (byte_val c <=? 122))%Z.

Definition caps : Type := list (string * string).
Definition cap (cs : caps) (name : string) : string :=
  match find (fun x => String.eqb x.1 name) cs with Some x => x.2 | None => "" end.

Section Run.
Context {A : Type}.

Fixpoint star (P : ascii -> bool) (s : string) (k : string -> option A) : option A :=
  match s with
  | EmptyString => k s
  | String c s' => if P c then match star P s' k with Some r => Some r | None => k s end else k s
  end.
Fixpoint star_lazy (P : ascii -> bool) (s : string) (k : string -> option A) : option A :=
  match k s with
  | Some r => Some r
  | None => match s with EmptyString => None | String c s' => if P c then star_lazy P s' k else None end
  end.
End Run.

(** [k] is what is left of the pattern. *)
Fixpoint run {A} (r : re) (s : string) (cs : caps) (k : string -> caps -> option A) : option A :=
  match r with
  | Lit p => match cut_prefix s p with Some s' => k s' cs | None => None end
  | Cls P => match s with String c s' => if P c then k s' cs else None | EmptyString => None end
  | Star P => star P s (fun s' => k s' cs)
  | PlusLazy P => match s with String c s' => if P c then star_lazy P s' (fun s'' => k s'' cs) else None | EmptyString => None end
  | Opt r => match run r s cs k with Some x => Some x | None => k s cs end
  | Alt r1 r2 => match run r1 s cs k with Some x => Some x | None => run r2 s cs k end
  | Seq r1 r2 => run r1 s cs (fun s' cs' => run r2 s' cs' k)
  | Grp name r => run r s cs (fun s' cs' => k s' ((name, str_take (String.length s - String.length s') s) :: cs'))
  | Eos => if String.eqb s "" then k s cs else None
  end.

(** The captures of a match at the start of the text, and what follows it. *)
Definition find_prefix (r : re) (s : string) : option (caps * string) := run r s [] (fun s' cs => Some (cs, s')).

(** ** Laws *)

Lemma re_seq {A} r1 r2 s cs (k : string -> caps -> option A) : run (Seq r1 r2) s cs k = run r1 s cs (fun s' cs' => run r2 s' cs' k).
Proof. done. Qed.
Lemma run_lit {A} p s cs (k : string -> caps -> option A) : run (Lit p) (p +:+ s) cs k = k s cs.
Proof. simpl. by rewrite cut_prefix_app. Qed.
Lemma run_lit_fail {A} p s cs (k : string -> caps -> option A) : has_prefix s p = false -> run (Lit p) s cs k = None.
Proof. intros Hp. simpl. unfold cut_prefix. by rewrite Hp. Qed.
Lemma run_grp {A} name r s cs (k : string -> caps -> option A) :
  run (Grp name r) s cs k = run r s cs (fun s' cs' => k s' ((name, str_take (String.length s - String.length s') s) :: cs')).
Proof. done. Qed.

(** A string a repetition runs over, and cannot run past. *)
Definition stops (P : ascii -> bool) (s : string) : bool := match s with String c _ => negb (P c) | EmptyString => true end.

(** A greedy repetition takes a whole token when what is left can only match
    where the token ends. *)
Lemma star_token {A} P u s (k : string -> option A) :
  str_forall P u = true -> stops P s = true -> k s <> None -> star P (u +:+ s) k = k s.
Proof.
  intros Hu Hs Hk. induction u as [|c u IH].
  - rewrite app_empty. destruct s as [|c s]; [done|]. simpl in *. by destruct (P c).
  - rewrite app_cons. simpl in *. apply andb_prop in Hu as [-> Hu]. rewrite IH by done. by destruct (k s).
Qed.

(** A greedy repetition goes as far as what is left still matches: at [t], and
    at no later place. *)
Lemma star_last {A} P u t (k : string -> option A) x :
  str_forall P u = true -> k t = Some x -> (forall a b, t = a +:+ b -> a <> EmptyString -> k b = None) ->
  star P (u +:+ t) k = Some x.
Proof.
  intros Hu Hk Hlate. assert (Ht : star P t k = Some x).
  { assert (Hsuf : forall b a, t = a +:+ b -> a <> EmptyString -> star P b k = None).
    { induction b as [|c b IH]; intros a Ha Hne; simpl; [by eapply Hlate|].
      rewrite (Hlate a (String c b) Ha Hne). destruct (P c); [|done].
      rewrite (IH (a +:+ String c "")); [done| |by destruct a]. by rewrite Ha, string_app_assoc, app_cons, app_empty. }
    destruct t as [|c t]; [done|]. simpl. rewrite Hk. destruct (P c); [|done].
    by rewrite (Hsuf t (String c "")). }
  induction u as [|c u IH]; [by rewrite app_empty|]. rewrite app_cons. simpl in *. apply andb_prop in Hu as [-> Hu]. by rewrite IH.
Qed.

(** It cannot match at all when what is left matches nowhere. *)
Lemma star_none {A} P s (k : string -> option A) : (forall a b, s = a +:+ b -> k b = None) -> star P s k = None.
Proof.
  intros Hk. induction s as [|c s IH]; simpl; [by apply (Hk "")|].
  rewrite IH; [|intros a b ->; apply (Hk (String c a)); by rewrite app_cons].
  rewrite (Hk "" (String c s)) by done. by destruct (P c).
Qed.
End Regexp.
