(* ===== verification/Witness.v ===== *)
(** * The control-plane witness (internal/witness/state.go, witness.go, config.go)

    The state the witness keeps, how one check is folded into it, and the
    check loop's [Tick].  Clocks, the outcome of a check and of a push, and
    whether the state could be saved are inputs. *)
From S2P Require Import Prelude GoStrings GoPath.

Local Open Scope Z_scope.

Module Wit.

Definition StateVersion : Z := 1.
Inductive Phase := PhaseStarting | PhaseWatching | PhaseFailing | PhaseDown | PhaseNetworkDown.
Inductive PushKind := PushDown | PushRecovery.
#[export] Instance PushKind_eq_dec : EqDecision PushKind.
Proof. solve_decision. Defined.

(** The parts of a net/url.URL the witness reads. *)
Record URL := mkURL {
  Scheme : string;
  HasUser : bool;
  Host : string;
  Hostname : string;
  RawQuery : string;
  Fragment : string
}.

(** net/url, net.ParseIP's loopback test and time formatting: a parser that
    returns no URL fails. *)
Class Library := {
  url_Parse : string -> option URL;
  ip_is_loopback : string -> bool;
  clock : time -> string
}.

Definition ConfigVersion : Z := 1.
Record Config := mkConfig {
  cVersion : Z;
  NodeName : string;
  HealthURL : string;
  ReferenceURLs : list string;
  BarkURL : string;
  BarkDeviceKeyFile : string;
  BarkGroup : string;
  BarkLevel : string;
  IntervalSeconds : Z;
  HoldSeconds : Z;
  RecoverSeconds : Z;
  StateFile : string
}.

Definition DefaultStateFile : string := "/var/lib/lattice-witness/status.json".
Definition DefaultInterval : duration := 30 * second.
Definition DefaultHold : duration := 3 * minute.
Definition DefaultRecover : duration := minute.
Definition DefaultBarkLevel : string := "critical".
Definition DefaultBarkGroup : string := "lattice-witness".
Definition minInterval : duration := 15 * second.
Definition maxInterval : duration := 10 * minute.
Definition maxHold : duration := 60 * minute.
Definition maxRefs : Z := 3.
Definition barkLevels : list string := ["active"; "timeSensitive"; "passive"; "critical"].

Definition secondsOr (v : Z) (d : duration) : duration := if v <=? 0 then d else i64 (v * second).
Definition Interval (c : Config) : duration := secondsOr (IntervalSeconds c) DefaultInterval.
Definition Hold (c : Config) : duration := secondsOr (HoldSeconds c) DefaultHold.
Definition Recover (c : Config) : duration := secondsOr (RecoverSeconds c) DefaultRecover.
Definition StatePath (c : Config) : string :=
  if String.eqb (trim_space (StateFile c)) "" then DefaultStateFile else StateFile c.
Definition Level (c : Config) : string := if String.eqb (BarkLevel c) "" then DefaultBarkLevel else BarkLevel c.
Definition Group (c : Config) : string := if String.eqb (BarkGroup c) "" then DefaultBarkGroup else BarkGroup c.
Definition maxGap (c : Config) : duration := Z.max (i64 (3 * Interval c)) (Hold c).

(** ** Validation *)
Section Validation.
Context `{Library}.

Definition isLoopbackHost (host : string) : bool := equal_fold host "localhost" || ip_is_loopback host.
Definition sameHost (a b : string) : bool :=
  match url_Parse a, url_Parse b with
  | Some ua, Some ub => equal_fold (Hostname ua) (Hostname ub)
  | _, _ => false
  end.

(** The first violated rule; [None] accepts. *)
Inductive refusal :=
  | badVersion | noNodeName | notAbsolute | credentials | needsHTTPS | badReferenceCount | referenceOnHealthHost
  | badBarkURL | barkNotBare | barkNotLoopback | keyFileNotAbsolute | badBarkLevel | badBarkGroup
  | stateFileNotAbsolute | badInterval | badHold | badRecover.

Definition checkWatchURL (raw : string) : option refusal :=
  match url_Parse (trim_space raw) with
  | None => Some notAbsolute
  | Some u =>
      if String.eqb (Host u) "" then Some notAbsolute
      else if HasUser u then Some credentials
      else if String.eqb (Scheme u) "https" then None
      else if String.eqb (Scheme u) "http" then if isLoopbackHost (Hostname u) then None else Some needsHTTPS
      else Some needsHTTPS
  end.

Definition checkLoopbackURL (raw : string) : option refusal :=
  match url_Parse (trim_space raw) with
  | None => Some badBarkURL
  | Some u =>
      if String.eqb (Host u) "" || (negb (String.eqb (Scheme u) "http") && negb (String.eqb (Scheme u) "https"))
      then Some badBarkURL
      else if HasUser u || negb (String.eqb (RawQuery u) "") || negb (String.eqb (Fragment u) "") then Some barkNotBare
      else if negb (isLoopbackHost (Hostname u)) then Some barkNotLoopback
      else None
  end.

Fixpoint check_references (health : string) (refs : list string) : option refusal :=
  match refs with
  | [] => None
  | ref :: refs =>
      match checkWatchURL ref with
      | Some e => Some e
      | None => if sameHost ref health then Some referenceOnHealthHost else check_references health refs
      end
  end.

Definition Validate (c : Config) : option refusal :=
  if negb (cVersion c =? ConfigVersion) then Some badVersion
  else if String.eqb (trim_space (NodeName c)) "" then Some noNodeName
  else match checkWatchURL (HealthURL c) with Some e => Some e | None =>
  if (zlen (ReferenceURLs c) =? 0) || (maxRefs <? zlen (ReferenceURLs c)) then Some badReferenceCount
  else match check_references (HealthURL c) (ReferenceURLs c) with Some e => Some e | None =>
  match checkLoopbackURL (BarkURL c) with Some e => Some e | None =>
  if negb (path_abs (BarkDeviceKeyFile c)) then Some keyFileNotAbsolute
  else if negb (String.eqb (BarkLevel c) "") && negb (existsb (String.eqb (BarkLevel c)) barkLevels) then Some badBarkLevel
  else if negb (String.eqb (BarkGroup c) "") &&
    ((64 <? Z.of_nat (String.length (BarkGroup c))) || str_exists (fun b => (byte_val b =? 13) || (byte_val b =? 10)) (BarkGroup c))
  then Some badBarkGroup
  else if negb (String.eqb (StateFile c) "") && negb (path_abs (StateFile c)) then Some stateFileNotAbsolute
  else
    let interval := Interval c in
    if (interval <? minInterval) || (maxInterval <? interval) then Some badInterval
    else if (Hold c <? 2 * interval) || (maxHold <? Hold c) then Some badHold
    else if (Recover c <? interval) || (maxHold <? Recover c) then Some badRecover
    else None
  end end end.
End Validation.

Record State := mkState {
  Version : Z;
  ConfigSHA256 : string;
  StartedAt : time;
  sPhase : Phase;
  sHealthURL : string;
  ReferenceCount : Z;
  sIntervalSeconds : Z;
  sHoldSeconds : Z;
  LastCheckAt : time;
  LastCheckOK : bool;
  LastCheckDetail : string;
  LastOKAt : time;
  FailingSince : time;
  FailingFor : duration;
  ConsecutiveFailures : Z;
  OKSince : time;
  OKFor : duration;
  ConsecutiveOK : Z;
  NetworkDownSince : time;
  Alerted : bool;
  AlertedAt : time;
  DownSince : time;
  OutageFor : duration;
  LastPushAt : time;
  LastPushKind : option PushKind;
  LastPushOK : bool;
  LastPushError : string;
  Pushes : Z
}.
#[export] Instance State_eta : Etable State := fun s =>
  mkState (Version s) (ConfigSHA256 s) (StartedAt s) (sPhase s) (sHealthURL s) (ReferenceCount s)
    (sIntervalSeconds s) (sHoldSeconds s) (LastCheckAt s) (LastCheckOK s) (LastCheckDetail s) (LastOKAt s)
    (FailingSince s) (FailingFor s) (ConsecutiveFailures s) (OKSince s) (OKFor s) (ConsecutiveOK s)
    (NetworkDownSince s) (Alerted s) (AlertedAt s) (DownSince s) (OutageFor s) (LastPushAt s)
    (LastPushKind s) (LastPushOK s) (LastPushError s) (Pushes s).

(** The zero state. *)
Definition fresh : State :=
  mkState 0 "" 0 PhaseStarting "" 0 0 0 0 false "" 0 0 0 0 0 0 0 0 false 0 0 0 0 None false "" 0.

Record CheckResult := mkCheck { OK : bool; Detail : string; NetworkUp : bool }.
Record Push := mkPush { Kind : PushKind; Title : string; Body : string; pLevel : string }.

(** The time since the previous check, and whether it breaks the runs. *)
Definition sinceLastCheck (prev now : time) (mono : duration) (inProcess : bool) (gap : duration) : duration * bool :=
  if is_zero_time prev then (0, false)
  else
    let wall := time_sub now prev in
    if inProcess then (mono, (gap <? mono) || (gap <? wall)) else (wall, (wall <? 0) || (gap <? wall)).

Section Texts.
Context `{Library}.
Local Open Scope string_scope.

Definition hostOf (rawURL : string) : string :=
  match url_Parse rawURL with
  | Some u => if String.eqb (Host u) "" then rawURL else Host u
  | None => rawURL
  end.

Definition orUnknown (s : string) : string := if String.eqb s "" then "no answer" else s.

Definition roughDuration (d : duration) : string :=
  if (d <? minute)%Z then itoa (int_seconds d) +:+ " s"
  else
    let m := int_minutes d in
    if (m <? 60)%Z then itoa m +:+ " min" else itoa (Z.quot m 60) +:+ " h " +:+ itoa (Z.rem m 60) +:+ " min".

Definition downPush (cfg : Config) (s : State) : Push :=
  let '(title, failed) :=
    if has_prefix (LastCheckDetail s) "http "
    then ("Lattice control plane not ready", "has answered without reporting ready")
    else ("Lattice control plane unreachable", "has not answered") in
  mkPush PushDown title
    ("Seen from " +:+ NodeName cfg +:+ ": " +:+ hostOf (HealthURL cfg) +:+ " " +:+ failed +:+ " for about "
     +:+ roughDuration (FailingFor s) +:+ " (" +:+ itoa (ConsecutiveFailures s) +:+ " checks; last: "
     +:+ orUnknown (LastCheckDetail s) +:+ "; first failed check " +:+ clock (FailingSince s)
     +:+ " by this node's clock). This node's own network is up. Sent by the Lattice witness on " +:+ NodeName cfg
     +:+ " through its local Bark server, because Lattice itself cannot send anything now.")
    (Level cfg).

Definition recoveryPush (cfg : Config) (s : State) : Push :=
  let outage := Z.max (i64 (OutageFor s - OKFor s)) 0 in
  mkPush PushRecovery "Lattice control plane ready again"
    ("Seen from " +:+ NodeName cfg +:+ ": " +:+ hostOf (HealthURL cfg) +:+ " reports ready again after about "
     +:+ roughDuration outage +:+ " down (answering for " +:+ roughDuration (OKFor s) +:+ ", since "
     +:+ clock (OKSince s) +:+ " by this node's clock). Sent by the Lattice witness on " +:+ NodeName cfg +:+ ".")
    "active".

Local Close Scope string_scope.

(** The runs are broken, or the time belongs to the one going on. *)
Definition carry_runs (step : duration) (gap : bool) (s : State) : State :=
  let s :=
    if gap then
      s <| FailingSince := 0 |> <| FailingFor := 0 |> <| ConsecutiveFailures := 0 |>
        <| OKSince := 0 |> <| OKFor := 0 |> <| ConsecutiveOK := 0 |>
    else
      let s := if 0 <? ConsecutiveFailures s then s <| FailingFor ::= fun d => i64 (d + step) |> else s in
      if 0 <? ConsecutiveOK s then s <| OKFor ::= fun d => i64 (d + step) |> else s in
  if Alerted s && (0 <? step) then s <| OutageFor ::= fun d => i64 (d + step) |> else s.

Definition observe_ok (cfg : Config) (now : time) (s : State) : State * option Push :=
  let s := s <| LastOKAt := now |> <| NetworkDownSince := 0 |>
             <| FailingSince := 0 |> <| FailingFor := 0 |> <| ConsecutiveFailures := 0 |> in
  let s := if ConsecutiveOK s =? 0 then s <| OKSince := now |> <| OKFor := 0 |> else s in
  let s := s <| ConsecutiveOK ::= fun n => i64 (n + 1) |> <| sPhase := PhaseWatching |> in
  if Alerted s then
    let s := s <| sPhase := PhaseDown |> in
    if (2 <=? ConsecutiveOK s) && (Recover cfg <=? OKFor s) then (s, Some (recoveryPush cfg s)) else (s, None)
  else (s, None).

Definition observe_failed (cfg : Config) (now : time) (networkUp : bool) (s : State) : State * option Push :=
  let s := s <| OKSince := 0 |> <| OKFor := 0 |> <| ConsecutiveOK := 0 |> in
  if negb networkUp then
    let s := if is_zero_time (NetworkDownSince s) then s <| NetworkDownSince := now |> else s in
    (s <| sPhase := PhaseNetworkDown |>, None)
  else
    let backFromNetworkDown := negb (is_zero_time (NetworkDownSince s)) in
    let s := s <| NetworkDownSince := 0 |> in
    let s := if ConsecutiveFailures s =? 0 then s <| FailingSince := now |> <| FailingFor := 0 |> else s in
    let s := s <| ConsecutiveFailures ::= fun n => i64 (n + 1) |> in
    if Alerted s then (s <| sPhase := PhaseDown |>, None)
    else
      let s := s <| sPhase := PhaseFailing |> in
      if (2 <=? ConsecutiveFailures s) && (Hold cfg <=? FailingFor s) && negb backFromNetworkDown
      then (s, Some (downPush cfg s)) else (s, None).

Definition observe (cfg : Config) (now : time) (step : duration) (gap : bool) (res : CheckResult) (s : State)
    : State * option Push :=
  let s := s <| LastCheckAt := now |> <| LastCheckOK := OK res |> <| LastCheckDetail := Detail res |> in
  let s := carry_runs step gap s in
  if OK res then observe_ok cfg now s else observe_failed cfg now (NetworkUp res) s.

(** The outcome of a push; an empty failure kind is a delivery. *)
Definition pushed (p : Push) (now : time) (errKind : string) (s : State) : State :=
  let s := s <| LastPushAt := now |> <| LastPushKind := Some (Kind p) |>
             <| LastPushOK := String.eqb errKind "" |> <| LastPushError := errKind |> in
  if negb (String.eqb errKind "") then s
  else
    let s := s <| Pushes ::= fun n => i64 (n + 1) |> in
    match Kind p with
    | PushDown => s <| Alerted := true |> <| AlertedAt := now |> <| DownSince := FailingSince s |>
                    <| OutageFor := FailingFor s |> <| sPhase := PhaseDown |>
    | PushRecovery => s <| Alerted := false |> <| AlertedAt := 0 |> <| DownSince := 0 |>
                        <| OutageFor := 0 |> <| sPhase := PhaseWatching |>
    end.

(** A loaded state, prepared for this process and this configuration. *)
Definition adopt (cfg : Config) (configSHA : string) (now : time) (s : State) : State :=
  let s :=
    if negb (Version s =? StateVersion) || negb (String.eqb (ConfigSHA256 s) configSHA) then
      fresh <| Alerted := Alerted s |> <| AlertedAt := AlertedAt s |> <| DownSince := DownSince s |>
            <| OutageFor := OutageFor s |> <| LastPushAt := LastPushAt s |> <| LastPushKind := LastPushKind s |>
            <| LastPushOK := LastPushOK s |> <| LastPushError := LastPushError s |> <| Pushes := Pushes s |>
    else s in
  let s := s <| Version := StateVersion |> <| ConfigSHA256 := configSHA |> <| StartedAt := now |>
             <| sHealthURL := HealthURL cfg |> <| ReferenceCount := zlen (ReferenceURLs cfg) |>
             <| sIntervalSeconds := int_seconds (Interval cfg) |> <| sHoldSeconds := int_seconds (Hold cfg) |> in
  let s := if is_zero_time (LastCheckAt s) then s <| sPhase := PhaseStarting |> else s in
  if Alerted s then s <| sPhase := PhaseDown |> else s.

(** ** The loop *)
Record Witness := mkWitness { cfg : Config; state : State; lastMono : duration; checked : bool }.
#[export] Instance Witness_eta : Etable Witness := fun w => mkWitness (cfg w) (state w) (lastMono w) (checked w).

Definition New (c : Config) (configSHA : string) (st : State) (now : time) : Witness :=
  mkWitness c (adopt c configSHA now st) 0 false.

(** The control plane's answer, and the references' when it failed. *)
Definition check (health : bool * string) (reachable : bool) : CheckResult :=
  if health.1 then mkCheck true "" false else mkCheck false health.2 reachable.

(** What one tick meets: the probes' answers, whether the witness is being stopped when
    it ends, the clocks, the outcome of a push ([None] when the stop cut it
    short) and the time after it, and whether the state is saved. *)
Record tick := mkTick {
  tHealth : bool * string;
  tReachable : bool;
  tStopped : bool;
  tNow : time;
  tMono : duration;
  tPush : option string;
  tPushedAt : time;
  tSaved : bool
}.

Definition tRes (t : tick) : CheckResult := check (tHealth t) (tReachable t).

(** The witness after the tick, the push with its outcome if one was sent, and
    whether the state was saved. *)
Definition Tick (t : tick) (w : Witness) : Witness * option (Push * option string) * bool :=
  if tStopped t then (w, None, false)
  else
    let '(step, gap) := sinceLastCheck (LastCheckAt (state w)) (tNow t) (i64 (tMono t - lastMono w)) (checked w)
                          (maxGap (cfg w)) in
    let w := w <| lastMono := tMono t |> <| checked := true |> in
    let '(s, p) := observe (cfg w) (tNow t) step gap (tRes t) (state w) in
    let w := w <| state := s |> in
    match p with
    | None => (w, None, tSaved t)
    | Some p =>
        match tPush t with
        | None => (w, Some (p, None), false)
        | Some kind => (w <| state := pushed p (tPushedAt t) kind s |>, Some (p, Some kind), tSaved t)
        end
    end.
End Texts.
End Wit.
