(* ===== verification/WitnessProps.v ===== *)
(** * What the witness promises

    Ticks, restarts with a new process or a new configuration, and stops, over
    the state in memory and the one on disk. *)
From S2P Require Import Prelude GoStrings Witness.

Local Open Scope Z_scope.

Module WitProps.
Import Wit.

Section Props.
Context `{Library}.

(** ** Histories *)

(** One check as it was counted; histories are newest first. *)
Record obs := mkObs { oStep : duration; oGap : bool; oRes : CheckResult }.

(** The control plane failed and something else answered. *)
Definition up_failure (o : obs) : bool := negb (OK (oRes o)) && NetworkUp (oRes o).
Definition net_down (o : obs) : bool := negb (OK (oRes o)) && negb (NetworkUp (oRes o)).
(** Neither an answer nor a break. *)
Definition going_on (o : obs) : bool := negb (OK (oRes o)) && negb (oGap o).
Definition total (l : list obs) : Z := foldr (fun o n => oStep o + n) 0 l.

(** The control plane has failed for at least [hold]: there is a failed check
    with the network up, no answer and no break since, and that long since;
    and it failed in the last two checks, with the network up. *)
Definition overdue (hold : duration) (h : list obs) : Prop :=
  exists last prev rest run first old,
    h = last :: prev :: rest /\ up_failure last = true /\ oGap last = false /\ up_failure prev = true /\
    h = run ++ first :: old /\ up_failure first = true /\ Forall (fun o => going_on o = true) run /\ run <> [] /\
    hold <= total run.

(** No time runs backwards, and the whole history fits in a duration. *)
Definition short (h : list obs) : Prop :=
  Forall (fun o => oGap o = false -> 0 <= oStep o) h /\
  foldr (fun o n => (if oGap o then 0 else oStep o) + n) 0 h <= max_i64 /\ zlen h <= max_i64.

(** How long, and for how many checks, the current run of failures has lasted. *)
Fixpoint run_of (h : list obs) : option (Z * Z) :=
  match h with
  | [] => None
  | o :: h =>
      if OK (oRes o) then None
      else
        let before := if oGap o then None else (fun x => (x.1 + oStep o, x.2)) <$> run_of h in
        if NetworkUp (oRes o) then Some (default (0, 0) before).1 ≫= fun d => Some (d, (default (0, 0) before).2 + 1)
        else before
  end.

Lemma run_of_bounds h d n : Forall (fun o => oGap o = false -> 0 <= oStep o) h -> run_of h = Some (d, n) ->
  0 <= d /\ d <= foldr (fun o n => (if oGap o then 0 else oStep o) + n) 0 h /\ 1 <= n <= zlen h.
Proof.
  revert d n. induction h as [|o h IH]; intros d n Hs Hr; simpl in Hr; [done|].
  apply Forall_cons in Hs as [Ho Hs].
  assert (Htot : 0 <= foldr (fun o n => (if oGap o then 0 else oStep o) + n) 0 h).
  { clear -Hs. induction Hs as [|o h Ho Hs IH]; simpl; [lia|]. destruct (oGap o); [lia|]. specialize (Ho eq_refl). lia. }
  unfold zlen in *. simpl. destruct (OK (oRes o)); [done|].
  destruct (oGap o); simpl in Hr.
  - destruct (NetworkUp (oRes o)); [|done]. injection Hr as <- <-. lia.
  - specialize (Ho eq_refl). destruct (run_of h) as [[d0 n0]|]; simpl in Hr.
    + destruct (IH d0 n0 Hs eq_refl) as (? & ? & ?). destruct (NetworkUp (oRes o)); injection Hr as <- <-; lia.
    + destruct (NetworkUp (oRes o)); [|done]. injection Hr as <- <-. lia.
Qed.

(** The run is the longest of the stretches that start with a failure. *)
Lemma run_of_longest h run first old d n : Forall (fun o => oGap o = false -> 0 <= oStep o) h ->
  h = run ++ first :: old -> up_failure first = true -> Forall (fun o => going_on o = true) run ->
  run_of h = Some (d, n) -> total run <= d.
Proof.
  revert h d n. induction run as [|o run IH]; intros h d n Hs -> Hf Hr Hrun.
  - simpl. eapply run_of_bounds in Hrun; [lia|done].
  - apply Forall_cons in Hr as [Ho Hr]. apply andb_true_iff in Ho as [Hok Hgap].
    simpl in Hs. apply Forall_cons in Hs as [Ho Hs]. simpl in Hrun.
    destruct (OK (oRes o)); [done|]. destruct (oGap o); [done|]. specialize (Ho eq_refl).
    assert (Hex : exists d0 n0, run_of (run ++ first :: old) = Some (d0, n0)).
    { clear -Hf Hr. induction run as [|o run IH]; simpl.
      - apply andb_true_iff in Hf as [Hok Hup]. destruct (OK (oRes first)); [done|]. rewrite Hup. simpl. eauto.
      - apply Forall_cons in Hr as [Ho Hr]. apply andb_true_iff in Ho as [Hok Hgap].
        destruct (OK (oRes o)), (oGap o); try done. destruct (IH Hr) as (d0 & n0 & ->). simpl.
        destruct (NetworkUp (oRes o)); eauto. }
    destruct Hex as (d0 & n0 & Hd0). assert (Hle := IH _ d0 n0 Hs eq_refl Hf Hr Hd0).
    rewrite Hd0 in Hrun. simpl in Hrun. simpl. destruct (NetworkUp (oRes o)); injection Hrun as <- <-; lia.
Qed.

(** The run is one of those stretches. *)
Lemma run_of_stretch h d n : run_of h = Some (d, n) ->
  exists run first old, h = run ++ first :: old /\ up_failure first = true /\ Forall (fun o => going_on o = true) run /\
    total run = d.
Proof.
  revert d n. induction h as [|o h IH]; intros d n Hr; simpl in Hr; [done|].
  destruct (OK (oRes o)) eqn:Hok; [done|]. destruct (if oGap o then None else _) as [[d0 n0]|] eqn:Hb; simpl in Hr.
  - destruct (oGap o) eqn:Hg; [done|]. destruct (run_of h) as [[d1 n1]|]; [|done]. injection Hb as <- <-. simpl in Hr.
    destruct (IH d1 n1 eq_refl) as (run & first & old & -> & Hf & Hrun & Ht). exists (o :: run), first, old.
    split; [done|]. split; [done|]. split; [constructor; [unfold going_on; by rewrite Hok, Hg|done]|].
    simpl. destruct (NetworkUp (oRes o)); injection Hr as <- <-; lia.
  - destruct (NetworkUp (oRes o)) eqn:Hup; [|done]. injection Hr as <- <-.
    exists [], o, h. split; [done|]. split; [unfold up_failure; by rewrite Hok, Hup|]. split; [constructor|done].
Qed.

(** A failure with the network up that continues what came before. *)
Lemma run_of_failure o h : up_failure o = true -> oGap o = false ->
  run_of (o :: h) = Some (default (0, 0) ((fun x => (x.1 + oStep o, x.2)) <$> run_of h)).1 ≫= fun d =>
    Some (d, (default (0, 0) ((fun x => (x.1 + oStep o, x.2)) <$> run_of h)).2 + 1).
Proof.
  intros Hu Hg. apply andb_true_iff in Hu as [Hok Hup]. simpl. destruct (OK (oRes o)); [done|]. by rewrite Hg, Hup.
Qed.

Lemma overdue_iff hold o h : Forall (fun o => oGap o = false -> 0 <= oStep o) (o :: h) ->
  overdue hold (o :: h) <->
  up_failure o = true /\ oGap o = false /\ match h with prev :: _ => net_down prev = false | [] => False end /\
  exists d n, run_of (o :: h) = Some (d, n) /\ 2 <= n /\ hold <= d.
Proof.
  intros Hpos. split.
  - intros (last & prev & rest & run & first & old & [= <- ->] & Hl & Hg & Hp & Heq & Hf & Hrun & _ & Hhold).
    split; [done|]. split; [done|]. split.
    { apply andb_true_iff in Hp as [_ Hup]. unfold net_down. by rewrite Hup, andb_false_r. }
    rewrite run_of_failure by done. simpl run_of at 1 2.
    apply andb_true_iff in Hp as [Hok Hup]. destruct (OK (oRes prev)) eqn:Eok; [done|]. rewrite Hup. simpl.
    set (before := if oGap prev then None else _). eexists _, _. split; [reflexivity|].
    assert (Hr : run_of (o :: prev :: rest) = Some ((default (0, 0) before).1 + oStep o, (default (0, 0) before).2 + 1 + 1)).
    { rewrite run_of_failure by done. simpl run_of at 1 2. rewrite Eok, Hup. done. }
    split.
    + assert (Hb : forall d n, before = Some (d, n) -> 0 <= n).
      { intros d n Hb. unfold before in Hb. destruct (oGap prev); [done|]. destruct (run_of rest) as [[d1 n1]|] eqn:E1; [|done].
        injection Hb as <- <-. apply Forall_cons in Hpos as [_ Hpos]. apply Forall_cons in Hpos as [_ Hpos].
        apply run_of_bounds in E1; [lia|done]. }
      destruct before as [[d n]|]; simpl; [specialize (Hb d n eq_refl)|]; lia.
    + etrans; [exact Hhold|]. by eapply run_of_longest.
  - intros (Hu & Hg & Hp & d & n & Hr & Hn & Hd). destruct h as [|prev rest]; [done|].
    assert (Hup : up_failure prev = true /\ exists x, run_of (prev :: rest) = Some x).
    { rewrite run_of_failure in Hr by done. destruct (run_of (prev :: rest)) as [x|] eqn:E1.
      - split; [|eauto]. simpl in E1. unfold up_failure, net_down in *. destruct (OK (oRes prev)); [done|]. simpl in *. by destruct (NetworkUp (oRes prev)).
      - simpl in Hr. injection Hr as <- <-. lia. }
    destruct Hup as [Hup [x Hx]].
    destruct (run_of_stretch (prev :: rest) x.1 x.2) as (run & first & old & Heq & Hf & Hrun & Ht); [by rewrite Hx; destruct x|].
    exists o, prev, rest, (o :: run), first, old. split; [done|]. split; [done|]. split; [done|]. split; [done|].
    split; [by rewrite Heq|]. split; [done|]. split.
    { constructor; [|done]. unfold going_on. rewrite Hg. by apply andb_true_iff in Hu as [-> _]. }
    split; [done|]. rewrite run_of_failure, Hx in Hr by done. injection Hr as <- <-. simpl in *. lia.
Qed.

(** ** The state follows the history *)
Record follows (s : State) (h : list obs) : Prop := {
  f_run : match run_of h with
          | None => ConsecutiveFailures s = 0
          | Some (d, n) => ConsecutiveFailures s = n /\ FailingFor s = d
          end;
  f_down : is_zero_time (NetworkDownSince s) = match h with o :: _ => negb (net_down o) | [] => true end
}.

Lemma short_tail o h : short (o :: h) -> short h.
Proof.
  intros (H1 & H2 & H3). apply Forall_cons in H1 as [Ho H1]. simpl in H2. unfold zlen in *. cbn [length] in H3.
  split; [done|]. split; [|unfold zlen; lia]. destruct (oGap o); [lia|]. specialize (Ho eq_refl). lia.
Qed.

(** Carrying the runs over the time since the last check. *)
Lemma carry_follows s h o : follows s h -> short (o :: h) ->
  let s' := carry_runs (oStep o) (oGap o) s in
  NetworkDownSince s' = NetworkDownSince s /\ Alerted s' = Alerted s /\
  match (if oGap o then None else run_of h) with
  | None => ConsecutiveFailures s' = 0
  | Some (d, n) => ConsecutiveFailures s' = n /\ FailingFor s' = d + oStep o
  end.
Proof.
  intros [Hrun _] Hs. destruct Hs as (H1 & H2 & H3). apply Forall_cons in H1 as [Ho H1]. simpl in H2.
  unfold carry_runs. destruct (oGap o) eqn:Hg; cbn [negb].
  - repeat case_match; upd; done.
  - specialize (Ho eq_refl). destruct (run_of h) as [[d n]|] eqn:Hr.
    + destruct Hrun as [Hc Hf]. destruct (run_of_bounds h d n H1 Hr) as (Hd & Hd' & Hn). rewrite Hc.
      rewrite (proj2 (Z.ltb_lt 0 n)) by lia.
      assert (Hi : i64 (d + oStep o) = d + oStep o) by (apply i64_small; unfold min_i64 in *; lia).
      repeat case_match; upd; rewrite ?Hc, ?Hf; auto.
    + rewrite Hrun, Z.ltb_irrefl. repeat case_match; upd; done.
Qed.

Lemma observe_follows cfg now s h o :
  follows s h -> short (o :: h) -> is_zero_time now = false ->
  follows (observe cfg now (oStep o) (oGap o) (oRes o) s).1 (o :: h).
Proof.
  intros Hf Hs Hn. unfold observe.
  set (s1 := s <| LastCheckAt := now |> <| LastCheckOK := _ |> <| LastCheckDetail := _ |>).
  assert (Hf1 : follows s1 h) by (destruct Hf; split; unfold s1; by upd).
  destruct (carry_follows s1 h o Hf1 Hs) as (Hd & Ha & Hr). set (s2 := carry_runs _ _ s1) in *. clearbody s2.
  destruct Hf1 as [_ Hdown]. rewrite <-Hd in Hdown. clear Hf Hd.
  assert (Hcount : forall n, n <= zlen h -> 0 <= n -> i64 (n + 1) = n + 1).
  { intros n Hle H0. apply i64_small. destruct Hs as (_ & _ & Hl). unfold zlen, min_i64 in *. cbn [length] in Hl. lia. }
  assert (Hz := zlen_nonneg h).
  destruct Hs as (Hpos & _ & _). apply Forall_cons in Hpos as [_ Hpos].
  destruct (OK (oRes o)) eqn:Hok.
  - split; simpl; rewrite ?Hok; unfold observe_ok, net_down; rewrite ?Hok; repeat case_match; simpl; upd; done.
  - unfold observe_failed. destruct (NetworkUp (oRes o)) eqn:Hup; cbn [negb].
    + split; simpl; rewrite ?Hok, ?Hup; unfold net_down; rewrite ?Hok, ?Hup.
      * destruct (if oGap o then None else run_of h) as [[d n]|] eqn:Hb.
        -- destruct (oGap o); [done|]. destruct (run_of_bounds h d n Hpos Hb) as (_ & _ & Hn1). destruct Hr as [Hc Hff].
           rewrite Hb. simpl. upd. rewrite Hc. rewrite (proj2 (Z.eqb_neq n 0)) by lia.
           repeat case_match; simpl; upd; rewrite ?Hc, ?Hff; (split; [apply Hcount; lia|done]).
        -- assert (Hbb : (if oGap o then None else (fun x : Z * Z => (x.1 + oStep o, x.2)) <$> run_of h) = None).
           { destruct (oGap o); [done|]. by rewrite Hb. }
           rewrite Hbb. simpl. upd. rewrite Hr. simpl.
           repeat case_match; simpl; upd; rewrite ?Hr; done.
      * upd. repeat case_match; simpl; upd; done.
    + split; simpl; rewrite ?Hok, ?Hup; unfold net_down; rewrite ?Hok, ?Hup; cbn [negb andb].
      * destruct (oGap o); [repeat case_match; upd; done|].
        destruct (run_of h) as [[d n]|]; simpl; repeat case_match; upd; done.
      * repeat case_match; simpl; upd; done.
Qed.

(** The down push is owed exactly when it is due. *)
Lemma observe_down_iff cfg now s h o :
  follows s h -> short (o :: h) -> is_zero_time now = false ->
  (exists p, (observe cfg now (oStep o) (oGap o) (oRes o) s).2 = Some p /\ Kind p = PushDown) <->
  Alerted s = false /\ overdue (Hold cfg) (o :: h).
Proof.
  intros Hf Hs Hn. rewrite overdue_iff by apply Hs.
  assert (Hf' := observe_follows cfg now s h o Hf Hs Hn). destruct Hf' as [Hrun _].
  assert (Hdown := f_down s h Hf). revert Hrun. unfold observe.
  set (s1 := s <| LastCheckAt := now |> <| LastCheckOK := _ |> <| LastCheckDetail := _ |>).
  assert (Hf1 : follows s1 h) by (destruct Hf; split; unfold s1; by upd).
  destruct (carry_follows s1 h o Hf1 Hs) as (Hd & Ha & Hr). set (s2 := carry_runs _ _ s1) in *.
  assert (Hd' : NetworkDownSince s2 = NetworkDownSince s) by (rewrite Hd; unfold s1; by upd).
  assert (Ha' : Alerted s2 = Alerted s) by (rewrite Ha; unfold s1; by upd). clearbody s2. clear Hd Ha Hf1.
  unfold up_failure. destruct (OK (oRes o)) eqn:Hok; cbn [negb andb].
  { intros _. split; [|naive_solver]. intros (p & Hp & Hk). revert Hp. unfold observe_ok.
    repeat case_match; simpl; intros [= <-]; unfold recoveryPush in Hk; done. }
  unfold observe_failed. destruct (NetworkUp (oRes o)) eqn:Hup; cbn [negb andb]; [|intros _; split; [naive_solver|naive_solver]].
  cbv zeta. set (s3 := s2 <| OKSince := 0 |> <| OKFor := 0 |> <| ConsecutiveOK := 0 |>).
  set (s5 := (if ConsecutiveFailures (s3 <| NetworkDownSince := 0 |>) =? 0 then _ else _) <| ConsecutiveFailures ::= _ |>).
  assert (Hd3 : NetworkDownSince s3 = NetworkDownSince s) by (unfold s3; by upd).
  assert (Ha5 : Alerted s5 = Alerted s) by (unfold s5, s3; upd; destruct (ConsecutiveFailures s2 =? 0); upd; done).
  rewrite Ha5, Hd3, Hdown. destruct (Alerted s); [intros _; split; [naive_solver|naive_solver]|].
  assert (Hs6 : forall b : bool, (if b then (s5 <| sPhase := PhaseFailing |>, Some (downPush cfg (s5 <| sPhase := PhaseFailing |>)))
    else (s5 <| sPhase := PhaseFailing |>, None)).1 = s5 <| sPhase := PhaseFailing |>) by (by intros []).
  rewrite Hs6. upd. intros Hrun.
  assert (Hopen : exists d n, run_of (o :: h) = Some (d, n)) by (simpl; rewrite Hok, Hup; simpl; eauto).
  destruct Hopen as (d & n & Ho). rewrite Ho in Hrun |- *. destruct Hrun as [Hc Hff]. rewrite Hc, Hff.
  assert (Hprev : oGap o = true \/ run_of h = None -> n = 1).
  { intros Hor. revert Ho. simpl. rewrite Hok, Hup. destruct Hor as [->| ->]; simpl; [|destruct (oGap o); simpl]; intros [= _ <-]; reflexivity. }
  assert (Hhead : match h with prev :: _ => negb (net_down prev) | [] => true end = true -> 2 <= n ->
    match h with prev :: _ => net_down prev = false | [] => False end).
  { destruct h; [intros _ Hn2; rewrite Hprev in Hn2 by (by right); lia|]. by rewrite negb_true_iff. }
  split.
  - intros (p & Hp & _). split; [done|]. split; [done|].
    destruct (2 <=? n) eqn:E2; [|done]. destruct (Hold cfg <=? d) eqn:E3; [|done]. apply Z.leb_le in E2, E3.
    destruct (match h with prev :: _ => negb (net_down prev) | [] => true end) eqn:E4; [|done].
    split; [destruct (oGap o); [rewrite Hprev in E2 by (by left); lia|done]|]. split; [by apply Hhead|]. by exists d, n.
  - intros (_ & _ & Hg & Hnd & d' & n' & [= <- <-] & H2 & H3).
    rewrite (proj2 (Z.leb_le _ _) H2), (proj2 (Z.leb_le _ _) H3).
    assert (E4 : match h with prev :: _ => negb (net_down prev) | [] => true end = true) by (destruct h; [done|by rewrite Hnd]).
    rewrite E4. simpl. eexists. split; [reflexivity|]. unfold downPush. by destruct (has_prefix _ _).
Qed.

(** ** Processes *)

(** A witness, the state on disk, the history each of them has counted, and the
    pushes that were delivered, newest first. *)
Record sys := mkSys {
  wit : Witness;
  hist : list obs;
  disk : State;
  diskHist : list obs;
  sent : list PushKind
}.

(** The check of a tick, as the witness counts it. *)
Definition counted (t : tick) (w : Witness) : obs :=
  let '(step, gap) := sinceLastCheck (LastCheckAt (state w)) (tNow t) (i64 (tMono t - lastMono w)) (checked w)
                        (maxGap (cfg w)) in
  mkObs step gap (tRes t).

Definition delivered (out : option (Push * option string)) : list PushKind :=
  match out with
  | Some (p, Some kind) => if String.eqb kind "" then [Kind p] else []
  | _ => []
  end.

Definition do_tick (t : tick) (y : sys) : sys :=
  let '(w, out, saved) := Tick t (wit y) in
  let h := if tStopped t then hist y else counted t (wit y) :: hist y in
  mkSys w h (if saved then state w else disk y) (if saved then h else diskHist y) (delivered out ++ sent y).

(** The last save when the witness stops. *)
Definition do_stop (saved : bool) (y : sys) : sys :=
  if saved then mkSys (wit y) (hist y) (state (wit y)) (hist y) (sent y) else y.

(** A new process, perhaps with a new configuration; a state file that cannot
    be read is a fresh state. *)
Definition do_start (c : Config) (configSHA : string) (now : time) (readable : bool) (y : sys) : sys :=
  let st := if readable then disk y else fresh in
  let same := (Version st =? StateVersion) && String.eqb (ConfigSHA256 st) configSHA in
  mkSys (New c configSHA st now) (if same then diskHist y else []) (disk y) (diskHist y) (sent y).

Definition first_start (c : Config) (configSHA : string) (now : time) : sys :=
  mkSys (New c configSHA fresh now) [] fresh [] [].

(** [saves] says whether every save and every read of the state has to
    succeed. *)
Inductive reach (saves : bool) : sys -> Prop :=
  | reach_first c configSHA now : reach saves (first_start c configSHA now)
  | reach_tick y t : reach saves y -> is_zero_time (tNow t) = false -> (saves = true -> tSaved t = true) ->
      reach saves (do_tick t y)
  | reach_stop y saved : reach saves y -> reach saves (do_stop saved y)
  | reach_start y c configSHA now readable : reach saves y -> (saves = true -> readable = true) ->
      reach saves (do_start c configSHA now readable y).

Lemma follows_pushed s h p now kind : follows s h -> follows (pushed p now kind s) h.
Proof.
  intros [H1 H2]. unfold pushed. destruct (negb _); [|destruct (Kind p)];
    (split; [destruct (run_of h) as [[d n]|]; upd; done|upd; done]).
Qed.
Lemma follows_fresh s : ConsecutiveFailures s = 0 -> NetworkDownSince s = 0 -> follows s [].
Proof. intros H1 H2. split; [done|]. by rewrite H2. Qed.
Lemma adopt_keeps c configSHA now s :
  let same := (Version s =? StateVersion) && String.eqb (ConfigSHA256 s) configSHA in
  Alerted (adopt c configSHA now s) = Alerted s /\
  (forall h, (same = true -> follows s h) -> follows (adopt c configSHA now s) (if same then h else [])).
Proof.
  unfold adopt. rewrite <-negb_andb.
  destruct ((Version s =? StateVersion) && String.eqb (ConfigSHA256 s) configSHA); cbn [negb]; split.
  - repeat case_match; upd; congruence.
  - intros h Hf. destruct (Hf eq_refl) as [H1 H2]. split; [destruct (run_of h) as [[d n]|]|]; repeat case_match; upd; done.
  - repeat case_match; upd; try done; congruence.
  - intros h _. apply follows_fresh; repeat case_match; upd; done.
Qed.

Lemma tick_follows t y : is_zero_time (tNow t) = false -> tStopped t = false ->
  follows (state (wit y)) (hist y) -> short (counted t (wit y) :: hist y) ->
  follows (state (Tick t (wit y)).1.1) (counted t (wit y) :: hist y).
Proof.
  intros Hn Hst Hf Hs. unfold Tick, counted in *. rewrite Hst.
  destruct (sinceLastCheck _ _ _ _ _) as [step gap]. upd.
  assert (Ho := observe_follows (cfg (wit y)) (tNow t) _ _ (mkObs step gap (tRes t)) Hf Hs Hn). simpl in Ho.
  destruct (observe _ _ _ _ _ _) as [s' p]. simpl in Ho. destruct p as [p|]; [|simpl; by upd].
  destruct (tPush t) as [kind|]; simpl; upd; [by apply follows_pushed|done].
Qed.

Lemma reach_follows saves y : reach saves y ->
  (short (hist y) -> follows (state (wit y)) (hist y)) /\ (short (diskHist y) -> follows (disk y) (diskHist y)).
Proof.
  induction 1 as [c sha now|y t _ [IH1 IH2] Hn _|y [] _ [IH1 IH2]|y c sha now [] _ [IH1 IH2] _]; simpl.
  - split; intros _; [|by apply follows_fresh]. by apply (adopt_keeps c sha now fresh) with (h := []).
  - assert (Hw : short (hist (do_tick t y)) -> follows (state (wit (do_tick t y))) (hist (do_tick t y))).
    { unfold do_tick. destruct (tStopped t) eqn:Hst.
      - unfold Tick. rewrite Hst. simpl. auto.
      - intros Hs. assert (Hf := tick_follows t y Hn Hst). destruct (Tick t (wit y)) as [[w out] saved]. simpl in *.
        apply Hf; [|done]. by eapply IH1, short_tail. }
    split; [done|]. revert Hw. unfold do_tick. destruct (Tick t (wit y)) as [[w out] []]; simpl; auto.
  - split; auto.
  - split; auto.
  - split; [|done]. intros Hs. apply (adopt_keeps c sha now (disk y)). intros Hsame. rewrite Hsame in Hs. auto.
  - split; [|done]. intros _. by apply (adopt_keeps c sha now fresh) with (h := diskHist y).
Qed.

(** C38: The witness announces an outage exactly when it is due: at every check of
    every process, whatever restarts and configuration changes came before, a
    down push is sent if and only if none is standing and the control plane
    has failed for the hold time without an answer or a break, the last two
    checks with this node's network up. *)
Theorem down_push_exact saves y t :
  reach saves y -> is_zero_time (tNow t) = false -> tStopped t = false -> short (counted t (wit y) :: hist y) ->
  (exists p out, (Tick t (wit y)).1.2 = Some (p, out) /\ Kind p = PushDown) <->
  Alerted (state (wit y)) = false /\ overdue (Hold (cfg (wit y))) (counted t (wit y) :: hist y).
Proof.
  intros Hr Hn Hst Hs. destruct (reach_follows saves y Hr) as [Hf _]. specialize (Hf (short_tail _ _ Hs)).
  rewrite <-(observe_down_iff (cfg (wit y)) (tNow t) _ _ _ Hf Hs Hn).
  unfold Tick, counted. rewrite Hst. destruct (sinceLastCheck _ _ _ _ _) as [step gap]. upd. simpl.
  destruct (observe _ _ _ _ _ _) as [s' [p|]]; simpl; [|naive_solver].
  destruct (tPush t) as [kind|]; simpl; naive_solver.
Qed.

(** ** Deliveries *)

(** Newest first: outages and recoveries in turn, an outage first. *)
Fixpoint in_turn (l : list PushKind) : bool :=
  match l with
  | [] => true
  | [k] => bool_decide (k = PushDown)
  | k :: (k' :: _) as l => bool_decide (k <> k') && in_turn l
  end.
Definition standing (l : list PushKind) : bool := bool_decide (head l = Some PushDown).

Lemma observe_alert cfg now step gap res s :
  Alerted (observe cfg now step gap res s).1 = Alerted s /\
  forall p, (observe cfg now step gap res s).2 = Some p -> Kind p = if Alerted s then PushRecovery else PushDown.
Proof.
  unfold observe. set (s1 := s <| LastCheckAt := now |> <| LastCheckOK := _ |> <| LastCheckDetail := _ |>).
  assert (Ha : Alerted (carry_runs step gap s1) = Alerted s) by (unfold carry_runs, s1; repeat case_match; upd; done).
  set (s2 := carry_runs step gap s1) in *. clearbody s2. destruct (OK res).
  - unfold observe_ok. set (s3 := (if _ =? 0 then _ else _) <| ConsecutiveOK ::= _ |> <| sPhase := _ |>).
    assert (H3 : Alerted s3 = Alerted s) by (unfold s3; case_match; upd; done). rewrite H3.
    destruct (Alerted s); [destruct (_ && _)|]; simpl; upd; (split; [done|]); try done.
    intros p [= <-]. done.
  - unfold observe_failed. destruct (NetworkUp res); cbn [negb].
    + set (s5 := (if ConsecutiveFailures _ =? 0 then _ else _) <| ConsecutiveFailures ::= _ |>).
      assert (H5 : Alerted s5 = Alerted s) by (unfold s5; case_match; upd; done). cbv zeta. fold s5. rewrite H5.
      destruct (Alerted s); [|destruct (_ && _)]; simpl; upd; (split; [done|]); try done.
      intros p [= <-]. unfold downPush. by destruct (has_prefix _ _).
    + case_match; simpl; upd; done.
Qed.
Lemma pushed_alert p now kind s :
  Alerted (pushed p now kind s) = if String.eqb kind "" then bool_decide (Kind p = PushDown) else Alerted s.
Proof. unfold pushed. destruct (String.eqb kind ""); cbn [negb]; [|by upd]. destruct (Kind p); upd; done. Qed.

(** A tick keeps the alert in step with the deliveries. *)
Lemma tick_alert t w l :
  Alerted (state w) = standing l -> in_turn l = true ->
  let '(w', out, _) := Tick t w in
  Alerted (state w') = standing (delivered out ++ l) /\ in_turn (delivered out ++ l) = true.
Proof.
  intros Ha Ht. unfold Tick. destruct (tStopped t); [done|].
  destruct (sinceLastCheck _ _ _ _ _) as [step gap]. upd.
  destruct (observe_alert (cfg w) (tNow t) step gap (tRes t) (state w)) as [H1 H2].
  destruct (observe _ _ _ _ _ _) as [s' [p|]]; simpl in *; [|upd; by rewrite H1].
  specialize (H2 p eq_refl). destruct (tPush t) as [kind|]; simpl; upd; [|by rewrite H1].
  rewrite pushed_alert. destruct (String.eqb kind ""); simpl; [|by rewrite H1].
  rewrite H2, Ha. unfold standing. destruct l as [|[] l]; simpl in *; try done.
Qed.

Lemma saved_alert t w : tSaved t = true ->
  let '(w', out, saved) := Tick t w in saved = false -> Alerted (state w') = Alerted (state w) /\ delivered out = [].
Proof.
  intros Hsv. unfold Tick. destruct (tStopped t); [done|]. destruct (sinceLastCheck _ _ _ _ _) as [step gap]. upd.
  destruct (observe_alert (cfg w) (tNow t) step gap (tRes t) (state w)) as [H1 _].
  destruct (observe _ _ _ _ _ _) as [s' [p|]]; simpl in *; [|by rewrite Hsv].
  destruct (tPush t) as [kind|]; simpl; [by rewrite Hsv|]. intros _. upd. done.
Qed.

(** As long as the state can be saved and read back, deliveries take turns, across restarts,
    stops in the middle of a push and changed configurations: an outage is
    announced once, and so is its end. *)
Theorem pushes_in_turn y : reach true y -> in_turn (sent y) = true /\ Alerted (state (wit y)) = standing (sent y).
Proof.
  intros Hr. assert (Hi : in_turn (sent y) = true /\ Alerted (state (wit y)) = standing (sent y) /\
    Alerted (disk y) = standing (sent y)); [|tauto].
  induction Hr as [c sha now|y t Hr (IH1 & IH2 & IH3) Hn Hsv|y [] Hr IH|y c sha now readable Hr (IH1 & IH2 & IH3) Hrd]; simpl.
  - split; [done|]. split; [|done]. apply (adopt_keeps c sha now fresh).
  - assert (Ha := tick_alert t (wit y) (sent y) IH2 IH1). assert (Hd := saved_alert t (wit y) (Hsv eq_refl)).
    unfold do_tick. destruct (Tick t (wit y)) as [[w out] saved]. simpl. destruct Ha as [Ha Ht].
    split; [done|]. split; [done|]. destruct saved; [done|]. destruct (Hd eq_refl) as [_ ->]. done.
  - tauto.
  - tauto.
  - rewrite (Hrd eq_refl). split; [done|]. split; [|done]. by rewrite (proj1 (adopt_keeps c sha now (disk y))).
Qed.
End Props.
End WitProps.

(** * The witness on a sample outage

    Hold time one minute, checks every thirty seconds: three failed checks, the
    push of the third delivered, the process restarted, and the recovery. *)
From S2P Require Import Prelude GoStrings Witness.

Local Open Scope Z_scope.

Module WitSample.
Import Wit WitProps.

#[local] Instance library : Library := {
  url_Parse := fun _ => None; ip_is_loopback := fun h => has_prefix h "127."; clock := fun t => itoa t }.

Definition conf : Config := 
  mkConfig 1 "edge-1" "https://lattice/readyz" ["https://ref/"] "http://127.0.0.1:8080" "/etc/bark.key" "" "" 30 60 30 "".
Definition base : time := 1000 * second.

Definition check_at (n : Z) (health : bool * string) : tick :=
  mkTick health true false (base + n * second) (n * second) (Some EmptyString) (base + n * second) true.
Definition failure : bool * string := (false, "timeout").
Definition answer : bool * string := (true, "").

Definition failing : sys :=
  do_tick (check_at 30 failure) (do_tick (check_at 0 failure) (first_start conf "sha" base)).
Definition restarted : sys := do_start conf "sha" (base + 70 * second) true (do_tick (check_at 60 failure) failing).
Definition recovered : sys := do_tick (check_at 120 answer) (do_tick (check_at 90 answer) restarted).

(** How the checks of [failing] were counted. *)
Definition opening : obs := mkObs 0 false (check failure true).
Definition later : obs := mkObs (30 * second) false (check failure true).

Lemma failing_reach saves : reach saves failing.
Proof. repeat (apply reach_tick; [|done|done]). apply reach_first. Qed.
Lemma recovered_reach : reach true recovered.
Proof. repeat (apply reach_tick; [|done|done]). apply reach_start; [|done]. apply reach_tick; [apply failing_reach|done|done]. Qed.

Lemma failing_counted : counted (check_at 60 failure) (wit failing) :: hist failing = [later; later; opening].
Proof. vm_compute. reflexivity. Qed.
Lemma failing_conf : Alerted (state (wit failing)) = false /\ cfg (wit failing) = conf.
Proof. vm_compute. split; reflexivity. Qed.

(** The third failed check pushes: the hold time has passed. *)
Lemma down_push_exact_witness :
  exists p out, (Tick (check_at 60 failure) (wit failing)).1.2 = Some (p, out) /\ Kind p = PushDown.
Proof.
  destruct failing_conf as [Ha Hc].
  apply (down_push_exact false failing (check_at 60 failure)); [apply failing_reach|reflexivity|reflexivity| |];
    rewrite failing_counted.
  - unfold short. split; [|split; vm_compute; discriminate]. repeat constructor; vm_compute; discriminate.
  - rewrite Hc. split; [exact Ha|]. exists later, later, [opening], [later; later], opening, [].
    do 6 (split; [reflexivity|]). split; [repeat constructor|]. split; [discriminate|vm_compute; discriminate].
Defined.

(** One outage, one recovery, across the restart. *)
Lemma pushes_in_turn_witness :
  sent recovered = [PushRecovery; PushDown] /\ in_turn (sent recovered) = true /\
  Alerted (state (wit recovered)) = standing (sent recovered).
Proof. split; [vm_compute; reflexivity|]. apply (pushes_in_turn recovered). exact recovered_reach. Defined.
End WitSample.
