(* ===== verification/Beacon.v ===== *)
(** * The beacon responder (internal/beacon/guard.go, responder.go)

    The guard in front of authentication, the circuit breaker, the receive loop
    of one socket and the responder that opens and closes sockets.  The wire
    format and its decision core belong to the SDK: what the core answers for a
    datagram is an input. *)
From S2P Require Import Prelude GoStrings.

Local Open Scope Z_scope.

Module Beacon.

(** ** The guard *)
Definition guardGlobalPerSecond : Z := 20000.
Definition guardBuckets : Z := 1024.
Definition guardPerBucketPerSecond : Z := 1000.

Inductive guardVerdict := guardAllow | guardBucketFull | guardGlobalFull.

(** Buckets that are not in the map are zero. *)
Record guard := mkGuard { gSec : Z; gTotal : Z; gBuckets : gmap Z Z }.
#[export] Instance guard_eta : Etable guard := fun g => mkGuard (gSec g) (gTotal g) (gBuckets g).

Definition newGuard : guard := mkGuard 0 0 ∅.
Definition bucket_count (g : guard) (i : Z) : Z := default 0 (gBuckets g !! i).

(** What the SDK's package beacon and net/netip provide: [AddressRefused] is
    asked about the unmapped address, [hash] is the seeded hash of its sixteen
    bytes. *)
Class Wire (Addr : Type) := {
  hash : Addr -> Z;
  AddressRefused : Addr -> bool;
  RequestLen : Z;
  ReplyLen : Z;
  Verdict : Type;
  verdict_number : Verdict -> Z;
  Replied : Verdict -> bool;
  DropLength : Z
}.

Section Guard.
Context `{Wire Addr}.

Definition bucket_of (from : Addr) : Z := Z.land (hash from) (guardBuckets - 1).

Definition allow (from : Addr) (nowNs : Z) (g : guard) : guard * guardVerdict :=
  let sec := Z.quot nowNs second in
  let g := if negb (sec =? gSec g) then mkGuard sec 0 ∅ else g in
  if guardGlobalPerSecond <=? gTotal g then (g, guardGlobalFull)
  else
    let g := g <| gTotal ::= fun n => u32 (n + 1) |> in
    let i := bucket_of from in
    if guardPerBucketPerSecond <=? bucket_count g i then (g, guardBucketFull)
    else (g <| gBuckets ::= <[i := u32 (bucket_count g i + 1)]> |>, guardAllow).

Definition full (nowNs : Z) (g : guard) : bool :=
  (Z.quot nowNs second =? gSec g) && (guardGlobalPerSecond <=? gTotal g).
End Guard.

(** ** The circuit breaker *)
Definition breakerDropsPerSecond : Z := Z.quot guardGlobalPerSecond 4.
Definition breakerWindowSeconds : Z := 60.
Definition breakerHotSeconds : Z := 54.
Definition breakerCooldown : duration := 5 * minute.

Record breaker := mkBreaker { started : bool; bSec : Z; drops : Z; saturated : bool; hot : Z }.
#[export] Instance breaker_eta : Etable breaker := fun b =>
  mkBreaker (started b) (bSec b) (drops b) (saturated b) (hot b).
Definition newBreaker : breaker := mkBreaker false 0 0 false 0.

Definition isHot (b : breaker) : bool := saturated b || (breakerDropsPerSecond <=? drops b).

(** A shift of a uint64. *)
Definition shl64 (x n : Z) : Z := u64 (Z.shiftl x n).

Definition advance (nowSec : Z) (b : breaker) : breaker :=
  if started b && (nowSec <=? bSec b) then b
  else
    let h :=
      if started b then
        let h := Z.lor (shl64 (hot b) 1) (if isHot b then 1 else 0) in
        let gap := i64 (nowSec - bSec b - 1) in
        if 64 <=? gap then 0 else if 0 <? gap then shl64 h gap else h
      else hot b in
    mkBreaker true nowSec 0 false h.

Definition record (nowNs : Z) (dropped : bool) (b : breaker) : breaker :=
  let b := advance (Z.quot nowNs second) b in
  if dropped && (drops b <? 2 ^ 32 - 1) then b <| drops ::= fun n => u32 (n + 1) |> else b.

Definition saturate (nowNs : Z) (b : breaker) : breaker :=
  advance (Z.quot nowNs second) b <| saturated := true |>.

(** math/bits.OnesCount64. *)
Definition OnesCount64 (x : Z) : Z := countb (Z.testbit x) (seqZ 0 64).

Definition open (b : breaker) : bool :=
  let closed := breakerWindowSeconds - 1 in
  let window := Z.land (hot b) (Z.shiftl 1 closed - 1) in
  if Z.land window (Z.shiftl 1 (closed - 1)) =? 0 then false
  else
    let n := OnesCount64 window in
    let n := if isHot b then n + 1 else n in
    breakerHotSeconds <=? n.

Definition hotSeconds (b : breaker) : Z :=
  let n := OnesCount64 (Z.land (hot b) (Z.shiftl 1 (breakerWindowSeconds - 1) - 1)) in
  if isHot b then n + 1 else n.

(** ** The receive loop of one socket *)
Definition maxReadErrors : Z := 10.
Definition readErrorPause : duration := 50 * millisecond.
Definition verdictSlots : Z := 16.

Inductive stopReason := stopClosed | stopBreaker | stopReadError | stopPanic.

Record loop := mkLoop {
  base : time;
  lGuard : guard;
  lBreaker : breaker;
  verdicts : gmap Z Z;
  guardDrops : Z;
  sourceDrops : Z;
  panics : Z;
  replies : Z
}.
#[export] Instance loop_eta : Etable loop := fun l =>
  mkLoop (base l) (lGuard l) (lBreaker l) (verdicts l) (guardDrops l) (sourceDrops l) (panics l) (replies l).

Definition newLoop (base : time) : loop := mkLoop base newGuard newBreaker ∅ 0 0 0 0.
Definition mono (now : time) (l : loop) : Z := Z.max (time_sub now (base l)) 0.
Definition add1 (n : Z) : Z := u64 (n + 1).
Definition count_verdict (v : Z) (l : loop) : loop := l <| verdicts ::= fun m => <[v := add1 (default 0 (m !! v))]> m |>.

Section Loop.
Context `{Wire Addr}.

(** What the core does with a datagram. *)
Inductive answer := HandlePanics | Handled (n : Z) (v : Verdict).

Definition sourceRefused (from : Addr * Z) : bool := (from.2 =? 0) || AddressRefused from.1.

(** The loop after one datagram of [len] bytes and the length of the reply. *)
Definition process (now : time) (len : Z) (from : Addr * Z) (ans : answer) (l : loop) : loop * Z :=
  let m := mono now l in
  let '(g, verdict) := allow from.1 m (lGuard l) in
  let l := l <| lGuard := g |> in
  match verdict with
  | guardGlobalFull => (l <| guardDrops ::= add1 |> <| lBreaker ::= saturate m |>, 0)
  | guardBucketFull => (l <| guardDrops ::= add1 |> <| lBreaker ::= record m false |>, 0)
  | guardAllow =>
      if sourceRefused from then (l <| sourceDrops ::= add1 |> <| lBreaker ::= record m true |>, 0)
      else if negb (len =? RequestLen) then (count_verdict DropLength l <| lBreaker ::= record m true |>, 0)
      else
        match ans with
        | HandlePanics => (l <| panics ::= add1 |> <| lBreaker ::= record m true |>, 0)
        | Handled n v =>
            let l := if verdict_number v <? verdictSlots then count_verdict (verdict_number v) l else l in
            if (n <=? 0) || (len <? n) || (ReplyLen <? n) || negb (Replied v)
            then (l <| lBreaker ::= record m true |>, 0)
            else (l <| lBreaker ::= record m false |>, n)
        end
  end.

(** What a read of the socket brings. *)
Inductive received :=
  | rClosed
  | rError
  | rPanic
  | rDatagram (t : time) (len : Z) (from : Addr * Z) (ans : answer) (written : bool).

(** The loop goes on, perhaps after a pause, or stops. *)
Inductive outcome := Continue (sleep : option duration) | Stop (r : stopReason).

(** One turn of serve: the loop, the read errors in a row, the reply that went
    out and what comes next. *)
Definition serve_step (e : received) (l : loop) (readErrs : Z) : loop * Z * option Z * outcome :=
  match e with
  | rPanic => (l <| panics ::= add1 |>, readErrs, None, Stop stopPanic)
  | rClosed => (l, readErrs, None, Stop stopClosed)
  | rError =>
      let readErrs := readErrs + 1 in
      if maxReadErrors <=? readErrs then (l, readErrs, None, Stop stopReadError)
      else (l, readErrs, None, Continue (Some readErrorPause))
  | rDatagram t len from ans written =>
      let '(l, r) := process t len from ans l in
      let l := if (0 <? r) && written then l <| replies ::= add1 |> else l in
      let reply := if 0 <? r then Some r else None in
      if open (lBreaker l) then (l, 0, reply, Stop stopBreaker)
      else
        let m := mono t l in
        if full m (lGuard l)
        then (l <| lBreaker ::= saturate m |>, 0, reply, Continue (Some (second - Z.rem m second)))
        else (l, 0, reply, Continue None)
  end.
End Loop.
End Beacon.
