(* ===== verification/BeaconGuard.v ===== *)
(** * The guard and the breaker count exactly

    Each is compared with a reference that reads the whole history. *)
From S2P Require Import Prelude GoStrings Beacon.

Local Open Scope Z_scope.

Module Breaker.
Import Beacon.

(** What the breaker was told, and the second it was counted in; newest first.
    A clock that steps back keeps counting in the current second. *)
Inductive note := Dropped | Answered | Saturated.
#[export] Instance note_eq_dec : EqDecision note.
Proof. solve_decision. Defined.
Definition history : Type := list (Z * note).

Definition counted (sec : Z) (h : history) : Z :=
  match h with (s, _) :: _ => Z.max sec s | [] => sec end.
Definition told (nowNs : Z) (n : note) (h : history) : history := (counted (Z.quot nowNs second) h, n) :: h.
Definition feed (nowNs : Z) (n : note) (b : breaker) : breaker :=
  match n with
  | Dropped => record nowNs true b
  | Answered => record nowNs false b
  | Saturated => saturate nowNs b
  end.

(** The reference: a second is hot by what happened in it. *)
Definition heard (h : history) (s : Z) (n : note) : Z := countb (fun e => bool_decide (e = (s, n))) h.
Definition hot_second (h : history) (s : Z) : bool :=
  (0 <? heard h s Saturated) || (breakerDropsPerSecond <=? heard h s Dropped).
(** The current second and the 59 before it. *)
Definition last_minute (cur : Z) : list Z := (fun i => cur - i) <$> seqZ 0 breakerWindowSeconds.
Definition flooded (h : history) (cur : Z) : bool :=
  hot_second h (cur - (breakerWindowSeconds - 1)) &&
  (breakerHotSeconds <=? countb (hot_second h) (last_minute cur)).

(** Seconds the breaker can be told: a count of nanoseconds in 64 bits. *)
Definition in_range (s : Z) : Prop := 0 <= s <= Z.quot max_i64 second.

Record follows (b : breaker) (h : history) : Prop := {
  f_started : started b = true;
  f_sec : exists n h', h = (bSec b, n) :: h';
  f_range : in_range (bSec b);
  f_past : Forall (fun e => e.1 <= bSec b) h;
  f_drops : drops b = Z.min (2 ^ 32 - 1) (heard h (bSec b) Dropped);
  f_saturated : saturated b = (0 <? heard h (bSec b) Saturated);
  f_bits : forall i, 0 <= i < 64 -> Z.testbit (hot b) i = hot_second h (bSec b - 1 - i);
  f_hot : 0 <= hot b < 2 ^ 64
}.

Lemma heard_nonneg h s n : 0 <= heard h s n.
Proof. apply countb_bounds. Qed.
Lemma heard_cons e h s n : heard (e :: h) s n = (if bool_decide (e = (s, n)) then 1 else 0) + heard h s n.
Proof. unfold heard. by rewrite countb_cons. Qed.
Lemma heard_future h s n : Forall (fun e => e.1 < s) h -> heard h s n = 0.
Proof.
  induction 1 as [|[s' n'] h Hs _ IH]; [done|]. rewrite heard_cons, IH. simpl in Hs.
  rewrite bool_decide_false; [lia|]. intros [= -> _]. lia.
Qed.
Lemma hot_future h s : Forall (fun e => e.1 < s) h -> hot_second h s = false.
Proof. intros Hh. unfold hot_second. rewrite !heard_future by done. done. Qed.
(** What is told now does not change another second. *)
Lemma hot_other h s n s' : s <> s' -> hot_second ((s, n) :: h) s' = hot_second h s'.
Proof.
  intros Hs. unfold hot_second. rewrite !heard_cons.
  rewrite !bool_decide_false by congruence. done.
Qed.

Lemma follows_hot b h : follows b h -> isHot b = hot_second h (bSec b).
Proof.
  intros Hf. unfold isHot, hot_second. rewrite (f_drops b h Hf), (f_saturated b h Hf). f_equal.
  assert (Hk : breakerDropsPerSecond = 5000) by done. rewrite Hk.
  destruct (Z.leb_spec 5000 (heard h (bSec b) Dropped)); [rewrite Z.leb_le|rewrite Z.leb_gt]; lia.
Qed.

(** ** Bits *)
Lemma testbit_shl64 x n i : 0 <= n -> 0 <= i < 64 -> Z.testbit (shl64 x n) i = Z.testbit x (i - n).
Proof. intros Hn Hi. unfold shl64, u64. rewrite Z.mod_pow2_bits_low by lia. by rewrite Z.shiftl_spec by lia. Qed.
Lemma shl64_range x n : 0 <= shl64 x n < 2 ^ 64.
Proof. apply Z.mod_pos_bound. lia. Qed.
Lemma lor_bit_range x (b : bool) : 0 <= x < 2 ^ 64 -> 0 <= Z.lor x (if b then 1 else 0) < 2 ^ 64.
Proof.
  intros Hx. assert (0 <= Z.lor x (if b then 1 else 0)) by (apply Z.lor_nonneg; destruct b; lia). split; [done|].
  destruct (Z.eq_dec (Z.lor x (if b then 1 else 0)) 0) as [->|]; [lia|].
  apply Z.log2_lt_pow2; [lia|]. rewrite Z.log2_lor by (destruct b; lia).
  apply Z.max_lub_lt; [|destruct b; simpl; lia].
  destruct (Z.eq_dec x 0) as [->|]; [simpl; lia|]. apply Z.log2_lt_pow2; lia.
Qed.
(** A closed second is pushed into bit 0. *)
Lemma testbit_push x (b : bool) i : 0 <= i < 64 ->
  Z.testbit (Z.lor (shl64 x 1) (if b then 1 else 0)) i = if i =? 0 then b else Z.testbit x (i - 1).
Proof.
  intros Hi. rewrite Z.lor_spec, testbit_shl64 by lia. destruct (Z.eqb_spec i 0) as [->|Hn].
  - rewrite Z.testbit_neg_r by lia. by destruct b.
  - destruct b; [rewrite (Z.bits_above_log2 1 i) by (simpl; lia)|rewrite Z.testbit_0_l]; apply orb_false_r.
Qed.

(** ** The breaker follows its history *)
Lemma i64_gap a b : in_range a -> in_range b -> i64 (a - b - 1) = a - b - 1.
Proof.
  unfold in_range. intros Ha Hb. assert (Z.quot max_i64 second < 2 ^ 34) by (vm_compute; done).
  apply i64_small. unfold max_i64, min_i64. lia.
Qed.

(** Closing seconds keeps one bit for each. *)
Lemma advance_follows b h nowSec : follows b h -> in_range nowSec ->
  let b' := advance nowSec b in
  let cur := Z.max nowSec (bSec b) in
  started b' = true /\ bSec b' = cur /\
  drops b' = Z.min (2 ^ 32 - 1) (heard h cur Dropped) /\ saturated b' = (0 <? heard h cur Saturated) /\
  (forall i, 0 <= i < 64 -> Z.testbit (hot b') i = hot_second h (cur - 1 - i)) /\ 0 <= hot b' < 2 ^ 64.
Proof.
  intros Hf Hr. unfold advance. rewrite (f_started b h Hf). cbn [andb].
  destruct (Z.leb_spec nowSec (bSec b)) as [Hle|Hgt].
  { rewrite Z.max_r by lia. destruct Hf; done. }
  rewrite Z.max_l by lia. cbn [started bSec drops saturated hot].
  assert (Hnew : Forall (fun e => e.1 < nowSec) h).
  { eapply Forall_impl; [apply (f_past b h Hf)|]. simpl. intros. lia. }
  rewrite !heard_future by done. do 4 (split; [done|]).
  rewrite (follows_hot b h Hf), i64_gap by (done || apply (f_range b h Hf)).
  set (x := Z.lor _ _).
  assert (Hx : forall i, 0 <= i < 64 -> Z.testbit x i = hot_second h (bSec b - i)).
  { intros i Hi. unfold x. rewrite testbit_push by done. destruct (Z.eqb_spec i 0) as [->|Hn]; [by rewrite Z.sub_0_r|].
    rewrite (f_bits b h Hf) by lia. f_equal. lia. }
  assert (Hxr : 0 <= x < 2 ^ 64) by apply lor_bit_range, shl64_range.
  assert (Hzero : forall s, bSec b < s -> hot_second h s = false).
  { intros s Hs. apply hot_future. eapply Forall_impl; [apply (f_past b h Hf)|]. simpl. intros. lia. }
  clearbody x. destruct (Z.leb_spec 64 (nowSec - bSec b - 1)); [|destruct (Z.ltb_spec 0 (nowSec - bSec b - 1))].
  - split; [|done]. intros i Hi. rewrite Z.testbit_0_l. symmetry. apply Hzero. lia.
  - split; [|apply shl64_range]. intros i Hi. rewrite testbit_shl64 by lia.
    destruct (Z.le_gt_cases (nowSec - bSec b - 1) i); [rewrite Hx by lia; f_equal; lia|].
    rewrite Z.testbit_neg_r by lia. symmetry. apply Hzero. lia.
  - split; [|done]. intros i Hi. rewrite Hx by lia. f_equal. lia.
Qed.

Lemma told_follows b h nowNs n : follows b h -> in_range (Z.quot nowNs second) ->
  follows (feed nowNs n b) (told nowNs n h).
Proof.
  intros Hf Hr. destruct (advance_follows b h _ Hf Hr) as (H1 & H2 & H3 & H4 & H5 & H6). cbv zeta in *.
  destruct (f_sec b h Hf) as (n0 & h' & Hh). set (cur := Z.max _ (bSec b)) in *.
  assert (Hc : told nowNs n h = (cur, n) :: h) by (unfold told; by rewrite Hh).
  assert (Hcr : in_range cur) by (unfold cur, in_range in *; destruct (f_range b h Hf); lia).
  assert (Hp : Forall (fun e : Z * note => e.1 <= cur) ((cur, n) :: h)).
  { constructor; [done|]. eapply Forall_impl; [apply (f_past b h Hf)|]. simpl. intros. lia. }
  assert (Hbits : forall i, 0 <= i < 64 -> hot_second h (cur - 1 - i) = hot_second ((cur, n) :: h) (cur - 1 - i)).
  { intros i Hi. rewrite hot_other by lia. done. }
  assert (Hheard : forall m, heard ((cur, n) :: h) cur m = (if bool_decide (n = m) then 1 else 0) + heard h cur m).
  { intros m. rewrite heard_cons. destruct (decide (n = m)) as [->|]; [by rewrite !bool_decide_true|].
    rewrite !bool_decide_false by congruence. done. }
  assert (Hd := heard_nonneg h cur Dropped). assert (Hs := heard_nonneg h cur Saturated).
  rewrite Hc. unfold feed, record, saturate. destruct n; cbn [andb].
  - destruct (Z.ltb_spec (drops (advance (nowNs ÷ second) b)) (2 ^ 32 - 1)) as [Hlt|Hge];
      constructor; upd; rewrite ?H1, ?H2, ?H3, ?H4, ?Hheard; try done; eauto;
      try (intros i Hi; rewrite H5 by done; by apply Hbits); cbn [bool_decide]; rewrite ?bool_decide_true, ?bool_decide_false by done.
    + rewrite H3 in Hlt. unfold u32. rewrite Z.mod_small; lia.
    + rewrite H3 in Hge. lia.
  - constructor; upd; rewrite ?H1, ?H2, ?H3, ?H4, ?Hheard; try done; eauto;
      try (intros i Hi; rewrite H5 by done; by apply Hbits); by rewrite ?bool_decide_false by done.
  - constructor; upd; rewrite ?H1, ?H2, ?H3, ?H4, ?Hheard; try done; eauto;
      try (intros i Hi; rewrite H5 by done; by apply Hbits); rewrite ?bool_decide_false, ?bool_decide_true by done; try done.
    symmetry. apply Z.ltb_lt. lia.
Qed.

(** ** The trip *)
Lemma land_low x n i : 0 <= n -> 0 <= i -> Z.testbit (Z.land x (Z.shiftl 1 n - 1)) i = Z.testbit x i && (i <? n).
Proof.
  intros Hn Hi. rewrite Z.land_spec, Z.shiftl_1_l, Z.sub_1_r, <-Z.ones_equiv. by rewrite Z.testbit_ones_nonneg.
Qed.
Lemma land_bit x n : 0 <= n -> (Z.land x (Z.shiftl 1 n) =? 0) = negb (Z.testbit x n).
Proof.
  intros Hn. rewrite Z.shiftl_1_l. destruct (Z.testbit x n) eqn:Hb; simpl.
  - apply Z.eqb_neq. intros H0. assert (Ht : Z.testbit (Z.land x (2 ^ n)) n = true).
    { by rewrite Z.land_spec, Hb, Z.pow2_bits_true. }
    by rewrite H0, Z.testbit_0_l in Ht.
  - apply Z.eqb_eq, Z.bits_inj_0. intros i. rewrite Z.land_spec. destruct (Z.eq_dec i n) as [->|]; [by rewrite Hb|].
    by rewrite Z.pow2_bits_false, andb_false_r.
Qed.

(** The bits of the last minute, counted, are its hot seconds. *)
Lemma window_count b h : follows b h ->
  OnesCount64 (Z.land (hot b) (Z.shiftl 1 59 - 1)) + (if isHot b then 1 else 0) = countb (hot_second h) (last_minute (bSec b)).
Proof.
  intros Hf. unfold last_minute, OnesCount64. rewrite countb_fmap.
  assert (E1 : seqZ 0 64 = seqZ 0 59 ++ seqZ 59 5) by done.
  assert (E2 : seqZ 0 breakerWindowSeconds = [0] ++ seqZ 1 59) by done. rewrite E1, E2, !countb_app.
  assert (Hhi : countb (Z.testbit (Z.land (hot b) (Z.shiftl 1 59 - 1))) (seqZ 59 5) = 0).
  { apply countb_0, Forall_forall. intros i Hi%elem_of_seqZ. rewrite land_low by lia.
    by rewrite (proj2 (Z.ltb_ge i 59)), andb_false_r by lia. }
  rewrite Hhi, countb_cons, countb_nil, Z.sub_0_r, (follows_hot b h Hf).
  assert (Hlo : countb (Z.testbit (Z.land (hot b) (Z.shiftl 1 59 - 1))) (seqZ 0 59)
    = countb (fun i => hot_second h (bSec b - i)) (seqZ 1 59)); [|lia].
  rewrite <-(Z.add_0_r 1), <-fmap_add_seqZ, countb_fmap. apply countb_ext, Forall_forall. intros i Hi%elem_of_seqZ.
  rewrite land_low, (f_bits b h Hf) by lia. rewrite (proj2 (Z.ltb_lt i 59)), andb_true_r by lia. f_equal. lia.
Qed.

Lemma follows_open b h : follows b h -> open b = flooded h (bSec b).
Proof.
  intros Hf. unfold open, flooded. cbv zeta. change (breakerWindowSeconds - 1) with 59. change (59 - 1) with 58.
  rewrite land_bit, land_low by lia. rewrite (proj2 (Z.ltb_lt 58 59)), andb_true_r, (f_bits b h Hf) by lia.
  replace (bSec b - 1 - 58) with (bSec b - 59) by lia. destruct (hot_second h (bSec b - 59)); [|done]. simpl negb. cbn [andb].
  rewrite <-window_count by done. destruct (isHot b); [done|]. by rewrite Z.add_0_r.
Qed.

Lemma first_follows nowNs n : in_range (Z.quot nowNs second) -> follows (feed nowNs n newBreaker) (told nowNs n []).
Proof.
  intros Hr. unfold told. simpl counted.
  assert (Ha : advance (Z.quot nowNs second) newBreaker = mkBreaker true (Z.quot nowNs second) 0 false 0) by done.
  assert (Hpast : forall i, 0 <= i -> hot_second [(Z.quot nowNs second, n)] (Z.quot nowNs second - 1 - i) = false).
  { intros i Hi. rewrite hot_other by lia. done. }
  assert (Hh : forall m, heard [(Z.quot nowNs second, n)] (Z.quot nowNs second) m = if bool_decide (n = m) then 1 else 0).
  { intros m. rewrite heard_cons. destruct (decide (n = m)) as [->|]; [by rewrite !bool_decide_true|].
    rewrite !bool_decide_false by congruence. done. }
  destruct n; unfold feed, record, saturate; rewrite Ha; simpl drops; cbn [andb Z.ltb Z.compare]; constructor; upd;
    rewrite ?Hh; try done; eauto; try (by repeat constructor); intros i Hi; rewrite Z.testbit_0_l, Hpast; done || lia.
Qed.
End Breaker.
