(* ===== verification/BeaconResponder.v ===== *)
(** * The responder around the loops (internal/beacon/responder.go)

    Apply, the end of a loop and Close hold the responder's lock, so they are
    atomic steps; the receive loops end whenever they like.  The sockets of the
    operating system are part of the state. *)
From S2P Require Import Prelude GoStrings Beacon.

Local Open Scope Z_scope.

Module Responder.
Import Beacon.

Definition bindRetryInterval : duration := minute.
Definition maxErrorLen : nat := 200.

Inductive AgentState := Off | Refused | BindFailed | Listening | CircuitOpen.
#[export] Instance AgentState_eq_dec : EqDecision AgentState.
Proof. solve_decision. Defined.

(** net/netip, and the SDK's rules for addresses, ports and keys; a refusal is
    its error text. *)
Class Net (Ip : Type) := {
  Ip_eq_dec :: EqDecision Ip;
  ParseIPv4 : string -> Ip + string;
  ValidListenPort : Z -> bool;
  ErrPort : string;
  KeyLen : Z;
  ip_string : Ip -> string;
  addr_string : Ip * Z -> string
}.

Record BeaconTableKey := mkKey { SourceID : Z; kEpoch : Z; Key : list Z; Retired : bool }.
Record BeaconResponderConfig := mkCfg { Bind : string; Port : Z; Table : list BeaconTableKey }.

(** utf8.RuneStart of the byte at an index. *)
Definition rune_start (s : string) (i : nat) : bool :=
  match String.get i s with Some c => negb ((128 <=? byte_val c) && (byte_val c <? 192)) | None => true end.
Fixpoint rune_cut (s : string) (cut : nat) : nat :=
  match cut with O => O | S n => if rune_start s cut then cut else rune_cut s n end.
Definition truncateError (s : string) : string :=
  let s := trim_space s in
  if (String.length s <=? maxErrorLen)%nat then s else str_take (rune_cut s maxErrorLen) s.

Section Responder.
Context `{Net Ip}.

Definition AddrPort : Type := Ip * Z.

Definition bindAddr (bind : string) (port : Z) : AddrPort + string :=
  match ParseIPv4 bind with
  | inr e => inr ("bind address refused: " +:+ e)%string
  | inl ip =>
      if negb (ValidListenPort port) then inr ("bind port " +:+ itoa port +:+ " refused: " +:+ ErrPort)%string
      else inl (ip, port mod 2 ^ 16)
  end.

(** The entries handed to the core (keys copied), the newest epoch and the
    distinct source ids so far. *)
Record TableEntry := mkEntry { eSource : Z; eEpoch : Z; eKey : list Z; eRetired : bool }.
Fixpoint table_from (i : Z) (table : list BeaconTableKey) (entries : list TableEntry) (newest : Z) (seen : gset Z)
    : (list TableEntry * Z * Z) + string :=
  match table with
  | [] => inl (entries, newest, Z.of_nat (size seen))
  | k :: table =>
      if (SourceID k =? 0) || (kEpoch k =? 0)
      then inr ("responder table refused: entry " +:+ itoa i +:+ " has a zero source id or epoch")%string
      else if negb (zlen (Key k) =? KeyLen)
      then inr ("responder table refused: entry " +:+ itoa i +:+ " has a " +:+ itoa (zlen (Key k)) +:+ "-byte key")%string
      else table_from (i + 1) table (entries ++ [mkEntry (SourceID k) (kEpoch k) (Key k) (Retired k)])
             (Z.max newest (kEpoch k)) ({[SourceID k]} ∪ seen)
  end.
Definition tableEntries (table : list BeaconTableKey) : (list TableEntry * Z * Z) + string := table_from 0 table [] 0 ∅.

(** [cur] names the socket the responder serves. *)
Record Responder := mkResponder {
  noBeacon : bool;
  closed : bool;
  state : AgentState;
  addr : option AddrPort;
  errText : string;
  epoch : Z;
  sources : Z;
  lastAuth : time;
  lastBind : time;
  circuitUntil : time;
  cur : option nat
}.
#[export] Instance Responder_eta : Etable Responder := fun r =>
  mkResponder (noBeacon r) (closed r) (state r) (addr r) (errText r) (epoch r) (sources r) (lastAuth r)
    (lastBind r) (circuitUntil r) (cur r).

Definition NewResponder (veto : bool) : Responder := mkResponder veto false Off None "" 0 0 0 0 0 None.

(** The responder and the sockets that are open, each with its address; socket
    numbers are not used twice.  The error the core reports for a table, or
    the system for a bind, is an input. *)
Record host := mkHost { resp : Responder; open_socks : gmap nat AddrPort; next_sock : nat }.
#[export] Instance host_eta : Etable host := fun y => mkHost (resp y) (open_socks y) (next_sock y).

Definition setLocked (st : AgentState) (a : option AddrPort) (text : string) (r : Responder) : Responder :=
  let r := r <| state := st |> <| addr := a |> <| errText := truncateError text |> in
  if bool_decide (st = Listening) then r else r <| epoch := 0 |> <| sources := 0 |>.

(** [auth] is the core's last authenticated request. *)
Definition keep_auth (auth : time) (r : Responder) : Responder :=
  if time_after auth (lastAuth r) then r <| lastAuth := auth |> else r.
Definition closeLocked (auth : time) (y : host) : host :=
  match cur (resp y) with
  | None => y
  | Some sk => y <| open_socks ::= delete sk |> <| resp ::= fun r => keep_auth auth r <| cur := None |> |>
  end.
Definition set (st : AgentState) (a : option AddrPort) (text : string) (y : host) : host :=
  y <| resp ::= setLocked st a text |>.

(** What Apply meets: the clock, the core's last authenticated request, the
    system's answer to a bind and the core's to the table. *)
Record env := mkEnv { eNow : time; eAuth : time; eListen : option string; eTable : option string }.

Definition applyLocked (cfg : option BeaconResponderConfig) (e : env) (y : host) : host :=
  match cfg with
  | None => set Off None "" (closeLocked (eAuth e) y)
  | Some c =>
      match bindAddr (Bind c) (Port c) with
      | inr text => set BindFailed None text (closeLocked (eAuth e) y)
      | inl a =>
          match tableEntries (Table c) with
          | inr text => set Off (Some a) text (closeLocked (eAuth e) y)
          | inl (_, newest, n) =>
              let applied y := set Listening (Some a) "" y <| resp ::= fun r => r <| epoch := newest |> <| sources := n |> |> in
              let y := if bool_decide (is_Some (cur (resp y)) /\ addr (resp y) <> Some a) then closeLocked (eAuth e) y else y in
              match cur (resp y) with
              | None =>
                  if time_before (eNow e) (circuitUntil (resp y)) then
                    if bool_decide (state (resp y) <> CircuitOpen) then set CircuitOpen (Some a) "circuit breaker open" y else y
                  else if bool_decide (state (resp y) = BindFailed /\ addr (resp y) = Some a) &&
                          (time_sub (eNow e) (lastBind (resp y)) <? bindRetryInterval) then y
                  else
                    let y := y <| resp ::= fun r => r <| lastBind := eNow e |> |> in
                    match eListen e with
                    | Some text => set BindFailed (Some a) ("bind udp " +:+ addr_string a +:+ ": " +:+ text)%string y
                    | None =>
                        match eTable e with
                        | Some text => set Off (Some a) text y
                        | None =>
                            let sk := next_sock y in
                            let y := y <| open_socks ::= <[sk := a]> |> <| next_sock := S sk |>
                                       <| resp ::= fun r => r <| cur := Some sk |> |> in
                            applied y
                        end
                    end
              | Some _ =>
                  match eTable e with
                  | Some text => set Off (Some a) text (closeLocked (eAuth e) y)
                  | None => applied y
                  end
              end
          end
      end
  end.

Definition Apply (cfg : option BeaconResponderConfig) (e : env) (y : host) : host :=
  if noBeacon (resp y) then y else if closed (resp y) then y else applyLocked cfg e y.

Definition Close (auth : time) (y : host) : host :=
  let y := closeLocked auth (y <| resp ::= fun r => r <| closed := true |> |>) in
  if negb (noBeacon (resp y)) then set Off None "" y else y.

Definition trip_text (hotSecs : Z) : string :=
  ("circuit breaker open: datagrams dropped in " +:+ itoa hotSecs +:+ " of the last " +:+ itoa breakerWindowSeconds
   +:+ " seconds; the socket stays closed for 5m0s")%string.

(** The loop of [sk] ended; [hotSecs] is its breaker's count and [err] the
    error, if any. *)
Definition loopEnded (sk : nat) (stop : stopReason) (err : option string) (hotSecs : Z) (now auth : time) (y : host) : host :=
  let tripped := match stop with stopBreaker => true | _ => false end in
  let y := if tripped then y <| resp ::= fun r => r <| circuitUntil := time_add now breakerCooldown |> |> else y in
  let ended y :=
    if tripped then set CircuitOpen (addr (resp y)) (trip_text hotSecs) y
    else set BindFailed (addr (resp y)) ("socket failed: " +:+ default "closed" err)%string
           (y <| resp ::= fun r => r <| lastBind := now |> |>) in
  if bool_decide (cur (resp y) = Some sk)
  then ended (y <| open_socks ::= delete sk |> <| resp ::= fun r => keep_auth auth r <| cur := None |> |>)
  else if tripped && bool_decide (is_Some (cur (resp y))) then ended (closeLocked auth y)
  else y.

(** What the agent reports; [auth] is the core's last authenticated request. *)
Record BeaconFacts := mkFacts {
  fState : AgentState; fRefused : bool; fError : string; fEpoch : Z; fSources : Z; fBind : string; fPort : Z; fLastAuthAt : time
}.
Definition IdleFacts (veto : bool) : BeaconFacts :=
  if veto then mkFacts Refused true "" 0 0 "" 0 0 else mkFacts Off false "" 0 0 "" 0 0.
Definition factsLocked (auth : time) (r : Responder) : BeaconFacts :=
  if noBeacon r then IdleFacts true
  else
    let '(b, p) :=
      match addr r with
      | Some a => if bool_decide (state r <> Off) then (ip_string a.1, a.2) else (""%string, 0)
      | None => (""%string, 0)
      end in
    mkFacts (state r) false (errText r) (epoch r) (sources r) b p
      (match cur r with Some _ => if time_after auth (lastAuth r) then auth else lastAuth r | None => lastAuth r end).
End Responder.
End Responder.
