(* ===== verification/BeaconResponderProps.v ===== *)
(** * What the responder promises

    Every interleaving of configurations, ended loops and the close. *)
From S2P Require Import Prelude GoStrings Beacon BeaconResponder.

Local Open Scope Z_scope.

Module RespProps.
Import Beacon Responder.

Section Props.
Context `{Net Ip}.

(** The host, the last configuration, when the breaker tripped, when the
    current socket was bound, the clock and the loops that have ended. *)
Record world := mkWorld {
  hst : @host Ip;
  wanted : option BeaconResponderConfig;
  tripped_at : list time;
  born : time;
  clock : time;
  ended : gset nat
}.

Definition first (veto : bool) (now : time) : world := mkWorld (mkHost (NewResponder veto) ∅ 0) None [] 0 now ∅.

Definition do_apply (cfg : option BeaconResponderConfig) (e : env) (w : world) : world :=
  let y := Apply cfg e (hst w) in
  mkWorld y cfg (tripped_at w) (if bool_decide (next_sock y = next_sock (hst w)) then born w else eNow e) (eNow e) (ended w).
Definition do_end (sk : nat) (stop : stopReason) (err : option string) (hotSecs : Z) (now auth : time) (w : world) : world :=
  mkWorld (loopEnded sk stop err hotSecs now auth (hst w)) (wanted w)
    (match stop with stopBreaker => now :: tripped_at w | _ => tripped_at w end) (born w) now ({[sk]} ∪ ended w).
Definition do_close (auth : time) (w : world) : world :=
  mkWorld (Close auth (hst w)) (wanted w) (tripped_at w) (born w) (clock w) (ended w).

(** A loop ends once, and reads a closed socket only after it was closed. *)
Inductive reach (veto : bool) : world -> Prop :=
  | reach_first now : reach veto (first veto now)
  | reach_apply w cfg e : reach veto w -> clock w <= eNow e -> reach veto (do_apply cfg e w)
  | reach_end w sk stop err hotSecs now auth : reach veto w -> clock w <= now ->
      (sk < next_sock (hst w))%nat -> sk ∉ ended w ->
      (stop = stopClosed -> open_socks (hst w) !! sk = None) ->
      reach veto (do_end sk stop err hotSecs now auth w)
  | reach_close w auth : reach veto w -> reach veto (do_close auth w).

(** ** Errors are bounded *)
Lemma str_take_length n s : (String.length (str_take n s) <= n)%nat.
Proof. revert s. induction n as [|n IH]; intros [|c s]; simpl; try lia. specialize (IH s). lia. Qed.
Lemma rune_cut_le s n : (rune_cut s n <= n)%nat.
Proof. induction n as [|n IH]; simpl; [lia|]. destruct (rune_start s (S n)); lia. Qed.
Lemma truncateError_length s : (String.length (truncateError s) <= maxErrorLen)%nat.
Proof.
  unfold truncateError. cbv zeta. destruct (Nat.leb_spec (String.length (trim_space s)) maxErrorLen); [done|].
  etrans; [apply str_take_length|apply rune_cut_le].
Qed.

(** ** The invariant *)
Record good (w : world) : Prop := {
  i_some : forall sk, cur (resp (hst w)) = Some sk -> exists a c es,
    addr (resp (hst w)) = Some a /\ open_socks (hst w) = {[sk := a]} /\ state (resp (hst w)) = Listening /\
    wanted w = Some c /\ bindAddr (Bind c) (Port c) = inl a /\
    tableEntries (Table c) = inl (es, epoch (resp (hst w)), sources (resp (hst w))) /\
    noBeacon (resp (hst w)) = false /\ closed (resp (hst w)) = false /\
    Forall (fun t => t + breakerCooldown <= born w) (tripped_at w);
  i_none : cur (resp (hst w)) = None -> open_socks (hst w) = ∅ /\ state (resp (hst w)) <> Listening /\
    epoch (resp (hst w)) = 0 /\ sources (resp (hst w)) = 0;
  i_trips : Forall (fun t => t <= clock w /\ t + breakerCooldown <= circuitUntil (resp (hst w))) (tripped_at w);
  i_err : (String.length (errText (resp (hst w))) <= maxErrorLen)%nat
}.

(** ** Pieces *)
Lemma set_fields st (a : option (@AddrPort Ip)) text (y : @host Ip) :
  open_socks (set st a text y) = open_socks y /\ next_sock (set st a text y) = next_sock y /\
  cur (resp (set st a text y)) = cur (resp y) /\ state (resp (set st a text y)) = st /\
  addr (resp (set st a text y)) = a /\ circuitUntil (resp (set st a text y)) = circuitUntil (resp y) /\
  noBeacon (resp (set st a text y)) = noBeacon (resp y) /\ closed (resp (set st a text y)) = closed (resp y) /\
  (String.length (errText (resp (set st a text y))) <= maxErrorLen)%nat /\
  (st <> Listening -> epoch (resp (set st a text y)) = 0 /\ sources (resp (set st a text y)) = 0).
Proof.
  unfold set, setLocked. upd. assert (Ht := truncateError_length text).
  destruct (decide (st = Listening)) as [->|Hs]; [rewrite bool_decide_true by done|rewrite bool_decide_false by done]; upd; naive_solver.
Qed.
Lemma closeLocked_fields auth (y : @host Ip) :
  cur (resp (closeLocked auth y)) = None /\ next_sock (closeLocked auth y) = next_sock y /\
  circuitUntil (resp (closeLocked auth y)) = circuitUntil (resp y) /\
  noBeacon (resp (closeLocked auth y)) = noBeacon (resp y) /\ closed (resp (closeLocked auth y)) = closed (resp y) /\
  addr (resp (closeLocked auth y)) = addr (resp y) /\
  open_socks (closeLocked auth y) = match cur (resp y) with Some sk => delete sk (open_socks y) | None => open_socks y end.
Proof.
  unfold closeLocked, keep_auth. destruct (cur (resp y)) as [sk|] eqn:Hc; [|done]. upd.
  destruct (time_after _ _); upd; done.
Qed.
Lemma close_empty auth w : good w -> open_socks (closeLocked auth (hst w)) = ∅.
Proof.
  intros Hg. destruct (closeLocked_fields auth (hst w)) as (_ & _ & _ & _ & _ & _ & ->).
  destruct (cur (resp (hst w))) as [sk|] eqn:Hc; [|by apply (i_none w Hg)].
  destruct (i_some w Hg sk Hc) as (a & c & es & _ & -> & _). apply delete_singleton_eq.
Qed.

(** A host without a socket, in a state that is not listening, is good. *)
Lemma good_idle w st (a : option (@AddrPort Ip)) text (y' : @host Ip) :
  good w -> open_socks y' = ∅ -> cur (resp y') = None -> st <> Listening ->
  forall cfg trips b now e, clock w <= now ->
  Forall (fun t => t <= now /\ t + breakerCooldown <= circuitUntil (resp y')) trips ->
  good (mkWorld (set st a text y') cfg trips b now e).
Proof.
  intros Hg Ho Hc Hs cfg trips b now e Hn Ht.
  destruct (set_fields st a text y') as (F1 & F2 & F3 & F4 & F5 & F6 & F7 & F8 & F9 & F10).
  split; cbn [hst wanted tripped_at born clock ended].
  - intros sk Hk. congruence.
  - intros _. rewrite F1, F4. split; [done|]. split; [done|]. by apply F10.
  - by rewrite F6.
  - done.
Qed.
Lemma trips_later w now (y' : @host Ip) : good w -> clock w <= now -> circuitUntil (resp y') = circuitUntil (resp (hst w)) ->
  Forall (fun t => t <= now /\ t + breakerCooldown <= circuitUntil (resp y')) (tripped_at w).
Proof. intros Hg Hn ->. eapply Forall_impl; [apply (i_trips w Hg)|]. simpl. lia. Qed.

(** A state of the same host at a later time, with a new configuration, is
    good when no socket is open. *)
Lemma good_kept w cfg now e b : good w -> cur (resp (hst w)) = None -> clock w <= now ->
  good (mkWorld (hst w) cfg (tripped_at w) b now e).
Proof.
  intros Hg Hc Hn. split; cbn [hst wanted tripped_at born clock ended].
  - intros sk Hk. congruence.
  - apply Hg.
  - by apply trips_later.
  - apply Hg.
Qed.

(** A socket that is open keeps listening when its table is replaced. *)
Lemma good_listening w sk a c es n m (y' : @host Ip) cfg now e b :
  good w -> clock w <= now -> cfg = Some c -> bindAddr (Bind c) (Port c) = inl a -> tableEntries (Table c) = inl (es, n, m) ->
  cur (resp y') = Some sk -> open_socks y' = {[sk := a]} -> noBeacon (resp y') = false -> closed (resp y') = false ->
  circuitUntil (resp y') = circuitUntil (resp (hst w)) ->
  Forall (fun t => t + breakerCooldown <= b) (tripped_at w) ->
  good (mkWorld (set Listening (Some a) "" y' <| resp ::= fun r => r <| epoch := n |> <| sources := m |> |>) cfg
          (tripped_at w) b now e).
Proof.
  intros Hg Hn -> Hb Ht Hc Ho Hv Hcl Hu Hf.
  destruct (set_fields Listening (Some a) "" y') as (F1 & F2 & F3 & F4 & F5 & F6 & F7 & F8 & F9 & _).
  split; cbn [hst wanted tripped_at born clock ended]; upd.
  - intros sk' Hk. assert (sk' = sk) as -> by congruence. exists a, c, es. rewrite F1, F4, F5, F7, F8.
    repeat (split; [done|]). done.
  - intros Hk. congruence.
  - rewrite F6. by apply trips_later.
  - done.
Qed.

Lemma close_state auth (y : @host Ip) : state (resp (closeLocked auth y)) = state (resp y).
Proof. unfold closeLocked, keep_auth. destruct (cur (resp y)); [|done]. upd. destruct (time_after _ _); by upd. Qed.

(** The bind: refused by the system, refused by the core, or listening. *)
Lemma bind_good w (y : @host Ip) c a es n m e :
  good w -> clock w <= eNow e -> bindAddr (Bind c) (Port c) = inl a -> tableEntries (Table c) = inl (es, n, m) ->
  open_socks y = ∅ -> cur (resp y) = None -> noBeacon (resp y) = false -> closed (resp y) = false ->
  next_sock y = next_sock (hst w) ->
  circuitUntil (resp y) = circuitUntil (resp (hst w)) -> time_before (eNow e) (circuitUntil (resp y)) = false ->
  let y' :=
    let y := y <| resp ::= fun r => r <| lastBind := eNow e |> |> in
    match eListen e with
    | Some text => set BindFailed (Some a) ("bind udp " +:+ addr_string a +:+ ": " +:+ text)%string y
    | None =>
        match eTable e with
        | Some text => set Off (Some a) text y
        | None =>
            let sk := next_sock y in
            let y := y <| open_socks ::= <[sk := a]> |> <| next_sock := S sk |> <| resp ::= fun r => r <| cur := Some sk |> |> in
            set Listening (Some a) "" y <| resp ::= fun r => r <| epoch := n |> <| sources := m |> |>
        end
    end in
  good (mkWorld y' (Some c) (tripped_at w) (if bool_decide (next_sock y' = next_sock (hst w)) then born w else eNow e) (eNow e) (ended w)).
Proof.
  intros Hg Hn Hb Ht Ho Hc Hv Hcl Hns Hu Hbf. cbv zeta.
  assert (Hidle : forall st text b, st <> Listening -> good (mkWorld (set st (Some a) text (y <| resp ::= fun r => r <| lastBind := eNow e |> |>))
    (Some c) (tripped_at w) b (eNow e) (ended w))).
  { intros st text b Hst. apply (good_idle w); upd; try done. apply trips_later; upd; done. }
  destruct (eListen e) as [text|]; [by apply Hidle|]. destruct (eTable e) as [text|]; [by apply Hidle|]. upd.
  set (y1 := y <| resp ::= _ |> <| open_socks ::= _ |> <| next_sock := _ |> <| resp ::= _ |>).
  destruct (set_fields Listening (Some a) "" y1) as (_ & F2 & _). rewrite F2.
  rewrite bool_decide_false by (unfold y1; upd; lia).
  apply (good_listening w (next_sock y) a c es n m y1); unfold y1; upd; try done.
  - by rewrite Ho.
  - eapply Forall_impl; [apply (i_trips w Hg)|]. simpl. unfold time_before in Hbf. apply Z.ltb_ge in Hbf. lia.
Qed.

Lemma apply_good w cfg e : good w -> clock w <= eNow e -> good (do_apply cfg e w).
Proof.
  intros Hg Hn. unfold do_apply, Apply.
  destruct (noBeacon (resp (hst w))) eqn:Hv.
  { apply good_kept; [done| |done]. destruct (cur _) as [sk|] eqn:Hc; [|done].
    destruct (i_some w Hg sk Hc) as (? & ? & ? & ? & ? & ? & ? & ? & ? & ? & _). congruence. }
  destruct (closed (resp (hst w))) eqn:Hcl.
  { apply good_kept; [done| |done]. destruct (cur _) as [sk|] eqn:Hc; [|done].
    destruct (i_some w Hg sk Hc) as (? & ? & ? & ? & ? & ? & ? & ? & ? & ? & ? & _). congruence. }
  destruct (closeLocked_fields (eAuth e) (hst w)) as (C1 & C2 & C3 & C4 & C5 & C6 & C7).
  assert (Hoff : forall st a text, st <> Listening -> forall b, good (mkWorld (set st a text (closeLocked (eAuth e) (hst w))) cfg (tripped_at w) b (eNow e) (ended w))).
  { intros st a text Hst b. apply (good_idle w); [done|by apply close_empty|done|done|done|by apply trips_later]. }
  unfold applyLocked. destruct cfg as [c|]; [|by apply Hoff].
  destruct (bindAddr (Bind c) (Port c)) as [a|text] eqn:Hb; [|by apply Hoff].
  destruct (tableEntries (Table c)) as [[[es n] m]|text] eqn:Ht; [|by apply Hoff].
  set (y := if bool_decide _ then _ else _).
  destruct (cur (resp y)) as [sk|] eqn:Hcy.
  - (* bound there already *)
    unfold y in *. clear y. destruct (bool_decide _) eqn:Hbd; [congruence|]. apply bool_decide_eq_false in Hbd.
    assert (Ha : addr (resp (hst w)) = Some a) by (apply dec_stable; intros Hne; apply Hbd; split; [by eexists|done]).
    destruct (eTable e) as [text|]; [by apply Hoff|].
    destruct (i_some w Hg sk Hcy) as (a' & c' & es' & Ha' & Ho & Hs & _ & _ & _ & _ & _ & Hf).
    assert (a' = a) as -> by congruence.
    destruct (set_fields Listening (Some a) "" (hst w)) as (_ & F2 & _). upd. rewrite F2, bool_decide_true by done.
    by eapply good_listening.
  - (* no socket *)
    assert (Hy : open_socks y = ∅ /\ next_sock y = next_sock (hst w) /\ circuitUntil (resp y) = circuitUntil (resp (hst w)) /\
      noBeacon (resp y) = false /\ closed (resp y) = false /\ (state (resp y) <> Listening -> y = hst w)).
    { unfold y in *. destruct (bool_decide _) eqn:Hbd; [|destruct (i_none w Hg Hcy) as [Ho _]; repeat (split; [done|]); done].
      rewrite C2, C3, C4, C5, close_empty by done. repeat (split; [done|]). intros Hl. exfalso. apply Hl.
      apply bool_decide_eq_true in Hbd as [[sk Hsk] _]. rewrite close_state. by destruct (i_some w Hg sk Hsk) as (? & ? & ? & ? & ? & ? & _). }
    destruct Hy as (Hyo & Hyn & Hyu & Hyv & Hyc & Hyl).
    assert (Hidle : forall st a text b (y' : @host Ip), open_socks y' = ∅ -> cur (resp y') = None -> circuitUntil (resp y') = circuitUntil (resp y) ->
      st <> Listening -> good (mkWorld (set st a text y') (Some c) (tripped_at w) b (eNow e) (ended w))).
    { intros st a' text b y' H1 H2 H3 H4. apply (good_idle w); [done|done|done|done|done|]. apply trips_later; [done|done|congruence]. }
    clearbody y. destruct (time_before (eNow e) (circuitUntil (resp y))) eqn:Hbf.
    { destruct (bool_decide (state (resp y) <> CircuitOpen)) eqn:Hst; [by apply Hidle|].
      apply bool_decide_eq_false, dec_stable in Hst. assert (y = hst w) as -> by (apply Hyl; congruence). by apply good_kept. }
    destruct (bool_decide (state (resp y) = BindFailed /\ addr (resp y) = Some a)) eqn:Hst; cbn [andb].
    + apply bool_decide_eq_true in Hst as [Hst _]. destruct (_ <? _); [assert (y = hst w) as -> by (apply Hyl; congruence); by apply good_kept|].
      by apply (bind_good w y c a es n m e).
    + by apply (bind_good w y c a es n m e).
Qed.

Lemma end_good w sk stop err hotSecs now auth : good w -> clock w <= now ->
  good (do_end sk stop err hotSecs now auth w).
Proof.
  intros Hg Hn. unfold do_end, loopEnded. cbv zeta.
  set (y := if match stop with stopBreaker => true | _ => false end then _ else _).
  assert (Hy : cur (resp y) = cur (resp (hst w)) /\ open_socks y = open_socks (hst w) /\
    (stop <> stopBreaker -> y = hst w) /\ addr (resp y) = addr (resp (hst w)) /\
    Forall (fun t => t <= now /\ t + breakerCooldown <= circuitUntil (resp y))
      (match stop with stopBreaker => now :: tripped_at w | _ => tripped_at w end)).
  { unfold y. destruct stop; upd; repeat (split; [done|]); try (by apply trips_later).
    constructor; [unfold time_add; lia|]. eapply Forall_impl; [apply (i_trips w Hg)|]. unfold time_add. simpl. lia. }
  destruct Hy as (Hc & Ho & Hsame & Ha & Ht). rewrite Hc.
  assert (Hidle : forall (y' : @host Ip), open_socks y' = ∅ -> cur (resp y') = None -> circuitUntil (resp y') = circuitUntil (resp y) ->
    good (mkWorld (if match stop with stopBreaker => true | _ => false end then set CircuitOpen (addr (resp y')) (trip_text hotSecs) y'
      else set BindFailed (addr (resp y')) ("socket failed: " +:+ default "closed" err)%string (y' <| resp ::= fun r => r <| lastBind := now |> |>))
      (wanted w) (match stop with stopBreaker => now :: tripped_at w | _ => tripped_at w end) (born w) now ({[sk]} ∪ ended w))).
  { intros y' H1 H2 H3. destruct stop; apply (good_idle w); upd; try done; by rewrite H3. }
  destruct (decide (cur (resp (hst w)) = Some sk)) as [Hk|Hk]; [rewrite bool_decide_true by done|rewrite bool_decide_false by done].
  - apply Hidle; upd; [|done|by unfold keep_auth; destruct (time_after auth (lastAuth (resp y))); upd].
    rewrite Ho. destruct (i_some w Hg sk Hk) as (a & c & es & _ & -> & _). apply delete_singleton_eq.
  - destruct (cur (resp (hst w))) as [sk'|] eqn:Hc'.
    + rewrite bool_decide_true by (by eexists). destruct stop; cbn [andb].
      2: { destruct (closeLocked_fields auth y) as (C1 & C2 & C3 & C4 & C5 & C6 & C7). apply (Hidle (closeLocked auth y)); [|done|done].
           rewrite C7, Hc, Ho. destruct (i_some w Hg sk' Hc') as (a & c & es & _ & -> & _). apply delete_singleton_eq. }
      all: rewrite Hsame in * by done; split; cbn [hst wanted tripped_at born clock ended]; try apply Hg; exact Ht.
    + rewrite bool_decide_false by (by intros [? ?]). rewrite andb_false_r. destruct stop.
      2: { split; cbn [hst wanted tripped_at born clock ended]; [intros ? ?; congruence| |done|].
           - intros _. rewrite Ho. unfold y. upd. by apply (i_none w Hg).
           - unfold y. upd. apply Hg. }
      all: rewrite Hsame in * by done; by apply good_kept.
Qed.

Lemma close_good w auth : good w -> good (do_close auth w).
Proof.
  intros Hg. unfold do_close, Close. cbv zeta. set (y := hst w <| resp ::= _ |>).
  destruct (closeLocked_fields auth y) as (C1 & C2 & C3 & C4 & C5 & C6 & C7).
  assert (Ho : open_socks (closeLocked auth y) = ∅).
  { rewrite C7. unfold y. upd. destruct (cur (resp (hst w))) as [sk|] eqn:Hc; [|by apply (i_none w Hg)].
    destruct (i_some w Hg sk Hc) as (a & c & es & _ & -> & _). apply delete_singleton_eq. }
  assert (Ht : Forall (fun t => t <= clock w /\ t + breakerCooldown <= circuitUntil (resp (closeLocked auth y))) (tripped_at w)).
  { apply trips_later; [done|done|]. rewrite C3. unfold y. by upd. }
  rewrite C4. destruct (noBeacon (resp y)) eqn:Hv; cbn [negb]; [|by apply (good_idle w)].
  assert (Hn : cur (resp (hst w)) = None).
  { destruct (cur (resp (hst w))) as [sk|] eqn:Hc; [|done]. revert Hv. unfold y. upd.
    destruct (i_some w Hg sk Hc) as (? & ? & ? & ? & ? & ? & ? & ? & ? & ? & _). congruence. }
  assert (Hy : closeLocked auth y = y) by (unfold closeLocked, y; upd; by rewrite Hn).
  rewrite Hy in *. split; cbn [hst wanted tripped_at born clock ended]; [intros ? ?; congruence| |done|].
  - intros _. unfold y. upd. by apply (i_none w Hg).
  - unfold y. upd. apply Hg.
Qed.

Lemma reach_good veto w : reach veto w -> good w.
Proof.
  induction 1 as [now|w cfg e _ IH Hn|w sk stop err hotSecs now auth _ IH Hn _ _ _|w auth _ IH].
  - split; simpl; try done. lia.
  - by apply apply_good.
  - by apply end_good.
  - by apply close_good.
Qed.

(** A socket is open only where the last configuration put it: in every
    interleaving of configurations, ending loops and the close, either no
    socket is open, the responder does not report listening and it reports no
    epoch and no sources, or exactly one is open, bound to the address and
    port of the last configuration, whose table is valid and whose newest
    epoch and number of sources are reported; never under the node veto, and
    never after the close. *)
Theorem socket_follows_config veto w : reach veto w ->
  match cur (resp (hst w)) with
  | None => open_socks (hst w) = ∅ /\ state (resp (hst w)) <> Listening /\
      epoch (resp (hst w)) = 0 /\ sources (resp (hst w)) = 0
  | Some sk => exists a c es, open_socks (hst w) = {[sk := a]} /\ state (resp (hst w)) = Listening /\
      wanted w = Some c /\ bindAddr (Bind c) (Port c) = inl a /\
      tableEntries (Table c) = inl (es, epoch (resp (hst w)), sources (resp (hst w))) /\
      noBeacon (resp (hst w)) = false /\ closed (resp (hst w)) = false
  end.
Proof.
  intros Hr%reach_good. destruct (cur (resp (hst w))) as [sk|] eqn:Hc; [|by apply (i_none w Hr)].
  destruct (i_some w Hr sk Hc) as (a & c & es & _ & ? & ? & ? & ? & ? & ? & ? & _). by exists a, c, es.
Qed.

(** The cooldown holds: a socket that is open was bound at least five minutes
    after every trip of the breaker, whichever loop reported it and however
    late. *)
Theorem cooldown_kept veto w sk t : reach veto w -> cur (resp (hst w)) = Some sk -> t ∈ tripped_at w ->
  t + breakerCooldown <= born w.
Proof.
  intros Hr%reach_good Hc Ht. destruct (i_some w Hr sk Hc) as (_ & _ & _ & _ & _ & _ & _ & _ & _ & _ & _ & Hf).
  rewrite Forall_forall in Hf. by apply Hf.
Qed.
End Props.
End RespProps.
