(* ===== verification/BeaconLoop.v ===== *)
(** * When the receive loop gives up

    Guard, breaker and loop together, compared with a reference that reads the
    datagrams of the whole run. *)
From S2P Require Import Prelude GoStrings Beacon BeaconGuard.

Local Open Scope Z_scope.

Module BeaconLoop.
Import Beacon Breaker.

Section Loop.
Context `{Wire Addr}.

(** ** The reference *)

(** A datagram, with the nanoseconds since the loop started; histories are
    newest first. *)
Record datagram := mkDatagram { dMono : Z; dLen : Z; dFrom : Addr * Z; dAns : answer }.
Definition dSec (d : datagram) : Z := Z.quot (dMono d) second.
Definition dBucket (d : datagram) : Z := bucket_of (dFrom d).1.

Definition in_second (h : list datagram) (s : Z) : Z := countb (fun d => dSec d =? s) h.
Definition from_bucket (h : list datagram) (s i : Z) : Z := countb (fun d => (dSec d =? s) && (dBucket d =? i)) h.

Definition ref_verdict (h : list datagram) (d : datagram) : guardVerdict :=
  if guardGlobalPerSecond <=? in_second h (dSec d) then guardGlobalFull
  else if guardPerBucketPerSecond <=? from_bucket h (dSec d) (dBucket d) then guardBucketFull
  else guardAllow.

(** A request the core answers, with a reply no longer than the request. *)
Definition answered (d : datagram) : bool :=
  negb (sourceRefused (dFrom d)) && (dLen d =? RequestLen) &&
  match dAns d with
  | HandlePanics => false
  | Handled n v => (0 <? n) && (n <=? dLen d) && (n <=? ReplyLen) && Replied v
  end.

(** Let through by the guard and dropped after it. *)
Definition costly (h : list datagram) (d : datagram) : bool :=
  match ref_verdict h d with guardAllow => negb (answered d) | _ => false end.
Fixpoint costly_in (h : list datagram) (s : Z) : Z :=
  match h with
  | [] => 0
  | d :: h => (if (dSec d =? s) && costly h d then 1 else 0) + costly_in h s
  end.

(** A second is hot when its datagrams spent the global budget, or too many of
    them were costly. *)
Definition heat (h : list datagram) (s : Z) : bool :=
  (guardGlobalPerSecond <=? in_second h s) || (breakerDropsPerSecond <=? costly_in h s).
(** The same as seen right after [d]: a budget [d] itself spends shows later. *)
Definition heat_at (d : datagram) (h : list datagram) (s : Z) : bool :=
  (guardGlobalPerSecond <=? in_second h s) || (breakerDropsPerSecond <=? costly_in (d :: h) s).
Definition trips (d : datagram) (h : list datagram) : bool :=
  heat_at d h (dSec d - 59) && (54 <=? countb (heat_at d h) (last_minute (dSec d))).

(** ** The guard *)
Definition head_sec (h : list datagram) : Z := match h with d :: _ => dSec d | [] => 0 end.
(** No clock steps back, and the seconds fit. *)
Fixpoint ordered (h : list datagram) : Prop :=
  match h with
  | [] => True
  | d :: h => head_sec h <= dSec d /\ in_range (dSec d) /\ ordered h
  end.

Record guarded (g : guard) (h : list datagram) : Prop := {
  g_sec : gSec g = head_sec h;
  g_total : gTotal g = Z.min guardGlobalPerSecond (in_second h (head_sec h));
  g_buckets : in_second h (head_sec h) <= guardGlobalPerSecond ->
    forall i, bucket_count g i = Z.min guardPerBucketPerSecond (from_bucket h (head_sec h) i)
}.

Lemma ordered_past h : ordered h -> 0 <= head_sec h /\ Forall (fun d => dSec d <= head_sec h) h.
Proof.
  induction h as [|d h IH]; [done|]. simpl. intros (Hd & Hr & Ho). destruct (IH Ho) as [H0 Hf].
  split; [apply Hr|]. constructor; [done|]. eapply Forall_impl; [exact Hf|]. simpl. lia.
Qed.
Lemma in_second_new h s : ordered h -> head_sec h < s -> in_second h s = 0 /\ forall i, from_bucket h s i = 0.
Proof.
  intros Ho Hs. destruct (ordered_past h Ho) as [_ Hf].
  split; [|intros i]; apply countb_0; (eapply Forall_impl; [exact Hf|]); simpl; intros d Hd;
    by rewrite (proj2 (Z.eqb_neq (dSec d) s)) by lia.
Qed.

Lemma in_second_cons d h s : in_second (d :: h) s = (if dSec d =? s then 1 else 0) + in_second h s.
Proof. unfold in_second. by rewrite countb_cons. Qed.
Lemma from_bucket_cons d h s i :
  from_bucket (d :: h) s i = (if (dSec d =? s) && (dBucket d =? i) then 1 else 0) + from_bucket h s i.
Proof. unfold from_bucket. by rewrite countb_cons. Qed.
Lemma in_second_nonneg h s : 0 <= in_second h s.
Proof. apply countb_bounds. Qed.
Lemma from_bucket_nonneg h s i : 0 <= from_bucket h s i.
Proof. apply countb_bounds. Qed.

(** The guard decides as the reference does. *)
Lemma allow_exact g h d : guarded g h -> ordered (d :: h) ->
  (allow (dFrom d).1 (dMono d) g).2 = ref_verdict h d /\ guarded (allow (dFrom d).1 (dMono d) g).1 (d :: h).
Proof.
  intros Hg (Hle & Hr & Ho).
  assert (Hg0 : let g0 := if negb (dSec d =? gSec g) then mkGuard (dSec d) 0 ∅ else g in
    gSec g0 = dSec d /\ gTotal g0 = Z.min guardGlobalPerSecond (in_second h (dSec d)) /\
    (in_second h (dSec d) <= guardGlobalPerSecond ->
     forall i, bucket_count g0 i = Z.min guardPerBucketPerSecond (from_bucket h (dSec d) i))).
  { cbv zeta. rewrite (g_sec g h Hg). destruct (Z.eqb_spec (dSec d) (head_sec h)) as [->|Hn]; simpl negb; cbn [gSec gTotal].
    - destruct Hg; done.
    - destruct (in_second_new h (dSec d) Ho ltac:(lia)) as [H1 H2]. rewrite H1. split; [done|]. split; [done|].
      intros _ i. rewrite H2. unfold bucket_count. simpl. by rewrite lookup_empty. }
  unfold allow. fold (dSec d). cbv zeta in Hg0. set (g0 := if negb _ then _ else _) in *.
  destruct Hg0 as (Hs & Ht & Hb). clearbody g0.
  assert (Hn := in_second_nonneg h (dSec d)). assert (Hfb := from_bucket_nonneg h (dSec d) (dBucket d)).
  unfold ref_verdict. rewrite Ht.
  assert (Hin : in_second (d :: h) (dSec d) = 1 + in_second h (dSec d)) by (by rewrite in_second_cons, Z.eqb_refl).
  destruct (Z.leb_spec guardGlobalPerSecond (in_second h (dSec d))) as [Hfull|Hfree].
  { rewrite (proj2 (Z.leb_le _ _)) by lia. split; [done|]. simpl fst.
    split; simpl head_sec; rewrite ?Hin; [done|lia|lia]. }
  rewrite (proj2 (Z.leb_gt _ _)) by lia. fold (dBucket d).
  set (g1 := g0 <| gTotal ::= _ |>).
  assert (Hb1 : forall i, bucket_count g1 i = bucket_count g0 i) by (intros i; unfold bucket_count, g1; by upd).
  assert (Ht1 : gTotal g1 = Z.min guardGlobalPerSecond (in_second (d :: h) (dSec d))).
  { unfold g1. upd. rewrite Ht, Hin. unfold u32. rewrite Z.mod_small; unfold guardGlobalPerSecond in *; lia. }
  assert (Hs1 : gSec g1 = dSec d) by (unfold g1; by upd).
  rewrite Hb1, Hb by lia. clearbody g1.
  assert (Hfrom : forall i, from_bucket (d :: h) (dSec d) i = (if dBucket d =? i then 1 else 0) + from_bucket h (dSec d) i).
  { intros i. by rewrite from_bucket_cons, Z.eqb_refl. }
  destruct (Z.leb_spec guardPerBucketPerSecond (from_bucket h (dSec d) (dBucket d))) as [Hbf|Hbo].
  - rewrite (proj2 (Z.leb_le _ _)) by lia. split; [done|]. simpl fst. split; simpl head_sec; [done|done|].
    intros _ i. rewrite Hb1, Hb, Hfrom by lia. destruct (Z.eqb_spec (dBucket d) i) as [<-|]; lia.
  - rewrite (proj2 (Z.leb_gt _ _)) by lia. split; [done|]. simpl fst. split; simpl head_sec; upd; [done|done|].
    intros _ i. unfold bucket_count. upd. rewrite Hfrom.
    destruct (Z.eqb_spec (dBucket d) i) as [<-|Hne].
    + rewrite lookup_insert_eq. simpl. unfold u32. rewrite Z.mod_small; unfold guardPerBucketPerSecond in *; lia.
    + rewrite lookup_insert_ne by done. fold (bucket_count g1 i). rewrite Hb1, Hb by lia. lia.
Qed.

(** ** What the breaker is told *)
Definition kind (h : list datagram) (d : datagram) : note :=
  match ref_verdict h d with
  | guardGlobalFull => Saturated
  | guardBucketFull => Answered
  | guardAllow => if answered d then Answered else Dropped
  end.
Definition spent (h : list datagram) (d : datagram) : bool := guardGlobalPerSecond <=? in_second (d :: h) (dSec d).
Fixpoint notes (h : list datagram) : history :=
  match h with
  | [] => []
  | d :: h => (if spent h d then [(dSec d, Saturated)] else []) ++ (dSec d, kind h d) :: notes h
  end.

Lemma kind_saturated h d : kind h d = Saturated <-> guardGlobalPerSecond <= in_second h (dSec d).
Proof.
  unfold kind, ref_verdict. destruct (Z.leb_spec guardGlobalPerSecond (in_second h (dSec d))); [done|].
  destruct (_ <=? _); [|destruct (answered d)]; (split; [done|lia]).
Qed.
Lemma kind_dropped h d : bool_decide (kind h d = Dropped) = costly h d.
Proof. unfold kind, costly. by destruct (ref_verdict h d); [destruct (answered d)| |]. Qed.

Lemma heard_told h d (N : history) s n :
  heard ((dSec d, kind h d) :: N) s n = (if (dSec d =? s) && bool_decide (kind h d = n) then 1 else 0) + heard N s n.
Proof.
  rewrite heard_cons. destruct (Z.eqb_spec (dSec d) s) as [->|]; cbn [andb]; [|by rewrite bool_decide_false by congruence].
  destruct (decide (kind h d = n)) as [->|]; [by rewrite !bool_decide_true|]. by rewrite !bool_decide_false by congruence.
Qed.

Lemma heard_dropped h s : heard (notes h) s Dropped = costly_in h s.
Proof.
  induction h as [|d h IH]; [done|]. simpl. rewrite <-IH, <-kind_dropped.
  destruct (spent h d); simpl app; [rewrite heard_cons, bool_decide_false by done|]; by rewrite heard_told.
Qed.
Lemma heard_saturated h s : 0 < heard (notes h) s Saturated <-> guardGlobalPerSecond <= in_second h s.
Proof.
  induction h as [|d h IH]; [done|]. simpl. assert (Hn := heard_nonneg (notes h) s Saturated).
  rewrite in_second_cons. unfold spent. rewrite in_second_cons, Z.eqb_refl.
  assert (Hk := kind_saturated h d).
  destruct (Z.leb_spec guardGlobalPerSecond (1 + in_second h (dSec d))); simpl app; [rewrite heard_cons|];
    rewrite heard_told; destruct (Z.eqb_spec (dSec d) s) as [<-|Hs]; cbn [andb].
  - rewrite bool_decide_true by done. split; [lia|]. destruct (bool_decide _); lia.
  - rewrite bool_decide_false by congruence. simpl. done.
  - rewrite bool_decide_false by (intros Hb%Hk; lia). rewrite IH. lia.
  - done.
Qed.

Lemma hot_notes h s : hot_second (notes h) s = heat h s.
Proof.
  unfold hot_second, heat. rewrite heard_dropped. f_equal. apply eq_true_iff_eq.
  rewrite Z.ltb_lt, Z.leb_le. apply heard_saturated.
Qed.
Lemma hot_told d h s : hot_second ((dSec d, kind h d) :: notes h) s = heat_at d h s.
Proof.
  unfold hot_second, heat_at. rewrite !heard_told, heard_dropped, kind_dropped. simpl costly_in. f_equal.
  apply eq_true_iff_eq. rewrite Z.ltb_lt, Z.leb_le, <-heard_saturated.
  destruct (Z.eqb_spec (dSec d) s) as [Hs|]; cbn [andb]; [|done].
  destruct (bool_decide (kind h d = Saturated)) eqn:Hk; [|done]. apply bool_decide_eq_true, kind_saturated in Hk.
  rewrite Hs in Hk. apply heard_saturated in Hk. lia.
Qed.
Lemma flooded_told d h : flooded ((dSec d, kind h d) :: notes h) (dSec d) = trips d h.
Proof.
  unfold flooded, trips. rewrite hot_told. f_equal. f_equal. apply countb_ext, Forall_forall. intros s _. apply hot_told.
Qed.

(** ** The loop *)
Definition followed (b : breaker) (N : history) : Prop := match N with [] => b = newBreaker | _ => follows b N end.
Lemma followed_feed b N m n : followed b N -> in_range (Z.quot m second) -> Forall (fun e => e.1 <= Z.quot m second) N ->
  follows (feed m n b) ((Z.quot m second, n) :: N).
Proof.
  intros Hb Hr Hp. destruct N as [|[s n'] N].
  - simpl in Hb. subst b. by apply first_follows.
  - assert (Ht : told m n ((s, n') :: N) = (Z.quot m second, n) :: (s, n') :: N).
    { unfold told, counted. rewrite Z.max_l; [done|]. by inversion Hp. }
    rewrite <-Ht. by apply told_follows.
Qed.
Lemma notes_past h : ordered h -> Forall (fun e => e.1 <= head_sec h) (notes h).
Proof.
  induction h as [|d h IH]; [done|]. simpl. intros (Hd & _ & Ho).
  apply Forall_app. split; [destruct (spent h d); by repeat constructor|]. constructor; [done|].
  eapply Forall_impl; [exact (IH Ho)|]. simpl. lia.
Qed.

Record tracked (l : loop) (h : list datagram) : Prop := {
  t_ordered : ordered h;
  t_guard : guarded (lGuard l) h;
  t_breaker : followed (lBreaker l) (notes h)
}.

(** A processed datagram is told to the breaker and answered as the reference
    says. *)
Definition ref_reply (h : list datagram) (d : datagram) : Z :=
  match ref_verdict h d, dAns d with guardAllow, Handled n _ => if answered d then n else 0 | _, _ => 0 end.
Lemma process_exact l h t len from ans :
  let d := mkDatagram (mono t l) len from ans in
  tracked l h -> ordered (d :: h) ->
  let '(l', r) := process t len from ans l in
  base l' = base l /\ lGuard l' = (allow from.1 (mono t l) (lGuard l)).1 /\
  lBreaker l' = feed (mono t l) (kind h d) (lBreaker l) /\ r = ref_reply h d.
Proof.
  intros d Ht Ho. destruct (allow_exact (lGuard l) h d (t_guard l h Ht) Ho) as [Hv _]. simpl in Hv.
  unfold process, kind, ref_reply. cbv zeta. destruct (allow from.1 (mono t l) (lGuard l)) as [g v]. simpl in Hv. subst v.
  destruct (ref_verdict h d); [|by upd; destruct ans|by upd; destruct ans].
  unfold answered. change (dFrom d) with from. change (dLen d) with len. change (dAns d) with ans.
  destruct (sourceRefused from); [by upd; destruct ans|]. destruct (len =? RequestLen); cbn [negb andb]; [|by unfold count_verdict; upd; destruct ans].
  destruct ans as [|n v]; [by upd|]. set (l1 := if _ <? _ then _ else _).
  assert (Hl1 : base l1 = base l /\ lGuard l1 = g /\ lBreaker l1 = lBreaker l).
  { unfold l1, count_verdict. destruct (_ <? _); by upd. }
  destruct Hl1 as (Hb & Hg & Hbr). clearbody l1.
  rewrite (Z.ltb_antisym n len), (Z.ltb_antisym n ReplyLen), (Z.leb_antisym 0 n).
  destruct (0 <? n), (n <=? len), (n <=? ReplyLen), (Replied v); cbn [negb andb orb]; upd; rewrite ?Hb, ?Hg, ?Hbr; done.
Qed.

(** A loop that has not stopped, its read errors in a row and the datagrams it
    read. *)
Inductive running : loop -> Z -> list datagram -> Prop :=
  | running_start t0 : running (newLoop t0) 0 []
  | running_error l errs h : running l errs h -> errs + 1 < maxReadErrors -> running l (errs + 1) h
  | running_datagram l errs h t len from ans written l' errs' reply sleep :
      running l errs h -> head_sec h <= Z.quot (mono t l) second ->
      serve_step (rDatagram t len from ans written) l errs = (l', errs', reply, Continue sleep) ->
      running l' errs' (mkDatagram (mono t l) len from ans :: h).

Lemma mono_range t l : in_range (Z.quot (mono t l) second).
Proof.
  unfold mono, time_sub, in_range. split; [apply Z.quot_pos; unfold second; lia|].
  apply Z.quot_le_mono; [unfold second; lia|]. unfold max_i64, min_i64. lia.
Qed.

(** One turn of the loop, on a tracked state. *)
Lemma step_exact l h errs t len from ans written :
  let d := mkDatagram (mono t l) len from ans in
  tracked l h -> head_sec h <= dSec d ->
  let '(l', _, reply, next) := serve_step (rDatagram t len from ans written) l errs in
  (next = Stop stopBreaker <-> trips d h = true) /\
  reply = (if 0 <? ref_reply h d then Some (ref_reply h d) else None) /\
  (forall sleep, next = Continue sleep -> tracked l' (d :: h)).
Proof.
  intros d Ht Hle. assert (Hr : in_range (dSec d)) by apply mono_range.
  assert (Ho : ordered (d :: h)) by (split; [done|]; split; [done|apply Ht]).
  assert (Hp := process_exact l h t len from ans Ht Ho). fold d in Hp. unfold serve_step.
  destruct (process t len from ans l) as [l1 r]. destruct Hp as (Hb & Hg & Hbr & ->).
  assert (Hf : follows (lBreaker l1) ((dSec d, kind h d) :: notes h)).
  { rewrite Hbr. apply followed_feed; [apply Ht|done|]. eapply Forall_impl; [apply notes_past, Ht|]. simpl. intros. unfold dSec in *. simpl in *. lia. }
  assert (Hgd : guarded (lGuard l1) (d :: h)) by (rewrite Hg; apply (allow_exact (lGuard l) h d); [apply Ht|done]).
  set (l2 := if _ && written then _ else _).
  assert (H2 : base l2 = base l /\ lGuard l2 = lGuard l1 /\ lBreaker l2 = lBreaker l1) by (unfold l2; destruct (_ && written); by upd).
  destruct H2 as (H2b & H2g & H2r). clearbody l2. rewrite H2r, (follows_open _ _ Hf).
  destruct (f_sec _ _ Hf) as (n & N & [= <- _ _]). rewrite flooded_told.
  destruct (trips d h); [done|]. unfold mono at 1 2. rewrite H2b. fold (mono t l).
  assert (Hfull : full (mono t l) (lGuard l2) = spent h d).
  { unfold full, spent. rewrite H2g, (g_sec _ _ Hgd), (g_total _ _ Hgd). simpl head_sec. unfold dSec at 1. simpl dMono.
    rewrite Z.eqb_refl. cbn [andb]. apply eq_true_iff_eq. rewrite !Z.leb_le. lia. }
  rewrite Hfull. destruct (spent h d) eqn:Hsp; (split; [done|]); (split; [done|]); intros sleep _.
  - split; [done|upd; by rewrite H2g|]. simpl notes. rewrite Hsp. simpl. upd. rewrite H2r.
    apply (followed_feed _ _ (mono t l) Saturated); [exact Hf|done|]. apply Forall_cons. split; [done|].
    eapply Forall_impl; [apply notes_past, Ht|]. simpl. intros. unfold dSec in *. simpl in *. lia.
  - split; [done|by rewrite H2g|]. simpl notes. rewrite Hsp. simpl. by rewrite H2r.
Qed.

Lemma running_tracked l errs h : running l errs h -> tracked l h.
Proof.
  induction 1 as [t0|l errs h _ IH _|l errs h t len from ans written l' errs' reply sleep _ IH Hle Hstep].
  - split; [done| |done]. by split.
  - done.
  - assert (Hs := step_exact l h errs t len from ans written IH Hle). rewrite Hstep in Hs. naive_solver.
Qed.

(** C37: The breaker closes the socket exactly on a flood: after any run, the
    datagram just read stops the loop if and only if the oldest of the last
    sixty seconds was hot and at least fifty-four of them were, where a second
    is hot when its datagrams spent the global budget or at least 5000 of them
    passed the guard and got no answer. *)
Theorem loop_trips_exactly l errs h t len from ans written :
  running l errs h -> head_sec h <= Z.quot (mono t l) second ->
  (serve_step (rDatagram t len from ans written) l errs).2 = Stop stopBreaker <->
  trips (mkDatagram (mono t l) len from ans) h = true.
Proof.
  intros Hr Hle. assert (Hs := step_exact l h errs t len from ans written (running_tracked _ _ _ Hr) Hle).
  destruct (serve_step _ _ _) as [[[l' e'] rp] next]. naive_solver.
Qed.

(** A reply goes out exactly for a request within both budgets of its second,
    from an address that may be answered, of exactly the request length and
    answered by the core; and it is the core's reply, no longer than the
    request. *)
Theorem reply_exact l errs h t len from ans written n :
  running l errs h -> head_sec h <= Z.quot (mono t l) second ->
  (serve_step (rDatagram t len from ans written) l errs).1.2 = Some n <->
  in_second h (Z.quot (mono t l) second) < guardGlobalPerSecond /\
  from_bucket h (Z.quot (mono t l) second) (bucket_of from.1) < guardPerBucketPerSecond /\
  from.2 <> 0 /\ AddressRefused from.1 = false /\ len = RequestLen /\
  0 < n <= Z.min len ReplyLen /\ exists v, ans = Handled n v /\ Replied v = true.
Proof.
  intros Hr Hle. assert (Hs := step_exact l h errs t len from ans written (running_tracked _ _ _ Hr) Hle).
  destruct (serve_step _ _ _) as [[[l' e'] rp] next]. destruct Hs as (_ & -> & _). simpl.
  unfold ref_reply, ref_verdict, dSec, dBucket. simpl.
  destruct (Z.leb_spec guardGlobalPerSecond (in_second h (Z.quot (mono t l) second))); [simpl; split; [done|lia]|].
  destruct (Z.leb_spec guardPerBucketPerSecond (from_bucket h (Z.quot (mono t l) second) (bucket_of from.1))); [simpl; split; [done|lia]|].
  destruct ans as [|n' v]; [simpl; naive_solver|]. unfold answered, sourceRefused. simpl.
  destruct (Z.eqb_spec from.2 0); [simpl; naive_solver|]. destruct (AddressRefused from.1); [simpl; naive_solver|].
  destruct (Z.eqb_spec len RequestLen); [|simpl; naive_solver].
  destruct (Z.ltb_spec 0 n'), (Z.leb_spec n' len), (Z.leb_spec n' ReplyLen), (Replied v) eqn:Hv; simpl;
    try (split; [done|]; intros (_ & _ & _ & _ & _ & Hn & v' & [= <- <-] & Hv'); congruence || lia).
  rewrite (proj2 (Z.ltb_lt 0 n')) by done. split; [intros [= <-]; repeat (split; [done || lia|]); eauto|].
  intros (_ & _ & _ & _ & _ & _ & v' & [= <- _] & _). done.
Qed.

(** ** One host *)
Fixpoint allowed_in (h : list datagram) (s i : Z) : Z :=
  match h with
  | [] => 0
  | d :: h => (if (dSec d =? s) && (dBucket d =? i) && match ref_verdict h d with guardAllow => true | _ => false end then 1 else 0)
              + allowed_in h s i
  end.
Lemma allowed_bounds h s i : 0 <= allowed_in h s i <= Z.min guardPerBucketPerSecond (from_bucket h s i).
Proof.
  induction h as [|d h IH]; [done|]. rewrite from_bucket_cons. simpl. unfold ref_verdict.
  destruct (Z.eqb_spec (dSec d) s) as [->|]; cbn [andb]; [|lia]. destruct (Z.eqb_spec (dBucket d) i) as [->|]; cbn [andb]; [|lia].
  destruct (_ <=? _); [lia|]. destruct (Z.leb_spec guardPerBucketPerSecond (from_bucket h s i)); lia.
Qed.
Definition allowed_of (h : list datagram) (s : Z) (B : list Z) : Z := foldr (fun i n => allowed_in h s i + n) 0 B.
Lemma allowed_of_bound h s B : allowed_of h s B <= guardPerBucketPerSecond * zlen B.
Proof. induction B as [|i B IH]; [done|]. rewrite zlen_cons. simpl. assert (Ha := allowed_bounds h s i). lia. Qed.
Lemma allowed_of_cons d h s B : allowed_of h s B <= allowed_of (d :: h) s B.
Proof. induction B as [|i B IH]; [done|]. simpl. destruct (_ && _); lia. Qed.
Lemma allowed_of_step d h s B : ref_verdict h d = guardAllow -> dSec d = s -> In (dBucket d) B ->
  1 + allowed_of h s B <= allowed_of (d :: h) s B.
Proof.
  intros Hv Hs. assert (Hc := allowed_of_cons d h s). induction B as [|i B IH]; [done|]. simpl. rewrite Hv, Hs, Z.eqb_refl.
  intros [->|Hi]; [rewrite Z.eqb_refl; cbn [andb]; specialize (Hc B); lia|]. specialize (IH Hi). destruct (_ && _); lia.
Qed.
Lemma costly_bound h s B : Forall (fun d => In (dBucket d) B) h -> costly_in h s <= allowed_of h s B.
Proof.
  induction 1 as [|d h Hd _ IH]; [induction B; simpl in *; lia|]. simpl costly_in. unfold costly.
  assert (Hc := allowed_of_cons d h s B). destruct (Z.eqb_spec (dSec d) s) as [Hs|]; cbn [andb]; [|lia].
  destruct (ref_verdict h d) eqn:Hv; [|lia|lia]. assert (Ha := allowed_of_step d h s B Hv Hs Hd). destruct (negb _); lia.
Qed.

(** One host below the global budget cannot close the socket: whatever it
    sends, as long as no second has 20000 datagrams and they fall in at most
    four of the guard's buckets, the loop does not trip. *)
Theorem few_senders_never_trip l errs h t len from ans written B :
  running l errs h -> head_sec h <= Z.quot (mono t l) second -> zlen B <= 4 ->
  Forall (fun d => In (dBucket d) B) (mkDatagram (mono t l) len from ans :: h) ->
  (forall s, in_second h s < guardGlobalPerSecond) ->
  (serve_step (rDatagram t len from ans written) l errs).2 <> Stop stopBreaker.
Proof.
  intros Hr Hle HB Hd Hs Hstop.
  assert (Hx := step_exact l h errs t len from ans written (running_tracked _ _ _ Hr) Hle).
  destruct (serve_step _ _ _) as [[[l' e'] rp] next]. simpl in Hstop. destruct Hx as (Hx & _). apply Hx in Hstop.
  unfold trips, heat_at in Hstop. apply andb_prop in Hstop as [Hstop _]. specialize (Hs (dSec (mkDatagram (mono t l) len from ans) - 59)).
  set (s := _ - 59) in *. rewrite (proj2 (Z.leb_gt _ _)) in Hstop by done. apply Z.leb_le in Hstop.
  assert (Hc := costly_bound _ s B Hd). assert (Ha := allowed_of_bound (mkDatagram (mono t l) len from ans :: h) s B).
  assert (Hk : breakerDropsPerSecond = 5000 /\ guardPerBucketPerSecond = 1000) by done. lia.
Qed.
End Loop.
End BeaconLoop.

(** * The beacon on samples *)
From S2P Require Import Prelude GoStrings Beacon BeaconGuard BeaconResponder BeaconResponderProps.

Local Open Scope Z_scope.

Module BeaconSample.
Import Beacon Breaker BeaconLoop.

(** Addresses are numbers and hash to themselves; 255 is broadcast. *)
#[local] Instance wire : Wire Z := {
  hash := fun a => a; AddressRefused := fun a => a =? 255; RequestLen := 48; ReplyLen := 48;
  Verdict := bool; verdict_number := fun v => if v then 0 else 1; Replied := fun v => v; DropLength := 2
}.

Definition yes : answer := @Handled Z wire 48 true.
Definition start : loop := newLoop 1000.
Definition request (n : Z) : received := rDatagram (1000 + second) n (7, 4000) yes true.

(** One request is answered and trips nothing. *)
Lemma reply_exact_witness : (serve_step (request 48) start 0).1.2 = Some 48.
Proof.
  apply (reply_exact start 0 [] (1000 + second) 48 (7, 4000) yes true 48); [constructor|vm_compute; discriminate|].
  do 5 (split; [vm_compute; congruence|]). split; [vm_compute; split; congruence|]. exists (true : @Verdict Z wire). done.
Defined.
Lemma loop_trips_exactly_witness :
  (serve_step (request 40) start 0).2 = Stop stopBreaker <-> trips (mkDatagram second 40 (7, 4000) yes) [] = true.
Proof.
  apply (loop_trips_exactly start 0 [] (1000 + second) 40 (7, 4000) yes true); [constructor|vm_compute; discriminate].
Defined.
Lemma few_senders_never_trip_witness : (serve_step (request 40) start 0).2 <> Stop stopBreaker.
Proof.
  apply (few_senders_never_trip start 0 [] (1000 + second) 40 (7, 4000) yes true [7]);
    [constructor|vm_compute; discriminate|vm_compute; discriminate| |done].
  constructor; [by left|constructor].
Defined.
End BeaconSample.

Module RespSample.
Import Beacon Responder RespProps.

#[local] Instance net : Net Z := {
  ParseIPv4 := fun s => if String.eqb s "10.0.0.7" then inl 7 else inr "not an address"%string;
  ValidListenPort := fun p => (1024 <=? p) && (p <=? 65535);
  ErrPort := "port"; KeyLen := 2; ip_string := itoa; addr_string := fun a => itoa a.1
}.

Definition conf : BeaconResponderConfig := mkCfg "10.0.0.7" 4000 [mkKey 1 3 [5; 6] false; mkKey 2 4 [7; 8] false].
Definition fine (now : time) : env := mkEnv now 0 None None.
(** Bound, tripped a minute later, asked again during the cooldown and after it. *)
Definition bound_once : world := do_apply (Some conf) (fine second) (first false 0).
Definition tripped : world := do_end 0 stopBreaker None 60 minute 0 bound_once.
Definition again : world :=
  do_apply (Some conf) (fine (7 * minute)) (do_apply (Some conf) (fine (2 * minute)) tripped).

Lemma again_reach : reach false again.
Proof.
  repeat (apply reach_apply; [|vm_compute; discriminate]).
  apply reach_end; [apply reach_apply; [constructor|vm_compute; discriminate]|vm_compute; discriminate|vm_compute; lia|done|done].
Qed.
Lemma again_listens : cur (resp (hst again)) = Some 1%nat /\ minute ∈ tripped_at again /\ born again = 7 * minute.
Proof. split; [vm_compute; reflexivity|]. split; [apply list_elem_of_here|vm_compute; reflexivity]. Qed.

Lemma socket_follows_config_witness :
  match cur (resp (hst again)) with
  | None => open_socks (hst again) = ∅ /\ state (resp (hst again)) <> Listening /\
      epoch (resp (hst again)) = 0 /\ sources (resp (hst again)) = 0
  | Some sk => exists a c es, open_socks (hst again) = {[sk := a]} /\ state (resp (hst again)) = Listening /\
      wanted again = Some c /\ bindAddr (Bind c) (Port c) = inl a /\
      tableEntries (Table c) = inl (es, epoch (resp (hst again)), sources (resp (hst again))) /\
      noBeacon (resp (hst again)) = false /\ closed (resp (hst again)) = false
  end.
Proof. apply (socket_follows_config false again). exact again_reach. Defined.

Lemma cooldown_kept_witness : minute + breakerCooldown <= born again.
Proof.
  destruct again_listens as (Hc & Ht & _). apply (cooldown_kept false again 1%nat minute); [exact again_reach|exact Hc|exact Ht].
Defined.
End RespSample.
