(* ===== verification/SshWatch.v ===== *)
(** * SSH log lines (internal/sshwatch/sshwatch.go, failure.go, pressure.go)

    The patterns as data, the two parsers, and the aggregator that folds lines
    into one window at a time. *)
From Stdlib Require Import Ascii.
From S2P Require Import Prelude GoStrings GoPath GoRegexp.

Local Open Scope Z_scope.

Module Ssh.
Import Regexp.

(** net.ParseIP followed by String: the canonical spelling of an address. *)
Class IPs := { ParseIP : string -> option string }.

Record LoginEvent := mkLogin { lUser : string; lAddress : string; lMethod : string }.
Record FailureEvent := mkFailure {
  User : string; Address : string; Method : string; Invalid : bool; Aborted : bool
}.
#[export] Instance FailureEvent_eq_dec : EqDecision FailureEvent.
Proof. solve_decision. Defined.

Definition maxUserLen : nat := 96.
Definition maxAddrLen : nat := 64.
Definition clampLen (s : string) (max : nat) : string :=
  if (String.length s <=? max)%nat then s else str_take max s.

(** ** Patterns *)
Definition word (name : string) : re := Grp name (Plus not_space).
Definition port : re := Seq (Lit " port ") (Plus is_digit).
Definition preauth : re := Opt (Lit " [preauth]").

Definition acceptedRe : re :=
  seqs [Lit "Accepted "; word "1"; Lit " for "; Opt (Lit "invalid user "); word "2"; Lit " from "; word "3"].

Definition digits2 : re := Seq (Cls is_digit) (Cls is_digit).
Definition clock_re : re := seqs [digits2; Lit ":"; digits2; Lit ":"; digits2].
Definition bsd_time : re :=
  seqs [Cls is_upper; Cls is_lower; Cls is_lower; Lit " "; Opt (Lit " "); Cls is_digit; Opt (Cls is_digit); Lit " "; clock_re].
Definition iso_time : re :=
  seqs [digits2; digits2; Lit "-"; digits2; Lit "-"; digits2; Alt (Lit "T") (Lit " "); clock_re; Star not_space].
Definition syslogHeaderRe : re :=
  seqs [Alt bsd_time iso_time; Plus is_space; Plus not_space; Plus is_space; Grp "1" (PlusLazy not_space);
        Opt (seqs [Lit "["; Plus is_digit; Lit "]"]); Lit ":"; Alt (Lit " ") (Lit (String "009" ""))].

Definition invalid_user : re := Opt (Seq (Grp "invalid" (Lit "invalid")) (Lit " user ")).
Definition user : re := Grp "user" (Star dot).

Record failurePattern := mkPattern { fre : re; finvalid : bool; faborted : bool }.
Definition failed_re : re :=
  seqs [Lit "Failed "; word "method"; Lit " for "; invalid_user; user; Lit " from "; word "addr"; port; Lit " ssh2";
        Opt (Seq (Lit ": ") (Star dot)); preauth; Eos].
Definition invalid_re : re := seqs [Lit "Invalid user "; user; Lit " from "; word "addr"; Opt port; Eos].
Definition aborted_re : re :=
  seqs [Alt (seqs [Lit "Connection "; Alt (Lit "closed") (Lit "reset"); Lit " by"]) (Lit "Disconnected from"); Lit " ";
        Alt (Grp "invalid" (Lit "invalid")) (Lit "authenticating"); Lit " user "; user; Lit " "; word "addr"; port; preauth; Eos].
Definition exceeded_re : re :=
  seqs [Lit "error: maximum authentication attempts exceeded for "; invalid_user; user; Lit " from "; word "addr"; port;
        Lit " ssh2"; preauth; Eos].
Definition failurePatterns : list failurePattern :=
  [mkPattern failed_re false false; mkPattern invalid_re true false; mkPattern aborted_re false true;
   mkPattern exceeded_re false false].

(** ** Parsers *)
Definition splitSyslogMessage (line : string) : string * string :=
  match find_prefix syslogHeaderRe line with
  | None => (""%string, line)
  | Some (cs, rest) => (cap cs "1", rest)
  end.

Definition isSSHDProgram (program : string) : bool :=
  let base := path_base (trim_space program) in String.eqb base "sshd" || has_prefix base "sshd-".

Definition Parse (line : string) : option LoginEvent :=
  let '(program, message) := splitSyslogMessage line in
  if negb (String.eqb program "") && negb (isSSHDProgram program) then None
  else
    match find_prefix acceptedRe message with
    | None => None
    | Some (cs, _) => Some (mkLogin (cap cs "2") (cap cs "3") (cap cs "1"))
    end.

Section IP.
Context `{IPs}.

Definition event (p : failurePattern) (cs : caps) : option FailureEvent :=
  match ParseIP (cap cs "addr") with
  | None => None
  | Some ip =>
      Some (mkFailure (clampLen (cap cs "user") maxUserLen) ip (cap cs "method")
              (finvalid p || negb (String.eqb (cap cs "invalid") "")) (faborted p))
  end.

Fixpoint try_patterns (ps : list failurePattern) (message : string) : option FailureEvent :=
  match ps with
  | [] => None
  | p :: ps => match find_prefix (fre p) message with None => try_patterns ps message | Some (cs, _) => event p cs end
  end.

Definition ParseFailure (line : string) : option FailureEvent :=
  let '(program, message) := splitSyslogMessage line in
  if negb (String.eqb program "") && negb (isSSHDProgram program) then None else try_patterns failurePatterns message.

Definition canonicalAddr (s : string) : string := match ParseIP s with Some ip => ip | None => clampLen s maxAddrLen end.
End IP.

(** ** The aggregator *)
Definition defaultWindow : duration := 10 * minute.
Definition defaultSuspectWindow : duration := 60 * minute.
Definition defaultMaxSources : Z := 1024.
Definition defaultMaxTopSources : Z := 10.
Definition defaultMaxSuspects : Z := 16.

Record SourcePressure := mkSource { spAddress : string; spFailures : Z; spInvalidUser : Z }.
Record SuspectSuccess := mkSuspect {
  sAddress : string; sUser : string; sMethod : string; PriorFailures : Z; Successes : Z; At : time
}.
#[export] Instance SuspectSuccess_eta : Etable SuspectSuccess := fun s =>
  mkSuspect (sAddress s) (sUser s) (sMethod s) (PriorFailures s) (Successes s) (At s).
Record PressureWindow := mkWindow {
  Start : time; End_ : time; Failures : Z; InvalidUser : Z; Sources : Z; SourcesDropped : Z;
  TopSources : list SourcePressure; Suspects : list SuspectSuccess
}.
Definition zero_window : PressureWindow := mkWindow 0 0 0 0 0 0 [] [].
Record Login := mkLoginReport { Event : LoginEvent; lPriorFailures : Z }.

Record AggregatorOptions := mkOptions {
  Window : duration; SuspectWindow : duration; MaxSources : Z; MaxTopSources : Z; MaxSuspects : Z
}.
Definition withDefaults (o : AggregatorOptions) : AggregatorOptions :=
  mkOptions (if Window o <=? 0 then defaultWindow else Window o)
    (if SuspectWindow o <=? 0 then defaultSuspectWindow else SuspectWindow o)
    (if MaxSources o <=? 0 then defaultMaxSources else MaxSources o)
    (if MaxTopSources o <=? 0 then defaultMaxTopSources else MaxTopSources o)
    (if MaxSuspects o <=? 0 then defaultMaxSuspects else MaxSuspects o).

Record sourceState := mkState { windowFailures : Z; windowInvalid : Z; priorFailures : Z; last : time }.
#[export] Instance sourceState_eta : Etable sourceState := fun s =>
  mkState (windowFailures s) (windowInvalid s) (priorFailures s) (last s).

Record Aggregator := mkAgg {
  opts : AggregatorOptions;
  start : time;
  failures : Z;
  invalid : Z;
  sources : Z;
  dropped : Z;
  src : gmap string sourceState;
  suspects : gmap string SuspectSuccess
}.
#[export] Instance Aggregator_eta : Etable Aggregator := fun a =>
  mkAgg (opts a) (start a) (failures a) (invalid a) (sources a) (dropped a) (src a) (suspects a).

Definition NewAggregator (o : AggregatorOptions) : Aggregator := mkAgg (withDefaults o) 0 0 0 0 0 ∅ ∅.

(** Whether one entry is weaker than another. *)
Definition weaker (x y : string * sourceState) : bool :=
  if negb (priorFailures x.2 =? priorFailures y.2) then priorFailures x.2 <? priorFailures y.2
  else if negb (last x.2 =? last y.2) then last x.2 <? last y.2
  else String.ltb x.1 y.1.

(** The weakest of the entries, one pass over the map. *)
Definition weakest (keep : string) (l : list (string * sourceState)) : option (string * sourceState) :=
  foldl (fun found x =>
    if String.eqb x.1 keep then found
    else match found with None => Some x | Some y => if weaker x y then Some x else found end) None l.

Definition evictWeakest (keep : string) (a : Aggregator) : Aggregator :=
  match weakest keep (map_to_list (src a)) with
  | None => a
  | Some (victim, _) => a <| src ::= delete victim |> <| dropped ::= Z.add 1 |>
  end.

Definition recordFailure (now : time) (ev : FailureEvent) (a : Aggregator) : Aggregator :=
  let a := a <| failures ::= Z.add 1 |> in
  let a := if Invalid ev then a <| invalid ::= Z.add 1 |> else a in
  let st := default (mkState 0 0 0 0) (src a !! Address ev) in
  let st := if SuspectWindow (opts a) <? time_sub now (last st) then st <| priorFailures := 0 |> else st in
  let a := if windowFailures st =? 0 then a <| sources ::= Z.add 1 |> else a in
  let st := st <| windowFailures ::= Z.add 1 |> in
  let st := if Invalid ev then st <| windowInvalid ::= Z.add 1 |> else st in
  let st := st <| priorFailures ::= Z.add 1 |> <| last := now |> in
  let a := a <| src ::= <[Address ev := st]> |> in
  if MaxSources (opts a) <? Z.of_nat (size (src a)) then evictWeakest (Address ev) a else a.

Section Observe.
Context `{IPs}.

Definition suspect_key (addr user : string) : string := (addr +:+ String "000" user)%string.

Definition recordLogin (now : time) (ev : LoginEvent) (a : Aggregator) : Aggregator * Login :=
  let addr := canonicalAddr (lAddress ev) in
  match src a !! addr with
  | None => (a, mkLoginReport ev 0)
  | Some st =>
      if (SuspectWindow (opts a) <? time_sub now (last st)) || (priorFailures st =? 0) then (a, mkLoginReport ev 0)
      else
        let out := mkLoginReport ev (priorFailures st) in
        let user := clampLen (lUser ev) maxUserLen in
        let key := suspect_key addr user in
        match suspects a !! key with
        | Some s => (a <| suspects ::= <[key := s <| PriorFailures := priorFailures st |> <| Successes ::= Z.add 1 |> <| At := now |>]> |>, out)
        | None =>
            if MaxSuspects (opts a) <=? Z.of_nat (size (suspects a)) then (a, out)
            else (a <| suspects ::= <[key := mkSuspect addr user (clampLen (lMethod ev) maxUserLen) (priorFailures st) 1 now]> |>, out)
        end
  end.

Definition Observe (now : time) (line : string) (a : Aggregator) : Aggregator * option Login :=
  let a := if is_zero_time (start a) then a <| start := now |> else a in
  match ParseFailure line with
  | Some ev => (recordFailure now ev a, None)
  | None =>
      match Parse line with
      | None => (a, None)
      | Some ev => let '(a, l) := recordLogin now ev a in (a, Some l)
      end
  end.
End Observe.

(** The order the lists are cut in: heavier first, then by name. *)
Definition heavier (x y : SourcePressure) : bool :=
  if negb (spFailures x =? spFailures y) then spFailures y <? spFailures x else String.leb (spAddress x) (spAddress y).
Definition more_suspect (x y : SuspectSuccess) : bool :=
  if negb (PriorFailures x =? PriorFailures y) then PriorFailures y <? PriorFailures x
  else if negb (String.eqb (sAddress x) (sAddress y)) then String.leb (sAddress x) (sAddress y)
  else String.leb (sUser x) (sUser y).

Definition summarize (now : time) (a : Aggregator) : PressureWindow :=
  let top := omap (fun x : string * sourceState =>
    if windowFailures x.2 =? 0 then None else Some (mkSource x.1 (windowFailures x.2) (windowInvalid x.2))) (map_to_list (src a)) in
  mkWindow (start a) now (failures a) (invalid a) (sources a) (dropped a)
    (take (Z.to_nat (MaxTopSources (opts a))) (insertion_sort heavier top))
    (insertion_sort more_suspect (map snd (map_to_list (suspects a)))).

Definition reset (now : time) (a : Aggregator) : Aggregator :=
  a <| start := now |> <| failures := 0 |> <| invalid := 0 |> <| sources := 0 |> <| dropped := 0 |>
    <| src ::= omap (fun st => if SuspectWindow (opts a) <? time_sub now (last st) then None
                               else Some (st <| windowFailures := 0 |> <| windowInvalid := 0 |>)) |>
    <| suspects := ∅ |>.

Definition Roll (now : time) (a : Aggregator) : Aggregator * option PressureWindow :=
  if is_zero_time (start a) then (a <| start := now |>, None)
  else if time_before now (start a) then (a <| start := now |>, None)
  else if time_sub now (start a) <? Window (opts a) then (a, None)
  else
    let w := summarize now a in
    (reset now a, if (0 <? Failures w) || (0 <? zlen (Suspects w)) then Some w else None).
End Ssh.
