(* ===== verification/SshParse.v ===== *)
(** * What the SSH parsers read

    The records sshd prints, with the account name a remote peer chose, and
    what the parsers make of them. *)
From Stdlib Require Import Ascii.
From S2P Require Import Prelude GoStrings GoPath GoRegexp SshWatch.

Local Open Scope string_scope.

Module SshParse.
Import Regexp Ssh.

(** ** Records *)
Inductive how := Closed | Reset | Disconnected.
Inductive record :=
  | Failed (method user addr num : string) (inv : bool) (info : string) (pre : bool)
  | InvalidUser (user addr : string) (num : option string)
  | Gone (h : how) (user addr num : string) (inv pre : bool)
  | Exceeded (user addr num : string) (inv pre : bool).

Definition mark (inv : bool) : string := if inv then "invalid user " else "".
Definition pre_text (pre : bool) : string := if pre then " [preauth]" else "".
Definition info_text (info : string) : string := if String.eqb info "" then "" else ": " +:+ info.
Definition how_text (h : how) : string :=
  match h with Closed => "Connection closed by" | Reset => "Connection reset by" | Disconnected => "Disconnected from" end.

Definition print (r : record) : string :=
  match r with
  | Failed m u a n inv info pre =>
      "Failed " +:+ m +:+ " for " +:+ mark inv +:+ u +:+ " from " +:+ a +:+ " port " +:+ n +:+ " ssh2" +:+ info_text info +:+ pre_text pre
  | InvalidUser u a n =>
      "Invalid user " +:+ u +:+ " from " +:+ a +:+ match n with Some n => " port " +:+ n | None => "" end
  | Gone h u a n inv pre =>
      how_text h +:+ " " +:+ (if inv then "invalid" else "authenticating") +:+ " user " +:+ u +:+ " " +:+ a +:+ " port " +:+ n +:+ pre_text pre
  | Exceeded u a n inv pre =>
      "error: maximum authentication attempts exceeded for " +:+ mark inv +:+ u +:+ " from " +:+ a +:+ " port " +:+ n +:+ " ssh2" +:+ pre_text pre
  end.

(** The characters of an address literal. *)
Definition ip_char (c : ascii) : bool :=
  is_digit c || ((97 <=? byte_val c)%Z && (byte_val c <=? 102)%Z) || ((65 <=? byte_val c)%Z && (byte_val c <=? 70)%Z)
  || Ascii.eqb c "."%char || Ascii.eqb c ":"%char.
Definition some (P : ascii -> bool) (s : string) : bool := negb (String.eqb s "") && str_forall P s.

(** The fields are as sshd prints them; the account name is any text of one
    line, except that sshd writes the marker before a name that does not exist,
    so a name without it does not begin with it; what follows "ssh2" has no
    " from " in it. *)
Definition wf (r : record) : bool :=
  match r with
  | Failed m u a n inv info pre =>
      some not_space m && str_forall dot u && (inv || negb (has_prefix (u +:+ " ") "invalid user ")) && some ip_char a && some is_digit n
      && str_forall dot info && negb (contains (info_text info +:+ pre_text pre) " from ")
  | InvalidUser u a n => str_forall dot u && some ip_char a && match n with Some n => some is_digit n | None => true end
  | Gone h u a n inv pre => str_forall dot u && some ip_char a && some is_digit n
  | Exceeded u a n inv pre =>
      str_forall dot u && (inv || negb (has_prefix (u +:+ " ") "invalid user ")) && some ip_char a && some is_digit n
  end.

Definition address (r : record) : string :=
  match r with Failed _ _ a _ _ _ _ | InvalidUser _ a _ | Gone _ _ a _ _ _ | Exceeded _ a _ _ _ => a end.
(** The event the record reports, under its canonical address. *)
Definition reported (r : record) (ip : string) : FailureEvent :=
  match r with
  | Failed m u _ _ inv _ _ => mkFailure (clampLen u maxUserLen) ip m inv false
  | InvalidUser u _ _ => mkFailure (clampLen u maxUserLen) ip "" true false
  | Gone _ u _ _ inv _ => mkFailure (clampLen u maxUserLen) ip "" inv true
  | Exceeded u _ _ inv _ => mkFailure (clampLen u maxUserLen) ip "" inv false
  end.

(** ** Suffixes *)
Definition suffixes (Q : string -> Prop) (s : string) : Prop := forall a b, s = a +:+ b -> Q b.
Definition nowhere (p s : string) : Prop := suffixes (fun b => has_prefix b p = false) s.

Lemma suffixes_cons (Q : string -> Prop) c s : Q (String c s) -> suffixes Q s -> suffixes Q (String c s).
Proof. intros H1 H2 [|x a] b Hb; [by rewrite app_empty in Hb; subst|]. rewrite app_cons in Hb. injection Hb as _ Hb. by eapply H2. Qed.
Lemma suffixes_empty (Q : string -> Prop) : Q "" -> suffixes Q "".
Proof. intros Hq [|] b Hb; [rewrite app_empty in Hb; by subst|by rewrite app_cons in Hb]. Qed.
(** A word whose suffixes begin with one of its characters. *)
Lemma suffixes_word (Q : string -> Prop) P u s :
  (forall c t, P c = true -> Q (String c t)) -> str_forall P u = true -> suffixes Q s -> suffixes Q (u +:+ s).
Proof.
  intros HQ Hu Hs. induction u as [|c u IH]; [by rewrite app_empty|]. rewrite app_cons. simpl in Hu.
  apply andb_prop in Hu as [Hc Hu]. apply suffixes_cons; auto.
Qed.
Lemma suffixes_impl (Q R : string -> Prop) s : (forall b, Q b -> R b) -> suffixes Q s -> suffixes R s.
Proof. intros HQ Hs a b Hb. eapply HQ, Hs, Hb. Qed.
Lemma nowhere_contains p s : contains s p = false -> nowhere p s.
Proof.
  unfold contains. intros Hc%bool_decide_eq_false a b ->. revert Hc. induction a as [|c a IH]; [rewrite app_empty|rewrite app_cons].
  - intros Hc. destruct (has_prefix b p) eqn:Hp; [|done]. exfalso. apply Hc.
    destruct b as [|c b]; cbn [index_of]; rewrite Hp; by eexists.
  - intros Hc. apply IH. intros [i Hi]. apply Hc. cbn [index_of]. rewrite Hi. destruct (has_prefix (String c (a +:+ b)) p); [by eexists|]. by exists (S i).
Qed.
(** No word contains a text that begins with a space. *)
Lemma nowhere_word p u s : str_forall not_space u = true -> nowhere (String " " p) s -> nowhere (String " " p) (u +:+ s).
Proof.
  apply suffixes_word. intros c t Hc. rewrite has_prefix_head. by destruct (ascii_dec " " c) as [<-|].
Qed.
Lemma nowhere_space p s : has_prefix s p = false -> nowhere (String " " p) s -> nowhere (String " " p) (String " " s).
Proof. intros Hp. apply suffixes_cons. rewrite has_prefix_head. by destruct (ascii_dec " " " "). Qed.
Lemma nowhere_empty c p : nowhere (String c p) "".
Proof. by apply suffixes_empty. Qed.

(** ** Matching tokens *)
Lemma captured u s : str_take (String.length (u +:+ s) - String.length s) (u +:+ s) = u.
Proof.
  assert (Hl : String.length (u +:+ s) = (String.length u + String.length s)%nat).
  { induction u as [|c u IH]; [by rewrite app_empty|]. rewrite app_cons. simpl. by rewrite IH. }
  rewrite Hl. replace (String.length u + String.length s - String.length s)%nat with (String.length u) by lia. apply str_take_app.
Qed.
Lemma some_cons P s : some P s = true -> exists c u, s = String c u /\ P c = true /\ str_forall P u = true.
Proof. unfold some. destruct s as [|c u]; [done|]. simpl. intros Hp%andb_prop. by exists c, u. Qed.

Section Run.
Context {A : Type}.
Implicit Type (k : string -> caps -> option A).

Lemma run_plus P w s cs k x : some P w = true -> stops P s = true -> k s cs = Some x -> run (Plus P) (w +:+ s) cs k = Some x.
Proof.
  intros (c & u & -> & Hc & Hu)%some_cons Hs Hk. rewrite app_cons. simpl. rewrite Hc.
  rewrite (star_token P u s (fun s' => k s' cs)); [done|done|done|by rewrite Hk].
Qed.
Lemma run_word P name w s cs k x : some P w = true -> stops P s = true -> k s ((name, w) :: cs) = Some x ->
  run (Grp name (Plus P)) (w +:+ s) cs k = Some x.
Proof. intros Hw Hs Hk. rewrite run_grp. apply run_plus; [done|done|]. by rewrite captured. Qed.
Lemma run_opt r s cs k x : run r s cs k = Some x -> run (Opt r) s cs k = Some x.
Proof. intros Hr. simpl. by rewrite Hr. Qed.
Lemma run_skip r s cs k : run r s cs k = None -> run (Opt r) s cs k = k s cs.
Proof. intros Hr. simpl. by rewrite Hr. Qed.
(** A captured run of any text stops at the last place what is left matches. *)
Lemma run_text u t cs k x : str_forall dot u = true -> k t (("user", u) :: cs) = Some x ->
  (forall a b cs', t = a +:+ b -> a <> EmptyString -> k b cs' = None) -> run user (u +:+ t) cs k = Some x.
Proof.
  intros Hu Hk Hlate. unfold user. rewrite run_grp. simpl. apply star_last; [done|by rewrite captured|].
  intros a b Hb Ha. by apply (Hlate a b).
Qed.
Lemma run_word_none name s cs k : (forall a b cs', s = a +:+ b -> k b cs' = None) -> run (word name) s cs k = None.
Proof.
  intros Hk. unfold word. rewrite run_grp. unfold Plus. simpl. destruct s as [|c s]; [done|]. destruct (not_space c); [|done].
  apply star_none. intros a b ->. apply (Hk (String c a)). by rewrite app_cons.
Qed.
End Run.

(** ** Where sshd's own text can match *)
Lemma ip_char_facts c : ip_char c = true -> not_space c = true /\ c <> "r"%char /\ c <> "p"%char /\ dot c = true.
Proof. intros Hc. destruct c as [[] [] [] [] [] [] [] []]; vm_compute in Hc |- *; try discriminate Hc; done. Qed.
Lemma digit_facts c : is_digit c = true -> not_space c = true /\ c <> "f"%char /\ c <> "p"%char /\ dot c = true.
Proof. intros Hc. destruct c as [[] [] [] [] [] [] [] []]; vm_compute in Hc |- *; try discriminate Hc; done. Qed.
Lemma ip_word a : some ip_char a = true -> some not_space a = true.
Proof. unfold some. intros [H1 H2]%andb_prop. rewrite H1. simpl. revert H2. apply str_forall_impl. intros c Hc. by apply ip_char_facts. Qed.
Lemma digit_word n : some is_digit n = true -> str_forall not_space n = true.
Proof. unfold some. intros [_ H2]%andb_prop. revert H2. apply str_forall_impl. intros c Hc. by apply digit_facts. Qed.
Lemma word_all P a : some P a = true -> str_forall P a = true.
Proof. by intros [_ H2]%andb_prop. Qed.

(** A text that begins with a space, or is empty. *)
Definition after_word (s : string) : bool := match s with String c _ => Ascii.eqb c " " | EmptyString => true end.
Lemma after_word_stops s : after_word s = true -> stops not_space s = true.
Proof. destruct s as [|c s]; [done|]. simpl. by intros ->%Ascii.eqb_eq. Qed.

Lemma port_nowhere n R : some is_digit n = true -> nowhere " from " R -> nowhere " from " (" port " +:+ n +:+ R).
Proof.
  intros Hn HR. change (" port " +:+ n +:+ R) with (String " " ("port" +:+ String " " (n +:+ R))).
  apply nowhere_space; [done|]. apply nowhere_word; [done|]. apply nowhere_space; [|apply nowhere_word; [by apply digit_word|done]].
  destruct (some_cons _ _ Hn) as (c & u & -> & Hc & _). rewrite app_cons, has_prefix_head.
  destruct (ascii_dec "f" c) as [<-|]; [|done]. by vm_compute in Hc.
Qed.
Lemma from_once a R : some ip_char a = true -> after_word R = true -> nowhere " from " R ->
  forall x b, " from " +:+ a +:+ R = x +:+ b -> x <> EmptyString -> has_prefix b " from " = false.
Proof.
  intros Ha HR HnR x b Hb Hx. destruct x as [|c x]; [done|]. rewrite app_cons in Hb.
  change (" from " +:+ a +:+ R) with (String " " ("from" +:+ String " " (a +:+ R))) in Hb. injection Hb as _ Hb.
  revert x b Hb Hx. change (forall x b, "from" +:+ String " " (a +:+ R) = x +:+ b -> String c x <> "" -> has_prefix b " from " = false).
  assert (Hs : nowhere " from " ("from" +:+ String " " (a +:+ R))); [|intros x b Hb _; by apply (Hs x)].
  apply nowhere_word; [done|]. apply nowhere_space; [|apply nowhere_word; [|done]; by apply word_all, ip_word].
  destruct (some_cons _ _ Ha) as (d & u & -> & _ & Hu). rewrite app_cons, has_prefix_head.
  destruct (ascii_dec "f" d) as [_|]; [|done]. destruct u as [|e u].
  - rewrite app_empty. destruct R as [|r R]; [done|]. simpl in HR. apply Ascii.eqb_eq in HR as ->. done.
  - rewrite app_cons, has_prefix_head. destruct (ascii_dec "r" e) as [<-|]; [|done]. done.
Qed.

(** ** The records are read back *)
Lemma run_port n s cs {A} (k : string -> caps -> option A) x :
  some is_digit n = true -> stops is_digit s = true -> k s cs = Some x -> run port (" port " +:+ n +:+ s) cs k = Some x.
Proof. intros Hn Hs Hk. unfold port. rewrite re_seq, run_lit. by apply run_plus. Qed.

Lemma run_preauth pre cs {A} (k : string -> caps -> option A) x : k "" cs = Some x ->
  run (Seq preauth Eos) (pre_text pre) cs k = Some x.
Proof. intros Hk. destruct pre; [by apply run_opt|]. rewrite re_seq. unfold preauth. rewrite run_skip; [done|]. done. Qed.
Lemma run_info info pre cs {A} (k : string -> caps -> option A) x : str_forall dot info = true -> k "" cs = Some x ->
  run (Seq (Opt (Seq (Lit ": ") (Star dot))) (Seq preauth Eos)) (info_text info +:+ pre_text pre) cs k = Some x.
Proof.
  intros Hi Hk. unfold info_text. destruct (String.eqb info "") eqn:He; rewrite re_seq.
  - rewrite app_empty. rewrite run_skip; [by apply run_preauth|]. by destruct pre.
  - apply run_opt. rewrite string_app_assoc, re_seq, run_lit. cbn [run].
    rewrite <-(app_empty_r (info +:+ pre_text pre)).
    rewrite (star_token dot _ "" (fun s' => run (Seq preauth Eos) s' cs k)); [| |done|].
    + by apply (run_preauth false).
    + rewrite str_forall_app, Hi. by destruct pre.
    + assert (E := run_preauth false cs k x Hk). change (pre_text false) with "" in E. by rewrite E.
Qed.

(** The optional marker. *)
Lemma app_split p u s t : u +:+ s = p +:+ t ->
  (exists u', u = p +:+ u') \/ (exists q, p = u +:+ q /\ s = q +:+ t).
Proof.
  revert u. induction p as [|c p IH]; intros u Hu; [left; exists u; by rewrite app_empty|].
  destruct u as [|d u]; [right; exists (String c p); by rewrite app_empty in Hu|].
  rewrite !app_cons in Hu. injection Hu as -> Hu. destruct (IH u Hu) as [[u' ->]|(q & -> & ->)].
  - left. exists u'. by rewrite app_cons.
  - right. exists q. by rewrite app_cons.
Qed.
Lemma no_mark u R : has_prefix (u +:+ " ") "invalid user " = false -> has_prefix (u +:+ " from " +:+ R) "invalid user " = false.
Proof.
  intros Hm. destruct (has_prefix (u +:+ " from " +:+ R) "invalid user ") eqn:Hp; [|done]. exfalso.
  assert (Hc : exists t, cut_prefix (u +:+ " from " +:+ R) "invalid user " = Some t) by (unfold cut_prefix; rewrite Hp; by eexists).
  destruct Hc as [t Ht%cut_prefix_split]. destruct (app_split _ _ _ _ Ht) as [[u' ->]|(q & Hq & Hs)].
  - rewrite string_app_assoc, has_prefix_app in Hm. done.
  - assert (Hu : u = str_take (String.length u) "invalid user ") by (rewrite Hq; symmetry; apply str_take_app).
    assert (Hq' : q = str_drop (String.length u) "invalid user ") by (rewrite Hq; symmetry; apply str_drop_app).
    assert (Hlen : (String.length u <= 13)%nat).
    { assert (Hl := f_equal String.length Hq). rewrite string_app_length in Hl. simpl in Hl. lia. }
    generalize dependent (String.length u). intros n -> -> Hn. clear Hq Ht Hp.
    do 14 (destruct n as [|n]; [first [discriminate Hs|discriminate Hm]|]). lia.
Qed.

Lemma run_mark (inv : bool) u R cs {A} (k : string -> caps -> option A) x :
  (inv || negb (has_prefix (u +:+ " ") "invalid user ")) = true ->
  k (u +:+ " from " +:+ R) ((if inv then [("invalid", "invalid")] else []) ++ cs)%list = Some x ->
  run invalid_user (mark inv +:+ u +:+ " from " +:+ R) cs k = Some x.
Proof.
  unfold invalid_user. intros Hm Hk. destruct inv; simpl in Hk.
  - apply run_opt. unfold mark. change ("invalid user " +:+ u +:+ " from " +:+ R) with ("invalid" +:+ " user " +:+ u +:+ " from " +:+ R).
    rewrite re_seq, run_grp, run_lit, captured, run_lit. done.
  - unfold mark. rewrite app_empty. simpl in Hm. apply negb_true_iff, (no_mark u R) in Hm. rewrite run_skip; [done|].
    rewrite re_seq, run_grp. cbn [run]. destruct (cut_prefix (u +:+ " from " +:+ R) "invalid") as [t|] eqn:Ht; [|done].
    destruct (cut_prefix t " user ") as [t'|] eqn:Ht'; [|done]. exfalso.
    apply cut_prefix_split in Ht, Ht'. subst t. rewrite Ht in Hm.
    change ("invalid" +:+ " user " +:+ t') with ("invalid user " +:+ t') in Hm. by rewrite has_prefix_app in Hm.
Qed.

(** The text from " from " on, after any account name. *)
Lemma run_from u a n rest R cs {A} (k : string -> caps -> option A) x :
  str_forall dot u = true -> some ip_char a = true -> some is_digit n = true ->
  nowhere " from " R -> stops is_digit R = true ->
  run rest R (("addr", a) :: ("user", u) :: cs) k = Some x ->
  run (Seq user (Seq (Lit " from ") (Seq (word "addr") (Seq port rest)))) (u +:+ " from " +:+ a +:+ " port " +:+ n +:+ R) cs k = Some x.
Proof.
  intros Hu Ha Hn HR Hs Hk. rewrite re_seq. apply run_text; [done| |].
  - rewrite re_seq, run_lit, re_seq. apply run_word; [by apply ip_word|done|]. rewrite re_seq. by apply run_port.
  - intros x0 b cs' Hb Hx. rewrite re_seq. apply run_lit_fail.
    eapply (from_once a (" port " +:+ n +:+ R)); [done|done|by apply port_nowhere|exact Hb|done].
Qed.

Lemma pre_nowhere pre : nowhere " from " (pre_text pre).
Proof. destruct pre; [|apply nowhere_empty]. by apply nowhere_contains. Qed.
Lemma ssh2_nowhere R : nowhere " from " R -> nowhere " from " (" ssh2" +:+ R).
Proof.
  intros HR. change (" ssh2" +:+ R) with (String " " ("ssh2" +:+ R)).
  apply nowhere_space; [done|]. by apply nowhere_word.
Qed.

Lemma failed_match m u a n inv info pre : wf (Failed m u a n inv info pre) = true ->
  find_prefix failed_re (print (Failed m u a n inv info pre)) =
    Some ([("addr", a); ("user", u)] ++ (if inv then [("invalid", "invalid")] else []) ++ [("method", m)], "")%list.
Proof.
  simpl wf. intros Hw. rewrite !andb_true_iff in Hw. destruct_and! Hw. unfold find_prefix, failed_re. cbn [seqs print].
  rewrite re_seq, run_lit, re_seq. apply run_word; [done|done|]. rewrite re_seq, run_lit, re_seq. apply run_mark; [done|].
  apply run_from; [done|done|done| |done|].
  - apply ssh2_nowhere, nowhere_contains. by apply negb_true_iff.
  - rewrite re_seq, run_lit. by apply run_info.
Qed.
Lemma exceeded_match u a n inv pre : wf (Exceeded u a n inv pre) = true ->
  find_prefix exceeded_re (print (Exceeded u a n inv pre)) =
    Some ([("addr", a); ("user", u)] ++ (if inv then [("invalid", "invalid")] else []) ++ [], "")%list.
Proof.
  simpl wf. intros Hw. rewrite !andb_true_iff in Hw. destruct_and! Hw. unfold find_prefix, exceeded_re. cbn [seqs print].
  rewrite re_seq, run_lit, re_seq. apply run_mark; [done|].
  apply run_from; [done|done|done|apply ssh2_nowhere, pre_nowhere|done|]. rewrite re_seq, run_lit. by apply run_preauth.
Qed.
Lemma invalid_match u a n : wf (InvalidUser u a n) = true ->
  find_prefix invalid_re (print (InvalidUser u a n)) = Some ([("addr", a); ("user", u)], "").
Proof.
  simpl wf. intros Hw. rewrite !andb_true_iff in Hw. destruct_and! Hw. unfold find_prefix, invalid_re. cbn [seqs print].
  rewrite re_seq, run_lit, re_seq. destruct n as [n|].
  - rewrite <-(app_empty_r n). apply run_text; [done| |].
    + rewrite re_seq, run_lit, re_seq. apply run_word; [by apply ip_word|done|]. rewrite re_seq. apply run_opt. by apply run_port.
    + intros x0 b cs' Hb Hx. rewrite re_seq. apply run_lit_fail.
      eapply (from_once a (" port " +:+ n +:+ "")); [done|done|apply port_nowhere; [done|apply nowhere_empty]|exact Hb|done].
  - apply run_text; [done| |].
    + rewrite re_seq, run_lit, re_seq. apply run_word; [by apply ip_word|done|]. rewrite re_seq. by rewrite run_skip.
    + intros x0 b cs' Hb Hx. rewrite re_seq. apply run_lit_fail.
      eapply (from_once a ""); [done|done|apply nowhere_empty|exact Hb|done].
Qed.

(** A peer that disappeared: the address stands before the port. *)
Lemma run_alt_r {A} r1 r2 s cs (k : string -> caps -> option A) : run r1 s cs k = None -> run (Alt r1 r2) s cs k = run r2 s cs k.
Proof. intros Hr. simpl. by rewrite Hr. Qed.
Lemma run_alt_l {A} r1 r2 s cs (k : string -> caps -> option A) x : run r1 s cs k = Some x -> run (Alt r1 r2) s cs k = Some x.
Proof. intros Hr. simpl. by rewrite Hr. Qed.

Definition gone_late {A} (rest : re) (k : string -> caps -> option A) (b : string) : Prop :=
  forall cs, run (Seq (Lit " ") (Seq (word "addr") (Seq port rest))) b cs k = None.
Lemma gone_late_word {A} rest (k : string -> caps -> option A) c t : not_space c = true -> gone_late rest k (String c t).
Proof.
  intros Hc cs. rewrite re_seq. apply run_lit_fail. rewrite has_prefix_head. by destruct (ascii_dec " " c) as [<-|].
Qed.
Lemma gone_late_space {A} rest (k : string -> caps -> option A) t : nowhere " port " t -> gone_late rest k (String " " t).
Proof.
  intros Ht cs. rewrite re_seq. change (String " " t) with (" " +:+ t). rewrite run_lit, re_seq.
  apply run_word_none. intros a b cs' Hb. rewrite re_seq. unfold port. rewrite re_seq. apply run_lit_fail. by apply (Ht a).
Qed.
Lemma gone_late_text {A} rest (k : string -> caps -> option A) a n pre : some ip_char a = true -> some is_digit n = true ->
  suffixes (gone_late rest k) (a +:+ " port " +:+ n +:+ pre_text pre).
Proof.
  intros Ha Hn. assert (Hw := @gone_late_word A rest k).
  assert (Hp : nowhere " port " (n +:+ pre_text pre)).
  { apply nowhere_word; [by apply digit_word|]. destruct pre; [by apply nowhere_contains|apply nowhere_empty]. }
  apply (suffixes_word _ not_space); [done|by apply word_all, ip_word|].
  change (" port " +:+ n +:+ pre_text pre) with (String " " ("port" +:+ String " " (n +:+ pre_text pre))). apply suffixes_cons.
  - apply gone_late_space, nowhere_word; [done|]. apply nowhere_space; [|done].
    destruct (some_cons _ _ Hn) as (c & u & -> & Hc & _). rewrite app_cons, has_prefix_head.
    destruct (ascii_dec "p" c) as [<-|]; [by vm_compute in Hc|done].
  - apply (suffixes_word _ not_space); [done|done|]. apply suffixes_cons; [by apply gone_late_space|].
    apply (suffixes_word _ not_space); [done|by apply digit_word|]. destruct pre; [|apply suffixes_empty; by intros cs].
    apply suffixes_cons; [by apply gone_late_space, nowhere_contains|].
    apply (suffixes_word _ not_space "[preauth]" ""); [done|done|apply suffixes_empty; by intros cs].
Qed.

Lemma gone_match h u a n inv pre : wf (Gone h u a n inv pre) = true ->
  find_prefix aborted_re (print (Gone h u a n inv pre)) =
    Some ([("addr", a); ("user", u)] ++ (if inv then [("invalid", "invalid")] else []), "")%list.
Proof.
  simpl wf. intros Hw. rewrite !andb_true_iff in Hw. destruct_and! Hw. unfold find_prefix, aborted_re. cbn [seqs print].
  assert (Hrest : run (Seq (Lit " ") (Seq (Alt (Grp "invalid" (Lit "invalid")) (Lit "authenticating")) (Seq (Lit " user ")
      (Seq user (Seq (Lit " ") (Seq (word "addr") (Seq port (Seq preauth Eos))))))))
    (" " +:+ (if inv then "invalid" else "authenticating") +:+ " user " +:+ u +:+ " " +:+ a +:+ " port " +:+ n +:+ pre_text pre) []
    (fun s' cs => Some (cs, s')) = Some ([("addr", a); ("user", u)] ++ (if inv then [("invalid", "invalid")] else []), "")%list).
  { rewrite re_seq, run_lit, re_seq.
    assert (Htail : forall cs, run (Seq (Lit " user ") (Seq user (Seq (Lit " ") (Seq (word "addr") (Seq port (Seq preauth Eos))))))
      (" user " +:+ u +:+ " " +:+ a +:+ " port " +:+ n +:+ pre_text pre) cs (fun s' cs => Some (cs, s')) = Some (("addr", a) :: ("user", u) :: cs, "")).
    { intros cs. rewrite re_seq, run_lit, re_seq. apply run_text; [done| |].
      - rewrite re_seq, run_lit, re_seq. apply run_word; [by apply ip_word|done|]. rewrite re_seq.
        apply run_port; [done|by destruct pre|]. by apply run_preauth.
      - intros x b cs' Hb Hx. destruct x as [|c x]; [done|]. rewrite app_cons in Hb.
        change (" " +:+ a +:+ " port " +:+ n +:+ pre_text pre) with (String " " (a +:+ " port " +:+ n +:+ pre_text pre)) in Hb.
        injection Hb as _ Hb. by apply (gone_late_text (Seq preauth Eos) (fun s' cs => Some (cs, s')) a n pre ltac:(done) ltac:(done) x b). }
    destruct inv; [apply run_alt_l; rewrite run_grp, run_lit, captured; apply Htail|].
    rewrite run_alt_r by done. rewrite run_lit. apply Htail. }
  rewrite re_seq. destruct h; cbn [how_text].
  - apply run_alt_l. change ("Connection closed by" +:+ ?s) with ("Connection " +:+ "closed" +:+ " by" +:+ s).
    rewrite re_seq, run_lit, re_seq. apply run_alt_l. rewrite run_lit, run_lit. exact Hrest.
  - apply run_alt_l. change ("Connection reset by" +:+ ?s) with ("Connection " +:+ "reset" +:+ " by" +:+ s).
    rewrite re_seq, run_lit, re_seq. rewrite run_alt_r by done. rewrite run_lit, run_lit. exact Hrest.
  - rewrite run_alt_r by done. rewrite run_lit. exact Hrest.
Qed.

(** ** The syslog header *)
Inductive stamp :=
  | Bsd (c1 c2 c3 : ascii) (pad : bool) (d : ascii) (d2 : option ascii) (h1 h2 m1 m2 s1 s2 : ascii)
  | Iso (y1 y2 y3 y4 o1 o2 d1 d2 : ascii) (sep : bool) (h1 h2 m1 m2 s1 s2 : ascii) (frac : string).
Record header := mkHeader { when : stamp; host : string; prog : string; pid : option string }.

Definition two (a b : ascii) (s : string) : string := String a (String b s).
Definition clock_text (h1 h2 m1 m2 s1 s2 : ascii) (s : string) : string := two h1 h2 (String ":" (two m1 m2 (String ":" (two s1 s2 s)))).
Definition stamp_text (t : stamp) (s : string) : string :=
  match t with
  | Bsd c1 c2 c3 pad d d2 h1 h2 m1 m2 s1 s2 =>
      String c1 (String c2 (String c3 (String " " ((if pad then " " else "") +:+ String d
        (match d2 with Some x => String x "" | None => "" end +:+ String " " (clock_text h1 h2 m1 m2 s1 s2 s))))))
  | Iso y1 y2 y3 y4 o1 o2 d1 d2 sep h1 h2 m1 m2 s1 s2 frac =>
      two y1 y2 (two y3 y4 (String "-" (two o1 o2 (String "-" (two d1 d2 (String (if sep then "T" else " ")%char
        (clock_text h1 h2 m1 m2 s1 s2 (frac +:+ s))))))))
  end.
Definition header_text (h : header) (message : string) : string :=
  stamp_text (when h) (" " +:+ host h +:+ " " +:+ prog h +:+ match pid h with Some p => "[" +:+ p +:+ "]" | None => "" end +:+ ": " +:+ message).

Definition prog_char (c : ascii) : bool := not_space c && negb (Ascii.eqb c "[") && negb (Ascii.eqb c ":").
Definition wf_stamp (t : stamp) : bool :=
  match t with
  | Bsd c1 c2 c3 _ d d2 h1 h2 m1 m2 s1 s2 =>
      is_upper c1 && is_lower c2 && is_lower c3 && is_digit d && match d2 with Some x => is_digit x | None => true end &&
      forallb is_digit [h1; h2; m1; m2; s1; s2]
  | Iso y1 y2 y3 y4 o1 o2 d1 d2 _ h1 h2 m1 m2 s1 s2 frac =>
      forallb is_digit [y1; y2; y3; y4; o1; o2; d1; d2; h1; h2; m1; m2; s1; s2] && str_forall not_space frac
  end.
Definition wf_header (h : header) : bool :=
  wf_stamp (when h) && some not_space (host h) && some prog_char (prog h) && match pid h with Some p => some is_digit p | None => true end.

Lemma run_cls {A} P c s cs (k : string -> caps -> option A) : P c = true -> run (Cls P) (String c s) cs k = k s cs.
Proof. intros Hc. simpl. by rewrite Hc. Qed.
Lemma run_chr {A} c s cs (k : string -> caps -> option A) : run (Lit (String c "")) (String c s) cs k = k s cs.
Proof. change (String c s) with (String c "" +:+ s). apply run_lit. Qed.
Lemma run_two {A} a b s cs (k : string -> caps -> option A) : is_digit a = true -> is_digit b = true -> run digits2 (two a b s) cs k = k s cs.
Proof. intros Ha Hb. unfold digits2, two. by rewrite re_seq, run_cls, run_cls. Qed.
Lemma run_clock {A} h1 h2 m1 m2 s1 s2 s cs (k : string -> caps -> option A) :
  forallb is_digit [h1; h2; m1; m2; s1; s2] = true -> run clock_re (clock_text h1 h2 m1 m2 s1 s2 s) cs k = k s cs.
Proof.
  cbn [forallb]. rewrite !andb_true_iff. intros Hd. destruct_and! Hd. unfold clock_re, clock_text. cbn [seqs].
  rewrite re_seq, run_two, re_seq, run_chr, re_seq, run_two, re_seq, run_chr, run_two by done. done.
Qed.

(** The time stamp is read whole. *)
Lemma run_bsd c1 c2 c3 pad d d2 h1 h2 m1 m2 s1 s2 s cs {A} (k : string -> caps -> option A) x :
  wf_stamp (Bsd c1 c2 c3 pad d d2 h1 h2 m1 m2 s1 s2) = true -> k s cs = Some x ->
  run bsd_time (stamp_text (Bsd c1 c2 c3 pad d d2 h1 h2 m1 m2 s1 s2) s) cs k = Some x.
Proof.
  unfold wf_stamp. rewrite !andb_true_iff. intros [[[[[H1 H2] H3] H4] H5] H6] Hk. unfold bsd_time, stamp_text. cbn [seqs].
  assert (Hday : run (Seq (Cls is_digit) (Seq (Opt (Cls is_digit)) (Seq (Lit " ") clock_re)))
    (String d (match d2 with Some x => String x "" | None => "" end +:+ String " " (clock_text h1 h2 m1 m2 s1 s2 s))) cs k = Some x).
  { rewrite re_seq, run_cls, re_seq by done. destruct d2 as [e|].
    - apply run_opt. rewrite app_cons, app_empty, run_cls, re_seq, run_chr, run_clock by done. done.
    - rewrite app_empty, run_skip by done. rewrite re_seq, run_chr, run_clock by done. done. }
  rewrite re_seq, run_cls, re_seq, run_cls, re_seq, run_cls, re_seq, run_chr, re_seq by done.
  destruct pad; [apply run_opt; rewrite run_lit; exact Hday|].
  rewrite app_empty, run_skip; [exact Hday|]. apply run_lit_fail. rewrite has_prefix_head.
  destruct (ascii_dec " " d) as [<-|]; [by vm_compute in H4|done].
Qed.
Lemma run_iso y1 y2 y3 y4 o1 o2 d1 d2 sep h1 h2 m1 m2 s1 s2 frac s cs {A} (k : string -> caps -> option A) x :
  wf_stamp (Iso y1 y2 y3 y4 o1 o2 d1 d2 sep h1 h2 m1 m2 s1 s2 frac) = true -> stops not_space s = true -> k s cs = Some x ->
  run iso_time (stamp_text (Iso y1 y2 y3 y4 o1 o2 d1 d2 sep h1 h2 m1 m2 s1 s2 frac) s) cs k = Some x.
Proof.
  unfold wf_stamp. cbn [forallb]. rewrite !andb_true_iff. intros Hd Hs Hk. destruct_and! Hd. unfold iso_time, stamp_text. cbn [seqs].
  rewrite re_seq, run_two, re_seq, run_two, re_seq, run_chr, re_seq, run_two, re_seq, run_chr, re_seq, run_two, re_seq by done.
  assert (Hc : run (Seq clock_re (Star not_space)) (clock_text h1 h2 m1 m2 s1 s2 (frac +:+ s)) cs k = Some x).
  { rewrite re_seq, run_clock by (cbn [forallb]; rewrite !andb_true_iff; done). cbn [run].
    rewrite (star_token not_space frac s (fun s' => k s' cs)); [done|done|done|by rewrite Hk]. }
  destruct sep; [apply run_alt_l; rewrite run_chr; exact Hc|]. rewrite run_alt_r by done. rewrite run_chr. exact Hc.
Qed.
Lemma run_stamp t s cs {A} (k : string -> caps -> option A) x : wf_stamp t = true -> stops not_space s = true -> k s cs = Some x ->
  run (Alt bsd_time iso_time) (stamp_text t s) cs k = Some x.
Proof.
  intros Hw Hs Hk. destruct t; [by apply run_alt_l, run_bsd|]. rewrite run_alt_r; [by apply run_iso|].
  unfold wf_stamp in Hw. cbn [forallb] in Hw. rewrite !andb_true_iff in Hw. destruct_and! Hw. unfold bsd_time, stamp_text, two. cbn [seqs].
  rewrite re_seq. cbn [run]. destruct (is_upper y1) eqn:Hu; [|done].
  destruct y1 as [[] [] [] [] [] [] [] []]; vm_compute in Hu; try discriminate Hu; done.
Qed.

(** The tag ends where its process id or colon begins. *)
Lemma run_lazy {A} P Q u s (k : string -> option A) x : str_forall Q u = true -> (forall c, Q c = true -> P c = true) ->
  k s = Some x -> (forall c t, Q c = true -> k (String c t) = None) -> star_lazy P (u +:+ s) k = Some x.
Proof.
  intros Hu HP Hk Hn. induction u as [|c u IH]; [rewrite app_empty; destruct s; simpl; by rewrite Hk|].
  rewrite app_cons. simpl in *. apply andb_prop in Hu as [Hc Hu]. rewrite Hn, (HP c Hc) by done. by apply IH.
Qed.

Lemma header_split h message : wf_header h = true -> splitSyslogMessage (header_text h message) = (prog h, message).
Proof.
  unfold wf_header. rewrite !andb_true_iff. intros [[[Ht Hh] Hp] Hi]. unfold splitSyslogMessage, find_prefix, syslogHeaderRe, header_text. cbn [seqs].
  set (K := fun s' cs => @Some (caps * string) (cs, s')).
  set (tail := Seq (Opt (Seq (Lit "[") (Seq (Plus is_digit) (Lit "]")))) (Seq (Lit ":") (Alt (Lit " ") (Lit (String "009" ""))))).
  assert (Htail : forall cs, run tail (match pid h with Some p => "[" +:+ p +:+ "]" | None => "" end +:+ ": " +:+ message) cs K = K message cs).
  { intros cs. unfold tail. rewrite re_seq.
    assert (Hcolon : run (Seq (Lit ":") (Alt (Lit " ") (Lit (String "009" "")))) (": " +:+ message) cs K = K message cs).
    { rewrite re_seq. change (": " +:+ message) with (":" +:+ " " +:+ message). rewrite run_lit. apply run_alt_l. by rewrite run_lit. }
    destruct (pid h) as [p|]; [|rewrite app_empty, run_skip by done; exact Hcolon].
    apply run_opt. rewrite !string_app_assoc, re_seq, run_lit, re_seq. apply run_plus; [done|done|]. rewrite run_lit. exact Hcolon. }
  rewrite re_seq. rewrite (run_stamp _ _ _ _ ([("1", prog h)], message)); [done|done|done|].
  rewrite re_seq. apply (run_plus is_space " "); [done| |].
  { destruct (some_cons _ _ Hh) as (c & u & -> & Hc & _). rewrite app_cons. simpl. unfold not_space in Hc. by rewrite Hc. }
  rewrite re_seq. apply run_plus; [done|done|]. rewrite re_seq. 
  destruct (some_cons _ _ Hp) as (c & u & Hpu & Hc & Hu).
  assert (Hns : forall d, prog_char d = true -> not_space d = true /\ d <> "["%char /\ d <> ":"%char).
  { intros d. unfold prog_char. rewrite !andb_true_iff, !negb_true_iff, !Ascii.eqb_neq. tauto. }
  apply (run_plus is_space " "); [done| |].
  { rewrite Hpu, app_cons. simpl. destruct (Hns c Hc) as [Hn _]. unfold not_space in Hn. by rewrite Hn. }
  rewrite re_seq, run_grp. rewrite Hpu at 1. rewrite app_cons. cbn [run]. destruct (Hns c Hc) as [-> _].
  apply (run_lazy _ prog_char); [done|intros d Hd; by apply Hns| |].
  - rewrite Htail, captured. done.
  - intros d t Hd. destruct (Hns d Hd) as (_ & H1 & H2). fold tail. unfold tail. rewrite re_seq.
    assert (Hf : forall p q, d <> p -> has_prefix (String d t) (String p q) = false).
    { intros p q Hne. rewrite has_prefix_head. by destruct (ascii_dec p d) as [->|]. }
    rewrite run_skip by (rewrite re_seq; apply run_lit_fail; by apply Hf). rewrite re_seq. apply run_lit_fail. by apply Hf.
Qed.

Lemma bare_split r : splitSyslogMessage (print r) = ("", print r).
Proof. unfold splitSyslogMessage. destruct r as [| |[]|]; reflexivity. Qed.

(** ** What the parsers report *)
Section Report.
Context `{IPs}.

(** A line sshd logs a record on: the record alone, or after a header. *)
Definition logged (line : string) (r : record) : Prop :=
  line = print r \/ exists h, wf_header h = true /\ isSSHDProgram (prog h) = true /\ line = header_text h (print r).

Lemma logged_split line r : logged line r ->
  exists p, splitSyslogMessage line = (p, print r) /\ (negb (String.eqb p "") && negb (isSSHDProgram p)) = false.
Proof.
  intros [->|(h & Hh & Hp & ->)]; [exists ""; by rewrite bare_split|]. exists (prog h). rewrite header_split, Hp, andb_false_r by done. done.
Qed.

Lemma event_caps p cs a u m i : cap cs "addr" = a -> cap cs "user" = u -> cap cs "method" = m ->
  (finvalid p || negb (String.eqb (cap cs "invalid") "")) = i ->
  event p cs = (fun ip => mkFailure (clampLen u maxUserLen) ip m i (faborted p)) <$> ParseIP a.
Proof. unfold event. intros -> -> -> <-. by destruct (ParseIP a). Qed.

Lemma patterns_read r : wf r = true -> try_patterns failurePatterns (print r) = reported r <$> ParseIP (address r).
Proof.
  intros Hw. unfold failurePatterns. destruct r as [m u a n inv info pre|u a n|h u a n inv pre|u a n inv pre].
  - cbn [try_patterns fre]. rewrite failed_match by done. by apply event_caps; destruct inv.
  - cbn [try_patterns fre]. change (find_prefix failed_re (print (InvalidUser u a n))) with (@None (caps * string)).
    rewrite invalid_match by done. by apply event_caps.
  - cbn [try_patterns fre]. assert (Hf : find_prefix failed_re (print (Gone h u a n inv pre)) = None /\ find_prefix invalid_re (print (Gone h u a n inv pre)) = None)
      by (destruct h; split; reflexivity). destruct Hf as [-> ->].
    rewrite gone_match by done. by apply event_caps; destruct inv.
  - cbn [try_patterns fre].
    change (find_prefix failed_re (print (Exceeded u a n inv pre))) with (@None (caps * string)).
    change (find_prefix invalid_re (print (Exceeded u a n inv pre))) with (@None (caps * string)).
    change (find_prefix aborted_re (print (Exceeded u a n inv pre))) with (@None (caps * string)).
    rewrite exceeded_match by done. by apply event_caps; destruct inv.
Qed.


(** What follows "ssh2: " moves the address: when that text, which for a
    certificate holds the key id the client chose, ends like a record, the
    failure is counted against the address written there. *)
Theorem key_text_moves_address m u a n inv info a' n' pre :
  wf (Failed m u a n inv "" pre) = true -> str_forall dot info = true -> some ip_char a' = true -> some is_digit n' = true ->
  ParseFailure (print (Failed m u a n inv (info +:+ " from " +:+ a' +:+ " port " +:+ n' +:+ " ssh2") pre)) =
    (fun ip => mkFailure (clampLen (u +:+ " from " +:+ a +:+ " port " +:+ n +:+ " ssh2: " +:+ info) maxUserLen) ip m inv false) <$> ParseIP a'.
Proof.
  intros Hw Hi Ha Hn. set (u' := u +:+ " from " +:+ a +:+ " port " +:+ n +:+ " ssh2: " +:+ info).
  assert (Hp : print (Failed m u a n inv (info +:+ " from " +:+ a' +:+ " port " +:+ n' +:+ " ssh2") pre) = print (Failed m u' a' n' inv "" pre)).
  { unfold u'. cbn [print]. unfold info_text at 1.
    assert (Hne : String.eqb (info +:+ " from " +:+ a' +:+ " port " +:+ n' +:+ " ssh2") "" = false) by (by destruct info).
    rewrite Hne. unfold info_text. simpl (String.eqb "" ""). rewrite !string_app_assoc. done. }
  rewrite Hp. destruct (logged_split _ (Failed m u' a' n' inv "" pre) (or_introl eq_refl)) as (p & Hs & Hpp). unfold ParseFailure. rewrite Hs, Hpp.
  rewrite patterns_read; [done|]. simpl wf in Hw |- *. rewrite !andb_true_iff in Hw |- *. destruct_and! Hw.
  assert (Hda : str_forall dot a = true).
  { eapply (str_forall_impl ip_char); [intros c Hc; by apply ip_char_facts|by apply word_all]. }
  assert (Hdn : str_forall dot n = true).
  { eapply (str_forall_impl is_digit); [intros c Hc; by apply digit_facts|by apply word_all]. }
  assert (Hu' : str_forall dot u' = true).
  { unfold u'. rewrite !str_forall_app, Hi, Hda, Hdn. apply andb_true_iff. done. }
  assert (Hm : (inv || negb (has_prefix (u' +:+ " ") "invalid user ")) = true).
  { destruct inv; [done|]. simpl in *. unfold u'. rewrite string_app_assoc. apply negb_true_iff. rewrite string_app_assoc.
    apply no_mark. by apply negb_true_iff. }
  do 6 (split; [|done || by destruct pre]). done.
Qed.
End Report.
End SshParse.
