(* ===== verification/SshPressure.v ===== *)
(** * What the pressure aggregator promises

    Runs are lists of operations, newest first. *)
From Stdlib Require Import Ascii.
From S2P Require Import Prelude GoStrings GoPath GoRegexp SshWatch.

Local Open Scope Z_scope.

Module SshPressure.
Import Ssh.

(** ** Eviction *)
Lemma string_lt_trans a b c : String.ltb a b = true -> String.ltb b c = true -> String.ltb a c = true.
Proof.
  unfold String.ltb. revert b c. induction a as [|x a IH]; intros [|y b] [|z c]; simpl; try done.
  unfold Ascii.compare. destruct (N.compare_spec (N_of_ascii x) (N_of_ascii y)) as [E|E|E]; try done;
    destruct (N.compare_spec (N_of_ascii y) (N_of_ascii z)) as [F|F|F]; try done.
  - rewrite (proj2 (N.compare_eq_iff _ _)) by lia. apply IH.
  - by rewrite (proj2 (N.compare_lt_iff _ _)) by lia.
  - by rewrite (proj2 (N.compare_lt_iff _ _)) by lia.
  - by rewrite (proj2 (N.compare_lt_iff _ _)) by lia.
Qed.
Lemma weaker_trans x y z : weaker x y = true -> weaker y z = true -> weaker x z = true.
Proof.
  unfold weaker.
  destruct (Z.eqb_spec (priorFailures x.2) (priorFailures y.2)), (Z.eqb_spec (priorFailures y.2) (priorFailures z.2)),
    (Z.eqb_spec (priorFailures x.2) (priorFailures z.2)); cbn [negb]; rewrite ?Z.ltb_lt; try lia.
  destruct (Z.eqb_spec (last x.2) (last y.2)), (Z.eqb_spec (last y.2) (last z.2)), (Z.eqb_spec (last x.2) (last z.2));
    cbn [negb]; rewrite ?Z.ltb_lt; try lia. apply string_lt_trans.
Qed.

Lemma weaker_irrefl x : weaker x x = false.
Proof.
  unfold weaker. rewrite !Z.eqb_refl. cbn [negb]. unfold String.ltb.
  assert (E : (x.1 ?= x.1)%string = Eq); [|by rewrite E]. induction x.1 as [|c s IH]; [done|]. simpl. unfold Ascii.compare. by rewrite N.compare_refl.
Qed.

(** The victim is a tracked source other than the one to keep, and no other
    such source is weaker. *)
Lemma weakest_spec keep l :
  match weakest keep l with
  | None => Forall (fun x => x.1 = keep) l
  | Some v => v ∈ l /\ v.1 <> keep /\ Forall (fun x => x.1 <> keep -> weaker x v = false \/ x = v) l
  end.
Proof.
  induction l as [|x l IH] using rev_ind; [constructor|]. unfold weakest in *. rewrite foldl_snoc.
  set (found := foldl _ None l) in *. destruct (String.eqb_spec x.1 keep) as [Hk|Hk].
  - destruct found as [v|]; [|apply Forall_app; split; [done|by repeat constructor]]. destruct IH as (H1 & H2 & H3).
    split; [apply elem_of_app; by left|]. split; [done|]. apply Forall_app. split; [done|]. by repeat constructor.
  - destruct found as [v|].
    + destruct IH as (H1 & H2 & H3). destruct (weaker x v) eqn:Hw.
      * split; [apply elem_of_app; right; by apply list_elem_of_singleton|]. split; [done|]. apply Forall_app. split; [|repeat constructor; by right].
        eapply Forall_impl; [exact H3|]. simpl. intros y Hy Hne. left. destruct (weaker y x) eqn:Hyx; [|done].
        assert (Hyv := weaker_trans y x v Hyx Hw). destruct (Hy Hne) as [?| ->]; [congruence|].
        assert (Hvv := weaker_trans v x v Hyx Hw). by rewrite weaker_irrefl in Hvv.
      * split; [apply elem_of_app; by left|]. split; [done|]. apply Forall_app. split; [done|]. repeat constructor. auto.
    + split; [apply elem_of_app; right; by apply list_elem_of_singleton|]. split; [done|]. apply Forall_app. split; [|repeat constructor; by right].
      eapply Forall_impl; [exact IH|]. simpl. done.
Qed.

Section Runs.
Context `{IPs}.

Inductive op := Saw (now : time) (line : string) | Rolled (now : time).
Definition op_time (o : op) : time := match o with Saw t _ | Rolled t => t end.

(** The aggregator and the windows it handed out, newest first. *)
Definition step (o : op) (y : Aggregator * list PressureWindow) : Aggregator * list PressureWindow :=
  match o with
  | Saw now line => ((Observe now line y.1).1, y.2)
  | Rolled now => let '(a, w) := Roll now y.1 in (a, match w with Some w => w :: y.2 | None => y.2 end)
  end.
Definition run (o : AggregatorOptions) (ops : list op) : Aggregator * list PressureWindow :=
  foldr step (NewAggregator o, []) ops.

Definition failure_of (o : op) : option FailureEvent := match o with Saw _ line => ParseFailure line | Rolled _ => None end.
Definition is_failure (o : op) : bool := match failure_of o with Some _ => true | None => false end.
Definition is_invalid (o : op) : bool := match failure_of o with Some ev => Invalid ev | None => false end.
Definition total (f : PressureWindow -> Z) (ws : list PressureWindow) : Z := foldr (fun w n => f w + n) 0 ws.

(** ** Pieces *)
Lemma evict_fields keep a :
  let a' := evictWeakest keep a in
  opts a' = opts a /\ start a' = start a /\ failures a' = failures a /\ invalid a' = invalid a /\ sources a' = sources a /\ suspects a' = suspects a.
Proof. unfold evictWeakest. destruct (weakest _ _) as [[v s]|]; cbv zeta; upd; done. Qed.
Lemma failure_fields now ev a :
  let a' := recordFailure now ev a in
  opts a' = opts a /\ start a' = start a /\ failures a' = 1 + failures a /\
  invalid a' = (if Invalid ev then 1 else 0) + invalid a /\ suspects a' = suspects a.
Proof.
  cbv zeta. unfold recordFailure. destruct (Invalid ev); cbv zeta;
    (match goal with |- context [if ?c then evictWeakest ?k ?x else ?y] => destruct c; [destruct (evict_fields k x) as (-> & -> & -> & -> & _ & ->)|] end);
    upd; repeat case_match; upd; done.
Qed.
Lemma login_fields now ev a :
  let a' := (recordLogin now ev a).1 in
  opts a' = opts a /\ start a' = start a /\ failures a' = failures a /\ invalid a' = invalid a /\ sources a' = sources a /\
  dropped a' = dropped a /\ src a' = src a.
Proof. cbv zeta. unfold recordLogin. repeat (case_match; simpl; upd; try done). Qed.

(** ** Totals *)
Lemma observe_totals now line a :
  let a' := (Observe now line a).1 in
  failures a' = (if is_failure (Saw now line) then 1 else 0) + failures a /\
  invalid a' = (if is_invalid (Saw now line) then 1 else 0) + invalid a /\ opts a' = opts a.
Proof.
  cbv zeta. unfold Observe, is_failure, is_invalid, failure_of. set (a1 := if is_zero_time (start a) then _ else _).
  assert (Ha : failures a1 = failures a /\ invalid a1 = invalid a /\ opts a1 = opts a) by (unfold a1; destruct (is_zero_time _); by upd).
  destruct Ha as (H1 & H2 & H3). clearbody a1. destruct (ParseFailure line) as [ev|].
  - destruct (failure_fields now ev a1) as (E1 & _ & E3 & E4 & _). simpl. by rewrite E1, E3, E4, H1, H2, H3.
  - destruct (Parse line) as [ev|]; [|by simpl]. destruct (login_fields now ev a1) as (E1 & _ & E3 & E4 & _).
    destruct (recordLogin now ev a1) as [a2 l]. simpl in *. by rewrite E1, E3, E4, H1, H2, H3.
Qed.
Lemma roll_totals now a ws :
  let '(a', ws') := step (Rolled now) (a, ws) in
  0 <= failures a -> 0 <= invalid a <= failures a ->
  total Failures ws' + failures a' = total Failures ws + failures a /\
  total InvalidUser ws' + invalid a' = total InvalidUser ws + invalid a /\ 0 <= invalid a' <= failures a' /\ opts a' = opts a.
Proof.
  unfold step, Roll. simpl fst. simpl snd.
  destruct (is_zero_time (start a)); [upd; done|]. destruct (time_before now (start a)); [upd; done|].
  destruct (_ <? _); [done|]. intros H1 H2. unfold reset. upd.
  assert (Hf : Failures (summarize now a) = failures a) by done. assert (Hi : InvalidUser (summarize now a) = invalid a) by done.
  rewrite Hf. destruct (Z.ltb_spec 0 (failures a)); cbn [orb]; [|destruct (_ <? _)]; simpl total; rewrite ?Hf, ?Hi; lia || (repeat split; lia).
Qed.

Lemma run_totals o ops :
  let '(a, ws) := run o ops in
  total Failures ws + failures a = countb is_failure ops /\ total InvalidUser ws + invalid a = countb is_invalid ops /\
  0 <= invalid a <= failures a /\ opts a = withDefaults o.
Proof.
  induction ops as [|p ops IH]; [done|]. simpl. rewrite !countb_cons. fold (run o ops). destruct (run o ops) as [a ws].
  destruct IH as (I1 & I2 & I3 & I4). destruct p as [now line|now].
  - simpl. destruct (observe_totals now line a) as (E1 & E2 & E3). rewrite E1, E2, E3.
    assert (Hle : (if is_invalid (Saw now line) then 1 else 0) <= (if is_failure (Saw now line) then 1 else 0) /\ 0 <= (if is_invalid (Saw now line) then 1 else 0)).
    { unfold is_invalid, is_failure. destruct (failure_of _) as [ev|]; [destruct (Invalid ev)|]; lia. }
    repeat split; lia || done.
  - assert (Hr := roll_totals now a ws). simpl in *. destruct (Roll now a) as [a' w]. simpl in *.
    change (is_failure (Rolled now)) with false. change (is_invalid (Rolled now)) with false. cbv iota.
    destruct (Hr ltac:(lia) ltac:(lia)) as (R1 & R2 & R3 & R4). rewrite R4. repeat split; lia || done.
Qed.

(** ** Memory *)
Lemma evict_bound keep a : is_Some (src a !! keep) -> 1 < Z.of_nat (size (src a)) ->
  exists victim st, src a !! victim = Some st /\ victim <> keep /\ src (evictWeakest keep a) = delete victim (src a) /\
    dropped (evictWeakest keep a) = 1 + dropped a /\
    (forall addr st', src a !! addr = Some st' -> addr <> keep -> addr <> victim -> weaker (addr, st') (victim, st) = false).
Proof.
  intros Hk Hs. assert (Hw := weakest_spec keep (map_to_list (src a))). unfold evictWeakest.
  destruct (weakest keep (map_to_list (src a))) as [[victim st]|].
  - destruct Hw as (H1 & H2 & H3). exists victim, st. upd. apply elem_of_map_to_list in H1. repeat (split; [done|]).
    intros addr st' Ha Hn1 Hn2. rewrite Forall_forall in H3. destruct (H3 (addr, st')) as [?|[= -> ->]]; [by apply elem_of_map_to_list|done|done|done].
  - exfalso. rewrite <-size_dom in Hs.
    assert (Hd : dom (src a) ⊆ {[keep]}).
    { intros k [st Hst]%elem_of_dom. rewrite Forall_forall in Hw. apply elem_of_singleton. by apply (Hw (k, st)), elem_of_map_to_list. }
    apply subseteq_size in Hd. rewrite size_singleton in Hd. lia.
Qed.

(** ** Reference *)

(** When an address failed, newest first. *)
Definition times (ops : list op) (addr : string) : list time :=
  omap (fun o => match failure_of o with Some ev => if String.eqb (Address ev) addr then Some (op_time o) else None | None => None end) ops.
(** Its failures since it last went quiet for longer than [quiet]. *)
Fixpoint streak (quiet : duration) (ts : list time) : Z :=
  match ts with
  | [] => 0
  | t :: ts => match ts with t' :: _ => if quiet <? time_sub t t' then 1 else 1 + streak quiet ts | [] => 1 end
  end.
Definition recent_failures (quiet : duration) (now : time) (ts : list time) : Z :=
  match ts with t :: _ => if quiet <? time_sub now t then 0 else streak quiet ts | [] => 0 end.

(** The sources evicted during a run, and a clock that does not step back. *)
Fixpoint evictions (o : AggregatorOptions) (ops : list op) : Z :=
  match ops with
  | [] => 0
  | p :: ops => evictions o ops +
      match p with Saw now line => dropped (Observe now line (run o ops).1).1 - dropped (run o ops).1 | Rolled _ => 0 end
  end.
Fixpoint ordered (ops : list op) : Prop :=
  match ops with [] => True | p :: ops => match ops with q :: _ => op_time q <= op_time p | [] => True end /\ ordered ops end.
Definition clock_of (ops : list op) : option time := op_time <$> head ops.

Lemma streak_pos quiet t ts : 1 <= streak quiet (t :: ts).
Proof.
  revert t. induction ts as [|t' ts IH]; intros t; [done|]. cbn [streak]. destruct (_ <? _); [lia|].
  specialize (IH t'). cbn [streak] in IH. lia.
Qed.
Lemma time_sub_mono a b t : a <= b -> time_sub a t <= time_sub b t.
Proof. unfold time_sub. lia. Qed.

(** ** Sources *)
Record faithful (o : AggregatorOptions) (ops : list op) (a : Aggregator) : Prop := {
  f_opts : opts a = withDefaults o;
  f_some : forall addr st, src a !! addr = Some st ->
    exists t ts, times ops addr = t :: ts /\ last st = t /\ 0 < priorFailures st <= streak (SuspectWindow (withDefaults o)) (times ops addr) /\
      (evictions o ops = 0 -> priorFailures st = streak (SuspectWindow (withDefaults o)) (times ops addr));
  f_none : forall addr, src a !! addr = None -> evictions o ops = 0 ->
    match times ops addr with [] => True | t :: _ => forall now, (forall c, clock_of ops = Some c -> c <= now) -> SuspectWindow (withDefaults o) < time_sub now t end;
  f_size : Z.of_nat (size (src a)) <= MaxSources (withDefaults o)
}.

Lemma max_sources_pos o : 1 <= MaxSources (withDefaults o) /\ 1 <= MaxTopSources (withDefaults o) /\ 1 <= MaxSuspects (withDefaults o).
Proof. unfold withDefaults. simpl. destruct (Z.leb_spec (MaxSources o) 0), (Z.leb_spec (MaxTopSources o) 0), (Z.leb_spec (MaxSuspects o) 0); split_and!; try lia; done. Qed.

(** How a failure changes the entry of its source, before any eviction. *)
Lemma failure_src now ev a : exists st',
  let grown := <[Address ev := st']> (src a) in
  (if MaxSources (opts a) <? Z.of_nat (size grown)
   then exists b, src b = grown /\ dropped b = dropped a /\ recordFailure now ev a = evictWeakest (Address ev) b
   else src (recordFailure now ev a) = grown /\ dropped (recordFailure now ev a) = dropped a) /\
  last st' = now /\
  priorFailures st' = 1 + match src a !! Address ev with
                          | Some st => if SuspectWindow (opts a) <? time_sub now (last st) then 0 else priorFailures st
                          | None => 0 end.
Proof.
  unfold recordFailure. cbv zeta.
  set (a1 := if Invalid ev then a <| failures ::= Z.add 1 |> <| invalid ::= Z.add 1 |> else a <| failures ::= Z.add 1 |>).
  assert (Ha1 : src a1 = src a /\ opts a1 = opts a /\ dropped a1 = dropped a) by (unfold a1; destruct (Invalid ev); by upd).
  destruct Ha1 as (H1 & H2 & H3). clearbody a1. rewrite H1, H2. set (st0 := default _ _).
  set (st1 := if _ <? time_sub now (last st0) then _ else _).
  set (a2 := if windowFailures st1 =? 0 then a1 <| sources ::= Z.add 1 |> else a1).
  assert (Ha2 : src a2 = src a /\ opts a2 = opts a /\ dropped a2 = dropped a) by (unfold a2; destruct (_ =? 0); by upd).
  destruct Ha2 as (H4 & H5 & H6). clearbody a2.
  set (st2 := if Invalid ev then st1 <| windowFailures ::= Z.add 1 |> <| windowInvalid ::= Z.add 1 |> else st1 <| windowFailures ::= Z.add 1 |>).
  assert (Hst2 : priorFailures st2 = priorFailures st1) by (unfold st2; destruct (Invalid ev); by upd).
  exists (st2 <| priorFailures ::= Z.add 1 |> <| last := now |>). upd. rewrite H4, H5.
  split.
  - destruct (MaxSources (opts a) <? _); [eexists; split; [|split; [|reflexivity]]; upd; by rewrite ?H4|]. upd. by rewrite H4.
  - split; [done|]. rewrite Hst2. f_equal. unfold st1, st0.
    destruct (src a !! Address ev) as [st|]; simpl; [destruct (_ <? _); by upd|]. by destruct (_ <? _).
Qed.

Lemma times_quiet p ops : failure_of p = None -> forall addr, times (p :: ops) addr = times ops addr.
Proof. intros Hp addr. unfold times. simpl. by rewrite Hp. Qed.
Lemma times_failed p ops ev : failure_of p = Some ev -> times (p :: ops) (Address ev) = op_time p :: times ops (Address ev).
Proof. intros Hp. unfold times. simpl. by rewrite Hp, String.eqb_refl. Qed.
Lemma times_other p ops ev addr : failure_of p = Some ev -> addr <> Address ev -> times (p :: ops) addr = times ops addr.
Proof. intros Hp Hne. unfold times. simpl. rewrite Hp. by destruct (String.eqb_spec (Address ev) addr). Qed.

Lemma clock_later p ops now : ordered (p :: ops) -> (forall c, clock_of (p :: ops) = Some c -> c <= now) ->
  forall c, clock_of ops = Some c -> c <= now.
Proof.
  intros [Ho _] Hn c Hc. destruct ops as [|q ops]; [done|]. simpl in *. injection Hc as <-. specialize (Hn _ eq_refl). lia.
Qed.

(** An operation that fails no login keeps what it keeps of the sources. *)
Lemma quiet_faithful o p ops a a' :
  faithful o ops a -> failure_of p = None -> ordered (p :: ops) -> opts a' = opts a -> evictions o (p :: ops) = evictions o ops ->
  (forall addr st', src a' !! addr = Some st' -> exists st, src a !! addr = Some st /\ last st' = last st /\ priorFailures st' = priorFailures st) ->
  (forall addr st, src a !! addr = Some st -> src a' !! addr = None -> SuspectWindow (withDefaults o) < time_sub (op_time p) (last st)) ->
  Z.of_nat (size (src a')) <= Z.of_nat (size (src a)) -> faithful o (p :: ops) a'.
Proof.
  intros Hf Hp Ho H1 He H2 H3 H4. split.
  - rewrite H1. apply Hf.
  - intros addr st' Hst. destruct (H2 addr st' Hst) as (st & Hs & -> & ->). rewrite times_quiet, He by done. by apply (f_some o ops a Hf).
  - intros addr Hn He0. rewrite times_quiet by done. rewrite He in He0. destruct (src a !! addr) as [st|] eqn:Hst.
    + destruct (f_some o ops a Hf addr st Hst) as (t & ts & -> & Hl & _). intros now Hc. specialize (H3 addr st Hst Hn). rewrite Hl in H3.
      specialize (Hc _ eq_refl). assert (Hm := time_sub_mono _ _ t Hc). lia.
    + assert (Hx := f_none o ops a Hf addr Hst He0). destruct (times ops addr); [done|]. intros now Hc. apply Hx.
      by eapply (clock_later p).
  - assert (Hz := f_size o ops a Hf). lia.
Qed.

(** The streak of a source that fails again. *)
Lemma streak_again quiet now ts : streak quiet (now :: ts) = 1 + recent_failures quiet now ts.
Proof. destruct ts as [|t ts]; [done|]. cbn [recent_failures]. change (streak quiet (now :: t :: ts)) with (if quiet <? time_sub now t then 1 else 1 + streak quiet (t :: ts)). by destruct (_ <? _). Qed.
(** What is known of a source bounds, or equals, its recent failures. *)
Definition tracked_failures (quiet : duration) (now : time) (st : option sourceState) : Z :=
  match st with Some st => if quiet <? time_sub now (last st) then 0 else priorFailures st | None => 0 end.
Lemma tracked_bound o ops a now addr : faithful o ops a -> (forall c, clock_of ops = Some c -> c <= now) ->
  0 <= tracked_failures (SuspectWindow (withDefaults o)) now (src a !! addr) <= recent_failures (SuspectWindow (withDefaults o)) now (times ops addr) /\
  (evictions o ops = 0 -> tracked_failures (SuspectWindow (withDefaults o)) now (src a !! addr) =
     recent_failures (SuspectWindow (withDefaults o)) now (times ops addr)).
Proof.
  intros Hf Hc. unfold tracked_failures. destruct (src a !! addr) as [st|] eqn:Hs.
  - destruct (f_some o ops a Hf addr st Hs) as (t & ts & Ht & Hl & Hp & He). rewrite Ht in *. cbn [recent_failures]. rewrite Hl.
    destruct (_ <? _); [done|]. split; [lia|done].
  - assert (Hx := f_none o ops a Hf addr Hs). destruct (times ops addr) as [|t ts]; [done|]. cbn [recent_failures].
    assert (Hpos := streak_pos (SuspectWindow (withDefaults o)) t ts). destruct (Z.ltb_spec (SuspectWindow (withDefaults o)) (time_sub now t)) as [|Hle]; [done|].
    split; [lia|]. intros He. specialize (Hx He now Hc). lia.
Qed.

Lemma failed_faithful o ops a now line ev : faithful o ops a -> a = (run o ops).1 -> ParseFailure line = Some ev -> ordered (Saw now line :: ops) ->
  0 <= evictions o ops -> faithful o (Saw now line :: ops) (Observe now line a).1 /\ evictions o ops <= evictions o (Saw now line :: ops).
Proof.
  intros Hf Ha Hev Ho Hpos. assert (Hp : failure_of (Saw now line) = Some ev) by done.
  assert (Hclk : forall c, clock_of ops = Some c -> c <= now).
  { intros c Hc. destruct ops; [done|]. simpl in *. injection Hc as <-. by destruct Ho. }
  unfold Observe. rewrite Hev. set (a1 := if is_zero_time (start a) then _ else _). simpl fst.
  assert (Hevs : evictions o (Saw now line :: ops) = evictions o ops + (dropped (recordFailure now ev a1) - dropped a)).
  { cbn [evictions]. rewrite <-Ha. unfold Observe. by rewrite Hev. }
  assert (Ha1 : src a1 = src a /\ opts a1 = opts a /\ dropped a1 = dropped a) by (unfold a1; destruct (is_zero_time _); by upd).
  destruct Ha1 as (E1 & E2 & E3). clearbody a1. destruct (failure_src now ev a1) as (st' & Hgrow & Hlast & Hprior). cbv zeta in Hgrow.
  rewrite E1, E2, E3, (f_opts o ops a Hf) in *.
  destruct (tracked_bound o ops a now (Address ev) Hf Hclk) as [Htb Hte].
  assert (Hnew : 0 < priorFailures st' <= streak (SuspectWindow (withDefaults o)) (times (Saw now line :: ops) (Address ev)) /\
    (evictions o ops = 0 -> priorFailures st' = streak (SuspectWindow (withDefaults o)) (times (Saw now line :: ops) (Address ev)))).
  { rewrite (times_failed _ _ _ Hp). simpl op_time. rewrite streak_again, Hprior. unfold tracked_failures in *. destruct (src a !! Address ev); split; lia. }
  assert (Hopts : opts (recordFailure now ev a1) = withDefaults o) by (by destruct (failure_fields now ev a1) as (-> & _)).
  assert (Hgo : forall m, (forall addr st, m !! addr = Some st -> <[Address ev := st']> (src a) !! addr = Some st) ->
    src (recordFailure now ev a1) = m -> Z.of_nat (size m) <= MaxSources (withDefaults o) ->
    evictions o ops <= evictions o (Saw now line :: ops) ->
    (evictions o (Saw now line :: ops) = 0 -> m = <[Address ev := st']> (src a)) ->
    faithful o (Saw now line :: ops) (recordFailure now ev a1)).
  { intros m Hm Hsrc Hsize Hle Hno. split; [done| | |by rewrite Hsrc].
    - intros addr st Hst. rewrite Hsrc in Hst. apply Hm in Hst. destruct (decide (addr = Address ev)) as [->|Hne].
      + rewrite lookup_insert_eq in Hst. injection Hst as <-. exists now, (times ops (Address ev)). rewrite (times_failed _ _ _ Hp). simpl op_time.
        split; [done|]. split; [done|]. rewrite (times_failed _ _ _ Hp) in Hnew. simpl op_time in Hnew. split; [apply Hnew|]. intros He. apply Hnew. lia.
      + rewrite lookup_insert_ne in Hst by done. rewrite (times_other _ _ _ _ Hp Hne).
        destruct (f_some o ops a Hf addr st Hst) as (t & ts & H1 & H2 & H3 & H4). exists t, ts. do 3 (split; [done|]). intros He. apply H4. lia.
    - intros addr Hn He. rewrite Hsrc, (Hno He) in Hn. destruct (decide (addr = Address ev)) as [->|Hne]; [by rewrite lookup_insert_eq in Hn|].
      rewrite lookup_insert_ne in Hn by done. rewrite (times_other _ _ _ _ Hp Hne).
      assert (Hx := f_none o ops a Hf addr Hn ltac:(lia)). destruct (times ops addr); [done|]. intros n Hc. apply Hx. by eapply (clock_later (Saw now line)). }
  destruct (Z.ltb_spec (MaxSources (withDefaults o)) (Z.of_nat (size (<[Address ev := st']> (src a))))) as [Hbig|Hsmall].
  - destruct Hgrow as (b & Hb & Hbd & Hrec).
    destruct (evict_bound (Address ev) b) as (victim & vst & Hv1 & Hv2 & Hv3 & Hv4 & _).
    { rewrite Hb, lookup_insert_eq. by eexists. }
    { rewrite Hb. destruct (max_sources_pos o). lia. }
    rewrite <-Hrec in Hv3, Hv4. split; [|lia]. apply (Hgo (delete victim (<[Address ev := st']> (src a)))); [|by rewrite Hv3, Hb| |lia|lia].
    + intros addr st Hst. by apply lookup_delete_Some in Hst as [_ Hst].
    + assert (Hsz : size (delete victim (src b)) = pred (size (src b))) by (rewrite map_size_delete, Hv1; done). rewrite Hb in Hsz. assert (Hsz0 := f_size o ops a Hf).
      assert (Hins : (size (<[Address ev := st']> (src a)) <= S (size (src a)))%nat).
      { rewrite map_size_insert. destruct (src a !! Address ev); unfold id; lia. }
      rewrite Hsz. lia.
  - destruct Hgrow as [Hsrc Hdr]. split; [|lia]. by apply (Hgo (<[Address ev := st']> (src a))); [|rewrite Hsrc| |lia|].
Qed.

Lemma login_evictions o ops now line : ParseFailure line = None -> evictions o (Saw now line :: ops) = evictions o ops.
Proof.
  intros Hn. cbn [evictions]. unfold Observe. rewrite Hn. set (a1 := if is_zero_time _ then _ else _).
  assert (Hd : dropped a1 = dropped (run o ops).1) by (unfold a1; destruct (is_zero_time _); by upd). clearbody a1.
  destruct (Parse line) as [ev|]; [|simpl; lia]. destruct (login_fields now ev a1) as (_ & _ & _ & _ & _ & E & _).
  destruct (recordLogin now ev a1) as [a2 l]. simpl in *. lia.
Qed.
Lemma login_src now line a : ParseFailure line = None ->
  src (Observe now line a).1 = src a /\ opts (Observe now line a).1 = opts a.
Proof.
  intros Hn. unfold Observe. rewrite Hn. set (a1 := if is_zero_time _ then _ else _).
  assert (Hd : src a1 = src a /\ opts a1 = opts a) by (unfold a1; destruct (is_zero_time _); by upd). clearbody a1.
  destruct (Parse line) as [ev|]; [|done]. destruct (login_fields now ev a1) as (E & _ & _ & _ & _ & _ & E').
  destruct (recordLogin now ev a1) as [a2 l]. simpl in *. by rewrite E, E'.
Qed.

Lemma run_faithful o ops : ordered ops -> faithful o ops (run o ops).1 /\ 0 <= evictions o ops.
Proof.
  induction ops as [|p ops IH]; intros Ho.
  { split; [|done]. split; [done|intros addr st Hst; by apply (lookup_empty_Some addr st) in Hst|done|].
    destruct (max_sources_pos o). change (src (run o []).1) with (∅ : gmap string sourceState). rewrite map_size_empty. lia. }
  destruct IH as [Hf He]; [apply Ho|]. destruct p as [now line|now].
  - change ((run o (Saw now line :: ops)).1) with ((Observe now line (run o ops).1).1).
    destruct (ParseFailure line) as [ev|] eqn:Hev.
    + destruct (failed_faithful o ops _ now line ev Hf eq_refl Hev Ho He). split; [done|lia].
    + assert (Hev' := login_evictions o ops now line Hev). rewrite Hev'. split; [|done].
      destruct (login_src now line (run o ops).1 Hev) as [Hs Hop].
      apply (quiet_faithful o (Saw now line) ops (run o ops).1); [done|done|done|done|done| | |by rewrite Hs].
      * intros addr st. rewrite Hs. eauto.
      * intros addr st Hst. rewrite Hs. congruence.
  - split; [|cbn [evictions]; lia]. simpl. fold (run o ops). destruct (Roll now (run o ops).1) as [a' w] eqn:Hroll. simpl.
    assert (Hkeep : forall a'', src a'' = src (run o ops).1 -> opts a'' = opts (run o ops).1 -> faithful o (Rolled now :: ops) a'').
    { intros a'' Hs Hop. apply (quiet_faithful o (Rolled now) ops (run o ops).1); [done|done|done|done|cbn [evictions]; lia| | |by rewrite Hs].
      - intros addr st. rewrite Hs. eauto.
      - intros addr st Hst. rewrite Hs. congruence. }
    revert Hroll. unfold Roll. destruct (is_zero_time _); [intros [= <- _]; by apply Hkeep; upd|].
    destruct (time_before _ _); [intros [= <- _]; by apply Hkeep; upd|]. destruct (_ <? _); [intros [= <- _]; by apply Hkeep|].
    intros [= <- _]. apply (quiet_faithful o (Rolled now) ops (run o ops).1); [done|done|done|by unfold reset; upd|cbn [evictions]; lia| | |].
    + intros addr st'. unfold reset. upd. rewrite lookup_omap. destruct (src (run o ops).1 !! addr) as [st|]; [|done]. simpl.
      destruct (_ <? _); [done|]. intros [= <-]. exists st. split; [done|]. by upd.
    + intros addr st Hst. unfold reset. upd. rewrite lookup_omap, Hst. simpl. rewrite (f_opts o ops _ Hf).
      destruct (Z.ltb_spec (SuspectWindow (withDefaults o)) (time_sub now (last st))); [done|done].
    + unfold reset. upd. apply Nat2Z.inj_le. rewrite <-!size_dom. apply subseteq_size.
      intros addr [st Hst]%elem_of_dom. rewrite lookup_omap in Hst. apply elem_of_dom. destruct (src (run o ops).1 !! addr); [by eexists|done].
Qed.

(** ** Promises *)

(** Nothing is lost or counted twice at a window boundary: over any run the
    failures of the windows handed out and of the open one are the failure
    lines seen, and so are the invalid users, of which no window has more than
    failures. *)
Theorem failures_conserved o ops :
  let '(a, ws) := run o ops in
  total Failures ws + failures a = countb is_failure ops /\ total InvalidUser ws + invalid a = countb is_invalid ops /\
  0 <= invalid a <= failures a.
Proof. assert (Hr := run_totals o ops). destruct (run o ops) as [a ws]. tauto. Qed.

(** A login is annotated soundly: with a clock that does not step back, the
    prior failures reported for an accepted login are never more than the
    source's failures since it last went quiet for the suspect window, across
    any number of windows, and exactly those when no source was evicted. *)
Theorem login_pressure_exact o ops now line l :
  ordered ops -> (forall c, clock_of ops = Some c -> c <= now) -> (Observe now line (run o ops).1).2 = Some l ->
  let failed := recent_failures (SuspectWindow (withDefaults o)) now (times ops (canonicalAddr (lAddress (Event l)))) in
  0 <= lPriorFailures l <= failed /\ (evictions o ops = 0 -> lPriorFailures l = failed).
Proof.
  intros Ho Hc. destruct (run_faithful o ops Ho) as [Hf _]. unfold Observe. set (a1 := if is_zero_time _ then _ else _).
  assert (Ha1 : src a1 = src (run o ops).1 /\ opts a1 = withDefaults o).
  { unfold a1. destruct (is_zero_time _); upd; rewrite ?(f_opts o ops _ Hf); done. }
  destruct Ha1 as [E1 E2]. clearbody a1. destruct (ParseFailure line); [done|]. destruct (Parse line) as [ev|]; [|done].
  unfold recordLogin. rewrite E1, E2. assert (Hb := fun addr => tracked_bound o ops _ now addr Hf Hc).
  assert (Hev : forall out, Event out = ev -> lPriorFailures out = tracked_failures (SuspectWindow (withDefaults o)) now (src (run o ops).1 !! canonicalAddr (lAddress ev)) ->
    Some out = Some l -> let failed := recent_failures (SuspectWindow (withDefaults o)) now (times ops (canonicalAddr (lAddress (Event l)))) in
    0 <= lPriorFailures l <= failed /\ (evictions o ops = 0 -> lPriorFailures l = failed)).
  { intros out He Hp [= ->]. rewrite He, Hp. apply Hb. }
  unfold tracked_failures in Hev. destruct (src (run o ops).1 !! canonicalAddr (lAddress ev)) as [st|] eqn:Hst; simpl.
  - destruct (_ <? _) eqn:Hq; cbn [orb]; [by apply Hev|]. destruct (Z.eqb_spec (priorFailures st) 0) as [E|E]; [by apply Hev|].
    destruct (suspects a1 !! _); [|destruct (_ <=? _)]; simpl; by apply Hev.
  - by apply Hev.
Qed.

Lemma roll_suspects now a : Z.of_nat (size (suspects a)) <= MaxSuspects (opts a) ->
  let '(a', w) := Roll now a in
  opts a' = opts a /\ Z.of_nat (size (suspects a')) <= MaxSuspects (opts a) /\
  match w with Some w => zlen (TopSources w) <= Z.max 0 (MaxTopSources (opts a)) /\ zlen (Suspects w) <= MaxSuspects (opts a) | None => True end.
Proof.
  intros Hs. assert (Hpos : 0 <= MaxSuspects (opts a)) by lia. unfold Roll. destruct (is_zero_time _); [by upd|]. destruct (time_before _ _); [by upd|].
  destruct (_ <? _); [done|]. unfold reset. upd. rewrite map_size_empty. split; [done|]. split; [simpl; lia|].
  destruct (_ || _); [|done]. unfold summarize. cbn [TopSources Suspects]. unfold zlen. split.
  - rewrite length_take. lia.
  - rewrite (Permutation_length (insertion_sort_perm more_suspect _)), length_map, length_map_to_list. done.
Qed.
Lemma observe_suspects now line a : 1 <= MaxSuspects (opts a) -> Z.of_nat (size (suspects a)) <= MaxSuspects (opts a) ->
  Z.of_nat (size (suspects (Observe now line a).1)) <= MaxSuspects (opts a).
Proof.
  intros Hpos Hs. unfold Observe. set (a1 := if is_zero_time _ then _ else _).
  assert (Ha : suspects a1 = suspects a /\ opts a1 = opts a) by (unfold a1; destruct (is_zero_time _); by upd). destruct Ha as [E1 E2]. clearbody a1.
  destruct (ParseFailure line) as [ev|]; [destruct (failure_fields now ev a1) as (_ & _ & _ & _ & E); simpl; by rewrite E, E1|].
  destruct (Parse line) as [ev|]; [|simpl; by rewrite E1]. unfold recordLogin. rewrite E1, E2.
  destruct (src a1 !! _) as [st|]; [|simpl; by rewrite E1]. destruct (_ || _); [simpl; by rewrite E1|].
  destruct (suspects a !! _) as [sp|] eqn:Hsp; [|destruct (Z.leb_spec (MaxSuspects (opts a)) (Z.of_nat (size (suspects a))))]; simpl; upd; rewrite ?E1; try done.
  - rewrite map_size_insert, Hsp. done.
  - rewrite map_size_insert, Hsp. lia.
Qed.

(** Memory and reports are bounded whatever the log says: tracked sources,
    suspects and the lists of every window handed out stay within the limits
    of the options. *)
Theorem pressure_bounded o ops : ordered ops ->
  let '(a, ws) := run o ops in
  Z.of_nat (size (src a)) <= MaxSources (withDefaults o) /\ Z.of_nat (size (suspects a)) <= MaxSuspects (withDefaults o) /\
  Forall (fun w => zlen (TopSources w) <= MaxTopSources (withDefaults o) /\ zlen (Suspects w) <= MaxSuspects (withDefaults o)) ws.
Proof.
  intros Ho. destruct (run_faithful o ops Ho) as [Hf _]. assert (Hz := f_size o ops _ Hf). clear Hf.
  destruct (run o ops) as [a ws] eqn:Hrun. split; [done|]. clear Hz Ho. destruct (max_sources_pos o) as (_ & Ht & Hp).
  revert a ws Hrun. induction ops as [|p ops IH]; intros a ws Hrun.
  { injection Hrun as <- <-. split; [|constructor]. simpl suspects. rewrite map_size_empty. lia. }
  simpl in Hrun. fold (run o ops) in Hrun. assert (Hopts := run_totals o ops). destruct (run o ops) as [a0 ws0]. destruct Hopts as (_ & _ & _ & Hopts).
  destruct (IH a0 ws0 eq_refl) as [I1 I2]. rewrite <-Hopts in *. destruct p as [now line|now]; simpl in Hrun.
  - injection Hrun as <- <-. split; [by apply observe_suspects|done].
  - assert (Hr := roll_suspects now a0 I1). destruct (Roll now a0) as [a' w].
    injection Hrun as <- <-. destruct Hr as (_ & R1 & R2). split; [done|]. destruct w as [w|]; [|done]. constructor; [|done]. destruct R2. split; [lia|done].
Qed.
End Runs.
End SshPressure.

(** * The SSH parsers and the aggregator on samples *)
From Stdlib Require Import Ascii.
From S2P Require Import Prelude GoStrings GoPath GoRegexp SshWatch SshParse.

Local Open Scope Z_scope.

Module SshSample.
Import Ssh SshParse SshPressure.

(** Dotted addresses, spelled as they are. *)
#[local] Instance dotted : IPs := { ParseIP := fun s => if some ip_char s then Some s else None }.

Definition forged : record :=
  Failed "password" "root from 198.51.100.7 port 22 ssh2" "203.0.113.9" "55314" true "" true.
Definition framed : header :=
  mkHeader (Bsd "A" "u" "g" false "1" (Some "9"%char) "0" "3" "1" "4" "0" "7") "node1" "sshd" (Some "4242"%string).


(** A certificate's key id in the text after "ssh2: ". *)
Lemma key_text_moves_address_witness :
  Address <$> ParseFailure (print (Failed "publickey" "root" "203.0.113.9" "55314" false
    ("RSA-CERT SHA256:a ID x" +:+ " from " +:+ "198.51.100.7" +:+ " port " +:+ "22" +:+ " ssh2") false)) = Some "198.51.100.7"%string.
Proof.
  rewrite (key_text_moves_address "publickey" "root" "203.0.113.9" "55314" false "RSA-CERT SHA256:a ID x" "198.51.100.7" "22" false);
    reflexivity.
Defined.

(** Three failures from two addresses, with room for one source. *)
Definition small : AggregatorOptions := mkOptions minute minute 1 10 10.
Definition line (addr : string) : string := print (InvalidUser "x" addr (Some "22"%string)).
Definition crowded : list op :=
  [Rolled (200 * second); Saw (103 * second) (line "10.0.0.1"); Saw (102 * second) (line "10.0.0.2"); Saw (101 * second) (line "10.0.0.1")].

(** The number of distinct addresses of a window counts a source again that was
    evicted and failed again: two addresses, three reported. *)
Theorem evicted_source_counted_again : Sources <$> (run small crowded).2 = [3] /\ Failures <$> (run small crowded).2 = [3].
Proof. vm_compute. split; reflexivity. Qed.

Definition quiet_run : list op := [Saw (102 * second) (line "10.0.0.1"); Saw (101 * second) (line "10.0.0.1")].
Definition login : string := "Accepted password for alice from 10.0.0.1 port 51514 ssh2".
Lemma pressure_bounded_witness :
  let '(a, ws) := run small crowded in
  Z.of_nat (size (src a)) <= MaxSources (withDefaults small) /\ Z.of_nat (size (suspects a)) <= MaxSuspects (withDefaults small) /\
  Forall (fun w => zlen (TopSources w) <= MaxTopSources (withDefaults small) /\ zlen (Suspects w) <= MaxSuspects (withDefaults small)) ws.
Proof. apply (pressure_bounded small crowded). vm_compute. repeat split; discriminate. Defined.

Definition quiet_login : Login := mkLoginReport (mkLogin "alice" "10.0.0.1" "password") 2.
Lemma quiet_login_seen : (Observe (103 * second) login (run small quiet_run).1).2 = Some quiet_login /\ evictions small quiet_run = 0.
Proof. vm_compute. split; reflexivity. Qed.
Lemma login_pressure_exact_witness :
  lPriorFailures quiet_login = recent_failures (SuspectWindow (withDefaults small)) (103 * second) (times quiet_run "10.0.0.1").
Proof.
  destruct quiet_login_seen as [Hl He].
  assert (Hp := login_pressure_exact small quiet_run (103 * second) login quiet_login). apply Hp; [|  |exact Hl|exact He].
  - vm_compute. repeat split; discriminate.
  - intros c [= <-]. vm_compute. discriminate.
Defined.
End SshSample.
