(* ===== verification/MonitorResults.v ===== *)
(** * The monitor result queue (cmd/lattice-agent/monitor_results.go)

    One function per critical section of the queue, and the flush loop as the
    rounds between two answers of the server, so that pushes can come between
    them. *)
From S2P Require Import Prelude.

Local Open Scope Z_scope.

Module Results.

Definition monitorResultQueueMax : Z := 2000.
Definition monitorResultBatchMax : Z := 200.
Definition monitorResultFlushBatches : nat := 5.
Definition monitorBatchReprobe : duration := 30 * minute.

Section Queue.
(** A result, as the SDK has it. *)
Context {MonitorResult : Type}.

Record queuedMonitorResult := mkQueued { seq : Z; result : MonitorResult }.
Record monitorResultQueue := mkQueue {
  items : list queuedMonitorResult;
  nextSeq : Z;
  dropped : Z;
  droppedLogged : Z;
  batchOffUntil : time
}.
#[export] Instance monitorResultQueue_eta : Etable monitorResultQueue := fun q =>
  mkQueue (items q) (nextSeq q) (dropped q) (droppedLogged q) (batchOffUntil q).

Definition newMonitorResultQueue : monitorResultQueue := mkQueue [] 0 0 0 0.

Definition push (r : MonitorResult) (q : monitorResultQueue) : monitorResultQueue :=
  let q := q <| nextSeq ::= fun n => u64 (n + 1) |> in
  let q := q <| items ::= fun l => l ++ [mkQueued (nextSeq q) r] |> in
  let over := zlen (items q) - monitorResultQueueMax in
  if 0 <? over then q <| items ::= drop (Z.to_nat over) |> <| dropped ::= fun d => u64 (d + u64 over) |> else q.

Definition countDropped (n : Z) (q : monitorResultQueue) : monitorResultQueue :=
  q <| dropped ::= fun d => u64 (d + u64 n) |>.

Definition droppedSinceLog (q : monitorResultQueue) : monitorResultQueue * (Z * Z) :=
  (q <| droppedLogged := dropped q |>, (u64 (dropped q - droppedLogged q), dropped q)).

Definition stats (q : monitorResultQueue) : Z * Z := (zlen (items q), dropped q).

Definition head (n : Z) (q : monitorResultQueue) : list queuedMonitorResult :=
  take (Z.to_nat (if zlen (items q) <? n then zlen (items q) else n)) (items q).

(** Results up to a sequence number leave the front. *)
Fixpoint settled (s : Z) (l : list queuedMonitorResult) : list queuedMonitorResult :=
  match l with [] => [] | x :: l' => if seq x <=? s then settled s l' else l end.
Definition settle (s : Z) (q : monitorResultQueue) : monitorResultQueue := q <| items ::= settled s |>.

Definition batchAllowed (now : time) (q : monitorResultQueue) : bool := negb (time_before now (batchOffUntil q)).
Definition disableBatch (now : time) (q : monitorResultQueue) : monitorResultQueue :=
  q <| batchOffUntil := time_add now monitorBatchReprobe |>.

(** ** Flushing *)

(** The server's answer: accepted, with the indexes of the results it dropped,
    an error with an HTTP status, or an error without one. *)
Inductive answer := Accepted (lost : list Z) | Status (code : Z) | NoStatus.
#[export] Instance answer_eq_dec : EqDecision answer.
Proof. solve_decision. Defined.

(** Where the flush is: not running, about to start a round, or waiting for
    the answer to a batch or to the first of the results still to be posted
    one by one. *)
Inductive place :=
  | Idle
  | Round (i : nat)
  | InBatch (i : nat) (batch : list queuedMonitorResult)
  | InSingles (i : nat) (rest : list queuedMonitorResult).

Definition last_seq (batch : list queuedMonitorResult) : Z := match last batch with Some x => seq x | None => 0 end.

Definition flush_round (i : nat) (now : time) (q : monitorResultQueue) : place :=
  if (monitorResultFlushBatches <=? i)%nat then Idle
  else
    let batch := head monitorResultBatchMax q in
    match batch with
    | [] => Idle
    | _ => if batchAllowed now q then InBatch i batch else InSingles i batch
    end.

Definition sendBatch (i : nat) (batch : list queuedMonitorResult) (ans : answer) (now : time) (q : monitorResultQueue)
    : monitorResultQueue * place :=
  match ans with
  | Accepted lost =>
      let q := settle (last_seq batch) q in
      let q := if 0 <? zlen lost then countDropped (zlen lost) q else q in
      (q, Round (S i))
  | Status code =>
      if code =? 400 then (countDropped (zlen batch) (settle (last_seq batch) q), Round (S i))
      else if code =? 404 then (disableBatch now q, InSingles i batch)
      else (q, Idle)
  | NoStatus => (q, Idle)
  end.

Definition sendSingles (i : nat) (item : queuedMonitorResult) (rest : list queuedMonitorResult) (ans : answer)
    (q : monitorResultQueue) : monitorResultQueue * place :=
  let next := match rest with [] => Round (S i) | _ => InSingles i rest end in
  match ans with
  | Accepted _ => (settle (seq item) q, next)
  | Status code =>
      if (500 <=? code) || (code =? 401) || (code =? 429) then (q, Idle)
      else (settle (seq item) (countDropped 1 q), next)
  | NoStatus => (q, Idle)
  end.

(** A flush with nothing coming between its requests: what the server answers
    to a batch and to a single result is an argument. *)
Section Flush.
Context (post_batch : list queuedMonitorResult -> answer) (post_single : queuedMonitorResult -> answer).

Fixpoint singles (i : nat) (batch : list queuedMonitorResult) (q : monitorResultQueue) : monitorResultQueue * place :=
  match batch with
  | [] => (q, Round (S i))
  | item :: rest =>
      match sendSingles i item rest (post_single item) q with
      | (q, Idle) => (q, Idle)
      | (q, _) => singles i rest q
      end
  end.

Fixpoint flush_from (n i : nat) (now : time) (q : monitorResultQueue) : monitorResultQueue :=
  match n with
  | O => q
  | S n =>
      let next '((q, p) : monitorResultQueue * place) := match p with Round i => flush_from n i now q | _ => q end in
      match flush_round i now q with
      | InBatch i batch =>
          match sendBatch i batch (post_batch batch) now q with
          | (q, InSingles i batch) => next (singles i batch q)
          | qp => next qp
          end
      | InSingles i batch => next (singles i batch q)
      | _ => q
      end
  end.
Definition flush (now : time) (q : monitorResultQueue) : monitorResultQueue := flush_from monitorResultFlushBatches 0 now q.
End Flush.
End Queue.
End Results.

(** * What the result queue promises

    Pushes and the flush interleaved; the fate of every result is recorded
    beside the queue. *)
From S2P Require Import Prelude.

Local Open Scope Z_scope.

Module ResultsProps.
Import Results.

Section Props.
Context {MonitorResult : Type}.
Abbreviation queue := (@monitorResultQueue MonitorResult).
Abbreviation queued := (@queuedMonitorResult MonitorResult).

(** The queue, the flush, and by sequence number the results the server stored
    or already had, refused, and the ones that overflow dropped; and all drops,
    uncounted by wrap-around. *)
Record sys := mkSys {
  q : queue; at_ : @place MonitorResult; stored : list Z; refused : list Z; evicted : list Z; drops : Z
}.
Definition first : sys := mkSys newMonitorResultQueue Idle [] [] [] 0.

(** What overflow drops on a push. *)
Definition overflow (y : queue) : list Z :=
  if monitorResultQueueMax <=? zlen (items y) then take 1 (map seq (items y)) else [].
(** The results of a batch the server listed, and the others. *)
Definition at_index (batch : list queued) (i : Z) : option Z := seq <$> batch !! Z.to_nat i.
Definition listed (batch : list queued) (lost : list Z) : list Z := omap (at_index batch) lost.
Definition unlisted (batch : list queued) (lost : list Z) : list Z :=
  filter (fun s => s ∉ listed batch lost) (map seq batch).

Inductive step : sys -> sys -> Prop :=
  | step_push y r : nextSeq (q y) + 1 < 2 ^ 64 ->
      step y (mkSys (push r (q y)) (at_ y) (stored y) (refused y) (overflow (q y) ++ evicted y) (zlen (overflow (q y)) + drops y))
  | step_start y : at_ y = Idle -> step y (mkSys (q y) (Round 0) (stored y) (refused y) (evicted y) (drops y))
  | step_round y i now : at_ y = Round i -> step y (mkSys (q y) (flush_round i now (q y)) (stored y) (refused y) (evicted y) (drops y))
  | step_stored y i batch lost now q' p' : at_ y = InBatch i batch -> (forall k, k ∈ lost -> 0 <= k < zlen batch) ->
      sendBatch i batch (Accepted lost) now (q y) = (q', p') ->
      step y (mkSys q' p' (unlisted batch lost ++ stored y) (listed batch lost ++ refused y) (evicted y) (zlen lost + drops y))
  | step_batch_error y i batch ans now q' p' : at_ y = InBatch i batch -> (forall lost, ans <> Accepted lost) ->
      sendBatch i batch ans now (q y) = (q', p') ->
      step y (mkSys q' p' (stored y) ((if decide (ans = Status 400) then map seq batch else []) ++ refused y) (evicted y)
                ((if decide (ans = Status 400) then zlen batch else 0) + drops y))
  | step_single y i item rest ans q' p' : at_ y = InSingles i (item :: rest) ->
      sendSingles i item rest ans (q y) = (q', p') ->
      step y (mkSys q' p' ((match ans with Accepted _ => [seq item] | _ => [] end) ++ stored y)
                ((match ans with Accepted _ => [] | _ => match p' with Idle => [] | _ => [seq item] end end) ++ refused y) (evicted y)
                ((match ans with Accepted _ => 0 | _ => match p' with Idle => 0 | _ => 1 end end) + drops y)).

Inductive reach : sys -> Prop :=
  | reach_first : reach first
  | reach_step y y' : reach y -> step y y' -> reach y'.

(** ** Sequence numbers are contiguous *)
Definition contig (a : Z) (l : list queued) : Prop := forall i x, l !! i = Some x -> seq x = a + Z.of_nat i.

Lemma contig_drop a k l : contig a l -> contig (a + Z.of_nat k) (drop k l).
Proof. intros Hc i x Hi. rewrite lookup_drop in Hi. rewrite (Hc _ _ Hi). lia. Qed.
Lemma contig_tail a x l : contig a (x :: l) -> seq x = a /\ contig (a + 1) l.
Proof. intros Hc. split; [rewrite (Hc 0%nat x eq_refl); lia|]. exact (contig_drop a 1 (x :: l) Hc). Qed.
Lemma contig_take a k l : contig a l -> contig a (take k l).
Proof. intros Hc i x Hi. apply lookup_take_Some in Hi as [Hi _]. by apply Hc. Qed.
Lemma contig_snoc a l r : contig a l -> contig a (l ++ [mkQueued (a + zlen l) r]).
Proof.
  intros Hc i x [Hi|[Hle Hi]]%lookup_app_Some; [by apply Hc|]. destruct (i - length l)%nat eqn:E; [|done]. injection Hi as <-.
  simpl. unfold zlen. lia.
Qed.
Lemma contig_mem a l s : contig a l -> a <= s < a + zlen l -> s ∈ map seq l.
Proof.
  intros Hc Hs. unfold zlen in Hs. destruct (lookup_lt_is_Some_2 l (Z.to_nat (s - a))) as [x Hx]; [lia|].
  assert (Hq := Hc _ _ Hx). apply list_elem_of_fmap. exists x. split; [lia|by eapply list_elem_of_lookup_2].
Qed.

(** Settling a sequence number cuts the front. *)
Lemma settled_drop x l a : contig a l ->
  settled x l = drop (Z.to_nat (Z.min (zlen l) (x + 1 - a))) l.
Proof.
  revert a. induction l as [|y l IH]; intros a Hc; [by rewrite drop_nil|]. destruct (contig_tail a y l Hc) as [Hy Hl]. simpl settled. rewrite Hy.
  rewrite zlen_cons. assert (Hz := zlen_nonneg l). destruct (Z.leb_spec a x).
  - rewrite (IH (a + 1) Hl). replace (Z.to_nat (Z.min (1 + zlen l) (x + 1 - a))) with (S (Z.to_nat (Z.min (zlen l) (x + 1 - (a + 1))))) by lia. done.
  - replace (Z.to_nat (Z.min (1 + zlen l) (x + 1 - a))) with 0%nat by lia. done.
Qed.
Lemma last_contig a l : contig a l -> l <> [] -> last_seq l = a + zlen l - 1.
Proof.
  intros Hc Hl. unfold last_seq. rewrite last_lookup. destruct (lookup_lt_is_Some_2 l (pred (length l))) as [x Hx]; [destruct l; simpl; [done|lia]|].
  rewrite Hx, (Hc _ _ Hx). unfold zlen. destruct l; simpl; [done|lia].
Qed.

(** ** The invariant *)
Definition low (y : sys) : Z := nextSeq (q y) - zlen (items (q y)).
Definition in_flight (y : sys) (b : list queued) : Prop :=
  b <> [] /\ exists s0, contig s0 b /\ 1 <= s0 <= low y + 1 /\ s0 + zlen b - 1 <= nextSeq (q y).
Record good (y : sys) : Prop := {
  g_low : 0 <= low y;
  g_next : nextSeq (q y) < 2 ^ 64;
  g_items : contig (low y + 1) (items (q y));
  g_size : zlen (items (q y)) <= monitorResultQueueMax;
  g_gone : forall s, 1 <= s <= low y -> s ∈ stored y \/ s ∈ refused y \/ s ∈ evicted y;
  g_drops : drops y = zlen (evicted y) + zlen (refused y);
  g_dropped : dropped (q y) = u64 (drops y);
  g_place : match at_ y with InBatch _ b | InSingles _ b => in_flight y b | _ => True end
}.

(** What settling a number of the batch in flight does. *)
Lemma settle_good y (q' : queue) p' st rf dr x :
  good y -> items q' = settled x (items (q y)) -> nextSeq q' = nextSeq (q y) -> dropped q' = u64 dr ->
  x <= nextSeq (q y) ->
  (forall s, s ∈ stored y -> s ∈ st) -> (forall s, s ∈ refused y -> s ∈ rf) ->
  (forall s, low y < s <= x -> s ∈ st \/ s ∈ rf) ->
  dr = zlen (evicted y) + zlen rf ->
  (forall lo', lo' = Z.max (low y) x -> match p' with InBatch _ b | InSingles _ b => b <> [] /\ exists s0, contig s0 b /\ 1 <= s0 <= lo' + 1 /\ s0 + zlen b - 1 <= nextSeq (q y) | _ => True end) ->
  good (mkSys q' p' st rf (evicted y) dr).
Proof.
  intros Hg Hi Hn Hd Hx Hst Hrf Hnew Hdr Hp. assert (Hz := zlen_nonneg (items (q y))). assert (Hlo := g_low y Hg).
  assert (Hit : items q' = drop (Z.to_nat (Z.min (zlen (items (q y))) (x + 1 - (low y + 1)))) (items (q y))) by (rewrite Hi; apply settled_drop, Hg).
  assert (Hlen : zlen (items q') = zlen (items (q y)) - Z.max 0 (x - low y)).
  { rewrite Hit, zlen_drop. unfold low in *. lia. }
  assert (Hlow : forall p s r e d, low (mkSys q' p s r e d) = Z.max (low y) x) by (intros; unfold low in *; simpl; lia).
  split; rewrite ?Hlow; simpl.
  - lia.
  - rewrite Hn. apply Hg.
  - rewrite Hit. assert (Hc := contig_drop _ (Z.to_nat (Z.min (zlen (items (q y))) (x + 1 - (low y + 1)))) _ (g_items y Hg)).
    replace (Z.max (low y) x + 1) with (low y + 1 + Z.of_nat (Z.to_nat (Z.min (zlen (items (q y))) (x + 1 - (low y + 1))))); [done|].
    unfold low in *. lia.
  - assert (Hs := g_size y Hg). lia.
  - intros s Hs. destruct (Z.le_gt_cases s (low y)) as [Hle|Hgt].
    + destruct (g_gone y Hg s) as [?|[?|?]]; [lia|auto|auto|auto].
    + destruct (Hnew s); [lia|auto|auto].
  - done.
  - done.
  - specialize (Hp _ eq_refl). destruct p'; unfold in_flight; rewrite ?Hlow; simpl; rewrite ?Hn; done.
Qed.

Lemma listed_length batch lost : (forall k, k ∈ lost -> 0 <= k < zlen batch) -> zlen (listed batch lost) = zlen lost.
Proof.
  induction lost as [|k lost IH]; intros Hk; [done|].
  change (listed batch (k :: lost)) with (match at_index batch k with Some s => s :: listed batch lost | None => listed batch lost end). unfold at_index.
  destruct (lookup_lt_is_Some_2 batch (Z.to_nat k)) as [x Hx]; [specialize (Hk k ltac:(left)); unfold zlen in Hk; lia|].
  rewrite Hx. simpl. rewrite !zlen_cons, IH; [done|]. intros j Hj. apply Hk. by right.
Qed.
Lemma unlisted_or batch lost s : s ∈ map seq batch -> s ∈ unlisted batch lost \/ s ∈ listed batch lost.
Proof.
  intros Hs. destruct (decide (s ∈ listed batch lost)); [by right|]. left. apply list_elem_of_filter. done.
Qed.
Lemma u64_plus a b : u64 (u64 a + u64 b) = u64 (a + b).
Proof. by rewrite u64_add_l, u64_add_r. Qed.

(** The range of a batch in flight. *)
Lemma flight_last y b : in_flight y b -> exists s0, contig s0 b /\ 1 <= s0 <= low y + 1 /\ last_seq b = s0 + zlen b - 1 /\
  last_seq b <= nextSeq (q y) /\ forall s, low y < s <= last_seq b -> s ∈ map seq b.
Proof.
  intros (Hb & s0 & Hc & Hs & Hn). exists s0. assert (Hl := last_contig s0 b Hc Hb). split_and!; [done|lia|lia|done|lia|].
  intros s Hr. apply (contig_mem s0); [done|lia].
Qed.

Lemma push_good y r : good y -> nextSeq (q y) + 1 < 2 ^ 64 ->
  good (mkSys (push r (q y)) (at_ y) (stored y) (refused y) (overflow (q y) ++ evicted y) (zlen (overflow (q y)) + drops y)).
Proof.
  intros Hg Hn. assert (Hlo := g_low y Hg). assert (Hz := zlen_nonneg (items (q y))). assert (Hsz := g_size y Hg).
  set (grown := items (q y) ++ [mkQueued (nextSeq (q y) + 1) r]).
  assert (Hu : u64 (nextSeq (q y) + 1) = nextSeq (q y) + 1) by (apply u64_small; unfold low in Hlo; lia).
  assert (Hgrown : contig (low y + 1) grown).
  { unfold grown. replace (nextSeq (q y) + 1) with (low y + 1 + zlen (items (q y))) by (unfold low; lia). apply contig_snoc, Hg. }
  assert (Hgl : zlen grown = zlen (items (q y)) + 1) by (unfold grown; rewrite zlen_app; unfold zlen at 2; simpl; lia).
  assert (Hq : exists k, nextSeq (push r (q y)) = nextSeq (q y) + 1 /\ items (push r (q y)) = drop k grown /\
    Z.of_nat k = zlen (overflow (q y)) /\ (k = 0 \/ k = 1)%nat /\ zlen (items (push r (q y))) <= monitorResultQueueMax /\
    dropped (push r (q y)) = u64 (zlen (overflow (q y)) + drops y) /\ (k = 1%nat -> overflow (q y) = [low y + 1])).
  { unfold push. cbv zeta. upd. rewrite Hu. fold grown. unfold overflow.
    destruct (Z.ltb_spec 0 (zlen grown - monitorResultQueueMax)) as [Hov|Hok].
    - exists 1%nat. rewrite (proj2 (Z.leb_le _ _)) by lia. upd. rewrite Hu. fold grown.
      assert (Hone : zlen grown - monitorResultQueueMax = 1) by lia. rewrite Hone.
      destruct (items (q y)) as [|x l] eqn:Hit; [unfold monitorResultQueueMax, zlen in *; simpl length in *; lia|].
      assert (Hx : seq x = low y + 1) by (apply (contig_tail (low y + 1) x l); rewrite <-Hit; apply Hg).
      split_and!; try done; [by right|rewrite zlen_drop; lia| |simpl; by rewrite Hx].
      rewrite (g_dropped y Hg), u64_plus. f_equal. unfold zlen. simpl. lia.
    - exists 0%nat. rewrite (proj2 (Z.leb_gt _ _)) by lia. upd. rewrite Hu. fold grown.
      split_and!; try done; [by left|lia|]. rewrite (g_dropped y Hg). done. }
  destruct Hq as (k & Hq1 & Hq2 & Hk & Hk01 & Hq3 & Hq4 & Hk1).
  assert (Hlow : forall p s rf e d, low (mkSys (push r (q y)) p s rf e d) = low y + Z.of_nat k).
  { intros. unfold low. simpl. rewrite Hq1, Hq2, zlen_drop, Hgl. unfold low in *. destruct Hk01 as [-> | ->]; lia. }
  split; rewrite ?Hlow; simpl; rewrite ?Hq1; try done; try lia.
  - rewrite Hq2. replace (low y + Z.of_nat k + 1) with (low y + 1 + Z.of_nat k) by lia. by apply contig_drop.
  - intros s Hs. destruct (Z.le_gt_cases s (low y)) as [Hle|Hgt].
    + destruct (g_gone y Hg s) as [?|[?|?]]; [lia|auto|auto|]. right. right. apply elem_of_app. by right.
    + right. right. apply elem_of_app. left. destruct Hk01 as [-> | ->]; [lia|]. rewrite (Hk1 eq_refl). apply list_elem_of_singleton. lia.
  - rewrite zlen_app, (g_drops y Hg). lia.
  - assert (Hp := g_place y Hg). destruct (at_ y); try done; unfold in_flight in *; rewrite Hlow; simpl; rewrite Hq1;
      destruct Hp as (Hne & s0 & H1 & H2 & H3); (split; [done|]); exists s0; split_and!; done || lia.
Qed.

Lemma round_good y i now : good y -> good (mkSys (q y) (flush_round i now (q y)) (stored y) (refused y) (evicted y) (drops y)).
Proof.
  intros Hg. destruct Hg as [G1 G2 G3 G4 G5 G6 G7 _]. split; try done. cbn [at_].
  assert (Hhead : forall b, b = head monitorResultBatchMax (q y) -> b <> [] -> in_flight y b).
  { intros b -> Hne. split; [done|]. exists (low y + 1). unfold head. split_and!; [by apply contig_take|lia|lia|].
    rewrite zlen_take. unfold low. lia. }
  unfold flush_round. destruct (_ <=? _)%nat; [done|]. cbv zeta. destruct (head monitorResultBatchMax (q y)) as [|x l] eqn:E; [done|].
  destruct (batchAllowed now (q y)); by apply Hhead.
Qed.

(** A flush that only moves on. *)
Lemma place_good y (q' : queue) p' : good y -> items q' = items (q y) -> nextSeq q' = nextSeq (q y) -> dropped q' = dropped (q y) ->
  (match p' with InBatch _ b | InSingles _ b => in_flight y b | _ => True end) ->
  good (mkSys q' p' (stored y) (refused y) (evicted y) (drops y)).
Proof.
  intros [G1 G2 G3 G4 G5 G6 G7 _] Hi Hn Hd Hp.
  assert (Hlow : forall p s r e d, low (mkSys q' p s r e d) = low y) by (intros; unfold low; simpl; by rewrite Hi, Hn).
  split; rewrite ?Hlow; simpl; rewrite ?Hi, ?Hn, ?Hd; try done. destruct p'; unfold in_flight in *; rewrite ?Hlow; simpl; rewrite ?Hn; done.
Qed.

Lemma stored_good y i batch lost now q' p' : good y -> at_ y = InBatch i batch -> (forall k, k ∈ lost -> 0 <= k < zlen batch) ->
  sendBatch i batch (Accepted lost) now (q y) = (q', p') ->
  good (mkSys q' p' (unlisted batch lost ++ stored y) (listed batch lost ++ refused y) (evicted y) (zlen lost + drops y)).
Proof.
  intros Hg Ha Hk [= <- <-]. assert (Hp := g_place y Hg). rewrite Ha in Hp. destruct (flight_last y batch Hp) as (s0 & Hc & Hs & Hl & Hln & Hmem).
  apply (settle_good y _ _ _ _ _ (last_seq batch)); try done.
  - unfold settle. destruct (_ <? _); unfold countDropped; by upd.
  - unfold settle. destruct (_ <? _); unfold countDropped; by upd.
  - unfold settle. destruct (Z.ltb_spec 0 (zlen lost)); unfold countDropped; upd; rewrite (g_dropped y Hg).
    + rewrite u64_plus. f_equal. lia.
    + assert (Hz := zlen_nonneg lost). f_equal. lia.
  - intros s Hst. apply elem_of_app. by right.
  - intros s Hst. apply elem_of_app. by right.
  - intros s Hr. destruct (unlisted_or batch lost s (Hmem s Hr)); [left|right]; apply elem_of_app; by left.
  - rewrite zlen_app, listed_length, (g_drops y Hg) by done. lia.
Qed.

Lemma error_good y i batch ans now q' p' : good y -> at_ y = InBatch i batch -> (forall lost, ans <> Accepted lost) ->
  sendBatch i batch ans now (q y) = (q', p') ->
  good (mkSys q' p' (stored y) ((if decide (ans = Status 400) then map seq batch else []) ++ refused y) (evicted y)
          ((if decide (ans = Status 400) then zlen batch else 0) + drops y)).
Proof.
  intros Hg Ha Hans Hsend. assert (Hp := g_place y Hg). rewrite Ha in Hp. destruct ans as [lost|code|]; [by destruct (Hans lost)| |].
  - unfold sendBatch in Hsend. destruct (Z.eqb_spec code 400) as [->|Hne].
    + injection Hsend as <- <-. destruct (decide (Status 400 = Status 400)); [|done].
      destruct (flight_last y batch Hp) as (s0 & Hc & Hs & Hl & Hln & Hmem).
      apply (settle_good y _ _ _ _ _ (last_seq batch)); try done; unfold settle, countDropped; upd; try done.
      * rewrite (g_dropped y Hg), u64_plus. f_equal. lia.
      * intros s Hst. apply elem_of_app. by right.
      * intros s Hr. right. apply elem_of_app. left. by apply Hmem.
      * rewrite zlen_app, (g_drops y Hg). unfold zlen. rewrite length_map. lia.
    + destruct (decide (Status code = Status 400)) as [[=]|_]; [done|]. destruct (code =? 404); injection Hsend as <- <-.
      * apply place_good; unfold disableBatch; upd; done.
      * by apply place_good.
  - injection Hsend as <- <-. destruct (decide (NoStatus = Status 400)); [done|]. by apply place_good.
Qed.

Lemma single_good y i item rest ans q' p' : good y -> at_ y = InSingles i (item :: rest) -> sendSingles i item rest ans (q y) = (q', p') ->
  good (mkSys q' p' ((match ans with Accepted _ => [seq item] | _ => [] end) ++ stored y)
          ((match ans with Accepted _ => [] | _ => match p' with Idle => [] | _ => [seq item] end end) ++ refused y) (evicted y)
          ((match ans with Accepted _ => 0 | _ => match p' with Idle => 0 | _ => 1 end end) + drops y)).
Proof.
  intros Hg Ha Hsend. assert (Hp := g_place y Hg). rewrite Ha in Hp. destruct Hp as (_ & s0 & Hc & Hs & Hn).
  destruct (contig_tail s0 item rest Hc) as [Hi Hr]. rewrite zlen_cons in Hn. assert (Hz := zlen_nonneg rest).
  set (next := match rest with [] => Round (S i) | _ => InSingles i rest end) in *.
  assert (Hnext : forall lo', lo' = Z.max (low y) s0 -> match next with InBatch _ b | InSingles _ b => b <> [] /\ exists s1, contig s1 b /\ 1 <= s1 <= lo' + 1 /\ s1 + zlen b - 1 <= nextSeq (q y) | _ => True end).
  { intros lo' ->. unfold next. destruct rest as [|x rest]; [done|]. split; [done|]. exists (s0 + 1). split_and!; done || lia. }
  assert (Hni : next <> Idle) by (unfold next; by destruct rest).
  destruct ans as [lost|code|]; simpl in Hsend; fold next in Hsend.
  - injection Hsend as <- <-. apply (settle_good y _ _ _ _ _ s0); unfold settle; upd; rewrite ?Hi; try done; try lia.
    + by rewrite (g_dropped y Hg).
    + intros s Hst. apply elem_of_app. by right.
    + intros s Hsr. left. apply elem_of_app. left. apply list_elem_of_singleton. lia.
    + simpl. apply Hg.
  - destruct (_ || _); injection Hsend as <- <-; [by apply place_good|].
    assert (Hc1 : (match next with Idle => [] | _ => [seq item] end) = [seq item]) by (by destruct next).
    assert (Hc2 : (match next with Idle => 0 | _ => 1 end) = 1) by (by destruct next). rewrite Hc1, Hc2.
    apply (settle_good y _ _ _ _ _ s0); unfold settle, countDropped; upd; rewrite ?Hi; try done; try lia.
    + rewrite (g_dropped y Hg), u64_plus. f_equal. lia.
    + intros s Hst. apply elem_of_app. by right.
    + intros s Hsr. right. apply elem_of_app. left. apply list_elem_of_singleton. lia.
    + rewrite zlen_app, (g_drops y Hg). change (zlen [s0]) with 1. lia.
  - injection Hsend as <- <-. by apply place_good.
Qed.

Lemma results_good y : reach y -> good y.
Proof.
  induction 1 as [|y y' _ IH Hstep]; [split; unfold low, zlen; simpl; try done; intros; lia|]. destruct Hstep.
  - by apply push_good.
  - by apply place_good.
  - by apply round_good.
  - by eapply stored_good.
  - by eapply error_good.
  - by eapply single_good.
Qed.

(** No result is lost unseen: whatever the interleaving of pushes, answers and
    failures, the queue holds the newest results, oldest first and at most
    2000; every other result was stored by the server, refused by it or dropped
    for room; and the results the server never stored are at most the drops
    the heartbeat reports. *)
Theorem lost_results_counted y : reach y ->
  let queued s := bool_decide (s ∈ map seq (items (q y))) in
  zlen (items (q y)) <= monitorResultQueueMax /\ contig (nextSeq (q y) - zlen (items (q y)) + 1) (items (q y)) /\
  (forall s, 1 <= s <= nextSeq (q y) -> queued s = true \/ s ∈ stored y \/ s ∈ refused y \/ s ∈ evicted y) /\
  countb (fun s => negb (queued s) && negb (bool_decide (s ∈ stored y))) (seqZ 1 (nextSeq (q y))) <= drops y /\
  dropped (q y) = u64 (drops y).
Proof.
  intros Hr%results_good queued.
  assert (Hall : forall s, 1 <= s <= nextSeq (q y) -> queued s = true \/ s ∈ stored y \/ s ∈ refused y \/ s ∈ evicted y).
  { intros s Hs. destruct (Z.le_gt_cases s (low y)) as [Hle|Hgt]; [right; apply (g_gone y Hr); lia|]. left. apply bool_decide_eq_true.
    apply (contig_mem (low y + 1)); [apply Hr|]. unfold low in *. lia. }
  split; [apply Hr|]. split; [apply Hr|]. split; [done|]. split; [|apply Hr].
  rewrite (g_drops y Hr). rewrite <-zlen_app. unfold countb, zlen. apply Nat2Z.inj_le. apply submseteq_length, NoDup_submseteq.
  - apply NoDup_ListNoDup, List.NoDup_filter, NoDup_ListNoDup, NoDup_seqZ.
  - intros s [Hs Hc]%list_elem_of_In%List.filter_In. apply list_elem_of_In, elem_of_seqZ in Hs. apply andb_prop in Hc as [H1 H2].
    apply negb_true_iff in H1, H2. apply bool_decide_eq_false in H2. destruct (Hall s) as [?|[?|[?|?]]]; [lia|congruence|done| |]; apply elem_of_app; auto.
Qed.

(** ** A flush the server takes *)
Section Taken.
Context (post_batch : list queued -> answer) (post_single : queued -> answer).
Hypothesis batch_taken : (forall b, post_batch b = Accepted []) \/ (forall b, post_batch b = Status 404).
Hypothesis single_taken : forall x, post_single x = Accepted [].

Lemma settle_batch a k (y : queue) : contig a (items y) -> (0 < k)%nat -> items y <> [] ->
  items (settle (last_seq (take k (items y))) y) = drop k (items y).
Proof.
  intros Hc Hk Hne. unfold settle. upd. assert (Hl : zlen (items y) <> 0) by (destruct (items y); [done|rewrite zlen_cons; assert (Hz := zlen_nonneg l); lia]).
  assert (Hz := zlen_nonneg (items y)). rewrite (settled_drop _ _ a Hc), (last_contig a); [|by apply contig_take|].
  - rewrite zlen_take. destruct (Z.le_gt_cases (Z.of_nat k) (zlen (items y))).
    + f_equal. lia.
    + rewrite !drop_ge; [done|unfold zlen in *; lia|unfold zlen in *; lia].
  - intros He. apply (f_equal zlen) in He. rewrite zlen_take in He. change (zlen []) with 0 in He. lia.
Qed.

Lemma singles_taken i batch a (y : queue) k : batch = take k (items y) -> contig a (items y) ->
  exists y', singles post_single i batch y = (y', Round (S i)) /\ items y' = drop k (items y) /\ batchOffUntil y' = batchOffUntil y.
Proof.
  revert a y k. induction batch as [|item rest IH]; intros a y k Hb Hc.
  - exists y. split; [done|]. split; [|done]. destruct (items y), k; done.
  - destruct (items y) as [|x l] eqn:Hit; [by destruct k|]. destruct k as [|k]; [done|]. injection Hb as -> Hb.
    destruct (contig_tail _ _ _ Hc) as [Hx Hl]. simpl singles. rewrite single_taken. simpl sendSingles. set (y1 := settle (seq x) y).
    assert (H1 : items y1 = l).
    { assert (Hs := settle_batch a 1 y ltac:(by rewrite Hit) ltac:(lia) ltac:(by rewrite Hit)). rewrite Hit in Hs. exact Hs. }
    destruct (IH (a + 1) y1 k) as (y' & Hy & Hi & Ho); [by rewrite H1|by rewrite H1|]. exists y'. rewrite H1 in Hi.
    split_and!; [by destruct rest|by rewrite Hi|by rewrite Ho].
Qed.

Lemma flush_from_taken n i now a (y : queue) : (n + i <= monitorResultFlushBatches)%nat -> contig a (items y) ->
  items (flush_from post_batch post_single n i now y) = drop (n * 200) (items y).
Proof.
  revert i a y. induction n as [|n IH]; intros i a y Hi Hc; [done|].
  simpl flush_from. unfold flush_round. rewrite (proj2 (Nat.leb_gt _ _)) by (unfold monitorResultFlushBatches in *; lia).
  assert (Hh : head monitorResultBatchMax y = take 200 (items y)).
  { unfold head, monitorResultBatchMax. assert (Hz := zlen_nonneg (items y)). destruct (Z.ltb_spec (zlen (items y)) 200); [|done].
    unfold zlen in *. rewrite !take_ge by lia. done. }
  rewrite Hh. assert (Hdd : drop (S n * 200) (items y) = drop (n * 200) (drop 200 (items y))) by (rewrite drop_drop; f_equal; lia).
  destruct (items y) as [|x l] eqn:Hit; [simpl; by rewrite Hit|]. rewrite <-Hit in *.
  assert (Hne : items y <> []) by (by rewrite Hit).
  assert (Hnext : forall y', items y' = drop 200 (items y) -> items (flush_from post_batch post_single n (S i) now y') = drop (S n * 200) (items y)).
  { intros y' Hy'. rewrite Hdd, <-Hy'. apply (IH _ (a + 200)); [lia|]. rewrite Hy'. exact (contig_drop a 200 _ Hc). }
  destruct (take 200 (items y)) as [|b0 bs] eqn:Hb; [by rewrite Hit in Hb|]. rewrite <-Hb.
  assert (Hs : forall y1, items y1 = items y -> exists y', singles post_single i (take 200 (items y)) y1 = (y', Round (S i)) /\ items y' = drop 200 (items y)).
  { intros y1 H1. destruct (singles_taken i (take 200 (items y)) a y1 200) as (y' & Hy & Hi' & _); [by rewrite H1|by rewrite H1|]. exists y'. by rewrite Hi', H1. }
  destruct (batchAllowed now y).
  - destruct batch_taken as [Ht|Ht]; rewrite Ht.
    + simpl sendBatch. apply Hnext, (settle_batch a); [done|lia|done].
    + unfold sendBatch. simpl Z.eqb. cbn iota. destruct (Hs (disableBatch now y)) as (y' & -> & Hy'); [done|]. by apply Hnext.
  - destruct (Hs y eq_refl) as (y' & -> & Hy'). by apply Hnext.
Qed.

(** A flush that meets a server taking every result, in batches or, on a
    server without the batch route, one by one, sends the oldest 1000 and
    leaves the rest in order. *)
Theorem flush_clears now y : reach y ->
  items (flush post_batch post_single now (q y)) = drop 1000 (items (q y)).
Proof. intros Hr%results_good. exact (flush_from_taken 5 0 now _ (q y) ltac:(done) (g_items y Hr)). Qed.
End Taken.
End Props.
End ResultsProps.

(** * The result queue on concrete runs *)
From S2P Require Import Prelude.

Local Open Scope Z_scope.

Module ResultsSample.
Import Results ResultsProps.

(** Two results, a batch whose second result the server drops, and a third
    result pushed while the batch was in flight. *)
Definition two : @monitorResultQueue nat := push 12%nat (push 11%nat newMonitorResultQueue).
Definition batch2 : list (@queuedMonitorResult nat) := [mkQueued 1 11%nat; mkQueued 2 12%nat].
Definition three : sys :=
  mkSys (countDropped 1 (settle 2 (push 13%nat two))) (Round 1) [1] [2] [] 1.

Lemma three_reached : reach three.
Proof.
  assert (H1 : reach (mkSys two Idle [] [] [] 0)).
  { eapply reach_step; [eapply reach_step; [apply reach_first|exact (step_push first 11%nat eq_refl)]|].
    exact (step_push (mkSys (push 11%nat newMonitorResultQueue) Idle [] [] [] 0) 12%nat eq_refl). }
  assert (H2 : reach (mkSys two (Round 0) [] [] [] 0)) by (eapply reach_step; [exact H1|exact (step_start (mkSys two Idle [] [] [] 0) eq_refl)]).
  assert (H3 : reach (mkSys two (InBatch 0 batch2) [] [] [] 0)) by (eapply reach_step; [exact H2|exact (step_round (mkSys two (Round 0) [] [] [] 0) 0 0 eq_refl)]).
  assert (H4 : reach (mkSys (push 13%nat two) (InBatch 0 batch2) [] [] [] 0)) by (eapply reach_step; [exact H3|exact (step_push (mkSys two (InBatch 0 batch2) [] [] [] 0) 13%nat eq_refl)]).
  eapply reach_step; [exact H4|].
  refine (step_stored (mkSys (push 13%nat two) (InBatch 0 batch2) [] [] [] 0) 0 batch2 [1] 0 _ _ eq_refl _ eq_refl).
  intros k Hk. apply list_elem_of_singleton in Hk as ->. done.
Qed.

Lemma lost_results_counted_witness :
  zlen (items (q three)) <= monitorResultQueueMax /\ map seq (items (q three)) = [3] /\ dropped (q three) = u64 (drops three).
Proof.
  destruct (lost_results_counted three three_reached) as (H1 & _ & _ & _ & H5). split; [exact H1|]. split; [reflexivity|exact H5].
Defined.

Lemma flush_clears_witness :
  items (flush (fun _ => Status 404) (fun _ => Accepted []) 0 (q three)) = [].
Proof. exact (flush_clears (fun _ => Status 404) (fun _ => Accepted []) (or_intror (fun _ => eq_refl)) (fun _ => eq_refl) 0 three three_reached). Defined.

(** A full queue, its oldest 200 results being sent, and one push meanwhile:
    the push drops result 1 for room, and then the server stores it. *)
Definition full : @monitorResultQueue nat := fold_left (fun q i => push i q) (List.seq 1 2000) newMonitorResultQueue.
(** A result that overflow removes while it is being sent is counted as dropped
    even when the server then stores it: here every one of 2001 results is
    stored or still queued, and one drop is counted. *)
Theorem stored_result_counted_dropped :
  let batch := head monitorResultBatchMax full in
  let q' := (sendBatch 0 batch (Accepted []) 0 (push 2001%nat full)).1 in
  map seq batch ++ map seq (items q') = seqZ 1 2001 /\ dropped q' = 1.
Proof. split; vm_compute; reflexivity. Qed.
End ResultsSample.
