(* ===== verification/LogPolicy.v ===== *)
(** * The log tail veto (cmd/lattice-agent/logtail_policy.go)

    Which files the node tails.  What the operating system answers to each call
    is an argument of the definition that makes it, so two calls on the same
    name may see different files. *)
From S2P Require Import Prelude GoStrings GoPath.
From Stdlib Require Import Ascii.

Local Open Scope string_scope.

Module LogPolicy.

Definition defaultLogPathAllow : string := "/var/log/".
Definition defaultLogPathDeny : list string :=
  ["auth.log*"; "secure*"; "btmp*"; "wtmp*"; "lastlog"; "faillog"; "tallylog"; "sudo.log*";
   "cloud-init*"; "audit/"; "sudo-io/"; "installer/"; "anaconda/"; "private/"].

Definition logRefusedOutside : string :=
  "outside this node's log allowlist; widen it with LATTICE_LOG_PATH_ALLOW on the node".
Definition logRefusedSensitive : string :=
  "a credential or audit log this node's default leaves out; allow it by listing the file in LATTICE_LOG_PATH_ALLOW on the node".
Definition logRefusedNotRegular : string := "not a regular file".
Definition logRefusedOff : string := "log tailing is turned off on this node (LATTICE_NO_LOG_TAIL)".

(** An error: the node's refusal with its reason, or the system's. *)
Inductive lerr := Refused (reason : string) | ErrNotExist | ELOOP | OtherError (text : string).
#[export] Instance lerr_eq_dec : EqDecision lerr.
Proof. solve_decision. Defined.

Record logPathPolicy := mkPolicy { allow : list string; base : list string }.

Definition deniedByDefault (rel : string) : bool :=
  let rel := lower rel in
  existsb (fun entry =>
    if has_suffix entry "/" then has_prefix rel entry
    else if has_suffix entry "*" then negb (contains rel "/") && has_prefix rel (trim_suffix entry "*")
    else String.eqb rel entry) defaultLogPathDeny.

Definition listed (p : logPathPolicy) (path within : string) : bool :=
  existsb (fun entry =>
    if String.eqb entry within || negb (has_prefix entry within) then false
    else has_prefix path entry || String.eqb path (trim_suffix entry "/")) (allow p).

Fixpoint judge_bases (p : logPathPolicy) (path : string) (bases : list string) : option string :=
  match bases with
  | [] => None
  | b :: bases =>
      match cut_prefix path b with
      | Some rel => Some (if deniedByDefault rel && negb (listed p path b) then logRefusedSensitive else "")
      | None => judge_bases p path bases
      end
  end.
Definition judge (p : logPathPolicy) (path : string) : string :=
  match judge_bases p path (base p) with
  | Some reason => reason
  | None => if listed p path "" then "" else logRefusedOutside
  end.

Section Os.
(** What the system answers: the path with its links resolved, whether a name
    is a regular file, an opened file, whether that is regular, and the name
    /proc has for it, if it has one. *)
Context {file : Type}.
Context (EvalSymlinks : string -> lerr + string) (Stat : string -> lerr + bool)
        (OpenFile : string -> lerr + file) (FileStat : file -> lerr + bool) (Readlink : file -> option string).

Definition add_form (l : list string) (form : string) : list string :=
  let form := if has_suffix form "/" then form else form +:+ "/" in
  if bool_decide (form ∈ l) then l else app l [form].
Definition appendLogPrefix (l : list string) (prefix : string) : list string :=
  let prefix := trim_space prefix in
  if negb (path_abs prefix) then l
  else
    let prefix := path_clean prefix in
    let forms := prefix :: match EvalSymlinks prefix with inr resolved => [resolved] | inl _ => [] end in
    fold_left add_form forms l.
Definition newLogPathPolicyFrom (base extra : string) : logPathPolicy :=
  mkPolicy (fold_left appendLogPrefix (split_byte "," "" extra) []) (appendLogPrefix [] base).
Definition newLogPathPolicy (extra : string) : logPathPolicy := newLogPathPolicyFrom defaultLogPathAllow extra.

Definition control (c : ascii) : bool := ((byte_val c <? 32) || (byte_val c =? 127))%Z.

Definition resolve (p : logPathPolicy) (path : string) : lerr + string :=
  if negb (path_abs path) || str_exists control path then inl (Refused logRefusedOutside)
  else
    let reason := judge p (path_clean path) in
    if negb (String.eqb reason "") then inl (Refused reason)
    else
      match EvalSymlinks path with
      | inl ErrNotExist => inr ""
      | inl err => inl err
      | inr resolved =>
          let reason := judge p resolved in
          if negb (String.eqb reason "") then inl (Refused reason) else inr resolved
      end.

Definition check (p : logPathPolicy) (path : string) : option lerr :=
  match resolve p path with
  | inl err => Some err
  | inr resolved =>
      if String.eqb resolved "" then None
      else
        match Stat resolved with
        | inl ErrNotExist => None
        | inl err => Some err
        | inr regular => if negb regular then Some (Refused logRefusedNotRegular) else None
        end
  end.

Definition open (p : logPathPolicy) (path : string) : lerr + file :=
  match resolve p path with
  | inl err => inl err
  | inr resolved =>
      if String.eqb resolved "" then inl ErrNotExist
      else
        match OpenFile resolved with
        | inl ELOOP => inl (Refused logRefusedOutside)
        | inl err => inl err
        | inr f =>
            match FileStat f with
            | inl err => inl err
            | inr regular =>
                if negb regular then inl (Refused logRefusedNotRegular)
                else
                  match Readlink f with
                  | Some opened =>
                      let reason := judge p opened in
                      if negb (String.eqb reason "") then inl (Refused reason) else inr f
                  | None => inr f
                  end
            end
        end
  end.
End Os.
End LogPolicy.

(** * What the log tail veto promises *)
From S2P Require Import Prelude GoStrings GoPath.
From Stdlib Require Import Ascii.

Local Open Scope string_scope.

Module LogPolicyProps.
Import LogPolicy.

(** ** What the default leaves out, by the first component of the name *)
Definition sensitive_dirs : list string := ["audit"; "sudo-io"; "installer"; "anaconda"; "private"].
Definition sensitive_files : list string := ["lastlog"; "faillog"; "tallylog"].
Definition sensitive_stems : list string := ["auth.log"; "secure"; "btmp"; "wtmp"; "sudo.log"; "cloud-init"].
Definition sensitive (rel : string) : bool :=
  match cut (lower rel) "/" with
  | Some (dir, _) => bool_decide (dir ∈ sensitive_dirs)
  | None => bool_decide (lower rel ∈ sensitive_files) || existsb (has_prefix (lower rel)) sensitive_stems
  end.

Lemma mem_eqb (s : string) (l : list string) : bool_decide (s ∈ l) = existsb (String.eqb s) l.
Proof.
  apply eq_true_iff_eq. rewrite bool_decide_eq_true, existsb_exists. split.
  - intros Hs. exists s. split; [by apply list_elem_of_In|apply String.eqb_refl].
  - intros (x & Hx & ->%String.eqb_eq). by apply list_elem_of_In.
Qed.

Lemma denied_sensitive rel : deniedByDefault rel = sensitive rel.
Proof.
  unfold deniedByDefault, sensitive. set (s := lower rel). unfold defaultLogPathDeny. simpl existsb. rewrite !mem_eqb. simpl existsb.
  destruct (cut_byte s "/") as [[Hn Hc]|(a & b & Ha & Hs & Hc)]; rewrite Hc.
  - assert (Hd : forall d, has_prefix s (d +:+ "/") = false) by (intros; by apply no_part_prefix).
    rewrite (proj2 (contains_byte s "/") Hn). simpl negb. rewrite !andb_true_l.
    change "audit/" with ("audit" +:+ "/"). change "sudo-io/" with ("sudo-io" +:+ "/"). change "installer/" with ("installer" +:+ "/").
    change "anaconda/" with ("anaconda" +:+ "/"). change "private/" with ("private" +:+ "/"). rewrite !Hd. simpl.
    generalize (s =? "lastlog") (s =? "faillog") (s =? "tallylog"). intros [] [] []; rewrite ?orb_true_r, ?orb_true_l, ?orb_false_r; try done.
  - assert (Hd : forall d, no_byte "/" d = true -> has_prefix s (d +:+ "/") = String.eqb a d) by (intros; rewrite Hs; by apply part_prefix).
    assert (Hcs : contains s "/" = true).
    { destruct (contains s "/") eqn:E; [done|]. apply contains_byte in E. rewrite Hs, no_byte_app in E. apply andb_prop in E as [_ E]. by apply no_byte_cons in E as [? _]. }
    assert (Hne : forall f, no_byte "/" f = true -> String.eqb s f = false).
    { intros f Hf. apply String.eqb_neq. intros E. rewrite <-E in Hf. apply contains_byte in Hf. congruence. }
    rewrite Hcs. simpl negb. rewrite !andb_false_l, !orb_false_l.
    rewrite (Hne "lastlog" eq_refl), (Hne "faillog" eq_refl), (Hne "tallylog" eq_refl), !orb_false_l, mem_eqb.
    exact (f_equal2 orb (Hd "audit" eq_refl) (f_equal2 orb (Hd "sudo-io" eq_refl) (f_equal2 orb (Hd "installer" eq_refl)
      (f_equal2 orb (Hd "anaconda" eq_refl) (f_equal2 orb (Hd "private" eq_refl) eq_refl))))).
Qed.

(** ** What the node may tail *)

(** An entry names a file, or a directory that holds it. *)
Definition covers (entry name : string) : Prop := has_prefix name entry = true \/ name = trim_suffix entry "/".
(** An entry strictly inside a directory. *)
Definition inside (dir entry : string) : Prop := entry <> dir /\ has_prefix entry dir = true.
(** The built-in directory a name is in. *)
Definition home (p : logPathPolicy) (name : string) : option string := find (has_prefix name) (base p).

(** In the built-in directory: all but the sensitive logs, unless the node
    lists the log or a directory of it inside that one.  Elsewhere: what the
    node lists. *)
Definition allowed (p : logPathPolicy) (name : string) : Prop :=
  match home p name with
  | Some dir => sensitive (str_drop (String.length dir) name) = false \/ exists e, e ∈ allow p /\ inside dir e /\ covers e name
  | None => exists e, e ∈ allow p /\ e <> "" /\ covers e name
  end.

Lemma listed_spec p name dir : listed p name dir = true <-> exists e, e ∈ allow p /\ inside dir e /\ covers e name.
Proof.
  unfold listed. rewrite existsb_exists. split.
  - intros (e & He & Hc). exists e. destruct (String.eqb_spec e dir); [done|]. destruct (has_prefix e dir) eqn:Hp; [|done]. simpl in Hc.
    split; [by apply list_elem_of_In|]. split; [done|]. apply orb_prop in Hc as [Hc|Hc%String.eqb_eq]; [by left|by right].
  - intros (e & He & [Hne Hp] & Hc). exists e. split; [by apply list_elem_of_In|]. rewrite (proj2 (String.eqb_neq _ _) Hne), Hp. simpl.
    destruct Hc as [->| ->]; [done|]. by rewrite String.eqb_refl, orb_true_r.
Qed.
Lemma judge_bases_home p name bases : judge_bases p name bases =
  match find (has_prefix name) bases with
  | Some b => Some (if sensitive (str_drop (String.length b) name) && negb (listed p name b) then logRefusedSensitive else "")
  | None => None
  end.
Proof.
  induction bases as [|b bases IH]; [done|]. simpl. unfold cut_prefix. destruct (has_prefix name b); [by rewrite denied_sensitive|done].
Qed.
Lemma judge_allowed p name : judge p name = "" <-> allowed p name.
Proof.
  unfold judge, allowed, home. rewrite judge_bases_home. destruct (find _ _) as [b|].
  - rewrite <-listed_spec. destruct (sensitive _), (listed p name b); simpl; split; intros H; try done; auto; by destruct H.
  - assert (Hl := listed_spec p name ""). destruct (listed p name ""); split; intros H; try done.
    + destruct (proj1 Hl eq_refl) as (e & He & [Hne _] & Hc). by exists e.
    + destruct H as (e & He & Hne & Hc). destruct Hl as [_ Hl]. discriminate Hl. exists e. split_and!; [done|split; [done|apply has_prefix_empty]|done].
Qed.

(** The reason is the right one of two. *)
Lemma judge_reason p name : judge p name = "" \/ judge p name = logRefusedSensitive \/ judge p name = logRefusedOutside.
Proof.
  unfold judge. rewrite judge_bases_home. destruct (find _ _); [destruct (_ && _); auto|destruct (listed _ _ _); auto].
Qed.

Section Os.
Context {file : Type}.
Context (EvalSymlinks : string -> lerr + string) (Stat : string -> lerr + bool)
        (OpenFile : string -> lerr + file) (FileStat : file -> lerr + bool) (Readlink : file -> option string).

Lemma resolve_allowed p path r : resolve EvalSymlinks p path = inr r -> r <> "" ->
  path_abs path = true /\ str_exists control path = false /\ allowed p (path_clean path) /\ EvalSymlinks path = inr r /\ allowed p r.
Proof.
  unfold resolve. destruct (path_abs path), (str_exists control path); simpl; try done.
  destruct (String.eqb_spec (judge p (path_clean path)) "") as [Hj|]; simpl; [|done].
  destruct (EvalSymlinks path) as [[]|r'] eqn:He; try done; [by intros [= <-]|].
  destruct (String.eqb_spec (judge p r') "") as [Hr|]; simpl; [|done]. intros [= ->] _. rewrite !judge_allowed in *. done.
Qed.

(** C19: The node reads only what its own policy allows, whatever the server names
    and however the file system changes between the calls of one open: a file
    the tailer gets is regular; the name the server gave, absolute and without
    control characters, is allowed as written; so is the name its links led
    to, which is the one opened; and so is the name /proc has for the open
    file, where it has one. *)
Theorem open_confined p path f :
  open EvalSymlinks OpenFile FileStat Readlink p path = inr f ->
  exists resolved,
    path_abs path = true /\ str_exists control path = false /\ allowed p (path_clean path) /\
    EvalSymlinks path = inr resolved /\ allowed p resolved /\ OpenFile resolved = inr f /\
    FileStat f = inr true /\ (forall opened, Readlink f = Some opened -> allowed p opened).
Proof.
  unfold open. destruct (resolve _ p path) as [|r] eqn:Hr; [done|]. destruct (String.eqb_spec r "") as [|Hne]; [done|].
  destruct (resolve_allowed p path r Hr Hne) as (H1 & H2 & H3 & H4 & H5).
  destruct (OpenFile r) as [[]|g] eqn:Ho; try done. destruct (FileStat g) as [|[]] eqn:Hs; try done. simpl.
  destruct (Readlink g) as [opened|] eqn:Hl.
  - destruct (String.eqb_spec (judge p opened) "") as [Hj%judge_allowed|]; [|done]. intros [= <-]. exists r.
    split_and!; try done. intros o. rewrite Hl. by intros [= <-].
  - intros [= <-]. exists r. split_and!; try done. intros o. by rewrite Hl.
Qed.


(** The entries a policy is built with are directories by their spelling. *)
Lemma append_slashed l prefix : Forall (fun e => has_suffix e "/" = true) l ->
  Forall (fun e => has_suffix e "/" = true) (appendLogPrefix EvalSymlinks l prefix).
Proof.
  intros Hl. unfold appendLogPrefix. destruct (negb _); [done|].
  set (forms := path_clean (trim_space prefix) :: _). clearbody forms. revert l Hl. induction forms as [|form forms IH]; intros l Hl; [done|].
  apply IH. unfold add_form. destruct (has_suffix form "/") eqn:Hs; destruct (bool_decide _); try done; apply Forall_app; split; try done; constructor; try done.
  apply has_suffix_app.
Qed.
Lemma policy_slashed b extra : let p := newLogPathPolicyFrom EvalSymlinks b extra in
  Forall (fun e => has_suffix e "/" = true) (allow p) /\ Forall (fun e => has_suffix e "/" = true) (base p).
Proof.
  split; [|by apply append_slashed]. simpl. assert (Hn : Forall (fun e => has_suffix e "/" = true) []) by done. revert Hn.
  generalize (@nil string) as l. induction (split_byte "," "" extra) as [|x xs IH]; intros l Hl; [done|]. by apply IH, append_slashed.
Qed.
End Os.

(** Listing an entry allows exactly what it names: the files it covers, and of
    those in the built-in directory only the ones it names from inside that
    directory, so listing the directory itself or a parent of it leaves the
    sensitive logs out. *)
Theorem listing_adds_exactly p e name :
  judge (mkPolicy (allow p ++ [e]) (base p)) name = "" <->
  judge p name = "" \/ (covers e name /\ match home p name with Some dir => inside dir e | None => e <> "" end).
Proof.
  rewrite !judge_allowed. unfold allowed, home. simpl base. destruct (find _ _) as [dir|].
  - setoid_rewrite elem_of_app. setoid_rewrite list_elem_of_singleton. split.
    + intros [?|(x & [Hx| ->] & Hi & Hc)]; eauto 7.
    + intros [[?|(x & Hx & Hi & Hc)]|[Hc Hi]]; eauto 7.
  - setoid_rewrite elem_of_app. setoid_rewrite list_elem_of_singleton. split.
    + intros (x & [Hx| ->] & Hi & Hc); eauto 7.
    + intros [(x & Hx & Hi & Hc)|[Hc Hi]]; eauto 7.
Qed.
End LogPolicyProps.
