(* ===== verification/LogTail.v ===== *)
(** * The log tailer (internal/logtail/logtail.go)

    A file is an inode; what the system answers to the calls of one [Poll] is
    its argument, so the file may change between two calls of it. *)
From S2P Require Import Prelude GoStrings LogPolicy.
From Stdlib Require Import Ascii.

Local Open Scope Z_scope.

Module Tail.
Import LogPolicy.

Definition defaultMaxLineBytes : Z := 16384.
Definition defaultMaxReadBytes : Z := Z.shiftl 1 20.
Definition newline : ascii := "010".
Definition return_ : ascii := "013".

Record Tailer := mkTailer {
  maxLineBytes : Z;
  maxReadBytes : Z;
  file : option nat;
  info : nat;
  offset : Z;
  incarnation : Z;
  started : bool;
  resumed : bool
}.
#[export] Instance Tailer_eta : Etable Tailer := fun t =>
  mkTailer (maxLineBytes t) (maxReadBytes t) (file t) (info t) (offset t) (incarnation t) (started t) (resumed t).

(** What the system answers: [open] the path and the opened file's size, the
    seeks, the open file's size in [Poll], a read at an offset for a number of
    bytes, and which file the path names afterwards. *)
Record answers := mkAnswers {
  a_open : lerr + nat;
  a_open_size : lerr + Z;
  a_seek : Z -> option lerr;
  a_size : lerr + Z;
  a_seek0 : option lerr;
  a_read : Z -> Z -> lerr + string;
  a_path : option nat
}.

Definition New (maxLine : Z) : Tailer :=
  mkTailer (if maxLine <=? 0 then defaultMaxLineBytes else maxLine) defaultMaxReadBytes None 0 0 0 false false.

Definition Resume (off : Z) (inc : Z) (t : Tailer) : Tailer :=
  let off := if max_i64 <? off then 0 else off in
  t <| offset := off |> <| incarnation := inc |> <| resumed := true |> <| started := true |>.

Definition Offset (t : Tailer) : Z := u64 (offset t).
Definition RotID (t : Tailer) : string := itoa (incarnation t).
Definition Incarnation (t : Tailer) : Z := incarnation t.
Definition Close (t : Tailer) : Tailer := t <| file := None |>.

Definition ensureOpen (w : answers) (t : Tailer) : Tailer * option lerr :=
  match file t with
  | Some _ => (t, None)
  | None =>
      match a_open w with
      | inl err => (t, Some err)
      | inr f =>
          match a_open_size w with
          | inl err => (t, Some err)
          | inr size =>
              let t := if negb (started t) then t <| offset := size |> <| started := true |> else t in
              let t := if size <? offset t then t <| offset := 0 |> else t in
              match a_seek w (offset t) with
              | Some err => (t, Some err)
              | None => (t <| file := Some f |> <| info := f |>, None)
              end
          end
      end
  end.

Definition truncate (t : Tailer) (b : string) : string :=
  if maxLineBytes t <? Z.of_nat (String.length b) then str_take (Z.to_nat (maxLineBytes t)) b else b.

Definition readLines (w : answers) (size : Z) (t : Tailer) : Tailer * (lerr + list string) :=
  let avail := size - offset t in
  if avail <=? 0 then (t, inr [])
  else
    let avail := if maxReadBytes t <? avail then maxReadBytes t else avail in
    match a_read w (offset t) avail with
    | inl err => (t, inl err)
    | inr buf =>
        let n := Z.of_nat (String.length buf) in
        if n =? 0 then (t, inr [])
        else
          match last_index_of buf (String newline "") with
          | None =>
              if maxReadBytes t <=? n then (t <| offset ::= fun o => o + n |>, inr [truncate t buf])
              else (t, inr [])
          | Some lastNL =>
              let consumed := str_take (lastNL + 1) buf in
              let raw := split_byte newline "" (str_take (String.length consumed - 1) consumed) in
              (t <| offset ::= fun o => o + Z.of_nat (String.length consumed) |>,
               inr (map (fun line => truncate t (trim_suffix line (String return_ ""))) raw))
          end
    end.

Definition Poll (w : answers) (t : Tailer) : Tailer * (lerr + list string) :=
  match ensureOpen w t with
  | (t, Some err) => (t, inl err)
  | (t, None) =>
      match a_size w with
      | inl err => (t, inl err)
      | inr size =>
          let shrunk := size <? offset t in
          let t := if shrunk then t <| offset := 0 |> <| incarnation ::= fun n => i64 (n + 1) |> else t in
          match (if shrunk then a_seek0 w else None) with
          | Some err => (t, inl err)
          | None =>
              match readLines w size t with
              | (t, inl err) => (t, inl err)
              | (t, inr lines) =>
                  let t := match a_path w with
                           | Some f => if bool_decide (f = info t) then t
                                       else t <| file := None |> <| offset := 0 |> <| incarnation ::= fun n => i64 (n + 1) |>
                           | None => t
                           end in
                  (t, inr lines)
              end
          end
      end
  end.

(** ** The checkpoint text *)
Definition CheckpointString (off inc : Z) : string := (utoa off +:+ ":" +:+ itoa inc)%string.

(** fmt.Sscanf's %d: spaces are skipped, a new line is an error, a sign is read
    for a signed number only, and the longest run of digits must be a number in
    range. *)
Fixpoint skip_space (fuel : nat) (s : string) : option string :=
  match fuel with
  | O => Some s
  | S fuel =>
      if has_prefix s (String newline "") then None
      else match strip_left s with Some s => skip_space fuel s | None => Some s end
  end.
Fixpoint scan_digits (s : string) : string * string :=
  match s with
  | String c t => if is_digit c then let '(d, r) := scan_digits t in (String c d, r) else (""%string, s)
  | EmptyString => (""%string, ""%string)
  end.
Definition scan_uint (s : string) : option (Z * string) :=
  s ← skip_space (String.length s) s;
  let '(d, r) := scan_digits s in
  n ← parse_uint 64 d; Some (n, r).
Definition scan_int (s : string) : option (Z * string) :=
  s ← skip_space (String.length s) s;
  let '(sign, s) := match s with
                    | String c t => if bool_decide (c = "+"%char) || bool_decide (c = "-"%char) then (String c "", t) else (""%string, s)
                    | EmptyString => (""%string, s)
                    end in
  let '(d, r) := scan_digits s in
  n ← (if String.eqb d "" then None else parse_int (sign +:+ d)%string); Some (n, r).

Definition ParseCheckpoint (s : string) : option (Z * Z) :=
  '(off, s) ← scan_uint s;
  s ← cut_prefix s ":";
  '(inc, _) ← scan_int s;
  Some (off, inc).
End Tail.

(** * What the tailer promises

    A file that is only appended to, and the answers of a system that reads it
    truly: every complete line is delivered once and in order, across polls,
    failures and restarts from the checkpoint. *)
From S2P Require Import Prelude GoStrings LogPolicy.
From Stdlib Require Import Ascii.

Local Open Scope Z_scope.

(** ** Lines *)
Fixpoint unlines (l : list string) : string :=
  match l with [] => ""%string | x :: l => (x +:+ String Tail.newline (unlines l))%string end.
Definition textlen (s : string) : Z := Z.of_nat (String.length s).

Lemma textlen_nonneg s : 0 <= textlen s.
Proof. unfold textlen. lia. Qed.
Lemma textlen_app a b : textlen (a +:+ b)%string = textlen a + textlen b.
Proof. unfold textlen. rewrite string_app_length. lia. Qed.
Lemma unlines_app a b : unlines (a ++ b) = (unlines a +:+ unlines b)%string.
Proof. induction a as [|x a IH]; [done|]. simpl. rewrite IH. by rewrite string_app_assoc, app_cons. Qed.

Lemma split_unlines a : unlines (split_byte Tail.newline "" a) = (a +:+ String Tail.newline "")%string /\
  Forall (fun x => no_byte Tail.newline x = true) (split_byte Tail.newline "" a).
Proof.
  remember (String.length a) as n eqn:Hn. revert a Hn. induction (lt_wf n) as [n _ IH]; intros a ->.
  destruct (first_byte a Tail.newline) as [Ha|(x & y & Hx & ->)].
  - rewrite split_one by done. simpl. rewrite app_empty. auto.
  - rewrite split_first by done. rewrite app_empty. destruct (IH (String.length y)) with (a := y) as [H1 H2]; [rewrite string_app_length; simpl; lia|done|].
    split; [|by constructor]. simpl. by rewrite H1, string_app_assoc, app_cons.
Qed.
Module TailProps.
Import LogPolicy Tail.

Definition cook (t : Tailer) (line : string) : string := truncate t (trim_suffix line (String return_ "")).
(** Reads return the file's bytes. *)
Definition sees (w : answers) (c : string) : Prop :=
  forall o n, 0 <= o -> 0 <= n -> a_read w o n = inr (str_take (Z.to_nat n) (str_drop (Z.to_nat o) c)).
(** No line, nor the unfinished end, fills a whole read. *)
Definition short_lines (m : Z) (c : string) : Prop :=
  forall a x b, c = (a +:+ x +:+ b)%string -> no_byte newline x = true -> textlen x < m.
(** What has been read from one position to another is these lines. *)
Definition read_as (c : string) (o o' : Z) (raw : list string) : Prop :=
  Forall (fun x => no_byte newline x = true) raw /\ o' = o + textlen (unlines raw) /\
  str_drop (Z.to_nat o) c = (unlines raw +:+ str_drop (Z.to_nat o') c)%string.

Lemma read_as_nil c o : read_as c o o [].
Proof. split; [done|]. split; [unfold textlen; simpl; lia|done]. Qed.
Lemma read_as_app c o o1 o2 r1 r2 : read_as c o o1 r1 -> read_as c o1 o2 r2 -> read_as c o o2 (r1 ++ r2).
Proof.
  intros (F1 & E1 & H1) (F2 & E2 & H2). split; [by apply Forall_app|]. split; [rewrite unlines_app, textlen_app; lia|].
  by rewrite H1, H2, unlines_app, string_app_assoc.
Qed.
Lemma read_as_grow c g o o' raw : 0 <= o -> o' <= textlen c -> read_as c o o' raw -> read_as (c +:+ g)%string o o' raw.
Proof.
  intros Ho Hc (F & E & H). assert (Hn := textlen_nonneg (unlines raw)). split; [done|]. split; [done|]. unfold textlen in *.
  rewrite !str_drop_prefix by lia. by rewrite H, string_app_assoc.
Qed.

Lemma readLines_spec w c size t : sees w c -> 0 <= offset t -> 0 < maxReadBytes t -> short_lines (maxReadBytes t) c -> size <= textlen c ->
  exists raw o', readLines w size t = (t <| offset := o' |>, inr (map (cook t) raw)) /\ read_as c (offset t) o' raw /\
    o' <= Z.max (offset t) size /\
    (size - offset t <= maxReadBytes t -> no_byte newline (str_take (Z.to_nat (size - o')) (str_drop (Z.to_nat o') c)) = true) /\
    (size - offset t > maxReadBytes t -> offset t < o').
Proof.
  intros Hw Ho Hm Hs Hsize. unfold readLines. destruct (Z.leb_spec (size - offset t) 0) as [Hle|Hgt].
  - exists [], (offset t). destruct t; simpl in *. split_and!; try done; [apply read_as_nil|lia| |lia]. intros _. by replace (Z.to_nat (size - offset0)) with 0%nat by lia.
  - set (avail := if maxReadBytes t <? size - offset t then _ else _).
    assert (Hav : avail = Z.min (maxReadBytes t) (size - offset t)) by (unfold avail; destruct (Z.ltb_spec (maxReadBytes t) (size - offset t)); lia).
    rewrite Hw by lia. set (rest := str_drop (Z.to_nat (offset t)) c). set (buf := str_take (Z.to_nat avail) rest).
    assert (Hrl : textlen rest = textlen c - offset t) by (unfold rest, textlen in *; rewrite str_drop_len; lia).
    assert (Hbl : textlen buf = avail) by (unfold buf, textlen in *; rewrite str_take_len; lia).
    assert (Hrest : rest = (buf +:+ str_drop (Z.to_nat avail) rest)%string) by (symmetry; apply str_take_drop).
    assert (Hc : c = (str_take (Z.to_nat (offset t)) c +:+ buf +:+ str_drop (Z.to_nat avail) rest)%string) by (rewrite <-Hrest; symmetry; apply str_take_drop).
    fold (textlen buf). rewrite Hbl. destruct (Z.eqb_spec avail 0); [lia|].
    destruct (last_index_of buf (String newline "")) as [i|] eqn:Hi.
    + destruct (last_index_parts _ _ _ Hi) as (a & b & Hb & Ha & Hnb).
      assert (Hcons : str_take (i + 1) buf = (a +:+ String newline "")%string).
      { rewrite Hb. change (String newline b) with (String newline "" +:+ b)%string. rewrite <-string_app_assoc.
        replace (i + 1)%nat with (String.length (a +:+ String newline "")) by (rewrite string_app_length; simpl; lia). apply str_take_app. }
      rewrite Hcons. replace (String.length (a +:+ String newline "") - 1)%nat with (String.length a) by (rewrite string_app_length; simpl; lia).
      rewrite str_take_app. destruct (split_unlines a) as [Hu Hf]. set (raw := split_byte newline "" a) in *.
      assert (Hlen : textlen (unlines raw) = textlen a + 1) by (rewrite Hu, textlen_app; done).
      exists raw, (offset t + textlen (unlines raw)). rewrite <-Hu.
      assert (Hread : read_as c (offset t) (offset t + textlen (unlines raw)) raw).
      { split; [done|]. split; [done|]. fold rest. replace (Z.to_nat (offset t + textlen (unlines raw))) with (Z.to_nat (offset t) + String.length (unlines raw))%nat by (unfold textlen; lia).
        rewrite str_drop_add. fold rest. rewrite Hrest, Hb, Hu. change (String newline b) with (String newline "" +:+ b)%string.
        rewrite <-!string_app_assoc, string_app_assoc, str_drop_app. by rewrite !string_app_assoc. }
      assert (Hba : textlen buf = textlen a + 1 + textlen b) by (rewrite Hb, textlen_app; unfold textlen; simpl; lia).
      assert (Hb0 := textlen_nonneg b). assert (Ha0 := textlen_nonneg a).
      split_and!; [by destruct t|done|lia| |lia]. intros Hsm.
      destruct Hread as (_ & _ & Hd). fold rest in Hd. rewrite Hrest, Hb in Hd. change (String newline b) with (String newline "" +:+ b)%string in Hd.
      rewrite <-string_app_assoc, <-Hu, string_app_assoc in Hd. apply (f_equal (str_drop (String.length (unlines raw)))) in Hd. rewrite !str_drop_app in Hd.
      rewrite <-Hd, str_take_prefix by (unfold textlen in *; lia). rewrite str_take_all by (unfold textlen in *; lia). done.
    + apply last_index_none in Hi. assert (Hsh := Hs _ _ _ Hc Hi). rewrite (proj2 (Z.leb_gt _ _)) by lia.
      exists [], (offset t). destruct t; simpl in *. split_and!; try done; [apply read_as_nil|lia| |lia]. intros Hsm.
      fold rest. rewrite Hrest. rewrite str_take_prefix by (unfold textlen in *; lia). rewrite str_take_all by (unfold textlen in *; lia). done.
Qed.

(** ** Following one file that only grows *)
Section Follow.
(** The source's line bound and the file. *)
Context (m : Z) (f : nat).

(** The answers of a poll that begins with the file at [c] and ends with it at
    [c'], any call failing. *)
Definition honest (w : answers) (c c' : string) : Prop :=
  exists g1 g2 g3, c' = (c +:+ g1 +:+ g2 +:+ g3)%string /\
    (forall x, a_open w = inr x -> x = f) /\
    (forall n, a_open_size w = inr n -> n = textlen (c +:+ g1)) /\
    (forall n, a_size w = inr n -> n = textlen (c +:+ g1 +:+ g2)) /\
    (sees w c' \/ forall o n, exists e, a_read w o n = inl e) /\
    (forall x, a_path w = Some x -> x = f).

(** A tailer of this source with a position in the file. *)
Record ok (c : string) (t : Tailer) : Prop := {
  ok_line : maxLineBytes t = maxLineBytes (New m);
  ok_read : maxReadBytes t = defaultMaxReadBytes;
  ok_started : started t = true;
  ok_offset : 0 <= offset t <= textlen c;
  ok_file : match file t with Some x => x = f /\ info t = f | None => True end
}.

Definition lines_of (r : lerr + list string) : list string := match r with inr l => l | inl _ => [] end.
Definition restarted (t : Tailer) : Tailer := Resume (Offset t) (Incarnation t) (New m).

(** Polls, and restarts from the checkpoint. *)
Inductive follow (t0 : Tailer) (c0 : string) : Tailer -> string -> list string -> Prop :=
  | follow_start : follow t0 c0 t0 c0 []
  | follow_poll t c out w c' t' r : follow t0 c0 t c out -> honest w c c' -> Poll w t = (t', r) ->
      follow t0 c0 t' c' (out ++ lines_of r)
  | follow_restart t c out : follow t0 c0 t c out -> follow t0 c0 (restarted t) c out.

Lemma cook_eq t l : maxLineBytes t = maxLineBytes (New m) -> cook t l = cook (New m) l.
Proof. intros H. unfold cook, truncate. by rewrite H. Qed.
Lemma short_grow n c g : short_lines n (c +:+ g)%string -> short_lines n c.
Proof. intros Hs a x b ->. apply (Hs a x (b +:+ g)%string). by rewrite !string_app_assoc. Qed.

Lemma open_ok w c c' t t1 e : honest w c c' -> ok c t -> ensureOpen w t = (t1, e) ->
  ok c t1 /\ offset t1 = offset t /\ incarnation t1 = incarnation t /\ (e = None -> is_Some (file t1)).
Proof.
  intros (g1 & g2 & g3 & -> & Ho & Hn & _) Ht He. unfold ensureOpen in He. destruct (file t) as [x|] eqn:Hf.
  - injection He as <- <-. by rewrite Hf.
  - destruct (a_open w) as [|y]; [by injection He as <- <-|]. destruct (a_open_size w) as [|n]; [by injection He as <- <-|].
    rewrite (ok_started c t Ht) in He. simpl in He. assert (Hof := ok_offset c t Ht). assert (Hg := textlen_nonneg g1).
    rewrite (proj2 (Z.ltb_ge _ _)) in He by (rewrite (Hn n eq_refl), textlen_app; lia).
    destruct (a_seek w (offset t)); injection He as <- <-; [done|]. upd. split_and!; try done. rewrite (Ho y eq_refl). by destruct Ht; split; upd.
Qed.

(** What a read does, on a file that is read truly or not at all. *)
Definition advances (c : string) (n : Z) (t : Tailer) (o' : Z) (raw : list string) : Prop :=
  read_as c (offset t) o' raw /\ o' <= Z.max (offset t) n /\
  (n - offset t <= defaultMaxReadBytes -> no_byte newline (str_take (Z.to_nat (n - o')) (str_drop (Z.to_nat o') c)) = true) /\
  (n - offset t > defaultMaxReadBytes -> offset t < o').
Lemma read_ok w c n t t' r : (sees w c \/ forall o n, exists e, a_read w o n = inl e) -> 0 <= offset t -> maxReadBytes t = defaultMaxReadBytes ->
  short_lines defaultMaxReadBytes c -> n <= textlen c -> readLines w n t = (t', r) ->
  (t' = t /\ exists e, r = inl e) \/ exists raw, r = inr (map (cook t) raw) /\ t' = t <| offset := offset t' |> /\ advances c n t (offset t') raw.
Proof.
  intros Hread Ho Hm Hs Hn Hr. destruct Hread as [Hw|Hw].
  - right. destruct (readLines_spec w c n t Hw) as (raw & o' & Hr' & Has & Hle & Hlast & Hprog); try done; [by rewrite Hm|by rewrite Hm|].
    rewrite Hr' in Hr. injection Hr as <- <-. rewrite Hm in *. exists raw. upd. done.
  - unfold readLines in Hr. destruct (Z.leb_spec (n - offset t) 0).
    + right. injection Hr as <- <-. exists []. split_and!; [done|by destruct t|]. split_and!; [apply read_as_nil|lia| |change defaultMaxReadBytes with 1048576; lia].
      intros _. by replace (Z.to_nat (n - offset t)) with 0%nat by lia.
    + left. destruct (Hw (offset t) (if maxReadBytes t <? n - offset t then maxReadBytes t else n - offset t)) as [e He]. rewrite He in Hr.
      injection Hr as <- <-. eauto.
Qed.

Lemma grow_ok c g t : ok c t -> ok (c +:+ g)%string t.
Proof. intros [? ? ? Hu ?]. split; try done. rewrite textlen_app. assert (Hg := textlen_nonneg g). lia. Qed.

Lemma poll_ok w c c' t t' r : honest w c c' -> ok c t -> short_lines defaultMaxReadBytes c' -> Poll w t = (t', r) ->
  exists raw, ok c' t' /\ read_as c' (offset t) (offset t') raw /\ lines_of r = map (cook (New m)) raw /\ incarnation t' = incarnation t /\
    (forall l n, r = inr l -> a_size w = inr n -> advances c' n t (offset t') raw).
Proof.
  intros Hw Ht Hs Hp. unfold Poll in Hp. destruct (ensureOpen w t) as [t1 e] eqn:He. destruct (open_ok w c c' t t1 e Hw Ht He) as (Ht1 & Ho & Hinc & Hopen).
  destruct Hw as (g1 & g2 & g3 & -> & _ & _ & Hsz & Hread & Hpath). set (c' := (c +:+ g1 +:+ g2 +:+ g3)%string) in *.
  assert (Hstay : forall e', r = inl e' -> t' = t1 -> exists raw, ok c' t' /\ read_as c' (offset t) (offset t') raw /\ lines_of r = map (cook (New m)) raw /\ incarnation t' = incarnation t /\
    (forall l n, r = inr l -> a_size w = inr n -> advances c' n t (offset t') raw)).
  { intros e' -> ->. exists []. rewrite Ho. split_and!; [by apply grow_ok|apply read_as_nil|done|done|done]. }
  destruct e as [e|]; [by injection Hp as <- <-; eapply Hstay|]. destruct (a_size w) as [e|n] eqn:Hsize; [by injection Hp as <- <-; eapply Hstay|].
  assert (Hn := Hsz n eq_refl). assert (Hof := ok_offset c t1 Ht1).
  assert (Hnc : textlen c <= n <= textlen c').
  { unfold c'. rewrite Hn, !textlen_app. assert (H1 := textlen_nonneg g1). assert (H2 := textlen_nonneg g2). assert (H3 := textlen_nonneg g3). lia. }
  rewrite (proj2 (Z.ltb_ge _ _)) in Hp by lia. destruct (readLines w n t1) as [t2 r2] eqn:Hr.
  destruct (read_ok w c' n t1 t2 r2 Hread) as [(-> & e & ->)|(raw & -> & Ht2 & Hadv)]; try done; [lia|by apply Ht1|lia|by injection Hp as <- <-; eapply Hstay|].
  assert (Hend : t' = t2 /\ r = inr (map (cook t1) raw)).
  { assert (Hfi := ok_file c t1 Ht1). destruct (Hopen eq_refl) as [y Hy]. rewrite Hy in Hfi. destruct Hfi as [_ Hfi].
    assert (Hi2 : info t2 = f) by (rewrite Ht2; upd; done). destruct (a_path w) as [x|]; [|by injection Hp as <- <-].
    rewrite bool_decide_eq_true_2 in Hp; [by injection Hp as <- <-|]. by rewrite Hi2, (Hpath x eq_refl). }
  destruct Hend as [-> ->]. exists raw. assert (Hadv' : advances c' n t (offset t2) raw) by (unfold advances in *; by rewrite <-Ho).
  destruct Ht1 as [L1 L2 L3 L4 L5]. destruct Hadv' as (Has & Hle & Hrest). split_and!.
  - assert (Hlo : offset t <= offset t2) by (destruct Has as (_ & -> & _); assert (H1 := textlen_nonneg (unlines raw)); lia). rewrite Ht2. split; upd; try done. lia.
  - done.
  - simpl. apply map_ext. intros l. by apply cook_eq.
  - rewrite Ht2. upd. done.
  - intros l n' _ [= <-]. done.
Qed.

Lemma restart_ok c t : ok c t -> textlen c <= max_i64 -> ok c (restarted t) /\ offset (restarted t) = offset t /\ incarnation (restarted t) = incarnation t.
Proof.
  intros [L1 L2 L3 L4 L5] Hc. unfold restarted, Resume, Offset. unfold max_i64 in *. rewrite u64_small by lia. rewrite (proj2 (Z.ltb_ge _ _)) by (unfold max_i64; lia).
  split_and!; try done.
Qed.


(** ** Catching up *)

(** The answers of a poll that meets no failure on a file at rest. *)
Definition quiet (c : string) (w : answers) : Prop :=
  a_open w = inr f /\ a_open_size w = inr (textlen c) /\ (forall o, a_seek w o = None) /\ a_size w = inr (textlen c) /\
  sees w c /\ a_path w = Some f.
Fixpoint polls (ws : list answers) (t : Tailer) : Tailer * list string :=
  match ws with
  | [] => (t, [])
  | w :: ws => let '(t, r) := Poll w t in let '(t, out) := polls ws t in (t, lines_of r ++ out)
  end.

Lemma quiet_honest w c : quiet c w -> honest w c c.
Proof.
  intros (H1 & H2 & H3 & H4 & H5 & H6). exists ""%string, ""%string, ""%string. rewrite !app_empty_r. split_and!; [done| | | | |].
  - rewrite H1. by intros x [= <-].
  - rewrite H2. by intros x [= <-].
  - rewrite H4. by intros x [= <-].
  - by left.
  - rewrite H6. by intros x [= <-].
Qed.
Lemma quiet_succeeds w c t t' r : quiet c w -> ok c t -> short_lines defaultMaxReadBytes c -> Poll w t = (t', r) -> exists l, r = inr l.
Proof.
  intros Hq Ht Hs Hp. assert (Hw := quiet_honest w c Hq). destruct Hq as (H1 & H2 & H3 & H4 & H5 & H6). unfold Poll in Hp.
  destruct (ensureOpen w t) as [t1 e] eqn:He. destruct (open_ok w c c t t1 e Hw Ht He) as (Ht1 & _).
  assert (Hno : e = None).
  { unfold ensureOpen in He. destruct (file t); [by injection He as <- <-|]. rewrite H1, H2 in He. destruct (negb _), (_ <? _); rewrite H3 in He; by injection He as <- <-. }
  subst e. rewrite H4 in Hp. rewrite (proj2 (Z.ltb_ge _ _)) in Hp by (assert (H := ok_offset c t1 Ht1); lia).
  destruct (readLines_spec w c (textlen c) t1 H5) as (raw & o' & Hr & _); [apply Ht1|by rewrite (ok_read c t1 Ht1)|by rewrite (ok_read c t1 Ht1)|lia|].
  rewrite Hr in Hp. injection Hp as <- <-. eauto.
Qed.

(** One poll of a file at rest. *)
Lemma quiet_poll w c t t' r : quiet c w -> ok c t -> short_lines defaultMaxReadBytes c -> Poll w t = (t', r) ->
  exists raw, ok c t' /\ read_as c (offset t) (offset t') raw /\ lines_of r = map (cook (New m)) raw /\
    (textlen c - offset t > defaultMaxReadBytes -> offset t < offset t') /\
    (textlen c - offset t <= defaultMaxReadBytes -> no_byte newline (str_drop (Z.to_nat (offset t')) c) = true).
Proof.
  intros Hw Ht Hs Hp. destruct (quiet_succeeds w c t t' r Hw Ht Hs Hp) as [l ->].
  destruct (poll_ok w c c t t' (inr l) (quiet_honest w c Hw) Ht Hs Hp) as (raw & Ht1 & Has & Hl & _ & Hadv).
  destruct (Hadv l (textlen c) eq_refl) as (_ & _ & Hlast & Hprog); [by apply Hw|]. exists raw. split_and!; try done. intros Hsm.
  rewrite <-(str_take_all (Z.to_nat (textlen c - offset t')) (str_drop _ c)); [by apply Hlast|].
  rewrite str_drop_len. assert (Ho := ok_offset c t' Ht1). unfold textlen in *. lia.
Qed.
Lemma read_as_done c o o' raw : no_byte newline (str_drop (Z.to_nat o) c) = true -> read_as c o o' raw -> raw = [] /\ o' = o.
Proof.
  intros Hn (_ & -> & Hd). destruct raw as [|x raw]; [split; [done|unfold textlen; simpl; lia]|]. rewrite Hd in Hn. simpl in Hn.
  rewrite !no_byte_app in Hn. apply andb_prop in Hn as [Hn _]. apply andb_prop in Hn as [_ Hn]. by apply no_byte_cons in Hn as [? _].
Qed.

Lemma polls_ok c ws : short_lines defaultMaxReadBytes c -> Forall (quiet c) ws -> forall t t' out, ok c t -> polls ws t = (t', out) ->
  textlen c - offset t < zlen ws \/ no_byte newline (str_drop (Z.to_nat (offset t)) c) = true ->
  exists raw, read_as c (offset t) (offset t') raw /\ out = map (cook (New m)) raw /\ no_byte newline (str_drop (Z.to_nat (offset t')) c) = true.
Proof.
  intros Hs. induction 1 as [|w ws Hw Hws IH]; intros t t' out Ht Hp Hlen.
  - injection Hp as <- <-. exists []. split_and!; [apply read_as_nil|done|]. destruct Hlen as [Hlen|]; [|done]. assert (Ho := ok_offset c t Ht). change (zlen []) with 0 in Hlen. lia.
  - simpl in Hp. destruct (Poll w t) as [t1 r] eqn:H1. destruct (polls ws t1) as [t2 out2] eqn:H2. injection Hp as <- <-. rewrite zlen_cons in Hlen.
    destruct (quiet_poll w c t t1 r Hw Ht Hs H1) as (raw & Ht1 & Has & Hl & Hprog & Hdone).
    destruct (IH t1 t2 out2 Ht1 H2) as (raw2 & Has2 & -> & Hend).
    { destruct Hlen as [Hlen|Hn]; [|right; destruct (read_as_done _ _ _ _ Hn Has) as [_ ->]; done].
      destruct (Z.le_gt_cases (textlen c - offset t) defaultMaxReadBytes) as [Hsm|Hbig]; [right; by apply Hdone|left; specialize (Hprog ltac:(lia)); lia]. }
    exists (raw ++ raw2). split_and!; [by eapply read_as_app|by rewrite Hl, map_app|done].
Qed.

(** A tailer that polls a file at rest catches up with it: after as many polls
    as bytes were unread, and one more, every complete line has been delivered,
    and what is left unread is the unfinished end. *)
Theorem polls_catch_up t c ws : ok c t -> short_lines defaultMaxReadBytes c -> Forall (quiet c) ws -> textlen c - offset t < zlen ws ->
  exists raw unfinished, str_drop (Z.to_nat (offset t)) c = (unlines raw +:+ unfinished)%string /\
    no_byte newline unfinished = true /\ Forall (fun x => no_byte newline x = true) raw /\
    (polls ws t).2 = map (cook (New m)) raw.
Proof.
  intros Ht Hs Hw Hl. destruct (polls ws t) as [t' out] eqn:Hp. destruct (polls_ok c ws Hs Hw t t' out Ht Hp) as (raw & (F & _ & Hd) & -> & Hn); [by left|].
  exists raw, (str_drop (Z.to_nat (offset t')) c). done.
Qed.
End Follow.
End TailProps.
