(* ===== verification/LogTailRun.v ===== *)
(** * The log tail manager (cmd/lattice-agent/logtail.go)

    One tailer per source with its buffer and checkpoint, one tick of its loop
    at a time, and the reconciliation of the sources. *)
From S2P Require Import Prelude GoStrings GoPath GoSha256 LogPolicy LogTail.
From Stdlib Require Import Ascii.

Local Open Scope Z_scope.

Module LogRun.
Import LogPolicy Tail.

Definition logTailMaxPending : Z := 50000.

Record LogSource := mkSource { ID : string; Path : string; MaxLineBytes : Z; MaxBatchLines : Z }.
#[export] Instance LogSource_eq_dec : EqDecision LogSource.
Proof. solve_decision. Defined.
Record LogBatch := mkBatch {
  bSourceID : string; bPath : string; bRotID : string; bLastOff : Z; bDropped : Z; bLines : list string; bCapturedAt : time
}.

(** ** Checkpoints *)
Definition id_first (c : ascii) : bool :=
  is_digit c || ((65 <=? byte_val c) && (byte_val c <=? 90)) || ((97 <=? byte_val c) && (byte_val c <=? 122)).
Definition id_rest (c : ascii) : bool := id_first c || (byte_val c =? 95) || (byte_val c =? 45).
Definition logSourceIDRE (s : string) : bool :=
  match s with
  | EmptyString => false
  | String c t => id_first c && str_forall id_rest t && (String.length t <=? 127)%nat
  end.
Definition checkpointPath (LogStateDir sourceID : string) : string :=
  let dir := trim_space LogStateDir in
  if String.eqb dir "" then ""%string
  else if negb (logSourceIDRE sourceID) then ""%string
  else path_join dir (sourceID +:+ ".ckpt").

Definition checkpointBinding (sourcePath : string) : string := Sha256.hex (take 8 (Sha256.Sum256 sourcePath)).

Fixpoint count_byte (c : ascii) (s : string) : nat :=
  match s with EmptyString => 0 | String x s => (if Ascii.eqb x c then 1 else 0) + count_byte c s end.

(** The text a checkpoint file holds, or none. *)
Definition parse_saved (text sourcePath : string) : option (Z * Z) :=
  let s := trim_space text in
  match last_index_of s ":" with
  | None => None
  | Some i =>
      if negb (count_byte ":" s =? 2)%nat || negb (String.eqb (str_drop (i + 1) s) (checkpointBinding sourcePath)) then None
      else ParseCheckpoint (str_take i s)
  end.
Definition loadLogCheckpoint (files : gmap string string) (path sourcePath : string) : option (Z * Z) :=
  if String.eqb path "" then None else text ← files !! path; parse_saved text sourcePath.

(** A save fails at the directory, at the temporary file, which then holds
    any text, or at the rename. *)
Inductive save_outcome := NoDir | NoWrite (partial : string) | NoRename | Saved.
Definition saveLogCheckpoint (out : save_outcome) (path sourcePath : string) (off inc : Z) (files : gmap string string)
    : gmap string string :=
  if String.eqb path "" then files
  else
    let tmp := (path +:+ ".tmp")%string in
    let line := (CheckpointString off inc +:+ ":" +:+ checkpointBinding sourcePath)%string in
    match out with
    | NoDir => files
    | NoWrite partial => <[tmp := partial]> files
    | NoRename => <[tmp := line]> files
    | Saved => <[path := line]> (delete tmp files)
    end.

Definition newSourceTailer (src : LogSource) (files : gmap string string) (ckptPath : string) : Tailer :=
  let t := New (MaxLineBytes src) in
  match loadLogCheckpoint files ckptPath (Path src) with Some (off, inc) => Resume off inc t | None => t end.

(** ** One source's loop *)
Record runner := mkRunner { tailer : Tailer; pending : list string; dropped : Z }.
#[export] Instance runner_eta : Etable runner := fun r => mkRunner (tailer r) (pending r) (dropped r).

(** What a tick meets: whether the source was stopped, the answers to [Poll],
    the clock and the server's answer to each batch of the tick, and the
    outcome of the save. *)
Record tick_in := mkTick {
  stopped : bool;
  polled : answers;
  clock : nat -> time;
  shipLogBatch : nat -> Z * option string;
  save : save_outcome
}.
(** What it does to the manager's refusals. *)
Inductive note := Nothing | NoteRefused (err : lerr) | ClearOpenRefusal.

Definition start_run (src : LogSource) (files : gmap string string) (ckptPath : string) : runner :=
  mkRunner (newSourceTailer src files ckptPath) [] 0.

Definition batch_lines (src : LogSource) : Z := if MaxBatchLines src <=? 0 then 500 else MaxBatchLines src.

Definition buffer (lines : list string) (r : runner) : runner :=
  if 0 <? zlen lines then
    let r := r <| pending ::= fun p => p ++ lines |> in
    if logTailMaxPending <? zlen (pending r) then
      let over := zlen (pending r) - logTailMaxPending in
      r <| pending ::= drop (Z.to_nat over) |> <| dropped ::= fun d => u64 (d + u64 over) |>
    else r
  else r.

(** The batches of one tick, until the buffer is empty or one is not taken;
    [k] counts them, and the fuel bounds them by the lines there are. *)
Fixpoint ship (src : LogSource) (i : tick_in) (fuel k : nat) (r : runner) : runner * list LogBatch :=
  match fuel with
  | O => (r, [])
  | S fuel =>
      if zlen (pending r) <=? 0 then (r, [])
      else
        let n := if batch_lines src <? zlen (pending r) then batch_lines src else zlen (pending r) in
        let batch := mkBatch (ID src) (Path src) (RotID (tailer r)) (Offset (tailer r)) (dropped r)
                       (take (Z.to_nat n) (pending r)) (clock i k) in
        let '(status, err) := shipLogBatch i k in
        if bool_decide (is_Some err) || negb (status =? 200) then (r, [])
        else
          let '(r, sent) := ship src i fuel (S k) (r <| dropped := 0 |> <| pending ::= drop (Z.to_nat n) |>) in
          (r, batch :: sent)
  end.

(** One tick of [run]: the new state, checkpoint files and the batches the
    server took. *)
Definition tick (src : LogSource) (ckptPath : string) (i : tick_in) (r : runner) (files : gmap string string)
    : runner * gmap string string * list LogBatch * note :=
  let '(t, res) := Poll (polled i) (tailer r) in
  let r := r <| tailer := t |> in
  match res with
  | inl (Refused reason) => (r, files, [], if stopped i then Nothing else NoteRefused (Refused reason))
  | inl _ => (r, files, [], Nothing)
  | inr lines =>
      let r := buffer lines r in
      if zlen (pending r) =? 0 then (r, files, [], ClearOpenRefusal)
      else
        let '(r, sent) := ship src i (length (pending r)) 0 r in
        let files := if zlen (pending r) =? 0
                     then saveLogCheckpoint (save i) ckptPath (Path src) (Offset (tailer r)) (Incarnation (tailer r)) files
                     else files in
        (r, files, sent, ClearOpenRefusal)
  end.

(** ** The sources *)
Record logSourceRefusal := mkRefusal { rPath : string; rReason : string; rAtOpen : bool }.
#[export] Instance logSourceRefusal_eq_dec : EqDecision logSourceRefusal.
Proof. solve_decision. Defined.
(** The running sources with the spec each was started with, the refused ones,
    and the ones started and stopped, in any order. *)
Record logTailManager := mkManager {
  active : gmap string LogSource;
  refused : gmap string logSourceRefusal
}.
#[export] Instance logTailManager_eta : Etable logTailManager := fun m => mkManager (active m) (refused m).

Definition err_reason (err : lerr) : string :=
  match err with
  | Refused reason => reason
  | ErrNotExist => "file does not exist"
  | ELOOP => "too many levels of symbolic links"
  | OtherError text => text
  end.
Definition noteRefusedLocked (src : LogSource) (err : lerr) (atOpen : bool) (m : logTailManager) : logTailManager :=
  let next := mkRefusal (Path src) (err_reason err) atOpen in
  let same := match refused m !! ID src with
              | Some prev => String.eqb (rPath prev) (rPath next) && String.eqb (rReason prev) (rReason next)
              | None => false
              end in
  if same then m else m <| refused ::= <[ID src := next]> |>.
Definition clearOpenRefusal (src : LogSource) (m : logTailManager) : logTailManager :=
  match refused m !! ID src with
  | Some r => if rAtOpen r && String.eqb (rPath r) (Path src) then m <| refused ::= delete (ID src) |> else m
  | None => m
  end.

Definition logSourceChanged (a b : LogSource) : bool :=
  negb (String.eqb (Path a) (Path b)) || negb (MaxLineBytes a =? MaxLineBytes b) || negb (MaxBatchLines a =? MaxBatchLines b).

Section Reconcile.
(** The node's kill switch and the policy's check of a path. *)
Context (noTail : bool) (check : string -> option lerr).

Definition reconcile_one (id : string) (s : LogSource) (m : logTailManager) : logTailManager :=
  if noTail then noteRefusedLocked s (Refused logRefusedOff) false m
  else
    match check (Path s) with
    | Some (Refused reason) => noteRefusedLocked s (Refused reason) false (m <| active ::= delete id |>)
    | _ =>
        let m := match refused m !! id with
                 | Some r => if negb (rAtOpen r) then m <| refused ::= delete id |> else m
                 | None => m
                 end in
        match active m !! id with Some _ => m | None => m <| active ::= <[id := s]> |> end
    end.

(** The entries a test keeps; Go deletes the others while it iterates. *)
Definition keep {A} (P : string -> A -> bool) (m : gmap string A) : gmap string A := filter (fun kv => P kv.1 kv.2 = true) m.

(** The sources by id, the last of two with one id; Go's iteration over a map
    takes its entries in some order, here that of [map_to_list]. *)
Definition desired_of (sources : list LogSource) : gmap string LogSource :=
  fold_left (fun m s => <[ID s := s]> m) sources ∅.
Definition reconcile (sources : list LogSource) (m : logTailManager) : logTailManager :=
  let desired := desired_of sources in
  let m := m <| refused ::= keep (fun id r => match desired !! id with Some d => String.eqb (Path d) (rPath r) | None => false end) |> in
  let m := m <| active ::= keep (fun id spec => match desired !! id with Some d => negb (logSourceChanged spec d) | None => false end) |> in
  fold_left (fun m '(id, s) => reconcile_one id s m) (map_to_list desired) m.
End Reconcile.
End LogRun.
