(* ===== verification/LogRunProps.v ===== *)
(** * What the log tail manager promises *)
From S2P Require Import Prelude GoStrings GoPath GoSha256 LogPolicy LogTail LogTailRun.
From Stdlib Require Import Ascii.

Local Open Scope Z_scope.

Module LogRunProps.
Import LogPolicy Tail LogRun TailProps.

(** ** Checkpoints *)
Definition is_colon_free (s : string) : Prop := no_byte ":" s = true.

Lemma scan_digits_stop d r : str_forall is_digit d = true -> match r with String c _ => is_digit c = false | EmptyString => True end ->
  scan_digits (d +:+ r)%string = (d, r).
Proof.
  intros Hd Hr. induction d as [|c d IH].
  - rewrite app_empty. destruct r as [|c r]; [done|]. simpl. by rewrite Hr.
  - simpl in Hd. apply andb_true_iff in Hd as [Hc Hd]. rewrite app_cons. simpl. by rewrite Hc, (IH Hd).
Qed.
Lemma digit_solid c : is_digit c = true -> solid c = true.
Proof. unfold is_digit, solid. rewrite !andb_true_iff, !Z.leb_le. lia. Qed.
Lemma skip_digit c t fuel : is_digit c = true -> skip_space fuel (String c t) = Some (String c t).
Proof.
  intros Hc. destruct fuel as [|fuel]; [done|]. cbn [skip_space]. rewrite has_prefix_head. destruct (ascii_dec newline c) as [<-|]; [by vm_compute in Hc|].
  by rewrite (strip_left_solid _ c t eq_refl (digit_solid c Hc)).
Qed.
Lemma utoa_digits n : 0 <= n -> str_forall is_digit (utoa n) = true /\ exists c t, utoa n = String c t /\ is_digit c = true.
Proof.
  intros Hn. destruct (utoa_spec n Hn) as [Hd _]. split; [|by apply digits_head]. unfold all_digits in Hd. by apply andb_true_iff in Hd as [_ Hd].
Qed.

Lemma ParseCheckpoint_print off inc : 0 <= off < 2 ^ 64 -> 0 <= inc < 2 ^ 63 -> ParseCheckpoint (CheckpointString off inc) = Some (off, inc).
Proof.
  intros Ho Hi. unfold ParseCheckpoint, CheckpointString. destruct (utoa_digits off) as [Hd (c & t & E & Hc)]; [lia|]. destruct (utoa_digits inc) as [Hd' (c' & t' & E' & Hc')]; [lia|].
  assert (H1 : scan_uint (utoa off +:+ ":" +:+ itoa inc)%string = Some (off, (":" +:+ itoa inc)%string)).
  { unfold scan_uint. replace (utoa off +:+ ":" +:+ itoa inc)%string with (String c (t +:+ ":" +:+ itoa inc))%string by (by rewrite E, app_cons).
    rewrite skip_digit by done. rewrite <-app_cons, <-E. simpl mbind. rewrite scan_digits_stop by done. rewrite parse_uint_utoa by lia. done. }
  rewrite H1. simpl mbind. rewrite cut_prefix_app. simpl.
  assert (H2 : scan_int (itoa inc) = Some (inc, ""%string)).
  { unfold itoa, scan_int. rewrite (proj2 (Z.ltb_ge _ _)) by lia. rewrite E', skip_digit by done. simpl mbind.
    assert (Hs : bool_decide (c' = "+"%char) = false /\ bool_decide (c' = "-"%char) = false) by (split; apply bool_decide_eq_false; intros ->; by vm_compute in Hc').
    destruct Hs as [-> ->]. simpl orb. cbn iota. rewrite <-E'. assert (Hsd := scan_digits_stop (utoa inc) "" Hd' I). rewrite app_empty_r in Hsd. rewrite Hsd.
    rewrite app_empty, parse_int_utoa by lia. by rewrite E'. }
  by rewrite H2.
Qed.

Definition ckpt_text (off inc : Z) (sourcePath : string) : string :=
  (CheckpointString off inc +:+ ":" +:+ checkpointBinding sourcePath)%string.

Lemma binding_hex p : str_forall Sha256.is_hex (checkpointBinding p) = true.
Proof. apply Sha256.hex_hex. apply Forall_take, Sha256.Sum256_bytes. Qed.
Lemma hex_byte c : Sha256.is_hex c = true -> solid c = true /\ c <> ":"%char.
Proof.
  unfold Sha256.is_hex, solid. intros H. split.
  - apply orb_prop in H. rewrite !andb_true_iff, !Z.leb_le in H. apply andb_true_iff. rewrite !Z.leb_le. lia.
  - intros ->. by vm_compute in H.
Qed.
Lemma str_forall_no_byte f s c : str_forall f s = true -> f c = false -> no_byte c s = true.
Proof. intros Hs Hc. revert Hs. apply str_forall_impl. intros x Hx. apply negb_true_iff, Ascii.eqb_neq. intros ->. congruence. Qed.
Lemma str_forall_last f s c : str_forall f s = true -> last_byte s = Some c -> f c = true.
Proof.
  revert c. induction s as [|x s IH]; intros c Hs Hl; [done|]. simpl in Hs. apply andb_true_iff in Hs as [Hx Hs].
  destruct s as [|y s]; [by injection Hl as <-|]. by apply IH.
Qed.
Lemma count_byte_app c a b : count_byte c (a +:+ b)%string = (count_byte c a + count_byte c b)%nat.
Proof. induction a as [|x a IH]; [done|]. rewrite app_cons. simpl. rewrite IH. lia. Qed.
Lemma count_byte_none c s : no_byte c s = true -> count_byte c s = 0%nat.
Proof. induction s as [|x s IH]; [done|]. intros [Hx Hs]%no_byte_cons. simpl. by rewrite (proj2 (Ascii.eqb_neq x c) Hx), (IH Hs). Qed.

Lemma parse_saved_print off inc p p' : 0 <= off < 2 ^ 64 -> 0 <= inc < 2 ^ 63 -> 
  parse_saved (ckpt_text off inc p) p' = if String.eqb (checkpointBinding p) (checkpointBinding p') then Some (off, inc) else None.
Proof.
  intros Ho Hi. assert (Hb := binding_hex p). set (b := checkpointBinding p) in *.
  destruct (utoa_digits off) as [Hd (c & t & E & Hc)]; [lia|]. destruct (utoa_digits inc) as [Hd' _]; [lia|].
  assert (Hit : itoa inc = utoa inc) by (unfold itoa; by rewrite (proj2 (Z.ltb_ge _ _)) by lia).
  assert (Hbc : no_byte ":" b = true) by (by apply (str_forall_no_byte Sha256.is_hex)).
  assert (Hn1 : no_byte ":" (utoa off) = true) by (by apply (str_forall_no_byte is_digit)).
  assert (Hn2 : no_byte ":" (utoa inc) = true) by (by apply (str_forall_no_byte is_digit)).
  assert (Htrim : trim_space (ckpt_text off inc p) = ckpt_text off inc p).
  { unfold ckpt_text, CheckpointString. fold b. rewrite E, !app_cons. set (rest := ((t +:+ ":" +:+ itoa inc) +:+ ":" +:+ b)%string).
    assert (Hl : exists d, last_byte (String c rest) = Some d /\ solid d = true).
    { unfold rest. rewrite <-app_cons. destruct b as [|x b'] eqn:Eb.
      - rewrite app_empty_r, last_byte_app by done. by exists ":"%char.
      - rewrite last_byte_app by done. change (":" +:+ String x b')%string with (String ":" (String x b')). destruct (last_byte (String ":" (String x b'))) as [d|] eqn:El.
        + exists d. split; [done|]. apply hex_byte. exact (str_forall_last _ (String x b') d Hb El).
        + exfalso. clear -El. revert x El. induction b' as [|y b' IH]; intros x El; [done|]. by apply (IH y). }
    destruct Hl as (d & Hl & Hdd). apply (trim_space_solid c rest d); [by apply digit_solid|done|done]. }
  unfold parse_saved. rewrite Htrim. unfold ckpt_text. fold b.
  change ((CheckpointString off inc +:+ ":" +:+ b)%string) with ((CheckpointString off inc +:+ String ":" b)%string).
  rewrite last_index_first by done.
  assert (Hcount : count_byte ":" (CheckpointString off inc +:+ String ":" b)%string = 2%nat).
  { unfold CheckpointString. rewrite Hit, !count_byte_app. simpl. rewrite count_byte_none, count_byte_none, (count_byte_none _ b) by done. done. }
  rewrite Hcount. rewrite str_drop_add, str_drop_app. change (str_drop 1 (String ":" b)) with (str_drop 0 b). rewrite str_drop_0. destruct (String.eqb b _); [|done]. simpl orb. cbn iota.
  rewrite str_take_app. by apply ParseCheckpoint_print.
Qed.

Lemma tmp_differs path : (path +:+ ".tmp")%string <> path.
Proof. intros E. apply (f_equal String.length) in E. rewrite string_app_length in E. simpl in E. lia. Qed.

Lemma load_saved files path p p' off inc out :
  path <> ""%string -> 0 <= off < 2 ^ 64 -> 0 <= inc < 2 ^ 63 ->
  loadLogCheckpoint (saveLogCheckpoint out path p off inc files) path p' =
  match out with
  | Saved => if String.eqb (checkpointBinding p) (checkpointBinding p') then Some (off, inc) else None
  | _ => loadLogCheckpoint files path p'
  end.
Proof.
  intros Hp Ho Hi. assert (Ht := tmp_differs path). unfold loadLogCheckpoint, saveLogCheckpoint. rewrite (proj2 (String.eqb_neq _ _) Hp). destruct out.
  - done.
  - by rewrite lookup_insert_ne.
  - by rewrite lookup_insert_ne.
  - rewrite lookup_insert_eq. simpl mbind. by apply parse_saved_print.
Qed.

(** A checkpoint that is saved is the one read back, for the same file and for
    no other; and a save that fails, at the directory, in the middle of the
    write or at the rename, leaves the one before. *)
Theorem checkpoint_roundtrip files path p p' off inc out :
  path <> ""%string -> 0 <= off < 2 ^ 64 -> 0 <= inc < 2 ^ 63 ->
  loadLogCheckpoint (saveLogCheckpoint out path p off inc files) path p' =
  match out with
  | Saved => if String.eqb (checkpointBinding p) (checkpointBinding p') then Some (off, inc) else None
  | _ => loadLogCheckpoint files path p'
  end.
Proof. apply load_saved. Qed.

Lemma id_rest_plain c : id_rest c = true -> c <> "/"%char.
Proof. intros H ->. by vm_compute in H. Qed.
Lemma source_id_plain id : logSourceIDRE id = true -> plain_name (id +:+ ".ckpt")%string = true.
Proof.
  destruct id as [|c t]; [done|]. simpl. intros [[Hc Ht]%andb_true_iff _]%andb_true_iff.
  assert (Hcr : id_rest c = true) by (unfold id_rest; by rewrite Hc). assert (Hcd : c <> "."%char) by (intros ->; by vm_compute in Hc).
  unfold plain_name. rewrite app_cons. rewrite !andb_true_iff, !negb_true_iff. split_and!; [done|apply String.eqb_neq; congruence|apply String.eqb_neq; congruence|].
  apply no_byte_cons. split; [by apply id_rest_plain|]. rewrite no_byte_app. apply andb_true_iff. split; [|done]. by apply (str_forall_no_byte id_rest).
Qed.
(** Whatever id the server mints, a checkpoint is a file right in the state
    directory, or there is none. *)
Theorem checkpoint_in_state_dir dir id : checkpointPath dir id <> ""%string ->
  exists lead, checkpointPath dir id = (lead +:+ id +:+ ".ckpt")%string /\ no_byte "/" id = true /\
    (lead = (path_clean (trim_space dir) +:+ "/")%string \/ (lead = "/"%string /\ path_clean (trim_space dir) = "/"%string) \/
     (lead = ""%string /\ path_clean (trim_space dir) = "."%string)).
Proof.
  unfold checkpointPath. destruct (String.eqb_spec (trim_space dir) ""); [done|]. destruct (logSourceIDRE id) eqn:Hid; [|done]. intros _.
  destruct (path_join_plain (trim_space dir) (id +:+ ".ckpt")%string) as (lead & -> & Hl); [done|by apply source_id_plain|].
  exists lead. split; [done|]. split; [|done]. assert (Hp := source_id_plain id Hid). unfold plain_name in Hp. apply andb_true_iff in Hp as [_ Hp].
  rewrite no_byte_app in Hp. by apply andb_true_iff in Hp as [Hp _].
Qed.

(** ** One tick *)
Definition lines_sent (sent : list LogBatch) : list string := concat (map bLines sent).
Definition total (l : list Z) : Z := fold_right Z.add 0 l.

Lemma buffer_spec lines r : exists over, pending (buffer lines r) = drop over (pending r ++ lines) /\
  (over <= length (pending r ++ lines))%nat /\ tailer (buffer lines r) = tailer r /\
  u64 (dropped (buffer lines r)) = u64 (dropped r + Z.of_nat over) /\
  (zlen (pending r) <= logTailMaxPending -> zlen (pending (buffer lines r)) <= logTailMaxPending).
Proof.
  unfold buffer. destruct (Z.ltb_spec 0 (zlen lines)) as [Hl|Hl].
  - upd. set (all := pending r ++ lines). destruct (Z.ltb_spec logTailMaxPending (zlen all)).
    + exists (Z.to_nat (zlen all - logTailMaxPending)). upd. split_and!; [done|unfold zlen, logTailMaxPending in *; lia|done| |].
      * rewrite u64_idemp, u64_add_r. f_equal. lia.
      * intros _. rewrite zlen_drop. unfold all, logTailMaxPending in *. lia.
    + exists 0%nat. upd. split_and!; [done|lia|done|f_equal; lia|done].
  - exists 0%nat. assert (lines = []) as -> by (destruct lines; [done|rewrite zlen_cons in Hl; assert (H := zlen_nonneg lines); lia]).
    rewrite app_nil_r. split_and!; [done|lia|done|f_equal; lia|done].
Qed.

Lemma ship_spec src i fuel : forall k r r' sent, ship src i fuel k r = (r', sent) ->
  lines_sent sent ++ pending r' = pending r /\ tailer r' = tailer r /\ total (map bDropped sent) + dropped r' = dropped r.
Proof.
  induction fuel as [|fuel IH]; intros k r r' sent Hs; simpl in Hs; [injection Hs as <- <-; simpl; split_and!; done || lia|].
  destruct (zlen (pending r) <=? 0); [injection Hs as <- <-; simpl; split_and!; done || lia|].
  destruct (shipLogBatch i k) as [status err]. destruct (_ || _); [injection Hs as <- <-; simpl; split_and!; done || lia|].
  set (n := Z.to_nat _) in Hs. destruct (ship src i fuel (S k) _) as [r2 sent2] eqn:H2. injection Hs as <- <-.
  destruct (IH _ _ _ _ H2) as (H3 & H4 & H5). revert H3 H4 H5. upd. intros H3 H4 H5. split_and!; [|done|].
  - unfold lines_sent in *. simpl. rewrite <-app_assoc, H3. apply take_drop.
  - simpl. lia.
Qed.

(** The branches of a tick: nothing delivered, or the lines buffered, shipped
    as far as the server took them, and the position saved when all went. *)
Lemma tick_cases src ck i r files r' files' sent n t res :
  tick src ck i r files = (r', files', sent, n) -> Poll (polled i) (tailer r) = (t, res) ->
  (sent = [] /\ pending r' = pending r /\ dropped r' = dropped r /\ tailer r' = t /\ files' = files /\ lines_of res = []) \/
  exists over, (over <= length (pending r ++ lines_of res))%nat /\
    drop over (pending r ++ lines_of res) = lines_sent sent ++ pending r' /\ tailer r' = t /\
    u64 (total (map bDropped sent) + dropped r') = u64 (dropped r + Z.of_nat over) /\
    (zlen (pending r) <= logTailMaxPending -> zlen (pending r') <= logTailMaxPending) /\
    (files' = files \/ (pending r' = [] /\ files' = saveLogCheckpoint (save i) ck (Path src) (Offset t) (Incarnation t) files)).
Proof.
  intros Ht Hp. unfold tick in Ht. rewrite Hp in Ht. destruct res as [e|lines].
  - left. destruct e; injection Ht as <- <- <- <-; upd; done.
  - right. simpl lines_of. set (r0 := r <| tailer := t |>) in Ht. destruct (buffer_spec lines r0) as (over & H1 & H2 & H3 & H4 & H5).
    revert H1 H2 H3 H4 H5. unfold r0 at 2 3 5 7 8. upd. intros H1 H2 H3 H4 H5. exists over. split; [done|]. rewrite <-H1.
    destruct (Z.eqb_spec (zlen (pending (buffer lines r0))) 0) as [Hz|Hz].
    + injection Ht as <- <- <- <-. assert (He : pending (buffer lines r0) = []) by (destruct (pending (buffer lines r0)); [done|rewrite zlen_cons in Hz; assert (H := zlen_nonneg l); lia]).
      split_and!; try done. by left.
    + destruct (ship src i _ 0 _) as [r2 s2] eqn:Hs. destruct (ship_spec _ _ _ _ _ _ _ Hs) as (H6 & H7 & H8). injection Ht as <- <- <- <-.
      split_and!; [done|by rewrite H7|by rewrite H8| |].
      * intros Hle. specialize (H5 Hle). rewrite <-H6, zlen_app in H5. assert (H := zlen_nonneg (lines_sent s2)). lia.
      * destruct (Z.eqb_spec (zlen (pending r2)) 0) as [Hz2|]; [right|by left]. rewrite H7, H3. split; [|done].
        destruct (pending r2); [done|rewrite zlen_cons in Hz2; assert (H := zlen_nonneg l); lia].
Qed.

(** ** A source over its life *)
Section Life.
(** The source, its checkpoint file, the file it follows, and the position the
    first checkpoint gave it. *)
Context (src : LogSource) (ck : string) (f : nat) (o0 inc0 : Z).
Hypothesis ck_named : ck <> ""%string.
Hypothesis o0_ok : 0 <= o0.
Hypothesis inc0_ok : 0 <= inc0 < 2 ^ 63.
Let m : Z := MaxLineBytes src.

(** The loop, the checkpoint files, the followed file's bytes; how many of its
    lines from [o0] on the tailer has passed; the lines the server took, by
    number, the numbers of the ones dropped for room, the drops the server was
    told and the ones a restart forgot. *)
Record life := mkLife {
  loop : runner; disk : gmap string string; text : string; passed : nat;
  taken : list (nat * string); gone : list nat; told : Z; forgot : Z
}.

(** The lines between two positions. *)
Definition lines_to (c : string) (o : Z) : nat := count_byte newline (str_take (Z.to_nat (o - o0)) (str_drop (Z.to_nat o0) c)).

Inductive live : life -> Prop :=
  | live_start files c : loadLogCheckpoint files ck (Path src) = Some (o0, inc0) -> o0 <= textlen c -> o0 <= max_i64 ->
      live (mkLife (start_run src files ck) files c 0 [] [] 0 0)
  | live_tick y i c' r' files' sent n t res :
      live y -> honest f (polled i) (text y) c' -> Poll (polled i) (tailer (loop y)) = (t, res) ->
      tick src ck i (loop y) (disk y) = (r', files', sent, n) ->
      let passed' := (passed y + length (lines_of res))%nat in
      let first := (passed' - length (lines_sent sent) - length (pending r'))%nat in
      let old := (passed y - length (pending (loop y)))%nat in
      live (mkLife r' files' c' passed' (zip (seq first (length (lines_sent sent))) (lines_sent sent) ++ taken y)
              (seq old (first - old) ++ gone y) (total (map bDropped sent) + told y) (forgot y))
  | live_restart y :
      live y ->
      let r := start_run src (disk y) ck in
      live (mkLife r (disk y) (text y) (lines_to (text y) (offset (tailer r))) (taken y) (gone y) (told y) (dropped (loop y) + forgot y)).

(** A line's fate: taken by the server, or dropped for room. *)
Definition settled_line (y : life) (i : nat) (line : string) : Prop := (i, cook (New m) line) ∈ taken y \/ i ∈ gone y.
Definition settled_to (y : life) (raw : list string) (k : nat) : Prop := forall i line, raw !! i = Some line -> (i < k)%nat -> settled_line y i line.

Record well (y : life) : Prop := {
  w_ok : ok m f (text y) (tailer (loop y));
  w_inc : incarnation (tailer (loop y)) = inc0;
  w_lines : exists raw, read_as (text y) o0 (offset (tailer (loop y))) raw /\ length raw = passed y /\
    (length (pending (loop y)) <= passed y)%nat /\
    pending (loop y) = drop (passed y - length (pending (loop y))) (map (cook (New m)) raw) /\
    settled_to y raw (passed y - length (pending (loop y)));
  w_saved : exists o raw, loadLogCheckpoint (disk y) ck (Path src) = Some (o, inc0) /\ o <= textlen (text y) /\
    read_as (text y) o0 o raw /\ settled_to y raw (length raw);
  w_room : zlen (pending (loop y)) <= logTailMaxPending;
  w_told : u64 (zlen (gone y)) = u64 (told y + dropped (loop y) + forgot y)
}.

Lemma count_unlines raw : Forall (fun x => no_byte newline x = true) raw -> count_byte newline (unlines raw) = length raw.
Proof. induction 1 as [|x raw Hx _ IH]; [done|]. simpl. rewrite count_byte_app, count_byte_none by done. simpl. by rewrite IH. Qed.
Lemma lines_to_read c o raw : read_as c o0 o raw -> lines_to c o = length raw.
Proof.
  intros (Hf & -> & Hd). unfold lines_to. rewrite Hd. replace (Z.to_nat (o0 + textlen (unlines raw) - o0)) with (String.length (unlines raw)) by (unfold textlen; lia).
  rewrite str_take_app. by apply count_unlines.
Qed.
Lemma read_as_le c o o' raw : read_as c o o' raw -> o <= o'.
Proof. intros (_ & -> & _). assert (H := textlen_nonneg (unlines raw)). lia. Qed.

Lemma start_at files o c : loadLogCheckpoint files ck (Path src) = Some (o, inc0) -> 0 <= o <= textlen c -> textlen c <= max_i64 ->
  let r := start_run src files ck in
  ok m f c (tailer r) /\ offset (tailer r) = o /\ incarnation (tailer r) = inc0 /\ pending r = [] /\ dropped r = 0.
Proof.
  intros Hl Ho Hc. unfold start_run, newSourceTailer. rewrite Hl. unfold Resume. rewrite (proj2 (Z.ltb_ge _ _)) by lia. upd.
  split_and!; try done.
Qed.

Lemma settled_mono y y' raw k : (forall x, x ∈ taken y -> x ∈ taken y') -> (forall x, x ∈ gone y -> x ∈ gone y') -> settled_to y raw k -> settled_to y' raw k.
Proof. intros H1 H2 Hs i line Hi Hk. destruct (Hs i line Hi Hk); [left|right]; auto. Qed.

Lemma restart_well y : well y -> textlen (text y) <= max_i64 ->
  let r := start_run src (disk y) ck in
  well (mkLife r (disk y) (text y) (lines_to (text y) (offset (tailer r))) (taken y) (gone y) (told y) (dropped (loop y) + forgot y)).
Proof.
  intros Hw Hc r. destruct (w_saved y Hw) as (o & raw & Hl & Ho & Has & Hset). assert (Hlo := read_as_le _ _ _ _ Has).
  destruct (start_at (disk y) o (text y) Hl ltac:(lia) Hc) as (Hok & Hoff & Hinc & Hp & Hd). fold r in Hok, Hoff, Hinc, Hp, Hd.
  assert (Hn : lines_to (text y) (offset (tailer r)) = length raw) by (rewrite Hoff; by apply lines_to_read). clearbody r.
  split; simpl; try done.
  - exists raw. rewrite Hoff, Hp, (lines_to_read _ _ _ Has). simpl. split_and!; try done; [lia| |].
    + by rewrite Nat.sub_0_r, drop_ge by (by rewrite length_map).
    + rewrite Nat.sub_0_r. exact Hset.
  - exists o, raw. done.
  - by rewrite Hp.
  - rewrite Hd, (w_told y Hw). f_equal. lia.
Qed.

Lemma zip_taken {A} (l : list A) i x first n : l !! i = Some x -> n = length l -> ((first + i)%nat, x) ∈ zip (seq first n) l.
Proof.
  intros Hi ->. apply (list_elem_of_lookup_2 _ i). rewrite lookup_zip_with. assert (Hs : seq first (length l) !! i = Some (first + i)%nat) by (apply lookup_seq; split; [done|by eapply lookup_lt_Some]).
  by rewrite Hs, Hi.
Qed.

(** The lines after a tick that delivered: what it dropped and shipped is
    settled, and the buffer holds the last ones. *)
Lemma tick_lines y raw raw' over sent p' r' files' c' told' forgot' :
  (length (pending (loop y)) <= length raw)%nat -> pending (loop y) = drop (length raw - length (pending (loop y))) (map (cook (New m)) raw) ->
  settled_to y raw (length raw - length (pending (loop y))) ->
  (over <= length (pending (loop y) ++ map (cook (New m)) raw'))%nat ->
  drop over (pending (loop y) ++ map (cook (New m)) raw') = sent ++ p' ->
  let n := length (raw ++ raw') in let old := (length raw - length (pending (loop y)))%nat in
  let first := (n - length sent - length p')%nat in
  let y' := mkLife r' files' c' n (zip (seq first (length sent)) sent ++ taken y) (seq old (first - old) ++ gone y) told' forgot' in
  first = (old + over)%nat /\ (length p' <= n)%nat /\ p' = drop (n - length p') (map (cook (New m)) (raw ++ raw')) /\ settled_to y' (raw ++ raw') (n - length p').
Proof.
  intros Hle Hpend Hset Hover Hdrop n old first y'.
  assert (Hlen := f_equal length Hdrop). rewrite length_drop, !length_app, length_map in Hlen. rewrite length_app, length_map in Hover.
  assert (Hn : n = (length raw + length raw')%nat) by apply length_app.
  assert (Hfirst : first = (old + over)%nat) by (unfold first, old; lia).
  assert (Hall : sent ++ p' = drop first (map (cook (New m)) (raw ++ raw'))).
  { rewrite <-Hdrop, Hpend at 1. rewrite map_app, Hfirst, <-drop_drop. f_equal. rewrite drop_app_le; [done|]. rewrite length_map. lia. }
  split; [done|]. split; [lia|]. split.
  - replace (n - length p')%nat with (first + length sent)%nat by (unfold first; lia). rewrite <-drop_drop, <-Hall. by rewrite drop_app_length.
  - intros i line Hi Hk. destruct (Nat.lt_ge_cases i old) as [Ho|Ho]; [|destruct (Nat.lt_ge_cases i first) as [Hf|Hf]].
    + assert (Hraw : raw !! i = Some line) by (rewrite lookup_app_l in Hi; [done|lia]).
      destruct (Hset i line Hraw Ho) as [Ht|Hg]; [left|right]; apply elem_of_app; by right.
    + right. apply elem_of_app. left. apply elem_of_seq. lia.
    + left. apply elem_of_app. left. replace i with (first + (i - first))%nat by lia. apply zip_taken; [|done].
      assert (Hm : (sent ++ p') !! (i - first)%nat = Some (cook (New m) line)).
      { rewrite Hall, lookup_drop. replace (first + (i - first))%nat with i by lia. change (map (cook (New m))) with (fmap (M := list) (cook (New m))). by rewrite list_lookup_fmap, Hi. }
      rewrite lookup_app_l in Hm; [done|]. unfold first in *. lia.
Qed.

Lemma save_well y y' t i : well y -> textlen (text y) <= textlen (text y') ->
  (forall o raw, o <= textlen (text y) -> read_as (text y) o0 o raw -> read_as (text y') o0 o raw) ->
  (forall raw k, settled_to y raw k -> settled_to y' raw k) ->
  0 <= offset t <= textlen (text y') -> textlen (text y') <= max_i64 -> incarnation t = inc0 ->
  (disk y' = disk y \/ ((exists raw, read_as (text y') o0 (offset t) raw /\ settled_to y' raw (length raw)) /\
     disk y' = saveLogCheckpoint (save i) ck (Path src) (Offset t) (Incarnation t) (disk y))) ->
  exists o raw, loadLogCheckpoint (disk y') ck (Path src) = Some (o, inc0) /\ o <= textlen (text y') /\ read_as (text y') o0 o raw /\ settled_to y' raw (length raw).
Proof.
  intros Hw Hgrow Hread Hmono Ho Hmax Hinc Hd. destruct (w_saved y Hw) as (o & raw & Hl & Hol & Has & Hset).
  assert (Hkeep : loadLogCheckpoint (disk y') ck (Path src) = loadLogCheckpoint (disk y) ck (Path src) ->
    exists o raw, loadLogCheckpoint (disk y') ck (Path src) = Some (o, inc0) /\ o <= textlen (text y') /\ read_as (text y') o0 o raw /\ settled_to y' raw (length raw)).
  { intros ->. exists o, raw. split_and!; [done|lia|by apply Hread|by apply Hmono]. }
  destruct Hd as [Hd|[(raw' & Has' & Hset') Hd]]; [apply Hkeep; by rewrite Hd|].
  assert (Hoff : Offset t = offset t) by (unfold Offset; apply u64_small; unfold max_i64 in Hmax; lia).
  assert (Hsv := load_saved (disk y) ck (Path src) (Path src) (Offset t) (Incarnation t) (save i) ck_named).
  rewrite <-Hd, Hoff in Hsv. unfold Incarnation in Hsv. rewrite Hinc in Hsv. unfold max_i64 in Hmax. specialize (Hsv ltac:(lia) inc0_ok).
  destruct (save i); try (by apply Hkeep). rewrite String.eqb_refl in Hsv. exists (offset t), raw'. split_and!; [done|lia|done|done].
Qed.

Lemma tick_well y i c' r' files' sent n t res : well y -> short_lines defaultMaxReadBytes c' -> textlen c' <= max_i64 ->
  honest f (polled i) (text y) c' -> Poll (polled i) (tailer (loop y)) = (t, res) -> tick src ck i (loop y) (disk y) = (r', files', sent, n) ->
  let passed' := (passed y + length (lines_of res))%nat in
  let first := (passed' - length (lines_sent sent) - length (pending r'))%nat in
  let old := (passed y - length (pending (loop y)))%nat in
  well (mkLife r' files' c' passed' (zip (seq first (length (lines_sent sent))) (lines_sent sent) ++ taken y)
          (seq old (first - old) ++ gone y) (total (map bDropped sent) + told y) (forgot y)).
Proof.
  intros Hw Hs Hc Hh Hp Ht passed' first old. set (y' := mkLife _ _ _ _ _ _ _ _).
  destruct (poll_ok m f (polled i) (text y) c' (tailer (loop y)) t res Hh (w_ok y Hw) Hs Hp) as (raw' & Hok & Has' & Hlines & Hinc & _).
  rewrite (w_inc y Hw) in Hinc. assert (Hg : exists g, c' = (text y +:+ g)%string) by (destruct Hh as (g1 & g2 & g3 & -> & _); eauto). destruct Hg as [g Hg].
  assert (Hgl : textlen (text y) <= textlen c') by (rewrite Hg, textlen_app; assert (H := textlen_nonneg g); lia).
  assert (Hread : forall o raw, o <= textlen (text y) -> read_as (text y) o0 o raw -> read_as c' o0 o raw) by (intros o raw Ho Hr; rewrite Hg; by apply read_as_grow).
  destruct (w_lines y Hw) as (raw & Has & Hlen & Hple & Hpend & Hset).
  assert (Has2 : read_as c' o0 (offset t) (raw ++ raw')) by (eapply read_as_app; [apply Hread; [apply (w_ok y Hw)|exact Has]|exact Has']).
  assert (Hmono : forall raw k, settled_to y raw k -> settled_to y' raw k) by (intros r k; apply settled_mono; intros x Hx; apply elem_of_app; by right).
  assert (Hpass : passed' = length (raw ++ raw')) by (unfold passed'; rewrite Hlines, length_map, length_app; lia).
  destruct (tick_cases _ _ _ _ _ _ _ _ _ _ _ Ht Hp) as [(-> & Hp' & Hd' & Ht' & Hf' & Hnil)|(over & Hover & Hdrop & Ht' & Hcount & Hroom & Hf')].
  - assert (raw' = []) as -> by (rewrite Hnil in Hlines; by destruct raw'). rewrite app_nil_r in *.
    assert (Hfirst : first = old) by (unfold first, old, passed'; rewrite Hnil, Hp'; simpl; lia).
    split; unfold y'; simpl; rewrite ?Ht', ?Hp', ?Hd'; try done.
    + exists raw. rewrite Hpass, Hlen. split_and!; [done|done|done|done|]. by apply Hmono.
    + apply (save_well y y' t i); try done; [by apply Hok|by left].
    + apply Hw.
    + replace (first - old)%nat with 0%nat by lia. apply Hw.
  - rewrite Hlines in Hover, Hdrop. rewrite <-Hlen in Hple, Hpend, Hset.
    destruct (tick_lines y raw raw' over (lines_sent sent) (pending r') r' files' c' (total (map bDropped sent) + told y) (forgot y) Hple Hpend Hset Hover Hdrop)
      as (Hfirst & Hpl & Hpd & Hst). revert Hfirst Hst. rewrite <-Hpass, Hlen. fold old first. intros Hfirst Hst. change (settled_to y' (raw ++ raw') (passed' - length (pending r'))) in Hst.
    split; unfold y'; simpl; rewrite ?Ht'; try done.
    + exists (raw ++ raw'). rewrite Hpass in *. done.
    + apply (save_well y y' t i); try done; [by apply Hok|]. destruct Hf' as [Hf'|[Hp0 Hf']]; [by left|right]. split; [|done].
      exists (raw ++ raw'). split; [done|]. rewrite Hp0 in Hst. simpl in Hst. by rewrite Nat.sub_0_r, Hpass in Hst.
    + apply Hroom, Hw.
    + rewrite zlen_app. unfold zlen at 1. rewrite length_seq. replace (first - old)%nat with over by lia.
      rewrite <-u64_add_r, (w_told y Hw), u64_add_r. replace (total (map bDropped sent) + told y + dropped r' + forgot y) with ((total (map bDropped sent) + dropped r') + (told y + forgot y)) by lia.
      rewrite <-(u64_add_l (total (map bDropped sent) + dropped r')), Hcount, u64_add_l. f_equal. lia.
Qed.

End Life.
End LogRunProps.
