(* ===== verification/LogManagerProps.v ===== *)
(** * What reconciling the log sources promises *)
From S2P Require Import Prelude GoStrings LogPolicy LogTail LogTailRun.

Local Open Scope Z_scope.

Module LogManagerProps.
Import LogPolicy LogRun.

Section Reconcile.
Context (noTail : bool) (check : string -> option lerr).

(** ** One source *)

(** A source's refusal after one of reconcile: one already there for the same
    path and reason stays as it was recorded. *)
Definition refusal (s : LogSource) (reason : string) (old : option logSourceRefusal) : option logSourceRefusal :=
  match old with
  | Some r => if String.eqb (rPath r) (Path s) && String.eqb (rReason r) reason then Some r else Some (mkRefusal (Path s) reason false)
  | None => Some (mkRefusal (Path s) reason false)
  end.
Definition verdict (s : LogSource) : option string :=
  if noTail then Some logRefusedOff else match check (Path s) with Some (Refused reason) => Some reason | _ => None end.
Definition new_active (s : LogSource) (a : option LogSource) : option LogSource :=
  if noTail then a else match verdict s with Some _ => None | None => match a with Some x => Some x | None => Some s end end.
Definition new_refused (s : LogSource) (r : option logSourceRefusal) : option logSourceRefusal :=
  match verdict s with
  | Some reason => refusal s reason r
  | None => match r with Some x => if rAtOpen x then Some x else None | None => None end
  end.

Lemma note_spec s reason m id :
  active (noteRefusedLocked s (Refused reason) false m) = active m /\
  refused (noteRefusedLocked s (Refused reason) false m) !! id =
    (if decide (id = ID s) then refusal s reason (refused m !! ID s) else refused m !! id).
Proof.
  unfold noteRefusedLocked, refusal. simpl err_reason. simpl rPath. simpl rReason. destruct (refused m !! ID s) as [r|] eqn:E.
  - destruct (_ && _); upd; split; try done; destruct (decide (id = ID s)) as [->|Hn]; try done; [by rewrite lookup_insert_eq|by rewrite lookup_insert_ne].
  - upd. split; [done|]. destruct (decide (id = ID s)) as [->|Hn]; [by rewrite lookup_insert_eq|by rewrite lookup_insert_ne].
Qed.

Lemma one_spec id s m id' : ID s = id ->
  active (reconcile_one noTail check id s m) !! id' = (if decide (id' = id) then new_active s (active m !! id) else active m !! id') /\
  refused (reconcile_one noTail check id s m) !! id' = (if decide (id' = id) then new_refused s (refused m !! id) else refused m !! id').
Proof.
  intros <-. unfold reconcile_one, new_active, new_refused, verdict. destruct noTail.
  - destruct (note_spec s logRefusedOff m id') as [-> ->]. by destruct (decide _) as [->|].
  - assert (Hpass : forall m1, m1 = match refused m !! ID s with Some r => if negb (rAtOpen r) then m <| refused ::= delete (ID s) |> else m | None => m end ->
      active (match active m1 !! ID s with Some _ => m1 | None => m1 <| active ::= <[ID s := s]> |> end) !! id' =
        (if decide (id' = ID s) then match active m !! ID s with Some x => Some x | None => Some s end else active m !! id') /\
      refused (match active m1 !! ID s with Some _ => m1 | None => m1 <| active ::= <[ID s := s]> |> end) !! id' =
        (if decide (id' = ID s) then match refused m !! ID s with Some x => if rAtOpen x then Some x else None | None => None end else refused m !! id')).
    { intros m1 Hm1. assert (Ha : active m1 = active m) by (subst m1; destruct (refused m !! ID s) as [r|]; [destruct (rAtOpen r)|]; done).
      assert (Hr : refused m1 !! id' = if decide (id' = ID s) then match refused m !! ID s with Some x => if rAtOpen x then Some x else None | None => None end else refused m !! id').
      { subst m1. destruct (refused m !! ID s) as [r|] eqn:Er; [destruct (rAtOpen r) eqn:Ero|]; simpl negb; cbn iota; upd; destruct (decide (id' = ID s)) as [->|Hn]; rewrite ?Er, ?Ero; try done.
        - by rewrite lookup_delete_eq.
        - by rewrite lookup_delete_ne. }
      rewrite Ha. destruct (active m !! ID s) eqn:Eact; upd; rewrite ?Ha; (split; [|done]); destruct (decide (id' = ID s)) as [->|Hn]; rewrite ?Eact; try done.
      - by rewrite lookup_insert_eq.
      - by rewrite lookup_insert_ne. }
    destruct (check (Path s)) as [[reason| | |]|]; try (by apply Hpass).
    destruct (note_spec s reason (m <| active ::= delete (ID s) |>) id') as [-> ->]. upd. destruct (decide (id' = ID s)) as [->|Hn]; split; try done.
    + by rewrite lookup_delete_eq.
    + by rewrite lookup_delete_ne.
Qed.

(** ** All of them, in whatever order *)
Lemma fold_spec l id : Forall (fun kv : string * LogSource => ID kv.2 = kv.1) l -> NoDup l.*1 -> forall m,
  let m' := fold_left (fun m '(id, s) => reconcile_one noTail check id s m) l m in
  match list_to_map (M := gmap string LogSource) l !! id with
  | Some s => active m' !! id = new_active s (active m !! id) /\ refused m' !! id = new_refused s (refused m !! id)
  | None => active m' !! id = active m !! id /\ refused m' !! id = refused m !! id
  end.
Proof.
  induction l as [|[k s] l IH]; intros Hid Hnd m; [done|]. apply Forall_cons in Hid as [Hk Hid]. simpl in Hnd. apply NoDup_cons in Hnd as [Hnew Hnd].
  cbn zeta. simpl fold_left. specialize (IH Hid Hnd (reconcile_one noTail check k s m)). simpl in IH. destruct (one_spec k s m id Hk) as [Ha Hr]. simpl list_to_map.
  destruct (decide (id = k)) as [->|Hn].
  - rewrite lookup_insert_eq. rewrite (not_elem_of_list_to_map_1 l k Hnew) in IH. destruct IH as [-> ->]. by rewrite Ha, Hr.
  - rewrite lookup_insert_ne by done. rewrite Ha, Hr in IH. done.
Qed.

Lemma desired_ids sources id s : desired_of sources !! id = Some s -> ID s = id.
Proof.
  unfold desired_of. assert (H0 : forall id s, (∅ : gmap string LogSource) !! id = Some s -> ID s = id) by (intros ? ?; by rewrite lookup_empty).
  revert H0. generalize (∅ : gmap string LogSource) as m. induction sources as [|x sources IH]; intros m H0; [apply H0|]. simpl. apply IH.
  intros i y. destruct (decide (i = ID x)) as [->|Hn]; [rewrite lookup_insert_eq; by intros [= <-]|rewrite lookup_insert_ne by done; apply H0].
Qed.
Lemma keep_spec {A} (P : string -> A -> bool) (m : gmap string A) id :
  keep P m !! id = match m !! id with Some x => if P id x then Some x else None | None => None end.
Proof.
  unfold keep. destruct (m !! id) as [x|] eqn:E; [destruct (P id x) eqn:Hp|].
  - apply map_lookup_filter_Some. done.
  - apply map_lookup_filter_None. right. intros y Hy. rewrite E in Hy. injection Hy as <-. simpl. by rewrite Hp.
  - apply map_lookup_filter_None. by left.
Qed.

(** After a reconcile, source by source: one the server no longer names runs
    no tailer and has no refusal; one it names runs, as it was started if its
    path and bounds are the same and afresh if they are not, exactly when the
    node's check does not refuse its path; one that is refused has its refusal
    recorded under its present path; and a refusal of another path, or one
    that no longer holds, is gone, except one met at opening, which the tailer
    itself clears.  With tailing turned off nothing is started. *)
Theorem reconcile_exact sources m id :
  let m' := reconcile noTail check sources m in
  match desired_of sources !! id with
  | None => active m' !! id = None /\ refused m' !! id = None
  | Some s =>
      active m' !! id = new_active s (match active m !! id with Some a => if logSourceChanged a s then None else Some a | None => None end) /\
      refused m' !! id = new_refused s (match refused m !! id with Some r => if String.eqb (Path s) (rPath r) then Some r else None | None => None end)
  end.
Proof.
  intros m'. unfold m', reconcile. set (d := desired_of sources). set (m1 := m <| refused ::= _ |> <| active ::= _ |>).
  assert (Hall : Forall (fun kv : string * LogSource => ID kv.2 = kv.1) (map_to_list d)).
  { apply Forall_forall. intros [k s] Hk. apply elem_of_map_to_list in Hk. by eapply desired_ids. }
  assert (Ha : active m1 !! id = match active m !! id with Some a => if match d !! id with Some s => negb (logSourceChanged a s) | None => false end then Some a else None | None => None end) by (unfold m1; upd; apply keep_spec).
  assert (Hr : refused m1 !! id = match refused m !! id with Some r => if match d !! id with Some s => String.eqb (Path s) (rPath r) | None => false end then Some r else None | None => None end) by (unfold m1; upd; apply keep_spec).
  clearbody m1.
  assert (Hf := fold_spec (map_to_list d) id Hall (NoDup_fst_map_to_list d) m1). simpl in Hf. rewrite list_to_map_to_list in Hf.
  destruct (d !! id) as [s|]; destruct Hf as [-> ->]; rewrite Ha, Hr.
  - split; f_equal. destruct (active m !! id) as [a|]; [|done]. by destruct (logSourceChanged a s).
  - split; [by destruct (active m !! id)|by destruct (refused m !! id)].
Qed.
End Reconcile.
End LogManagerProps.

(** * The log tail on concrete runs *)
From S2P Require Import Prelude GoStrings GoPath GoSha256 LogPolicy LogTail LogTailRun LogRunProps.
From Stdlib Require Import Ascii.

Local Open Scope Z_scope.

Module LogSample.
Import LogPolicy LogPolicyProps Tail TailProps LogRun LogRunProps.

(** ** The veto *)

(** A system where one name is a link into /etc. *)
Definition links (p : string) : lerr + string :=
  if String.eqb p "/var/log/sneaky" then inr "/etc/shadow"%string else inr p.
Definition node : logPathPolicy := newLogPathPolicy links "/srv/app, /var/log/auth.log".
Definition opens (p : string) : lerr + string := open links inr (fun _ => inr true) Some node p.

Example veto_judged : map opens
    ["/var/log/syslog"; "/var/log/sneaky"; "/var/log/../../etc/shadow"; "/srv/app/x.log"; "/srv/apple"; "/var/log/auth.log";
     "/var/log/auth.log.1"; "/var/log/AUDIT/audit.log"; "singbox://x"]%string =
  [inr "/var/log/syslog"%string; inl (Refused logRefusedOutside); inl (Refused logRefusedOutside); inr "/srv/app/x.log"%string;
   inl (Refused logRefusedOutside); inr "/var/log/auth.log"%string; inl (Refused logRefusedSensitive);
   inl (Refused logRefusedSensitive); inl (Refused logRefusedOutside)].
Proof. vm_compute. reflexivity. Qed.

Lemma open_syslog : opens "/var/log/syslog" = inr "/var/log/syslog"%string.
Proof. vm_compute. reflexivity. Qed.
Lemma open_confined_witness : exists resolved, links "/var/log/syslog" = inr resolved /\ allowed node resolved.
Proof.
  destruct (open_confined links inr (fun _ => inr true) Some node "/var/log/syslog" "/var/log/syslog" open_syslog) as (r & _ & _ & _ & H4 & H5 & _).
  exists r. split; [exact H4|exact H5].
Defined.

(** ** One file *)
Definition reads (c : string) : answers :=
  mkAnswers (inr 7%nat) (inr (textlen c)) (fun _ => None) (inr (textlen c)) None
    (fun o n => inr (str_take (Z.to_nat n) (str_drop (Z.to_nat o) c))) (Some 7%nat).
Lemma short_small n c : textlen c < n -> short_lines n c.
Proof. intros Hc a x b -> _. rewrite !textlen_app in Hc. assert (Ha := textlen_nonneg a). assert (Hb := textlen_nonneg b). lia. Qed.
Lemma reads_quiet c : quiet 7 c (reads c).
Proof. split_and!; try done. Qed.
Definition nl : string := Eval vm_compute in String newline "".
Definition two_lines : string := Eval vm_compute in ("one" +:+ nl +:+ "two" +:+ nl +:+ "thr")%string.
Definition at_start : Tailer := Resume 0 3 (New 0).
Lemma at_start_ok c : ok 0 7 c at_start.
Proof. split; try done. split; [done|]. apply textlen_nonneg. Qed.

(** A first poll of the file, a restart and a second poll of a longer one. *)
Definition longer : string := Eval vm_compute in (two_lines +:+ "ee" +:+ nl)%string.
Definition after_one : Tailer := Eval vm_compute in (Poll (reads two_lines) at_start).1.
Definition after_two : Tailer := Eval vm_compute in (Poll (reads longer) (restarted 0 after_one)).1.
Lemma reads_honest c g : honest 7 (reads (c +:+ g)%string) c (c +:+ g)%string.
Proof.
  exists g, ""%string, ""%string. rewrite !app_empty_r. split_and!; [done|by intros x [= <-]|by intros x [= <-]|by intros x [= <-]|by left|by intros x [= <-]].
Qed.
Lemma followed : follow 0 7 at_start two_lines after_two longer ["one"; "two"; "three"]%string.
Proof.
  assert (H1 : follow 0 7 at_start two_lines after_one two_lines ["one"; "two"]%string).
  { exact (follow_poll 0 7 at_start two_lines at_start two_lines [] (reads two_lines) two_lines after_one (inr ["one"; "two"]%string)
      (follow_start 0 7 at_start two_lines) (quiet_honest 7 _ _ (reads_quiet two_lines)) ltac:(vm_compute; reflexivity)). }
  exact (follow_poll 0 7 at_start two_lines (restarted 0 after_one) two_lines ["one"; "two"]%string (reads longer) longer after_two (inr ["three"]%string)
    (follow_restart 0 7 at_start two_lines after_one two_lines _ H1) (reads_honest two_lines ("ee" +:+ nl)%string) ltac:(vm_compute; reflexivity)).
Qed.

Lemma polls_catch_up_witness : exists raw unfinished, two_lines = (unlines raw +:+ unfinished)%string /\ no_byte newline unfinished = true.
Proof.
  destruct (polls_catch_up 0 7 at_start two_lines (repeat (reads two_lines) 12) (at_start_ok two_lines) (short_small defaultMaxReadBytes two_lines eq_refl)
    ltac:(repeat constructor) eq_refl) as (raw & u & H1 & H2 & _).
  exists raw, u. split; [exact H1|exact H2].
Defined.

(** Cutting a closed file short is seen only in the position: the incarnation,
    and with it the id of the offset's name space, stays. *)
Theorem reopen_keeps_rotid w t f size : file t = None -> started t = true -> a_open w = inr f -> a_open_size w = inr size ->
  a_seek w 0 = None -> size < offset t ->
  offset (ensureOpen w t).1 = 0 /\ RotID (ensureOpen w t).1 = RotID t.
Proof.
  intros Hf Hs Ho Hn Hk Hlt. unfold ensureOpen, RotID. rewrite Hf, Ho, Hn, Hs. simpl negb. cbn iota. rewrite (proj2 (Z.ltb_lt _ _)) by done. upd. rewrite Hk. upd. done.
Qed.
Lemma reopen_keeps_rotid_witness : RotID (ensureOpen (reads "") (Resume 8 3 (New 0))).1 = "3"%string.
Proof. exact (proj2 (reopen_keeps_rotid (reads "") (Resume 8 3 (New 0)) 7 0 eq_refl eq_refl eq_refl eq_refl eq_refl eq_refl)). Defined.

(** A rotated file is read once more, and what that read does not reach, here
    two of its three lines, is never delivered. *)
Theorem rotation_leaves_backlog :
  let t := mkTailer 100 6 (Some 7%nat) 7 0 3 true true in
  let old := reads ("one" +:+ nl +:+ "two" +:+ nl +:+ "three" +:+ nl)%string in
  let rotated := mkAnswers (a_open old) (a_open_size old) (a_seek old) (a_size old) (a_seek0 old) (a_read old) (Some 8%nat) in
  let '(t', r) := Poll rotated t in
  r = inr ["one"%string] /\ file t' = None /\ offset t' = 0 /\ incarnation t' = 4.
Proof. vm_compute. done. Qed.

(** ** A source's life *)
Definition src : LogSource := mkSource "logsrc_a" "/var/log/app.log" 0 0.
Definition ck : string := "/state/logsrc_a.ckpt".
Definition seeded : gmap string string := Eval vm_compute in {[ck := ckpt_text 0 3 "/var/log/app.log"]}.
Definition ticked (c : string) (taken : bool) : tick_in :=
  mkTick false (reads c) (fun _ => 0) (fun _ => if taken then (200, None) else (429, Some "slow down"%string)) Saved.
Definition life0 : life := mkLife (start_run src seeded ck) seeded two_lines 0 [] [] 0 0.
Lemma life0_live : live src ck 7 0 3 life0.
Proof. apply live_start; [vm_compute; reflexivity|vm_compute; discriminate|vm_compute; discriminate]. Qed.

(** The server refuses the first tick's batch, the agent restarts, and the next
    tick sends the lines again. *)
Definition one_tick (y : life) (c : string) (ok : bool) : runner * gmap string string * list LogBatch * note :=
  tick src ck (ticked c ok) (loop y) (disk y).
Definition after_tick (y : life) (c : string) (ok : bool) : life :=
  let '(r', files', sent, _) := one_tick y c ok in
  let res := (Poll (reads c) (tailer (loop y))).2 in
  let passed' := (passed y + length (lines_of res))%nat in
  let first := (passed' - length (lines_sent sent) - length (pending r'))%nat in
  let old := (passed y - length (pending (loop y)))%nat in
  mkLife r' files' c passed' (zip (seq first (length (lines_sent sent))) (lines_sent sent) ++ taken y)
    (seq old (first - old) ++ gone y) (total (map bDropped sent) + told y) (forgot y).
Lemma after_tick_live y g ok : live src ck 7 0 3 y -> live src ck 7 0 3 (after_tick y (text y +:+ g)%string ok).
Proof.
  intros Hy. unfold after_tick. destruct (one_tick y (text y +:+ g)%string ok) as [[[r' files'] sent] n] eqn:E.
  destruct (Poll (reads (text y +:+ g)%string) (tailer (loop y))) as [t res] eqn:Ep.
  exact (live_tick src ck 7 0 3 y (ticked (text y +:+ g)%string ok) (text y +:+ g)%string r' files' sent n t res Hy (reads_honest (text y) g) Ep E).
Qed.
Definition life1 : life := after_tick life0 (text life0 +:+ "")%string false.
Definition life2 : life :=
  let r := start_run src (disk life1) ck in
  mkLife r (disk life1) (text life1) (lines_to 0 (text life1) (offset (tailer r))) (taken life1) (gone life1) (told life1) (dropped (loop life1) + forgot life1).
Definition life3 : life := after_tick life2 (text life2 +:+ ("ee" +:+ nl))%string true.
Lemma life3_live : live src ck 7 0 3 life3.
Proof. apply after_tick_live. apply (live_restart src ck 7 0 3 life1). apply after_tick_live, life0_live. Qed.
Example life3_taken : taken life3 = [(0%nat, "one"%string); (1%nat, "two"%string); (2%nat, "three"%string)] /\ pending (loop life1) = ["one"; "two"]%string.
Proof. vm_compute. done. Qed.
Lemma life3_text : text life3 = longer.
Proof. vm_compute. reflexivity. Qed.

(** Before the first checkpoint a restart starts at the end of the file: a line
    the server had not taken is neither sent nor counted. *)
Theorem no_checkpoint_loses_lines :
  let run c ok r := tick src ck (ticked c ok) r ∅ in
  let '(r1, files1, sent1, _) := run ""%string true (start_run src ∅ ck) in
  let '(r2, files2, sent2, _) := run ("one" +:+ nl)%string false r1 in
  let '(r3, files3, sent3, _) := run ("one" +:+ nl)%string true (start_run src files2 ck) in
  pending r2 = ["one"%string] /\ sent2 = [] /\ sent3 = [] /\ pending r3 = [] /\ dropped r3 = 0 /\ offset (tailer r3) = 4.
Proof. vm_compute. done. Qed.

Lemma checkpoint_roundtrip_witness :
  loadLogCheckpoint (saveLogCheckpoint Saved ck "/var/log/app.log" 12 3 ∅) ck "/var/log/app.log" = Some (12, 3).
Proof.
  etrans; [apply (checkpoint_roundtrip ∅ ck "/var/log/app.log" "/var/log/app.log" 12 3 Saved); [discriminate|lia|lia]|].
  vm_compute. reflexivity.
Defined.
Lemma checkpoint_in_state_dir_witness : exists lead, checkpointPath " /state " "logsrc_a" = (lead +:+ "logsrc_a" +:+ ".ckpt")%string.
Proof. destruct (checkpoint_in_state_dir " /state " "logsrc_a" ltac:(vm_compute; discriminate)) as (lead & H & _). exists lead. exact H. Defined.
Example checkpoint_paths : map (checkpointPath "/state") ["logsrc_a"; "../x"; "a/b"; ""]%string = ["/state/logsrc_a.ckpt"; ""; ""; ""]%string.
Proof. vm_compute. reflexivity. Qed.
End LogSample.
