(* ===== verification/Prefetch.v ===== *)
(** * One download of an open update (internal/prefetch/prefetch.go, fs_unix.go)

    The file at the download's name is explicit; every call that can fail has
    its outcome in [env], and the server is a function from requests to
    answers.  Error texts are abbreviated. *)
From S2P Require Import Prelude GoStrings GoPath GoSha256.
From Stdlib Require Import Ascii.

Local Open Scope Z_scope.

Module Prefetch.

Definition PartialPrefix : string := ".lattice-agent-download-".
Definition defaultInstallPath : string := "/opt/lattice/node-agent/lattice-agent".
Definition oldDefaultInstallPath : string := "/opt/lattice/lattice-agent".
Definition legacyInstallPath : string := "/usr/local/bin/lattice-agent".
Definition maxFileBytes : Z := Z.shiftl 48 20.
Definition reserveBytes : Z := Z.shiftl 256 20.
Definition minProgress : Z := Z.shiftl 16 10.
Definition RoutePrefix : string := "/api/agent/prefetch-binary/".

(** model.AgentUpdatePrefetch. *)
Record target := mkTarget {
  ApprovalID : string; Version : string; OS : string; Arch : string;
  SHA256 : string; CompressedSHA256 : string; Size : Z; BinarySize : Z; InstallPath : string
}.
#[export] Instance target_eq_dec : EqDecision target.
Proof. solve_decision. Defined.

Definition alnum (c : ascii) : bool :=
  is_digit c || ((65 <=? byte_val c) && (byte_val c <=? 90)) || ((97 <=? byte_val c) && (byte_val c <=? 122)).
Definition one_of (s : string) (c : ascii) : bool := negb (no_byte c s).
Definition approvalIDRe (s : string) : bool :=
  negb (String.eqb s "") && (String.length s <=? 64)%nat && str_forall (fun c => alnum c || one_of "_-" c) s.
Definition versionRe (s : string) : bool :=
  match s with
  | EmptyString => false
  | String c t => alnum c && (String.length t <=? 63)%nat && str_forall (fun c => alnum c || one_of "._+:-" c) t
  end.
Definition digestRe (s : string) : bool := (String.length s =? 64)%nat && str_forall Sha256.is_hex s.

Definition servedDigest (t : target) : string := if String.eqb (CompressedSHA256 t) "" then SHA256 t else CompressedSHA256 t.

Definition validateTarget (t : target) : option string :=
  if negb (approvalIDRe (ApprovalID t)) then Some "approval id is not a plain identifier"%string
  else if negb (versionRe (Version t)) then Some "version is not a plain version string"%string
  else if negb (digestRe (SHA256 t)) then Some "sha256 is not a 64-character lowercase hex digest"%string
  else if negb (String.eqb (CompressedSHA256 t) "") && negb (digestRe (CompressedSHA256 t)) then
    Some "compressed sha256 is not a 64-character lowercase hex digest"%string
  else if (Size t <=? 0) || (maxFileBytes <? Size t) || (BinarySize t <=? 0) || (maxFileBytes <? BinarySize t) then
    Some ("sizes must be between 1 and " +:+ itoa maxFileBytes +:+ " bytes")%string
  else if String.eqb (CompressedSHA256 t) "" && negb (Size t =? BinarySize t) then
    Some "an uncompressed file must be the size of the binary"%string
  else if negb (path_abs (InstallPath t)) || negb (String.eqb (path_clean (InstallPath t)) (InstallPath t)) || one_of (InstallPath t) "000" then
    Some "install path is not a clean absolute path"%string
  else None.

(** url.PathEscape and url.QueryEscape: the bytes left as they are, and a
    space in a query. *)
Definition upper_hex (n : Z) : ascii := byte_of (if n <? 10 then 48 + n else 55 + n).
Fixpoint escape (keep : ascii -> bool) (space : string) (s : string) : string :=
  match s with
  | EmptyString => ""
  | String c t =>
      (if keep c then String c "" else if Ascii.eqb c " " then space
       else String "%" (String (upper_hex (byte_val c / 16)) (String (upper_hex (byte_val c mod 16)) ""))) +:+ escape keep space t
  end%string.
Definition PathEscape : string -> string := escape (fun c => alnum c || one_of "-_.~$&+=:@" c) "%20".
Definition QueryEscape : string -> string := escape (fun c => alnum c || one_of "-_.~" c) "+".

Definition objectPath (t : target) : string :=
  (let p := PathEscape (Version t) +:+ "/" +:+ OS t +:+ "/" +:+ Arch t +:+ "/" +:+ SHA256 t in
   if negb (String.eqb (CompressedSHA256 t) "") then p +:+ "/" +:+ CompressedSHA256 t +:+ ".gz" else p)%string.

Definition ScriptDir (installPath executable : string) : option string :=
  let target :=
    if has_suffix executable "/lattice-agent" &&
       (String.eqb installPath defaultInstallPath || String.eqb installPath oldDefaultInstallPath || String.eqb installPath legacyInstallPath)
    then executable else installPath in
  if String.eqb executable "" || negb (String.eqb target executable) then None else Some (path_dir target).

(** Printable ASCII, cut to a length. *)
Fixpoint printable (s : string) : string :=
  match s with
  | EmptyString => ""
  | String c t => if (byte_val c <? 32) || (126 <? byte_val c) then printable t else String c (printable t)
  end.
Definition boundReason (s : string) (n : nat) : string := str_take n (printable s).

Definition parseContentRange (v : string) : option (Z * Z) :=
  rest ← cut_prefix v "bytes ";
  '(span, size) ← cut rest "/";
  '(from, _) ← cut span "-";
  first ← parse_int from;
  total ← parse_int size;
  Some (first, total).

(** ** The file at the download's name *)

(** A file of the agent's user with one name; a regular file that is not;
    a symlink; a directory; anything else. *)
Inductive node := Owned (data : string) | Foreign (data : string) | Link | Dir | Special.

(** The outcomes of the calls of one attempt; an error is its text. *)
Record env := mkEnv {
  e_free : string + Z;
  e_open : option string;
  e_chmod : option string;
  e_remove : option string;
  e_create : option string;
  e_fresh : bool;
  e_reset : option string;
  e_read : option string;
  e_seek : option string;
  e_whole : option string;
  e_disk : Z;
  e_sync : option string;
  e_recheck : option string;
  e_discard : option string
}.

(** A request for the file from a byte on, and an answer: the status, two of
    its headers, the bytes its body delivers, and the error that cut it. *)
Record request := mkRequest { q_url : string; q_range : option string; q_if_range : option string }.
Record response := mkResponse { r_status : Z; r_content_range : string; r_etag : string; r_body : string; r_cut : option string }.

Inductive pstate := NoState | Fetching | Waiting | PRefused | Complete.
#[export] Instance pstate_eq_dec : EqDecision pstate.
Proof. solve_decision. Defined.

(** [openPartial]: an owned file is continued; whatever else stands at the name
    is removed and a new file created. *)
Definition openPartial (e : env) (disk : option node) : option node * (string + Z) :=
  let replace :=
    match e_remove e with
    | Some err => (disk, inl ("remove what stands at the download's name: " +:+ err)%string)
    | None =>
        match e_create e with
        | Some err => (None, inl err)
        | None => if e_fresh e then (Some (Owned ""), inr 0)
                  else (Some (Foreign ""), inl "the new download is not a regular file of this user"%string)
        end
    end in
  let continue (data : string) :=
    match e_chmod e with
    | Some err => (Some (Owned data), inl err)
    | None => (Some (Owned data), inr (Z.of_nat (String.length data)))
    end in
  match disk with
  | Some Link | Some Dir => replace
  | _ =>
      match e_open e with
      | Some err => (disk, inl err)
      | None =>
          match disk with
          | None => continue ""%string
          | Some (Owned data) => continue data
          | _ => replace
          end
      end
  end.

Definition fileMatches (err : option string) (data digest : string) : string + bool :=
  match err with Some err => inl err | None => inr (String.eqb (Sha256.hex (Sha256.Sum256 data)) digest) end.

Section Attempt.
Context (Server NodeID : string).
(** The server's answer, or why the request failed. *)
Context (do_request : request -> string + response).

Definition quoted (s : string) : string := String "034" (s +:+ String "034" "")%string.
Definition make_request (t : target) (have : Z) : request :=
  mkRequest (Server +:+ RoutePrefix +:+ objectPath t +:+ "?node_id=" +:+ QueryEscape NodeID)%string
    (if 0 <? have then Some ("bytes=" +:+ itoa have +:+ "-")%string else None)
    (if 0 <? have then Some (quoted (servedDigest t)) else None).

(** [download] on a file with these bytes, which are [have]: the file
    afterwards, its size, and the error. *)
Definition download (e : env) (t : target) (data : string) (have : Z) : string * Z * option string :=
  let etag := quoted (servedDigest t) in
  match do_request (make_request t have) with
  | inl err => (data, have, Some ("request failed: " +:+ err)%string)
  | inr resp =>
      let accept (start : Z) :=
        if negb (String.eqb (r_etag resp) etag) then
          (data, have, Some ("the server's ETag does not name the pinned file: " +:+ boundReason (r_etag resp) 80)%string)
        else
          let whole := (r_status resp =? 200) && (0 <? have) in
          match (if whole then e_whole e else None) with
          | Some err => (data, have, Some err)
          | None =>
              let data := if whole then ""%string else data in
              let have := if whole then 0 else have in
              match e_seek e with
              | Some err => (data, have, Some err)
              | None =>
                  let body := str_take (Z.to_nat (Size t - start)) (r_body resp) in
                  let chunk := str_take (Z.to_nat (e_disk e)) body in
                  let data := (data +:+ chunk)%string in
                  let have := start + Z.of_nat (String.length chunk) in
                  if (String.length chunk <? String.length body)%nat || bool_decide (is_Some (r_cut resp)) then
                    (data, have, Some ("download cut after " +:+ itoa have +:+ " bytes")%string)
                  else if have <? Size t then
                    (data, have, Some ("download ended after " +:+ itoa have +:+ " of " +:+ itoa (Size t) +:+ " bytes")%string)
                  else (data, have, None)
              end
          end in
      if r_status resp =? 200 then accept 0
      else if r_status resp =? 206 then
        match parseContentRange (r_content_range resp) with
        | Some (start, total) =>
            if negb (start =? have) || negb (total =? Size t) then
              (data, have, Some ("the server answered another range: " +:+ boundReason (r_content_range resp) 80)%string)
            else accept start
        | None => (data, have, Some ("the server answered another range: " +:+ boundReason (r_content_range resp) 80)%string)
        end
      else if (r_status resp =? 301) || (r_status resp =? 302) || (r_status resp =? 303) || (r_status resp =? 307) || (r_status resp =? 308) then
        (data, have, Some "the server answered with a redirect, which prefetch never follows"%string)
      else (data, have, Some ("the server answered " +:+ itoa (r_status resp))%string)
  end.

Definition kept_of (disk : option node) (t : target) : Z :=
  match disk with
  | Some (Owned data) | Some (Foreign data) => Z.min (Z.of_nat (String.length data)) (Size t)
  | _ => 0
  end.
Definition need (t : target) (kept : Z) : Z := u64 (u64 (u64 (Size t - kept) + u64 (3 * u64 (BinarySize t))) + reserveBytes).
Definition no_room (e : env) (t : target) (kept : Z) : option string :=
  if kept <? Size t then
    match e_free e with
    | inl err => Some ("cannot read the free space: " +:+ err)%string
    | inr avail =>
        if avail <? need t kept then
          Some (itoa avail +:+ " bytes free beside the agent; the download needs " +:+ itoa (Size t - kept) +:+
                " more and must leave room for the update and " +:+ itoa reserveBytes +:+ " spare")%string
        else None
    end
  else None.

(** What the attempt does to an opened file of [have] bytes once it is neither
    too long nor complete: the rest is downloaded and the whole is checked. *)
Definition fetch_rest (e : env) (t : target) (data : string) (have : Z) : option node * (pstate * string * Z * Z) :=
  let before := have in
  let '(data, have, err) := download e t data have in
  let gained := Z.max (have - before) 0 in
  match err with
  | Some err => (Some (Owned data), (Waiting, err, have, gained))
  | None =>
      match e_sync e with
      | Some err => (Some (Owned data), (Waiting, ("cannot sync the download: " +:+ err)%string, have, 0))
      | None =>
          match fileMatches (e_recheck e) data (servedDigest t) with
          | inl err => (Some (Owned data), (Waiting, ("cannot read the download: " +:+ err)%string, have, 0))
          | inr false =>
              (Some (Owned (match e_discard e with None => "" | Some _ => data end)),
               (Waiting, "the finished download did not match its digest and was discarded"%string, 0, 0))
          | inr true => (Some (Owned data), (Complete, ""%string, have, gained))
          end
      end
  end.

(** [attempt]: the file afterwards, the state, the reason, the bytes the file
    holds and the bytes gained. *)
Definition attempt (e : env) (t : target) (disk : option node) : option node * (pstate * string * Z * Z) :=
  let kept := kept_of disk t in
  match no_room e t kept with
  | Some err => (disk, (PRefused, err, kept, 0))
  | None =>
      match openPartial e disk with
      | (disk, inl err) => (disk, (Waiting, ("cannot open the download: " +:+ err)%string, 0, 0))
      | (disk, inr have) =>
          let data := match disk with Some (Owned data) => data | _ => ""%string end in
          let reset (k : unit -> option node * (pstate * string * Z * Z)) :=
            match e_reset e with
            | Some err => (disk, (Waiting, ("cannot reset the download: " +:+ err)%string, have, 0))
            | None => k tt
            end in
          if Size t <? have then reset (fun _ => fetch_rest e t "" 0)
          else if have =? Size t then
            match fileMatches (e_read e) data (servedDigest t) with
            | inl err => (disk, (Waiting, ("cannot read the download: " +:+ err)%string, have, 0))
            | inr true => (disk, (Complete, ""%string, have, 0))
            | inr false => reset (fun _ => fetch_rest e t "" 0)
            end
          else fetch_rest e t data have
      end
  end.
End Attempt.
End Prefetch.
