(* ===== verification/PrefetchProps.v ===== *)
(** * What one download promises *)
From S2P Require Import Prelude GoStrings GoPath GoSha256 Prefetch.
From Stdlib Require Import Ascii.

Local Open Scope Z_scope.

Module FetchProps.
Import Prefetch.

Abbreviation len s := (Z.of_nat (String.length s)).

Lemma len_app a b : len (a +:+ b)%string = len a + len b.
Proof. rewrite string_app_length. lia. Qed.

Section Attempt.
Context (Server NodeID : string) (do_request : request -> string + response).
Abbreviation run := (attempt Server NodeID do_request).
Abbreviation get := (download Server NodeID do_request).

(** A server's answers carry the bytes of one file: an answer with the pinned
    digest as its tag is the file from the start, or from where its range says,
    as far as it goes. *)
Definition text_prefix (a b : string) : Prop := exists c, b = (a +:+ c)%string.
Definition honest (t : target) (D : string) : Prop := forall q r, do_request q = inr r -> r_etag r = quoted (servedDigest t) ->
  (r_status r = 200 -> text_prefix (r_body r) D) /\
  (r_status r = 206 -> forall start total, parseContentRange (r_content_range r) = Some (start, total) -> 0 <= start -> text_prefix (r_body r) (str_drop (Z.to_nat start) D)).

Lemma text_prefix_nil b : text_prefix "" b.
Proof. by exists b. Qed.
Lemma text_prefix_take n a b : text_prefix a b -> text_prefix (str_take n a) b.
Proof. intros [c ->]. exists (str_drop n a +:+ c)%string. by rewrite <-string_app_assoc, str_take_drop. Qed.
Lemma text_prefix_next a x b : text_prefix a b -> text_prefix x (str_drop (String.length a) b) -> text_prefix (a +:+ x) b.
Proof. intros [c ->] [d Hd]. rewrite str_drop_app in Hd. subst c. exists d. by rewrite string_app_assoc. Qed.
Lemma text_prefix_full a b : text_prefix a b -> len a = len b -> a = b.
Proof. intros [c ->] Hl. rewrite len_app in Hl. destruct c; [by rewrite app_empty_r|simpl in Hl; lia]. Qed.
Lemma text_prefix_len a b : text_prefix a b -> len a <= len b.
Proof. intros [c ->]. rewrite len_app. lia. Qed.

(** The ways a download ends: nothing changed, the file emptied, or a piece of
    a body appended to the file or to the emptied one. *)
Definition taken (e : env) (t : target) (base : string) (r : response) : string :=
  str_take (Z.to_nat (e_disk e)) (str_take (Z.to_nat (Size t - len base)) (r_body r)).
Definition usable (t : target) (data base : string) (r : response) : Prop :=
  do_request (make_request Server NodeID t (len data)) = inr r /\ r_etag r = quoted (servedDigest t) /\
  ((r_status r = 200 /\ base = ""%string) \/
   (r_status r = 206 /\ base = data /\ parseContentRange (r_content_range r) = Some (len data, Size t))).
Lemma download_shape e t data data' have' err : get e t data (len data) = (data', have', err) ->
  have' = len data' /\
  ((data' = data /\ is_Some err) \/ (data' = ""%string /\ is_Some err) \/
   exists base r, usable t data base r /\ data' = (base +:+ taken e t base r)%string /\ (err = None -> Size t <= have')).
Proof.
  unfold download. destruct (do_request _) as [|r] eqn:Hq; [intros [= <- <- <-]; eauto|].
  destruct (Z.eqb_spec (r_status r) 200) as [H200|H200].
  - destruct (String.eqb_spec (r_etag r) (quoted (servedDigest t))) as [Ht|Ht]; cbn [negb]; [|intros [= <- <- <-]; eauto].
    simpl andb. assert (Hbase : (if 0 <? len data then ""%string else data) = ""%string).
    { destruct (Z.ltb_spec 0 (len data)); [done|]. destruct data; [done|simpl in *; lia]. }
    assert (Hzero : (if 0 <? len data then 0 else len data) = 0) by (destruct (Z.ltb_spec 0 (len data)); lia).
    rewrite Hbase, Hzero. destruct (if 0 <? len data then e_whole e else None); [intros [= <- <- <-]; eauto|].
    destruct (e_seek e); [intros [= <- <- <-]; eauto|].
    assert (Hend : ("" +:+ taken e t "" r)%string = taken e t "" r) by done. unfold taken in Hend. simpl (len "") in Hend. rewrite !Z.sub_0_r, !app_empty, !Z.add_0_l in *.
    set (chunk := str_take (Z.to_nat (e_disk e)) _).
    assert (Hu : usable t data "" r) by (split_and!; [done|done|left; done]).
    assert (Ht' : chunk = taken e t "" r) by (unfold taken; simpl (len ""); by rewrite Z.sub_0_r).
    destruct (_ || _); [intros [= <- <- <-]; split; [done|]; right; right; exists ""%string, r; rewrite app_empty; done|].
    destruct (Z.ltb_spec (len chunk) (Size t)); intros [= <- <- <-]; (split; [done|]); right; right; exists ""%string, r; rewrite app_empty; split_and!; try done.
  - destruct (Z.eqb_spec (r_status r) 206) as [H206|H206]; [|destruct (_ || _); intros [= <- <- <-]; eauto].
    destruct (parseContentRange _) as [[start total]|] eqn:Hr; [|intros [= <- <- <-]; eauto].
    destruct (Z.eqb_spec start (len data)) as [->|]; [|intros [= <- <- <-]; eauto].
    destruct (Z.eqb_spec total (Size t)) as [->|]; [|intros [= <- <- <-]; eauto]. simpl orb. cbn iota.
    destruct (String.eqb_spec (r_etag r) (quoted (servedDigest t))) as [Ht|Ht]; cbn [negb]; [|intros [= <- <- <-]; eauto].
    simpl andb. cbn iota. destruct (e_seek e); [intros [= <- <- <-]; eauto|].
    set (chunk := str_take (Z.to_nat (e_disk e)) _).
    assert (Hu : usable t data data r) by (split_and!; [done|done|right; done]).
    assert (Hl : len data + len chunk = len (data +:+ chunk)%string) by (symmetry; apply len_app). rewrite Hl.
    destruct (_ || _); [intros [= <- <- <-]; split; [done|]; right; right; exists data, r; done|].
    destruct (Z.ltb_spec (len (data +:+ chunk)%string) (Size t)); intros [= <- <- <-]; (split; [done|]); right; right; exists data, r; split_and!; try done.
Qed.

Lemma taken_fits e t base r : len (base +:+ taken e t base r)%string <= Z.max (len base) (Size t).
Proof. rewrite len_app. unfold taken. rewrite !str_take_len. lia. Qed.
Lemma download_fits e t data data' have' err : get e t data (len data) = (data', have', err) -> 0 <= Size t -> len data <= Size t -> len data' <= Size t.
Proof.
  intros Hg Hs Hd. destruct (download_shape _ _ _ _ _ _ Hg) as (_ & [[-> _]|[[-> _]|(base & r & (_ & _ & Hu) & -> & _)]]); [done|simpl; lia|].
  assert (Hf := taken_fits e t base r). assert (Hb : len base <= Size t) by (destruct Hu as [[_ ->]|(_ & -> & _)]; simpl; lia). lia.
Qed.

(** ** An attempt *)

(** What a whole attempt leaves at the name: what stood there, nothing, an
    emptied file, or what a download made of an empty file or of the one there. *)
Definition checked (t : target) (c : string) : Prop := len c = Size t /\ Sha256.hex (Sha256.Sum256 c) = servedDigest t.
Definition downloaded (e : env) (t : target) (data c : string) : Prop := exists have err, get e t data (len data) = (c, have, err).

Lemma fetch_rest_shape e t data disk' st reason have gained : 0 <= Size t -> len data <= Size t ->
  fetch_rest Server NodeID do_request e t data (len data) = (disk', (st, reason, have, gained)) ->
  exists c, disk' = Some (Owned c) /\ (c = ""%string \/ downloaded e t data c) /\
    (st = Complete -> checked t c /\ have = Size t) /\ (st = Complete \/ st = Waiting).
Proof.
  intros Hs Hd Hf. unfold fetch_rest in Hf. destruct (get e t data (len data)) as [[c hv] err] eqn:Hg.
  assert (Hdl : downloaded e t data c) by (by exists hv, err). assert (Hfit := download_fits _ _ _ _ _ _ Hg Hs Hd).
  destruct (download_shape _ _ _ _ _ _ Hg) as [Hhave Hshape].
  assert (Hw : forall c' rs h g, c' = ""%string \/ downloaded e t data c' -> (Some (Owned c'), (Waiting, rs, h, g)) = (disk', (st, reason, have, gained)) ->
    exists c, disk' = Some (Owned c) /\ (c = ""%string \/ downloaded e t data c) /\
    (st = Complete -> checked t c /\ have = Size t) /\ (st = Complete \/ st = Waiting)).
  { intros c' rs h g Hc' [= <- <- <- <- <-]. exists c'. split_and!; [done|done|done|by right]. }
  destruct err as [err|]; [apply (Hw c _ _ _ (or_intror Hdl) Hf)|].
  destruct (e_sync e); [apply (Hw c _ _ _ (or_intror Hdl) Hf)|]. unfold fileMatches in Hf. destruct (e_recheck e); [apply (Hw c _ _ _ (or_intror Hdl) Hf)|].
  destruct (String.eqb_spec (Sha256.hex (Sha256.Sum256 c)) (servedDigest t)) as [Hm|Hm].
  - injection Hf as <- <- <- <- <-. exists c. split_and!; [done|by right| |by left]. intros _. assert (Hfull : Size t <= hv).
    { destruct Hshape as [[_ []]|[[_ []]|(_ & _ & _ & _ & Hfull)]]; [done|done|by apply Hfull]. }
    unfold checked. split; [split; [lia|done]|lia].
  - refine (Hw _ _ _ _ _ Hf). destruct (e_discard e); [by right|by left].
Qed.

Lemma open_shape e disk disk' r : openPartial e disk = (disk', r) ->
  (disk' = disk \/ disk' = None \/ disk' = Some (Owned "") \/ disk' = Some (Foreign "")) /\
  (forall have, r = inr have -> exists data, disk' = Some (Owned data) /\ have = len data /\ (disk = Some (Owned data) \/ data = ""%string)).
Proof.
  unfold openPartial. intros Ho.
  assert (Hrep : match e_remove e with
    | Some err => (disk, inl ("remove what stands at the download's name: " +:+ err)%string)
    | None => match e_create e with
        | Some err => (None, inl err)
        | None => if e_fresh e then (Some (Owned ""), inr 0) else (Some (Foreign ""), inl "the new download is not a regular file of this user"%string)
        end end = (disk', r) ->
    (disk' = disk \/ disk' = None \/ disk' = Some (Owned "") \/ disk' = Some (Foreign "")) /\
    (forall have, r = inr have -> exists data, disk' = Some (Owned data) /\ have = len data /\ (disk = Some (Owned data) \/ data = ""%string))).
  { destruct (e_remove e); [intros [= <- <-]; split; [by left|done]|]. destruct (e_create e); [intros [= <- <-]; split; [auto|done]|].
    destruct (e_fresh e); intros [= <- <-]; (split; [auto|]); [|done]. intros have [= <-]. exists ""%string. auto. }
  destruct disk as [[data|data| | |]|]; try (by apply Hrep); destruct (e_open e); try (injection Ho as <- <-; split; [by left|done]); try (by apply Hrep);
    destruct (e_chmod e); injection Ho as <- <-; (split; [auto|]); try done; intros have [= <-]; eauto.
Qed.

Definition outcome (e : env) (t : target) (disk disk' : option node) (st : pstate) (have : Z) : Prop :=
  (st = Complete -> exists c, disk' = Some (Owned c) /\ checked t c /\ have = Size t) /\
  (disk' = disk \/ disk' = None \/ disk' = Some (Foreign "") \/ disk' = Some (Owned "") \/
   exists data c, disk' = Some (Owned c) /\ (data = ""%string \/ (disk = Some (Owned data) /\ len data <= Size t)) /\ downloaded e t data c).

Lemma attempt_shape e t disk disk' st reason have gained : 0 < Size t -> run e t disk = (disk', (st, reason, have, gained)) ->
  (no_room e t (kept_of disk t) <> None -> disk' = disk /\ st = PRefused) /\ outcome e t disk disk' st have.
Proof.
  intros Hs Hr. unfold attempt in Hr. destruct (no_room e t (kept_of disk t)).
  { injection Hr as <- <- <- <- <-. split; [done|]. split; [done|by left]. }
  split; [done|]. destruct (openPartial e disk) as [d1 o] eqn:Ho. destruct (open_shape _ _ _ _ Ho) as [Hd1 Hok].
  destruct o as [err|hv]; [injection Hr as <- <- <- <- <-; split; [done|]; destruct Hd1 as [->|[->|[->| ->]]]; auto|].
  destruct (Hok hv eq_refl) as (data & -> & -> & Hdata). clear Hok Hd1 Ho.
  assert (Hrest : forall data0, data0 = ""%string \/ (data0 = data /\ len data <= Size t) ->
    fetch_rest Server NodeID do_request e t data0 (len data0) = (disk', (st, reason, have, gained)) -> outcome e t disk disk' st have).
  { intros d0 Hd0 Hf. destruct (fetch_rest_shape e t d0 _ _ _ _ _ ltac:(lia) ltac:(destruct Hd0 as [->|[-> ?]]; simpl; lia) Hf) as (c & -> & Hc & Hcomp & _).
    split; [intros Hst; exists c; by destruct (Hcomp Hst)|]. destruct Hc as [->|Hdl]; [auto|]. do 4 right. exists d0, c. split_and!; [done| |done].
    destruct Hd0 as [->|[-> Hle]]; [by left|]. destruct Hdata as [->| ->]; auto. }
  assert (Hstay : forall s rs h g, (Some (Owned data), (s, rs, h, g)) = (disk', (st, reason, have, gained)) -> (s = Complete -> checked t data /\ h = Size t) ->
    outcome e t disk disk' st have).
  { intros s rs h g [= <- <- <- <- <-] Hc. split; [intros Hst; exists data; by destruct (Hc Hst)|]. destruct Hdata as [->| ->]; auto. }
  destruct (Z.ltb_spec (Size t) (len data)).
  - destruct (e_reset e); [by eapply Hstay|]. apply (Hrest ""%string); [by left|done].
  - destruct (Z.eqb_spec (len data) (Size t)) as [He|He]; [|apply (Hrest data); [by right|done]].
    unfold fileMatches in Hr. destruct (e_read e); [by eapply Hstay|].
    destruct (String.eqb_spec (Sha256.hex (Sha256.Sum256 data)) (servedDigest t)) as [Hm|Hm]; [eapply Hstay; [exact Hr|done]|].
    destruct (e_reset e); [by eapply Hstay|]. apply (Hrest ""%string); [by left|done].
Qed.

(** ** What an attempt is held to *)

Lemma need_exact t kept : 0 <= kept < Size t -> Size t <= maxFileBytes -> 0 < BinarySize t <= maxFileBytes ->
  need t kept = Size t - kept + 3 * BinarySize t + reserveBytes.
Proof.
  intros Hk Hs Hb. assert (Hm : maxFileBytes = 50331648) by reflexivity. assert (Hr : reserveBytes = 268435456) by reflexivity. unfold need. rewrite Hm, Hr in *.
  rewrite (u64_small (Size t - kept)), (u64_small (BinarySize t)), (u64_small (3 * BinarySize t)), (u64_small (Size t - kept + 3 * BinarySize t)), u64_small by lia. done.
Qed.
Lemma valid_sizes t : validateTarget t = None -> 0 < Size t <= maxFileBytes /\ 0 < BinarySize t <= maxFileBytes.
Proof.
  unfold validateTarget. do 3 (destruct (negb _); [done|]). destruct (negb _ && _); [done|].
  destruct (Z.leb_spec (Size t) 0), (Z.ltb_spec maxFileBytes (Size t)), (Z.leb_spec (BinarySize t) 0), (Z.ltb_spec maxFileBytes (BinarySize t)); simpl; done || lia.
Qed.


(** A server whose answers carry the bytes of one file never makes the kept
    file anything but a beginning of it, whatever is cut, refused or fails;
    and a download that is complete is that file. *)
Theorem partial_is_a_beginning e t D disk disk' st reason have gained :
  honest t D -> len D = Size t -> 0 < Size t ->
  (forall c, disk = Some (Owned c) -> text_prefix c D) ->
  run e t disk = (disk', (st, reason, have, gained)) ->
  (forall c, disk' = Some (Owned c) -> text_prefix c D) /\ (st = Complete -> disk' = Some (Owned D)).
Proof.
  intros Hh HD Hs Hdisk Hr. destruct (attempt_shape e t disk disk' st reason have gained Hs Hr) as [_ [Hc Hshape]].
  assert (Hpre : forall c, disk' = Some (Owned c) -> text_prefix c D).
  { intros c Hc'. destruct Hshape as [H|[H|[H|[H|(data & c' & H & Hd & have' & err & Hg)]]]]; rewrite H in Hc'; try done.
    - by apply Hdisk.
    - injection Hc' as <-. apply text_prefix_nil.
    - injection Hc' as <-. assert (Hdata : text_prefix data D) by (destruct Hd as [->|[Hd _]]; [apply text_prefix_nil|by apply Hdisk]).
      destruct (download_shape _ _ _ _ _ _ Hg) as (_ & [[-> _]|[[-> _]|(base & r & (Hq & Het & Hu) & -> & _)]]); [done|apply text_prefix_nil|].
      destruct (Hh _ r Hq Het) as [H200 H206]. unfold taken. destruct Hu as [[Hst ->]|(Hst & -> & Hp)].
      + rewrite app_empty. by apply text_prefix_take, text_prefix_take, H200.
      + apply text_prefix_next; [done|]. apply text_prefix_take, text_prefix_take. rewrite <-(Nat2Z.id (String.length data)). by apply (H206 Hst _ _ Hp); lia. }
  split; [done|]. intros Hst. destruct (Hc Hst) as (c & -> & [Hl _] & _). f_equal. f_equal. apply text_prefix_full; [by apply Hpre|lia].
Qed.

(** ** Every line gets there *)

(** An attempt on which nothing fails here, with room; and a server that
    answers every request with at least one byte of what it asks for. *)
Record smooth (t : target) (e : env) : Prop := {
  s_free : exists avail, e_free e = inr avail /\ Size t + 3 * BinarySize t + reserveBytes <= avail;
  s_open : e_open e = None; s_chmod : e_chmod e = None; s_read : e_read e = None; s_seek : e_seek e = None; s_whole : e_whole e = None;
  s_disk : Size t <= e_disk e; s_sync : e_sync e = None; s_recheck : e_recheck e = None
}.
Definition serves (t : target) (D : string) : Prop := forall have, 0 <= have < Size t ->
  exists r, do_request (make_request Server NodeID t have) = inr r /\ r_etag r = quoted (servedDigest t) /\
    r_body r <> ""%string /\ text_prefix (r_body r) (str_drop (Z.to_nat have) D) /\
    if have =? 0 then r_status r = 200 else r_status r = 206 /\ parseContentRange (r_content_range r) = Some (have, Size t).

Lemma download_gains e t D c data' have' err : smooth t e -> serves t D -> len c < Size t -> text_prefix c D ->
  get e t c (len c) = (data', have', err) -> text_prefix data' D /\ have' = len data' /\ len c < len data' <= Size t /\ (err = None -> len data' = Size t).
Proof.
  intros He Hsv Hlt Hpre Hg. destruct (Hsv (len c) ltac:(lia)) as (r & Hq & Het & Hne & Hb & Hst).
  destruct (download_shape _ _ _ _ _ _ Hg) as [Hhave Hshape]. assert (Hfit := download_fits _ _ _ _ _ _ Hg ltac:(lia) ltac:(lia)).
  assert (Hdata : data' = (c +:+ taken e t c r)%string).
  { unfold download in Hg. rewrite Hq, Het, String.eqb_refl in Hg. cbn [negb] in Hg. rewrite (s_seek t e He), (s_whole t e He) in Hg. unfold taken. destruct (Z.eqb_spec (len c) 0) as [H0|H0].
    - assert (c = ""%string) as -> by (destruct c; [done|simpl in *; lia]). rewrite Hst in Hg. simpl in Hg. rewrite Z.sub_0_r in *. rewrite app_empty.
      destruct (_ || _); [by injection Hg as <- <- <-|]. destruct (_ <? _); by injection Hg as <- <- <-.
    - destruct Hst as [Hst Hp]. rewrite Hst in Hg. simpl Z.eqb in Hg. cbn iota in Hg. rewrite Hp, !Z.eqb_refl in Hg. simpl in Hg.
      destruct (_ || _); [by injection Hg as <- <- <-|]. destruct (_ <? _); by injection Hg as <- <- <-. }
  assert (Hlen : 0 < len (taken e t c r)).
  { unfold taken. rewrite !str_take_len. assert (Hd := s_disk t e He). destruct (r_body r); [done|simpl String.length]. lia. }
  split_and!; try done.
  - rewrite Hdata. apply text_prefix_next; [done|]. unfold taken. apply text_prefix_take, text_prefix_take. by rewrite Nat2Z.id in Hb.
  - rewrite Hdata, len_app. lia.
  - intros ->. destruct Hshape as [[_ []]|[[_ []]|(base & r' & _ & _ & Hfull)]]; [done|done|specialize (Hfull eq_refl); lia].
Qed.

Lemma attempt_gains e t D disk c disk' st reason have gained : smooth t e -> serves t D -> validateTarget t = None -> len D = Size t ->
  Sha256.hex (Sha256.Sum256 D) = servedDigest t -> (disk = Some (Owned c) \/ (disk = None /\ c = ""%string)) -> text_prefix c D ->
  run e t disk = (disk', (st, reason, have, gained)) ->
  (st = Complete /\ disk' = Some (Owned D)) \/ (st = Waiting /\ exists c', disk' = Some (Owned c') /\ text_prefix c' D /\ len c < len c').
Proof.
  intros He Hsv Hv HD Hm Hdisk Hpre Hr. destruct (valid_sizes t Hv) as [Hs Hb]. unfold attempt in Hr.
  assert (Hk : 0 <= kept_of disk t <= Size t) by (unfold kept_of; destruct disk as [[]|]; lia).
  assert (Hroom : no_room e t (kept_of disk t) = None).
  { unfold no_room. destruct (Z.ltb_spec (kept_of disk t) (Size t)); [|done]. destruct (s_free t e He) as (avail & -> & Ha).
    rewrite need_exact by lia. by rewrite (proj2 (Z.ltb_ge _ _)) by lia. }
  rewrite Hroom in Hr. assert (Ho : openPartial e disk = (Some (Owned c), inr (len c))).
  { unfold openPartial. rewrite (s_open t e He), (s_chmod t e He). by destruct Hdisk as [->|[-> ->]]. }
  rewrite Ho in Hr. assert (Hcl := text_prefix_len _ _ Hpre). rewrite (proj2 (Z.ltb_ge _ _)) in Hr by lia.
  destruct (Z.eqb_spec (len c) (Size t)) as [Hfull|Hlt].
  - assert (c = D) as -> by (apply text_prefix_full; [done|lia]). unfold fileMatches in Hr. rewrite (s_read t e He), Hm, String.eqb_refl in Hr.
    injection Hr as <- <- <- <- <-. by left.
  - unfold fetch_rest in Hr. destruct (get e t c (len c)) as [[c' hv] err] eqn:Hg.
    destruct (download_gains e t D c c' hv err He Hsv ltac:(lia) Hpre Hg) as (Hpre' & Hhv & Hgr & Hdone). destruct err as [err|].
    + injection Hr as <- <- <- <- <-. right. split; [done|]. exists c'. split_and!; [done|done|lia].
    + rewrite (s_sync t e He) in Hr. assert (c' = D) as -> by (apply text_prefix_full; [done|rewrite Hdone by done; done]).
      unfold fileMatches in Hr. rewrite (s_recheck t e He), Hm, String.eqb_refl in Hr. injection Hr as <- <- <- <- <-. by left.
Qed.

(** Attempts until one is complete. *)
Fixpoint attempts (es : list env) (t : target) (disk : option node) : option node * pstate :=
  match es with
  | [] => (disk, NoState)
  | e :: es =>
      let '(disk, (st, _, _, _)) := run e t disk in
      if decide (st = Complete) then (disk, Complete) else attempts es t disk
  end.

(** However slow the line: when every answer brings at least one byte of the
    file and nothing fails here, as many attempts as bytes are missing, and one
    more, complete the download, from whatever beginning of it was kept. *)
Theorem fetch_finishes t D es c : validateTarget t = None -> len D = Size t -> Sha256.hex (Sha256.Sum256 D) = servedDigest t ->
  serves t D -> Forall (smooth t) es -> text_prefix c D -> Size t - len c < zlen es ->
  attempts es t (Some (Owned c)) = (Some (Owned D), Complete).
Proof.
  intros Hv HD Hm Hsv Hes. revert c. induction Hes as [|e es He _ IH]; intros c Hpre Hn.
  - assert (Hcl := text_prefix_len _ _ Hpre). change (zlen []) with 0 in Hn. lia.
  - simpl. destruct (run e t (Some (Owned c))) as [disk' [[[st reason] have] gained]] eqn:Hr. rewrite zlen_cons in Hn.
    destruct (attempt_gains e t D _ c _ _ _ _ _ He Hsv Hv HD Hm (or_introl eq_refl) Hpre Hr) as [[-> ->]|[-> (c' & -> & Hpre' & Hgr)]].
    + by destruct (decide _).
    + destruct (decide _); [done|]. apply IH; [done|lia].
Qed.
End Attempt.
End FetchProps.
