(* ===== verification/PrefetchRun.v ===== *)
(** * The prefetcher (internal/prefetch/prefetch.go)

    Its state under the lock and one function per critical section.  What the
    file system and the clock answer to one of them is in [kenv]; the texts of
    the reasons are those of the code where they say what was refused. *)
From S2P Require Import Prelude GoStrings GoPath GoSha256 Prefetch.
From Stdlib Require Import Ascii.

Local Open Scope Z_scope.

Module Fetcher.
Import Prefetch.

Definition firstBackoff : duration := 30 * second.
Definition maxBackoff : duration := 15 * minute.
Definition progressRetry : duration := 10 * second.
Definition maxKeep : nat := 16.
Definition maxReason : nat := 200.

(** model.AgentUpdateConfig. *)
Record updateConfig := mkConfig { cPrefetch : option target; cKeep : list string }.

Record Options := mkOptions {
  Executable : string; AgentVersion : string; Veto : bool; Root : bool; CanRunUpdate : bool; GOOS : string; GOARCH : string
}.

(** A run has a number of its own; [cancelled] is its context. *)
Record fetchRun := mkRun { rId : nat; rKey : string; rTarget : target; rPath : string; cancelled : bool }.
Record fileStamp := mkStamp { sPath : string; sSize : Z; sMtime : time }.
Definition no_stamp : fileStamp := mkStamp "" 0 0.

Record Prefetcher := mkPrefetcher {
  known : bool; cfg : updateConfig; held : Z; closed : bool; run : option fetchRun;
  key : string; state : pstate; reason : string; bytes : Z; failures : Z; retryAt : time; verified : fileStamp
}.
#[export] Instance Prefetcher_eta : Etable Prefetcher := fun p =>
  mkPrefetcher (known p) (cfg p) (held p) (closed p) (run p) (key p) (state p) (reason p) (bytes p) (failures p) (retryAt p) (verified p).

Definition New : Prefetcher := mkPrefetcher false (mkConfig None []) 0 false None "" NoState "" 0 0 0 no_stamp.

(** Whether a directory is safe, its entries with whether each is a directory,
    whether a removal works, the clock, and a file's size and time. *)
Record kenv := mkKenv {
  secureDir : string -> option string;
  k_entries : option (list (string * bool));
  k_removed : string -> bool;
  k_now : time;
  k_stamp : string -> fileStamp
}.

Definition keyLocked (p : Prefetcher) : string :=
  match cPrefetch (cfg p) with
  | Some t => if known p then (ApprovalID t +:+ "|" +:+ servedDigest t +:+ "|" +:+ InstallPath t)%string else ""%string
  | None => ""%string
  end.

Definition stamp_matches (w : kenv) (s : fileStamp) (path : string) : bool :=
  if String.eqb (sPath s) "" || negb (String.eqb (sPath s) path) then false
  else let now := k_stamp w path in (sSize now =? sSize s) && (sMtime now =? sMtime s).

Definition setLocked (st : pstate) (why : string) (n : Z) (p : Prefetcher) : Prefetcher :=
  p <| state := st |> <| reason := boundReason why maxReason |> <| bytes := n |>.

(** The digests whose downloads stay, and the names a prune removes. *)
Definition keep_set (p : Prefetcher) (t : option target) : list string :=
  filter (fun d => digestRe d = true) (take maxKeep (cKeep (cfg p))) ++
  match t with
  | Some t => if bool_decide (validateTarget t = None) then [SHA256 t; servedDigest t] else []
  | None => []
  end.
Definition pruneLocked (w : kenv) (t : option target) (p : Prefetcher) : list string :=
  match k_entries w with
  | None => []
  | Some entries =>
      omap (fun '(name, dir) =>
        match cut_prefix name PartialPrefix with
        | None => None
        | Some digest => if bool_decide (digest ∈ keep_set p t) || dir then None else if k_removed w name then Some name else None
        end) entries
  end.

Section Run.
Context (opts : Options).

(** What happens once nothing refuses the directory: the number of the next
    run is an argument. *)
Definition decide_target (w : kenv) (id : nat) (dirErr : option string) (t : target) (p : Prefetcher) : Prefetcher :=
  let refuse why := setLocked PRefused why 0 p in
  if negb (CanRunUpdate opts) then refuse "task execution is disabled on this node, so no update can use the file"%string
  else
    match validateTarget t with
    | Some err => refuse ("the server named a file this agent does not fetch: " +:+ err)%string
    | None =>
        if negb (String.eqb (OS t) (GOOS opts)) || negb (String.eqb (Arch t) (GOARCH opts)) then
          refuse ("the file is for " +:+ OS t +:+ "/" +:+ Arch t +:+ " and this agent runs on " +:+ GOOS opts +:+ "/" +:+ GOARCH opts)%string
        else if String.eqb (trim_prefix (Version t) "v") (trim_prefix (AgentVersion opts) "v") then
          refuse ("this agent already runs version " +:+ Version t)%string
        else
          match ScriptDir (InstallPath t) (Executable opts) with
          | None => refuse ("the update installs to " +:+ boundReason (InstallPath t) 80 +:+
                            ", not over this agent's own binary, and prefetch writes only beside that")%string
          | Some dir =>
              match dirErr with
              | Some err => refuse err
              | None =>
                  let path := path_join dir (PartialPrefix +:+ servedDigest t)%string in
                  if bool_decide (state p = Complete) && stamp_matches w (verified p) path then p
                  else if time_before (k_now w) (retryAt p) then p
                  else setLocked Fetching "" (bytes p) (p <| run := Some (mkRun id (keyLocked p) t path false) |>)
              end
          end
    end.

Definition kickLocked (w : kenv) (id : nat) (p : Prefetcher) : Prefetcher * list string :=
  if closed p || (0 <? held p) then (p, [])
  else
    let t := cPrefetch (cfg p) in
    let k := keyLocked p in
    match run p with
    | Some r => (if negb (String.eqb (rKey r) k) then p <| run := Some (mkRun (rId r) (rKey r) (rTarget r) (rPath r) true) |> else p, [])
    | None =>
        let p := if negb (String.eqb k (key p))
                 then p <| key := k |> <| state := NoState |> <| reason := ""%string |> <| bytes := 0 |> <| failures := 0 |> <| retryAt := 0 |>
                 else p in
        if negb (known p) then (p, [])
        else if Veto opts then
          (match t with Some _ => setLocked PRefused "the node vetoes prefetch (-no-prefetch)" 0 p | None => p end, [])
        else if negb (Root opts) then
          (match t with
           | Some _ => setLocked PRefused "the agent does not run as root, and the update continues only a download root owns" 0 p
           | None => p end, [])
        else
          let dirErr := if path_abs (Executable opts) then secureDir w (path_dir (Executable opts))
                        else Some "the agent cannot read its own path"%string in
          let removed := match dirErr with None => pruneLocked w t p | Some _ => [] end in
          match t with
          | None => (p, removed)
          | Some t => (decide_target w id dirErr t p, removed)
          end
    end.

Definition Update (w : kenv) (id : nat) (c : option updateConfig) (p : Prefetcher) : Prefetcher * list string :=
  let p := match c with
           | None => p <| known := false |> <| cfg := mkConfig None [] |>
           | Some c => p <| known := true |> <| cfg := c |>
           end in
  kickLocked w id p.

(** [Hold] before it waits: the run it waits for, if any. *)
Definition cancel_run (p : Prefetcher) : Prefetcher :=
  p <| run ::= fun o => match o with Some r => Some (mkRun (rId r) (rKey r) (rTarget r) (rPath r) true) | None => None end |>.
Definition Hold (p : Prefetcher) : Prefetcher * option nat :=
  let p := p <| held ::= fun n => n + 1 |> in
  (cancel_run p, match run p with Some r => Some (rId r) | None => None end).
Definition Release (p : Prefetcher) : Prefetcher := if 0 <? held p then p <| held ::= fun n => n - 1 |> else p.
Definition Close (p : Prefetcher) : Prefetcher := p <| closed := true |>.

Definition backoff (failures : Z) : duration :=
  if failures <? 10 then Z.min (i64 (Z.shiftl firstBackoff failures)) maxBackoff else maxBackoff.

(** [fetch] after its attempt returned. *)
Definition fetch_end (w : kenv) (id : nat) (r : fetchRun) (st : pstate) (why : string) (have gained : Z) (p : Prefetcher)
    : Prefetcher * list string :=
  let ctx_done := match run p with Some r' => if (rId r' =? rId r)%nat then cancelled r' else true | None => true end in
  let p := match run p with Some r' => if (rId r' =? rId r)%nat then p <| run := None |> else p | None => p end in
  let p :=
    if String.eqb (key p) (rKey r) then
      if decide (st = Complete) then
        setLocked st why have (p <| failures := 0 |> <| retryAt := 0 |> <| verified := k_stamp w (rPath r) |>)
      else if ctx_done then setLocked Waiting "stopped for a task or a new config; the next config pull resumes it" have p
      else if minProgress <=? gained then
        setLocked st why have (p <| failures := 0 |> <| retryAt := time_add (k_now w) progressRetry |>)
      else
        setLocked st why have (p <| failures ::= fun n => n + 1 |> <| retryAt := time_add (k_now w) (backoff (failures p)) |>)
    else p in
  kickLocked w id p.

(** What the heartbeat carries: the approval, the digest, the bytes, the size,
    the state and the reason; [progress] is the running download's count. *)
Definition Facts (progress : Z) (p : Prefetcher) : option (string * string * Z * Z * pstate * string) :=
  match cPrefetch (cfg p) with
  | None => None
  | Some t =>
      if negb (known p) || bool_decide (state p = NoState) then None
      else
        let '(n, st, why) :=
          if negb (String.eqb (key p) (keyLocked p)) then (0, Waiting, "switching to the file the server names now"%string)
          else (match run p with Some _ => progress | None => bytes p end, state p, reason p) in
        Some (boundReason (ApprovalID t) 64, boundReason (servedDigest t) 64, n, Size t, st, why)
  end.
End Run.
End Fetcher.
