(* ===== verification/PrefetchRunProps.v ===== *)
(** * What the prefetcher promises *)
From S2P Require Import Prelude GoStrings GoPath GoSha256 Prefetch PrefetchRun.
From Stdlib Require Import Ascii.

Local Open Scope Z_scope.

Module FetcherProps.
Import Prefetch Fetcher.

Section Run.
Context (opts : Options).

(** ** One decision *)

(** A run that is kept, cancelled or not. *)
Definition same_run (r r' : fetchRun) : Prop := r' = r \/ r' = mkRun (rId r) (rKey r) (rTarget r) (rPath r) true.

(** What a run that starts was decided on. *)
Record started (w : kenv) (id : nat) (p : Prefetcher) (r : fetchRun) : Prop := {
  st_id : rId r = id; st_live : cancelled r = false; st_key : rKey r = keyLocked p;
  st_free : held p <= 0 /\ closed p = false;
  st_asked : known p = true /\ cPrefetch (cfg p) = Some (rTarget r);
  st_node : Veto opts = false /\ Root opts = true /\ CanRunUpdate opts = true;
  st_valid : validateTarget (rTarget r) = None;
  st_platform : OS (rTarget r) = GOOS opts /\ Arch (rTarget r) = GOARCH opts;
  st_new : trim_prefix (Version (rTarget r)) "v" <> trim_prefix (AgentVersion opts) "v";
  st_secure : path_abs (Executable opts) = true /\ secureDir w (path_dir (Executable opts)) = None;
  st_script : ScriptDir (InstallPath (rTarget r)) (Executable opts) = Some (path_dir (Executable opts));
  st_path : rPath r = path_join (path_dir (Executable opts)) (PartialPrefix +:+ servedDigest (rTarget r))%string;
  st_due : key p = keyLocked p -> retryAt p <= k_now w
}.

Lemma script_dir_own inst exe dir : ScriptDir inst exe = Some dir -> dir = path_dir exe.
Proof.
  unfold ScriptDir. generalize (has_suffix exe "/lattice-agent" && (String.eqb inst defaultInstallPath || String.eqb inst oldDefaultInstallPath || String.eqb inst legacyInstallPath)) as follows.
  intros follows. destruct (String.eqb_spec exe ""); [done|]. destruct (String.eqb_spec (if follows then exe else inst) exe) as [->|]; [|done]. by intros [= <-].
Qed.

Lemma decide_target_run w id dirErr t p p' : decide_target opts w id dirErr t p = p' -> run p = None ->
  held p' = held p /\ closed p' = closed p /\ key p' = key p /\
  (run p' = None \/ exists r, run p' = Some r /\ rId r = id /\ cancelled r = false /\ rKey r = keyLocked p /\ rTarget r = t /\
    CanRunUpdate opts = true /\ validateTarget t = None /\ (OS t = GOOS opts /\ Arch t = GOARCH opts) /\
    trim_prefix (Version t) "v" <> trim_prefix (AgentVersion opts) "v" /\ dirErr = None /\
    ScriptDir (InstallPath t) (Executable opts) = Some (path_dir (Executable opts)) /\
    rPath r = path_join (path_dir (Executable opts)) (PartialPrefix +:+ servedDigest t)%string /\ retryAt p <= k_now w).
Proof.
  intros <- Hr. unfold decide_target.
  destruct (CanRunUpdate opts) eqn:Hcan; cbn [negb]; [|unfold setLocked; upd; auto].
  destruct (validateTarget t) eqn:Hv; [unfold setLocked; upd; auto|].
  destruct (String.eqb_spec (OS t) (GOOS opts)), (String.eqb_spec (Arch t) (GOARCH opts)); cbn [negb orb]; try (unfold setLocked; upd; auto; fail).
  destruct (String.eqb_spec (trim_prefix (Version t) "v") (trim_prefix (AgentVersion opts) "v")); [unfold setLocked; upd; auto|].
  destruct (ScriptDir _ _) as [dir|] eqn:Hsd; [|unfold setLocked; upd; auto]. assert (Hd := script_dir_own _ _ _ Hsd). subst dir.
  destruct dirErr; [unfold setLocked; upd; auto|]. destruct (_ && _); [auto|]. destruct (Z.ltb_spec (k_now w) (retryAt p)) as [Hlt|Hge].
  - unfold time_before. rewrite (proj2 (Z.ltb_lt _ _) Hlt). auto.
  - unfold time_before. rewrite (proj2 (Z.ltb_ge _ _) Hge). unfold setLocked. upd. split_and!; try done. right. eexists. split; [done|]. done.
Qed.

Lemma kick_run w id p p' rm : kickLocked opts w id p = (p', rm) ->
  held p' = held p /\ closed p' = closed p /\ (0 < held p \/ closed p = true -> p' = p) /\
  match run p with
  | Some r => exists r', run p' = Some r' /\ same_run r r'
  | None => run p' = None \/ exists r, run p' = Some r /\ started w id p r
  end.
Proof.
  unfold kickLocked. destruct (closed p) eqn:Hcl; [intros [= <- <-]; split_and!; try done; destruct (run p) as [r|]; [exists r; split; [done|by left]|by left]|].
  destruct (Z.ltb_spec 0 (held p)) as [Hh|Hh]; [intros [= <- <-]; split_and!; try done; destruct (run p) as [r|]; [exists r; split; [done|by left]|by left]|].
  simpl orb. cbn iota. assert (Hvac : 0 < held p \/ false = true -> p' = p) by (intros [?|?]; [lia|done]).
  destruct (run p) as [r|] eqn:Hrun.
  - destruct (negb _); intros [= <- <-]; upd; split_and!; try done; eexists; (split; [done|]); [by right|by left].
  - set (p1 := if negb _ then _ else p).
    assert (H1 : held p1 = held p /\ closed p1 = closed p /\ run p1 = None /\ known p1 = known p /\ cfg p1 = cfg p /\ (key p = keyLocked p -> retryAt p1 = retryAt p)).
    { unfold p1. destruct (String.eqb_spec (keyLocked p) (key p)) as [He|Hne]; cbn [negb]; upd; split_and!; try done. }
    clearbody p1. destruct H1 as (Hh1 & Hc1 & Hr1 & Hk1 & Hg1 & Hret).
    assert (Hidle : forall q, held q = held p1 -> closed q = closed p1 -> run q = None -> (q, rm) = (p', rm) ->
      held p' = held p /\ closed p' = false /\ (0 < held p \/ false = true -> p' = p) /\ (run p' = None \/ exists r, run p' = Some r /\ started w id p r)).
    { intros q Hq1 Hq2 Hq3 [= <-]. rewrite Hq1, Hq2, Hq3, Hh1, Hc1. split_and!; try done. by left. }
    destruct (known p1) eqn:Hkn; cbn [negb]; [|intros [= <- <-]; by apply (Hidle p1)].
    destruct (Veto opts) eqn:Hveto; [intros [= <- <-]; destruct (cPrefetch (cfg p)); (refine (Hidle _ _ _ _ eq_refl); unfold setLocked; upd; done)|].
    destruct (Root opts) eqn:Hroot; cbn [negb]; [|intros [= <- <-]; destruct (cPrefetch (cfg p)); (refine (Hidle _ _ _ _ eq_refl); unfold setLocked; upd; done)].
    set (dirErr := if path_abs (Executable opts) then _ else _). destruct (cPrefetch (cfg p)) as [t|] eqn:Ht; [|intros [= <- <-]; by apply (Hidle p1)].
    intros [= Hd <-]. destruct (decide_target_run w id dirErr t p1 p' Hd Hr1) as (H2 & H3 & _ & H4). rewrite H2, H3, Hh1, Hc1. split_and!; try done.
    destruct H4 as [H4|(r & Hr & Hid & Hlive & Hkey & <- & Hcan & Hv & Hpl & Hnew & Hdir & Hsc & Hpath & Hdue)]; [by left|right]. exists r. split; [done|].
    assert (Hkey' : keyLocked p1 = keyLocked p) . { unfold keyLocked. rewrite Hg1. by rewrite Hkn, <-Hk1. }
    assert (Habs : path_abs (Executable opts) = true /\ secureDir w (path_dir (Executable opts)) = None) by (unfold dirErr in Hdir; by destruct (path_abs (Executable opts))).
    split; try done; try (split; done || lia). + by rewrite Hkey, Hkey'. + intros E. by rewrite <-Hret.
Qed.

(** ** Where it writes *)
Lemma valid_digest t : validateTarget t = None -> digestRe (servedDigest t) = true.
Proof.
  unfold validateTarget, servedDigest. do 2 (destruct (negb _); [done|]). destruct (digestRe (SHA256 t)) eqn:H1; [|done]. cbn [negb].
  destruct (String.eqb (CompressedSHA256 t) ""); [done|]. by destruct (digestRe (CompressedSHA256 t)).
Qed.
Lemma digest_plain d : digestRe d = true -> plain_name (PartialPrefix +:+ d)%string = true.
Proof.
  unfold digestRe. intros [_ Hd]%andb_true_iff. unfold plain_name, PartialPrefix. rewrite !andb_true_iff, !negb_true_iff. rewrite !app_cons, app_empty. split_and!; [done..|].
  do 24 (apply no_byte_cons; split; [done|]). revert Hd. apply str_forall_impl. intros x Hx. apply negb_true_iff, Ascii.eqb_neq. intros ->. by vm_compute in Hx.
Qed.
Lemma path_dir_nonempty p : path_abs p = true -> path_dir p <> ""%string.
Proof.
  unfold path_abs, path_dir. destruct p as [|c t]; [done|]. rewrite has_prefix_head. destruct (ascii_dec "/" c) as [<-|]; [intros _|done].
  assert (Hl : exists i, last_index_of (String "/" t) "/" = Some i).
  { cbn [last_index_of]. destruct (last_index_of t "/"); [eauto|]. rewrite has_prefix_head, has_prefix_empty. destruct (ascii_dec "/" "/"); [eauto|done]. }
  destruct Hl as [i ->]. rewrite Nat.add_1_r. cbn [str_take]. unfold path_clean, path_abs. cbn [String.eqb]. rewrite has_prefix_head, has_prefix_empty. by destruct (ascii_dec "/" "/").
Qed.

Lemma pruned w t p name : name ∈ pruneLocked w t p ->
  exists entries d, k_entries w = Some entries /\ (name, false) ∈ entries /\ name = (PartialPrefix +:+ d)%string /\ d ∉ keep_set p t.
Proof.
  unfold pruneLocked. destruct (k_entries w) as [entries|]; [|by intros ?%elem_of_nil]. intros ([x dir] & Hx & Hn)%list_elem_of_omap.
  destruct (cut_prefix x PartialPrefix) as [d|] eqn:Hc; [|done]. destruct (bool_decide_reflect (d ∈ keep_set p t)); [done|]. destruct dir; [done|].
  simpl in Hn. destruct (k_removed w x); [|done]. injection Hn as <-. exists entries, d. split_and!; [done|done|by apply cut_prefix_split|done].
Qed.
Lemma kick_removed w id p p' rm name : kickLocked opts w id p = (p', rm) -> name ∈ rm ->
  held p <= 0 /\ Veto opts = false /\ Root opts = true /\ path_abs (Executable opts) = true /\ secureDir w (path_dir (Executable opts)) = None /\
  exists q, cfg q = cfg p /\ name ∈ pruneLocked w (cPrefetch (cfg p)) q.
Proof.
  unfold kickLocked. destruct (closed p); [by intros [= <- <-] ?%elem_of_nil|]. destruct (Z.ltb_spec 0 (held p)); [by intros [= <- <-] ?%elem_of_nil|]. simpl orb. cbn iota.
  destruct (run p); [by intros [= <- <-] ?%elem_of_nil|]. set (p1 := if negb _ then _ else p).
  assert (Hg : cfg p1 = cfg p) by (unfold p1; destruct (negb _); done). clearbody p1. destruct (negb _); [by intros [= <- <-] ?%elem_of_nil|].
  destruct (Veto opts); [by intros [= <- <-] ?%elem_of_nil|]. destruct (Root opts); cbn [negb]; [|by intros [= <- <-] ?%elem_of_nil].
  destruct (path_abs (Executable opts)); [|destruct (cPrefetch (cfg p)); by intros [= <- <-] ?%elem_of_nil].
  destruct (secureDir w (path_dir (Executable opts))); [destruct (cPrefetch (cfg p)); by intros [= <- <-] ?%elem_of_nil|].
  intros E Hn. assert (rm = pruneLocked w (cPrefetch (cfg p)) p1) as -> by (destruct (cPrefetch (cfg p)); by injection E). split_and!; try done. by exists p1.
Qed.

(** What one decision may touch, whatever the server named: a download starts
    only as root, without the veto, on a valid target for this platform and a
    version this agent does not run, when the update would replace this agent's
    own binary, in that binary's directory, which no other user can change, at
    the name the digest gives, and not before its time; and a file is removed
    only there, by that kind of name, when no update the server calls open
    names its digest, and it is no directory. *)
Theorem writes_beside_binary_only w id p p' removed : kickLocked opts w id p = (p', removed) ->
  (forall r, run p = None -> run p' = Some r -> started w id p r /\
     exists lead, rPath r = (lead +:+ PartialPrefix +:+ servedDigest (rTarget r))%string /\ digestRe (servedDigest (rTarget r)) = true /\
       (lead = (path_clean (path_dir (Executable opts)) +:+ "/")%string \/
        (lead = "/"%string /\ path_clean (path_dir (Executable opts)) = "/"%string) \/ (lead = ""%string /\ path_clean (path_dir (Executable opts)) = "."%string))) /\
  (forall name, name ∈ removed ->
     (held p <= 0 /\ Veto opts = false /\ Root opts = true /\ path_abs (Executable opts) = true /\ secureDir w (path_dir (Executable opts)) = None) /\
     exists entries d, k_entries w = Some entries /\ (name, false) ∈ entries /\ name = (PartialPrefix +:+ d)%string /\
       (d ∉ filter (fun d => digestRe d = true) (take maxKeep (cKeep (cfg p)))) /\
       forall t, cPrefetch (cfg p) = Some t -> validateTarget t = None -> d <> SHA256 t /\ d <> servedDigest t).
Proof.
  intros Hk. split.
  - intros r Hr Hr'. destruct (kick_run w id p p' removed Hk) as (_ & _ & _ & Hrun). rewrite Hr in Hrun. destruct Hrun as [Hn|(r2 & Hr2 & Hst)]; [congruence|].
    assert (r2 = r) as -> by congruence. split; [done|]. assert (Hd := valid_digest _ (st_valid _ _ _ _ Hst)).
    destruct (path_join_plain (path_dir (Executable opts)) (PartialPrefix +:+ servedDigest (rTarget r))%string) as (lead & Hp & Hl);
      [apply path_dir_nonempty, (st_secure _ _ _ _ Hst)|by apply digest_plain|]. exists lead. rewrite (st_path _ _ _ _ Hst), Hp. done.
  - intros name Hn. destruct (kick_removed w id p p' removed name Hk Hn) as (H1 & H2 & H3 & H4 & H5 & q & Hg & Hq). split; [done|].
    destruct (pruned _ _ _ _ Hq) as (entries & d & He & Hin & -> & Hkeep). exists entries, d. unfold keep_set in Hkeep. rewrite Hg in Hkeep. split_and!; try done.
    + intros Hf. apply Hkeep, elem_of_app. by left.
    + intros t Ht Hv. rewrite Ht, (bool_decide_eq_true_2 _ Hv) in Hkeep. split; intros ->; apply Hkeep, elem_of_app; right; [left|right; left].
Qed.

(** ** When it tries again *)
Lemma backoff_formula n : 0 <= n -> backoff n = Z.min (firstBackoff * 2 ^ n) maxBackoff.
Proof.
  intros Hn. unfold backoff. destruct (Z.ltb_spec n 10) as [Hlt|Hge].
  - rewrite <-(Z2Nat.id n) by lia. assert (Hc : (Z.to_nat n < 10)%nat) by lia. revert Hc. generalize (Z.to_nat n) as k. intros k Hc.
    do 10 (destruct k as [|k]; [reflexivity|]). lia.
  - assert (Hp : 2 ^ 10 <= 2 ^ n) by (apply Z.pow_le_mono_r; lia). change (2 ^ 10) with 1024 in Hp.
    change firstBackoff with 30000000000. change maxBackoff with 900000000000. lia.
Qed.

(** The parts of the state a decision on the same file leaves alone. *)
Definition schedule (p : Prefetcher) := (key p, failures p, retryAt p, known p, cfg p).
Lemma decide_schedule w id dirErr t p : schedule (decide_target opts w id dirErr t p) = schedule p.
Proof.
  unfold decide_target, setLocked. destruct (negb _); [done|]. destruct (validateTarget t); [done|]. destruct (_ || _); [done|]. destruct (String.eqb _ _); [done|].
  destruct (ScriptDir _ _); [|done]. destruct dirErr; [done|]. destruct (_ && _); [done|]. by destruct (time_before _ _).
Qed.
Lemma kick_schedule w id p p' rm : kickLocked opts w id p = (p', rm) -> key p = keyLocked p -> schedule p' = schedule p.
Proof.
  unfold kickLocked. intros Hk He. destruct (closed p || _); [by injection Hk as <- <-|]. rewrite <-He, String.eqb_refl in Hk. cbn [negb] in Hk.
  destruct (run p); [destruct (negb _); by injection Hk as <- <-|]. destruct (negb (known p)); [by injection Hk as <- <-|].
  destruct (Veto opts); [injection Hk as <- <-; by destruct (cPrefetch (cfg p))|]. destruct (negb (Root opts)); [injection Hk as <- <-; by destruct (cPrefetch (cfg p))|].
  destruct (cPrefetch (cfg p)) as [t|]; [|by injection Hk as <- <-]. injection Hk as <- <-. apply decide_schedule.
Qed.

(** A run that is not complete and was not stopped is not tried again at once:
    after one that gained at least 16 KiB the next may start 10 s later, and
    after the n-th in a row that did not, 30 s doubled n-1 times later, at most
    15 min; no download of this file starts before. *)
Theorem retry_waits w id r st why have gained p p' rm :
  fetch_end opts w id r st why have gained p = (p', rm) ->
  run p = Some r -> cancelled r = false -> key p = rKey r -> keyLocked p = rKey r -> st <> Complete -> 0 <= failures p ->
  let wait := if minProgress <=? gained then progressRetry else Z.min (firstBackoff * 2 ^ failures p) maxBackoff in
  failures p' = (if minProgress <=? gained then 0 else failures p + 1) /\ retryAt p' = k_now w + wait /\ run p' = None /\
  forall w' id' p2 rm2 r2, kickLocked opts w' id' p' = (p2, rm2) -> run p2 = Some r2 -> k_now w + wait <= k_now w'.
Proof.
  intros Hf Hr Hc Hkey Hloc Hst Hn wait. unfold fetch_end in Hf. rewrite Hr, Nat.eqb_refl, Hc in Hf.
  set (q := if String.eqb _ _ then _ else _) in Hf. assert (Hq : schedule q = (key p, (if minProgress <=? gained then 0 else failures p + 1), k_now w + wait, known p, cfg p) /\ run q = None).
  { unfold q, schedule, wait. upd. rewrite Hkey, String.eqb_refl, decide_False by done. destruct (minProgress <=? gained); unfold setLocked, time_add; upd; rewrite ?Hkey; split; try done.
    by rewrite backoff_formula. }
  clearbody q. destruct Hq as [Hq Hqr]. injection Hq as Hq1 Hq2 Hq3 Hq4 Hq5.
  assert (Hql : key q = keyLocked q) by (unfold keyLocked in *; rewrite Hq1, Hq4, Hq5, Hkey; by rewrite Hloc).
  assert (Hs := kick_schedule w id q p' rm Hf Hql). injection Hs as Hs1 Hs2 Hs3 Hs4 Hs5.
  assert (Hwait : 0 < wait).
  { assert (Hp := Z.pow_pos_nonneg 2 (failures p) ltac:(lia) Hn). unfold wait. destruct (minProgress <=? gained); [reflexivity|].
    change firstBackoff with 30000000000. change maxBackoff with 900000000000. lia. }
  destruct (kick_run w id q p' rm Hf) as (_ & _ & _ & Hrun). rewrite Hqr in Hrun.
  assert (Hidle : run p' = None).
  { destruct Hrun as [Hrun|(r2 & _ & Hst2)]; [done|]. assert (Hdue := st_due _ _ _ _ Hst2 Hql). lia. }
  split_and!; [congruence|congruence|done|]. intros w' id' p2 rm2 r2 Hk2 Hr2. destruct (kick_run w' id' p' p2 rm2 Hk2) as (_ & _ & _ & Hrun2). rewrite Hidle in Hrun2.
  destruct Hrun2 as [Hn2|(r3 & Hr3 & Hst3)]; [congruence|]. rewrite <-Hq3, <-Hs3. apply (st_due _ _ _ _ Hst3). unfold keyLocked in *. by rewrite Hs1, Hs4, Hs5.
Qed.

(** ** Holds and the download *)

(** The prefetcher; the goroutine of a run, with whether its attempt still has
    the file open; the runs whose end was announced; the holds that wait, each
    with the run it waits for; the holds that returned; the next run's number. *)
Record sys := mkSys {
  pf : Prefetcher; fetcher : option (fetchRun * bool); over : list nat; holders : list (option nat); returned : Z; next : nat
}.
Definition first : sys := mkSys New None [] [] 0 0.
Definition spawned (p : Prefetcher) : option (fetchRun * bool) := match run p with Some r => Some (r, true) | None => None end.

Inductive step : sys -> sys -> Prop :=
  | step_update y w c p' rm : Update opts w (next y) c (pf y) = (p', rm) ->
      step y (mkSys p' (match fetcher y with Some x => Some x | None => spawned p' end) (over y) (holders y) (returned y) (S (next y)))
  | step_hold y p' o : Hold (pf y) = (p', o) -> step y (mkSys p' (fetcher y) (over y) (o :: holders y) (returned y) (next y))
  | step_hold_returns y a o b : holders y = a ++ o :: b -> (forall i, o = Some i -> i ∈ over y) ->
      step y (mkSys (pf y) (fetcher y) (over y) (a ++ b) (returned y + 1) (next y))
  | step_release y : 0 < returned y -> step y (mkSys (Release (pf y)) (fetcher y) (over y) (holders y) (returned y - 1) (next y))
  | step_close y : step y (mkSys (Close (pf y)) (fetcher y) (over y) (holders y) (returned y) (next y))
  | step_attempt_ends y r : fetcher y = Some (r, true) -> step y (mkSys (pf y) (Some (r, false)) (over y) (holders y) (returned y) (next y))
  | step_fetch_ends y r w st why have gained p' rm : fetcher y = Some (r, false) -> fetch_end opts w (next y) r st why have gained (pf y) = (p', rm) ->
      step y (mkSys p' (spawned p') (rId r :: over y) (holders y) (returned y) (S (next y))).
Inductive reach : sys -> Prop :=
  | reach_first : reach first
  | reach_step y y' : reach y -> step y y' -> reach y'.

Record sound (y : sys) : Prop := {
  so_held : held (pf y) = zlen (holders y) + returned y;
  so_returned : 0 <= returned y;
  so_fetcher : match fetcher y with
               | Some (r, _) => exists r', run (pf y) = Some r' /\ rId r' = rId r
               | None => run (pf y) = None
               end;
  so_ids : (forall i, i ∈ over y -> (i < next y)%nat) /\ (forall r, run (pf y) = Some r -> (rId r < next y)%nat /\ rId r ∉ over y);
  so_waiting : forall o, o ∈ holders y -> match run (pf y) with Some r => o = Some (rId r) /\ cancelled r = true | None => True end;
  so_free : 0 < returned y -> run (pf y) = None
}.

(** A decision while nothing holds, or none at all. *)
Lemma kick_sound w id p p' rm : kickLocked opts w id p = (p', rm) ->
  held p' = held p /\ (0 < held p -> run p' = run p) /\
  match run p with
  | Some r => exists r', run p' = Some r' /\ rId r' = rId r
  | None => run p' = None \/ exists r, run p' = Some r /\ rId r = id
  end.
Proof.
  intros Hk. destruct (kick_run w id p p' rm Hk) as (H1 & _ & H3 & H4). split; [done|]. split; [intros Hh; by rewrite H3 by auto|].
  destruct (run p) as [r|].
  - destruct H4 as (r' & -> & [->| ->]); eauto.
  - destruct H4 as [H4|(r & Hr & Hst)]; [by left|right]. exists r. split; [done|]. apply Hst.
Qed.

Lemma update_sound y w c p' rm : sound y -> Update opts w (next y) c (pf y) = (p', rm) ->
  sound (mkSys p' (match fetcher y with Some x => Some x | None => spawned p' end) (over y) (holders y) (returned y) (S (next y))).
Proof.
  intros [S1 S2 S3 [S4 S4'] S5 S6] Hu. unfold Update in Hu. set (q := match c with Some _ => _ | None => _ end) in Hu.
  assert (Hq : held q = held (pf y) /\ run q = run (pf y)) by (unfold q; destruct c; upd; done). clearbody q. destruct Hq as [Hq1 Hq2].
  destruct (kick_sound w (next y) q p' rm Hu) as (H1 & H2 & H3). rewrite Hq1 in H1, H2. rewrite Hq2 in H2, H3.
  assert (Hzl := zlen_nonneg (holders y)). split; simpl.
  - congruence.
  - done.
  - destruct (fetcher y) as [[r b]|].
    + destruct S3 as (r' & Hr & Hi). rewrite Hr in H3. destruct H3 as (r2 & -> & Hi2). exists r2. split; [done|congruence].
    + rewrite S3 in H3. unfold spawned. destruct H3 as [->|(r & -> & _)]; eauto.
  - split; [intros i Hi; specialize (S4 i Hi); lia|]. intros r Hr. destruct (run (pf y)) as [r0|] eqn:E.
    + destruct H3 as (r2 & Hr2 & Hi2). assert (r2 = r) as -> by congruence. rewrite Hi2. destruct (S4' r0 eq_refl). split; [lia|done].
    + destruct H3 as [Hn|(r2 & Hr2 & Hi2)]; [congruence|]. assert (r2 = r) as -> by congruence. rewrite Hi2. split; [lia|]. intros Hin. specialize (S4 _ Hin). lia.
  - intros o Ho. rewrite H2; [by apply S5|]. rewrite S1. destruct (holders y) as [|x l]; [by apply elem_of_nil in Ho|]. rewrite zlen_cons. assert (Hl := zlen_nonneg l). lia.
  - intros Hret. rewrite H2; [by apply S6|]. lia.
Qed.

Lemma end_sound y r w st why have gained p' rm : sound y -> fetcher y = Some (r, false) -> fetch_end opts w (next y) r st why have gained (pf y) = (p', rm) ->
  sound (mkSys p' (spawned p') (rId r :: over y) (holders y) (returned y) (S (next y))).
Proof.
  intros [S1 S2 S3 [S4 S4'] S5 S6] Hf He. rewrite Hf in S3. destruct S3 as (r' & Hr & Hi). unfold fetch_end in He. rewrite Hr, Hi, Nat.eqb_refl in He.
  set (q := if String.eqb _ _ then _ else _) in He. assert (Hq : held q = held (pf y) /\ run q = None).
  { unfold q. destruct (String.eqb _ _); [|done]. destruct (decide _); [done|]. destruct (cancelled r'); [done|]. by destruct (_ <=? _). }
  clearbody q. destruct Hq as [Hq1 Hq2]. destruct (kick_sound w (next y) q p' rm He) as (H1 & H2 & H3). rewrite Hq1 in H1, H2. rewrite Hq2 in H2, H3.
  destruct (S4' r' Hr) as [Hlt Hnew]. assert (Hret : returned y = 0).
  { destruct (Z.eq_dec (returned y) 0) as [|Hne]; [done|]. rewrite S6 in Hr by lia. done. }
  split; simpl.
  - congruence.
  - done.
  - unfold spawned. destruct (run p') eqn:E; eauto.
  - split; [intros i [->|Hin]%elem_of_cons; [lia|specialize (S4 i Hin); lia]|]. intros r2 Hr2. destruct H3 as [Hn|(r3 & Hr3 & Hi3)]; [congruence|].
    assert (r3 = r2) as -> by congruence. rewrite Hi3. split; [lia|]. intros [Hx|Hin]%elem_of_cons; [lia|specialize (S4 _ Hin); lia].
  - intros o Ho. rewrite H2; [done|]. rewrite S1. destruct (holders y) as [|x l]; [by apply elem_of_nil in Ho|]. rewrite zlen_cons. assert (Hl := zlen_nonneg l). lia.
  - lia.
Qed.

Lemma hold_sound y p' o : sound y -> Hold (pf y) = (p', o) -> sound (mkSys p' (fetcher y) (over y) (o :: holders y) (returned y) (next y)).
Proof.
  intros [S1 S2 S3 [S4 S4'] S5 S6]. unfold Hold, cancel_run. upd. intros [= <- <-].
  split; simpl; destruct (run (pf y)) as [r|] eqn:E; upd; try rewrite E; simpl.
  all: try (rewrite zlen_cons; lia). all: try done.
  - destruct (fetcher y) as [[r1 b]|]; [|done]. destruct S3 as (r2 & Hr2 & Hi). injection Hr2 as <-. eauto.
  - split; [done|]. intros r2 [= <-]. exact (S4' r eq_refl).
  - intros o [->|Ho]%elem_of_cons; [done|]. destruct (S5 o Ho) as [-> _]. done.
  - intros Hret. by specialize (S6 Hret).
Qed.

Lemma reach_sound y : reach y -> sound y.
Proof.
  induction 1 as [|y y' _ IH Hs].
  { split; simpl; try done; try lia. - split; [intros i Hi; by apply elem_of_nil in Hi|done]. }
  destruct Hs as [y w c p' rm Hu|y p' o Hh|y a o b Hw Ho|y Hr|y|y r Hf|y r w st why have gained p' rm Hf He].
  - by eapply update_sound.
  - by apply hold_sound.
  - destruct IH as [S1 S2 S3 [S4 S4'] S5 S6]. rewrite Hw in S1, S5. split; simpl; try done.
    + rewrite S1, !zlen_app, zlen_cons. lia.
    + lia.
    + intros x Hx. apply S5, elem_of_app. apply elem_of_app in Hx as [Hx|Hx]; [by left|right]. by apply elem_of_cons; right.
    + intros _. assert (Hin : o ∈ a ++ o :: b) by (apply elem_of_app; right; left). specialize (S5 o Hin). destruct (run (pf y)) as [r|] eqn:E; [|done].
      destruct S5 as [-> _]. destruct (S4' r eq_refl) as [_ Hn]. destruct Hn. by apply Ho.
  - destruct IH as [S1 S2 S3 S4 S5 S6]. assert (Hz := zlen_nonneg (holders y)). unfold Release. rewrite (proj2 (Z.ltb_lt _ _)) by lia.
    split; simpl; upd; try done; try lia. intros Hp. apply S6. lia.
  - destruct IH as [S1 S2 S3 S4 S5 S6]. unfold Close. split; simpl; upd; done.
  - destruct IH as [S1 S2 S3 S4 S5 S6]. rewrite Hf in S3. split; simpl; done.
  - by eapply end_sound.
Qed.

(** C26: A task that runs after its hold returned is the only writer of the partial
    file: in every interleaving of config pulls, tasks taking and giving up
    holds, the close, attempts and their ends, while any hold that returned is
    not released no download runs or has the file open, and none starts; and a
    download some hold waits for has been told to stop. *)
Theorem hold_excludes_fetch y : reach y ->
  (0 < returned y -> fetcher y = None /\ run (pf y) = None) /\
  (forall o r b, o ∈ holders y -> fetcher y = Some (r, b) -> o = Some (rId r) /\ exists r', run (pf y) = Some r' /\ cancelled r' = true).
Proof.
  intros [S1 S2 S3 S4 S5 S6]%reach_sound. split.
  - intros Hr. assert (Hn := S6 Hr). split; [|done]. destruct (fetcher y) as [[r b]|]; [|done]. destruct S3 as (r' & Hr' & _). congruence.
  - intros o r b Ho Hf. rewrite Hf in S3. destruct S3 as (r' & Hr' & Hi). specialize (S5 o Ho). rewrite Hr' in S5. destruct S5 as [-> Hc]. split; [by rewrite Hi|eauto].
Qed.
End Run.
End FetcherProps.

(** * The prefetcher on concrete runs *)
From S2P Require Import Prelude GoStrings GoPath GoSha256 Prefetch PrefetchProps PrefetchRun.
From Stdlib Require Import Ascii.

Local Open Scope Z_scope.

Module FetchSample.
Import Prefetch FetchProps Fetcher FetcherProps.

(** A three-byte binary, and a server that sends one byte of it at a time. *)
Definition binary : string := "abc".
Definition digest : string := Eval vm_compute in Sha256.hex (Sha256.Sum256 binary).
Definition update : target := mkTarget "ap-1" "0.3.10" "linux" "amd64" digest "" 3 3 "/opt/lattice/node-agent/lattice-agent".
Definition byte_at (n : nat) : string := str_take 1 (str_drop n binary).
Definition slow (q : request) : string + response :=
  match q_range q with
  | None => inr (mkResponse 200 "" (quoted digest) (byte_at 0) (Some "reset"%string))
  | Some r => if String.eqb r "bytes=1-" then inr (mkResponse 206 "bytes 1-2/3" (quoted digest) (byte_at 1) None)
              else if String.eqb r "bytes=2-" then inr (mkResponse 206 "bytes 2-2/3" (quoted digest) (byte_at 2) None)
              else inl "no such range"%string
  end.
Definition calm : env := mkEnv (inr 300000000) None None None None true None None None None 100 None None None.
Definition try_once (disk : option node) := attempt "https://lattice" "node-1" slow calm update disk.

Example first_byte_kept : try_once None = (Some (Owned "a"), (Waiting, "download cut after 1 bytes"%string, 1, 1)).
Proof. vm_compute. reflexivity. Qed.
Lemma last_byte : try_once (Some (Owned "ab")) = (Some (Owned "abc"), (Complete, ""%string, 3, 1)).
Proof. vm_compute. reflexivity. Qed.
Lemma update_valid : validateTarget update = None.
Proof. vm_compute. reflexivity. Qed.


Lemma slow_honest : honest slow update binary.
Proof.
  intros q r Hq _. unfold slow in Hq. destruct (q_range q) as [x|]; [|injection Hq as <-; split; [intros _; by exists "bc"%string|done]].
  destruct (String.eqb x "bytes=1-"); [injection Hq as <-; split; [done|]|].
  - intros _ start total Hp _. assert (H1 : parseContentRange "bytes 1-2/3" = Some (1, 3)) by (vm_compute; reflexivity).
    simpl r_content_range in Hp. rewrite H1 in Hp. injection Hp as <- <-. by exists "c"%string.
  - destruct (String.eqb x "bytes=2-"); [injection Hq as <-; split; [done|]|done].
    intros _ start total Hp _. assert (H1 : parseContentRange "bytes 2-2/3" = Some (2, 3)) by (vm_compute; reflexivity).
    simpl r_content_range in Hp. rewrite H1 in Hp. injection Hp as <- <-. by exists ""%string.
Qed.
Lemma partial_is_a_beginning_witness : Some (Owned "abc") = Some (Owned binary).
Proof.
  refine (proj2 (partial_is_a_beginning "https://lattice" "node-1" slow calm update binary _ _ _ _ _ _ slow_honest eq_refl eq_refl _ last_byte) eq_refl).
  intros c [= <-]. exists "c"%string. reflexivity.
Defined.

Lemma slow_serves : serves "https://lattice" "node-1" slow update binary.
Proof.
  intros have Hh. simpl Size in Hh. assert (Hc : have = 0 \/ have = 1 \/ have = 2) by lia. destruct Hc as [->|[->| ->]].
  - exists (mkResponse 200 "" (quoted digest) (byte_at 0) (Some "reset"%string)). split; [vm_compute; reflexivity|]. refine (conj eq_refl (conj _ (conj _ eq_refl))); [discriminate|by exists "bc"%string].
  - exists (mkResponse 206 "bytes 1-2/3" (quoted digest) (byte_at 1) None). split; [vm_compute; reflexivity|]. refine (conj eq_refl (conj _ (conj _ (conj eq_refl _)))); [discriminate|by exists "c"%string|vm_compute; reflexivity].
  - exists (mkResponse 206 "bytes 2-2/3" (quoted digest) (byte_at 2) None). split; [vm_compute; reflexivity|]. refine (conj eq_refl (conj _ (conj _ (conj eq_refl _)))); [discriminate|by exists ""%string|vm_compute; reflexivity].
Qed.
Lemma calm_smooth : smooth update calm.
Proof. split; try done. exists 300000000. split; [done|vm_compute; done]. Qed.
Lemma fetch_finishes_witness :
  attempts "https://lattice" "node-1" slow (repeat calm 4) update (Some (Owned "")) = (Some (Owned binary), Complete).
Proof.
  apply (fetch_finishes "https://lattice" "node-1" slow update binary (repeat calm 4) "" update_valid eq_refl); [vm_compute; reflexivity|exact slow_serves| | |reflexivity].
  - repeat (constructor; [exact calm_smooth|]). constructor.
  - exists binary. reflexivity.
Defined.

(** ** The prefetcher *)
Definition opts : Options := mkOptions "/opt/lattice/node-agent/lattice-agent" "0.3.9" false true true "linux" "amd64".
Definition at_time (now : time) : kenv :=
  mkKenv (fun _ => None) (Some [((PartialPrefix +:+ "feed")%string, false); ("lattice-agent"%string, false); ((PartialPrefix +:+ digest)%string, false)])
    (fun _ => true) now (fun p => mkStamp p 3 77).
Definition pulled : Prefetcher * list string := Update opts (at_time 5) 0 (Some (mkConfig (Some update) [])) New.
Definition asked : Prefetcher := New <| known := true |> <| cfg := mkConfig (Some update) [] |>.
Lemma pulled_kick : kickLocked opts (at_time 5) 0 asked = (pulled.1, pulled.2).
Proof. vm_compute. reflexivity. Qed.
Definition running : fetchRun :=
  mkRun 0 ("ap-1|" +:+ digest +:+ "|/opt/lattice/node-agent/lattice-agent")%string update ("/opt/lattice/node-agent/" +:+ PartialPrefix +:+ digest)%string false.
Lemma pulled_run : run pulled.1 = Some running /\ pulled.2 = [(PartialPrefix +:+ "feed")%string].
Proof. vm_compute. done. Qed.
Lemma writes_beside_binary_only_witness : started opts (at_time 5) 0 asked running.
Proof. exact (proj1 (proj1 (writes_beside_binary_only opts (at_time 5) 0 asked pulled.1 pulled.2 pulled_kick) running eq_refl (proj1 pulled_run))). Defined.

Definition failed : Prefetcher * list string := fetch_end opts (at_time 1000) 1 running Waiting "request failed" 0 0 pulled.1.
Lemma failed_end : fetch_end opts (at_time 1000) 1 running Waiting "request failed" 0 0 pulled.1 = (failed.1, failed.2).
Proof. vm_compute. reflexivity. Qed.
Lemma retry_waits_witness : retryAt failed.1 = 1000 + 30 * second.
Proof.
  etrans; [exact (proj1 (proj2 (retry_waits opts (at_time 1000) 1 running Waiting "request failed" 0 0 pulled.1 failed.1 failed.2 failed_end
    (proj1 pulled_run) eq_refl ltac:(vm_compute; reflexivity) ltac:(vm_compute; reflexivity) ltac:(discriminate) ltac:(vm_compute; discriminate))))|].
  vm_compute. reflexivity.
Defined.

(** A task holds while the download runs, the attempt ends, its end is
    announced, and the hold returns. *)
Definition ended : Prefetcher := (fetch_end opts (at_time 9) 1 running Waiting "stopped" 1 1 (Hold pulled.1).1).1.
Definition held_sys : sys := mkSys ended None [0%nat] [] 1 2.
Lemma held_last p : step opts (mkSys p None [0%nat] [Some 0%nat] 0 2) (mkSys p None [0%nat] [] 1 2).
Proof. refine (step_hold_returns opts (mkSys p None [0%nat] [Some 0%nat] 0 2) [] (Some 0%nat) [] eq_refl _). intros i [= <-]. by left. Qed.
Lemma held_reached : reach opts held_sys.
Proof.
  assert (H1 : reach opts (mkSys pulled.1 (Some (running, true)) [] [] 0 1)).
  { eapply reach_step; [apply reach_first|]. exact (step_update opts first (at_time 5) (Some (mkConfig (Some update) [])) pulled.1 pulled.2 ltac:(vm_compute; reflexivity)). }
  assert (H2 : reach opts (mkSys (Hold pulled.1).1 (Some (running, true)) [] [Some 0%nat] 0 1)) by (eapply reach_step; [exact H1|exact (step_hold opts (mkSys pulled.1 (Some (running, true)) [] [] 0 1) (Hold pulled.1).1 (Some 0%nat) ltac:(vm_compute; reflexivity))]).
  assert (H3 : reach opts (mkSys (Hold pulled.1).1 (Some (running, false)) [] [Some 0%nat] 0 1)) by (eapply reach_step; [exact H2|exact (step_attempt_ends opts (mkSys (Hold pulled.1).1 (Some (running, true)) [] [Some 0%nat] 0 1) running eq_refl)]).
  assert (H4 : reach opts (mkSys ended None [0%nat] [Some 0%nat] 0 2)).
  { eapply reach_step; [exact H3|]. exact (step_fetch_ends opts (mkSys (Hold pulled.1).1 (Some (running, false)) [] [Some 0%nat] 0 1) running (at_time 9) Waiting "stopped" 1 1 ended [] eq_refl ltac:(vm_compute; reflexivity)). }
  exact (reach_step opts _ _ H4 (held_last ended)).
Qed.
Lemma hold_excludes_fetch_witness : fetcher held_sys = None /\ run (pf held_sys) = None.
Proof. exact (proj1 (hold_excludes_fetch opts held_sys held_reached) eq_refl). Defined.
End FetchSample.
