(* ===== verification/Icmp.v ===== *)
(** * The echo run (internal/prober/icmp.go)

    Addresses, the socket and the ICMP codec are arguments; one [turn] is what
    one round of the loop meets. *)
From S2P Require Import Prelude GoStrings.
From Stdlib Require Import Ascii SpecFloat.

Local Open Scope Z_scope.

Module Icmp.

Definition icmpPayloadLen : nat := 32.
Definition icmpRandomLen : nat := 16.
Definition maxReadErrors : Z := 3.
Definition icmpMarker : string := "lattice-echo-v1" +:+ String "000" "".
Definition capabilityRecheck : duration := 10 * minute.
(** model.MonitorPacketsMax and the like bound the count before this. *)

Section Run.
(** netip.Addr, and the data of an echo reply, if a datagram is one. *)
Context {Addr : Type} `{EqDecision Addr}.
Context (parse_reply : string -> option string).

Record echo := mkEcho { payload : string; sentAt : time; sent : bool; replied : bool; rtt : duration }.
#[export] Instance echo_eta : Etable echo := fun e => mkEcho (payload e) (sentAt e) (sent e) (replied e) (rtt e).

(** A read ends with a datagram and its sender, by its deadline, or with an
    error, on a closed socket or not. *)
Inductive read_end := Got (b : string) (peer : option Addr) | DeadlineExceeded | ErrClosed (text : string) | ReadErr (text : string).
Record turn := mkTurn {
  t_done : bool;
  t_now : time;
  t_marshal : option string;
  t_write : option string;
  t_sentAt : time;
  t_deadline : option string;
  t_read : read_end;
  t_recvAt : time;
  t_done_after : bool
}.

Record run := mkRun {
  echoes : list echo; planned : nat; final : time; runErr : option string; next : nat; nsent : Z; nreplied : Z; readErrs : Z
}.
#[export] Instance run_eta : Etable run := fun r =>
  mkRun (echoes r) (planned r) (final r) (runErr r) (next r) (nsent r) (nreplied r) (readErrs r).

Section Loop.
Context (target : Addr) (start : time) (spacing timeout : duration).

(** The first echo a reply's data answers; the search ends at one whose wait
    is over. *)
Fixpoint match_data (data : string) (recvAt : time) (l : list echo) : option (list echo) :=
  match l with
  | [] => None
  | e :: l =>
      if negb (sent e) || replied e || negb (String.eqb data (payload e)) then
        match match_data data recvAt l with Some l => Some (e :: l) | None => None end
      else
        let d := time_sub recvAt (sentAt e) in
        if timeout <? d then None else Some (e <| replied := true |> <| rtt := d |> :: l)
  end.
Definition matchReply (b : string) (peer : option Addr) (recvAt : time) (l : list echo) : option (list echo) :=
  if negb (bool_decide (peer = Some target)) then None
  else match parse_reply b with None => None | Some data => match_data data recvAt l end.

Definition sendAt (k : nat) : time := time_add start (Z.of_nat k * spacing).

(** One round: the run goes on, or ends with an error or none. *)
Definition round (t : turn) (r : run) : run * option (option string) :=
  if t_done t then (r, Some (runErr r))
  else
    let now := t_now t in
    if (next r <? planned r)%nat && negb (time_before now (sendAt (next r))) then
      match t_marshal t with
      | Some err => (r <| runErr := Some ("send: " +:+ err)%string |> <| planned := next r |>, None)
      | None =>
          let r := r <| echoes ::= alter (fun e => e <| sentAt := t_sentAt t |>) (next r) |> in
          match t_write t with
          | Some err => (r <| runErr := Some ("send: " +:+ err)%string |> <| planned := next r |>, None)
          | None =>
              (r <| echoes ::= alter (fun e => e <| sent := true |>) (next r) |> <| nsent ::= fun n => n + 1 |>
                 <| final := time_add (t_sentAt t) timeout |> <| next ::= S |>, None)
          end
      end
    else if (next r =? planned r)%nat && ((nreplied r =? nsent r) || negb (time_before now (final r))) then (r, Some (runErr r))
    else
      match t_deadline t with
      | Some err => (r, Some (Some ("read: " +:+ err)%string))
      | None =>
          match t_read t with
          | DeadlineExceeded => (r <| readErrs := 0 |>, None)
          | Got b peer =>
              let r := r <| readErrs := 0 |> in
              match matchReply b peer (t_recvAt t) (echoes r) with
              | Some l => (r <| echoes := l |> <| nreplied ::= fun n => n + 1 |>, None)
              | None => (r, None)
              end
          | ErrClosed err => (r <| readErrs ::= fun n => n + 1 |>, Some (Some ("read: " +:+ err)%string))
          | ReadErr err =>
              let r := r <| readErrs ::= fun n => n + 1 |> in
              (r, if (maxReadErrors <=? readErrs r) || t_done_after t then Some (Some ("read: " +:+ err)%string) else None)
          end
      end.

(** The rounds until one ends the run; without an end the run is still going. *)
Fixpoint runEchoes (ts : list turn) (r : run) : run * option (option string) :=
  match ts with
  | [] => (r, None)
  | t :: ts => match round t r with (r, None) => runEchoes ts r | out => out end
  end.
End Loop.

(** The echoes before the run, each with the marker and its random bytes. *)
Definition newEchoes (random : list string) : list echo :=
  map (fun x => mkEcho (icmpMarker +:+ x)%string 0 false false 0) random.
Definition first_run (l : list echo) : run := mkRun l (length l) 0 None 0 0 0 0.

(** ** The result *)
Definition elapsedMs (d : duration) : spec_float := f64_div (f64_of (Z.quot d 1000)) (f64_of 1000).
Definition median (values : list spec_float) : spec_float :=
  match values with
  | [] => f64_of 0
  | _ =>
      let sorted := insertion_sort SFleb values in
      let mid := (length sorted / 2)%nat in
      if (length sorted mod 2 =? 1)%nat then nth mid sorted (f64_of 0)
      else f64_div (f64_add (nth (mid - 1) sorted (f64_of 0)) (nth mid sorted (f64_of 0))) (f64_of 2)
  end.

Record result := mkResult { Sent : Z; Lost : Z; RTTsMs : list spec_float; LatencyMs : spec_float; Success : bool; Error : string }.
Definition fillICMPResult (l : list echo) (err : option string) : result :=
  let out := List.filter sent l in
  let rtts := map (fun e => elapsedMs (rtt e)) (List.filter replied out) in
  let n := zlen out in
  let lost := n - zlen rtts in
  match rtts with
  | _ :: _ => mkResult n lost rtts (median rtts) true ""
  | [] =>
      mkResult n lost rtts (f64_of 0) false
        (match err with
         | Some e => "icmp echo after " +:+ itoa n +:+ " sent: " +:+ e
         | None => "no reply to " +:+ itoa n +:+ " icmp echoes"
         end)%string
  end.

(** ** Which methods the host allows *)
Inductive listened := Opened | RefusedByKernel | Transient.
Record capabilities := mkCaps { checkedAt : time; refusal : bool }.
Definition newCapabilities : capabilities := mkCaps 0 false.
Definition setICMPLocked (now : time) (permitted : bool) : capabilities := mkCaps now (negb permitted).
Definition observeICMP (now : time) (permitted : bool) (c : capabilities) : capabilities := setICMPLocked now permitted.
Definition checkICMPLocked (now : time) (l : listened) (c : capabilities) : capabilities :=
  match l with
  | Opened => setICMPLocked now true
  | RefusedByKernel => setICMPLocked now false
  | Transient => mkCaps now (refusal c)
  end.
(** The methods, sorted, with whether ICMP is refused; the kernel is asked when
    the last answer is old. *)
Definition facts (now : time) (l : listened) (c : capabilities) : capabilities * (list string * bool) :=
  let c := if is_zero_time (checkedAt c) || (capabilityRecheck <=? time_sub now (checkedAt c)) then checkICMPLocked now l c else c in
  (c, (if refusal c then ["dns"; "http"; "tcp"] else ["dns"; "http"; "icmp"; "tcp"], refusal c)%string).
End Run.
End Icmp.

(** * What an echo run promises *)
From S2P Require Import Prelude GoStrings.
From Stdlib Require Import Ascii.

Local Open Scope Z_scope.

Module IcmpProps.
Import Icmp.

Section Props.
Context {Addr : Type} `{EqDecision Addr} (parse_reply : string -> option string).
Context (target : Addr) (start : time) (spacing timeout : duration).
Abbreviation turn := (@turn Addr).
Abbreviation go := (runEchoes parse_reply target start spacing timeout).
Abbreviation one := (round parse_reply target start spacing timeout).
Abbreviation due := (sendAt start spacing).

(** A turn that delivered the answer to an echo: from the target, with the
    echo's whole payload, inside its wait. *)
Definition answers (e : echo) (t : turn) : Prop :=
  exists b, t_read t = Got b (Some target) /\ parse_reply b = Some (payload e) /\
    time_sub (t_recvAt t) (sentAt e) <= timeout /\ rtt e = time_sub (t_recvAt t) (sentAt e).

(** The state after some turns, from echoes none of which was sent. *)
Record sane (l : list echo) (ts : list turn) (r : run) : Prop := {
  s_len : length (echoes r) = length l;
  s_plan : (next r <= planned r <= length l)%nat;
  s_err : runErr r = None -> planned r = length l;
  s_pay : map payload (echoes r) = map payload l;
  s_sent : forall i e, echoes r !! i = Some e -> sent e = (i <? next r)%nat;
  s_replied : forall i e, echoes r !! i = Some e -> replied e = true -> (i < next r)%nat /\ exists t, t ∈ ts /\ answers e t;
  s_counts : nsent r = Z.of_nat (next r) /\ nreplied r = countb replied (echoes r);
  s_due : Forall (fun t => t_now t <= t_sentAt t) ts -> forall i e, echoes r !! i = Some e -> (i < next r)%nat -> due i <= sentAt e;
  s_final : (0 < next r)%nat -> exists e, echoes r !! pred (next r) = Some e /\ final r = time_add (sentAt e) timeout
}.

Lemma start_sane l : Forall (fun e => sent e = false /\ replied e = false) l -> sane l [] (first_run l).
Proof.
  intros Hl. rewrite Forall_lookup in Hl. split; simpl; try done; try lia.
  - intros i e Hi. rewrite (proj1 (Hl i e Hi)). done.
  - intros i e Hi Hr. rewrite (proj2 (Hl i e Hi)) in Hr. done.
  - split; [done|]. clear -Hl. induction l as [|e l IH]; [done|]. rewrite countb_cons, (proj2 (Hl 0%nat e eq_refl)), <-IH; [done|].
    intros i x Hi. exact (Hl (S i) x Hi).
Qed.

Lemma answers_more e (ts : list turn) (t' : turn) : (exists x, x ∈ ts /\ answers e x) -> exists x, x ∈ ts ++ [t'] /\ answers e x.
Proof. intros (x & Hx & Ha). exists x. split; [apply elem_of_app; by left|done]. Qed.

(** Matching a reply touches one echo, sent and not answered yet. *)
Lemma match_data_spec data recvAt l l' : match_data timeout data recvAt l = Some l' ->
  exists i e, l !! i = Some e /\ sent e = true /\ replied e = false /\ data = payload e /\ time_sub recvAt (sentAt e) <= timeout /\
    l' = <[i := e <| replied := true |> <| rtt := time_sub recvAt (sentAt e) |>]> l.
Proof.
  revert l'. induction l as [|e l IH]; intros l'; [done|]. simpl.
  destruct (sent e) eqn:Hs; [destruct (replied e) eqn:Hr; [|destruct (String.eqb_spec data (payload e)) as [Hd|Hd]]|]; cbn [negb orb].
  2: destruct (Z.ltb_spec timeout (time_sub recvAt (sentAt e))); [done|]; intros [= <-]; exists 0%nat, e; split_and!; done.
  all: destruct (match_data timeout data recvAt l) as [l2|]; [|done]; intros [= <-]; destruct (IH l2 eq_refl) as (i & x & H1 & H2 & H3 & H4 & H5 & ->); exists (S i), x; done.
Qed.

Lemma countb_insert {A} (P : A -> bool) l i x y : l !! i = Some x -> P x = false -> P y = true -> countb P (<[i := y]> l) = 1 + countb P l.
Proof.
  revert i. induction l as [|z l IH]; intros [|i] Hi Hx Hy; [done|done|injection Hi as ->; simpl; by rewrite !countb_cons, Hx, Hy|].
  simpl. rewrite !countb_cons, (IH i) by done. lia.
Qed.
Lemma map_alter_same {A B} (g : A -> B) (h : A -> A) i l : (forall x, g (h x) = g x) -> map g (alter h i l) = map g l.
Proof. intros Hg. revert i. induction l as [|x l IH]; intros [|i]; [done|done|simpl; by rewrite Hg|simpl; f_equal; apply IH]. Qed.
Lemma countb_alter_same {A} (P : A -> bool) (h : A -> A) i l : (forall x, P (h x) = P x) -> countb P (alter h i l) = countb P l.
Proof. intros Hg. revert i. induction l as [|x l IH]; intros [|i]; [done|done|simpl; by rewrite !countb_cons, Hg|]. simpl. rewrite !countb_cons. f_equal. apply IH. Qed.

Lemma sane_more l ts t r : sane l ts r -> sane l (ts ++ [t]) r.
Proof.
  intros [S1 S2 S3 S4 S5 S6 S7 S8 S9]. split; try done.
  - intros i e Hi Hr. destruct (S6 i e Hi Hr) as [H1 H2]. split; [done|by apply answers_more].
  - intros Hf. apply S8. by apply Forall_app in Hf as [Hf _].
Qed.
(** A round that leaves the echoes, the count of the sent ones and the wait. *)
Lemma sane_same l ts r r' : sane l ts r -> echoes r' = echoes r -> next r' = next r -> nsent r' = nsent r -> nreplied r' = nreplied r -> final r' = final r ->
  (next r <= planned r' <= length l)%nat -> (runErr r' = None -> planned r' = length l) -> sane l ts r'.
Proof.
  intros [S1 S2 S3 S4 S5 S6 S7 S8 S9] E1 E2 E3 E4 E5 H1 H2. split; rewrite ?E1, ?E2, ?E3, ?E4, ?E5; done.
Qed.

Lemma alter_at {A} (h : A -> A) (k i : nat) (l : list A) x : alter h k l !! i = Some x -> (i = k /\ exists y, l !! k = Some y /\ x = h y) \/ (i <> k /\ l !! i = Some x).
Proof.
  destruct (decide (i = k)) as [->|Hn]; [|rewrite list_lookup_alter_ne by done; auto]. rewrite list_lookup_alter_eq. intros (y & Hy & ->)%fmap_Some. left. eauto.
Qed.

(** Stamping the next echo changes nothing else. *)
Lemma stamp_sane l ts r at' : sane l ts r -> (next r < planned r)%nat -> sane l ts (r <| echoes ::= alter (fun e => e <| sentAt := at' |>) (next r) |>).
Proof.
  intros [S1 S2 S3 S4 S5 S6 S7 S8 S9] Hlt. split; upd; try done.
  - by rewrite length_alter.
  - by rewrite map_alter_same.
  - intros i e [[-> (y & Hy & ->)]|[_ Hi]]%alter_at; [|by apply S5]. upd. by apply S5.
  - intros i e [[-> (y & Hy & ->)]|[_ Hi]]%alter_at; [|by apply S6]. upd. intros Hr. destruct (S6 _ _ Hy Hr). lia.
  - rewrite countb_alter_same by done. done.
  - intros Hf i e [[-> (y & Hy & ->)]|[_ Hi]]%alter_at Hlt'; [lia|by apply S8].
  - intros Hn. destruct (S9 Hn) as (e & He & Hfin). exists e. split; [|done]. rewrite list_lookup_alter_ne by lia. done.
Qed.

Lemma send_sane l ts r t : sane l ts r -> (next r < planned r)%nat -> due (next r) <= t_now t ->
  sane l (ts ++ [t]) (r <| echoes ::= alter (fun e => e <| sentAt := t_sentAt t |>) (next r) |> <| echoes ::= alter (fun e => e <| sent := true |>) (next r) |>
    <| nsent ::= fun n => n + 1 |> <| final := time_add (t_sentAt t) timeout |> <| next ::= S |>).
Proof.
  intros Hs Hlt Hdue. assert (H1 := sane_more _ _ t _ (stamp_sane l ts r (t_sentAt t) Hs Hlt)). set (r1 := r <| echoes ::= _ |>) in *.
  assert (Hat : forall e, echoes r1 !! next r = Some e -> sentAt e = t_sentAt t).
  { unfold r1. upd. intros e [[_ (y & _ & ->)]|[Hn _]]%alter_at; [by upd|done]. }
  assert (Hex : exists e, echoes r1 !! next r = Some e).
  { apply lookup_lt_is_Some_2. rewrite (s_len _ _ _ H1). assert (Hp := s_plan _ _ _ Hs). lia. }
  destruct H1 as [S1 S2 S3 S4 S5 S6 S7 S8 S9]. assert (Hn1 : next r1 = next r) by done. rewrite Hn1 in *. assert (Hp1 : planned r1 = planned r) by done. rewrite Hp1 in *.
  split; upd; try done.
  - by rewrite length_alter.
  - lia.
  - by rewrite map_alter_same.
  - intros i e [[-> (y & Hy & ->)]|[Hne Hi]]%alter_at; upd.
    + symmetry. apply Nat.ltb_lt. lia.
    + assert (Hne2 : i <> next r) by exact Hne. rewrite (S5 i e Hi). change ((i <? next r)%nat = (i <? S (next r))%nat). destruct (Nat.ltb_spec i (next r)), (Nat.ltb_spec i (S (next r))); try done; lia.
  - intros i e [[-> (y & Hy & ->)]|[Hne Hi]]%alter_at; upd; intros Hr.
    + destruct (S6 _ _ Hy Hr). lia.
    + destruct (S6 _ _ Hi Hr). split; [lia|done].
  - rewrite countb_alter_same by done. destruct S7 as [H7 H8]. split; [|done]. change (nsent r = Z.of_nat (next r)) in H7. change (nsent r + 1 = Z.of_nat (S (next r))). lia.
  - intros Hf i e [[-> (y & Hy & ->)]|[Hne Hi]]%alter_at Hlt'; upd.
    + rewrite (Hat y Hy). apply Forall_app in Hf as [_ Hf]. apply Forall_cons in Hf as [Hf _]. exact (Z.le_trans _ _ _ Hdue Hf).
    + assert (Hne2 : i <> next r) by exact Hne. assert (Hlt2 : (i < S (next r))%nat) by exact Hlt'. apply S8; [done|done|lia].
  - intros _. destruct Hex as [e He]. exists (e <| sent := true |>). rewrite Nat.pred_succ. split; [by rewrite list_lookup_alter_eq, He|]. upd. by rewrite (Hat e He).
Qed.

Lemma reply_sane l ts r t b peer l' : sane l ts r -> t_read t = Got b peer -> matchReply parse_reply target timeout b peer (t_recvAt t) (echoes r) = Some l' ->
  sane l (ts ++ [t]) (r <| echoes := l' |> <| nreplied ::= fun n => n + 1 |>).
Proof.
  intros Hs Ht Hm. unfold matchReply in Hm. destruct (bool_decide_reflect (peer = Some target)) as [->|]; [|done]. simpl in Hm.
  destruct (parse_reply b) as [data|] eqn:Hb; [|done]. destruct (match_data_spec _ _ _ _ Hm) as (k & e & H1 & H2 & H3 & -> & H5 & ->).
  destruct (sane_more _ _ t _ Hs) as [S1 S2 S3 S4 S5 S6 S7 S8 S9]. set (e' := e <| replied := true |> <| rtt := _ |>).
  assert (Hk : (k < next r)%nat) by (assert (Hx := S5 k e H1); rewrite H2 in Hx; symmetry in Hx; by apply Nat.ltb_lt in Hx).
  assert (Hins : forall i x, <[k:=e']> (echoes r) !! i = Some x -> (i = k /\ x = e') \/ (i <> k /\ echoes r !! i = Some x)).
  { intros i x. destruct (decide (i = k)) as [->|Hne]; [|rewrite list_lookup_insert_ne by done; auto].
    rewrite list_lookup_insert_eq by (by eapply lookup_lt_Some). intros [= <-]. auto. }
  split; upd; try done.
  - by rewrite length_insert.
  - rewrite <-S4. change (map payload (<[k:=e']> (echoes r))) with (payload <$> <[k:=e']> (echoes r)). rewrite list_fmap_insert. apply list_insert_id. by rewrite list_lookup_fmap, H1.
  - intros i x [[-> ->]|[_ Hi]]%Hins; [exact (S5 k e H1)|by apply S5].
  - intros i x [[-> ->]|[_ Hi]]%Hins Hr; [|by apply S6]. split; [done|]. exists t. split; [apply elem_of_app; right; by left|]. exists b. done.
  - destruct S7 as [H7 H8]. split; [done|]. rewrite (countb_insert replied _ _ e e') by done. lia.
  - intros Hf i x [[-> ->]|[_ Hi]]%Hins Hlt; [exact (S8 Hf k e H1 Hlt)|by apply S8].
  - intros Hn. destruct (S9 Hn) as (x & Hx & Hfin). destruct (decide (pred (next r) = k)) as [E|Hne].
    + rewrite E in *. exists e'. rewrite list_lookup_insert_eq by (by eapply lookup_lt_Some). split; [done|]. rewrite Hfin. assert (x = e) as -> by congruence. done.
    + exists x. by rewrite list_lookup_insert_ne.
Qed.

Lemma round_sane l ts t r r' o : sane l ts r -> one t r = (r', o) -> sane l (ts ++ [t]) r'.
Proof.
  intros Hs Hr. assert (Hm := sane_more _ _ t _ Hs). assert (Hplan := s_plan _ _ _ Hs). assert (Herr := s_err _ _ _ Hs). unfold round in Hr.
  destruct (t_done t); [by injection Hr as <- <-|].
  destruct (Nat.ltb_spec (next r) (planned r)) as [Hlt|Hge]; cbn [andb] in Hr.
  - destruct (Z.ltb_spec (t_now t) (due (next r))) as [Hb|Hdue]; unfold time_before in Hr.
    + rewrite (proj2 (Z.ltb_lt _ _) Hb) in Hr. cbn [negb] in Hr. rewrite (proj2 (Nat.eqb_neq _ _)) in Hr by lia. cbn [andb] in Hr.
      destruct (t_deadline t); [by injection Hr as <- <-|]. destruct (t_read t) as [b peer| |err|err] eqn:Hread.
      * destruct (matchReply _ _ _ _ _ _ _) as [l'|] eqn:Hmr; injection Hr as <- <-.
        -- apply (sane_same _ _ _ _ (reply_sane l ts r t b peer l' Hs Hread Hmr)); upd; try done.
        -- apply (sane_same _ _ _ _ Hm); upd; try done.
      * injection Hr as <- <-. apply (sane_same _ _ _ _ Hm); upd; try done.
      * injection Hr as <- <-. apply (sane_same _ _ _ _ Hm); upd; try done.
      * injection Hr as <- <-. apply (sane_same _ _ _ _ Hm); upd; try done.
    + rewrite (proj2 (Z.ltb_ge _ _) Hdue) in Hr. cbn [negb] in Hr. destruct (t_marshal t).
      * injection Hr as <- <-. apply (sane_same _ _ _ _ Hm); upd; try done. lia.
      * destruct (t_write t); injection Hr as <- <-.
        -- apply (sane_same _ _ _ _ (sane_more _ _ t _ (stamp_sane l ts r (t_sentAt t) Hs Hlt))); upd; try done. lia.
        -- by apply send_sane.
  - destruct (_ && _); [by injection Hr as <- <-|].
    destruct (t_deadline t); [by injection Hr as <- <-|]. destruct (t_read t) as [b peer| |err|err] eqn:Hread.
    * destruct (matchReply _ _ _ _ _ _ _) as [l'|] eqn:Hmr; injection Hr as <- <-.
      -- apply (sane_same _ _ _ _ (reply_sane l ts r t b peer l' Hs Hread Hmr)); upd; try done.
      -- apply (sane_same _ _ _ _ Hm); upd; try done.
    * injection Hr as <- <-. apply (sane_same _ _ _ _ Hm); upd; try done.
    * injection Hr as <- <-. apply (sane_same _ _ _ _ Hm); upd; try done.
    * injection Hr as <- <-. apply (sane_same _ _ _ _ Hm); upd; try done.
Qed.

(** The end of a run: the echoes' state after the turns it took, and why it
    ended. *)
Lemma run_sane l ts0 ts r r' o : sane l ts0 r -> go ts r = (r', o) -> exists used, used ⊆ ts /\ sane l (ts0 ++ used) r' /\
  match o with
  | Some end_ => exists ts1 t r1, used = ts1 ++ [t] /\ sane l (ts0 ++ ts1) r1 /\ one t r1 = (r', Some end_)
  | None => used = ts
  end.
Proof.
  revert ts0 r. induction ts as [|t ts IH]; intros ts0 r Hs Hr; simpl in Hr.
  - injection Hr as <- <-. exists []. rewrite app_nil_r. done.
  - destruct (one t r) as [r1 [e|]] eqn:H1.
    + injection Hr as <- <-. exists [t]. split; [set_solver|]. split; [by eapply round_sane|]. exists [], t, r. rewrite app_nil_r. done.
    + destruct (IH (ts0 ++ [t]) r1 (round_sane _ _ _ _ _ _ Hs H1) Hr) as (used & Hsub & Hsane & Hend). exists (t :: used).
      split; [set_solver|]. rewrite <-app_assoc in Hsane. split; [done|]. destruct o as [e|]; [|by rewrite Hend].
      destruct Hend as (ts1 & t' & r2 & -> & H2 & H3). exists (t :: ts1), t', r2. rewrite <-app_assoc in H2. done.
Qed.

Definition fresh (l : list echo) : Prop := Forall (fun e => sent e = false /\ replied e = false) l.

Lemma count_sent (l : list echo) n k : (forall i e, l !! i = Some e -> sent e = (n + i <? k)%nat) ->
  countb sent l = Z.max 0 (Z.min (zlen l) (Z.of_nat k - Z.of_nat n)).
Proof.
  revert n. induction l as [|e l IH]; intros n Hs; [unfold zlen; simpl; rewrite countb_nil; lia|]. rewrite countb_cons, zlen_cons, (Hs 0%nat e eq_refl).
  rewrite (IH (S n)); [|intros i x Hi; rewrite (Hs (S i) x Hi); f_equal; lia]. assert (Hz := zlen_nonneg l).
  destruct (Nat.ltb_spec (n + 0) k); lia.
Qed.
Lemma filter_replied (l : list echo) : Forall (fun e => replied e = true -> sent e = true) l -> zlen (List.filter replied (List.filter sent l)) = countb replied l.
Proof.
  induction 1 as [|e l He _ IH]; [done|]. rewrite countb_cons. simpl. destruct (sent e) eqn:Hs; simpl; destruct (replied e) eqn:Hr; rewrite ?zlen_cons, ?IH; try lia.
Qed.

(** Only the target answers an echo: whatever datagrams come, from whom and
    when, an echo counts as answered only when it was sent and a datagram from
    the target carried its whole payload inside its wait, with the round trip
    measured from its sending; what is reported lost is what was sent and not so
    answered, and a run is a success exactly when an echo was answered. *)
Theorem replies_authentic l ts r out err : fresh l -> go ts (first_run l) = (r, out) ->
  map payload (echoes r) = map payload l /\
  (forall i e, echoes r !! i = Some e -> replied e = true -> sent e = true /\ exists t, t ∈ ts /\ answers e t) /\
  let res := fillICMPResult (echoes r) err in
  Sent res = nsent r /\ 0 <= Lost res /\ Lost res = nsent r - nreplied r /\ nreplied r = countb replied (echoes r) /\ Success res = (0 <? nreplied r).
Proof.
  intros Hl Hr. destruct (run_sane l [] ts (first_run l) r out (start_sane l Hl) Hr) as (used & Hsub & [S1 S2 S3 S4 S5 S6 S7 S8 S9] & _).
  assert (Hrep : forall i e, echoes r !! i = Some e -> replied e = true -> sent e = true /\ exists t, t ∈ ts /\ answers e t).
  { intros i e Hi He. destruct (S6 i e Hi He) as (Hlt & t & Ht & Ha). split; [rewrite (S5 i e Hi); by apply Nat.ltb_lt|]. exists t. split; [by apply Hsub|done]. }
  split; [done|]. split; [done|]. destruct S7 as [Hn Hc].
  assert (Hsent : zlen (List.filter sent (echoes r)) = nsent r).
  { change (countb sent (echoes r) = nsent r). rewrite (count_sent _ 0 (next r)) by done. unfold zlen. lia. }
  assert (Hfr : zlen (List.filter replied (List.filter sent (echoes r))) = nreplied r).
  { rewrite filter_replied; [done|]. apply Forall_lookup. intros i e Hi He. by apply (Hrep i e). }
  assert (Hle : nreplied r <= nsent r) by (rewrite <-Hfr, <-Hsent; apply (countb_bounds replied)).
  unfold fillICMPResult. set (rtts := map _ (List.filter replied _)).
  assert (Hrtt : zlen rtts = nreplied r) by (unfold rtts, zlen in *; by rewrite length_map).
  destruct rtts as [|x xs]; cbv zeta; simpl Sent; simpl Lost; simpl Success; rewrite Hsent, Hrtt; split_and!; try done; try lia.
  - by rewrite <-Hrtt.
  - rewrite <-Hrtt, zlen_cons. assert (Hz := zlen_nonneg xs). symmetry. apply Z.ltb_lt. lia.
Qed.

(** A run that nothing cut short neither ends early nor sends early: when it
    ends without an error and was not cancelled, every echo was sent, no echo
    before its time, and each was answered or the whole wait of the last one
    had passed. *)
Theorem run_ends_when_due l ts r : fresh l -> go ts (first_run l) = (r, Some None) -> Forall (fun t => t_done t = false /\ t_now t <= t_sentAt t) ts ->
  (forall i e, echoes r !! i = Some e -> sent e = true /\ due i <= sentAt e) /\
  ((forall i e, echoes r !! i = Some e -> replied e = true) \/
   exists t e, t ∈ ts /\ last (echoes r) = Some e /\ time_add (sentAt e) timeout <= t_now t).
Proof.
  intros Hl Hr Hts. destruct (run_sane l [] ts (first_run l) r _ (start_sane l Hl) Hr) as (used & Hsub & [S1 S2 S3 S4 S5 S6 S7 S8 S9] & ts1 & t & r1 & -> & Hs1 & Hone).
  rewrite Forall_forall in Hts. assert (Ht : t ∈ ts) by (apply Hsub, elem_of_app; right; by left). destruct (Hts t Ht) as [Hnd _].
  assert (Hend : r1 = r /\ runErr r = None /\ next r = planned r /\ ((nreplied r =? nsent r) || negb (time_before (t_now t) (final r))) = true).
  { unfold round in Hone. rewrite Hnd in Hone. destruct ((next r1 <? planned r1)%nat && _); [destruct (t_marshal t); [done|destruct (t_write t); done]|].
    destruct ((next r1 =? planned r1)%nat && _) eqn:Hc; [injection Hone as -> He; apply andb_prop in Hc as [Hc1%Nat.eqb_eq Hc2]; done|].
    destruct (t_deadline t); [discriminate Hone|]. destruct (t_read t); [destruct (matchReply _ _ _ _ _ _ _) in Hone|..|destruct (_ || _) in Hone]; discriminate Hone. }
  destruct Hend as (-> & Hno & Hnp & Hwhy). assert (Hnl : next r = length l) by (rewrite Hnp; by apply S3).
  assert (Hsent : forall i e, echoes r !! i = Some e -> (i < next r)%nat) by (intros i e Hi; rewrite Hnl, <-S1; by eapply lookup_lt_Some).
  split.
  - intros i e Hi. assert (Hlt := Hsent i e Hi). split; [rewrite (S5 i e Hi); by apply Nat.ltb_lt|]. apply S8; [|done|done].
    apply Forall_forall. intros x Hx. apply Hts. by apply Hsub.
  - apply orb_prop in Hwhy as [Hall%Z.eqb_eq|Hfin].
    + left. destruct S7 as [Hn Hc]. intros i e Hi. destruct (replied e) eqn:He; [done|]. exfalso.
      assert (Hlt : countb replied (echoes r) < zlen (echoes r)).
      { clear -Hi He. revert i Hi. generalize (echoes r) as m. induction m as [|x m IH]; intros [|i] Hi; [done|done|injection Hi as ->; rewrite countb_cons, zlen_cons, He; assert (Hb := countb_bounds replied m); lia|].
        rewrite countb_cons, zlen_cons. specialize (IH i Hi). destruct (replied x); lia. }
      unfold zlen in Hlt. lia.
    + apply negb_true_iff, Z.ltb_ge in Hfin. destruct (decide (next r = 0%nat)) as [H0|H0].
      * left. intros i e Hi. specialize (Hsent i e Hi). lia.
      * right. destruct (S9 ltac:(lia)) as (e & He & Hf). exists t, e. split; [done|]. split; [|by rewrite <-Hf]. rewrite last_lookup, S1, <-Hnl. done.
Qed.
End Props.
End IcmpProps.

(** * An echo run on concrete turns *)
From S2P Require Import Prelude GoStrings.
From Stdlib Require Import Ascii SpecFloat.

Local Open Scope Z_scope.

Module EchoSample.
Import Icmp IcmpProps.

(** Two echoes 200 ms apart, each waiting a second; a reply is its data behind
    one byte, and addresses are numbers. *)
Definition parse_reply (b : string) : option string :=
  match b with String "R" data => Some data | _ => None end.
Definition ms : Z := 1000000.
Definition base : time := second.
Definition two : list echo := newEchoes ["0123456789abcdef"; "fedcba9876543210"]%string.
Definition turn_at (now : Z) (r : read_end (Addr := nat)) (recv : Z) : turn :=
  mkTurn false (base + now * ms) None None (base + now * ms) None r (base + recv * ms) false.
Definition send (now : Z) := turn_at now DeadlineExceeded now.
Definition reply (s : string) : string := String "R" (icmpMarker +:+ s).
Abbreviation go := (runEchoes parse_reply 7%nat base (200 * ms) (1000 * ms)).

(** The answer to the first from a stranger, to the first from the target and
    again, then to the second after its wait. *)
Definition turns : list turn :=
  [send 0; turn_at 10 (Got (reply "0123456789abcdef") (Some 8%nat)) 20; turn_at 20 (Got (reply "0123456789abcdef") (Some 7%nat)) 40;
   turn_at 40 (Got (reply "0123456789abcdef") (Some 7%nat)) 60; turn_at 60 DeadlineExceeded 200; send 201;
   turn_at 300 (Got (reply "fedcba9876543210") (Some 7%nat)) 1202; turn_at 1202 DeadlineExceeded 1202].
Definition ended := Eval vm_compute in fst (go turns (first_run two)).

Lemma turns_end : go turns (first_run two) = (ended, Some None).
Proof. vm_compute. reflexivity. Qed.
Example one_lost : let res := fillICMPResult (echoes ended) None in
  Sent res = 2 /\ Lost res = 1 /\ LatencyMs res = f64_of 40 /\ Success res = true.
Proof. vm_compute. tauto. Qed.

Lemma two_fresh : fresh two.
Proof. repeat constructor. Qed.

Definition first_echo : echo := default (mkEcho "" 0 false false 0) (echoes ended !! 0%nat).
Lemma replies_authentic_witness : replied first_echo = true /\ sent first_echo = true /\ exists t, t ∈ turns /\ answers parse_reply 7%nat (1000 * ms) first_echo t.
Proof.
  split; [reflexivity|].
  exact (proj1 (proj2 (replies_authentic parse_reply 7%nat base (200 * ms) (1000 * ms) two turns ended (Some None) None two_fresh turns_end)) 0%nat _ eq_refl eq_refl).
Defined.

Lemma turns_live : Forall (fun t => t_done t = false /\ t_now t <= t_sentAt t) turns.
Proof. repeat constructor; vm_compute; discriminate. Qed.
Lemma run_ends_when_due_witness : sendAt base (200 * ms) 1 <= sentAt (default first_echo (echoes ended !! 1%nat)).
Proof.
  exact (proj2 (proj1 (run_ends_when_due parse_reply 7%nat base (200 * ms) (1000 * ms) two turns ended two_fresh turns_end turns_live) 1%nat _ eq_refl)).
Defined.

(** The kernel's answer is asked for again after ten minutes, and a transient
    failure to open the socket keeps what was known. *)
Example capability_rechecked :
  let c := fst (facts base RefusedByKernel newCapabilities) in
  snd (facts (base + minute) Opened c) = (["dns"; "http"; "tcp"], true)%string /\
  snd (facts (base + 10 * minute) Transient c) = (["dns"; "http"; "tcp"], true)%string /\
  snd (facts (base + 10 * minute) Opened c) = (["dns"; "http"; "icmp"; "tcp"], false)%string.
Proof. vm_compute. tauto. Qed.
End EchoSample.
