(* ===== verification/Destination.v ===== *)
(** * Where a probe may go (internal/prober/destination.go, prober.go)

    Resolving a target once, judging every address, and dialing only the
    judged ones; the tcp and http checks over them. What the host, the
    resolver and net/http answer are arguments. *)
From S2P Require Import Prelude GoStrings.
From Stdlib Require Import Ascii.

Local Open Scope Z_scope.

(** The address type and the library functions the prober calls. *)
Class NetLib := {
  Addr : Type;
  Addr_eq :: EqDecision Addr;
  ParseAddr : string -> option Addr;
  Unmap : Addr -> Addr;
  Is4 : Addr -> bool;
  addr_text : Addr -> string;
  MonitorDestinationRefused : Addr -> bool;
  ToASCII : string -> option string;
  Quote : string -> string;
  LookupPort : string -> option Z;
  redactURL : string -> string
}.

(** net.SplitHostPort and net.JoinHostPort. *)
Definition SplitHostPort (s : string) : option (string * string) :=
  match last_index_of s ":" with
  | None => None
  | Some i =>
      let port := str_drop (S i) s in
      if has_prefix s "[" then
        match index_of s "]" with
        | Some e =>
            if (S e =? i)%nat && negb (contains (str_drop 1 s) "[") && negb (contains (str_drop (S e) s) "]")
            then Some (str_take (e - 1) (str_drop 1 s), port) else None
        | None => None
        end
      else
        let host := str_take i s in
        if contains host ":" || contains s "[" || contains s "]" then None else Some (host, port)
  end.
Definition JoinHostPort (host port : string) : string :=
  if contains host ":" then "[" +:+ host +:+ "]:" +:+ port else host +:+ ":" +:+ port.

Module Destination.

(** An error that carries a refused destination, or another. *)
Inductive err := destinationError (msg : string) | Plain (msg : string).
Definition err_text (e : err) : string := match e with destinationError m | Plain m => m end.

Definition minDialSlice : duration := 2 * second.

Section Net.
Context `{NetLib}.

(** ** Resolving *)
Definition asciiHost (host : string) : string + string :=
  if str_exists (fun c => 128 <=? byte_val c) host then
    match ToASCII host with
    | Some ascii => inr ascii
    | None => inl ("target host " +:+ Quote host +:+ " is not a valid name")%string
    end
  else inr host.

Definition judge (literal : bool) (host : string) (nodeTarget : bool) (addrs : list Addr) : err + list Addr :=
  if nodeTarget then inr addrs
  else
    match List.find MonitorDestinationRefused addrs with
    | Some addr =>
        inl (destinationError
          (if literal then "destination refused: " +:+ addr_text addr +:+ " is not a public address"
           else "destination refused: " +:+ host +:+ " resolves to " +:+ addr_text addr +:+ ", which is not a public address")%string)
    | None => inr addrs
    end.

(** The names looked up, and the addresses the run may use. *)
Definition resolveTarget (LookupNetIP : string -> string + list Addr) (host : string) (nodeTarget : bool) : list string * (err + list Addr) :=
  let host := trim_suffix (trim_prefix host "[") "]" in
  match ParseAddr host with
  | Some addr => ([], judge true host nodeTarget [Unmap addr])
  | None =>
      match asciiHost host with
      | inl e => ([], inl (Plain e))
      | inr name =>
          ([name],
           match LookupNetIP name with
           | inl e => inl (Plain e)
           | inr [] => inl (Plain ("lookup " +:+ host +:+ ": no addresses")%string)
           | inr found => judge false host nodeTarget (map Unmap found)
           end)
      end
  end.

(** ** Dialing *)

(** What dialing one address meets: the clock where addrContext reads it, the
    dial's error, if any, and whether the run's context has ended by then. *)
Record try := mkTry { clock1 : time; clock2 : time; clock3 : time; dialErr : option string; ctxOver : bool }.
Record dial := mkDial { d_network : string; d_address : string; d_deadline : option time }.

(** The deadline one address of [left] gets. *)
Definition addrContext (deadline : option time) (left : Z) (t : try) : option time :=
  if 1 <? left then
    match deadline with
    | Some d =>
        let slice := Z.quot (time_sub d (clock1 t)) left in
        let slice := if slice <? minDialSlice then Z.min minDialSlice (time_sub d (clock2 t)) else slice in
        Some (Z.min d (time_add (clock3 t) slice))
    | None => None
    end
  else deadline.

Fixpoint dial_next (network port : string) (deadline : option time) (tries : nat -> try) (addrs : list Addr) (firstErr : option string) : list dial * (string + Addr) :=
  match addrs with
  | [] => ([], inl (default "" firstErr))
  | addr :: rest =>
      let t := tries (length addrs) in
      let d := mkDial network (JoinHostPort (addr_text addr) port) (addrContext deadline (zlen addrs) t) in
      match dialErr t with
      | None => ([d], inr addr)
      | Some e =>
          let firstErr := match firstErr with None => Some e | some => some end in
          if ctxOver t then ([d], inl (default "" firstErr))
          else let (ds, r) := dial_next network port deadline tries rest firstErr in (d :: ds, r)
      end
  end.
Definition dialJudged (network : string) (addrs : list Addr) (port : string) (deadline : option time) (tries : nat -> try) : list dial * (string + Addr) :=
  match addrs with
  | [] => ([], inl "no address to dial"%string)
  | _ => dial_next network port deadline tries addrs None
  end.

(** ** The tcp check *)
Definition split_target (target : string) : string + string * string :=
  match SplitHostPort target with
  | None => inl ("target " +:+ Quote target +:+ " is not host:port")%string
  | Some (host, port) =>
      if String.eqb host "" then inl ("target " +:+ Quote target +:+ " has no host")%string
      else
        match parse_uint 16 port with
        | Some _ => inr (host, port)
        | None =>
            match LookupPort port with
            | None => inl ("target " +:+ Quote target +:+ " has no usable port")%string
            | Some n => inr (host, itoa n)
            end
        end
  end.

(** What a run does on the network. *)
Inductive effect := Looked (name : string) | Dialed (d : dial) | Requested (header : list (string * string)) | Echoed (addr : Addr).

Definition probeTCP (LookupNetIP : string -> string + list Addr) (Target : string) (nodeTarget : bool) (deadline : time) (tries : nat -> try) : list effect * option err :=
  match split_target Target with
  | inl e => ([], Some (Plain e))
  | inr (host, port) =>
      let (names, r) := resolveTarget LookupNetIP host nodeTarget in
      match r with
      | inl e => (map Looked names, Some e)
      | inr addrs =>
          let (ds, r) := dialJudged "tcp" addrs port (Some deadline) tries in
          (map Looked names ++ map Dialed ds, match r with inl e => Some (Plain e) | inr _ => None end)
      end
  end.

(** ** The http check *)

(** The parts of a URL and of a monitor the check reads. *)
Record url := mkUrl { Scheme : string; Hostname : string }.
Record secret_rules := mkSecrets { MonitorHasSecrets : bool; MonitorOrigin : option string; SecretsOrigin : string }.
Record http_check := mkHttp {
  h_url : option url;
  h_expect : string + (Z -> bool);
  h_secrets : secret_rules;
  h_headers : list (string * string);
  h_validate : string -> string -> option string;
  h_canonical : string -> string;
  h_newRequest : bool
}.

(** Headers in the order they are set; a later value of a name replaces. *)
Fixpoint set_header (name value : string) (header : list (string * string)) : list (string * string) :=
  match header with
  | [] => [(name, value)]
  | (n, v) :: l => if String.eqb n name then (n, value) :: l else (n, v) :: set_header name value l
  end.
Fixpoint add_headers (m : http_check) (l header : list (string * string)) : string + list (string * string) :=
  match l with
  | [] => inr header
  | (n, v) :: l =>
      let name := h_canonical m n in
      match h_validate m name v with
      | Some e => inl ("header " +:+ name +:+ " cannot be sent: " +:+ e)%string
      | None => add_headers m l (set_header name v header)
      end
  end.
Definition requestHeader (m : http_check) (scheme : string) : err + list (string * string) :=
  let s := h_secrets m in
  let refused :=
    match MonitorOrigin s with
    | None => true
    | Some origin => negb (String.eqb scheme "https") || String.eqb (SecretsOrigin s) "" || negb (String.eqb origin (SecretsOrigin s))
    end in
  if MonitorHasSecrets s && refused then
    inl (destinationError "destination refused: secret headers go only over https to the origin they were saved for; nothing was sent")
  else
    match add_headers m (h_headers m) [] with
    | inl e => inl (Plain e)
    | inr header => inr header
    end.

(** strings.EqualFold of a text and an ASCII one: the long s and the Kelvin
    sign are the two letters outside ASCII that fold into it. *)
Definition rune_17F : string := Eval vm_compute in bytes_str [197; 191].
Fixpoint ascii_fold_fuel (fuel : nat) (s : string) : string :=
  match fuel, s with
  | S fuel, String c t =>
      match cut_prefix s rune_17F, cut_prefix s rune_212A with
      | Some t, _ => String "s" (ascii_fold_fuel fuel t)
      | _, Some t => String "k" (ascii_fold_fuel fuel t)
      | _, _ => String (lower_byte c) (ascii_fold_fuel fuel t)
      end
  | _, _ => ""
  end.
Definition EqualFold (s ascii : string) : bool := String.eqb (ascii_fold_fuel (String.length s) s) (to_lower ascii).

(** A dial net/http asks of the transport. *)
Record asked := mkAsked { a_address : string; a_deadline : option time; a_tries : nat -> try }.
Definition transport_dial (host : string) (addrs : list Addr) (a : asked) : list dial * (err + Addr) :=
  match SplitHostPort (a_address a) with
  | None => ([], inl (Plain "address"))
  | Some (dialHost, port) =>
      if negb (EqualFold dialHost host) then
        ([], inl (destinationError ("destination refused: a request left for " +:+ dialHost +:+ ", not the target")%string))
      else
        let (ds, r) := dialJudged "tcp" addrs port (a_deadline a) (a_tries a) in
        (ds, match r with inl e => inl (Plain e) | inr addr => inr addr end)
  end.

(** client.Do: the dials it asks for, and the end of the request: a response,
    or an error, which carries a refusal when a dial gave one, as a url.Error
    around it or not. *)
Inductive http_error := Refusing (msg : string) | UrlError (Op URL inner : string) | OtherError (text : string).
Definition client_Do (host : string) (addrs : list Addr) (l : list asked) : list dial :=
  flat_map (fun a => fst (transport_dial host addrs a)) l.

(** ** Error texts without the secrets *)
Definition minScrubLen : nat := 4.

(** strings.ReplaceAll of a text that is not empty. *)
Fixpoint replace_fuel (fuel : nat) (s old new : string) : string :=
  match fuel, index_of s old with
  | S fuel, Some i => str_take i s +:+ new +:+ replace_fuel fuel (str_drop (i + String.length old) s) old new
  | _, _ => s
  end.
Definition ReplaceAll (s old new : string) : string := replace_fuel (String.length s) s old new.
Definition scrub (text secret : string) : string :=
  if (minScrubLen <=? String.length secret)%nat then ReplaceAll text secret "[redacted]" else text.

(** The target's user info, with its text, name and password, and its query
    with what it unescapes to. *)
Record target_url := mkTarget { t_user : option (string * string * option string); t_query : string; t_unescaped : option string }.
Definition url_secrets (u : target_url) : list string :=
  (match t_user u with
   | Some (text, name, pw) => [text; name] ++ match pw with Some p => [p] | None => [] end
   | None => []
   end ++
   if String.eqb (t_query u) "" then []
   else [("?" +:+ t_query u)%string; t_query u] ++ match t_unescaped u with Some q => [q] | None => [] end)%list.
Definition scrubText (u : option target_url) (headers : list (string * string)) (text : string) : string :=
  foldl scrub text ((match u with Some u => url_secrets u | None => [] end) ++ map snd headers).
Definition redactHTTPError (u : option target_url) (headers : list (string * string)) (e : http_error) : string :=
  scrubText u headers
    match e with
    | UrlError op raw inner => op +:+ " " +:+ Quote (redactURL raw) +:+ ": " +:+ inner
    | Refusing t | OtherError t => t
    end.

Definition probeHTTP (LookupNetIP : string -> string + list Addr) (status_text : Z -> string) (target : option target_url)
    (m : http_check) (dials : list asked) (end_ : http_error + Z) : list effect * option err :=
  match h_url m with
  | None => ([], Some (Plain "target is not a valid URL"))
  | Some u =>
      let scheme := to_lower (Scheme u) in
      if negb (String.eqb scheme "http" || String.eqb scheme "https") || String.eqb (Hostname u) "" then
        ([], Some (Plain "target must be an http or https URL with a host"))
      else
        match h_expect m with
        | inl e => ([], Some (Plain ("expect_status: " +:+ e)%string))
        | inr expect =>
            match requestHeader m scheme with
            | inl e => ([], Some e)
            | inr header =>
                match asciiHost (Hostname u) with
                | inl e => ([], Some (Plain e))
                | inr host =>
                    let (names, r) := resolveTarget LookupNetIP host false in
                    match r with
                    | inl e => (map Looked names, Some e)
                    | inr addrs =>
                        if negb (h_newRequest m) then (map Looked names, Some (Plain "target is not a valid request URL"))
                        else
                          (map Looked names ++ map Dialed (client_Do host addrs dials) ++ [Requested header],
                           match end_ with
                           | inr code => if expect code then None else Some (Plain (status_text code))
                           | inl (Refusing msg) => Some (destinationError msg)
                           | inl e => Some (Plain (redactHTTPError target (h_headers m) e))
                           end)
                    end
                end
            end
        end
  end.

(** ** The target of an icmp check *)
Definition icmpTarget (LookupNetIP : string -> string + list Addr) (Target : string) (nodeTarget : bool) : list string * (err + Addr) :=
  let host := match SplitHostPort Target with Some (h, _) => h | None => Target end in
  if String.eqb host "" then ([], inl (Plain "icmp target has no address"))
  else
    let (names, r) := resolveTarget LookupNetIP host nodeTarget in
    (names,
     match r with
     | inl e => inl e
     | inr addrs =>
         match List.find Is4 addrs with
         | Some addr => inr addr
         | None => inl (Plain ("icmp target " +:+ host +:+ " has no IPv4 address")%string)
         end
     end).
End Net.
End Destination.
