(* ===== verification/DnsProbe.v ===== *)
(** * The dns check (internal/prober/dns.go)

    The question, the four ways to ask it, the reading of an answer and the
    verdict. The message codec, TLS, net/http and the SDK's rules are
    arguments. *)
From S2P Require Import Prelude GoStrings GoUtf8 Icmp Destination.
From Stdlib Require Import Ascii SpecFloat.

Local Open Scope Z_scope.

(** A decoded message as the parser hands it over, section by section. *)
Record dns_header := mkHeader { Response : bool; ID : Z; Truncated : bool; RCode : Z }.
Record dns_answer := mkRecord { an_type : Z; an_class : Z; an_skip : option string;
  an_addr : string + string; an_name : string + string; an_txt : string + list string }.
Record dns_additional := mkAdditional { ad_type : Z; ExtendedRCode : Z -> Z; ad_skipped : bool }.
Record dns_message := mkMessage { m_header : dns_header; m_questions : list (string * Z * Z); m_q_err : option string;
  m_answers : list dns_answer; m_a_err : option string; m_authorities : bool; m_additionals : list dns_additional }.

(** What an error is besides its text. *)
Inductive error_class := IsCanceled | IsTimeout | IsNeither.

Class DnsLib := {
  NormalizeDNSName : string -> string + string;
  NormalizeDNSType : string -> string + string;
  NormalizeDNSExpectRcode : string -> string + string;
  CanonicalDNSValue : string -> string -> string + string;
  MonitorDNSExpectMax : Z;
  MonitorDNSAnswersMax : nat;
  MonitorDNSValueMax : nat;
  MonitorDNSResponseMax : nat;
  DNSTypeA : string; DNSTypeAAAA : string; DNSTypeCNAME : string; DNSTypeTXT : string; DNSTypeMX : string; DNSTypeNS : string;
  DNSFailureTransport : string; DNSFailureRcode : string; DNSFailureNoAnswer : string; DNSFailureMismatch : string;
  DNSRcodeNoError : string; DNSRcodeNXDomain : string;
  ToLower : string -> string;
  error_kind : string -> error_class;
  dns_parse : string -> string + dns_message
}.

Module DnsProbe.
Import Destination.

Definition dnsUDPPayload : Z := 1232.
Definition dnsMediaType : string := "application/dns-message".
Definition dnsQuotedMax : nat := 64.
Definition dnsDetailMax : nat := 160.
Definition dnsErrorMax : nat := 512.
Definition dnsCertNamesShown : nat := 3.
Definition TypeA : Z := 1.
Definition TypeNS : Z := 2.
Definition TypeCNAME : Z := 5.
Definition TypeMX : Z := 15.
Definition TypeTXT : Z := 16.
Definition TypeAAAA : Z := 28.
Definition TypeOPT : Z := 41.
Definition ClassINET : Z := 1.

(** ** Failures *)
Inductive failure := dnsFailure (code msg : string) | Refused (msg : string) | Other (text : string).

Section Dns.
Context `{NetLib, DnsLib}.

Definition be16 (s : string) : Z :=
  match s with String a (String b _) => 256 * byte_val a + byte_val b | _ => 0 end.
Definition be16_bytes (n : Z) : string := bytes_str [n / 256; n mod 256].

Record dnsQuestion := mkQuestion { name : string; typ : string; qtype : Z; rcode : string; expect : list string }.

Definition dnsQTypes (typ : string) : Z :=
  if String.eqb typ DNSTypeA then TypeA else if String.eqb typ DNSTypeAAAA then TypeAAAA
  else if String.eqb typ DNSTypeCNAME then TypeCNAME else if String.eqb typ DNSTypeTXT then TypeTXT
  else if String.eqb typ DNSTypeMX then TypeMX else if String.eqb typ DNSTypeNS then TypeNS else 0.

Record dns_check := mkDns { DNSName : string; DNSType : string; DNSExpectRcode : string; DNSExpect : list string }.
Fixpoint canonical_values (typ : string) (l : list string) : string + list string :=
  match l with
  | [] => inr []
  | raw :: l =>
      match CanonicalDNSValue typ raw with
      | inl e => inl ("dns_expect: " +:+ e)%string
      | inr v => match canonical_values typ l with inl e => inl e | inr vs => inr (v :: vs) end
      end
  end.
Definition dnsQuestionOf (m : dns_check) : string + dnsQuestion :=
  match NormalizeDNSName (DNSName m) with
  | inl e => inl ("dns_name: " +:+ e)%string
  | inr name =>
      match NormalizeDNSType (DNSType m) with
      | inl e => inl e
      | inr typ =>
          match NormalizeDNSExpectRcode (DNSExpectRcode m) with
          | inl e => inl e
          | inr rcode =>
              if MonitorDNSExpectMax <? zlen (DNSExpect m) then
                inl ("dns_expect has " +:+ itoa (zlen (DNSExpect m)) +:+ " values; at most " +:+ itoa MonitorDNSExpectMax)%string
              else
                match canonical_values typ (DNSExpect m) with
                | inl e => inl e
                | inr vs => inr (mkQuestion name typ (dnsQTypes typ) rcode vs)
                end
          end
      end
  end.

Definition failure_text (f : failure) : string :=
  match f with dnsFailure code msg => code +:+ ": " +:+ msg | Refused t | Other t => t end.
Definition dnsTransportError (f : failure) : failure :=
  match f with
  | dnsFailure _ _ => f
  | Refused t | Other t =>
      match error_kind t with
      | IsCanceled => dnsFailure DNSFailureTransport "the run was cancelled before an answer"
      | IsTimeout => dnsFailure DNSFailureTransport "no answer before the check's timeout"
      | IsNeither => dnsFailure DNSFailureTransport (cutUTF8 t dnsDetailMax)
      end
  end.

Inductive tls_error := HostnameError (host : string) (names : list string) | UnknownAuthority | OtherTls (text : string).
Definition dnsCertNames (names : list string) : string :=
  match names with
  | [] => "no DNS names"
  | _ =>
      let shown := map (fun n => cutUTF8 n dnsQuotedMax) (take dnsCertNamesShown names) in
      let more := zlen names - zlen shown in
      String.concat ", " shown +:+ (if (0 <? more)%Z then " and " +:+ itoa more +:+ " more" else "")
  end%string.
Definition dnsTLSFailure (e : tls_error) : failure :=
  let msg :=
    match e with
    | HostnameError host names => "the certificate does not cover " +:+ host +:+ " (it names " +:+ dnsCertNames names +:+ ")"
    | UnknownAuthority => "the certificate is signed by an unknown authority"
    | OtherTls text => cutUTF8 (trim_prefix text "tls: ") dnsDetailMax
    end%string in
  dnsFailure DNSFailureTransport ("tls: " +:+ msg)%string.

(** ** Reading an answer *)
Record dnsAnswer := mkAnswer { a_rcode : string; values : list string; truncated : bool }.

Definition dnsName (n : string) : string := ToLower (trim_suffix n ".").
Definition dnsRcodeName (code : Z) : string :=
  match code with
  | 0 => DNSRcodeNoError | 1 => "FORMERR" | 2 => "SERVFAIL" | 3 => DNSRcodeNXDomain
  | 4 => "NOTIMP" | 5 => "REFUSED" | 6 => "YXDOMAIN" | 7 => "YXRRSET" | 8 => "NXRRSET"
  | 9 => "NOTAUTH" | 10 => "NOTZONE" | 16 => "BADVERS" | 23 => "BADCOOKIE"
  | _ => "RCODE" +:+ itoa code
  end%string.
Definition dnsValue (t : Z) (r : dns_answer) : string + string :=
  if (t =? TypeA) || (t =? TypeAAAA) then an_addr r
  else if (t =? TypeCNAME) || (t =? TypeNS) || (t =? TypeMX) then match an_name r with inl e => inl e | inr n => inr (dnsName n) end
  else if t =? TypeTXT then match an_txt r with inl e => inl e | inr l => inr (concat_str l) end
  else inl ("type " +:+ itoa t +:+ " is not asked")%string.

Definition asks_question (q : dnsQuestion) (x : string * Z * Z) : bool :=
  String.eqb (dnsName x.1.1) (name q) && (x.1.2 =? qtype q) && (x.2 =? ClassINET).
Fixpoint read_answers (q : dnsQuestion) (l : list dns_answer) : string + list string :=
  match l with
  | [] => inr []
  | r :: l =>
      if negb (an_type r =? qtype q) || negb (an_class r =? ClassINET) then
        match an_skip r with Some e => inl e | None => read_answers q l end
      else
        match dnsValue (qtype q) r with
        | inl e => inl e
        | inr v => match read_answers q l with inl e => inl e | inr vs => inr (v :: vs) end
        end
  end.
Fixpoint extended (h : Z) (code : Z) (l : list dns_additional) : Z :=
  match l with
  | [] => code
  | r :: l =>
      let code := if ad_type r =? TypeOPT then ExtendedRCode r h else code in
      if ad_skipped r then extended h code l else code
  end.
Definition notOurs : failure := dnsFailure DNSFailureTransport "the response does not answer the query".
Definition malformed (e : string) : failure := dnsFailure DNSFailureTransport ("the response is malformed: " +:+ e)%string.
(** The questions in turn, then the error that ended them, if it was not the
    end of the section. *)
Definition dnsDecode (raw : string) (id : Z) (checkID : bool) (q : dnsQuestion) : failure + dnsAnswer :=
  match dns_parse raw with
  | inl e => inl (dnsFailure DNSFailureTransport ("the response is not a DNS message: " +:+ e)%string)
  | inr m =>
      let h := m_header m in
      if negb (Response h) || (checkID && negb (ID h =? id)) then inl notOurs
      else if Truncated h then inr (mkAnswer "" [] true)
      else if negb (forallb (asks_question q) (m_questions m)) then inl notOurs
      else
        match m_q_err m with
        | Some e => inl (malformed e)
        | None =>
            match read_answers q (m_answers m) with
            | inl e => inl (malformed e)
            | inr vs =>
                match m_a_err m with
                | Some e => inl (malformed e)
                | None =>
                    let code := if m_authorities m then extended (RCode h) (RCode h) (m_additionals m) else RCode h in
                    inr (mkAnswer (dnsRcodeName code) vs false)
                end
            end
        end
  end.

(** ** The verdict *)
Definition judge (q : dnsQuestion) (a : dnsAnswer) : option failure :=
  if String.eqb (rcode q) DNSRcodeNXDomain then
    if negb (String.eqb (a_rcode a) DNSRcodeNXDomain) then
      Some (dnsFailure DNSFailureRcode (name q +:+ " answered " +:+ a_rcode a +:+ "; the check expects NXDOMAIN")%string)
    else None
  else if negb (String.eqb (a_rcode a) DNSRcodeNoError) then
    Some (dnsFailure DNSFailureRcode (name q +:+ " answered " +:+ a_rcode a)%string)
  else
    match values a with
    | [] => Some (dnsFailure DNSFailureNoAnswer ("no " +:+ typ q +:+ " answer for " +:+ name q)%string)
    | _ =>
        let missing := filter (fun want => want ∉ values a) (expect q) in
        match missing with
        | [] => None
        | _ => Some (dnsFailure DNSFailureMismatch ("the " +:+ typ q +:+ " answer for " +:+ name q +:+ " lacks " +:+ String.concat ", " missing)%string)
        end
    end.
Definition dnsReported (values : list string) : list string :=
  map (fun v => cutUTF8 v MonitorDNSValueMax) (take MonitorDNSAnswersMax values).

(** ** Asking *)

(** A stream connection: its dial, a write error, the bytes it brings and the
    error they end with. *)
Record stream := mkStream { s_tries : nat -> try; s_write : option string; s_bytes : string; s_end : string }.
Definition dnsFrame (query : string) : string := be16_bytes (Z.of_nat (String.length query) mod 65536) +:+ query.
Definition dnsStreamExchange (c : stream) : failure + string :=
  match s_write c with
  | Some e => inl (Other e)
  | None =>
      if (String.length (s_bytes c) <? 2)%nat then inl (Other (s_end c))
      else
        let n := Z.to_nat (be16 (s_bytes c)) in
        let rest := str_drop 2 (s_bytes c) in
        if (String.length rest <? n)%nat then inl (Other (s_end c)) else inr (str_take n rest)
  end.
Definition exchangeTCP (addrs : list Addr) (port : string) (deadline : option time) (c : stream) : list dial * (failure + string) :=
  let (ds, r) := dialJudged "tcp" addrs port deadline (s_tries c) in
  (ds, match r with inl e => inl (Other e) | inr _ => dnsStreamExchange c end).

(** A handshake ends with the chain's expiry times, by a timeout or the end of
    the run, or with a failure. *)
Inductive handshake := Shaken (chain : list time) | TimedOut (text : string) | HandshakeFailed (e : tls_error).
Definition recordCert (chain : list time) (cert : option time) : option time := match chain with t :: _ => Some t | [] => cert end.
Definition exchangeDoT (addrs : list Addr) (port : string) (deadline : option time) (c : stream) (h : handshake) (cert : option time) :
    list dial * (failure + string) * option time :=
  let (ds, r) := dialJudged "tcp" addrs port deadline (s_tries c) in
  match r with
  | inl e => (ds, inl (Other e), cert)
  | inr _ =>
      match h with
      | TimedOut e => (ds, inl (Other e), cert)
      | HandshakeFailed e => (ds, inl (dnsTLSFailure e), cert)
      | Shaken chain => (ds, dnsStreamExchange c, recordCert chain cert)
      end
  end.

Record datagrams := mkDatagrams { u_try : try; u_dial : option string; u_write : option string; u_got : list string; u_end : string }.
(** The first datagram that echoes the ID. *)
Fixpoint first_matching (id : Z) (l : list string) : option string :=
  match l with
  | [] => None
  | d :: l => let d := str_take MonitorDNSResponseMax d in
              if (2 <=? String.length d)%nat && (be16 d =? id) then Some d else first_matching id l
  end.
Definition askUDP (addr : Addr) (port : string) (deadline : option time) (id : Z) (u : datagrams) : list dial * (failure + string) :=
  let (ds, r) := dialJudged "udp" [addr] port deadline (fun _ => mkTry 0 0 0 (u_dial u) false) in
  (ds,
   match r with
   | inl e => inl (Other e)
   | inr _ =>
       match u_write u with
       | Some e => inl (Other e)
       | None => match first_matching id (u_got u) with Some raw => inr raw | None => inl (Other (u_end u)) end
       end
   end).
Fixpoint exchangeUDP (port : string) (deadline : option time) (id : Z) (us : nat -> datagrams) (addrs : list Addr) (firstErr : option failure) :
    list dial * (failure + string * Addr) :=
  match addrs with
  | [] => ([], inl (default (Other "") firstErr))
  | addr :: rest =>
      let u := us (length addrs) in
      let (ds, r) := askUDP addr port (addrContext deadline (zlen addrs) (u_try u)) id u in
      match r with
      | inr raw => (ds, inr (raw, addr))
      | inl e =>
          let firstErr := match firstErr with None => Some e | some => some end in
          if ctxOver (u_try u) then (ds, inl (default (Other "") firstErr))
          else let (ds', r) := exchangeUDP port deadline id us rest firstErr in (ds ++ ds', r)
      end
  end.

(** The http exchange of DoH: the dials net/http asks_question for, and its end. *)
Record doh_response := mkDoh { StatusCode : Z; h_chain : option (list time); ContentType : string; media : string;
  ContentLength : Z; Body : string; body_err : option string }.
Inductive doh_end := DohRefused (msg : string) | DohCert (e : tls_error) | DohError (text : string) | DohResponse (r : doh_response).
Definition read_doh (r : doh_response) : failure + string :=
  let fail := fun msg => inl (dnsFailure DNSFailureTransport msg) in
  if negb (StatusCode r =? 200) then fail ("http status " +:+ itoa (StatusCode r))%string
  else if negb (String.eqb (media r) dnsMediaType) then
    fail ("http 200 with " +:+
      (if negb (String.eqb (media r) "") then "content type " +:+ Quote (cutUTF8 (media r) dnsQuotedMax)
       else if negb (String.eqb (ContentType r) "") then "a content type that does not parse" else "no content type") +:+
      ", not " +:+ dnsMediaType)%string
  else
    let max := Z.of_nat MonitorDNSResponseMax in
    let tooLarge := ("the response is over " +:+ itoa (Z.shiftr max 10) +:+ " KiB")%string in
    if max <? ContentLength r then fail tooLarge
    else
      let body := str_take (S MonitorDNSResponseMax) (Body r) in
      match body_err r with
      | Some e => if (String.length body <=? MonitorDNSResponseMax)%nat then inl (Other e) else fail tooLarge
      | None => if (MonitorDNSResponseMax <? String.length body)%nat then fail tooLarge else inr body
      end.
Definition exchangeDoH (host : string) (addrs : list Addr) (dials : list asked) (e : doh_end) (cert : option time) :
    list dial * (failure + string) * option time :=
  let ds := client_Do host addrs dials in
  match e with
  | DohRefused msg => (ds, inl (Refused msg), cert)
  | DohCert e => (ds, inl (dnsTLSFailure e), cert)
  | DohError text => (ds, inl (Other text), cert)
  | DohResponse r => (ds, read_doh r, match h_chain r with Some chain => recordCert chain cert | None => cert end)
  end.

(** ** A run *)
Inductive transport := DoH | DoT | TCP | UDP.
Record DNSResolver := mkResolver { Transport : transport; Host : string; Port : Z }.
Record env := mkEnv {
  e_lookup : string -> string + list Addr;
  e_rand : string + Z;
  e_pack : dnsQuestion -> Z -> string + string;
  e_deadline : time;
  e_dials : list asked;
  e_doh : doh_end;
  e_stream : stream;
  e_handshake : handshake;
  e_udp : nat -> datagrams;
  e_retry : stream;
  e_elapsed : duration;
  e_canceled : bool
}.
Record dns_result := mkResult { r_rcode : string; r_answers : list string; r_latency : spec_float; r_error : string;
  r_refused : bool; r_success : bool; CertNotAfter : option time }.
Definition failed (text : string) : dns_result := mkResult "" [] (f64_of 0) text false false None.

(** The query's ID, 0 over DoH, and whether the answer must echo it. *)
Definition query_id (w : env) (r : DNSResolver) : string + Z :=
  match Transport r with DoH => inr 0 | _ => e_rand w end.
Definition checkID (r : DNSResolver) : bool := match Transport r with DoH => false | _ => true end.

(** The exchange with the decoded answer, the retry over TCP after a truncated
    UDP answer included. *)
Definition exchange (w : env) (r : DNSResolver) (addrs : list Addr) (q : dnsQuestion) (id : Z) : list dial * (failure + string) * option Addr * option time :=
  let deadline := Some (e_deadline w) in
  match Transport r with
  | DoH => let '(ds, raw, cert) := exchangeDoH (Host r) addrs (e_dials w) (e_doh w) None in (ds, raw, None, cert)
  | DoT => let '(ds, raw, cert) := exchangeDoT addrs (itoa (Port r)) deadline (e_stream w) (e_handshake w) None in (ds, raw, None, cert)
  | TCP => let (ds, raw) := exchangeTCP addrs (itoa (Port r)) deadline (e_stream w) in (ds, raw, None, None)
  | UDP =>
      let (ds, res) := exchangeUDP (itoa (Port r)) deadline id (e_udp w) addrs None in
      match res with inl e => (ds, inl e, None, None) | inr (raw, addr) => (ds, inr raw, Some addr, None) end
  end.
Definition decode_of (r : DNSResolver) (q : dnsQuestion) (id : Z) (raw : failure + string) : failure + dnsAnswer :=
  match raw with inl e => inl e | inr raw => dnsDecode raw id (checkID r) q end.
Definition ask (w : env) (r : DNSResolver) (addrs : list Addr) (q : dnsQuestion) (id : Z) : list dial * (failure + dnsAnswer) * option time :=
  let '(ds, raw, answeredBy, cert) := exchange w r addrs q id in
  let answer := decode_of r q id raw in
  let '(ds, answer) :=
    match answer, answeredBy with
    | inr a, Some addr =>
        if truncated a then
          let (ds', raw) := exchangeTCP [addr] (itoa (Port r)) (Some (e_deadline w)) (e_retry w) in (ds ++ ds', decode_of r q id raw)
        else (ds, answer)
    | _, _ => (ds, answer)
    end in
  (ds, match answer with
       | inr a => if truncated a then inl (dnsFailure DNSFailureTransport "the response is truncated") else inr a
       | inl e => inl e
       end, cert).

Definition dns_verdict (w : env) (q : dnsQuestion) (answer : failure + dnsAnswer) (cert : option time) : dns_result :=
  let latency := Icmp.elapsedMs (e_elapsed w) in
  match answer with
  | inl (Refused msg) => mkResult "" [] (f64_of 0) msg true false cert
  | inl e => mkResult "" [] latency (failure_text
      (if e_canceled w then dnsFailure DNSFailureTransport "the run was cancelled before an answer" else dnsTransportError e)) false false cert
  | inr a =>
      match judge q a with
      | Some f => mkResult (a_rcode a) (dnsReported (values a)) latency (failure_text f) false false cert
      | None => mkResult (a_rcode a) (dnsReported (values a)) latency "" false true cert
      end
  end.
Definition probe_dns (w : env) (target : string + DNSResolver) (m : dns_check) : list effect * dns_result :=
  match target with
  | inl e => ([], failed e)
  | inr r =>
      match dnsQuestionOf m with
      | inl e => ([], failed e)
      | inr q =>
          let (names, addrs) := resolveTarget (e_lookup w) (Host r) false in
          match addrs with
          | inl (destinationError msg) => (map Looked names, mkResult "" [] (f64_of 0) msg true false None)
          | inl (Plain e) => (map Looked names, failed (failure_text (dnsTransportError (Other e))))
          | inr addrs =>
              match query_id w r with
              | inl e => (map Looked names, failed e)
              | inr id =>
                  match e_pack w q id with
                  | inl e => (map Looked names, failed e)
                  | inr _ =>
                      let '(ds, answer, cert) := ask w r addrs q id in
                      (map Looked names ++ map Dialed ds, dns_verdict w q answer cert)
                  end
              end
          end
      end
  end.
Definition cut_error (res : dns_result) : dns_result :=
  mkResult (r_rcode res) (r_answers res) (r_latency res) (cutUTF8 (r_error res) dnsErrorMax) (r_refused res) (r_success res) (CertNotAfter res).
Definition probeDNS (w : env) (target : string + DNSResolver) (m : dns_check) : list effect * dns_result :=
  let (effects, res) := probe_dns w target m in (effects, cut_error res).
End Dns.
End DnsProbe.
