(* ===== verification/Probe.v ===== *)
(** * One probe, of whatever kind (internal/prober/prober.go, icmp.go)

    The dispatch on a monitor's kind, the icmp run around its echoes and the
    time a run is given. *)
From S2P Require Import Prelude GoStrings Icmp Destination DnsProbe.
From Stdlib Require Import Ascii SpecFloat.

Local Open Scope Z_scope.

Module Probe.
Import Destination.

Section Probe.
Context `{NetLib, DnsLib}.
(** model.MonitorPackets of a monitor is part of the check; the bound and the
    spacing are the SDK's. *)
Context (MonitorPacketsMax : Z) (MonitorPacketSpacing : duration).

Definition defaultTimeout : duration := 5 * second.
Definition monitorTimeout (TimeoutSec : Z) : duration := if TimeoutSec <=? 0 then defaultTimeout else TimeoutSec * second.
Definition icmpPackets (MonitorPackets : Z) : Z := Z.min MonitorPackets MonitorPacketsMax.

Inductive kind := TCP | HTTP | ICMP | DNS | Unknown.
Definition RunBudget (k : kind) (TimeoutSec MonitorPackets : Z) : duration :=
  let budget := monitorTimeout TimeoutSec in
  match k with
  | ICMP => budget + (icmpPackets MonitorPackets - 1) * MonitorPacketSpacing
  | _ => budget
  end.

Inductive reason := DestinationRefused | ICMPNotPermitted | AgentTooOld.
Record monitor_result := mkResult { Reason : option reason; Success : bool; Error : string; LatencyMs : spec_float;
  Echoes : option Icmp.result; Dns : option DnsProbe.dns_result }.
Definition failed (r : option reason) (text : string) (latency : spec_float) : monitor_result := mkResult r false text latency None None.

(** What opening the echo socket answers. *)
Inductive socket := Opened | RefusedByKernel | OpenError (text : string).
Record icmp_env := mkIcmp { i_lookup : string -> string + list Addr; i_socket : socket; i_random : string + (nat -> string);
  i_start : time; i_turns : list (@Icmp.turn Addr); i_parse : string -> option string }.

Definition icmpRunTimeout (MonitorPackets : Z) (timeout : duration) : duration :=
  (icmpPackets MonitorPackets - 1) * MonitorPacketSpacing + timeout + second.
(** The turns end the run, or it has not ended yet. *)
Definition probeICMP (now : time) (w : icmp_env) (Target : string) (nodeTarget : bool) (MonitorPackets : Z) (timeout : duration) (caps : Icmp.capabilities) :
    list effect * Icmp.capabilities * option monitor_result :=
  let (names, target) := icmpTarget (i_lookup w) Target nodeTarget in
  let looked := map Looked names in
  match target with
  | inl (destinationError msg) => (looked, caps, Some (failed (Some DestinationRefused) msg (f64_of 0)))
  | inl (Plain e) => (looked, caps, Some (failed None e (f64_of 0)))
  | inr addr =>
      match i_socket w with
      | RefusedByKernel =>
          (looked, Icmp.observeICMP now false caps,
           Some (failed (Some ICMPNotPermitted) "the kernel refuses unprivileged icmp echo sockets to this agent (net.ipv4.ping_group_range)" (f64_of 0)))
      | OpenError e => (looked, caps, Some (failed None ("open icmp socket: " +:+ e) (f64_of 0)))
      | Opened =>
          let caps := Icmp.observeICMP now true caps in
          match i_random w with
          | inl e => (looked, caps, Some (failed None ("icmp payload: " +:+ e) (f64_of 0)))
          | inr random =>
              let (run, out) := Icmp.runEchoes (i_parse w) addr (i_start w) MonitorPacketSpacing timeout (i_turns w) 
                (Icmp.first_run (Icmp.newEchoes (map random (seq 0 (Z.to_nat (icmpPackets MonitorPackets)))))) in
              (looked ++ [Echoed addr], caps,
               match out with
               | None => None
               | Some err =>
                   let r := Icmp.fillICMPResult (Icmp.echoes run) err in
                   Some (mkResult None (Icmp.Success r) (Icmp.Error r) (Icmp.LatencyMs r) (Some r) None)
               end)
          end
      end
  end.

Inductive check :=
  | CheckTCP (Target : string) (nodeTarget : bool) (lookup : string -> string + list Addr) (deadline : time) (tries : nat -> try)
  | CheckHTTP (lookup : string -> string + list Addr) (status_text : Z -> string) (target : option target_url) (m : http_check) (dials : list asked) (end_ : http_error + Z)
  | CheckICMP (w : icmp_env) (Target : string) (nodeTarget : bool) (MonitorPackets : Z)
  | CheckDNS (w : DnsProbe.env) (target : string + DnsProbe.DNSResolver) (m : DnsProbe.dns_check)
  | CheckOther (Type_ : string).

(** The end of a tcp or http run. *)
Definition finish_probe (elapsed : duration) (e : option err) : monitor_result :=
  match e with
  | Some (destinationError msg) => failed (Some DestinationRefused) msg (f64_of 0)
  | Some (Plain msg) => failed None msg (Icmp.elapsedMs elapsed)
  | None => mkResult None true "" (Icmp.elapsedMs elapsed) None None
  end.
Definition probe (now : time) (timeout elapsed : duration) (c : check) (caps : Icmp.capabilities) : list effect * Icmp.capabilities * option monitor_result :=
  match c with
  | CheckTCP Target node lookup deadline tries => let (es, e) := probeTCP lookup Target node deadline tries in (es, caps, Some (finish_probe elapsed e))
  | CheckHTTP lookup st target m dials end_ => let (es, e) := probeHTTP lookup st target m dials end_ in (es, caps, Some (finish_probe elapsed e))
  | CheckICMP w Target node packets => probeICMP now w Target node packets timeout caps
  | CheckDNS w target m =>
      let (es, r) := DnsProbe.probeDNS w target m in
      (es, caps, Some (mkResult (if DnsProbe.r_refused r then Some DestinationRefused else None) (DnsProbe.r_success r) (DnsProbe.r_error r) (DnsProbe.r_latency r) None (Some r)))
  | CheckOther Type_ => ([], caps, Some (failed (Some AgentTooOld) ("this agent does not run " +:+ Quote Type_ +:+ " checks") (f64_of 0)))
  end.
End Probe.
End Probe.
