(* ===== verification/DnsProps.v ===== *)
(** * What a dns check's verdict rests on *)
From S2P Require Import Prelude GoStrings GoUtf8 Icmp Destination DnsProbe.
From Stdlib Require Import Ascii SpecFloat.

Local Open Scope Z_scope.

Module DnsProps.
Import Destination DnsProbe.

Section Props.
Context `{NetLib, DnsLib}.

(** ** The verdict *)

(** What the check asks of an answer. *)
Definition passes (q : dnsQuestion) (a : dnsAnswer) : Prop :=
  if String.eqb (rcode q) DNSRcodeNXDomain then a_rcode a = DNSRcodeNXDomain
  else a_rcode a = DNSRcodeNoError /\ values a <> [] /\ Forall (fun v => v ∈ values a) (expect q).

Lemma judge_exact q a : judge q a = None <-> passes q a.
Proof.
  unfold judge, passes. destruct (String.eqb (rcode q) DNSRcodeNXDomain).
  - destruct (String.eqb_spec (a_rcode a) DNSRcodeNXDomain); done.
  - destruct (String.eqb_spec (a_rcode a) DNSRcodeNoError) as [Hc|Hc]; cbn [negb]; [|split; [done|by intros [? _]]].
    destruct (values a) as [|v vs] eqn:Hv; [split; [done|by intros (_ & ? & _)]|]. rewrite <-Hv. cbv zeta.
    destruct (filter (fun want => want ∉ values a) (expect q)) as [|x l] eqn:Hf.
    + split; [intros _|done]. split; [done|]. split; [by rewrite Hv|]. apply Forall_forall. intros w Hw. apply dec_stable. intros Hn.
      assert (Hin : w ∈ filter (fun want => want ∉ values a) (expect q)) by (by apply list_elem_of_filter). rewrite Hf in Hin. by apply elem_of_nil in Hin.
    + split; [done|]. intros (_ & _ & Hall). exfalso. assert (Hin : x ∈ filter (fun want => want ∉ values a) (expect q)) by (rewrite Hf; by left).
      apply list_elem_of_filter in Hin as [Hn Hin]. rewrite Forall_forall in Hall. by apply Hn, Hall.
Qed.

(** ** The answer *)
Definition asked_record (q : dnsQuestion) (r : dns_answer) : bool := (an_type r =? qtype q) && (an_class r =? ClassINET).

(** A message that answers the question: a response to the query, whole, asking
    nothing else, whose answers of the asked type have the values. *)
Definition answers_question (r : DNSResolver) (q : dnsQuestion) (id : Z) (raw : string) (a : dnsAnswer) : Prop :=
  exists m, dns_parse raw = inr m /\ Response (m_header m) = true /\ (Transport r <> DoH -> ID (m_header m) = id) /\ Truncated (m_header m) = false /\
    Forall (fun x => asks_question q x = true) (m_questions m) /\
    map inr (values a) = map (dnsValue (qtype q)) (List.filter (asked_record q) (m_answers m)) /\
    a_rcode a = dnsRcodeName (if m_authorities m then extended (RCode (m_header m)) (RCode (m_header m)) (m_additionals m) else RCode (m_header m)).

Lemma read_answers_spec q l vs : read_answers q l = inr vs -> map inr vs = map (dnsValue (qtype q)) (List.filter (asked_record q) l).
Proof.
  revert vs. induction l as [|x l IH]; intros vs; [by intros [= <-]|]. simpl. unfold asked_record at 1. destruct (an_type x =? qtype q), (an_class x =? ClassINET); cbn [negb orb andb].
  1: destruct (dnsValue (qtype q) x) as [e|v] eqn:Hv; [done|]; destruct (read_answers q l) as [e|vs2]; [done|]; intros [= <-]; simpl; by rewrite Hv, (IH vs2).
  all: destruct (an_skip x); [done|apply IH].
Qed.

Lemma decode_spec raw id r q a : dnsDecode raw id (checkID r) q = inr a -> truncated a = false -> answers_question r q id raw a.
Proof.
  unfold dnsDecode. destruct (dns_parse raw) as [e|m] eqn:Hp; [done|]. cbv zeta. destruct (Response (m_header m)) eqn:Hr; [|done]. cbn [negb orb].
  destruct (checkID r && negb (ID (m_header m) =? id)) eqn:Hid; [done|]. destruct (Truncated (m_header m)) eqn:Ht; [by intros [= <-]|].
  destruct (forallb (asks_question q) (m_questions m)) eqn:Hq; [|done]. cbn [negb]. destruct (m_q_err m); [done|]. destruct (read_answers q (m_answers m)) as [e|vs] eqn:Hv; [done|].
  destruct (m_a_err m); [done|]. intros [= <-] _. exists m. split_and!; try done.
  - intros Hd. unfold checkID in Hid. destruct (Transport r); [done|..]; cbn [andb] in Hid; apply negb_false_iff, Z.eqb_eq in Hid; done.
  - apply Forall_forall. intros x Hx. rewrite forallb_forall in Hq. apply Hq. by apply list_elem_of_In.
  - by apply read_answers_spec.
Qed.

(** ** Where it came from *)
Definition received (w : env) (r : DNSResolver) (id : Z) (raw : string) : Prop :=
  match Transport r with
  | DoH => exists resp, e_doh w = DohResponse resp /\ StatusCode resp = 200 /\ media resp = dnsMediaType /\ raw = Body resp /\ (String.length raw <= MonitorDNSResponseMax)%nat
  | DoT => (exists chain, e_handshake w = Shaken chain) /\ dnsStreamExchange (e_stream w) = inr raw
  | TCP => dnsStreamExchange (e_stream w) = inr raw
  | UDP => (exists k d, d ∈ u_got (e_udp w k) /\ raw = str_take MonitorDNSResponseMax d /\ (2 <= String.length raw)%nat /\ be16 raw = id) \/ dnsStreamExchange (e_retry w) = inr raw
  end.

Lemma first_matching_spec id l raw : first_matching id l = Some raw -> exists d, d ∈ l /\ raw = str_take MonitorDNSResponseMax d /\ (2 <= String.length raw)%nat /\ be16 raw = id.
Proof.
  induction l as [|d l IH]; [done|]. cbn [first_matching]. cbv zeta. destruct (Nat.leb_spec 2 (String.length (str_take MonitorDNSResponseMax d))) as [Hl|Hl]; cbn [andb].
  - destruct (Z.eqb_spec (be16 (str_take MonitorDNSResponseMax d)) id) as [Hi|Hi].
    + intros [= <-]. exists d. split_and!; [by left|done..].
    + intros Hf. destruct (IH Hf) as (x & ? & ?). exists x. split; [by right|done].
  - intros Hf. destruct (IH Hf) as (x & ? & ?). exists x. split; [by right|done].
Qed.
Lemma udp_received port deadline id us addrs firstErr ds raw a : exchangeUDP port deadline id us addrs firstErr = (ds, inr (raw, a)) ->
  exists k d, d ∈ u_got (us k) /\ raw = str_take MonitorDNSResponseMax d /\ (2 <= String.length raw)%nat /\ be16 raw = id.
Proof.
  revert firstErr ds. induction addrs as [|addr rest IH]; intros firstErr ds; [done|]. cbn [exchangeUDP]. destruct (askUDP _ _ _ _ _) as [ds1 r1] eqn:Ha.
  destruct r1 as [e|raw1].
  - destruct (ctxOver _); [done|]. destruct (exchangeUDP _ _ _ _ rest _) as [ds2 r2] eqn:Hx. intros [= _ ->]. by eapply IH.
  - intros [= _ <- _]. unfold askUDP in Ha. destruct (dialJudged _ _ _ _ _) as [ds0 [e|c]]; [done|]. destruct (u_write _); [done|].
    destruct (first_matching _ _) as [x|] eqn:Hf; [|done]. injection Ha as _ <-. exists (length (addr :: rest)). by apply first_matching_spec.
Qed.
Lemma doh_received r raw : read_doh r = inr raw -> StatusCode r = 200 /\ media r = dnsMediaType /\ raw = Body r /\ (String.length raw <= MonitorDNSResponseMax)%nat.
Proof.
  unfold read_doh. destruct (Z.eqb_spec (StatusCode r) 200) as [Hs|]; [|done]. cbn [negb]. destruct (String.eqb_spec (media r) dnsMediaType) as [Hm|]; [|done]. cbn [negb]. cbv zeta.
  destruct (_ <? ContentLength r); [done|]. destruct (body_err r); [destruct (_ <=? _)%nat; done|].
  destruct (Nat.ltb_spec MonitorDNSResponseMax (String.length (str_take (S MonitorDNSResponseMax) (Body r)))) as [|Hl]; [done|].
  intros Hraw. rewrite str_take_len in Hl. assert (Hall : str_take (S MonitorDNSResponseMax) (Body r) = Body r) by (apply str_take_all; lia).
  assert (Heq : raw = Body r) by (rewrite <-Hall; by injection Hraw). rewrite Heq. split_and!; try done. lia.
Qed.
Lemma exchange_received w r addrs q id ds raw by_ cert : exchange w r addrs q id = (ds, inr raw, by_, cert) -> received w r id raw.
Proof.
  unfold exchange, received. destruct (Transport r).
  - unfold exchangeDoH. destruct (e_doh w) as [m|e|t|resp]; intros [=]. exists resp. split; [done|]. by apply doh_received.
  - unfold exchangeDoT. destruct (dialJudged _ _ _ _ _) as [ds1 [e|c]]; [done|]. destruct (e_handshake w) as [chain|t|e]; intros [=]. eauto.
  - unfold exchangeTCP. destruct (dialJudged _ _ _ _ _) as [ds1 [e|c]]; intros [=]. done.
  - destruct (exchangeUDP _ _ _ _ _ _) as [ds1 [e|[raw1 a]]] eqn:Hx; intros [=]. subst. left. by eapply udp_received.
Qed.

Lemma ask_sound w r addrs q id ds a cert : ask w r addrs q id = (ds, inr a, cert) -> exists raw, received w r id raw /\ answers_question r q id raw a.
Proof.
  unfold ask. destruct (exchange w r addrs q id) as [[[ds1 raw] by_] cert1] eqn:He. destruct (decode_of r q id raw) as [e|an] eqn:Hd; [done|].
  assert (Hdone : forall x, decode_of r q id raw = inr x -> truncated x = false -> exists raw', received w r id raw' /\ answers_question r q id raw' x).
  { intros x Hx Ht. destruct raw as [e|raw]; [done|]. exists raw. split; [by eapply exchange_received|by apply decode_spec]. }
  destruct by_ as [addr|].
  - assert (Hu : Transport r = UDP).
    { unfold exchange, exchangeDoH, exchangeDoT, exchangeTCP in He. destruct (Transport r); [destruct (e_doh w)|destruct (dialJudged _ _ _ _ _) as [? []]; [|destruct (e_handshake w)]|destruct (dialJudged _ _ _ _ _)|]; done. }
    destruct (truncated an) eqn:Ht; [|rewrite Ht; intros [= _ <- _]; by apply Hdone].
    unfold exchangeTCP. destruct (dialJudged _ _ _ _ _) as [ds2 [e|c]]; [done|]. destruct (dnsStreamExchange (e_retry w)) as [e|raw2] eqn:Hs; [done|].
    destruct (decode_of r q id (inr raw2)) as [e|a2] eqn:Hd2; [done|]. destruct (truncated a2) eqn:Ht2; [done|]. intros [= _ <- _].
    exists raw2. split; [unfold received; rewrite Hu; by right|by apply decode_spec].
  - destruct (truncated an) eqn:Ht; [done|]. intros [= _ <- _]. by apply Hdone.
Qed.

(** The run up to the exchange: the check's question, its query's ID and the
    judged addresses of its resolver. *)
Definition run_of (w : env) (target : string + DNSResolver) (m : dns_check) (r : DNSResolver) (q : dnsQuestion) (id : Z) (addrs : list Addr) : Prop :=
  target = inr r /\ dnsQuestionOf m = inr q /\ snd (resolveTarget (e_lookup w) (Host r) false) = inr addrs /\ query_id w r = inr id /\ exists query, e_pack w q id = inr query.

Lemma success_run w target m es res : probeDNS w target m = (es, res) -> r_success res = true ->
  exists r q id addrs ds a cert, run_of w target m r q id addrs /\ ask w r addrs q id = (ds, inr a, cert) /\ passes q a /\ r_rcode res = a_rcode a /\ r_answers res = dnsReported (values a).
Proof.
  unfold probeDNS. destruct (probe_dns w target m) as [es0 res0] eqn:Hp. intros [= <- <-]. simpl. unfold probe_dns in Hp. destruct target as [e|r]; [by injection Hp as _ <-|].
  destruct (dnsQuestionOf m) as [e|q] eqn:Hq; [by injection Hp as _ <-|]. destruct (resolveTarget (e_lookup w) (Host r) false) as [names [[e|e]|addrs]] eqn:Hr; [by injection Hp as _ <-..|].
  destruct (query_id w r) as [e|id] eqn:Hid; [by injection Hp as _ <-|]. destruct (e_pack w q id) as [e|query] eqn:Hpk; [by injection Hp as _ <-|].
  destruct (ask w r addrs q id) as [[ds a] cert] eqn:Ha. injection Hp as _ <-. unfold dns_verdict. destruct a as [[c t|t|t]|a]; [done..|]. destruct (judge q a) eqn:Hj; [done|]. intros _.
  exists r, q, id, addrs, ds, a, cert. split_and!; try done; [|by apply judge_exact]. unfold run_of. rewrite Hr. split_and!; eauto.
Qed.

(** C28: A dns check passes exactly when the answer is one to its own question and
    what it expects: a pass rests on a message that came on the run's own
    transport (for UDP a datagram that echoes the query's ID, or the one retry
    over TCP), is a whole response to the query and asks nothing else, has the
    expected response code, and, when names are to resolve, a value of the
    asked type and every expected one; and a run that gets such an answer
    passes, and reports it. *)
Theorem dns_pass_exact w target m es res : probeDNS w target m = (es, res) ->
  (r_success res = true -> exists r q id addrs raw a, run_of w target m r q id addrs /\ received w r id raw /\ answers_question r q id raw a /\ passes q a /\
     r_rcode res = a_rcode a /\ r_answers res = dnsReported (values a)) /\
  (forall r q id addrs ds a cert, run_of w target m r q id addrs -> ask w r addrs q id = (ds, inr a, cert) -> (r_success res = true <-> passes q a)).
Proof.
  intros Hp. split.
  - intros Hs. destruct (success_run _ _ _ _ _ Hp Hs) as (r & q & id & addrs & ds & a & cert & Hrun & Hask & Hpass & H1 & H2).
    destruct (ask_sound _ _ _ _ _ _ _ _ Hask) as (raw & Hraw & Hans). exists r, q, id, addrs, raw, a. done.
  - intros r q id addrs ds a cert (-> & Hq & Hr & Hid & query & Hpk) Hask. unfold probeDNS, probe_dns in Hp. rewrite Hq in Hp.
    destruct (resolveTarget (e_lookup w) (Host r) false) as [names rs]. simpl in Hr. subst rs. rewrite Hid, Hpk, Hask in Hp. injection Hp as _ <-. simpl.
    rewrite <-judge_exact. destruct (judge q a); done.
Qed.

(** ** Bounds and the frame *)

(** Whatever the resolver sends, the result carries valid UTF-8: an error of at
    most 512 bytes and no more and no longer values than the server takes. *)
Theorem dns_result_bounded w target m es res : probeDNS w target m = (es, res) ->
  ValidString (r_error res) = true /\ (String.length (r_error res) <= dnsErrorMax)%nat /\ (length (r_answers res) <= MonitorDNSAnswersMax)%nat /\
  Forall (fun v => ValidString v = true /\ (String.length v <= MonitorDNSValueMax)%nat) (r_answers res).
Proof.
  unfold probeDNS. destruct (probe_dns w target m) as [es0 res0] eqn:Hp. intros [= <- <-]. simpl.
  destruct (cut_spec (r_error res0) dnsErrorMax) as (H1 & H2 & _). do 2 (split; [done|]).
  assert (Ha : r_answers res0 = [] \/ exists vs, r_answers res0 = dnsReported vs).
  { unfold probe_dns in Hp. destruct target as [e|r]; [left; by injection Hp as _ <-|]. destruct (dnsQuestionOf m) as [e|q]; [left; by injection Hp as _ <-|].
    destruct (resolveTarget (e_lookup w) (Host r) false) as [names [[e|e]|addrs]]; [left; by injection Hp as _ <-..|]. destruct (query_id w r) as [e|id]; [left; by injection Hp as _ <-|].
    destruct (e_pack w q id) as [e|query]; [left; by injection Hp as _ <-|]. destruct (ask w r addrs q id) as [[ds a] cert]. injection Hp as _ <-.
    unfold dns_verdict. destruct a as [[c t|t|t]|a]; [by left..|]. right. exists (values a). by destruct (judge q a). }
  destruct Ha as [->|[vs ->]]; [split; [simpl; lia|constructor]|]. unfold dnsReported. rewrite length_map, length_take. split; [lia|].
  apply Forall_map, Forall_forall. intros v _. destruct (cut_spec v MonitorDNSValueMax) as (H3 & H4 & _). done.
Qed.

(** A frame is read back whatever follows it. *)
Lemma be16_read n s : 0 <= n < 65536 -> be16 (be16_bytes n +:+ s) = n.
Proof.
  intros Hn. change (256 * byte_val (byte_of (n / 256)) + byte_val (byte_of (n mod 256)) = n).
  rewrite !byte_val_of; [symmetry; apply Z.div_mod; lia|apply Z.mod_pos_bound; lia|]. split; [apply Z.div_pos; lia|apply Z.div_lt_upper_bound; lia].
Qed.
Lemma frame_read x rest tries e : Z.of_nat (String.length x) < 65536 -> dnsStreamExchange (mkStream tries None (dnsFrame x +:+ rest) e) = inr x.
Proof.
  intros Hx. unfold dnsFrame, dnsStreamExchange. simpl s_write. simpl s_bytes. rewrite Z.mod_small by lia. rewrite string_app_assoc. set (n := Z.of_nat (String.length x)) in *.
  rewrite be16_read by lia. change (str_drop 2 (be16_bytes n +:+ x +:+ rest)) with (x +:+ rest). change (String.length (be16_bytes n +:+ x +:+ rest)) with (2 + String.length (x +:+ rest))%nat.
  unfold n. rewrite Nat2Z.id, string_app_length. destruct (Nat.ltb_spec (2 + (String.length x + String.length rest)) 2); [lia|].
  destruct (Nat.ltb_spec (String.length x + String.length rest) (String.length x)); [lia|]. by rewrite str_take_app.
Qed.
End Props.
End DnsProps.
