(* ===== verification/ProbeProps.v ===== *)
(** * Where a probe goes, and how its time is shared *)
From S2P Require Import Prelude GoStrings Icmp Destination DnsProbe Probe.
From Stdlib Require Import Ascii SpecFloat.

Local Open Scope Z_scope.

Module ProbeProps.
Import Destination Probe.

Section Props.
Context `{NetLib, DnsLib}.
Context (MonitorPacketsMax : Z) (MonitorPacketSpacing : duration).

Definition unbracket (host : string) : string := trim_suffix (trim_prefix host "[") "]".

(** An address the run may use: the target's own, or one of those its name was
    found to have; without a node behind the target none of them is refused. *)
Definition allowed (lookup : string -> string + list Addr) (host : string) (node : bool) (addr : Addr) : Prop :=
  ((exists a, ParseAddr (unbracket host) = Some a /\ addr = Unmap a) \/
   (exists name found a, asciiHost (unbracket host) = inr name /\ lookup name = inr found /\ a ∈ found /\ addr = Unmap a /\
      (node = false -> Forall (fun b => MonitorDestinationRefused (Unmap b) = false) found))) /\
  (node = false -> MonitorDestinationRefused addr = false).

Lemma judge_spec literal host node addrs l : judge literal host node addrs = inr l -> l = addrs /\ (node = false -> Forall (fun a => MonitorDestinationRefused a = false) addrs).
Proof.
  unfold judge. destruct node; [by intros [= <-]|]. destruct (List.find MonitorDestinationRefused addrs) as [a|] eqn:Hf; [done|]. intros [= <-]. split; [done|]. intros _.
  apply Forall_forall. intros a Ha. apply (List.find_none _ _ Hf). by apply list_elem_of_In.
Qed.
Lemma resolve_spec lookup host node names r : resolveTarget lookup host node = (names, r) ->
  (names = [] \/ exists name, names = [name] /\ asciiHost (unbracket host) = inr name) /\
  (forall addrs, r = inr addrs -> Forall (allowed lookup host node) addrs /\ addrs <> []).
Proof.
  unfold resolveTarget. fold (unbracket host). destruct (ParseAddr (unbracket host)) as [a|] eqn:Hp.
  - intros [= <- <-]. split; [by left|]. intros addrs [-> Hr]%judge_spec. split; [|done]. constructor; [|done]. split; [left; eauto|]. intros Hn. by specialize (Hr Hn); apply Forall_cons in Hr as [? _].
  - destruct (asciiHost (unbracket host)) as [e|name] eqn:Ha; [intros [= <- <-]; split; [by left|done]|].
    intros [= <- <-]. split; [right; eauto|]. intros addrs. destruct (lookup name) as [e|found] eqn:Hl; [done|]. destruct found as [|x found]; [done|].
    set (all := x :: found) in *. intros [-> Hr]%judge_spec. split; [|done]. apply Forall_map, Forall_forall. intros a Hin. split.
    + right. exists name, all, a. split_and!; try done. intros Hn. specialize (Hr Hn). by rewrite Forall_map in Hr.
    + intros Hn. specialize (Hr Hn). rewrite Forall_map, Forall_forall in Hr. by apply Hr.
Qed.

(** Dials go to the given addresses. *)
Definition dials_in (addrs : list Addr) (ds : list dial) : Prop :=
  Forall (fun d => exists addr port, addr ∈ addrs /\ d_address d = JoinHostPort (addr_text addr) port) ds.
Lemma dials_in_more addrs addrs' ds : addrs ⊆ addrs' -> dials_in addrs ds -> dials_in addrs' ds.
Proof. intros Hs Hi. refine (Forall_impl _ _ _ Hi _). intros d (a & p & Ha & Hd). exists a, p. split; [by apply Hs|done]. Qed.

Lemma dial_next_in network port deadline tries addrs firstErr ds r : dial_next network port deadline tries addrs firstErr = (ds, r) ->
  dials_in addrs ds /\ (forall a, r = inr a -> a ∈ addrs).
Proof.
  revert firstErr ds r. induction addrs as [|addr rest IH]; intros firstErr ds r; [intros [= <- <-]; split; [constructor|done]|]. cbn [dial_next].
  destruct (dialErr _) as [e|]; [|intros [= <- <-]; split; [constructor; [|done]; exists addr, port; split; [by left|done]|intros a [= ->]; by left]].
  destruct (ctxOver _); [intros [= <- <-]; split; [constructor; [|done]; exists addr, port; split; [by left|done]|done]|].
  destruct (dial_next _ _ _ _ rest _) as [ds' r'] eqn:Hd. intros [= <- <-]. destruct (IH _ _ _ Hd) as [H1 H2]. split.
  - constructor; [exists addr, port; split; [by left|done]|]. apply (dials_in_more rest); [set_solver|done].
  - intros a Ha. right. by apply H2.
Qed.
Lemma dialJudged_in network addrs port deadline tries ds r : dialJudged network addrs port deadline tries = (ds, r) ->
  dials_in addrs ds /\ (forall a, r = inr a -> a ∈ addrs).
Proof. unfold dialJudged. destruct addrs; [intros [= <- <-]; split; [constructor|done]|]. apply dial_next_in. Qed.
Lemma client_in host addrs l : dials_in addrs (client_Do host addrs l).
Proof.
  induction l as [|a l IH]; [constructor|]. simpl. apply Forall_app. split; [|done]. unfold transport_dial. destruct (SplitHostPort _) as [[dh port]|]; [|constructor].
  destruct (negb _); [constructor|]. destruct (dialJudged _ _ _ _ _) as [ds r] eqn:Hd. simpl. by apply dialJudged_in in Hd as [? _].
Qed.

(** ** Over every kind *)
Definition check_host (c : check) : string :=
  match c with
  | CheckTCP Target _ _ _ _ => match SplitHostPort Target with Some (h, _) => h | None => "" end
  | CheckHTTP _ _ _ m _ _ => match h_url m with Some u => match asciiHost (Hostname u) with inr h => h | inl _ => "" end | None => "" end
  | CheckICMP _ Target _ _ => match SplitHostPort Target with Some (h, _) => h | None => Target end
  | CheckDNS _ target _ => match target with inr r => DnsProbe.Host r | inl _ => "" end
  | CheckOther _ => ""
  end.
Definition check_node (c : check) : bool := match c with CheckTCP _ n _ _ _ | CheckICMP _ _ n _ => n | _ => false end.
Definition check_lookup (c : check) : string -> string + list Addr :=
  match c with
  | CheckTCP _ _ l _ _ | CheckHTTP l _ _ _ _ _ => l
  | CheckICMP w _ _ _ => i_lookup w
  | CheckDNS w _ _ => DnsProbe.e_lookup w
  | CheckOther _ => fun _ => inl ""
  end.

(** An effect the check may have. *)
Definition permitted (c : check) (e : effect) : Prop :=
  let ok := allowed (check_lookup c) (check_host c) (check_node c) in
  match e with
  | Looked name => asciiHost (unbracket (check_host c)) = inr name
  | Dialed d => exists addr port, d_address d = JoinHostPort (addr_text addr) port /\ ok addr
  | Echoed addr => ok addr /\ Is4 addr = true
  | Requested _ =>
      exists lookup st target m dials end_ u, c = CheckHTTP lookup st target m dials end_ /\ h_url m = Some u /\
        (MonitorHasSecrets (h_secrets m) = true -> to_lower (Scheme u) = "https"%string /\ SecretsOrigin (h_secrets m) <> ""%string /\
          MonitorOrigin (h_secrets m) = Some (SecretsOrigin (h_secrets m)))
  end.

Lemma looked_ok c names : (names = [] \/ exists name, names = [name] /\ asciiHost (unbracket (check_host c)) = inr name) ->
  Forall (permitted c) (map Looked names) /\ (length names <= 1)%nat.
Proof. intros [->|(n & -> & Hn)]; [split; [constructor|simpl; lia]|]. split; [by repeat constructor|simpl; lia]. Qed.
Lemma dialed_ok c addrs ds : Forall (allowed (check_lookup c) (check_host c) (check_node c)) addrs -> dials_in addrs ds -> Forall (permitted c) (map Dialed ds).
Proof.
  intros Ha Hi. apply Forall_map. refine (Forall_impl _ _ _ Hi _). intros d (a & p & Hin & Hd). exists a, p. split; [done|]. rewrite Forall_forall in Ha. by apply Ha.
Qed.
Lemma header_origin m scheme header : requestHeader m scheme = inr header -> MonitorHasSecrets (h_secrets m) = true ->
  scheme = "https"%string /\ SecretsOrigin (h_secrets m) <> ""%string /\ MonitorOrigin (h_secrets m) = Some (SecretsOrigin (h_secrets m)).
Proof.
  unfold requestHeader. intros Hr Hs. rewrite Hs in Hr. cbn [andb] in Hr. destruct (MonitorOrigin (h_secrets m)) as [o|]; [|done].
  destruct (String.eqb_spec scheme "https"); [|done]. destruct (String.eqb_spec (SecretsOrigin (h_secrets m)) ""); [done|].
  destruct (String.eqb_spec o (SecretsOrigin (h_secrets m))) as [E|E]; [by rewrite E|done].
Qed.

Lemma udp_in port deadline id us addrs firstErr ds r : DnsProbe.exchangeUDP port deadline id us addrs firstErr = (ds, r) ->
  dials_in addrs ds /\ (forall raw a, r = inr (raw, a) -> a ∈ addrs).
Proof.
  revert firstErr ds r. induction addrs as [|addr rest IH]; intros firstErr ds r; [intros [= <- <-]; split; [constructor|done]|]. cbn [DnsProbe.exchangeUDP].
  destruct (DnsProbe.askUDP _ _ _ _ _) as [ds1 r1] eqn:Ha.
  assert (H1 : dials_in (addr :: rest) ds1).
  { unfold DnsProbe.askUDP in Ha. destruct (dialJudged _ _ _ _ _) as [ds0 r0] eqn:Hd. injection Ha as <- _. apply dialJudged_in in Hd as [Hd _].
    apply (dials_in_more [addr]); [set_solver|done]. }
  destruct r1 as [e|raw]; [|intros [= <- <-]; split; [done|intros ? ? [= _ ->]; by left]]. destruct (ctxOver _); [by intros [= <- <-]|].
  destruct (DnsProbe.exchangeUDP _ _ _ _ rest _) as [ds2 r2] eqn:Hx. intros [= <- <-]. destruct (IH _ _ _ Hx) as [H2 H3]. split.
  - apply Forall_app. split; [done|]. apply (dials_in_more rest); [set_solver|done].
  - intros raw a Hr. right. by eapply H3.
Qed.
Lemma exchange_in w r addrs q id ds raw by_ cert : DnsProbe.exchange w r addrs q id = (ds, raw, by_, cert) ->
  dials_in addrs ds /\ (forall a, by_ = Some a -> a ∈ addrs).
Proof.
  unfold DnsProbe.exchange, DnsProbe.exchangeDoH, DnsProbe.exchangeDoT, DnsProbe.exchangeTCP. destruct (DnsProbe.Transport r).
  - destruct (DnsProbe.e_doh w); intros [= <- _ <- _]; (split; [apply client_in|done]).
  - destruct (dialJudged _ _ _ _ _) as [ds1 r1] eqn:Hd. apply dialJudged_in in Hd as [Hd _]. destruct r1 as [e|a]; [by intros [= <- _ <- _]|]. destruct (DnsProbe.e_handshake w); by intros [= <- _ <- _].
  - destruct (dialJudged _ _ _ _ _) as [ds1 r1] eqn:Hd. apply dialJudged_in in Hd as [Hd _]. by intros [= <- _ <- _].
  - destruct (DnsProbe.exchangeUDP _ _ _ _ _ _) as [ds1 r1] eqn:Hd. apply udp_in in Hd as [Hd Ha]. destruct r1 as [e|[raw1 a]]; intros [= <- _ <- _]; [done|]. split; [done|]. intros ? [= <-]. by eapply Ha.
Qed.
Lemma ask_in w r addrs q id ds a cert : DnsProbe.ask w r addrs q id = (ds, a, cert) -> dials_in addrs ds.
Proof.
  unfold DnsProbe.ask. destruct (DnsProbe.exchange _ _ _ _ _) as [[[ds1 raw] by_] cert1] eqn:He. apply exchange_in in He as [H1 H2].
  destruct (DnsProbe.decode_of r q id raw) as [e|an]; [by intros [= <- _ _]|]. destruct by_ as [addr|]; [|by intros [= <- _ _]].
  destruct (DnsProbe.truncated an); [|by intros [= <- _ _]]. unfold DnsProbe.exchangeTCP. destruct (dialJudged _ _ _ _ _) as [ds2 r2] eqn:Hd. intros [= <- _ _].
  apply dialJudged_in in Hd as [Hd _]. apply Forall_app. split; [done|]. apply (dials_in_more [addr]); [|done]. intros x ->%list_elem_of_singleton. by apply H2.
Qed.

Definition is_lookup (e : effect) : bool := match e with Looked _ => true | _ => false end.
Definition good (c : check) (es : list effect) : Prop := Forall (permitted c) es /\ countb is_lookup es <= 1.

Lemma good_nil c : good c [].
Proof. split; [constructor|rewrite countb_nil; lia]. Qed.
(** The lookup of the check's host, and what follows it. *)
Lemma good_run c names r es : resolveTarget (check_lookup c) (check_host c) (check_node c) = (names, r) -> Forall (permitted c) es -> countb is_lookup es = 0 ->
  good c (map Looked names ++ es).
Proof.
  intros Hr He Hz. destruct (resolve_spec _ _ _ _ _ Hr) as [Hn _]. destruct (looked_ok c names Hn) as [Hl Hc]. split; [by apply Forall_app|].
  rewrite countb_app, Hz. destruct names as [|x [|y names]]; simpl in *; rewrite ?countb_nil, ?countb_cons, ?countb_nil; simpl; lia.
Qed.
Lemma good_names c names r : resolveTarget (check_lookup c) (check_host c) (check_node c) = (names, r) -> good c (map Looked names).
Proof. intros Hr. rewrite <-(app_nil_r (map Looked names)). eapply good_run; [done|constructor|done]. Qed.
Lemma good_dials c names addrs ds tail : resolveTarget (check_lookup c) (check_host c) (check_node c) = (names, inr addrs) -> dials_in addrs ds ->
  Forall (permitted c) tail -> countb is_lookup tail = 0 -> good c (map Looked names ++ map Dialed ds ++ tail).
Proof.
  intros Hr Hd Ht Hz. destruct (resolve_spec _ _ _ _ _ Hr) as [_ Ha]. eapply good_run; [done| |].
  - apply Forall_app_2; [|done]. apply (dialed_ok c addrs); [by apply Ha|done].
  - rewrite countb_app, Hz. rewrite (countb_0 is_lookup (map Dialed ds)); [done|]. by apply Forall_map, Forall_forall.
Qed.
Lemma good_dialed c names addrs ds : resolveTarget (check_lookup c) (check_host c) (check_node c) = (names, inr addrs) -> dials_in addrs ds ->
  good c (map Looked names ++ map Dialed ds).
Proof. intros Hr Hd. rewrite <-(app_nil_r (map Dialed ds)). eapply good_dials; [done..|constructor|done]. Qed.

Lemma tcp_good Target node lookup deadline tries : good (CheckTCP Target node lookup deadline tries) (fst (probeTCP lookup Target node deadline tries)).
Proof.
  unfold probeTCP, split_target. set (c := CheckTCP _ _ _ _ _). destruct (SplitHostPort Target) as [[host port]|] eqn:Hs; [|apply good_nil].
  assert (Hh : check_host c = host) by (simpl; by rewrite Hs). destruct (String.eqb host ""); [apply good_nil|].
  destruct (parse_uint 16 port); [|destruct (LookupPort port); [|apply good_nil]].
  all: destruct (resolveTarget lookup host node) as [names r] eqn:Hr; rewrite <-Hh in Hr;
    change (resolveTarget (check_lookup c) (check_host c) (check_node c) = (names, r)) in Hr; destruct r as [e|addrs]; [by eapply good_names|];
    destruct (dialJudged _ _ _ _ _) as [ds r] eqn:Hd; apply dialJudged_in in Hd as [Hd _]; by eapply good_dialed.
Qed.
Lemma http_good lookup st target m dials end_ : good (CheckHTTP lookup st target m dials end_) (fst (probeHTTP lookup st target m dials end_)).
Proof.
  unfold probeHTTP. set (c := CheckHTTP _ _ _ _ _ _). destruct (h_url m) as [u|] eqn:Hu; [|apply good_nil]. cbv zeta.
  destruct (_ || String.eqb (Hostname u) ""); [apply good_nil|]. destruct (h_expect m) as [e|ex]; [apply good_nil|].
  destruct (requestHeader m (to_lower (Scheme u))) as [e|header] eqn:Hh; [apply good_nil|]. destruct (asciiHost (Hostname u)) as [e|host] eqn:Ha; [apply good_nil|].
  assert (Hhost : check_host c = host) by (simpl; by rewrite Hu, Ha). destruct (resolveTarget lookup host false) as [names r] eqn:Hr.
  change lookup with (check_lookup c) in Hr. change false with (check_node c) in Hr. rewrite <-Hhost in Hr.
  destruct r as [e|addrs]; [by eapply good_names|]. destruct (negb _); [by eapply good_names|]. simpl. eapply good_dials; [done|apply client_in| |done].
  constructor; [|done]. exists lookup, st, target, m, dials, end_, u. split_and!; [done|done|]. intros Hs. by apply (header_origin _ _ header).
Qed.
Lemma icmp_good now w Target node packets timeout caps :
  good (CheckICMP w Target node packets) (fst (fst (probeICMP MonitorPacketsMax MonitorPacketSpacing now w Target node packets timeout caps))).
Proof.
  unfold probeICMP, icmpTarget. set (c := CheckICMP _ _ _ _). change (match SplitHostPort Target with Some (h, _) => h | None => Target end) with (check_host c).
  destruct (String.eqb (check_host c) ""); [apply good_nil|]. destruct (resolveTarget (i_lookup w) (check_host c) node) as [names r] eqn:Hr.
  change (i_lookup w) with (check_lookup c) in Hr. change node with (check_node c) in Hr. destruct r as [[m|m]|addrs]; [by eapply good_names..|].
  destruct (List.find Is4 addrs) as [addr|] eqn:Hf; [|by eapply good_names]. destruct (i_socket w); [|by eapply good_names..].
  destruct (i_random w) as [e|rnd]; [by eapply good_names|]. destruct (Icmp.runEchoes _ _ _ _ _ _ _) as [run out]. apply List.find_some in Hf as [Hin H4].
  eapply good_run; [done| |done]. constructor; [|done]. split; [|done]. destruct (resolve_spec _ _ _ _ _ Hr) as [_ Hall]. destruct (Hall addrs eq_refl) as [Hok _].
  rewrite Forall_forall in Hok. apply Hok. by apply list_elem_of_In.
Qed.
Lemma dns_good w target m : good (CheckDNS w target m) (fst (DnsProbe.probeDNS w target m)).
Proof.
  unfold DnsProbe.probeDNS, DnsProbe.probe_dns. set (c := CheckDNS _ _ _). destruct target as [e|r]; [apply good_nil|]. destruct (DnsProbe.dnsQuestionOf m) as [e|q]; [apply good_nil|].
  destruct (resolveTarget (DnsProbe.e_lookup w) (DnsProbe.Host r) false) as [names addrs] eqn:Hr. change (resolveTarget (check_lookup c) (check_host c) (check_node c) = (names, addrs)) in Hr.
  destruct addrs as [[e|e]|addrs]; [by eapply good_names..|]. destruct (DnsProbe.query_id w r) as [e|id]; [by eapply good_names|].
  destruct (DnsProbe.e_pack w q id) as [e|pk]; [by eapply good_names|]. destruct (DnsProbe.ask w r addrs q id) as [[ds a] cert] eqn:Hask. eapply good_dialed; [done|by eapply ask_in].
Qed.

(** C27: A probe reaches only what the rules allow: whatever its kind, and whatever
    the resolver, the server and net/http answer, it looks up at most one name,
    the target's; it connects and sends echoes only to addresses of that one
    lookup, or to the target's literal, and unless the control plane resolved
    the target from a node, none of the lookup's addresses is refused; a
    request that carries saved secrets is made only over https to the origin
    they were saved for. *)
Theorem reaches_only_judged now timeout elapsed c caps es caps' res : probe MonitorPacketsMax MonitorPacketSpacing now timeout elapsed c caps = (es, caps', res) ->
  Forall (permitted c) es /\ countb is_lookup es <= 1.
Proof.
  intros Hp. change (good c es). destruct c as [Target node lookup deadline tries|lookup st target m dials end_|w Target node packets|w target m|t]; simpl in Hp.
  - assert (Hg := tcp_good Target node lookup deadline tries). destruct (probeTCP _ _ _ _ _). by injection Hp as <- _ _.
  - assert (Hg := http_good lookup st target m dials end_). destruct (probeHTTP _ _ _ _ _ _). by injection Hp as <- _ _.
  - assert (Hg := icmp_good now w Target node packets timeout caps). by rewrite Hp in Hg.
  - assert (Hg := dns_good w target m). destruct (DnsProbe.probeDNS _ _ _). by injection Hp as <- _ _.
  - injection Hp as <- _ _. apply good_nil.
Qed.

(** ** The time of a run *)
Lemma dial_deadlines network port deadline tries addrs firstErr ds r i dl : dial_next network port deadline tries addrs firstErr = (ds, r) -> ds !! i = Some dl ->
  (i < length addrs)%nat /\ d_deadline dl = addrContext deadline (zlen addrs - Z.of_nat i) (tries (length addrs - i)%nat).
Proof.
  revert firstErr ds r i. induction addrs as [|addr rest IH]; intros firstErr ds r i; [by intros [= <- <-]|]. cbn [dial_next].
  assert (Hhead : d_deadline (mkDial network (JoinHostPort (addr_text addr) port) (addrContext deadline (zlen (addr :: rest)) (tries (length (addr :: rest))))) =
    addrContext deadline (zlen (addr :: rest) - Z.of_nat 0) (tries (length (addr :: rest) - 0)%nat)) by (simpl; by rewrite Z.sub_0_r).
  assert (Hone : forall ds', [mkDial network (JoinHostPort (addr_text addr) port) (addrContext deadline (zlen (addr :: rest)) (tries (length (addr :: rest))))] = ds' ->
    ds' !! i = Some dl -> (i < length (addr :: rest))%nat /\ d_deadline dl = addrContext deadline (zlen (addr :: rest) - Z.of_nat i) (tries (length (addr :: rest) - i)%nat)).
  { intros ds' <- Hi. destruct i; [|done]. injection Hi as <-. split; [simpl; lia|done]. }
  destruct (dialErr _); [|intros [= <- _] Hi; by eapply Hone]. destruct (ctxOver _); [intros [= <- _] Hi; by eapply Hone|].
  destruct (dial_next _ _ _ _ rest _) as [ds' r'] eqn:Hd. intros [= <- _] Hi. destruct i as [|i]; [injection Hi as <-; split; [simpl; lia|done]|].
  destruct (IH _ _ _ _ Hd Hi) as [H1 H2]. split; [simpl; lia|]. rewrite H2. f_equal. rewrite zlen_cons. lia.
Qed.

Lemma share_step d t l q : 0 < l -> minDialSlice <= q -> l * q <= d - t -> d - t <= max_i64 -> forall x, clock1 x = t -> clock2 x = t -> clock3 x = t ->
  exists e, addrContext (Some d) l x = Some e /\ e <= d /\ t + q <= e /\ (l - 1) * q <= d - e /\ (l = 1 -> e = d).
Proof.
  intros Hl Hq Hr Hmax x H1 H2 H3. unfold addrContext. destruct (Z.ltb_spec 1 l) as [H1l|H1l].
  - rewrite H1, H2, H3. assert (Hq0 : 0 < q) by (change minDialSlice with 2000000000 in Hq; lia). assert (Hs : time_sub d t = d - t).
    { unfold time_sub. change min_i64 with (- 9223372036854775808). nia. }
    rewrite Hs. rewrite Z.quot_div_nonneg by nia. assert (Hdiv : q <= (d - t) / l) by (apply Z.div_le_lower_bound; lia).
    destruct (Z.ltb_spec ((d - t) / l) minDialSlice); [lia|]. assert (Hm := Z.mul_div_le (d - t) l Hl). exists (Z.min d (t + (d - t) / l)). unfold time_add.
    assert (Hle : (d - t) / l <= d - t) by nia. rewrite Z.min_r by lia. split_and!; try done; try lia. nia.
  - assert (l = 1) as -> by lia. exists d. split_and!; try done; lia.
Qed.

(** No address takes the time of the others: when a run has at least two
    seconds for each address a dial has at least an equal share of the run's
    whole time, however long the addresses before it were silent, and the last
    one has all that is left; no dial outlives the run. *)
Theorem every_address_gets_its_share network addrs port d tries ds r (T : nat -> time) : dialJudged network addrs port (Some d) tries = (ds, r) ->
  (forall l, clock1 (tries l) = T l /\ clock2 (tries l) = T l /\ clock3 (tries l) = T l) ->
  (forall l, (0 < l < length addrs)%nat -> T (length addrs) <= T l /\ T l <= default d (addrContext (Some d) (Z.of_nat (S l)) (tries (S l)))) ->
  zlen addrs * minDialSlice <= d - T (length addrs) <= max_i64 ->
  forall i dl, ds !! i = Some dl -> exists e, d_deadline dl = Some e /\ e <= d /\
    T (length addrs - i)%nat + (d - T (length addrs)) / zlen addrs <= e /\ (S i = length addrs -> e = d).
Proof.
  intros Hd Hclock Hnext Hlong i dl Hi. set (n := length addrs) in *. assert (Hz : zlen addrs = Z.of_nat n) by done.
  unfold dialJudged in Hd. destruct (decide (n = 0%nat)) as [Hn0|Hn0]; [destruct addrs; [by injection Hd as <- _|done]|].
  assert (Hdn : dial_next network port (Some d) tries addrs None = (ds, r)) by (destruct addrs; [done|exact Hd]). clear Hd.
  destruct (dial_deadlines _ _ _ _ _ _ _ _ _ _ Hdn Hi) as [Hin Hdl]. fold n in Hin, Hdl. rewrite Hz in *. set (q := (d - T n) / Z.of_nat n).
  assert (Hq : minDialSlice <= q) by (apply Z.div_le_lower_bound; lia). assert (Hqn : Z.of_nat n * q <= d - T n) by (apply Z.mul_div_le; lia).
  assert (Hinv : forall k, (k < n)%nat -> T n <= T (n - k)%nat /\ Z.of_nat (n - k) * q <= d - T (n - k)%nat).
  { induction k as [|k IH]; intros Hk; [rewrite Nat.sub_0_r; lia|]. destruct (IH ltac:(lia)) as [IH1 IH2]. destruct (Hnext (n - S k)%nat ltac:(lia)) as [N1 N2]. split; [done|].
    replace (S (n - S k)) with (n - k)%nat in N2 by lia. destruct (Hclock (n - k)%nat) as (C1 & C2 & C3).
    destruct (share_step d (T (n - k)%nat) (Z.of_nat (n - k)) q) with (x := tries (n - k)%nat) as (e & He & _ & _ & Hrest & _); try done; try lia.
    rewrite He in N2. simpl in N2. replace (Z.of_nat (n - S k)) with (Z.of_nat (n - k) - 1) by lia. lia. }
  destruct (Hinv i Hin) as [I1 I2]. destruct (Hclock (n - i)%nat) as (C1 & C2 & C3).
  destruct (share_step d (T (n - i)%nat) (Z.of_nat (n - i)) q) with (x := tries (n - i)%nat) as (e & He & H1 & H2 & _ & H4); try done; try lia.
  exists e. rewrite Hdl. replace (Z.of_nat n - Z.of_nat i) with (Z.of_nat (n - i)) by lia. split_and!; try done. intros Hlast. apply H4. lia.
Qed.
End Props.
End ProbeProps.

(** * Probes on concrete hosts, and a dns check on a small codec *)
From S2P Require Import Prelude GoStrings GoUtf8 Icmp Destination DnsProbe Probe DnsProps.
From Stdlib Require Import Ascii SpecFloat.

Local Open Scope Z_scope.

Module ProbeSample.
Import Destination Probe ProbeProps.

(** Addresses are texts of digits and dots; those of 10/8 and 127/8 are
    refused. *)
Definition digits_and_dots (s : string) : bool := str_forall (fun c => is_digit c || Ascii.eqb c ".") s.
#[export] Instance sample_net : NetLib := {
  Addr := string;
  ParseAddr s := if digits_and_dots s then Some s else None;
  Unmap s := s; Is4 _ := true; addr_text s := s;
  MonitorDestinationRefused s := has_prefix s "10." || has_prefix s "127.";
  ToASCII _ := None; Quote s := s; LookupPort _ := None; redactURL s := s
}.

(** A codec: the ID, then the one A record of the answer. *)
#[export] Instance sample_dns : DnsLib := {
  NormalizeDNSName s := inr s; NormalizeDNSType s := inr s; NormalizeDNSExpectRcode s := inr s; CanonicalDNSValue _ s := inr s;
  MonitorDNSExpectMax := 8; MonitorDNSAnswersMax := 4; MonitorDNSValueMax := 64; MonitorDNSResponseMax := 100;
  DNSTypeA := "A"; DNSTypeAAAA := "AAAA"; DNSTypeCNAME := "CNAME"; DNSTypeTXT := "TXT"; DNSTypeMX := "MX"; DNSTypeNS := "NS";
  DNSFailureTransport := "transport"; DNSFailureRcode := "rcode"; DNSFailureNoAnswer := "no_answer"; DNSFailureMismatch := "mismatch";
  DNSRcodeNoError := "NOERROR"; DNSRcodeNXDomain := "NXDOMAIN"; ToLower := to_lower; error_kind _ := IsNeither;
  dns_parse raw := inr (mkMessage (mkHeader true (DnsProbe.be16 raw) false 0) [] None
    [mkRecord 1 1 None (inr (str_drop 2 raw)) (inl "") (inl "")]%string None true [])
}.

Definition lookup (name : string) : string + list string :=
  if String.eqb name "shop.example" then inr ["192.0.2.1"; "10.0.0.7"]%string else inr ["192.0.2.9"; "192.0.2.8"]%string.
Definition quiet (n : nat) : try := mkTry 0 0 0 (Some "timeout"%string) false.
Definition caps := Icmp.newCapabilities.
Definition run (c : check) := probe 20 (1000000000) 0 second 0 c caps.

(** A private address beside a public one refuses the run; a node's is not
    judged. *)
Example smuggled : fst (fst (run (CheckTCP "shop.example:443" false lookup 0 quiet))) = [Looked "shop.example"].
Proof. vm_compute. reflexivity. Qed.
Example node_target : zlen (fst (fst (run (CheckTCP "shop.example:443" true lookup 0 quiet)))) = 3.
Proof. vm_compute. reflexivity. Qed.

Definition plain_tcp : check := CheckTCP "www.example:443" false lookup 0 quiet.
Lemma plain_run : run plain_tcp = ([Looked "www.example"; Dialed (mkDial "tcp" "192.0.2.9:443" (Some 0)); Dialed (mkDial "tcp" "192.0.2.8:443" (Some 0))], caps,
  Some (failed None "timeout" (f64_of 0))).
Proof. vm_compute. reflexivity. Qed.
Lemma reaches_only_judged_witness : MonitorDestinationRefused (NetLib := sample_net) "192.0.2.8" = false /\ permitted plain_tcp (Dialed (mkDial "tcp" "192.0.2.8:443" (Some 0))).
Proof.
  split; [reflexivity|]. destruct (reaches_only_judged 20 1000000000 0 second 0 plain_tcp caps _ _ _ plain_run) as [H _].
  apply Forall_cons in H as [_ H]. apply Forall_cons in H as [_ H]. apply Forall_cons in H as [H _]. exact H.
Defined.

(** Three silent addresses share twelve seconds. *)
Definition silent (n : nat) : try :=
  let t := (3 - Z.of_nat n) * (4 * second) in mkTry t t t (Some "timeout"%string) false.
Definition three : list (@Addr sample_net) := ["192.0.2.1"; "192.0.2.2"; "192.0.2.3"]%string.
Lemma shares : fst (dialJudged "tcp" three "53" (Some (12 * second)) silent) =
  [mkDial "tcp" "192.0.2.1:53" (Some (4 * second)); mkDial "tcp" "192.0.2.2:53" (Some (8 * second)); mkDial "tcp" "192.0.2.3:53" (Some (12 * second))].
Proof. vm_compute. reflexivity. Qed.
Lemma every_address_gets_its_share_witness : exists e, Some (8 * second) = Some e /\ 4 * second + 4 * second <= e.
Proof.
  destruct (every_address_gets_its_share "tcp" three "53" (12 * second) silent _ _ (fun n => (3 - Z.of_nat n) * (4 * second)) (surjective_pairing _)) with (i := 1%nat) (dl := mkDial "tcp" "192.0.2.2:53" (Some (8 * second))) as (e & H1 & _ & H2 & _).
  - intros l. done.
  - intros l [H1 H2]. simpl in H2. assert (Hl : l = 1%nat \/ l = 2%nat) by lia. destruct Hl as [->| ->]; split; vm_compute; discriminate.
  - split; vm_compute; discriminate.
  - rewrite shares. reflexivity.
  - exists e. split; [exact H1|]. exact H2.
Defined.

(** A dns check over UDP: a datagram with another ID comes first. *)
Definition id_bytes : string := DnsProbe.be16_bytes 4660.
Definition got (n : nat) : DnsProbe.datagrams :=
  DnsProbe.mkDatagrams (mkTry 0 0 0 None false) None None ["xx192.0.2.66"; (id_bytes +:+ "192.0.2.80")%string]%string "timeout".
Definition no_stream : DnsProbe.stream := DnsProbe.mkStream quiet None "" "EOF".
Definition dns_env : DnsProbe.env :=
  DnsProbe.mkEnv lookup (inr 4660) (fun _ _ => inr ""%string) (5 * second) [] (DnsProbe.DohError "") no_stream (DnsProbe.Shaken []) got no_stream 0 false.
Definition resolver_9 : string + DnsProbe.DNSResolver := inr (DnsProbe.mkResolver DnsProbe.UDP "192.0.2.53" 53).
Definition asks_80 : DnsProbe.dns_check := DnsProbe.mkDns "www.example" "A" "" ["192.0.2.80"]%string.
Definition dns_result := Eval vm_compute in snd (DnsProbe.probeDNS dns_env resolver_9 asks_80).
Lemma dns_run : DnsProbe.probeDNS dns_env resolver_9 asks_80 = ([Dialed (mkDial "udp" "192.0.2.53:53" (Some (5 * second)))], dns_result).
Proof. vm_compute. reflexivity. Qed.
Lemma dns_pass_exact_witness : exists r q id addrs raw a, DnsProps.run_of dns_env resolver_9 asks_80 r q id addrs /\ DnsProps.received dns_env r id raw /\
  DnsProps.answers_question r q id raw a /\ DnsProps.passes q a /\ DnsProbe.r_rcode dns_result = DnsProbe.a_rcode a /\ DnsProbe.r_answers dns_result = DnsProbe.dnsReported (DnsProbe.values a).
Proof. exact (proj1 (DnsProps.dns_pass_exact dns_env resolver_9 asks_80 _ _ dns_run) eq_refl). Defined.

(** A header value that contains the user's name keeps its rest in an error
    text: the name is taken out first, and the whole value no longer matches. *)
Example scrubbed_in_pieces :
  scrubText (Some (mkTarget (Some ("alice", "alice", None)) "" None)) [("X-Api-Key", "alice-51f0c2")]%string "bad header alice-51f0c2" = "bad header [redacted]-51f0c2"%string.
Proof. vm_compute. reflexivity. Qed.
End ProbeSample.
