(* ===== verification/Keepalive.v ===== *)
(** * Loop health and supervision (cmd/lattice-agent/keepalive.go, supervise.go)

    One function per critical section of the health record, the watchdog's
    tick, the recovery before it is armed, and the health marker. *)
From S2P Require Import Prelude GoStrings GoPath GoUtf8.
From Stdlib Require Import Ascii.
From stdpp Require Import gmap strings.

Local Open Scope Z_scope.

Module Keepalive.

Definition loopStallFloor : duration := 5 * minute.
Definition agentWatchdogTimeout : duration := 2 * minute.
Definition loopErrorMaxRunes : nat := 200.
Definition stepLinechainRecovery : string := "linechain_recovery".
Definition healthMarkerName : string := "healthy".

(** ** The record *)
Record loopStepState := mkStep { LastOKAt : time; LastErrorAt : time; LastError : string; ConsecutiveErrors : Z }.
Definition newStep : loopStepState := mkStep 0 0 "" 0.
Record loopHealth := mkHealth {
  startedAt : time; workProgress : time; beatProgress : time; cycleStarted : time; cycleCompleted : time; cycleDuration : duration;
  step : string; stepSince : time; steps : gmap string loopStepState; linechainBlocked : string; linechainBlockedSince : time;
  taskBusySince : time; watchdog : bool
}.
#[export] Instance loopHealth_eta : Etable loopHealth := fun h =>
  mkHealth (startedAt h) (workProgress h) (beatProgress h) (cycleStarted h) (cycleCompleted h) (cycleDuration h)
    (step h) (stepSince h) (steps h) (linechainBlocked h) (linechainBlockedSince h) (taskBusySince h) (watchdog h).

Definition newLoopHealth (t : time) : loopHealth := mkHealth t t 0 0 0 0 "" 0 ∅ "" 0 0 false.

(** One line of an error's text: no control characters, 200 runes. *)
Definition plain_rune (p : piece) : string :=
  match p with
  | Bad _ => replacement
  | Rune s => match s with String c "" => if (byte_val c <? 32) || (byte_val c =? 127) then " "%string else s | _ => s end
  end.
Definition boundedLoopError (err : option string) : string :=
  match err with
  | None => ""
  | Some e =>
      let runes := map plain_rune (pieces (trim_space e)) in
      if (loopErrorMaxRunes <? length runes)%nat then concat_str (take loopErrorMaxRunes runes) +:+ "..." else concat_str runes
  end.

Definition cycleStart (t : time) (h : loopHealth) : loopHealth := h <| cycleStarted := t |> <| workProgress := t |>.
Definition cycleEnd (t : time) (h : loopHealth) : loopHealth :=
  let h := h <| cycleCompleted := t |> in
  let h := if is_zero_time (cycleStarted h) then h else h <| cycleDuration := time_sub t (cycleStarted h) |> in
  h <| workProgress := t |>.
Definition waiting (t : time) (h : loopHealth) : loopHealth := h <| step := ""%string |> <| stepSince := 0 |> <| workProgress := t |>.

(** A step, before and after its function runs. *)
Definition run_begin (name : string) (t : time) (h : loopHealth) : loopHealth := h <| step := name |> <| stepSince := t |> <| workProgress := t |>.
Definition record_outcome (err : option string) (t : time) (st : loopStepState) : loopStepState :=
  match err with
  | None => mkStep t (LastErrorAt st) "" 0
  | Some _ => mkStep (LastOKAt st) t (boundedLoopError err) (ConsecutiveErrors st + 1)
  end.
Definition run_end (name : string) (err : option string) (t : time) (h : loopHealth) : loopHealth :=
  let h := h <| workProgress := t |> <| step := ""%string |> <| stepSince := 0 |> in
  h <| steps ::= fun m => <[name := record_outcome err t (default newStep (m !! name))]> m |>.

Definition setLinechainBlocked (err : option string) (t : time) (h : loopHealth) : loopHealth :=
  let h := if String.eqb (linechainBlocked h) "" then h <| linechainBlockedSince := t |> else h in
  let h := h <| linechainBlocked := boundedLoopError err |> in
  if String.eqb (linechainBlocked h) "" then h <| linechainBlocked := "blocked"%string |> else h.
Definition clearLinechainBlocked (h : loopHealth) : loopHealth := h <| linechainBlocked := ""%string |> <| linechainBlockedSince := 0 |>.
Definition linechainIsBlocked (h : loopHealth) : bool := negb (String.eqb (linechainBlocked h) "").
Definition setTaskBusy (busy : bool) (t : time) (h : loopHealth) : loopHealth :=
  if busy then if is_zero_time (taskBusySince h) then h <| taskBusySince := t |> else h else h <| taskBusySince := 0 |>.
Definition beat (t : time) (h : loopHealth) : loopHealth := h <| beatProgress := t |>.
Definition setWatchdog (on : bool) (h : loopHealth) : loopHealth := h <| watchdog := on |>.

(** What a heartbeat's body takes from the record and the result queue, and the
    durable capability it advertises. *)
Record loopHealthPayload := mkPayload { p_startedAt : time; p_cycleStartedAt : time; p_cycleCompletedAt : time; p_step : string; p_stepSince : time; p_steps : gmap string loopStepState; p_blocked : string; p_blockedSince : time; p_busySince : time;
  p_watchdog : bool; p_cycleMs : Z; p_queued : Z; p_dropped : Z; p_ready : bool }.
Definition snapshot (h : loopHealth) (stats : option (Z * Z)) (LinechainReady : bool) : loopHealthPayload :=
  let (queued, dropped) := default (0, 0) stats in
  mkPayload (startedAt h) (cycleStarted h) (cycleCompleted h) (step h) (stepSince h) (steps h) (linechainBlocked h) (linechainBlockedSince h) (taskBusySince h) (watchdog h)
    (Z.quot (cycleDuration h) millisecond) queued dropped (LinechainReady && negb (linechainIsBlocked h)).

(** What happens to the record, from any goroutine. *)
Inductive event :=
  | CycleStart | CycleEnd | Waiting | RunBegin (name : string) | RunEnd (name : string) (err : option string)
  | SetBlocked (err : option string) | ClearBlocked | TaskBusy (busy : bool) | Beat | SetWatchdog (on : bool).
Definition on_event (h : loopHealth) (x : time * event) : loopHealth :=
  let (t, e) := x in
  match e with
  | CycleStart => cycleStart t h
  | CycleEnd => cycleEnd t h
  | Waiting => waiting t h
  | RunBegin name => run_begin name t h
  | RunEnd name err => run_end name err t h
  | SetBlocked err => setLinechainBlocked err t h
  | ClearBlocked => clearLinechainBlocked h
  | TaskBusy busy => setTaskBusy busy t h
  | Beat => beat t h
  | SetWatchdog on => setWatchdog on h
  end.
Definition after (t0 : time) (tr : list (time * event)) : loopHealth := foldl on_event (newLoopHealth t0) tr.

(** ** The watchdog *)
Definition truncated_seconds (d : duration) : duration := Z.quot d second * second.
Inductive stuck := WorkLoop (d : duration) (step : string) | Heartbeat (d : duration).
Definition stalled (t : time) (bound : duration) (h : loopHealth) : option stuck :=
  let d := time_sub t (workProgress h) in
  if bound <? d then Some (WorkLoop (truncated_seconds d) (step h))
  else if is_zero_time (beatProgress h) then None
  else
    let d := time_sub t (beatProgress h) in
    if bound <? d then Some (Heartbeat (truncated_seconds d)) else None.
Definition loopStallBound (interval : duration) : duration := if loopStallFloor <? i64 (3 * interval) then i64 (3 * interval) else loopStallFloor.

(** A tick: whether the keepalive is withheld from now on, and whether it is
    sent. *)
Definition watchdog_tick (t : time) (bound : duration) (h : loopHealth) (withholding : bool) : bool * bool :=
  match stalled t bound h with Some _ => (true, false) | None => (false, true) end.
(** Between the ticks the record changes. *)
Fixpoint watchdog_ticks (bound : duration) (h : loopHealth) (withholding : bool) (l : list (list (time * event) * time)) : list (time * bool) :=
  match l with
  | [] => []
  | (evs, t) :: l =>
      let h := foldl on_event h evs in
      let (withholding, sent) := watchdog_tick t bound h withholding in
      (t, sent) :: watchdog_ticks bound h withholding l
  end.
Definition runWatchdog (timeout bound : duration) (h : loopHealth) (l : list (list (time * event) * time)) : list (time * bool) :=
  if timeout <=? 0 then [] else watchdog_ticks bound (setWatchdog true h) false l.

(** WATCHDOG_USEC and WATCHDOG_PID, and the watchdog the process must keep. *)
Definition watchdogInterval (usec pid : string) (getpid : Z) : duration :=
  let usec := trim_space usec in
  if String.eqb usec "" then 0
  else
    let pid := trim_space pid in
    if negb (String.eqb pid "") && negb (String.eqb pid (itoa getpid)) then 0
    else match parse_int usec with Some n => if n <=? 0 then 0 else i64 (n * 1000) | None => 0 end.
Definition armWatchdog (interval : duration) (notify_socket : string) (notified : bool) : duration :=
  if 0 <? interval then interval
  else if String.eqb notify_socket "" then 0
  else if notified then agentWatchdogTimeout else 0.

(** ** Recovery before the watchdog *)
Record recovery_attempt := mkAttempt { a_begin : time; a_err : option string; a_end : time; a_mark : time; a_beat : time; a_wait : time }.
Record supervisor := mkSup { health : loopHealth; beating : bool; armed : bool }.
(** heartbeat.start: once, it stamps the progress first. *)
Definition beat_start (t : time) (s : supervisor) : supervisor :=
  if beating s then s else mkSup (beat t (health s)) true (armed s).
Fixpoint recoverThenSupervise (l : list recovery_attempt) (s : supervisor) : supervisor :=
  match l with
  | [] => s
  | a :: l =>
      let h := run_end stepLinechainRecovery (a_err a) (a_end a) (run_begin stepLinechainRecovery (a_begin a) (health s)) in
      match a_err a with
      | None => mkSup (clearLinechainBlocked h) (beating s) true
      | err =>
          let s := beat_start (a_beat a) (mkSup (setLinechainBlocked err (a_mark a) h) (beating s) (armed s)) in
          recoverThenSupervise l (mkSup (waiting (a_wait a) (health s)) (beating s) (armed s))
      end
  end.

(** ** The health marker *)

(** The runtime directory's files, and what each call answers. *)
Record marker_env := mkMarker { m_temp : string + string; m_write : option string; m_chmod : option string; m_close : option string; m_rename : option string; m_short : nat }.
Definition writeHealthMarker (RUNTIME_DIRECTORY agentVersion : string) (w : marker_env) (fs : gmap string string) : gmap string string * option string :=
  let dir := trim_space (match cut RUNTIME_DIRECTORY ":" with Some (d, _) => d | None => RUNTIME_DIRECTORY end) in
  if String.eqb dir "" then (fs, None)
  else if negb (path_abs dir) then (fs, Some "RUNTIME_DIRECTORY is not absolute"%string)
  else
    match m_temp w with
    | inl e => (fs, Some e)
    | inr name =>
        let whole := (agentVersion +:+ String "010" "")%string in
        match m_write w, m_chmod w, m_close w with
        | Some e, _, _ => (delete name (<[name := str_take (m_short w) whole]> fs), Some e)
        | None, Some e, _ | None, None, Some e => (delete name (<[name := whole]> fs), Some e)
        | None, None, None =>
            match m_rename w with
            | Some e => (delete name (<[name := whole]> fs), Some e)
            | None => (<[path_join dir healthMarkerName := whole]> (delete name fs), None)
            end
        end
    end.
End Keepalive.
