(* ===== verification/KeepaliveProps.v ===== *)
(** * What the health record and the watchdog promise *)
From S2P Require Import Prelude GoStrings GoPath GoUtf8 Keepalive.
From Stdlib Require Import Ascii.
From stdpp Require Import gmap strings.

Local Open Scope Z_scope.

Module KeepaliveProps.
Import Keepalive.

(** ** The trace behind the record *)

(** Events that are the work loop's progress, and the latest time of one. *)
Definition moves (e : event) : bool := match e with CycleStart | CycleEnd | Waiting | RunBegin _ | RunEnd _ _ => true | _ => false end.
Definition beats (e : event) : bool := match e with Beat => true | _ => false end.
Fixpoint latest (P : event -> bool) (t : time) (tr : list (time * event)) : time :=
  match tr with [] => t | (t', e) :: tr => latest P (if P e then t' else t) tr end.

(** A step's account: its outcomes in order. *)
Definition outcome_of (name : string) (x : time * event) : option (time * option string) :=
  match x.2 with RunEnd n err => if String.eqb n name then Some (x.1, err) else None | _ => None end.
Definition outcomes (name : string) (tr : list (time * event)) : list (time * option string) := omap (outcome_of name) tr.

(** The errors since the last success, from the latest back. *)
Fixpoint trailing (l : list (time * option string)) : Z :=
  match l with (_, Some _) :: l => 1 + trailing l | _ => 0 end.
Definition last_time (P : option string -> bool) (l : list (time * option string)) : time :=
  match List.find (fun x => P x.2) l with Some x => x.1 | None => 0 end.
Definition is_err (e : option string) : bool := match e with Some _ => true | None => false end.
(** The account of the outcomes, the latest first. *)
Definition account (l : list (time * option string)) : loopStepState :=
  mkStep (last_time (fun e => negb (is_err e)) l) (last_time is_err l)
    (match l with (_, err) :: _ => boundedLoopError err | [] => "" end) (trailing l).

Lemma latest_snoc P t tr x : latest P t (tr ++ [x]) = if P x.2 then x.1 else latest P t tr.
Proof. revert t. induction tr as [|[t' e] tr IH]; intros t; [by destruct x|]. simpl. by rewrite IH. Qed.
Lemma after_snoc t0 tr x : after t0 (tr ++ [x]) = on_event (after t0 tr) x.
Proof. unfold after. by rewrite foldl_app. Qed.

Lemma progress_exact t0 tr : workProgress (after t0 tr) = latest moves t0 tr /\ beatProgress (after t0 tr) = latest beats 0 tr.
Proof.
  induction tr as [|[t e] tr [IH1 IH2]] using rev_ind; [done|]. rewrite after_snoc, !latest_snoc. destruct e; simpl; unfold cycleEnd, setLinechainBlocked, setTaskBusy; upd; try done.
  - by destruct (is_zero_time _).
  - cbv zeta. destruct (String.eqb (linechainBlocked _) ""); upd; destruct (String.eqb _ ""); by upd.
  - destruct busy; [destruct (is_zero_time _)|]; by upd.
Qed.

Lemma outcomes_snoc name tr x : outcomes name (tr ++ [x]) = outcomes name tr ++ match outcome_of name x with Some o => [o] | None => [] end.
Proof. unfold outcomes. rewrite omap_app. simpl. by destruct (outcome_of name x). Qed.
Lemma record_account err t l : record_outcome err t (account l) = account ((t, err) :: l).
Proof. destruct err; [|done]. unfold record_outcome, account. cbn [LastOKAt ConsecutiveErrors trailing]. rewrite Z.add_comm. done. Qed.

(** The record of every step is its account: for each step the number of
    errors since its last success, the times of its last success and last
    error, and its latest error, if the latest run failed; a step that never
    ran has no entry. *)
Theorem step_account_exact t0 tr name : steps (after t0 tr) !! name =
  match rev (outcomes name tr) with [] => None | l => Some (account l) end.
Proof.
  induction tr as [|[t e] tr IH] using rev_ind; [done|]. rewrite after_snoc, outcomes_snoc, rev_app_distr.
  assert (Hsame : steps (on_event (after t0 tr) (t, e)) !! name = steps (after t0 tr) !! name -> outcome_of name (t, e) = None ->
    steps (on_event (after t0 tr) (t, e)) !! name = match rev match outcome_of name (t, e) with Some o => [o] | None => [] end ++ rev (outcomes name tr) with [] => None | l => Some (account l) end).
  { intros -> ->. exact IH. }
  destruct e as [| | |n|n err|err| |busy| |on]; try (apply Hsame; done).
  - apply Hsame; [|done]. simpl. unfold cycleEnd. upd. by destruct (is_zero_time _).
  - unfold outcome_of. cbn [snd fst]. cbn [on_event]. unfold run_end. upd. destruct (String.eqb_spec n name) as [->|Hne].
    + rewrite lookup_insert_eq. cbn [rev app]. rewrite <-record_account. f_equal. f_equal. rewrite IH. by destruct (rev (outcomes name tr)).
    + rewrite lookup_insert_ne by done. exact IH.
  - apply Hsame; [|done]. simpl. unfold setLinechainBlocked. cbv zeta. destruct (String.eqb (linechainBlocked _) ""); upd; destruct (String.eqb _ ""); by upd.
  - apply Hsame; [|done]. simpl. unfold setTaskBusy. destruct busy; [destruct (is_zero_time _)|]; by upd.
Qed.

(** ** The watchdog *)
Lemma ticks_at bound h w l i evs t : l !! i = Some (evs, t) ->
  watchdog_ticks bound h w l !! i = Some (t, match stalled t bound (foldl on_event h (concat (map fst (take i l)) ++ evs)) with Some _ => false | None => true end).
Proof.
  revert h w i. induction l as [|[evs' t'] l IH]; intros h w i Hi; [done|]. destruct i as [|i].
  - injection Hi as -> ->. simpl. unfold watchdog_tick. by destruct (stalled _ _ _).
  - simpl. destruct (watchdog_tick _ _ _ _) as [w' sent]. simpl. rewrite (IH _ _ _ Hi). by rewrite <-app_assoc, !foldl_app.
Qed.
Lemma stalled_exact t bound t0 tr : Forall (fun x => 0 < x.1) tr ->
  stalled t bound (after t0 tr) = None <->
  time_sub t (latest moves t0 tr) <= bound /\ (Exists (fun x => beats x.2 = true) tr -> time_sub t (latest beats 0 tr) <= bound).
Proof.
  intros Hpos. unfold stalled. destruct (progress_exact t0 tr) as [-> ->]. cbv zeta. destruct (Z.ltb_spec bound (time_sub t (latest moves t0 tr))); [split; [done|lia]|].
  assert (Hb : (latest beats 0 tr = 0 /\ ~ Exists (fun x => beats x.2 = true) tr) \/ 0 < latest beats 0 tr /\ Exists (fun x => beats x.2 = true) tr).
  { clear -Hpos. induction tr as [|[t e] tr IH] using rev_ind; [left; split; [done|by intros ?%Exists_nil]|]. rewrite latest_snoc. apply Forall_app in Hpos as [Hp [Hx _]%Forall_cons].
    cbn [fst snd] in *. destruct (beats e) eqn:Hbe; [right; split; [exact Hx|apply Exists_app; right; by constructor]|]. destruct (IH Hp) as [[H1 H2]|[H1 H2]]; [left|right; split; [done|apply Exists_app; by left]].
    split; [done|]. intros [?|He]%Exists_app; [done|]. inversion He as [? ? Hz|? ? Hz]; subst; [simpl in Hz; congruence|by apply Exists_nil in Hz]. }
  unfold is_zero_time. destruct Hb as [[-> Hn]|[Hp He]]; [split; [intros _; split; [done|by intros ?]|done]|].
  destruct (Z.eqb_spec (latest beats 0 tr) 0); [lia|]. destruct (Z.ltb_spec bound (time_sub t (latest beats 0 tr))); split; try done. intros [_ Hx]. specialize (Hx He). lia.
Qed.

(** The watchdog's own mark does not change what it judges. *)
Lemma mark_same_progress t bound evs h1 h2 : workProgress h1 = workProgress h2 -> beatProgress h1 = beatProgress h2 -> step h1 = step h2 ->
  stalled t bound (foldl on_event h1 evs) = stalled t bound (foldl on_event h2 evs).
Proof.
  revert h1 h2. induction evs as [|[t' e] evs IH]; intros h1 h2 H1 H2 H3; [simpl; unfold stalled; by rewrite H1, H2, H3|]. simpl.
  apply IH; destruct e; simpl; unfold cycleEnd, setLinechainBlocked, setTaskBusy; cbv zeta; repeat case_match; upd; done.
Qed.

(** C32: The keepalive stops exactly for a stuck loop: at each of its ticks the
    watchdog sends systemd's keepalive if the work loop has started, ended or
    waited at something within the bound and the heartbeat, once one was sent
    or started, has ended one within the bound; otherwise it withholds it.
    What the steps and beats return plays no part, so a control plane that
    cannot be reached never lets the agent be killed. *)
Theorem keepalive_withheld_exactly timeout bound t0 before l i evs t : 0 < timeout -> Forall (fun x => 0 < x.1) (before ++ concat (map fst l)) -> l !! i = Some (evs, t) ->
  let tr := before ++ concat (map fst (take i l)) ++ evs in
  exists sent, runWatchdog timeout bound (after t0 before) l !! i = Some (t, sent) /\
    (sent = true <-> time_sub t (latest moves t0 tr) <= bound /\ (Exists (fun x => beats x.2 = true) tr -> time_sub t (latest beats 0 tr) <= bound)).
Proof.
  intros Ht Hpos Hi tr. unfold runWatchdog. destruct (Z.leb_spec timeout 0); [lia|]. rewrite (ticks_at _ _ _ _ _ _ _ Hi). eexists. split; [done|].
  assert (Hs : stalled t bound (foldl on_event (setWatchdog true (after t0 before)) (concat (map fst (take i l)) ++ evs)) = stalled t bound (after t0 tr)).
  { rewrite (mark_same_progress _ _ _ _ (after t0 before)) by done. unfold after, tr. by rewrite (foldl_app _ before). }
  rewrite Hs. assert (Htr : Forall (fun x => 0 < x.1) tr).
  { apply Forall_app in Hpos as [Hp1 Hp2]. unfold tr. apply Forall_app. split; [done|]. rewrite <-(take_drop_middle l i _ Hi) in Hp2. rewrite map_app, concat_app in Hp2. simpl in Hp2.
    apply Forall_app in Hp2 as [Hp2 Hp3]. apply Forall_app in Hp3 as [Hp3 _]. by apply Forall_app. }
  rewrite <-(stalled_exact t bound t0 tr Htr). by destruct (stalled t bound (after t0 tr)).
Qed.

(** ** Recovery before the watchdog *)
Definition shown_reason (err : option string) : string := if String.eqb (boundedLoopError err) "" then "blocked" else boundedLoopError err.
Lemma shown_reason_set err : shown_reason err <> ""%string.
Proof. unfold shown_reason. by destruct (String.eqb_spec (boundedLoopError err) ""). Qed.
Definition blocked_run (l : list recovery_attempt) : Prop := Forall (fun a => is_err (a_err a) = true) l.

(** The state after [n] failed attempts, the first of which was [a], the last
    [z]. *)
Record blocked_state (a z : recovery_attempt) (n : Z) (s : supervisor) : Prop := {
  b_armed : armed s = false;
  b_beating : beating s = true;
  b_since : linechainBlockedSince (health s) = a_mark a;
  b_reason : linechainBlocked (health s) = shown_reason (a_err z);
  b_beat : beatProgress (health s) = a_beat a;
  b_count : exists st, steps (health s) !! stepLinechainRecovery = Some st /\ ConsecutiveErrors st = n
}.
Lemma set_blocked err t h : let h' := setLinechainBlocked err t h in
  linechainBlocked h' = shown_reason err /\ linechainBlockedSince h' = (if String.eqb (linechainBlocked h) "" then t else linechainBlockedSince h) /\
  steps h' = steps h /\ beatProgress h' = beatProgress h.
Proof.
  unfold setLinechainBlocked, shown_reason. cbv zeta. destruct (String.eqb (linechainBlocked h) ""); upd; destruct (String.eqb (boundedLoopError err) "") eqn:He; upd; done.
Qed.
(** One failed attempt, from any state. *)
Lemma failed_attempt x s : is_err (a_err x) = true -> exists s', (forall l, recoverThenSupervise (x :: l) s = recoverThenSupervise l s') /\
  armed s' = armed s /\ beating s' = true /\ linechainBlocked (health s') = shown_reason (a_err x) /\
  linechainBlockedSince (health s') = (if String.eqb (linechainBlocked (health s)) "" then a_mark x else linechainBlockedSince (health s)) /\
  beatProgress (health s') = (if beating s then beatProgress (health s) else a_beat x) /\
  exists st, steps (health s') !! stepLinechainRecovery = Some st /\
    ConsecutiveErrors st = ConsecutiveErrors (default newStep (steps (health s) !! stepLinechainRecovery)) + 1.
Proof.
  intros Hx. destruct (a_err x) as [e|] eqn:He; [|done]. eexists. split; [intros l; cbn [recoverThenSupervise]; rewrite He; reflexivity|].
  set (h := run_end _ _ _ _). destruct (set_blocked (Some e) (a_mark x) h) as (S1 & S2 & S3 & S4). set (h' := setLinechainBlocked _ _ h) in *.
  assert (Hst : steps h' !! stepLinechainRecovery = Some (record_outcome (Some e) (a_end x) (default newStep (steps (health s) !! stepLinechainRecovery)))).
  { rewrite S3. unfold h, run_end. upd. by rewrite lookup_insert_eq. }
  unfold beat_start. cbn [beating]. destruct (beating s); cbn [armed beating health]; unfold waiting, beat; upd; (split_and!; try done; eexists; split; [exact Hst|done]).
Qed.
Lemma blocked_step a z n s x : blocked_state a z n s -> is_err (a_err x) = true ->
  exists s', blocked_state a x (n + 1) s' /\ forall l, recoverThenSupervise (x :: l) s = recoverThenSupervise l s'.
Proof.
  intros [B1 B2 B3 B4 B5 (st & B6 & B7)] Hx. destruct (failed_attempt x s Hx) as (s' & Hgo & F1 & F2 & F3 & F4 & F5 & st' & F6 & F7). exists s'. split; [|done].
  rewrite B2 in F5. rewrite B4, (proj2 (String.eqb_neq _ _) (shown_reason_set _)) in F4. rewrite B6 in F7. simpl in F7. split; try congruence. exists st'. split; [done|]. by rewrite F7, B7.
Qed.
Lemma blocked_first t0 x : is_err (a_err x) = true ->
  exists s', blocked_state x x 1 s' /\ forall l, recoverThenSupervise (x :: l) (mkSup (newLoopHealth t0) false false) = recoverThenSupervise l s'.
Proof.
  intros Hx. destruct (failed_attempt x (mkSup (newLoopHealth t0) false false) Hx) as (s' & Hgo & F1 & F2 & F3 & F4 & F5 & st' & F6 & F7). exists s'. split; [|done].
  split; try done. by exists st'.
Qed.
Lemma blocked_all a z n s l : blocked_state a z n s -> blocked_run l -> exists s', blocked_state a (default z (last l)) (n + zlen l) s' /\
  forall k, recoverThenSupervise (l ++ k) s = recoverThenSupervise k s'.
Proof.
  revert z n s. induction l as [|x l IH]; intros z n s Hs Hl; [exists s; simpl; rewrite Z.add_0_r; done|]. apply Forall_cons in Hl as [Hx Hl].
  destruct (blocked_step _ _ _ _ x Hs Hx) as (s1 & H1 & Hgo). destruct (IH _ _ _ H1 Hl) as (s2 & H2 & Hgo2). exists s2. rewrite zlen_cons. split.
  - replace (n + (1 + zlen l)) with (n + 1 + zlen l) by lia. rewrite last_cons. by destruct (last l).
  - intros k. simpl app. by rewrite Hgo.
Qed.

(** C33: The watchdog is armed only after recovery succeeded, so no recovery,
    however long, is killed by it: while every attempt fails the agent is
    unarmed, its heartbeat runs from the first failure on, advertises no
    durable capability and says since when and, by the latest error, why it
    is blocked, with the attempts counted; the first success clears that and
    arms it, and no attempt follows. *)
Theorem armed_after_recovery t0 a l : blocked_run (a :: l) ->
  let s0 := mkSup (newLoopHealth t0) false false in
  (let s := recoverThenSupervise (a :: l) s0 in
   blocked_state a (default a (last l)) (1 + zlen l) s /\ forall stats ready, p_ready (snapshot (health s) stats ready) = false) /\
  (forall x rest, a_err x = None -> exists h, recoverThenSupervise (a :: l ++ x :: rest) s0 = mkSup h true true /\
     linechainIsBlocked h = false /\ workProgress h = a_end x /\ beatProgress h = a_beat a /\
     exists st, steps h !! stepLinechainRecovery = Some st /\ ConsecutiveErrors st = 0 /\ LastOKAt st = a_end x).
Proof.
  intros [Ha Hl]%Forall_cons s0. destruct (blocked_first t0 a Ha) as (s1 & H1 & Hgo). destruct (blocked_all _ _ _ _ l H1 Hl) as (s2 & H2 & Hgo2). split.
  - assert (Hs : recoverThenSupervise (a :: l) s0 = s2) by (unfold s0; rewrite Hgo; specialize (Hgo2 []); by rewrite app_nil_r in Hgo2). rewrite Hs. split; [done|].
    intros stats ready. unfold snapshot. destruct (default (0, 0) stats) as [q d]. simpl. unfold linechainIsBlocked. rewrite (b_reason _ _ _ _ H2).
    rewrite (proj2 (String.eqb_neq _ _) (shown_reason_set _)). by rewrite andb_false_r.
  - intros x rest Hx. unfold s0. rewrite Hgo, Hgo2. cbn [recoverThenSupervise]. rewrite Hx. eexists. split; [by rewrite (b_beating _ _ _ _ H2)|].
    unfold clearLinechainBlocked, run_end, linechainIsBlocked. upd. split_and!; try done; [apply (b_beat _ _ _ _ H2)|]. eexists. split; [by rewrite lookup_insert_eq|]. done.
Qed.

(** ** The health marker *)

(** The marker is only ever the whole line of the version: a call either
    leaves every file but its own temporary one as it was, with an error unless
    there is no runtime directory, or makes the marker, and no temporary file
    is left. *)
Theorem marker_whole dir version w fs fs' err name : writeHealthMarker dir version w fs = (fs', err) -> m_temp w = inr name -> fs !! name = None ->
  fs' = fs \/ (err = None /\ exists d, fs' = <[path_join d healthMarkerName := (version +:+ String "010" "")%string]> fs).
Proof.
  unfold writeHealthMarker. cbv zeta. intros Hw Ht Hn. rewrite Ht in Hw. destruct (String.eqb _ ""); [left; by injection Hw as <- _|]. destruct (negb _); [left; by injection Hw as <- _|].
  assert (Hdel : forall x, delete name (<[name := x]> fs) = fs) by (intros x; by rewrite delete_insert_eq, delete_id).
  destruct (m_write w); [injection Hw as <- _; left; apply Hdel|]. destruct (m_chmod w); [injection Hw as <- _; left; apply Hdel|]. destruct (m_close w); [injection Hw as <- _; left; apply Hdel|].
  destruct (m_rename w); [injection Hw as <- _; left; apply Hdel|]. injection Hw as <- <-. right. split; [done|]. eexists. by rewrite delete_id.
Qed.
End KeepaliveProps.

(** * Supervision on concrete traces *)
From S2P Require Import Prelude GoStrings GoUtf8 Keepalive.
From Stdlib Require Import Ascii.
From stdpp Require Import gmap strings.

Local Open Scope Z_scope.

Module KeepaliveSample.
Import Keepalive KeepaliveProps.

Definition at_ (s : Z) (e : event) : time * event := (s * second, e).
(** Hello fails at once for an hour of cycles; then a step hangs. *)
Definition before : list (time * event) := [at_ 2 CycleStart; at_ 2 (RunBegin "hello"); at_ 2 Beat].
Definition ticks : list (list (time * event) * time) :=
  [([at_ 32 (RunEnd "hello" (Some "no route"%string)); at_ 33 Waiting; at_ 40 Beat], 60 * second);
   ([at_ 70 CycleStart; at_ 70 (RunBegin "config")], 120 * second);
   ([at_ 360 Beat], 371 * second)].
Definition sends := runWatchdog (120 * second) loopStallFloor (after (1 * second) before) ticks.
Example two_sent : map snd sends = [true; true; false].
Proof. vm_compute. reflexivity. Qed.
Example hello_account : match steps (after second (before ++ concat (map fst ticks))) !! "hello"%string with
  | Some st => ConsecutiveErrors st = 1 /\ LastError st = "no route"%string | None => False end.
Proof. vm_compute. tauto. Qed.

Lemma times_positive : Forall (fun x : time * event => 0 < x.1) (before ++ concat (map fst ticks)).
Proof. repeat constructor. Qed.
Lemma keepalive_withheld_exactly_witness : exists sent, sends !! 2%nat = Some (371 * second, sent) /\ sent <> true.
Proof.
  destruct (keepalive_withheld_exactly (120 * second) loopStallFloor (1 * second) before ticks 2 _ _ eq_refl times_positive eq_refl) as (sent & H1 & H2).
  exists sent. split; [exact H1|]. intros Hs. destruct (proj1 H2 Hs) as [H3 _]. vm_compute in H3. exact (H3 eq_refl).
Defined.

(** Two failed recoveries, then one that succeeds after ten minutes. *)
Definition fails (s : Z) (e : string) : recovery_attempt := mkAttempt (s * second) (Some e) ((s + 1) * second) ((s + 1) * second) ((s + 1) * second) ((s + 2) * second).
Definition succeeds : recovery_attempt := mkAttempt (20 * second) None (620 * second) 0 0 0.
Lemma two_failed : blocked_run [fails 1 "sing-box is starting"; fails 11 "journal is locked"].
Proof. repeat constructor. Qed.
Lemma armed_after_recovery_witness : exists h,
  recoverThenSupervise [fails 1 "sing-box is starting"; fails 11 "journal is locked"; succeeds] (mkSup (newLoopHealth second) false false) = mkSup h true true /\
  linechainIsBlocked h = false /\ workProgress h = 620 * second.
Proof.
  destruct (proj2 (armed_after_recovery second (fails 1 "sing-box is starting") [fails 11 "journal is locked"] two_failed) succeeds [] eq_refl) as (h & H1 & H2 & H3 & _).
  exists h. split; [exact H1|]. split; [exact H2|exact H3].
Defined.

(** Where no runtime directory is granted nothing is written. *)
Example no_directory : writeHealthMarker " " "0.3.10" (mkMarker (inl ""%string) None None None None 0) ∅ = (∅, None).
Proof. vm_compute. reflexivity. Qed.
End KeepaliveSample.
