(* ===== verification/TaskExec.v ===== *)
(** * The task executor (internal/taskexec)

    The gates before a script runs, its command, environment and cgroup, the
    shim that hardens it, and the result.  What the operating system answers is
    an argument. *)
From S2P Require Import Prelude GoStrings GoPath GoSha256.
From Stdlib Require Import Ascii.

Local Open Scope Z_scope.

Module TaskExec.

Definition allowedInterpreters (name : string) : option string :=
  if String.eqb name "sh" then Some "/bin/sh"%string
  else if String.eqb name "bash" then Some "/bin/bash"%string
  else if String.eqb name "python3" then Some "python3"%string
  else if String.eqb name "node" then Some "node"%string
  else None.
Definition interpreter_names : list string := ["bash"; "node"; "python3"; "sh"]%string.
Definition MissingInterpreters (LookPath : string -> option string) : list string :=
  List.filter (fun n => match allowedInterpreters n with Some t => bool_decide (LookPath t = None) | None => false end) interpreter_names.

Definition maxFileSizeBytes : Z := 256 * 1024 * 1024.
Definition maxProcessHeadroom : Z := 64.
Definition maxAddressSpaceBytes : Z := 8 * 1024 * 1024 * 1024.
Definition maxDataBytes : Z := 512 * 1024 * 1024.
Definition cpuGraceSeconds : Z := 5.
Definition DefaultCgroupMemoryMax : string := "536870912".
Definition DefaultCgroupPidsMax : string := "64".
Definition DefaultCgroupCPUMax : string := "100000 100000".
Definition maxTaskTimeout : duration := 10 * minute.
Definition defaultTaskTimeout : duration := 30 * second.

(** ** The cgroup's configuration *)
Record CgroupConfig := mkCgroup { Root : string; MemoryMax : string; PidsMax : string; CPUMax : string }.
Definition enabled (c : CgroupConfig) : bool := negb (String.eqb (trim_space (Root c)) "").
Definition or_default (s d : string) : string := if String.eqb s "" then d else s.
Definition normalized (c : CgroupConfig) : CgroupConfig :=
  let c := mkCgroup (trim_space (Root c)) (trim_space (MemoryMax c)) (trim_space (PidsMax c)) (trim_space (CPUMax c)) in
  if enabled c then
    mkCgroup (Root c) (or_default (MemoryMax c) DefaultCgroupMemoryMax) (or_default (PidsMax c) DefaultCgroupPidsMax) (or_default (CPUMax c) DefaultCgroupCPUMax)
  else c.
(** A limit that is set and not "max". *)
Definition capped (s : string) : bool := negb (String.eqb s "") && negb (String.eqb s "max").
Definition cgroupFeatureNames (c : CgroupConfig) : list string :=
  let c := normalized c in
  (["cgroup-v2-fail-closed"%string] ++ (if capped (MemoryMax c) then ["cgroup-v2-memory-max"%string] else []) ++
   (if capped (PidsMax c) then ["cgroup-v2-pids-max"%string] else []) ++ (if capped (CPUMax c) then ["cgroup-v2-cpu-max"%string] else []))%list.
Definition requiredCgroupControllers (c : CgroupConfig) : list string :=
  let c := normalized c in
  ((if capped (CPUMax c) then ["cpu"%string] else []) ++ (if capped (MemoryMax c) then ["memory"%string] else []) ++
   (if capped (PidsMax c) then ["pids"%string] else []))%list.

(** ** The posture the agent reports *)
Record SandboxReport := mkReport { Level : string; Features : list string; Warning : string }.
Definition SandboxProfileWithOptions (linux allowExec allowRoot : bool) (effectiveUID : Z) (cgroup : CgroupConfig) (WorkdirRoot : string) : SandboxReport :=
  if negb allowExec then mkReport "disabled" ["exec-kill-switch"%string] ""
  else if (effectiveUID =? 0) && negb allowRoot then
    mkReport "root-refused" ["root-exec-guard"%string] "agent runs as root but task execution is refused until -allow-root-exec is set"
  else
    let features := (["interpreter-allowlist"; "minimal-env"; "output-cap"; "task-local-tmpdir"; "temp-workdir"; "timeout"]%string ++
      (if String.eqb (trim_space WorkdirRoot) "" then [] else ["configured-work-root"%string]) ++
      (if effectiveUID =? 0 then [] else ["non-root-agent"%string]))%list in
    let '(level, features, warning) :=
      if linux then
        let features := (features ++ ["no-new-privileges"; "private-umask"; "process-group-kill"; "rlimit-as"; "rlimit-cpu"; "rlimit-data"; "rlimit-fsize"; "rlimit-nproc"]%string)%list in
        if enabled cgroup then ("linux-rlimit-process-group-cgroupv2", (features ++ cgroupFeatureNames cgroup)%list, "")%string
        else ("linux-rlimit-process-group", features, "")%string
      else
        ("basic", features, "non-linux task execution lacks Linux rlimit/process-group hardening" +:+
           (if enabled cgroup then "; configured task cgroups are Linux-only" else ""))%string in
    let warning := if (effectiveUID =? 0) && allowRoot then
                     if String.eqb warning "" then "task scripts run as root"%string else (warning +:+ "; task scripts run as root")%string
                   else warning in
    mkReport level (sort_strings features) warning.

(** A duration is an int64: a large number of seconds wraps around. *)
Definition resolveTaskTimeout (sec : Z) : duration :=
  let timeout := i64 (sec * second) in
  if timeout <=? 0 then defaultTaskTimeout else if maxTaskTimeout <? timeout then maxTaskTimeout else timeout.

(** ** The shim *)
Definition shimSentinel : string := "__lattice_taskexec_rlimit_shim__".

(** The arguments after the agent's own binary. *)
Definition buildHardenedCmd (interp scriptPath : string) (timeout : duration) (cgroupPath : string) : list string :=
  let cpuSecs := u64 (u64 (Z.quot timeout second) + cpuGraceSeconds) in
  let cpuSecs := if cpuSecs <? cpuGraceSeconds then cpuGraceSeconds else cpuSecs in
  ([shimSentinel; utoa cpuSecs] ++ (if String.eqb cgroupPath "" then [] else [cgroupPath]) ++ [interp; scriptPath])%list.

Inductive resource := RLIMIT_CPU | RLIMIT_FSIZE | RLIMIT_NPROC | RLIMIT_AS | RLIMIT_DATA.
Definition nprocLimit (current : option Z) : Z :=
  match current with
  | None | Some 0 => maxProcessHeadroom
  | Some n => if 2 ^ 64 - 1 - maxProcessHeadroom <? n then 2 ^ 64 - 1 else n + maxProcessHeadroom
  end.
Definition applyResourceLimits (cpuSecs : Z) (current : option Z) : list (resource * Z * Z) :=
  [(RLIMIT_CPU, cpuSecs, u64 (cpuSecs + 1)); (RLIMIT_FSIZE, maxFileSizeBytes, maxFileSizeBytes);
   (RLIMIT_NPROC, nprocLimit current, nprocLimit current); (RLIMIT_AS, maxAddressSpaceBytes, maxAddressSpaceBytes);
   (RLIMIT_DATA, maxDataBytes, maxDataBytes)].

(** What the shim does (joinTaskCgroup leaves a blank path alone) before it becomes the interpreter, in order. *)
Inductive shim_act := SetLimit (l : resource * Z * Z) | NoNewPrivs | JoinCgroup (path : string) | Umask077 | Exec (interp script : string).
Inductive shim_end := NotShim | Exit (code : Z) | Execed.
Record shim_env := mkShim { s_threads : option Z; s_noNewPrivs : bool; s_join : bool; s_exec : bool }.
Definition MaybeRunChildShim (w : shim_env) (argv : list string) : list shim_act * shim_end :=
  match argv with
  | _ :: sentinel :: args =>
      if negb (String.eqb sentinel shimSentinel) then ([], NotShim)
      else
        match args with
        | cpu :: rest =>
            match (match rest with
                   | [interp; script] => Some (""%string, interp, script)
                   | [cg; interp; script] => Some (cg, interp, script)
                   | _ => None
                   end) with
            | None => ([], Exit 2)
            | Some (cgroupPath, interp, script) =>
                match parse_uint 64 cpu with
                | None => ([], Exit 2)
                | Some cpuSecs =>
                    let acts := map SetLimit (applyResourceLimits cpuSecs (s_threads w)) in
                    if negb (s_noNewPrivs w) then (acts, Exit 126)
                    else
                      let acts := acts ++ [NoNewPrivs] in
                      let join := negb (String.eqb cgroupPath "") && negb (String.eqb (trim_space cgroupPath) "") in
                      if join && negb (s_join w) then (acts, Exit 126)
                      else
                        let acts := acts ++ (if join then [JoinCgroup (trim_space cgroupPath)] else []) ++ [Umask077] in
                        if s_exec w then (acts ++ [Exec interp script], Execed) else (acts, Exit 126)
                end
            end
        | [] => ([], Exit 2)
        end
  | _ => ([], NotShim)
  end.

(** ** The cgroup of a task *)
Definition safe_byte (p : ascii) : bool :=
  let b := byte_val p in
  ((97 <=? b) && (b <=? 122)) || ((65 <=? b) && (b <=? 90)) || ((48 <=? b) && (b <=? 57)) || (b =? 95) || (b =? 45) || (b =? 46).
(** One byte per rune; [runes] are the runes of the id, None for one that is
    not a single byte. *)
Fixpoint safe_runes (n : nat) (runes : list (option ascii)) : string :=
  match n, runes with
  | S n, Some c :: l => String (if safe_byte c then c else "_"%char) (safe_runes n l)
  | S n, None :: l => String "_" (safe_runes n l)
  | _, _ => ""
  end.
Definition safeCgroupName (runes_of : string -> list (option ascii)) (taskID : string) : string :=
  let taskID := trim_space taskID in
  if String.eqb taskID "" then "unknown"%string
  else
    let s := safe_runes 64 (runes_of taskID) in
    if String.eqb s "" then "unknown"%string else s.

(** strconv.FormatInt in base 36. *)
Definition digit36 (d : Z) : ascii := byte_of (if d <? 10 then 48 + d else 87 + d).
Fixpoint base36_fuel (fuel : nat) (n : Z) (acc : string) : string :=
  match fuel with
  | O => acc
  | S fuel => let acc := String (digit36 (n mod 36)) acc in if n <? 36 then acc else base36_fuel fuel (n / 36) acc
  end.
Definition base36 (n : Z) : string :=
  if n <? 0 then String "-" (base36_fuel (S (Z.to_nat (Z.log2 (- n)))) (- n) "") else base36_fuel (S (Z.to_nat (Z.log2 n))) n "".

(** What the kernel answers; [cg_self] is the content of /proc/self/cgroup. *)
Record cgroup_env := mkCgEnv {
  cg_self : string + string;
  cg_mkdirAll : option string; cg_controllers : string + string; cg_stat : option string; cg_enable : option string;
  cg_nanos : Z; cg_mkdir : option string; cg_write : string -> option string; cg_runes : string -> list (option ascii)
}.
Definition selfCgroupPath (w : cgroup_env) : string + string :=
  match cg_self w with
  | inl e => inl ("read /proc/self/cgroup: " +:+ e)%string
  | inr data =>
      match List.find (fun line => has_prefix line "0::") (split_byte "010" "" data) with
      | Some line => let path := trim_space (trim_prefix line "0::") in inr (if String.eqb path "" then "/"%string else path)
      | None => inl "cgroup v2 unified hierarchy not found in /proc/self/cgroup"%string
      end
  end.
Definition resolveCgroupRoot (w : cgroup_env) (root : string) : string + string :=
  let root := trim_space root in
  if String.eqb root "" then inl "task cgroup root is empty"%string
  else if negb (String.eqb root "auto") then
    if path_abs root then inr (path_clean root) else inl "task cgroup root must be absolute or auto"%string
  else
    match selfCgroupPath w with
    | inl e => inl e
    | inr self => inr (path_join (path_join "/sys/fs/cgroup" (trim_prefix (path_clean self) "/")) "lattice-tasks")
    end.
Definition ensureCgroupV2Root (w : cgroup_env) (root : string) (c : CgroupConfig) : option string :=
  let required := requiredCgroupControllers c in
  match cg_controllers w with
  | inl e => Some e
  | inr data =>
      match required with
      | [] => None
      | _ =>
          match List.find (fun x => negb (bool_decide (x ∈ fields data))) required with
          | Some x => Some ("task cgroup root " +:+ root +:+ " does not expose " +:+ x +:+ " controller")%string
          | None => match cg_stat w with Some e => Some e | None => cg_enable w end
          end
      end
  end.
(** The control files written, and an error. *)
Definition writeCgroupControl (w : cgroup_env) (file value : string) : list (string * string) * option string :=
  let value := trim_space value in
  if String.eqb value "" then ([], None)
  else match cg_write w file with Some e => ([], Some ("write task cgroup " +:+ file +:+ ": " +:+ e)%string) | None => ([(file, value)], None) end.
Definition configureTaskCgroup (w : cgroup_env) (c : CgroupConfig) : list (string * string) * option string :=
  match writeCgroupControl w "memory.max" (MemoryMax c) with
  | (l, Some e) => (l, Some e)
  | (l1, None) =>
      match writeCgroupControl w "pids.max" (PidsMax c) with
      | (l2, Some e) => (l1 ++ l2, Some e)
      | (l2, None) => let (l3, e) := writeCgroupControl w "cpu.max" (CPUMax c) in (l1 ++ l2 ++ l3, e)
      end
  end.

(** ** A run *)
Record Runner := mkRunner { AllowExec : bool; AllowRoot : bool; Cgroup : CgroupConfig; WorkdirRoot : string; AgentBinary : string;
  LinechainTxnDir : string; LinechainConfigDir : string; LinechainSidecarPath : string }.
Record Task := mkTask { ID : string; LeaseID : string; Interpreter : string; Script : string; TimeoutSec : Z; OutputLimit : Z }.
Record cmd := mkCmd { c_args : list string; c_dir : string; c_env : list string }.
(** What a run leaves and takes on the host. *)
Inductive act := MadeDir (dir : string) | RemovedDir (dir : string) | MadeCgroup (path : string) (controls : list (string * string)) | RemovedCgroup (path : string) | Started (c : cmd).

(** How the child ends: Wait returns first, the run's context ends first and
    Wait returns after the group is killed, or it does not return, because a
    process outside the group still holds the output pipe. *)
Inductive wait_error := ExitError (code : Z) (text : string) | WaitError (text : string).
Inductive child_end := Exited (e : option wait_error) | Killed (parent : option string) (ctx : string) | Stuck.
Record world := mkWorld {
  euid : Z; LookPath : string -> option string;
  w_mkdirAll : option string; w_stat : string + bool * Z; w_mkdirTemp : string -> string + string; w_chmod : option string; w_write : option string;
  w_cgroup : cgroup_env; w_start : option string; w_end : child_end; w_stdout : list string; w_stderr : list string
}.

Definition prepareTaskWorkdirRoot (w : world) (root : string) : string + string :=
  let root := trim_space root in
  if String.eqb root "" then inr ""%string
  else if negb (path_abs root) then inl ("task work root must be absolute: " +:+ root)%string
  else
    match w_mkdirAll w with
    | Some e => inl ("prepare task work root " +:+ root +:+ ": " +:+ e)%string
    | None =>
        match w_stat w with
        | inl e => inl ("stat task work root " +:+ root +:+ ": " +:+ e)%string
        | inr (isDir, mode) =>
            if negb isDir then inl ("task work root " +:+ root +:+ " is not a directory")%string
            else if negb (Z.land mode 18 =? 0) then inl ("task work root " +:+ root +:+ " must not be group/world writable")%string
            else inr root
        end
    end.
Definition createTaskWorkdir (w : world) (root : string) : list act * (string + string) :=
  match prepareTaskWorkdirRoot w root with
  | inl e => ([], inl e)
  | inr base =>
      match w_mkdirTemp w base with
      | inl e => ([], inl ("create task workdir: " +:+ e)%string)
      | inr dir =>
          match w_chmod w with
          | Some e => ([MadeDir dir; RemovedDir dir], inl ("secure task workdir " +:+ dir +:+ ": " +:+ e)%string)
          | None => ([MadeDir dir], inr dir)
          end
      end
  end.
Definition prepareTaskCgroup (w : cgroup_env) (config : CgroupConfig) (taskID : string) : list act * (string + string) :=
  let config := normalized config in
  if negb (enabled config) then ([], inr ""%string)
  else
    match resolveCgroupRoot w (Root config) with
    | inl e => ([], inl e)
    | inr root =>
        match cg_mkdirAll w with
        | Some e => ([], inl ("prepare task cgroup root " +:+ root +:+ ": " +:+ e)%string)
        | None =>
            match ensureCgroupV2Root w root config with
            | Some e => ([], inl e)
            | None =>
                let path := path_join root ("task-" +:+ safeCgroupName (cg_runes w) taskID +:+ "-" +:+ base36 (cg_nanos w)) in
                match cg_mkdir w with
                | Some e => ([], inl ("create task cgroup " +:+ path +:+ ": " +:+ e)%string)
                | None =>
                    let (controls, err) := configureTaskCgroup w config in
                    match err with
                    | Some e => ([MadeCgroup path controls; RemovedCgroup path], inl e)
                    | None => ([MadeCgroup path controls], inr path)
                    end
                end
            end
        end
    end.

(** The environment of a task: nothing of the agent's own. *)
Definition task_env (r : Runner) (t : Task) (dir : string) (trustedLinechain : bool) : list string :=
  (["PATH=/usr/bin:/bin:/usr/local/bin"; "HOME=" +:+ dir; "TMPDIR=" +:+ dir; "XDG_RUNTIME_DIR=" +:+ dir; "LATTICE_TASK_ID=" +:+ ID t; "LATTICE_TASK_LEASE_ID=" +:+ LeaseID t]%string ++
   (if path_abs (AgentBinary r) then ["LATTICE_AGENT_BIN=" +:+ AgentBinary r]%string else []) ++
   (if trustedLinechain && path_abs (LinechainTxnDir r) then ["LATTICE_LINECHAIN_TXN_DIR=" +:+ LinechainTxnDir r]%string else []) ++
   (if trustedLinechain && path_abs (LinechainConfigDir r) && path_abs (LinechainSidecarPath r) then
      ["LATTICE_LINECHAIN_CONFIG_DIR=" +:+ LinechainConfigDir r; "LATTICE_LINECHAIN_SIDECAR_PATH=" +:+ LinechainSidecarPath r]%string else []) ++
   (if trustedLinechain then ["LATTICE_LINECHAIN_TASK_SCRIPT_SHA256=" +:+ Sha256.hex (Sha256.Sum256 (Script t))]%string else []))%list.

(** A buffer that keeps the first [limit] bytes. *)
Record cappedBuffer := mkCapped { buf : string; limit : Z; truncated : bool }.
Definition Write (p : string) (b : cappedBuffer) : cappedBuffer :=
  let remaining := limit b - Z.of_nat (String.length (buf b)) in
  if 0 <? remaining then
    if remaining <? Z.of_nat (String.length p) then mkCapped (buf b +:+ str_take (Z.to_nat remaining) p) (limit b) true
    else mkCapped (buf b +:+ p) (limit b) (truncated b)
  else if (0 <? String.length p)%nat then mkCapped (buf b) (limit b) true else b.
Definition collect (limit : Z) (chunks : list string) : cappedBuffer := foldl (fun b p => Write p b) (mkCapped "" limit false) chunks.
Definition outputTruncationError (stdout stderr : cappedBuffer) : string :=
  match ((if truncated stdout then ["stdout"%string] else []) ++ (if truncated stderr then ["stderr"%string] else []))%list with
  | [] => ""%string
  | streams => (String.concat " and " streams +:+ " exceeded task output limit; output truncated")%string
  end.
Definition exitCode (e : option wait_error) : Z :=
  match e with None => 0 | Some (ExitError code _) => code | Some (WaitError _) => -1 end.
Definition wait_text (e : option wait_error) : string := match e with None => "" | Some (ExitError _ t) | Some (WaitError t) => t end.

Record TaskResult := mkResult { TaskID : string; ResultLease : string; ExitCode : Z; Error : string; Stdout : string; Stderr : string }.
Definition output_limit (t : Task) : Z := if (OutputLimit t <=? 0) || (256 * 1024 <? OutputLimit t) then 64 * 1024 else OutputLimit t.

(** The result of a started child, none while Wait does not return. *)
Definition result_of (w : world) (t : Task) : option TaskResult :=
  let stdout := collect (output_limit t) (w_stdout w) in
  let stderr := collect (output_limit t) (w_stderr w) in
  let finish := fun code err =>
    let truncated := outputTruncationError stdout stderr in
    let err := if String.eqb truncated "" then err else if String.eqb err "" then truncated else (err +:+ "; " +:+ truncated)%string in
    Some (mkResult (ID t) (LeaseID t) code err (buf stdout) (buf stderr)) in
  match w_end w with
  | Exited e => finish (exitCode e) (wait_text e)
  | Killed (Some parent) _ => finish (-1) ("task interrupted before completion: " +:+ parent)%string
  | Killed None ctx => finish (-1) ctx
  | Stuck => None
  end.
Definition run (r : Runner) (w : world) (t : Task) (trustedLinechain : bool) : list act * option TaskResult :=
  let failed := fun err => Some (mkResult (ID t) (LeaseID t) (-1) err "" "") in
  if negb (AllowExec r) then ([], failed "agent task execution disabled; restart with -allow-exec=true to enable")
  else if (euid w =? 0) && negb (AllowRoot r) then ([], failed "refusing to execute task as root; restart with -allow-root-exec=true to opt in")
  else
    match allowedInterpreters (Interpreter t) with
    | None => ([], failed "interpreter is not allowlisted")
    | Some target =>
        match LookPath w target with
        | None => ([], failed ("interpreter not found: " +:+ target)%string)
        | Some interp =>
            let timeout := resolveTaskTimeout (TimeoutSec t) in
            match createTaskWorkdir w (WorkdirRoot r) with
            | (acts, inl e) => (acts, failed e)
            | (acts, inr dir) =>
                let scriptPath := path_join dir "script" in
                match w_write w with
                | Some e => (acts ++ [RemovedDir dir], failed e)
                | None =>
                    match prepareTaskCgroup (w_cgroup w) (Cgroup r) (ID t) with
                    | (cg, inl e) => (acts ++ cg ++ [RemovedDir dir], failed e)
                    | (cg, inr cgroupPath) =>
                        let c := mkCmd (buildHardenedCmd interp scriptPath timeout cgroupPath) dir (task_env r t dir trustedLinechain) in
                        let cleanup := (if String.eqb cgroupPath "" then [] else [RemovedCgroup cgroupPath]) ++ [RemovedDir dir] in
                        match w_start w with
                        | Some e => (acts ++ cg ++ cleanup, failed e)
                        | None =>
                            match result_of w t with
                            | Some res => (acts ++ cg ++ [Started c] ++ cleanup, Some res)
                            | None => (acts ++ cg ++ [Started c], None)
                            end
                        end
                    end
                end
            end
        end
    end.
End TaskExec.
