(* ===== verification/TaskExecProps.v ===== *)
(** * What a task can and cannot do *)
From S2P Require Import Prelude GoStrings GoPath GoSha256 TaskExec.
From Stdlib Require Import Ascii.

Local Open Scope Z_scope.

Module TaskExecProps.
Import TaskExec.

(** ** Bounds *)
Lemma timeout_bounds sec : 0 < resolveTaskTimeout sec <= maxTaskTimeout.
Proof.
  unfold resolveTaskTimeout. change maxTaskTimeout with 600000000000. change defaultTaskTimeout with 30000000000.
  destruct (Z.leb_spec (i64 (sec * second)) 0); [lia|]. destruct (Z.ltb_spec 600000000000 (i64 (sec * second))); lia.
Qed.
Lemma timeout_asked sec : 1 <= sec <= 600 -> resolveTaskTimeout sec = sec * second.
Proof.
  intros Hs. unfold resolveTaskTimeout. rewrite i64_small by (change min_i64 with (- 9223372036854775808); change max_i64 with 9223372036854775807; change second with 1000000000; lia).
  change maxTaskTimeout with 600000000000. change second with 1000000000. destruct (Z.leb_spec (sec * 1000000000) 0); [lia|]. destruct (Z.ltb_spec 600000000000 (sec * 1000000000)); lia.
Qed.
Lemma cpu_seconds timeout : 0 < timeout <= maxTaskTimeout -> let n := Z.quot timeout second in
  0 <= n <= 600 /\ u64 (u64 n + cpuGraceSeconds) = n + 5 /\ (n + 5 <? cpuGraceSeconds) = false.
Proof.
  intros Ht n. assert (Hn : 0 <= n <= 600).
  { unfold n. rewrite Z.quot_div_nonneg by (change second with 1000000000; lia). change second with 1000000000. change maxTaskTimeout with 600000000000 in Ht.
    split; [apply Z.div_pos; lia|]. apply Z.div_le_upper_bound; lia. }
  change cpuGraceSeconds with 5. split; [done|]. rewrite (u64_small n) by lia. rewrite u64_small by lia. split; [done|]. apply Z.ltb_ge. lia.
Qed.

(** ** The output *)
Lemma buffer_write_spec b p all : 0 <= limit b -> buf b = str_take (Z.to_nat (limit b)) all -> truncated b = (limit b <? Z.of_nat (String.length all)) ->
  limit (Write p b) = limit b /\ buf (Write p b) = str_take (Z.to_nat (limit b)) (all +:+ p) /\ truncated (Write p b) = (limit b <? Z.of_nat (String.length (all +:+ p))).
Proof.
  intros Hl Hb Ht. assert (Hlen : String.length (buf b) = Nat.min (Z.to_nat (limit b)) (String.length all)) by (by rewrite Hb, str_take_len).
  unfold Write. rewrite Hlen, string_app_length.
  assert (Htake : forall n, (String.length all <= n)%nat -> str_take n (all +:+ p) = all +:+ str_take (n - String.length all) p).
  { clear. induction all as [|c all IH]; intros n Hn; [by rewrite Nat.sub_0_r, !app_empty|]. destruct n as [|n]; [simpl in Hn; lia|]. rewrite !app_cons. simpl. rewrite IH; [done|]. simpl in Hn. lia. }
  destruct (Z.ltb_spec 0 (limit b - Z.of_nat (Nat.min (Z.to_nat (limit b)) (String.length all)))) as [Hrem|Hrem].
  - assert (Hall : (String.length all < Z.to_nat (limit b))%nat) by lia. assert (Hbuf : buf b = all) by (rewrite Hb; apply str_take_all; lia). rewrite Nat.min_r in * by lia.
    rewrite Htake by lia. replace (Z.to_nat (limit b) - String.length all)%nat with (Z.to_nat (limit b - Z.of_nat (String.length all))) by lia.
    destruct (Z.ltb_spec (limit b - Z.of_nat (String.length all)) (Z.of_nat (String.length p))); simpl; rewrite ?Hbuf; (split; [done|]); split; try done.
    + symmetry. apply Z.ltb_lt. lia.
    + rewrite str_take_all by lia. done.
    + rewrite Ht. destruct (Z.ltb_spec (limit b) (Z.of_nat (String.length all))), (Z.ltb_spec (limit b) (Z.of_nat (String.length all + String.length p))); try done; lia.
  - assert (Hall : (Z.to_nat (limit b) <= String.length all)%nat) by lia. rewrite str_take_prefix by done.
    destruct (Nat.ltb_spec 0 (String.length p)); simpl; (split; [done|]); (split; [done|]).
    + symmetry. apply Z.ltb_lt. lia.
    + rewrite Ht. f_equal. lia.
Qed.

(** Whatever pieces the output comes in, a buffer holds its first [limit] bytes
    and says that more came exactly when more came. *)
Lemma collect_exact lim chunks : 0 <= lim -> let all := foldr String.append ""%string chunks in
  buf (collect lim chunks) = str_take (Z.to_nat lim) all /\ truncated (collect lim chunks) = (lim <? Z.of_nat (String.length all)).
Proof.
  intros Hl all. unfold collect, all.
  assert (Hgo : forall b done_, limit b = lim -> buf b = str_take (Z.to_nat lim) done_ -> truncated b = (lim <? Z.of_nat (String.length done_)) ->
    let b' := foldl (fun b p => Write p b) b chunks in buf b' = str_take (Z.to_nat lim) (done_ +:+ foldr String.append ""%string chunks) /\
      truncated b' = (lim <? Z.of_nat (String.length (done_ +:+ foldr String.append ""%string chunks)))).
  { induction chunks as [|p chunks IH]; intros b done_ H1 H2 H3; simpl; [by rewrite app_empty_r|].
    destruct (buffer_write_spec b p done_) as (W1 & W2 & W3); rewrite ?H1; try done. rewrite <-string_app_assoc. apply IH; rewrite ?W1, ?W2, ?W3, ?H1; done. }
  apply (Hgo (mkCapped "" lim false) ""%string); [done|by destruct (Z.to_nat lim)|]. symmetry. apply Z.ltb_ge. simpl. lia.
Qed.


(** ** The cgroup's path *)
Lemma abs_head p : path_abs p = true <-> exists s, p = String "/" s.
Proof.
  split; [|intros [s ->]; unfold path_abs; rewrite has_prefix_head; destruct (ascii_dec _ _); [apply has_prefix_empty|done]].
  destruct p as [|c p]; [done|]. unfold path_abs. rewrite has_prefix_head. destruct (ascii_dec "/" c) as [<-|]; [eauto|done].
Qed.
Lemma clean_abs p : path_abs p = true -> path_abs (path_clean p) = true.
Proof. intros Hp. unfold path_clean. destruct (String.eqb_spec p "") as [->|]; [done|]. rewrite Hp. apply abs_head. eexists. by rewrite app_cons. Qed.
Lemma join_abs a b : path_abs a = true -> path_abs (path_join a b) = true.
Proof.
  intros Ha. destruct (proj1 (abs_head a) Ha) as [s ->]. unfold path_join. cbn [String.eqb]. destruct (String.eqb b ""); apply clean_abs; [done|]. apply abs_head. eexists. by rewrite app_cons.
Qed.
Lemma root_abs w root r : resolveCgroupRoot w root = inr r -> path_abs r = true.
Proof.
  unfold resolveCgroupRoot. cbv zeta. destruct (String.eqb _ ""); [done|]. destruct (negb _).
  - destruct (path_abs (trim_space root)) eqn:Ha; [|done]. intros [= <-]. by apply clean_abs.
  - destruct (selfCgroupPath w); [done|]. intros [= <-]. by do 2 apply join_abs.
Qed.

Definition digit_solid (d : Z) : bool := solid (digit36 d) && negb (Ascii.eqb (digit36 d) "/").
Lemma digit36_solid d : 0 <= d < 36 -> solid (digit36 d) = true /\ digit36 d <> "/"%char.
Proof.
  intros Hd. assert (Hall : forallb digit_solid (map Z.of_nat (seq 0 36)) = true) by (vm_compute; reflexivity).
  rewrite forallb_forall in Hall. assert (Hin : In d (map Z.of_nat (seq 0 36))) by (apply in_map_iff; exists (Z.to_nat d); split; [lia|apply in_seq; lia]).
  specialize (Hall d Hin). unfold digit_solid in Hall. apply andb_prop in Hall as [H1 H2%negb_true_iff%Ascii.eqb_neq]. done.
Qed.
Lemma last_byte_none s : last_byte s = None -> s = ""%string.
Proof. induction s as [|x [|y s] IH]; [done|done|]. intros Hs. by specialize (IH Hs). Qed.
Lemma base36_fuel_spec fuel n acc : 0 <= n -> (forall c, last_byte acc = Some c -> solid c = true) -> no_byte "/" acc = true -> acc <> ""%string ->
  let s := base36_fuel fuel n acc in (exists c, last_byte s = Some c /\ solid c = true) /\ no_byte "/" s = true.
Proof.
  revert n acc. induction fuel as [|fuel IH]; intros n acc Hn Hs Hb Hne; simpl.
  - split; [|done]. destruct (last_byte acc) as [c|] eqn:Hl; [eauto|]. by apply last_byte_none in Hl.
  - assert (Hd := digit36_solid (n mod 36) (Z.mod_pos_bound n 36 ltac:(lia))). assert (Hb' : no_byte "/" (String (digit36 (n mod 36)) acc) = true) by (apply no_byte_cons; split; [apply Hd|done]).
    assert (Hl : last_byte (String (digit36 (n mod 36)) acc) = last_byte acc) by (by destruct acc). destruct (n <? 36).
    + split; [|done]. rewrite Hl. destruct (last_byte acc) as [c|] eqn:Hc; [eauto|]. by apply last_byte_none in Hc.
    + apply IH; [apply Z.div_pos; lia|by rewrite Hl|done|done].
Qed.
Lemma base36_spec n : (exists c, last_byte (base36 n) = Some c /\ solid c = true) /\ no_byte "/" (base36 n) = true /\ base36 n <> ""%string.
Proof.
  assert (Hgo : forall m, 0 <= m -> let s := base36_fuel (S (Z.to_nat (Z.log2 m))) m "" in (exists c, last_byte s = Some c /\ solid c = true) /\ no_byte "/" s = true /\ s <> ""%string).
  { intros m Hm. cbv zeta. cbn [base36_fuel]. assert (Hd := digit36_solid (m mod 36) (Z.mod_pos_bound m 36 ltac:(lia))).
    assert (Hone : no_byte "/" (String (digit36 (m mod 36)) "") = true) by (apply no_byte_cons; split; [apply Hd|done]).
    assert (Hr : let s := if m <? 36 then String (digit36 (m mod 36)) "" else base36_fuel (Z.to_nat (Z.log2 m)) (m / 36) (String (digit36 (m mod 36)) "") in
      (exists c, last_byte s = Some c /\ solid c = true) /\ no_byte "/" s = true).
    { cbv zeta. destruct (m <? 36); [split; [eexists; split; [done|tauto]|done]|]. apply base36_fuel_spec; [apply Z.div_pos; lia|intros c [= <-]; tauto|done|done]. }
    cbv zeta in Hr. destruct Hr as [[c Hc] Hr]. split; [eauto|]. split; [done|]. intros E. rewrite E in Hc. by destruct Hc. }
  unfold base36. destruct (Z.ltb_spec n 0) as [Hn|Hn]; [|by apply Hgo]. destruct (Hgo (- n) ltac:(lia)) as ([c [Hc Hs]] & Hb & Hne). set (s := base36_fuel _ _ _) in *. split_and!; [|by apply no_byte_cons|done].
  exists c. split; [|done]. destruct s; [done|exact Hc].
Qed.

Lemma safe_no_slash n l : no_byte "/" (safe_runes n l) = true.
Proof.
  revert l. induction n as [|n IH]; intros [|[c|] l]; try done; simpl; apply no_byte_cons; (split; [|apply IH]); [|done].
  destruct (safe_byte c) eqn:Hc; [|done]. intros ->. done.
Qed.
Lemma cgroup_name_plain f id n : let name := ("task-" +:+ safeCgroupName f id +:+ "-" +:+ base36 n)%string in
  plain_name name = true /\ exists c, last_byte name = Some c /\ solid c = true.
Proof.
  cbv zeta. destruct (base36_spec n) as (Hl & Hb & Hne).
  assert (Hs : no_byte "/" (safeCgroupName f id) = true) by (unfold safeCgroupName; cbv zeta; destruct (String.eqb _ ""); [done|]; destruct (String.eqb _ ""); [done|apply safe_no_slash]).
  split.
  - unfold plain_name. rewrite !no_byte_app, Hs, Hb. done.
  - rewrite (last_byte_app "task-") by (destruct (safeCgroupName f id); done). rewrite last_byte_app by done. rewrite (last_byte_app "-") by done. done.
Qed.

(** A task's cgroup, when one is asked for, has every limit that is set, and
    its path reaches the shim as it is. *)
Lemma cgroup_prepared w config id l path : prepareTaskCgroup w config id = (l, inr path) ->
  (enabled (normalized config) = false /\ path = ""%string) \/
  (path <> ""%string /\ trim_space path = path /\ exists controls, configureTaskCgroup w (normalized config) = (controls, None) /\ MadeCgroup path controls ∈ l).
Proof.
  unfold prepareTaskCgroup. cbv zeta. destruct (enabled (normalized config)); cbn [negb]; [|intros [= <- <-]; by left].
  destruct (resolveCgroupRoot w (Root (normalized config))) as [e|root] eqn:Hr; [done|]. destruct (cg_mkdirAll w); [done|]. destruct (ensureCgroupV2Root _ _ _); [done|].
  destruct (cg_mkdir w); [done|]. destruct (configureTaskCgroup w (normalized config)) as [controls [e|]] eqn:Hc; [done|]. intros [= <- <-]. right.
  apply root_abs in Hr. destruct (cgroup_name_plain (cg_runes w) id (cg_nanos w)) as [Hp (c & Hl & Hs)]. set (name := ("task-" +:+ _)%string) in *.
  assert (Hroot : root <> ""%string) by (by intros ->). destruct (path_join_plain root name Hroot Hp) as (lead & Hj & Hlead).
  assert (Hhead : exists s, path_join root name = String "/" s) by (by apply abs_head, join_abs). destruct Hhead as [s Hhead].
  assert (Hlast : last_byte (String "/" s) = Some c) by (rewrite <-Hhead, Hj, last_byte_app by (by intros E; rewrite E in Hl); done).
  rewrite Hhead. split_and!; [done|by apply (trim_space_solid _ _ c)|]. exists controls. split; [done|]. by left.
Qed.

(** ** The shim *)
Definition hardened (cpuSecs : Z) (threads : option Z) (cgroup : string) : list shim_act :=
  map SetLimit (applyResourceLimits cpuSecs threads) ++ [NoNewPrivs] ++ (if String.eqb cgroup "" then [] else [JoinCgroup cgroup]) ++ [Umask077].
Definition is_exec (a : shim_act) : bool := match a with Exec _ _ => true | _ => false end.

(** The arguments a task is started with are read back by the shim, which
    becomes the interpreter only after all of its steps succeeded. *)
Lemma shim_roundtrip s exe interp script timeout cg : 0 < timeout <= maxTaskTimeout -> cg = ""%string \/ (cg <> ""%string /\ trim_space cg = cg) ->
  let '(l, e) := MaybeRunChildShim s (exe :: buildHardenedCmd interp script timeout cg) in
  (e = Execed /\ l = hardened (Z.quot timeout second + 5) (s_threads s) cg ++ [Exec interp script]) \/ (e = Exit 126 /\ Forall (fun a => is_exec a = false) l).
Proof.
  intros Ht Hcg. destruct (cpu_seconds timeout Ht) as (Hn & Hu & Hlt). unfold buildHardenedCmd. cbv zeta. rewrite Hu, Hlt.
  assert (Hp : parse_uint 64 (utoa (Z.quot timeout second + 5)) = Some (Z.quot timeout second + 5)) by (apply parse_uint_utoa; lia).
  assert (Hlim : forall n th, Forall (fun a => is_exec a = false) (map SetLimit (applyResourceLimits n th))) by (intros; by repeat constructor).
  unfold hardened. destruct Hcg as [->|[Hne Htrim]]; cbn [String.eqb app].
  - unfold MaybeRunChildShim. rewrite String.eqb_refl. cbn [negb]. rewrite Hp. cbv zeta. cbn [String.eqb andb negb app]. destruct (s_noNewPrivs s); cbn [negb]; [|right; split; [done|apply Hlim]].
    destruct (s_exec s); [left; split; [done|by rewrite <-!app_assoc]|]. right. split; [done|]. repeat apply Forall_app_2; try apply Hlim; by repeat constructor.
  - rewrite (proj2 (String.eqb_neq _ _) Hne). cbn [app]. unfold MaybeRunChildShim. rewrite String.eqb_refl. cbn [negb]. rewrite Hp. cbv zeta. rewrite Htrim, (proj2 (String.eqb_neq _ _) Hne). cbn [negb andb].
    destruct (s_noNewPrivs s); cbn [negb]; [|right; split; [done|apply Hlim]]. destruct (s_join s); cbn [negb].
    + destruct (s_exec s); [left; split; [done|by rewrite <-!app_assoc]|]. right. split; [done|]. repeat apply Forall_app_2; try apply Hlim; by repeat constructor.
    + right. split; [done|]. apply Forall_app_2; [apply Hlim|by repeat constructor].
Qed.

Lemma env_linechain r t dir trusted v : v ∈ task_env r t dir trusted -> has_prefix v "LATTICE_LINECHAIN" = true -> trusted = true.
Proof.
  destruct trusted; [done|]. unfold task_env. cbn [andb]. rewrite !app_nil_r. intros Hv Hp. exfalso. revert Hp. rewrite elem_of_app in Hv. destruct Hv as [Hv|Hv].
  - repeat (apply elem_of_cons in Hv as [->|Hv]; [done|]). by apply elem_of_nil in Hv.
  - destruct (path_abs _); [|by apply elem_of_nil in Hv]. apply elem_of_cons in Hv as [->|Hv]; [done|by apply elem_of_nil in Hv].
Qed.

End TaskExecProps.

(** * Tasks on a concrete host *)
From S2P Require Import Prelude GoStrings GoPath GoSha256 TaskExec.
From Stdlib Require Import Ascii.

Local Open Scope Z_scope.

Module TaskExecSample.
Import TaskExec TaskExecProps.

Definition single_bytes (s : string) : list (option ascii) := map (fun c => Some c) (String.list_ascii_of_string s).
Definition host_cgroups : cgroup_env :=
  mkCgEnv (inr ("0::/system.slice/lattice.service" +:+ String "010" "")%string) None (inr "cpu io memory pids"%string) None None 1786000000000000000 None (fun _ => None) single_bytes.
Definition host (e : child_end) : world :=
  mkWorld 997 (fun n => Some n) None (inr (true, 448)) (fun _ => inr "/tmp/lattice-task-1"%string) None None host_cgroups None e ["hello "; "world"]%string [].
Definition exec_runner : Runner := mkRunner true false (mkCgroup "auto" "" "" "max") "" "/opt/lattice/node-agent/lattice-agent" "/var/lib/lattice/linechain" "" "".
Definition task : Task := mkTask "t-1" "l-1" "sh" "echo hello world" 20 6.

Definition ran := Eval vm_compute in run exec_runner (host (Exited None)) task false.
Lemma ran_run : run exec_runner (host (Exited None)) task false = (fst ran, snd ran).
Proof. vm_compute. reflexivity. Qed.
Example output_cut : match snd ran with Some res => Stdout res = "hello "%string /\ ExitCode res = 0 /\ Error res = "stdout exceeded task output limit; output truncated"%string | None => False end.
Proof. vm_compute. tauto. Qed.
Definition started : cmd :=
  match fst ran with [_; _; Started c; _; _] => c | _ => mkCmd [] "" [] end.
Lemma has_started : Started started ∈ fst ran.
Proof. do 2 right. left. Qed.

(** An absurd timeout is not cut to the longest: the product wraps around and
    the task gets 0.29 s. *)
Example huge_timeout_wraps : resolveTaskTimeout 18446744074 = 290448384 /\ resolveTaskTimeout 901 = maxTaskTimeout.
Proof. vm_compute. tauto. Qed.

(** A script that leaves a process in a session of its own with the output pipe
    open outlives its timeout: the group is killed, Wait does not return. *)
Example stray_keeps_task : snd (run exec_runner (host Stuck) task false) = None.
Proof. vm_compute. reflexivity. Qed.
End TaskExecSample.
