(* ===== verification/Terminal.v ===== *)
(** * Terminal sessions (cmd/lattice-agent/terminal.go, terminal_stream.go,
    terminal_control.go, terminal_env.go)

    What a session's shell starts with, the replay ring and the sink that
    couples it to the live connection, the frames of a browser, the redial loop
    and its caps, the poll transport, and the manager that starts sessions. *)
From S2P Require Import Prelude GoStrings Prefetch.
From Stdlib Require Import Ascii.
From stdpp Require Import gmap strings.

Local Open Scope Z_scope.

Module Terminal.

(** ** Constants *)
Definition terminalStreamRingBytes : Z := 512 * 1024.
Definition terminalStreamRedialMin : duration := 500 * millisecond.
Definition terminalStreamRedialMax : duration := 8 * second.
Definition terminalStreamDetachCeiling : duration := 90 * second.
Definition terminalStreamIdleCap : duration := 30 * minute.
Definition terminalStreamMaxLife : duration := 8 * (60 * minute).
Definition terminalControlBackoffMin : duration := 1 * second.
Definition terminalControlBackoffMax : duration := 30 * second.
Definition terminalOpcodeStdin : ascii := byte_of 0.
Definition terminalOpcodeResize : ascii := byte_of 1.
Definition terminalOpcodeClose : ascii := byte_of 2.
Definition terminalOpcodeResume : ascii := byte_of 4.
Definition terminalTransportPoll : string := "poll".
Definition terminalTransportStream : string := "stream".

(** ** The transport of a session: the server's override, [None] before the
    first one is stored, and the value at start-up. *)
Definition setTerminalTransportOverride (transport : string) : option string :=
  if String.eqb transport terminalTransportPoll || String.eqb transport terminalTransportStream then Some transport
  else Some ""%string.
Definition effectiveTerminalTransport (override : option string) (startup : string) : string :=
  match override with Some v => if negb (String.eqb v "") then v else startup | None => startup end.

(** ** The shell and its environment *)
Definition terminalShells : list string := ["/bin/sh"; "/bin/bash"; "/usr/bin/bash"; "/usr/bin/zsh"; "/bin/zsh"]%string.
Definition terminalShell (requested : string) : option string :=
  if String.eqb requested "" then Some "/bin/sh"%string
  else if bool_decide (requested ∈ terminalShells) then Some requested else None.

Definition terminalPassthroughEnvKeys : list string :=
  ["PATH"; "HOME"; "USER"; "LOGNAME"; "SHELL"; "LANG"; "LANGUAGE"; "TZ"; "TMPDIR"; "COLORTERM"]%string.

(** strings.ToUpper as far as a comparison with ASCII names sees it: of the
    runes outside ASCII only the dotless i (C4 B1) and the long s (C5 BF) have
    an ASCII upper case; the others stay outside ASCII and are left as they
    are. *)
Definition rune_131 : string := Eval vm_compute in bytes_str [196; 177]%Z.
Definition rune_17F : string := Eval vm_compute in bytes_str [197; 191]%Z.
Definition upper_byte (c : ascii) : ascii :=
  if (97 <=? byte_val c) && (byte_val c <=? 122) then byte_of (byte_val c - 32) else c.
Fixpoint upper_fuel (fuel : nat) (s : string) : string :=
  match fuel, s with
  | S fuel, String c t =>
      match cut_prefix s rune_131, cut_prefix s rune_17F with
      | Some t, _ => String "I" (upper_fuel fuel t)
      | _, Some t => String "S" (upper_fuel fuel t)
      | _, _ => String (upper_byte c) (upper_fuel fuel t)
      end
  | _, _ => ""%string
  end.
Definition upper (s : string) : string := upper_fuel (String.length s) s.

Definition terminalEnvPassesThrough (key : string) : bool :=
  bool_decide (key ∈ terminalPassthroughEnvKeys) || has_prefix key "LC_".
(** The test of one entry of the agent's environment. *)
Definition env_entry_passes (entry : string) : bool :=
  match cut entry "=" with
  | None => false
  | Some (key, _) => terminalEnvPassesThrough (upper (trim_space key))
  end.
Definition terminalShellEnv (base : list string) (sessionID nodeID : string) : list string :=
  app (List.filter env_entry_passes base)
    ["TERM=xterm-256color"; "LATTICE_TERMINAL_SESSION_ID=" +:+ sessionID; "LATTICE_NODE_ID=" +:+ nodeID]%string.

(** ** The replay ring

    The start of a replay is an index into the buffer; it is within the buffer
    whenever the offsets are those of the ring (Go's slice expression would
    panic otherwise). *)
Definition slen (s : string) : Z := Z.of_nat (String.length s).
Record outputRing := mkRing { buf : string; capBytes : Z; headOff : Z; totalOff : Z }.
#[export] Instance outputRing_eta : Etable outputRing := fun r => mkRing (buf r) (capBytes r) (headOff r) (totalOff r).
Definition newOutputRing (cap : Z) : outputRing := mkRing "" cap 0 0.
Definition append (p : string) (r : outputRing) : outputRing :=
  let r := r <| totalOff ::= fun t => i64 (t + slen p) |> <| buf ::= fun b => b +:+ p |> in
  if capBytes r <? slen (buf r) then
    let drop := slen (buf r) - capBytes r in
    r <| buf ::= str_drop (Z.to_nat drop) |> <| headOff ::= fun h => i64 (h + drop) |>
  else r.
Definition tailFrom (off : Z) (r : outputRing) : string * bool :=
  if totalOff r <=? off then (""%string, false)
  else if off <? headOff r then (buf r, true)
  else (str_drop (Z.to_nat (i64 (off - headOff r))) (buf r), false).

(** ** The sink

    A connection is a number.  An operation answers the writes it made, each
    with what the connection did with it; [ok] and [okn] are those answers,
    from the environment. *)
Record wr := mkWr { w_conn : nat; w_data : string; w_ok : bool }.
Record streamSink := mkSink { ring : outputRing; conn : option nat }.
#[export] Instance streamSink_eta : Etable streamSink := fun s => mkSink (ring s) (conn s).
Definition newStreamSink : streamSink := mkSink (newOutputRing terminalStreamRingBytes) None.

Definition Write (p : string) (ok : bool) (s : streamSink) : streamSink * list wr :=
  let s := s <| ring ::= append p |> in
  match conn s with
  | None => (s, [])
  | Some c => (if ok then s else s <| conn := None |>, [mkWr c p ok])
  end.

Definition gapNotice : string := Eval vm_compute in
  (String (byte_of 13) (String (byte_of 10) (String (byte_of 27) "[33m[lattice] reconnected ")) +:+
   bytes_str [226; 128; 148] +:+ " earlier output was dropped" +:+
   String (byte_of 27) "[0m" +:+ String (byte_of 13) (String (byte_of 10) ""))%string.

Definition resumeOnce (c : nat) (browserOff : Z) (okn ok : bool) (s : streamSink) : bool * streamSink * list wr :=
  if bool_decide (conn s = Some c) then (false, s, [])
  else
    let (tail, gap) := tailFrom browserOff (ring s) in
    let notice := if gap then [mkWr c gapNotice okn] else [] in
    if 0 <? slen tail then
      if ok then (true, s <| conn := Some c |>, app notice [mkWr c tail true])
      else (true, s, app notice [mkWr c tail false])
    else (true, s <| conn := Some c |>, notice).

Definition detach (c : nat) (s : streamSink) : streamSink :=
  if bool_decide (conn s = Some c) then s <| conn := None |> else s.

(** ** The frames of a browser

    [unmarshal] is json.Unmarshal into the columns and rows of a resize. *)
Inductive frame_action := Resume (off : Z) | Stdin (data : string) | Resize (cols rows : Z) | CloseShell | Ignore.
Definition u16 (x : Z) : Z := x mod 2 ^ 16.
Definition frame_of (unmarshal : string -> option (Z * Z)) (payload : string) : frame_action :=
  match payload with
  | EmptyString => Ignore
  | String op rest =>
      if Ascii.eqb op terminalOpcodeResume then
        Resume (match parse_int rest with Some off => if off <? 0 then 0 else off | None => 0 end)
      else if Ascii.eqb op terminalOpcodeStdin then if String.eqb rest "" then Ignore else Stdin rest
      else if Ascii.eqb op terminalOpcodeResize then
        match unmarshal rest with
        | None => Ignore
        | Some (cols, rows) =>
            if (0 <? cols) && (0 <? rows) then
              let cols := if 1000 <? cols then 1000 else cols in
              let rows := if 1000 <? rows then 1000 else rows in
              Resize (u16 cols) (u16 rows)
            else Ignore
        end
      else if Ascii.eqb op terminalOpcodeClose then CloseShell
      else Ignore
  end.

(** The pump over the frames read before the connection fails: what it does,
    in order.  [written] says whether the PTY takes the n-th input. *)
Inductive pump_effect := DoResume (off : Z) | PtyWrite (data : string) (ok : bool) | PtyResize (cols rows : Z) | PtyClose.
Fixpoint pumpInput (unmarshal : string -> option (Z * Z)) (written : list bool) (frames : list string) : list pump_effect :=
  match frames with
  | [] => []
  | p :: frames =>
      match frame_of unmarshal p with
      | Ignore => pumpInput unmarshal written frames
      | Resume off => DoResume off :: pumpInput unmarshal written frames
      | Resize c r => PtyResize c r :: pumpInput unmarshal written frames
      | CloseShell => [PtyClose]
      | Stdin d =>
          match written with
          | false :: _ => [PtyWrite d false]
          | true :: written => PtyWrite d true :: pumpInput unmarshal written frames
          | [] => PtyWrite d true :: pumpInput unmarshal [] frames
          end
      end
  end.

(** ** The redial loop

    A round dials and, when that succeeds, serves the connection until it
    breaks.  The clock readings of a round coincide. *)
Definition minDuration (a b : duration) : duration := if a <? b then a else b.
Inductive dial := DialGone | DialCancelled (reason : option string) | DialFailed | Served (bridged : bool).
Record redial := mkRedial { backoff : duration; disconnectedSince : time }.
Definition newRedial : redial := mkRedial terminalStreamRedialMin 0.
Inductive verdict := SessionGone | Finished (reason : option string) | GaveUp | Again (wait : duration) (next : redial).
Definition overdue (t since : time) : bool := terminalStreamDetachCeiling <? time_sub t since.
Definition redial_round (t : time) (d : dial) (r : redial) : verdict :=
  match d with
  | DialGone => SessionGone
  | DialCancelled reason => Finished reason
  | DialFailed =>
      let since := if is_zero_time (disconnectedSince r) then t else disconnectedSince r in
      if overdue t since then GaveUp
      else Again (backoff r) (mkRedial (minDuration (i64 (backoff r * 2)) terminalStreamRedialMax) since)
  | Served bridged =>
      let r := if bridged then newRedial
               else if is_zero_time (disconnectedSince r) then mkRedial (backoff r) t else r in
      if negb (is_zero_time (disconnectedSince r)) && overdue t (disconnectedSince r) then GaveUp
      else Again (backoff r)
             (if bridged then r else mkRedial (minDuration (i64 (backoff r * 2)) terminalStreamRedialMax) (disconnectedSince r))
  end.
Fixpoint redial_rounds (r : redial) (l : list (time * dial)) : option verdict * list duration :=
  match l with
  | [] => (None, [])
  | (t, d) :: l =>
      match redial_round t d r with
      | Again wait next => let (v, waits) := redial_rounds next l in (v, wait :: waits)
      | v => (Some v, [])
      end
  end.

(** A tick of the session's watchdog. *)
Definition cap_reason (t lastActivity started : time) : option string :=
  if terminalStreamIdleCap <? time_sub t lastActivity then Some "terminal session idle timeout"%string
  else if terminalStreamMaxLife <? time_sub t started then Some "terminal session reached maximum duration"%string
  else None.
Definition finishStream (stopping : bool) (reason : option string) : string :=
  let msg := default ""%string reason in
  if String.eqb msg "" && stopping then "agent shutting down"%string else msg.

(** The parts of the stream's address; [parsed] is what url.Parse makes of the
    server's. *)
Definition terminalStreamURL (parsed : option string) (nodeID sessionID : string) : option (string * string * string) :=
  match parsed with
  | None => None
  | Some scheme =>
      let addr s := Some (s, "/api/agent/terminal/stream", "node_id=" +:+ Prefetch.QueryEscape nodeID +:+ "&session_id=" +:+ Prefetch.QueryEscape sessionID)%string in
      if String.eqb scheme "https" then addr "wss"%string
      else if String.eqb scheme "http" then addr "ws"%string
      else if String.eqb scheme "ws" || String.eqb scheme "wss" then addr scheme
      else None
  end.
Definition dial_status (status : option Z) : dial :=
  match status with Some s => if (s =? 404) || (s =? 401) then DialGone else DialFailed | None => DialFailed end.

(** ** The poll transport *)
Record TerminalInput := mkInput { in_seq : Z; in_kind : string; in_data : string; in_cols : Z; in_rows : Z }.
Inductive pty_op := OpWrite (data : string) | OpResize (cols rows : Z) | OpClose.
Inductive poll_end := PollOK | PollGone | PollByOperator | PollErr.

(** The inputs of one answer: the cursor, what was done to the PTY, and how it
    ended; [ok] says whether the PTY takes the operation. *)
Fixpoint apply_inputs (ok : TerminalInput -> bool) (cursor : Z) (inputs : list TerminalInput) : Z * list pty_op * poll_end :=
  match inputs with
  | [] => (cursor, [], PollOK)
  | i :: inputs =>
      let cursor := if cursor <? in_seq i then in_seq i else cursor in
      let go op :=
        if ok i then let '(c, ops, e) := apply_inputs ok cursor inputs in (c, op :: ops, e)
        else (cursor, [op], PollErr) in
      if String.eqb (in_kind i) "data" then
        if String.eqb (in_data i) "" then apply_inputs ok cursor inputs else go (OpWrite (in_data i))
      else if String.eqb (in_kind i) "resize" then
        if (0 <? in_cols i) && (0 <? in_rows i) then go (OpResize (u16 (in_cols i)) (u16 (in_rows i)))
        else apply_inputs ok cursor inputs
      else if String.eqb (in_kind i) "close" then (cursor, [OpClose], PollByOperator)
      else apply_inputs ok cursor inputs
  end.
(** The answer of the server: its status, or no answer, or the inputs. *)
Definition pollInputs (answer : option Z + list TerminalInput) (ok : TerminalInput -> bool) (cursor : Z) : Z * list pty_op * poll_end :=
  match answer with
  | inl (Some status) => (cursor, [], if (status =? 404) || (status =? 410) then PollGone else PollErr)
  | inl None => (cursor, [], PollErr)
  | inr inputs => apply_inputs ok cursor inputs
  end.

(** What a poll session does to the world, in order; a status carries a text,
    or the refusal of a shell, whose text quotes the path it names. *)
Inductive session_status := TerminalOpen | TerminalFailed | TerminalClosed.
Inductive status_text := Text (s : string) | ShellNotAllowed (requested : string).
Coercion Text : string >-> status_text.
Inductive effect :=
  | StartShell (shell : string) (env : list string) | PostStatus (status : session_status) (message : status_text)
  | Pty (op : pty_op) | ClosePty | KillGroup.
Inductive select_event :=
  | CtxDone (err : string) | ShellExit (err : option string) | InputTick (answer : option Z + list TerminalInput) (ok : TerminalInput -> bool).
Definition poll_end_error (e : poll_end) : string :=
  match e with PollGone => "terminal session gone" | _ => "terminal closed by operator" end.
(** The loop: its effects, the error the session ends with and whether the
    shell exited on its own; [None] while it runs. *)
Fixpoint poll_loop (cursor : Z) (l : list select_event) : list effect * option (option string * bool) :=
  match l with
  | [] => ([], None)
  | CtxDone err :: _ => ([ClosePty], Some (Some err, false))
  | ShellExit err :: _ => ([], Some (err, true))
  | InputTick answer ok :: l =>
      let '(cursor, ops, e) := pollInputs answer ok cursor in
      match e with
      | PollGone | PollByOperator => (app (map Pty ops) [ClosePty], Some (Some (poll_end_error e), false))
      | PollOK | PollErr => let (effs, r) := poll_loop cursor l in (app (map Pty ops) effs, r)
      end
  end.
Definition poll_finish (stopping : bool) (waitErr : option string) (shellExited : bool) : list effect :=
  app (if shellExited then [] else [KillGroup])
    [ClosePty; PostStatus TerminalClosed (match waitErr with Some e => if stopping then ""%string else e | None => ""%string end)].
(** [stat] and [started] are the errors of os.Stat and of starting the shell,
    [stopping] whether the agent is stopping when the session ends. *)
Definition runPoll (requested sessionID nodeID : string) (environ : list string) (stat started : option string)
    (stopping : bool) (l : list select_event) : list effect :=
  match terminalShell requested with
  | None => [PostStatus TerminalFailed (ShellNotAllowed requested)]
  | Some shell =>
      match stat with
      | Some e => [PostStatus TerminalFailed ("shell not available: " +:+ e)%string]
      | None =>
          StartShell shell (terminalShellEnv environ sessionID nodeID) ::
          match started with
          | Some e => [PostStatus TerminalFailed e]
          | None =>
              PostStatus TerminalOpen ""%string ::
              (let (effs, r) := poll_loop 0 l in
               app effs (match r with Some (waitErr, exited) => poll_finish stopping waitErr exited | None => [] end))
          end
      end
  end.

(** A stream session: its loop sees the session cancelled (by a cap, or because
    the agent stops), the shell gone, or makes a round; [None] while it runs. *)
Inductive stream_event := SessionCancelled (reason : option string) | ShellGone | Round (t : time) (d : dial).
Fixpoint stream_loop (stopping : bool) (r : redial) (l : list stream_event) : option (list effect) :=
  match l with
  | [] => None
  | SessionCancelled reason :: _ => Some [PostStatus TerminalClosed (finishStream stopping reason)]
  | ShellGone :: _ => Some [PostStatus TerminalClosed (finishStream stopping None)]
  | Round t d :: l =>
      match redial_round t d r with
      | SessionGone | GaveUp => Some []
      | Finished reason => Some [PostStatus TerminalClosed (finishStream stopping reason)]
      | Again _ next => stream_loop stopping next l
      end
  end.
Definition runStream (requested sessionID nodeID : string) (environ : list string) (stat started : option string)
    (stopping : bool) (l : list stream_event) : list effect :=
  match terminalShell requested with
  | None => [PostStatus TerminalFailed (ShellNotAllowed requested)]
  | Some shell =>
      match stat with
      | Some e => [PostStatus TerminalFailed ("shell not available: " +:+ e)%string]
      | None =>
          StartShell shell (terminalShellEnv environ sessionID nodeID) ::
          match started with
          | Some e => [PostStatus TerminalFailed e]
          | None => match stream_loop stopping newRedial l with Some effs => app effs [KillGroup; ClosePty] | None => [] end
          end
      end
  end.

(** ** The manager: which sessions have a runner, and the runners there are. *)
Record manager := mkManager { active : gset string; runners : list string }.
Definition newManager : manager := mkManager ∅ [].
Definition startSession (id : string) (m : manager) : bool * manager :=
  if bool_decide (id ∈ active m) then (false, m)
  else (true, mkManager ({[ id ]} ∪ active m) (id :: runners m)).
(** A runner returns and its session is removed. *)
Fixpoint without (id : string) (l : list string) : list string :=
  match l with [] => [] | x :: l => if String.eqb x id then l else x :: without id l end.
Definition remove (id : string) (m : manager) : manager := mkManager (active m ∖ {[ id ]}) (without id (runners m)).
Definition poll (ids : list string) (m : manager) : manager := foldl (fun m id => (startSession id m).2) m ids.

(** A control message: its type, the session's id and node, and the trace
    configuration if it carries one; [None] when it does not decode. *)
Section Control.
Context {T : Type}.
Record terminalControlMessage := mkControl { m_type : string; m_id : string; m_node : string; m_trace : option T }.
Inductive control_action := OpenSession (id : string) | TraceConfig (cfg : T) | NoAction.
Definition on_control (NodeID : string) (msg : option terminalControlMessage) : control_action :=
  match msg with
  | None => NoAction
  | Some m =>
      if String.eqb (m_type m) "trace.config" then match m_trace m with Some cfg => TraceConfig cfg | None => NoAction end
      else if String.eqb (m_type m) "terminal.open" then
        if String.eqb (m_id m) "" || negb (String.eqb (m_node m) NodeID) then NoAction else OpenSession (m_id m)
      else NoAction
  end.
(** One connection of the control stream: the sessions it starts and the trace
    configurations it hands over. *)
Fixpoint runControl (NodeID : string) (msgs : list (option terminalControlMessage)) (m : manager) : manager * list T :=
  match msgs with
  | [] => (m, [])
  | msg :: msgs =>
      match on_control NodeID msg with
      | OpenSession id => runControl NodeID msgs (startSession id m).2
      | TraceConfig cfg => let (m, l) := runControl NodeID msgs m in (m, cfg :: l)
      | NoAction => runControl NodeID msgs m
      end
  end.
End Control.
Definition control_backoff (b : duration) : duration :=
  if b <? terminalControlBackoffMax then
    let b := i64 (b * 2) in if terminalControlBackoffMax <? b then terminalControlBackoffMax else b
  else b.
Definition terminalControlURL (parsed : option string) (nodeID : string) : option (string * string) :=
  match parsed with
  | None => None
  | Some scheme =>
      let addr (s : string) := Some (s, "node_id=" +:+ Prefetch.QueryEscape nodeID)%string in
      if String.eqb scheme "https" then addr "wss"%string else if String.eqb scheme "http" then addr "ws"%string else None
  end.

End Terminal.
