(* ===== verification/TerminalStream.v ===== *)
(** * A terminal session seen from the browser

    The sink of [Terminal] together with the connections of the agent, one
    after another, and the browser at their other end: it counts the bytes it
    has received, asks each new connection to go on from its count, and renders
    what arrives.  Whatever connections break, and wherever, the text it shows
    is the shell's output from the start, as long as it does not fall more
    than the ring behind. *)
From S2P Require Import Prelude GoStrings Prefetch Terminal.
From Stdlib Require Import Ascii.
From stdpp Require Import gmap strings.

Local Open Scope Z_scope.

Module TerminalStream.
Import Terminal.

(** ** The ring *)
Definition after (k : Z) (s : string) : string := str_drop (Z.to_nat k) s.

Lemma slen_app a b : slen (a +:+ b) = slen a + slen b.
Proof. unfold slen. rewrite string_app_length. lia. Qed.
Lemma slen_nonneg s : 0 <= slen s.
Proof. unfold slen. lia. Qed.
Lemma slen_after k s : 0 <= k -> slen (after k s) = Z.max 0 (slen s - k).
Proof. intros. unfold slen, after. rewrite str_drop_len. lia. Qed.
Lemma after_0 s : after 0 s = s.
Proof. apply str_drop_0. Qed.
Lemma after_app k s p : 0 <= k <= slen s -> after k s +:+ p = after k (s +:+ p).
Proof. intros H. unfold after, slen in *. rewrite str_drop_prefix by lia. done. Qed.
Lemma after_after j k s : 0 <= j -> 0 <= k -> after j (after k s) = after (k + j) s.
Proof. intros. unfold after. rewrite Z2Nat.inj_add by lia. by rewrite str_drop_add. Qed.
Lemma slen_empty s : slen s <= 0 -> s = ""%string.
Proof. unfold slen. destruct s; [done|]. simpl. lia. Qed.
Lemma after_past k s : slen s <= k -> after k s = ""%string.
Proof. intros. pose proof (slen_nonneg s). apply slen_empty. rewrite slen_after by lia. lia. Qed.

(** The ring holds the last bytes of the output, and knows where they stand. *)
Record ring_ok (out : string) (r : outputRing) : Prop := {
  ok_cap : 0 <= capBytes r;
  ok_total : totalOff r = slen out;
  ok_head : headOff r = Z.max 0 (slen out - capBytes r);
  ok_buf : buf r = after (headOff r) out
}.

Lemma ring_ok_new cap : 0 <= cap -> ring_ok "" (newOutputRing cap).
Proof. intros. split; simpl; [done|done| |done]. unfold slen. simpl. lia. Qed.

Lemma append_cap p r : capBytes (append p r) = capBytes r.
Proof. unfold append. case_goal; by upd. Qed.

Lemma append_ok out p r : ring_ok out r -> slen (out +:+ p) <= max_i64 -> ring_ok (out +:+ p) (append p r).
Proof.
  intros [Hc Ht Hh Hb] Hmax. rewrite slen_app in Hmax. unfold max_i64 in Hmax.
  pose proof (slen_nonneg out). pose proof (slen_nonneg p).
  assert (Hbuf : buf r +:+ p = after (headOff r) (out +:+ p)) by (rewrite Hb; apply after_app; lia).
  assert (Hlen : slen (buf r +:+ p) = slen out + slen p - headOff r) by (rewrite Hbuf, slen_after, slen_app; lia).
  unfold append. upd. rewrite Hlen. destruct (Z.ltb_spec (capBytes r) (slen out + slen p - headOff r)).
  - split; upd; rewrite ?slen_app, ?Hbuf; [done|rewrite Ht; apply i64_small; unfold min_i64, max_i64; lia| |].
    + rewrite i64_small by (unfold min_i64, max_i64; lia). lia.
    + rewrite i64_small by (unfold min_i64, max_i64; lia). apply after_after; lia.
  - split; upd; rewrite ?slen_app; [done|rewrite Ht; apply i64_small; unfold min_i64, max_i64; lia|lia|done].
Qed.

Lemma tailFrom_spec out off r : ring_ok out r -> slen out <= max_i64 -> 0 <= off ->
  tailFrom off r = (after (Z.max off (headOff r)) out, off <? headOff r).
Proof.
  intros [Hc Ht Hh Hb] Hmax Ho. pose proof (slen_nonneg out). unfold max_i64 in Hmax. unfold tailFrom. rewrite Ht.
  destruct (Z.leb_spec (slen out) off).
  - rewrite after_past by lia. f_equal. symmetry. apply Z.ltb_ge. lia.
  - destruct (Z.ltb_spec off (headOff r)); [by rewrite Hb, Z.max_r by lia|].
    rewrite i64_small by (unfold min_i64, max_i64; lia). rewrite Hb, Z.max_l by lia.
    f_equal. change (str_drop (Z.to_nat (off - headOff r)) (after (headOff r) out)) with (after (off - headOff r) (after (headOff r) out)).
    rewrite after_after by lia. f_equal. lia.
Qed.

(** ** The connections

    A connection has the offset its browser asked for, the frames it has
    taken, and whether it is broken: a write to it has failed, or it has been
    closed.  A broken connection takes nothing more. *)
Record leg := mkLeg { asked : Z; sent : list string; bad : bool }.
Definition concat_all (l : list string) : string := foldr String.append "" l.
Lemma concat_all_app l k : concat_all (app l k) = concat_all l +:+ concat_all k.
Proof. induction l as [|x l IH]; [done|]. simpl. by rewrite IH, string_app_assoc. Qed.

Definition deliver_one (w : wr) (legs : gmap nat leg) : option (gmap nat leg) :=
  match legs !! w_conn w with
  | None => None
  | Some l =>
      if w_ok w then if bad l then None else Some (<[w_conn w := mkLeg (asked l) (app (sent l) [w_data w]) false]> legs)
      else Some (<[w_conn w := mkLeg (asked l) (sent l) true]> legs)
  end.
Fixpoint deliver (ws : list wr) (legs : gmap nat leg) : option (gmap nat leg) :=
  match ws with
  | [] => Some legs
  | w :: ws => match deliver_one w legs with Some legs => deliver ws legs | None => None end
  end.

(** The session with its browser.  [worst] is the most output a browser was
    missing when a connection took it up, [rerun] whether one was taken up from
    another offset than the browser's own. *)
Record world := mkWorld {
  sink : streamSink; output : string; legs : gmap nat leg; cur : option nat; got : nat; seen : string; worst : Z; rerun : bool
}.
Definition start (cap : Z) : world := mkWorld (mkSink (newOutputRing cap) None) "" ∅ None 0 "" 0 false.

Definition took_up (b : bool) (off : Z) (l : leg) (w : world) (s : streamSink) (ls : gmap nat leg) : world :=
  mkWorld s (output w) ls (cur w) (got w) (seen w)
    (if b then Z.max (worst w) (slen (output w) - off) else worst w) (rerun w || (b && negb (off =? asked l))).

(** The agent has one connection at a time: the next is dialed when the one
    before is closed.  The browser's resume frame is read on the present
    connection; the replay from the start, for a browser that sends none, runs
    on a timer that may be late. *)
Inductive step (w : world) : world -> Prop :=
  | st_output p ok s ws ls : slen (output w +:+ p) <= max_i64 -> Write p ok (sink w) = (s, ws) -> deliver ws (legs w) = Some ls ->
      step w (mkWorld s (output w +:+ p) ls (cur w) (got w) (seen w) (worst w) (rerun w))
  | st_connect c : legs w !! c = None -> (forall d l, legs w !! d = Some l -> bad l = true) ->
      step w (mkWorld (sink w) (output w) (<[c := mkLeg (slen (seen w)) [] false]> (legs w)) (Some c) 0 (seen w) (worst w) (rerun w))
  | st_resume c l okn ok b s ws ls : cur w = Some c -> legs w !! c = Some l ->
      resumeOnce c (asked l) okn ok (sink w) = (b, s, ws) -> deliver ws (legs w) = Some ls ->
      step w (took_up b (asked l) l w s ls)
  | st_timer c l okn ok b s ws ls : legs w !! c = Some l ->
      resumeOnce c 0 okn ok (sink w) = (b, s, ws) -> deliver ws (legs w) = Some ls ->
      step w (took_up b 0 l w s ls)
  | st_receive c l f : cur w = Some c -> legs w !! c = Some l -> sent l !! got w = Some f ->
      step w (mkWorld (sink w) (output w) (legs w) (cur w) (S (got w)) (seen w +:+ f) (worst w) (rerun w))
  | st_end c l : legs w !! c = Some l ->
      step w (mkWorld (detach c (sink w)) (output w) (<[c := mkLeg (asked l) (sent l) true]> (legs w)) (cur w) (got w) (seen w) (worst w) (rerun w)).

Inductive reach (cap : Z) : world -> Prop :=
  | reach_start : reach cap (start cap)
  | reach_step w w' : reach cap w -> step w w' -> reach cap w'.

(** ** The invariant *)
Definition live (w : world) (c : nat) : Prop := conn (sink w) = Some c.

(** What the present connection carries, when the browser is in time. *)
Definition carries (w : world) (c : nat) (l : leg) : Prop :=
  (got w <= length (sent l))%nat /\
  exists base, seen w = base +:+ concat_all (take (got w) (sent l)) /\ slen base = asked l /\
    (exists rest, output w = base +:+ concat_all (sent l) +:+ rest /\ (bad l = false -> live w c -> rest = ""%string)).

Record inv (cap : Z) (w : world) : Prop := {
  inv_ring : ring_ok (output w) (ring (sink w));
  inv_cap : capBytes (ring (sink w)) = cap;
  inv_len : slen (output w) <= max_i64;
  inv_asked : forall c l, legs w !! c = Some l -> 0 <= asked l;
  inv_cur : forall c l, legs w !! c = Some l -> bad l = false -> cur w = Some c;
  inv_idle : forall c l, legs w !! c = Some l -> bad l = false -> ~ live w c -> concat_all (sent l) = ""%string;
  inv_blank : output w = ""%string -> forall c l, legs w !! c = Some l -> concat_all (sent l) = ""%string;
  inv_conn : forall c, live w c -> is_Some (legs w !! c);
  inv_none : cur w = None -> seen w = ""%string;
  inv_has : forall c, cur w = Some c -> is_Some (legs w !! c);
  inv_seen : worst w <= cap -> rerun w = false -> forall c l, cur w = Some c -> legs w !! c = Some l -> carries w c l
}.

Lemma carries_seen w c l : carries w c l -> exists rest, output w = seen w +:+ rest.
Proof.
  intros (_ & base & Hs & _ & rest & Ho & _).
  exists (concat_all (drop (got w) (sent l)) +:+ rest). rewrite Hs, Ho, !string_app_assoc, <-(string_app_assoc (concat_all (take _ _))).
  by rewrite <-concat_all_app, take_drop.
Qed.

Lemma inv_start cap : 0 <= cap -> inv cap (start cap).
Proof.
  intros Hc. split; simpl; [by apply ring_ok_new|done|unfold slen, max_i64; simpl; lia|..]; try done.
Qed.

(** What the writes of one operation leave of a connection. *)
Lemma deliver_leg c ws : forall ls l ls', Forall (fun w => w_conn w = c) ws -> ls !! c = Some l -> deliver ws ls = Some ls' ->
  exists l', ls' = <[c := l']> ls /\ asked l' = asked l /\ (exists k, sent l' = app (sent l) (take k (map w_data ws))) /\
    (bad l' = false -> bad l = false /\ Forall (fun w => w_ok w = true) ws) /\
    (bad l = true -> bad l' = true /\ sent l' = sent l /\ Forall (fun w => w_ok w = false) ws).
Proof.
  induction ws as [|w ws IH]; intros ls l ls' Hc Hl Hd.
  - injection Hd as <-. exists l. rewrite insert_id by done. split_all; [done|done|exists 0%nat; by rewrite app_nil_r|done|done].
  - inversion_clear Hc as [|? ? Hw Hcs]. simpl in Hd. unfold deliver_one in Hd. rewrite Hw, Hl in Hd.
    destruct (w_ok w) eqn:Hok; [destruct (bad l) eqn:Hb; [done|]|].
    + destruct (IH _ (mkLeg (asked l) (app (sent l) [w_data w]) false) _ Hcs ltac:(by rewrite lookup_insert_eq) Hd) as (l' & -> & Ha & (k & Hk) & Hg & _).
      exists l'. rewrite insert_insert_eq. simpl in *.
      split_all; [done|done|exists (S k); by rewrite Hk, <-app_assoc| |done].
      intros H. destruct (Hg H) as [_ Hf]. by repeat constructor.
    + destruct (IH _ (mkLeg (asked l) (sent l) true) _ Hcs ltac:(by rewrite lookup_insert_eq) Hd) as (l' & -> & Ha & (k & Hk) & Hg & Hb).
      exists l'. rewrite insert_insert_eq. simpl in *. destruct (Hb eq_refl) as (Hb' & Hs & Hf).
      split_all; [done|done|exists 0%nat; by rewrite Hs, app_nil_r|intros H; by rewrite H in Hb'|by repeat constructor].
Qed.

(** The outcomes of taking a connection up, in terms of the output. *)
Definition notice_of (c : nat) (off : Z) (okn : bool) (s : streamSink) : list wr :=
  if off <? headOff (ring s) then [mkWr c gapNotice okn] else [].
Definition missing (off : Z) (out : string) (s : streamSink) : string := after (Z.max off (headOff (ring s))) out.
Inductive taken (c : nat) (off : Z) (okn : bool) (out : string) (s : streamSink) : bool -> streamSink -> list wr -> Prop :=
  | taken_already : conn s = Some c -> taken c off okn out s false s []
  | taken_nothing : conn s <> Some c -> missing off out s = ""%string ->
      taken c off okn out s true (s <| conn := Some c |>) (notice_of c off okn s)
  | taken_replay : conn s <> Some c -> missing off out s <> ""%string ->
      taken c off okn out s true (s <| conn := Some c |>) (app (notice_of c off okn s) [mkWr c (missing off out s) true])
  | taken_failed : conn s <> Some c -> missing off out s <> ""%string ->
      taken c off okn out s true s (app (notice_of c off okn s) [mkWr c (missing off out s) false]).

Lemma resumeOnce_taken c off okn ok out s b s' ws : ring_ok out (ring s) -> slen out <= max_i64 -> 0 <= off ->
  resumeOnce c off okn ok s = (b, s', ws) -> taken c off okn out s b s' ws.
Proof.
  intros Hr Hmax Ho. unfold resumeOnce. case_bool_decide as Hc; [intros [= <- <- <-]; by constructor|].
  rewrite (tailFrom_spec out) by done. fold (missing off out s). fold (notice_of c off okn s).
  destruct (Z.ltb_spec 0 (slen (missing off out s))) as [Hp|Hp].
  - assert (missing off out s <> ""%string) by (intros E; rewrite E in Hp; by vm_compute in Hp).
    destruct ok; intros [= <- <- <-]; by constructor.
  - intros [= <- <- <-]. constructor; [done|by apply slen_empty].
Qed.
Lemma taken_conn c off okn out s b s' ws : taken c off okn out s b s' ws -> Forall (fun w => w_conn w = c) ws.
Proof. assert (Forall (fun w => w_conn w = c) (notice_of c off okn s)) by (unfold notice_of; case_goal; by repeat constructor).
  destruct 1; try done; apply Forall_app; split; try done; by repeat constructor. Qed.
Lemma taken_ring c off okn out s b s' ws : taken c off okn out s b s' ws -> ring s' = ring s.
Proof. destruct 1; by upd. Qed.
Lemma taken_live c off okn out s b s' ws d : taken c off okn out s b s' ws -> conn s' = Some d -> d = c \/ conn s = Some d.
Proof. destruct 1; upd; intros E; try (by right); by injection E as <-; left. Qed.
Lemma taken_bad c off okn out s b s' ws : taken c off okn out s b s' ws -> Forall (fun w => w_ok w = false) ws ->
  s' = s \/ missing off out s = ""%string.
Proof.
  destruct 1 as [?|? Hm|? Hm|? Hm]; intros Hf; [by left|by right|apply Forall_app in Hf as [_ Hf]; by inversion_clear Hf|by left].
Qed.

Section Steps.
Context (cap : Z) (Hcap : 0 < cap).

(** The connection that is up loses its place only before the first output. *)
Lemma missing_blank off out s : ring_ok out (ring s) -> capBytes (ring s) = cap -> missing off out s = ""%string ->
  off = 0 -> out = ""%string.
Proof.
  intros [Hc _ Hh _] Hcb Hm ->. pose proof (slen_nonneg out). apply slen_empty.
  assert (slen (missing 0 out s) = 0) as E by (by rewrite Hm). unfold missing in E. rewrite slen_after in E by lia. lia.
Qed.

Lemma inv_receive w c l f : inv cap w -> cur w = Some c -> legs w !! c = Some l -> sent l !! got w = Some f ->
  inv cap (mkWorld (sink w) (output w) (legs w) (cur w) (S (got w)) (seen w +:+ f) (worst w) (rerun w)).
Proof.
  intros I Hc Hl Hf. destruct I. split; simpl; try done; [by rewrite Hc|].
  intros Hw Hr c' l' Hc' Hl'. simplify_eq. destruct (inv_seen0 Hw Hr _ _ Hc Hl) as (_ & base & Hs & Ha & Ho).
  split; [apply lookup_lt_Some in Hf; simpl; lia|]. exists base. refine (conj _ (conj Ha Ho)). simpl.
  rewrite (take_S_r _ _ _ Hf), concat_all_app, Hs, string_app_assoc. simpl. by rewrite app_empty_r.
Qed.

Lemma inv_connect w c : inv cap w -> legs w !! c = None -> (forall d l, legs w !! d = Some l -> bad l = true) ->
  inv cap (mkWorld (sink w) (output w) (<[c := mkLeg (slen (seen w)) [] false]> (legs w)) (Some c) 0 (seen w) (worst w) (rerun w)).
Proof.
  intros I Hn Hb. destruct I. split; simpl; try done.
  - intros d l [[<- <-]|[? Hd]]%lookup_insert_Some; [apply slen_nonneg|by eapply inv_asked0].
  - intros d l [[<- <-]|[? Hd]]%lookup_insert_Some; [done|]. intros. by rewrite (Hb _ _ Hd) in *.
  - intros d l [[<- <-]|[? Hd]]%lookup_insert_Some; [done|]. intros. by rewrite (Hb _ _ Hd) in *.
  - intros Ho d l [[<- <-]|[? Hd]]%lookup_insert_Some; [done|by eapply inv_blank0].
  - intros d Hd. rewrite lookup_insert_is_Some'. right. by apply inv_conn0.
  - intros d [= <-]. by rewrite lookup_insert_eq.
  - intros Hw Hr d l [= <-]. rewrite lookup_insert_eq. intros [= <-]. split; simpl; [lia|].
    exists (seen w). simpl. rewrite app_empty_r. repeat (split; [done|]).
    assert (exists rest, output w = seen w +:+ rest) as (rest & Ho).
    { destruct (cur w) as [d|] eqn:Hd; [|rewrite inv_none0 by done; by eexists].
      destruct (inv_has0 d eq_refl) as (l & Hl). by apply (carries_seen w d l), (inv_seen0 Hw Hr d l eq_refl). }
    exists rest. split; [done|]. intros _ Hl. destruct (inv_conn0 c Hl) as (? & E). by rewrite Hn in E.
Qed.

Lemma inv_end w c l : inv cap w -> legs w !! c = Some l ->
  inv cap (mkWorld (detach c (sink w)) (output w) (<[c := mkLeg (asked l) (sent l) true]> (legs w)) (cur w) (got w) (seen w) (worst w) (rerun w)).
Proof.
  intros I Hl. destruct I.
  assert (Hring : ring (detach c (sink w)) = ring (sink w)) by (unfold detach; case_goal; by upd).
  assert (Hlive : forall d, conn (detach c (sink w)) = Some d -> conn (sink w) = Some d).
  { intros d. unfold detach. case_bool_decide; by upd. }
  assert (Hgone : conn (detach c (sink w)) <> Some c).
  { unfold detach. case_bool_decide; by upd. }
  split; simpl; rewrite ?Hring; try done.
  - intros d k [[<- <-]|[? Hd]]%lookup_insert_Some; simpl; try done; by eauto.
  - intros d k [[<- <-]|[? Hd]]%lookup_insert_Some; simpl; try done; by eauto.
  - intros d k [[<- <-]|[Hne Hd]]%lookup_insert_Some; [done|]. intros Hbad Hnl. eapply inv_idle0; [done..|].
    intros Hx. apply Hnl. unfold live. simpl. unfold detach. unfold live in Hx. rewrite bool_decide_eq_false_2 by congruence. done.
  - intros Ho d k [[<- <-]|[? Hd]]%lookup_insert_Some; simpl; try done; by eauto.
  - intros d Hd. rewrite lookup_insert_is_Some'. right. by apply inv_conn0, Hlive.
  - intros d Hd. rewrite lookup_insert_is_Some'. right. by apply inv_has0.
  - intros Hw Hr d k Hd [[<- <-]|[? Hk]]%lookup_insert_Some.
    + destruct (inv_seen0 Hw Hr _ _ Hd Hl) as (Hg & base & ? & ? & rest & ? & ?). split; [done|]. exists base. repeat (split; [done|]). exists rest. split; simpl; by try done.
    + destruct (inv_seen0 Hw Hr _ _ Hd Hk) as (Hg & base & ? & ? & rest & ? & Hlv). split; [done|]. exists base. repeat (split; [done|]).
      exists rest. split; [done|]. intros Hb Hx. apply Hlv; [done|]. by apply Hlive.
Qed.

(** Output that a connection does not carry leaves what it carries a beginning. *)
Lemma carries_more w w' p c l : carries w c l -> output w' = output w +:+ p -> got w' = got w -> seen w' = seen w -> ~ live w' c ->
  carries w' c l.
Proof.
  intros (Hg & base & Hs & Ha & rest & Ho & _) Eo Eg Es Hn. unfold carries. rewrite Eo, Eg, Es. split; [done|]. exists base. split; [done|]. split; [done|].
  exists (rest +:+ p). split; [by rewrite Ho, !string_app_assoc|done].
Qed.
Lemma carries_frame w w' p c l : carries w c l -> bad l = false -> live w c -> output w' = output w +:+ p -> got w' = got w -> seen w' = seen w ->
  carries w' c (mkLeg (asked l) (app (sent l) [p]) false).
Proof.
  intros (Hg & base & Hs & Ha & rest & Ho & Hlv) Hb Hl Eo Eg Es. unfold carries. rewrite Eo, Eg, Es. specialize (Hlv Hb Hl). subst rest. rewrite app_empty_r in Ho.
  simpl. split; [rewrite length_app; simpl; lia|]. exists base. rewrite take_app_le by done. split; [done|]. split; [done|].
  exists ""%string. split; [|done]. rewrite concat_all_app, Ho, !string_app_assoc. simpl. by rewrite !app_empty_r.
Qed.

Lemma inv_output_idle w p s : inv cap w -> conn (sink w) = None -> slen (output w +:+ p) <= max_i64 ->
  s = sink w <| ring ::= append p |> ->
  inv cap (mkWorld s (output w +:+ p) (legs w) (cur w) (got w) (seen w) (worst w) (rerun w)).
Proof.
  intros I Hc Hmax ->. destruct I.
  assert (Hdead : forall w' d, conn (sink w') = conn (sink w) -> ~ live w' d) by (unfold live; intros ? ? ->; congruence).
  split; simpl; upd; try done.
  - by apply append_ok.
  - by rewrite append_cap.
  - intros Ho. apply inv_blank0. by destruct (output w).
  - intros Hwo Hr d k Hdc Hk. eapply (carries_more w); try done; [by eauto|]. apply Hdead. by simpl; upd.
Qed.

Lemma inv_output_live w p (ok : bool) c l s : inv cap w -> conn (sink w) = Some c -> legs w !! c = Some l -> (ok = true -> bad l = false) ->
  slen (output w +:+ p) <= max_i64 ->
  s = (if ok then sink w <| ring ::= append p |> else sink w <| ring ::= append p |> <| conn := None |>) ->
  inv cap (mkWorld s (output w +:+ p) (<[c := mkLeg (asked l) (if ok then app (sent l) [p] else sent l) (negb ok)]> (legs w))
    (cur w) (got w) (seen w) (worst w) (rerun w)).
Proof.
  intros I Hc Hl Hok Hmax Hs. destruct I. set (l' := mkLeg _ _ _).
  assert (Hring : ring s = append p (ring (sink w))) by (subst s; by destruct ok; upd).
  assert (Hconn : conn s = if ok then Some c else None) by (subst s; by destruct ok; upd).
  split; simpl; rewrite ?Hring; try done.
  - by apply append_ok.
  - by rewrite append_cap.
  - intros d k [[<- <-]|[? Hk]]%lookup_insert_Some; simpl; by eauto.
  - intros d k [[<- <-]|[? Hk]]%lookup_insert_Some; [|by eauto]. intros Hb. destruct ok; [|done]. by eapply inv_cur0, Hok.
  - intros d k [[<- <-]|[Hne Hk]]%lookup_insert_Some.
    + intros Hb Hnl. destruct ok; [|done]. by destruct Hnl.
    + intros Hb _. eapply inv_idle0; [done..|]. unfold live. congruence.
  - intros Ho d k. assert (output w = "" /\ p = "")%string as [Hout ->] by (by destruct (output w)).
    intros [[<- <-]|[? Hk]]%lookup_insert_Some; [|by eauto]. simpl.
    destruct ok; [|by eauto]. rewrite concat_all_app, (inv_blank0 Hout _ _ Hl). done.
  - intros d Hx. rewrite lookup_insert_is_Some'. left. unfold live in Hx. simpl in Hx. rewrite Hconn in Hx. by destruct ok; simplify_eq.
  - intros d Hx. rewrite lookup_insert_is_Some'. right. by apply inv_has0.
  - intros Hwo Hr d k Hdc [[<- <-]|[Hne Hk]]%lookup_insert_Some.
    + unfold l'. destruct ok; [eapply (carries_frame w); try done; [by eauto|by apply Hok]|].
      destruct (inv_seen0 Hwo Hr _ _ Hdc Hl) as (Hg & base & Hsn & Ha & rest & Ho & _). split; [done|]. exists base. split; [done|]. split; [done|].
      exists (rest +:+ p). split; [simpl; by rewrite Ho, !string_app_assoc|done].
    + eapply (carries_more w); try done; [by eauto|]. unfold live. simpl. rewrite Hconn. by destruct ok; congruence.
Qed.

Lemma inv_output w p ok s ws ls : inv cap w -> slen (output w +:+ p) <= max_i64 -> Write p ok (sink w) = (s, ws) -> deliver ws (legs w) = Some ls ->
  inv cap (mkWorld s (output w +:+ p) ls (cur w) (got w) (seen w) (worst w) (rerun w)).
Proof.
  intros I Hmax Hw Hd. unfold Write in Hw. destruct (conn (sink w)) as [c|] eqn:Hc; revert Hw; upd; rewrite ?Hc; intros Hw.
  - destruct (inv_conn _ _ I c Hc) as (l & Hl). assert (ws = [mkWr c p ok]) as -> by (by injection Hw).
    simpl in Hd. unfold deliver_one in Hd. simpl in Hd. rewrite Hl in Hd.
    assert (ls = <[c := mkLeg (asked l) (if ok then app (sent l) [p] else sent l) (negb ok)]> (legs w) /\ (ok = true -> bad l = false)) as [-> Hok].
    { destruct ok; [destruct (bad l); [done|]|]; by injection Hd as <-. }
    apply inv_output_live; try done. by injection Hw as <-; destruct ok.
  - injection Hw as <- <-. injection Hd as <-. by apply inv_output_idle.
Qed.

(** Taking a connection up, from its browser's offset or from the start. *)
Lemma notice_none c off okn s out : ring_ok out (ring s) -> capBytes (ring s) = cap -> 0 <= off -> slen out - off <= cap ->
  notice_of c off okn s = [] /\ missing off out s = after off out.
Proof.
  intros [_ _ Hh _] Hc Ho Hb. unfold notice_of, missing. rewrite Z.max_l by lia.
  destruct (Z.ltb_spec off (headOff (ring s))); [lia|done].
Qed.
Lemma blank_notice c off okn s : ring_ok "" (ring s) -> 0 <= off -> notice_of c off okn s = [] /\ missing off "" s = ""%string.
Proof.
  intros [Hcb _ Hh _] Ho. assert (slen "" = 0) as E by done. rewrite E in Hh. unfold notice_of, missing. split.
  - destruct (Z.ltb_spec off (headOff (ring s))); [lia|done].
  - apply after_past. rewrite E. lia.
Qed.

Lemma carries_taken w w' c l l' okn ws s' : inv cap w -> cur w = Some c -> legs w !! c = Some l -> carries w c l ->
  taken c (asked l) okn (output w) (sink w) true s' ws -> slen (output w) - asked l <= cap ->
  deliver ws (legs w) = Some (<[c := l']> (legs w)) ->
  output w' = output w -> got w' = got w -> seen w' = seen w -> sink w' = s' -> carries w' c l'.
Proof.
  intros I Hcur Hl (Hg & base & Hs & Ha & rest & Ho & Hlv) Ht Hb Hd Eo Eg Es Ek. pose proof (inv_asked _ _ I _ _ Hl) as Ha0.
  destruct (notice_none c (asked l) okn (sink w) (output w)) as [Hn Hm]; [apply I|apply I|done|done|].
  assert (Htail : missing (asked l) (output w) (sink w) = concat_all (sent l) +:+ rest).
  { rewrite Hm, Ho. unfold after. rewrite <-Ha. unfold slen. rewrite Nat2Z.id. apply str_drop_app. }
  assert (Hdead : ~ live w c -> bad l = false -> concat_all (sent l) = ""%string) by (intros; by eapply inv_idle).
  unfold carries. rewrite Eo, Eg, Es. inversion Ht as [|Hc Hx|Hc Hx|Hc Hx]; subst; rewrite Hn in Hd; simpl in Hd.
  - injection Hd as Hd. assert (l' = l) as -> by (apply (f_equal (.!! c)) in Hd; rewrite lookup_insert_eq in Hd; congruence).
    rewrite Htail in Hx. assert (concat_all (sent l) = "" /\ rest = "")%string as [Hz ->] by (by destruct (concat_all (sent l))).
    split; [done|]. exists base. split; [done|]. split; [done|]. by exists ""%string.
  - unfold deliver_one in Hd. simpl in Hd. rewrite Hl in Hd. destruct (bad l) eqn:Hbad; [done|]. injection Hd as Hd.
    apply (f_equal (.!! c)) in Hd. rewrite !lookup_insert_eq in Hd. injection Hd as <-. specialize (Hdead Hc eq_refl). simpl.
    split; [rewrite length_app; lia|]. exists base. rewrite take_app_le by done. split; [done|]. split; [done|]. exists ""%string. split; [|done].
    rewrite concat_all_app, Htail, Hdead. simpl. by rewrite !app_empty_r, Ho, Hdead.
  - unfold deliver_one in Hd. simpl in Hd. rewrite Hl in Hd. injection Hd as Hd.
    apply (f_equal (.!! c)) in Hd. rewrite !lookup_insert_eq in Hd. injection Hd as <-. simpl.
    split; [done|]. exists base. split; [done|]. split; [done|]. by exists rest.
Qed.

Lemma taken_blank c off okn out s b s' ws : taken c off okn out s b s' ws -> out = ""%string -> ring_ok out (ring s) -> 0 <= off -> ws = [].
Proof.
  intros Ht -> Hr Ho. destruct (blank_notice c off okn s Hr Ho) as [Hn Hm]. destruct Ht; by rewrite ?Hn.
Qed.

Lemma took_up_idle w c l off okn b s ws l' : inv cap w -> legs w !! c = Some l -> cur w = Some c \/ off = 0 ->
  taken c off okn (output w) (sink w) b s ws -> (bad l' = false -> bad l = false /\ Forall (fun w => w_ok w = true) ws) ->
  (bad l = true -> Forall (fun w => w_ok w = false) ws) ->
  forall d k, <[c := l']> (legs w) !! d = Some k -> bad k = false -> conn s <> Some d -> concat_all (sent k) = ""%string.
Proof.
  intros I Hl Hor Ht Hgood Hbad d k [[<- <-]|[Hne Hk]]%lookup_insert_Some Hb Hnl.
  - destruct (Hgood Hb) as [_ Hf]. inversion Ht; subst; upd; try done; [by destruct Hnl; upd..|].
    apply Forall_app in Hf as [_ Hf]. by inversion_clear Hf.
  - destruct (decide (conn (sink w) = Some d)) as [Hx|Hx]; [|by eapply (inv_idle _ _ I)].
    pose proof (inv_cur _ _ I _ _ Hk Hb) as Hcur. destruct Hor as [?|Hoff]; [congruence|].
    assert (Hbl : bad l = true) by (destruct (bad l) eqn:E; [done|]; pose proof (inv_cur _ _ I _ _ Hl E); congruence).
    destruct (taken_bad _ _ _ _ _ _ _ _ Ht (Hbad Hbl)) as [->|Hm]; [done|].
    eapply (inv_blank _ _ I); [|done]. eapply missing_blank; [apply I|apply I|done..].
Qed.

Lemma inv_took_up w c l off okn ok b s ws ls : inv cap w -> legs w !! c = Some l -> cur w = Some c \/ off = 0 -> 0 <= off ->
  resumeOnce c off okn ok (sink w) = (b, s, ws) -> deliver ws (legs w) = Some ls -> inv cap (took_up b off l w s ls).
Proof.
  intros I Hl Hor Hoff Hres Hd. eapply (resumeOnce_taken _ _ _ _ (output w)) in Hres as Ht; [|apply I|apply I|done].
  destruct (deliver_leg c ws _ _ _ (taken_conn _ _ _ _ _ _ _ _ Ht) Hl Hd) as (l' & -> & Hask & (n & Hsent) & Hgood & Hbad).
  pose proof (taken_ring _ _ _ _ _ _ _ _ Ht) as Hring. pose proof (fun d => taken_live _ _ _ _ _ _ _ _ d Ht) as Hlive.
  split; simpl; rewrite ?Hring; try apply I.
  - intros d k [[<- <-]|[? Hk]]%lookup_insert_Some; [rewrite Hask|]; by eapply inv_asked.
  - intros d k [[<- <-]|[? Hk]]%lookup_insert_Some; [|by eapply inv_cur]. intros Hb. eapply inv_cur; [done..|]. by apply Hgood.
  - intros d k. apply (took_up_idle w c l off okn b s ws l'); try done. intros H. by destruct (Hbad H) as (_ & _ & ?).
  - intros Ho d k [[<- <-]|[? Hk]]%lookup_insert_Some; [|by eapply inv_blank].
    rewrite Hsent, concat_all_app, (inv_blank _ _ I Ho _ _ Hl), (taken_blank _ _ _ _ _ _ _ _ Ht) by (try done; apply I). by destruct n.
  - intros d Hx. rewrite lookup_insert_is_Some'. destruct (Hlive d Hx) as [->|]; [by left|right; by apply (inv_conn _ _ I)].
  - intros d Hx. rewrite lookup_insert_is_Some'. right. by apply (inv_has _ _ I).
  - intros Hw [Hr Hrb]%orb_false_iff d k Hcur Hk. destruct b.
    + simpl in Hrb. apply negb_false_iff, Z.eqb_eq in Hrb. subst off.
      assert (Hold : forall d k, cur w = Some d -> legs w !! d = Some k -> carries w d k) by (apply I; [lia|done]).
      apply lookup_insert_Some in Hk as [[<- <-]|[Hne Hk]]; [by eapply (carries_taken w); eauto; lia|].
      destruct (Hold _ _ Hcur Hk) as (Hg & base & Hs & Ha & rest & Ho & Hlv). split; [done|]. exists base. split; [done|]. split; [done|]. exists rest.
      split; [done|]. intros Hb Hx. apply Hlv; [done|]. by destruct (Hlive d Hx).
    + inversion Ht; subst. injection Hd as Hd. assert (l' = l) as -> by (apply (f_equal (.!! c)) in Hd; rewrite lookup_insert_eq in Hd; congruence).
      rewrite insert_id in Hk by done. by apply (inv_seen _ _ I).
Qed.

Lemma browser_inv w : reach cap w -> inv cap w.
Proof.
  induction 1 as [|w w' _ I Hs]; [apply inv_start; lia|]. destruct Hs.
  - by eapply inv_output.
  - by apply inv_connect.
  - eapply inv_took_up; eauto. by eapply inv_asked.
  - eapply inv_took_up; eauto. lia.
  - by eapply inv_receive.
  - by apply inv_end.
Qed.
End Steps.

Lemma ring_bytes_pos : 0 < terminalStreamRingBytes.
Proof. by vm_compute. Qed.


(** The ring holds the last 512 KiB of the output and no more. *)
Lemma ring_bounded w : reach terminalStreamRingBytes w ->
  slen (buf (ring (sink w))) <= terminalStreamRingBytes /\
  buf (ring (sink w)) = after (Z.max 0 (slen (output w) - terminalStreamRingBytes)) (output w).
Proof.
  intros Hr. pose proof (browser_inv _ ring_bytes_pos _ Hr) as I. destruct (inv_ring _ _ I) as [Hc _ Hh Hb]. rewrite (inv_cap _ _ I) in *.
  rewrite Hb, Hh. split; [|done]. rewrite slen_after by lia. lia.
Qed.
End TerminalStream.
