(* ===== verification/TerminalProps.v ===== *)
(** * What holds of a terminal session

    Which shell starts and with which environment, that a session leaves no
    process group behind, one runner per session, the order of polled inputs,
    and the redial loop. *)
From S2P Require Import Prelude GoStrings Prefetch Terminal.
From Stdlib Require Import Ascii.
From stdpp Require Import gmap strings.

Local Open Scope Z_scope.

Module TerminalProps.
Import Terminal.

(** ** The shell *)
Definition allowed_env (base : list string) (sessionID nodeID e : string) : Prop :=
  (e ∈ base /\ exists key value, cut e "=" = Some (key, value) /\
     (upper (trim_space key) ∈ terminalPassthroughEnvKeys \/ has_prefix (upper (trim_space key)) "LC_" = true)) \/
  e = "TERM=xterm-256color"%string \/ e = ("LATTICE_TERMINAL_SESSION_ID=" +:+ sessionID)%string \/ e = ("LATTICE_NODE_ID=" +:+ nodeID)%string.

Lemma shell_env_allowed base sid nid e : e ∈ terminalShellEnv base sid nid <-> allowed_env base sid nid e.
Proof.
  unfold terminalShellEnv, allowed_env. rewrite elem_of_app, list_elem_of_In, filter_In, <-list_elem_of_In.
  assert (env_entry_passes e = true <-> exists key value, cut e "=" = Some (key, value) /\
    (upper (trim_space key) ∈ terminalPassthroughEnvKeys \/ has_prefix (upper (trim_space key)) "LC_" = true)) as ->.
  { unfold env_entry_passes, terminalEnvPassesThrough. destruct (cut e "=") as [[key value]|].
    - rewrite orb_true_iff, bool_decide_eq_true. split; [intros H; by exists key, value|intros (? & ? & [= <- <-] & ?); done].
    - split; [done|by intros (? & ? & ? & _)]. }
  rewrite !elem_of_cons, elem_of_nil. tauto.
Qed.

(** A variable of the agent's own never reaches a shell under its name. *)
Lemma shell_env_hides base sid nid key value : trim_space key = key ->
  (upper key ∉ terminalPassthroughEnvKeys) -> has_prefix (upper key) "LC_" = false -> no_byte "=" key = true ->
  (forall e, e ∈ terminalShellEnv base sid nid -> e = key +:+ "=" +:+ value ->
    e = "TERM=xterm-256color" \/ e = "LATTICE_TERMINAL_SESSION_ID=" +:+ sid \/ e = "LATTICE_NODE_ID=" +:+ nid)%string.
Proof.
  intros Ht Hn Hp Hb e He ->. apply shell_env_allowed in He as [(_ & k & v & Hc & Hk)|He]; [|done].
  change (key +:+ "=" +:+ value)%string with (key +:+ String "=" "" +:+ value) in Hc. rewrite cut_first in Hc by done.
  injection Hc as <- <-. rewrite Ht in Hk. destruct Hk as [?|E]; [done|]. by rewrite Hp in E.
Qed.

Lemma terminalShell_allowed requested shell : terminalShell requested = Some shell -> shell ∈ terminalShells.
Proof.
  unfold terminalShell. destruct (String.eqb requested ""); [intros [= <-]; left|].
  case_bool_decide; [by intros [= <-]|done].
Qed.

(** What a session started, if anything. *)
Definition starts_within (base : list string) (sid nid : string) (l : list effect) : Prop :=
  forall shell env, StartShell shell env ∈ l -> shell ∈ terminalShells /\ forall e, e ∈ env -> allowed_env base sid nid e.
Definition no_start (l : list effect) : Prop := forall shell env, StartShell shell env ∉ l.

Lemma no_start_app l k : no_start l -> no_start k -> no_start (app l k).
Proof. intros Hl Hk shell env [?|?]%elem_of_app; [by eapply Hl|by eapply Hk]. Qed.
Lemma no_start_ops ops : no_start (map Pty ops).
Proof. intros shell env (op & ? & _)%list_elem_of_fmap. done. Qed.
Lemma no_start_one e : (forall shell env, e <> StartShell shell env) -> no_start [e].
Proof. intros H shell env Hin%list_elem_of_singleton. by eapply H. Qed.

Lemma poll_loop_no_start l : forall cursor, no_start (poll_loop cursor l).1.
Proof.
  induction l as [|e l IH]; intros cursor; [by intros ? ? ?%elem_of_nil|]. destruct e as [err|err|answer ok]; simpl.
  - by apply no_start_one.
  - by intros ? ? ?%elem_of_nil.
  - destruct (pollInputs answer ok cursor) as [[c ops] e]. pose proof (no_start_ops ops) as Hops.
    destruct e; simpl; [|by apply no_start_app; [|apply no_start_one]..|]; specialize (IH c);
      destruct (poll_loop c l); by apply no_start_app.
Qed.
Lemma poll_finish_no_start stopping err exited : no_start (poll_finish stopping err exited).
Proof.
  unfold poll_finish. apply no_start_app; [destruct exited; [by intros ? ? ?%elem_of_nil|by apply no_start_one]|].
  by apply (no_start_app [_]); apply no_start_one.
Qed.
Lemma stream_loop_no_start stopping l : forall r effs, stream_loop stopping r l = Some effs -> no_start effs.
Proof.
  induction l as [|e l IH]; intros r effs; [done|]. destruct e as [reason| |t d]; simpl;
    [by intros [= <-]; apply no_start_one..|].
  destruct (redial_round t d r); [intros [= <-]; by intros ? ? ?%elem_of_nil|by intros [= <-]; apply no_start_one|
    intros [= <-]; by intros ? ? ?%elem_of_nil|by apply IH].
Qed.

Lemma starts_within_cons base sid nid shell l : shell ∈ terminalShells -> no_start l ->
  starts_within base sid nid (StartShell shell (terminalShellEnv base sid nid) :: l).
Proof.
  intros Hs Hl sh env [[= -> ->]|Hin]%elem_of_cons; [|by destruct (Hl sh env)]. split; [done|]. intros e. apply shell_env_allowed.
Qed.
Lemma starts_within_none base sid nid l : no_start l -> starts_within base sid nid l.
Proof. intros Hl sh env Hin. by destruct (Hl sh env). Qed.

(** C20: Whatever shell a server asks for and whatever the agent's environment
    holds, a session of either transport starts only one of the five shells,
    whose environment is made of allowlisted variables and the session's own;
    and a session whose shell started kills the process group when it ends, but
    for one whose shell ended by itself. *)
Theorem session_contained requested sid nid environ stat started stopping events rounds :
  starts_within environ sid nid (runPoll requested sid nid environ stat started stopping events) /\
  starts_within environ sid nid (runStream requested sid nid environ stat started stopping rounds) /\
  (forall waitErr, is_Some (terminalShell requested) -> stat = None -> started = None -> (poll_loop 0 events).2 = Some (waitErr, false) ->
    KillGroup ∈ runPoll requested sid nid environ stat started stopping events) /\
  (is_Some (terminalShell requested) -> stat = None -> started = None -> is_Some (stream_loop stopping newRedial rounds) ->
    KillGroup ∈ runStream requested sid nid environ stat started stopping rounds).
Proof.
  split; [|split; [|split]].
  - unfold runPoll. destruct (terminalShell requested) as [shell|] eqn:Hs; [|by apply starts_within_none, no_start_one].
    destruct stat; [by apply starts_within_none, no_start_one|]. apply starts_within_cons; [by eapply terminalShell_allowed|].
    destruct started; [by apply no_start_one|]. pose proof (poll_loop_no_start events 0) as Hl. destruct (poll_loop 0 events) as [effs [[err exited]|]].
    + apply (no_start_app [_]); [by apply no_start_one|]. apply no_start_app; [done|apply poll_finish_no_start].
    + apply (no_start_app [_]); [by apply no_start_one|]. apply no_start_app; [done|]. by intros ? ? ?%elem_of_nil.
  - unfold runStream. destruct (terminalShell requested) as [shell|] eqn:Hs; [|by apply starts_within_none, no_start_one].
    destruct stat; [by apply starts_within_none, no_start_one|]. apply starts_within_cons; [by eapply terminalShell_allowed|].
    destruct started; [by apply no_start_one|]. destruct (stream_loop stopping newRedial rounds) as [effs|] eqn:Hl; [|by intros ? ? ?%elem_of_nil].
    apply no_start_app; [by eapply stream_loop_no_start|]. by apply (no_start_app [_]); apply no_start_one.
  - intros waitErr [shell Hs] -> -> Hend. unfold runPoll. rewrite Hs. destruct (poll_loop 0 events) as [effs r]. simpl in Hend. subst r.
    right. right. apply elem_of_app. right. left.
  - intros [shell Hs] -> -> [effs Hl]. unfold runStream. rewrite Hs, Hl. right. apply elem_of_app. right. left.
Qed.

(** ** The manager *)
Inductive manager_op := Start (id : string) | Poll (ids : list string) | Control {T} (NodeID : string) (msgs : list (option (terminalControlMessage (T := T)))) | Return (id : string).
Definition manager_step (m : manager) (op : manager_op) : manager :=
  match op with
  | Start id => (startSession id m).2
  | Poll ids => poll ids m
  | Control NodeID msgs => (runControl NodeID msgs m).1
  | Return id => remove id m
  end.
Definition one_each (m : manager) : Prop := NoDup (runners m) /\ forall id, id ∈ active m <-> id ∈ runners m.

Lemma start_one id m : one_each m -> one_each (startSession id m).2.
Proof.
  intros [Hn He]. unfold startSession. case_bool_decide as Hin; [done|]. simpl. split; simpl.
  - constructor; [by rewrite <-He|done].
  - intros x. rewrite elem_of_cons, <-He. set_solver.
Qed.
Lemma poll_one ids : forall m, one_each m -> one_each (poll ids m).
Proof. induction ids as [|id ids IH]; intros m H; [done|]. simpl. by apply IH, start_one. Qed.
Lemma control_one {T} NodeID (msgs : list (option (terminalControlMessage (T := T)))) : forall m, one_each m -> one_each (runControl NodeID msgs m).1.
Proof.
  induction msgs as [|msg msgs IH]; intros m H; [done|]. simpl.
  destruct (on_control NodeID msg) as [id|cfg|]; [by apply IH, start_one| |by apply IH].
  specialize (IH m H). by destruct (runControl NodeID msgs m).
Qed.
Lemma without_in id x l : NoDup l -> x ∈ without id l <-> x ∈ l /\ x <> id.
Proof.
  induction 1 as [|y l Hy Hn IH]; simpl; [set_solver|].
  destruct (String.eqb_spec y id) as [E|E]; [set_solver|]. rewrite !elem_of_cons, IH. set_solver.
Qed.
Lemma without_nodup id l : NoDup l -> NoDup (without id l).
Proof.
  induction 1 as [|y l Hy Hn IH]; simpl; [constructor|]. destruct (String.eqb y id); [done|].
  constructor; [|done]. intros [??]%without_in; done.
Qed.
Lemma remove_one id m : one_each m -> one_each (remove id m).
Proof.
  intros [Hn He]. split; simpl; [by apply without_nodup|]. intros x. rewrite without_in by done. set_solver.
Qed.

(** Whatever is polled, pushed and returned, a session has one runner and the
    manager knows it. *)
Lemma one_runner_each ops : one_each (foldl manager_step newManager ops).
Proof.
  assert (forall m, one_each m -> one_each (foldl manager_step m ops)) as H.
  { induction ops as [|op ops IH]; intros m Hm; [done|]. simpl. apply IH.
    destruct op; [by apply start_one|by apply poll_one|by apply control_one|by apply remove_one]. }
  apply H. split; [constructor|]. simpl. set_solver.
Qed.
(** A pushed session is one of this node. *)
Lemma control_own {T} NodeID (msg : option (terminalControlMessage (T := T))) id : on_control NodeID msg = OpenSession id ->
  exists m, msg = Some m /\ m_id m = id /\ id <> ""%string /\ m_node m = NodeID.
Proof.
  unfold on_control. destruct msg as [m|]; [|done]. destruct (String.eqb _ _); [by destruct (m_trace m)|].
  destruct (String.eqb (m_type m) _); [|done]. destruct (String.eqb_spec (m_id m) "") as [E|E]; [done|].
  destruct (String.eqb_spec (m_node m) NodeID) as [E'|E']; [|done]. simpl. intros [= <-]. by exists m.
Qed.

(** ** Polled inputs *)
Definition op_of (i : TerminalInput) : option pty_op :=
  if String.eqb (in_kind i) "data" then if String.eqb (in_data i) "" then None else Some (OpWrite (in_data i))
  else if String.eqb (in_kind i) "resize" then
    if (0 <? in_cols i) && (0 <? in_rows i) then Some (OpResize (u16 (in_cols i)) (u16 (in_rows i))) else None
  else None.
Definition top_seq (c : Z) (l : list TerminalInput) : Z := foldl (fun c i => Z.max c (in_seq i)) c l.
Lemma apply_all ok l : (forall i, ok i = true) -> Forall (fun i => in_kind i <> "close"%string) l ->
  forall c, apply_inputs ok c l = (top_seq c l, omap op_of l, PollOK).
Proof.
  intros Hok. induction 1 as [|i l Hi _ IH]; intros c; [done|]. simpl. unfold op_of at 1.
  replace (if c <? in_seq i then in_seq i else c) with (Z.max c (in_seq i)) by (destruct (Z.ltb_spec c (in_seq i)); lia).
  rewrite Hok, !IH. destruct (String.eqb (in_kind i) "data"); [by destruct (String.eqb (in_data i) "")|].
  destruct (String.eqb (in_kind i) "resize"); [by destruct ((0 <? in_cols i) && (0 <? in_rows i))|].
  by destruct (String.eqb_spec (in_kind i) "close").
Qed.
Lemma top_seq_bounds l : forall c, c <= top_seq c l /\ Forall (fun i => in_seq i <= top_seq c l) l.
Proof.
  induction l as [|i l IH]; intros c; [split; [simpl; lia|constructor]|]. simpl. destruct (IH (Z.max c (in_seq i))) as [H1 H2].
  split; [lia|]. constructor; [lia|done].
Qed.
Lemma filter_seq c l : Forall (fun i => in_seq i <= c) l -> List.filter (fun i => c <? in_seq i) l = [].
Proof. induction 1 as [|i l Hi _ IH]; [done|]. simpl. destruct (Z.ltb_spec c (in_seq i)); [lia|done]. Qed.
Lemma filter_seq_all c l : Forall (fun i => c < in_seq i) l -> List.filter (fun i => c <? in_seq i) l = l.
Proof. induction 1 as [|i l Hi _ IH]; [done|]. simpl. destruct (Z.ltb_spec c (in_seq i)); [by rewrite IH|lia]. Qed.

(** A server that answers with the inputs past the cursor, in the order of
    their numbers, has every input applied once and in order. *)
Lemma poll_next L M ok : (forall i, ok i = true) -> Forall (fun i => in_kind i <> "close"%string) M ->
  Forall (fun i => top_seq 0 L < in_seq i) M ->
  pollInputs (inr (List.filter (fun i => top_seq 0 L <? in_seq i) (app L M))) ok (top_seq 0 L) =
    (top_seq 0 (app L M), omap op_of M, PollOK).
Proof.
  intros Hok Hk Hs. simpl. rewrite List.filter_app, filter_seq by apply top_seq_bounds. simpl. rewrite filter_seq_all by done.
  rewrite apply_all by done. unfold top_seq. by rewrite foldl_app.
Qed.

(** ** The redial loop *)
Definition paced (r : redial) : Prop := terminalStreamRedialMin <= backoff r <= terminalStreamRedialMax.
Lemma redial_paced t d r wait next : paced r -> redial_round t d r = Again wait next -> terminalStreamRedialMin <= wait <= terminalStreamRedialMax /\ paced next.
Proof.
  unfold paced, redial_round, terminalStreamRedialMin, terminalStreamRedialMax, millisecond, second, minDuration. intros Hp.
  assert (Hd : i64 (backoff r * 2) = backoff r * 2) by (apply i64_small; unfold min_i64, max_i64; lia).
  destruct d as [|reason| |[]]; try done; simpl; rewrite ?Hd.
  - destruct (overdue _ _); [done|]. intros [= <- <-]. simpl. destruct (Z.ltb_spec (backoff r * 2) (8 * 1000000000)); lia.
  - intros [= <- <-]. vm_compute. split; split; done.
  - destruct (is_zero_time (disconnectedSince r)); simpl; rewrite ?Hd; (case_goal; [done|]); intros [= <- <-]; simpl;
      destruct (Z.ltb_spec (backoff r * 2) (8 * 1000000000)); lia.
Qed.
Lemma redial_waits l : forall r, paced r -> Forall (fun w => terminalStreamRedialMin <= w <= terminalStreamRedialMax) (redial_rounds r l).2.
Proof.
  induction l as [|[t d] l IH]; intros r Hp; [constructor|]. simpl. destruct (redial_round t d r) as [| | |wait next] eqn:E; [constructor..|].
  destruct (redial_paced _ _ _ _ _ Hp E) as [Hw Hn]. specialize (IH next Hn). destruct (redial_rounds next l). by constructor.
Qed.
End TerminalProps.

(** * Terminal sessions on concrete runs *)
From S2P Require Import Prelude GoStrings Prefetch Terminal TerminalStream.
From Stdlib Require Import Ascii.
From stdpp Require Import gmap strings.

Local Open Scope Z_scope.

Module TerminalSample.
Import Terminal TerminalStream TerminalProps.

(** A connection breaks under output; the next one goes on where the browser
    stopped. *)
(** Make one step from the world a hypothesis reaches; its premises are
    evaluated. *)
Ltac by_eval := solve [vm_compute; reflexivity].
Ltac go_on H St := let H' := fresh in pose proof (reach_step _ _ _ H St) as H'; clear H; vm_compute in H'; rename H' into H.
Ltac go_output H p ok :=
  match type of H with reach _ ?w =>
    let E := fresh in let E2 := fresh in let E3 := fresh in
    assert (E : slen (output w +:+ p) <= max_i64) by (by vm_compute);
    eassert (E2 : Write p ok (sink w) = (_, _)) by by_eval;
    match type of E2 with _ = (_, ?ws) => eassert (E3 : deliver ws (legs w) = Some _) by by_eval end;
    go_on H (st_output w p ok _ _ _ E E2 E3); clear E E2 E3
  end.
Ltac go_connect H c :=
  match type of H with reach _ ?w =>
    let E := fresh in let E2 := fresh in
    assert (E : legs w !! c = None) by by_eval;
    assert (E2 : map_Forall (fun _ l => bad l = true) (legs w)) by (apply map_Forall_to_list; vm_compute; repeat constructor);
    go_on H (st_connect w c E E2); clear E E2
  end.
Ltac go_resume H c okn ok :=
  match type of H with reach _ ?w =>
    let E := fresh in let E2 := fresh in let E3 := fresh in
    eassert (E : legs w !! c = Some _) by by_eval;
    match type of E with _ = Some ?l => eassert (E2 : resumeOnce c (asked l) okn ok (sink w) = (_, _, _)) by by_eval end;
    match type of E2 with _ = (_, _, ?ws) => eassert (E3 : deliver ws (legs w) = Some _) by by_eval end;
    go_on H (st_resume w c _ okn ok _ _ _ _ eq_refl E E2 E3); clear E E2 E3
  end.
Ltac go_receive H c :=
  match type of H with reach _ ?w =>
    let E := fresh in let E2 := fresh in
    eassert (E : legs w !! c = Some _) by by_eval;
    match type of E with _ = Some ?l => eassert (E2 : sent l !! got w = Some _) by by_eval end;
    go_on H (st_receive w c _ _ eq_refl E E2); clear E E2
  end.
Ltac go_end H c :=
  match type of H with reach _ ?w =>
    let E := fresh in eassert (E : legs w !! c = Some _) by by_eval; go_on H (st_end w c _ E); clear E
  end.

(** The notice of a gap, and the output that was evicted, make the browser's
    count of what it received useless as an offset: here a later resume skips
    output that is still in the ring, and says nothing. *)
Lemma resume_after_gap_skips : exists w c l, reach 8 w /\ cur w = Some c /\ legs w !! c = Some l /\ conn (sink w) = Some c /\ bad l = false /\
  got w = length (sent l) /\ asked l = slen (seen w) /\ sent l = [] /\
  output w = "0123456789abcd"%string /\ buf (ring (sink w)) = "6789abcd"%string /\ seen w = (gapNotice +:+ "23456789")%string.
Proof.
  pose proof (reach_start 8) as H. vm_compute in H.
  go_output H "0123456789"%string true. go_connect H 1%nat. go_resume H 1%nat true true. go_receive H 1%nat. go_receive H 1%nat.
  go_end H 1%nat. go_output H "abcd"%string true. go_connect H 2%nat. go_resume H 2%nat true true.
  eexists _, 2%nat, _. repeat (split; [first [exact H|reflexivity]|]). reflexivity.
Qed.

(** Two connections served one after the other, for ten minutes each, to a
    browser that sends no resume frame: the redial loop counts both as time
    offline and ends the session half a second after the first broke. *)
Lemma served_time_counts_as_offline : let t := 1000 * second in
  redial_rounds newRedial [(t + 600 * second, Served false); (t + 1200 * second + 500 * millisecond, Served false)] =
    (Some GaveUp, [500 * millisecond]).
Proof. reflexivity. Qed.

(** A session closed by its operator, and one the server no longer knows. *)
Abbreviation environ := ["PATH=/usr/bin"; "LATTICE_NODE_TOKEN=secret"; "Lc_All=C"; "AWS_SECRET_ACCESS_KEY=x"; "term=dumb"]%string.
Lemma poll_session : runPoll "" "s1" "n1" environ None None false
    [InputTick (inr [mkInput 1 "data" "ls" 0 0; mkInput 2 "close" "" 0 0]) (fun _ => true)] =
  [StartShell "/bin/sh" ["PATH=/usr/bin"; "Lc_All=C"; "TERM=xterm-256color"; "LATTICE_TERMINAL_SESSION_ID=s1"; "LATTICE_NODE_ID=n1"];
   PostStatus TerminalOpen ""%string; Pty (OpWrite "ls"); Pty OpClose; ClosePty; KillGroup; ClosePty;
   PostStatus TerminalClosed "terminal closed by operator"%string]%string.
Proof. vm_compute. reflexivity. Qed.
Lemma session_contained_witness :
  KillGroup ∈ runPoll "" "s1" "n1" environ None None false
    [InputTick (inr [mkInput 1 "data" "ls" 0 0; mkInput 2 "close" "" 0 0]) (fun _ => true)] /\
  KillGroup ∈ runStream "/bin/bash" "s1" "n1" environ None None false [Round 5 DialFailed; Round 6 DialGone].
Proof.
  split.
  - eapply (proj1 (proj2 (proj2 (session_contained "" "s1" "n1" environ None None false
      [InputTick (inr [mkInput 1 "data" "ls" 0 0; mkInput 2 "close" "" 0 0]) (fun _ => true)] [])))); [by eexists|done|done|by vm_compute].
  - apply (proj2 (proj2 (proj2 (session_contained "/bin/bash" "s1" "n1" environ None None false [] [Round 5 DialFailed; Round 6 DialGone]))));
      [by eexists|done|done|by eexists].
Defined.
End TerminalSample.
