(* ===== verification/TrustedExec.v ===== *)
(** * The trusted executable selector (internal/singboxdiscover/discover.go)

    Which running processes the agent takes as sing-box, which executables a
    sibling probe may run, why a candidate is refused, and what a trusted
    process may name: configuration files and the layout of the line chain.
    What the system calls answer are arguments; the answers of one pass are
    those of one moment. *)
From S2P Require Import Prelude GoStrings GoPath.
From Stdlib Require Import Ascii.
From stdpp Require Import gmap strings sorting.

Local Open Scope Z_scope.

Module TrustedExec.

Definition singBoxExecutableName : string := "sing-box".
Definition defaultMetaPath : string := "/etc/sing-box/lattice-metadata.json".
Definition maxDigestCacheEntries : nat := 64.
Definition maxRefusedProcesses : nat := 3.
Definition trustedExecutableSearchDirs : list string :=
  ["/bin"; "/sbin"; "/usr/bin"; "/usr/sbin"; "/usr/local/bin"; "/usr/local/sbin"]%string.

(** os.FileMode: the type bits and the permissions. *)
Definition ModeDir : Z := Z.shiftl 1 31.
Definition ModeSymlink : Z := Z.shiftl 1 27.
Definition ModeType : Z := Eval vm_compute in
  foldr Z.lor 0 [Z.shiftl 1 31; Z.shiftl 1 27; Z.shiftl 1 25; Z.shiftl 1 24; Z.shiftl 1 26; Z.shiftl 1 21; Z.shiftl 1 19].
Definition IsRegular (mode : Z) : bool := Z.land mode ModeType =? 0.
Definition IsDir (mode : Z) : bool := negb (Z.land mode ModeDir =? 0).
Definition IsSymlink (mode : Z) : bool := negb (Z.land mode ModeSymlink =? 0).
Definition Perm (mode : Z) : Z := Z.land mode 511.
Definition foreign_writable (mode : Z) : bool := negb (Z.land (Perm mode) 18 =? 0).
(** %04o of permissions. *)
Definition octal4 (p : Z) : string :=
  bytes_str (map (fun k => 48 + Z.land (Z.shiftr p k) 7) [9; 6; 3; 0]).

Record fileIdentity := mkId { mode : Z; uid : Z; dev : Z; ino : Z; modTime : time }.
Record TrustedProcess := mkProc { PID : Z; Args : list string; StartedAt : time; ExeSHA256 : string }.
Record RefusedProcess := mkRefused { r_PID : Z; Exe : string; Reason : string }.

(** ** Rules on paths and files; a reason, [""] for none *)
Definition cleanExecutablePath (exe name : string) : string * string :=
  let exe := trim_suffix (trim_space exe) " (deleted)" in
  if negb (path_abs exe) then (""%string, "executable path is not absolute"%string)
  else
    let clean := path_clean exe in
    if negb (String.eqb (path_base clean) name) then (clean, "executable is not named " +:+ name)%string
    else (clean, ""%string).

Definition explainExecutableFile (id : fileIdentity) : string :=
  (if negb (IsRegular (mode id)) then "not a regular file"
   else if negb (uid id =? 0)%Z then "owned by uid " +:+ itoa (uid id) +:+ ", not root"
   else if foreign_writable (mode id) then "group or world writable (mode " +:+ octal4 (Perm (mode id)) +:+ ")"
   else "")%string.

(** dir and every directory above it, root first; a parent is shorter, so the
    length of the path bounds the walk. *)
Fixpoint ancestors_fuel (fuel : nat) (dir : string) : list string :=
  match fuel with
  | O => [dir]
  | S fuel => let parent := path_dir dir in if String.eqb parent dir then [dir] else app (ancestors_fuel fuel parent) [dir]
  end.
Definition ancestors (dir : string) : list string := ancestors_fuel (String.length dir) dir.

Definition nul : ascii := byte_of 0.
Definition containsArg (args : list string) (want : string) : bool := existsb (fun a => String.eqb a want) args.
(** The arguments of a command line; a trailing NUL only adds an empty part. *)
Definition split_cmdline (raw : string) : list string :=
  List.filter (fun p => negb (String.eqb p "")) (split_byte nul "" (strip_all (fun t => cut_suffix t (String nul "")) (String.length raw) raw)).

Section System.
(** lstat and stat with the error's text, readlink, whole-file reads, the
    entries of the process table with a command line, the canonical path. *)
Context (lstatIdentity statIdentity : string -> string + fileIdentity) (Readlink ReadFile : string -> option string)
  (proc_table : list string) (EvalSymlinks : string -> string + string) (proc_mtime : string -> option time).

Definition readCmdline (path : string) : list string :=
  match ReadFile path with Some raw => if String.eqb raw "" then [] else split_cmdline raw | None => [] end.

Definition processRunsAsRoot (procDir : string) : bool :=
  match lstatIdentity procDir with inl _ => false | inr id => uid id =? 0 end.

Definition explain_dir (dir : string) : string :=
  (match lstatIdentity dir with
   | inl err => "cannot stat " +:+ dir +:+ ": " +:+ err
   | inr id =>
       if IsSymlink (mode id) then "directory " +:+ dir +:+ " is a symlink"
       else if negb (IsDir (mode id)) then dir +:+ " is not a directory"
       else if negb (uid id =? 0)%Z then "directory " +:+ dir +:+ " owned by uid " +:+ itoa (uid id) +:+ ", not root"
       else if foreign_writable (mode id) then "directory " +:+ dir +:+ " is group or world writable (mode " +:+ octal4 (Perm (mode id)) +:+ ")"
       else ""
   end)%string.
Fixpoint first_reason (l : list string) : string :=
  match l with [] => ""%string | dir :: l => let r := explain_dir dir in if String.eqb r "" then first_reason l else r end.
Definition explainAncestry (dir : string) : string := first_reason (ancestors dir).

Definition explainExecutablePath (exe name : string) : string :=
  let (clean, reason) := cleanExecutablePath exe name in
  if negb (String.eqb reason "") then reason
  else
    match lstatIdentity clean with
    | inl err => ("cannot stat " +:+ clean +:+ ": " +:+ err)%string
    | inr id =>
        let reason := explainExecutableFile id in
        if negb (String.eqb reason "") then reason else explainAncestry (path_dir clean)
    end.
Definition trustedSingBoxExecutable (exe : string) : bool := String.eqb (explainExecutablePath exe singBoxExecutableName) "".

(** The path or a reason. *)
Fixpoint search_dirs (name : string) (dirs : list string) : string * string :=
  match dirs with
  | [] => (""%string, name +:+ " not found in the executable search directories (" +:+
             foldr (fun d acc => if String.eqb acc "" then d else d +:+ ", " +:+ acc) "" trustedExecutableSearchDirs +:+ ")")%string
  | dir :: dirs =>
      let candidate := path_join dir name in
      match lstatIdentity candidate with
      | inl _ => search_dirs name dirs
      | inr _ =>
          match EvalSymlinks candidate with
          | inl err => (""%string, candidate +:+ ": cannot stat: " +:+ err)%string
          | inr resolved =>
              let reason := explainExecutablePath resolved name in
              if negb (String.eqb reason "") then (""%string, resolved +:+ ": " +:+ reason)%string else (resolved, ""%string)
          end
      end
  end.
Definition ResolveTrustedExecutable (name : string) : string * string :=
  let name := trim_space name in
  if String.eqb name "" || negb (String.eqb name (path_base name)) then (""%string, "executable name must be a bare file name"%string)
  else search_dirs name trustedExecutableSearchDirs.

(** ** The executable behind a process *)
Definition no_identity : fileIdentity := mkId 0 0 0 0 0.
Definition explainProcessExecutable (procDir exe : string) : string * fileIdentity * string :=
  let pid := path_base procDir in
  let (clean, reason) := cleanExecutablePath exe singBoxExecutableName in
  if negb (String.eqb reason "") then (clean, no_identity, reason)
  else
    match statIdentity (path_join procDir "exe") with
    | inl err => (clean, no_identity, "cannot stat /proc/" +:+ pid +:+ "/exe: " +:+ err)%string
    | inr running =>
        let reason := explainExecutableFile running in
        if negb (String.eqb reason "") then (clean, running, reason)
        else
          match lstatIdentity clean with
          | inl err => (clean, running, "cannot stat " +:+ clean +:+ ": " +:+ err)%string
          | inr onPath =>
              if negb (dev onPath =? dev running) || negb (ino onPath =? ino running) then
                (clean, running, "path and /proc/" +:+ pid +:+ "/exe are different files")%string
              else (clean, running, explainAncestry (path_dir clean))
          end
    end.

(** ** The digest of an executable and its cache

    [opened] is what opening the file gives: the identity behind the descriptor
    and the digest of what it reads, [None] for a failure of either. *)
Definition digestKey : Type := (Z * Z * time).
Definition key_of (id : fileIdentity) : digestKey := (dev id, ino id, modTime id).
Context (opened : string -> option (fileIdentity * option string)).
Definition executableDigest (path : string) (id : fileIdentity) (cache : gmap digestKey string) : string * gmap digestKey string :=
  match cache !! key_of id with
  | Some sum => (sum, cache)
  | None =>
      match opened path with
      | None => (""%string, cache)
      | Some (id', digest) =>
          if negb (dev id' =? dev id) || negb (ino id' =? ino id) then (""%string, cache)
          else
            match digest with
            | None => (""%string, cache)
            | Some sum => (sum, <[key_of id := sum]> (if (maxDigestCacheEntries <=? size cache)%nat then ∅ else cache))
            end
      end
  end.

(** ** The processes *)
Definition trusted_process (procDir : string) (cache : gmap digestKey string) : option TrustedProcess * gmap digestKey string :=
  if negb (processRunsAsRoot procDir) then (None, cache)
  else
    match readCmdline (path_join procDir "cmdline") with
    | [] => (None, cache)
    | arg0 :: rest =>
        if negb (containsArg (arg0 :: rest) "run") then (None, cache)
        else
          match Readlink (path_join procDir "exe") with
          | None => (None, cache)
          | Some exe =>
              let '(exe, running, reason) := explainProcessExecutable procDir exe in
              if negb (String.eqb reason "") then (None, cache)
              else
                match atoi (path_base procDir) with
                | None => (None, cache)
                | Some pid =>
                    let (sum, cache) := executableDigest (path_join procDir "exe") running cache in
                    (Some (mkProc pid (exe :: rest) (default 0 (proc_mtime procDir)) sum), cache)
                end
          end
    end.
Fixpoint trusted_list (procs : list string) (cache : gmap digestKey string) : list TrustedProcess * gmap digestKey string :=
  match procs with
  | [] => ([], cache)
  | p :: procs =>
      let (r, cache) := trusted_process p cache in
      let (l, cache) := trusted_list procs cache in
      (match r with Some t => t :: l | None => l end, cache)
  end.
(** Entries of the process table have distinct pids, so any sort by pid gives
    the same list. *)
Definition pid_le (a b : TrustedProcess) : Prop := PID a <= PID b.
#[local] Instance pid_le_dec a b : Decision (pid_le a b) := Z_le_dec (PID a) (PID b).
Definition TrustedProcesses (cache : gmap digestKey string) : list TrustedProcess * gmap digestKey string :=
  let (l, cache) := trusted_list proc_table cache in (merge_sort pid_le l, cache).
Definition singBoxProcessArgs (cache : gmap digestKey string) : list (list string) := map Args (TrustedProcesses cache).1.

Definition refused_process (procDir : string) : option RefusedProcess :=
  match readCmdline (path_join procDir "cmdline") with
  | [] => None
  | args =>
      if negb (containsArg args "run") then None
      else
        match Readlink (path_join procDir "exe") with
        | None => None
        | Some exe =>
            let (clean, nameReason) := cleanExecutablePath exe singBoxExecutableName in
            if negb (String.eqb nameReason "") then None
            else
              match atoi (path_base procDir) with
              | None => None
              | Some pid =>
                  let reason :=
                    if processRunsAsRoot procDir then (explainProcessExecutable procDir exe).2
                    else "process does not run as root"%string in
                  if String.eqb reason "" then None else Some (mkRefused pid clean reason)
              end
        end
  end.
Fixpoint refused_list (procs : list string) (out : list RefusedProcess) : list RefusedProcess :=
  match procs with
  | [] => out
  | p :: procs =>
      if (maxRefusedProcesses <=? length out)%nat then out
      else refused_list procs (match refused_process p with Some r => app out [r] | None => out end)
  end.
Definition refused_le (a b : RefusedProcess) : Prop := r_PID a <= r_PID b.
#[local] Instance refused_le_dec a b : Decision (refused_le a b) := Z_le_dec (r_PID a) (r_PID b).
Definition RefusedProcesses : list RefusedProcess := merge_sort refused_le (refused_list proc_table []).

(** ** What a trusted process names *)

(** The values of an option given as two arguments or with an equals sign:
    [named] lists the spellings of the option that take the next argument. *)
Definition option_value (names : list string) (arg : string) : option string :=
  foldl (fun acc n => match cut_prefix arg (n +:+ "=") with Some v => Some v | None => acc end) None names.
Fixpoint dir_values (fuel : nat) (args : list string) : list string :=
  match fuel, args with
  | S fuel, arg :: rest =>
      if String.eqb arg "-C" || String.eqb arg "--config-directory" then
        match rest with v :: rest => v :: dir_values fuel rest | [] => [] end
      else match option_value ["-C"; "--config-directory"]%string arg with
           | Some v => v :: dir_values fuel rest
           | None => dir_values fuel rest
           end
  | _, _ => []
  end.
Definition layout_dirs (processes : list (list string)) : gset string :=
  list_to_set (map path_clean (List.filter (fun v => negb (String.eqb v "") && path_abs v)
    (flat_map (fun args => match args with
       | [] => []
       | exe :: _ => if trustedSingBoxExecutable exe then dir_values (length args) args else []
       end) processes))).
Definition real_dir (path : string) : bool :=
  match lstatIdentity path with inr id => IsDir (mode id) && negb (IsSymlink (mode id)) | inl _ => false end.
Definition resolveRuntimeLayout (processes : list (list string)) (metaPath : string) : string + (string * string) :=
  let dirs := layout_dirs processes in
  let dirs := if bool_decide (dirs = ∅) then if real_dir "/etc/sing-box/conf" then {[ "/etc/sing-box/conf"%string ]} else dirs else dirs in
  match elements dirs with
  | [configDir] =>
      if negb (real_dir configDir) then inl "resolve sing-box config directory: path is not a real directory"%string
      else
        let metaPath := trim_space metaPath in
        let metaPath := if String.eqb metaPath "" then defaultMetaPath else metaPath in
        if negb (path_abs metaPath) then inl "resolve sing-box sidecar: path must be absolute"%string
        else inr (configDir, path_clean metaPath)
  | l => inl ("resolve sing-box config directory: found " +:+ itoa (zlen l) +:+ " active -C directories")%string
  end.
Definition ResolveRuntimeLayout (cache : gmap digestKey string) (metaPath : string) : string + (string * string) :=
  resolveRuntimeLayout (singBoxProcessArgs cache) metaPath.

(** The configuration files of the running core: [is_file] is os.Stat on
    something that is not a directory, [Glob] the matches of a pattern. *)
Context (is_file : string -> bool) (Glob : string -> list string).
Definition addFile (path : string) (out : list string) : list string :=
  let path := trim_space path in
  if String.eqb path "" || negb (path_abs path) then out
  else
    let clean := path_clean path in
    if bool_decide (clean ∈ out) then out else if is_file clean then app out [clean] else out.
Definition str_le (a b : string) : Prop := (String.leb a b) = true.
#[local] Instance str_le_dec a b : Decision (str_le a b) := decide (String.leb a b = true).
Definition addDir (path : string) (out : list string) : list string :=
  let path := trim_space path in
  if String.eqb path "" || negb (path_abs path) then out
  else foldl (fun out m => addFile m out) out (merge_sort str_le (Glob (path_join (path_clean path) "*.json"))).
Definition one_arg (arg : string) (out : list string) : list string :=
  let try prefix (add : string -> list string -> list string) out := match cut_prefix arg prefix with Some v => add v out | None => out end in
  try "--config-directory="%string addDir (try "-C="%string addDir (try "--config="%string addFile (try "-c="%string addFile out))).
Fixpoint scan_args (fuel : nat) (args : list string) (out : list string) : list string :=
  match fuel, args with
  | S fuel, arg :: rest =>
      if String.eqb arg "-c" || String.eqb arg "--config" then
        match rest with v :: rest => scan_args fuel rest (addFile v out) | [] => out end
      else if String.eqb arg "-C" || String.eqb arg "--config-directory" then
        match rest with v :: rest => scan_args fuel rest (addDir v out) | [] => out end
      else scan_args fuel rest (one_arg arg out)
  | _, _ => out
  end.
Definition singBoxRuntimeConfigFiles (processes : list (list string)) : list string :=
  let out := foldl (fun out args => match args with
      | [] => out
      | exe :: _ => if trustedSingBoxExecutable exe then scan_args (length args) args out else out
      end) [] processes in
  addDir "/etc/sing-box/conf" (addFile "/etc/sing-box/config.json" out).
End System.
End TrustedExec.
