(* ===== verification/TrustedExecProps.v ===== *)
(** * What the trusted executable selector admits

    The six rules as a specification, and that the selector is exactly them;
    that no directory above an executable escapes the check; the digest cache;
    and who may name the line chain's directory. *)
From S2P Require Import Prelude GoStrings GoPath TrustedExec.
From Stdlib Require Import Ascii.
From stdpp Require Import gmap strings sorting.

Local Open Scope Z_scope.

Module TrustedExecProps.
Import TrustedExec.

(** ** Every directory above an executable *)
Lemma ancestors_dirs l : Forall plain l -> forall n, (length l <= n)%nat ->
  ancestors_fuel n (dir_of l) = map (fun i => dir_of (take i l)) (seq 0 (S (length l))).
Proof.
  induction l as [|x l IH] using rev_ind; intros Hl n Hn; [by destruct n|].
  apply Forall_app in Hl as [Hl Hx]. inversion_clear Hx as [|? ? Hp _]. rewrite length_app in Hn. simpl in Hn.
  destruct n as [|n]; [lia|]. simpl ancestors_fuel. rewrite path_dir_snoc by done.
  destruct (String.eqb_spec (dir_of l) (dir_of (app l [x]))) as [E|_]; [by destruct (dir_of_longer l x Hp)|].
  rewrite IH by (done || lia). rewrite length_app, Nat.add_1_r, (seq_S (S (length l))), map_app. f_equal.
  - apply map_ext_in. intros i Hi%in_seq. by rewrite take_app_le by lia.
  - simpl map. f_equal. by rewrite take_ge by (rewrite length_app; simpl; lia).
Qed.
Lemma ancestors_all l : Forall plain l -> ancestors (dir_of l) = map (fun i => dir_of (take i l)) (seq 0 (S (length l))).
Proof. intros Hl. apply ancestors_dirs; [done|]. by apply dir_of_len. Qed.

Section System.
Context (lstatIdentity statIdentity : string -> string + fileIdentity) (Readlink ReadFile : string -> option string)
  (proc_table : list string) (proc_mtime : string -> option time)
  (opened : string -> option (fileIdentity * option string)).

Abbreviation explain_dir := (explain_dir lstatIdentity).
Abbreviation explainAncestry := (explainAncestry lstatIdentity).
Abbreviation explainExecutablePath := (explainExecutablePath lstatIdentity).
Abbreviation explainProcessExecutable := (explainProcessExecutable lstatIdentity statIdentity).
Abbreviation trusted_process := (trusted_process lstatIdentity statIdentity Readlink ReadFile proc_mtime opened).
Abbreviation refused_process := (refused_process lstatIdentity statIdentity Readlink ReadFile).
Abbreviation readCmdline := (readCmdline ReadFile).

(** ** The rules *)
(** A regular file of root's that nobody else may write. *)
Definition safe_file (id : fileIdentity) : Prop := IsRegular (mode id) = true /\ uid id = 0 /\ foreign_writable (mode id) = false.
(** A real directory of root's that nobody else may write. *)
Definition safe_dir (path : string) : Prop := exists id, lstatIdentity path = inr id /\
  IsSymlink (mode id) = false /\ IsDir (mode id) = true /\ uid id = 0 /\ foreign_writable (mode id) = false.
(** The path of an executable called [name] in the directory [dirs]. *)
Definition names (link name : string) (dirs : list string) : Prop :=
  Forall plain dirs /\ plain name /\ path_abs (trim_suffix (trim_space link) " (deleted)") = true /\
  path_clean (trim_suffix (trim_space link) " (deleted)") = dir_of (app dirs [name]).
Definition safe_above (dirs : list string) : Prop := forall i, (i <= length dirs)%nat -> safe_dir (dir_of (take i dirs)).

Record trusted_by_rules (procDir : string) (pid : Z) (exe : string) (rest : list string) : Prop := {
  rule_root : exists id, lstatIdentity procDir = inr id /\ uid id = 0;
  rule_run : exists arg0, readCmdline (path_join procDir "cmdline") = arg0 :: rest /\ "run"%string ∈ arg0 :: rest;
  rule_exe : exists link dirs running onPath, Readlink (path_join procDir "exe") = Some link /\
    names link singBoxExecutableName dirs /\ exe = dir_of (app dirs [singBoxExecutableName]) /\
    statIdentity (path_join procDir "exe") = inr running /\ safe_file running /\
    lstatIdentity exe = inr onPath /\ dev onPath = dev running /\ ino onPath = ino running /\
    safe_above dirs;
  rule_pid : atoi (path_base procDir) = Some pid
}.

(** ** Reasons *)
Lemma reason_nonempty c s : String.eqb (String c s) "" = false.
Proof. done. Qed.
Lemma file_reason id : explainExecutableFile id = ""%string <-> safe_file id.
Proof.
  unfold explainExecutableFile, safe_file. destruct (IsRegular (mode id)); [|split; [done|by intros (? & _)]]. simpl.
  destruct (Z.eqb_spec (uid id) 0) as [->|Hu]; [|split; [done|by intros (_ & ? & _)]]. simpl.
  destruct (foreign_writable (mode id)); split; try done; by intros (_ & _ & ?).
Qed.
Lemma dir_reason path : explain_dir path = ""%string <-> safe_dir path.
Proof.
  unfold TrustedExec.explain_dir, safe_dir. destruct (lstatIdentity path) as [err|id]; [split; [done|by intros (? & ? & _)]|].
  transitivity (IsSymlink (mode id) = false /\ IsDir (mode id) = true /\ uid id = 0 /\ foreign_writable (mode id) = false);
    [|split; [by exists id|by intros (? & [= <-] & ?)]].
  destruct (IsSymlink (mode id)); [split; [done|by intros (? & _)]|].
  destruct (IsDir (mode id)); simpl; [|split; [by destruct path|by intros (_ & ? & _)]].
  destruct (Z.eqb_spec (uid id) 0) as [->|Hu]; simpl; [|split; [done|by intros (_ & _ & ? & _)]].
  destruct (foreign_writable (mode id)); split; try done; by intros (_ & _ & _ & ?).
Qed.
Lemma first_reason_none l : first_reason lstatIdentity l = ""%string <-> Forall safe_dir l.
Proof.
  induction l as [|d l IH]; simpl; [by split|]. rewrite Forall_cons, <-dir_reason, <-IH.
  destruct (String.eqb_spec (explain_dir d) "") as [E|E]; [by rewrite E; tauto|]. tauto.
Qed.
Lemma ancestry_reason dirs : Forall plain dirs -> explainAncestry (dir_of dirs) = ""%string <-> safe_above dirs.
Proof.
  intros Hd. unfold TrustedExec.explainAncestry. rewrite first_reason_none, ancestors_all by done. unfold safe_above. rewrite Forall_forall. split.
  - intros H i Hi. apply H, list_elem_of_In, in_map_iff. exists i. split; [done|]. apply in_seq. lia.
  - intros H x Hx%list_elem_of_In%in_map_iff. destruct Hx as (i & <- & Hi%in_seq). apply H. lia.
Qed.

Lemma clean_ok link name clean : plain name ->
  cleanExecutablePath link name = (clean, ""%string) <-> exists dirs, names link name dirs /\ clean = dir_of (app dirs [name]).
Proof.
  intros Hn. unfold cleanExecutablePath, names. set (exe := trim_suffix _ _). destruct (path_abs exe) eqn:Ha; simpl.
  - destruct (path_clean_abs exe Ha) as (l & Hl & Hc). rewrite Hc. destruct (String.eqb_spec (path_base (dir_of l)) name) as [Hb|Hb]; simpl.
    + destruct l as [|x l _] using rev_ind; [apply plain_parts in Hn as (_ & _ & _ & Hn); subst name; vm_compute in Hn; done|].
      apply Forall_app in Hl as [Hl Hx]. inversion_clear Hx as [|? ? Hp _]. rewrite path_base_snoc in Hb by done. subst x.
      split; [intros [= <-]; by exists l|]. by intros (dirs & (_ & _ & _ & ->) & ->).
    + split; [done|]. intros (dirs & (Hd & _ & _ & He) & _). destruct Hb. rewrite He. by apply path_base_snoc.
  - split; [done|by intros (? & (_ & _ & ? & _) & _)].
Qed.
Lemma clean_dir link name dirs : names link name dirs -> path_dir (dir_of (app dirs [name])) = dir_of dirs.
Proof. intros (Hd & Hn & _). by apply path_dir_snoc. Qed.

Lemma sing_box_plain : plain singBoxExecutableName.
Proof. reflexivity. Qed.

Definition judged_exe (procDir link exe : string) (running : fileIdentity) : Prop := exists dirs onPath,
  names link singBoxExecutableName dirs /\ exe = dir_of (app dirs [singBoxExecutableName]) /\
  statIdentity (path_join procDir "exe") = inr running /\ safe_file running /\
  lstatIdentity exe = inr onPath /\ dev onPath = dev running /\ ino onPath = ino running /\ safe_above dirs.
Lemma process_reason procDir link exe running :
  explainProcessExecutable procDir link = (exe, running, ""%string) <-> judged_exe procDir link exe running.
Proof.
  unfold TrustedExec.explainProcessExecutable, judged_exe.
  destruct (cleanExecutablePath link singBoxExecutableName) as [clean reason] eqn:Hc.
  destruct (String.eqb_spec reason "") as [->|Hr]; simpl.
  2: { split; [by intros [= _ _ ?]|]. intros (dirs & onPath & Hn & _). assert (cleanExecutablePath link singBoxExecutableName = (dir_of (app dirs [singBoxExecutableName]), ""%string)) as Hx.
       { apply clean_ok; [done|]. by exists dirs. } rewrite Hc in Hx. by simplify_eq. }
  apply clean_ok in Hc as (dirs & Hn & ->); [|done].
  assert (Hinj : forall dirs', names link singBoxExecutableName dirs' -> dir_of (app dirs' [singBoxExecutableName]) = dir_of (app dirs [singBoxExecutableName])).
  { intros dirs' (_ & _ & _ & E). destruct Hn as (_ & _ & _ & E'). congruence. }
  destruct (statIdentity _) as [err|run]; [split; [done|by intros (? & ? & _ & _ & ? & _)]|].
  destruct (String.eqb_spec (explainExecutableFile run) "") as [Hf|Hf]; simpl.
  2: { split; [by intros [= _ _ ?]|]. intros (? & ? & _ & _ & E & Hs & _). injection E as ->. destruct Hf. by apply file_reason. }
  apply file_reason in Hf.
  destruct (lstatIdentity _) as [err|onPath] eqn:Ho.
  { split; [done|]. intros (dirs' & ? & Hn' & -> & _ & _ & E & _). rewrite (Hinj _ Hn') in E. congruence. }
  destruct (Z.eqb_spec (dev onPath) (dev run)) as [Hd|Hd]; simpl.
  2: { split; [done|]. intros (dirs' & ? & Hn' & -> & [= ->] & _ & E & ? & _). rewrite (Hinj _ Hn') in E. congruence. }
  destruct (Z.eqb_spec (ino onPath) (ino run)) as [Hi|Hi]; simpl.
  2: { split; [done|]. intros (dirs' & ? & Hn' & -> & [= ->] & _ & E & _ & ? & _). rewrite (Hinj _ Hn') in E. congruence. }
  rewrite (clean_dir _ _ _ Hn). split.
  - intros [= <- <- Ha%ancestry_reason]; [|apply Hn]. by exists dirs, onPath.
  - intros (dirs' & ? & Hn' & -> & [= ->] & _ & _ & _ & _ & Ha). rewrite (Hinj _ Hn'). f_equal.
    apply ancestry_reason; [apply Hn|]. pose proof (Hinj _ Hn') as E. apply (f_equal path_dir) in E.
    rewrite !(clean_dir _ _ _ Hn), (clean_dir _ _ _ Hn') in E. apply ancestry_reason in Ha; [|apply Hn']. rewrite E in Ha. apply ancestry_reason; [apply Hn|done].
Qed.

Lemma runs_as_root procDir : processRunsAsRoot lstatIdentity procDir = true <-> exists id, lstatIdentity procDir = inr id /\ uid id = 0.
Proof.
  unfold processRunsAsRoot. destruct (lstatIdentity procDir) as [|id]; [split; [done|by intros (? & ? & _)]|].
  rewrite Z.eqb_eq. split; [by exists id|by intros (? & [= <-] & ?)].
Qed.
Lemma contains_run args : containsArg args "run" = true <-> "run"%string ∈ args.
Proof.
  unfold containsArg. rewrite existsb_exists, list_elem_of_In. split; [by intros (x & Hx & ->%String.eqb_eq)|].
  intros H. exists "run"%string. split; [done|by apply String.eqb_eq].
Qed.

Lemma trusted_iff procDir pid exe rest cache :
  (exists t cache', trusted_process procDir cache = (Some t, cache') /\ PID t = pid /\ Args t = exe :: rest) <->
  trusted_by_rules procDir pid exe rest.
Proof.
  unfold TrustedExec.trusted_process. split.
  - intros (t & cache' & H & <- & Ha). destruct (processRunsAsRoot _ _) eqn:Hr; [|done]. apply runs_as_root in Hr. cbn [negb] in H.
    destruct (readCmdline _) as [|arg0 rest'] eqn:Hc; [done|]. destruct (containsArg (arg0 :: rest') "run") eqn:Hrun; cbn [negb] in H; [|done]. apply contains_run in Hrun.
    destruct (Readlink _) as [link|] eqn:Hl; [|done]. destruct (explainProcessExecutable procDir link) as [[exe' running] reason] eqn:He.
    destruct (String.eqb_spec reason "") as [->|]; [|done]. simpl in H. apply process_reason in He as (dirs & onPath & He).
    destruct (atoi _) as [pid|] eqn:Hp; [|done]. destruct (executableDigest _ _ _ _) as [sum c]. injection H as <- <-. simpl in Ha. injection Ha as <- <-.
    split; [done|by exists arg0| |done]. exists link, dirs, running, onPath. by split.
  - intros [Hr (arg0 & Hc & Hrun) (link & dirs & running & onPath & Hl & He) Hp]. apply runs_as_root in Hr. rewrite Hr. cbn [negb].
    apply contains_run in Hrun. rewrite Hc, Hrun, Hl. cbn [negb].
    assert (explainProcessExecutable procDir link = (exe, running, ""%string)) as -> by (apply process_reason; by exists dirs, onPath).
    simpl. rewrite Hp. destruct (executableDigest _ _ _ _) as [sum c]. by eexists _, _.
Qed.

(** A candidate is trusted, or it is refused with a reason; never both. *)
Lemma judged procDir arg0 rest link clean pid cache :
  readCmdline (path_join procDir "cmdline") = arg0 :: rest -> "run"%string ∈ arg0 :: rest ->
  Readlink (path_join procDir "exe") = Some link -> cleanExecutablePath link singBoxExecutableName = (clean, ""%string) ->
  atoi (path_base procDir) = Some pid ->
  (is_Some (trusted_process procDir cache).1 /\ refused_process procDir = None) \/
  ((trusted_process procDir cache).1 = None /\ exists r, refused_process procDir = Some r /\ Reason r <> ""%string /\ Exe r = clean).
Proof.
  intros Hc Hrun%contains_run Hl Hn Hp. unfold TrustedExec.trusted_process, TrustedExec.refused_process. rewrite Hc, Hrun, Hl, Hn, Hp. simpl.
  destruct (processRunsAsRoot _ _) eqn:Hr; simpl; [|right; split; [done|by eexists]].
  destruct (explainProcessExecutable procDir link) as [[exe running] reason]. simpl.
  destruct (String.eqb_spec reason "") as [->|Hne]; simpl; [left|right; split; [done|by eexists]].
  by destruct (executableDigest _ _ _ _).
Qed.

(** ** The lists *)
Abbreviation TrustedProcesses := (TrustedProcesses lstatIdentity statIdentity Readlink ReadFile proc_table proc_mtime opened).
Lemma trusted_list_in pid args procs : forall cache,
  (exists t, t ∈ (trusted_list lstatIdentity statIdentity Readlink ReadFile proc_mtime opened procs cache).1 /\ PID t = pid /\ Args t = args) <->
  exists procDir exe rest, procDir ∈ procs /\ args = exe :: rest /\ trusted_by_rules procDir pid exe rest.
Proof.
  induction procs as [|p procs IH]; intros cache; simpl.
  - split; [by intros (? & ?%elem_of_nil & _)|by intros (? & ? & ? & ?%elem_of_nil & _)].
  - destruct (trusted_process p cache) as [r c] eqn:Hp. specialize (IH c). destruct (trusted_list _ _ _ _ _ _ procs c) as [l c'] eqn:Hl.
    simpl in IH |- *. split.
    + intros (t & Ht & <- & <-).
      assert (Some t = r \/ t ∈ l) as [E|Hin] by (destruct r as [u|]; [apply elem_of_cons in Ht as [->|?]; [by left|by right]|by right]).
      * subst r. assert (exists exe rest, Args t = exe :: rest) as (exe & rest & Ha).
        { unfold TrustedExec.trusted_process in Hp. repeat case_hyp Hp; simplify_eq. simpl. by eexists _, _. }
        exists p, exe, rest. split; [left|]. split; [done|]. apply (trusted_iff _ _ _ _ cache). by exists t, c.
      * destruct (proj1 IH) as (q & exe & rest & Hq & ?); [by exists t|]. exists q, exe, rest. split; [by right|done].
    + intros (q & exe & rest & Hq & -> & Hr). apply elem_of_cons in Hq as [->|Hq].
      * apply (trusted_iff _ _ _ _ cache) in Hr as (t & c'' & E & ? & ?). rewrite Hp in E. injection E as -> ->. exists t. split; [left|done].
      * destruct (proj2 IH) as (t & Ht & ?); [by exists q, exe, rest|]. exists t. split; [|done]. destruct r; [by right|done].
Qed.

Lemma trusted_exactly_in cache pid args :
  (exists t, t ∈ (TrustedProcesses cache).1 /\ PID t = pid /\ Args t = args) <->
  exists procDir exe rest, procDir ∈ proc_table /\ args = exe :: rest /\ trusted_by_rules procDir pid exe rest.
Proof.
  rewrite <-(trusted_list_in pid args proc_table cache). unfold TrustedExec.TrustedProcesses.
  destruct (trusted_list _ _ _ _ _ _ proc_table cache) as [l c]. simpl.
  split; intros (t & Ht & ?); exists t; (split; [|done]); revert Ht; by rewrite merge_sort_Permutation.
Qed.

(** C4: The selector takes exactly the running processes its documented rules
    admit: run by root, with [run] among their arguments, the kernel's link
    naming a sing-box whose running file is a regular one of root's that nobody
    else may write and still the one on its path, and every directory from the
    root down to it a real one of root's that nobody else may write; and the
    argument vector it hands on begins with the kernel's path, not the
    process's claim. *)
Theorem trusted_exactly cache pid args :
  (exists t, t ∈ (TrustedProcesses cache).1 /\ PID t = pid /\ Args t = args) <->
  exists procDir exe rest, procDir ∈ proc_table /\ args = exe :: rest /\ trusted_by_rules procDir pid exe rest.
Proof. apply trusted_exactly_in. Qed.

(** ** The digest cache *)
Definition cache_ok (content : digestKey -> string) (cache : gmap digestKey string) : Prop :=
  map_Forall (fun k d => d = content k) cache /\ (size cache <= maxDigestCacheEntries)%nat.
Lemma digest_cached content path id cache : cache_ok content cache ->
  (forall id' d, opened path = Some (id', Some d) -> dev id' = dev id -> ino id' = ino id -> d = content (key_of id)) ->
  let (d, cache') := executableDigest opened path id cache in (d = ""%string \/ d = content (key_of id)) /\ cache_ok content cache'.
Proof.
  intros [Hc Hs] Ho. unfold executableDigest. destruct (cache !! key_of id) as [sum|] eqn:Hk; [split; [right; by apply Hc|done]|].
  destruct (opened path) as [[id' digest]|] eqn:E; [|by split; [left|]].
  destruct (Z.eqb_spec (dev id') (dev id)) as [Hd|Hd]; cbn [negb orb]; [|by split; [left|]].
  destruct (Z.eqb_spec (ino id') (ino id)) as [Hi|Hi]; cbn [negb orb]; [|by split; [left|]].
  destruct digest as [sum|]; [|by split; [left|]]. specialize (Ho id' sum eq_refl Hd Hi). split; [by right|].
  assert (maxDigestCacheEntries = 64)%nat as Emax by done. destruct (Nat.leb_spec maxDigestCacheEntries (size cache)).
  - split; [by apply map_Forall_insert_2; [|apply map_Forall_empty]|]. rewrite insert_empty, map_size_singleton. lia.
  - split; [by apply map_Forall_insert_2|]. rewrite map_size_insert_None by done. lia.
Qed.

(** ** What trust is used for *)
Lemma path_reason exe name : plain name -> explainExecutablePath exe name = ""%string <->
  exists dirs id, names exe name dirs /\ lstatIdentity (dir_of (app dirs [name])) = inr id /\ safe_file id /\ safe_above dirs.
Proof.
  intros Hname. unfold TrustedExec.explainExecutablePath. destruct (cleanExecutablePath exe name) as [clean reason] eqn:Hc.
  destruct (String.eqb_spec reason "") as [->|Hr]; cbn [negb].
  - apply clean_ok in Hc as (dirs & Hn & ->); [|done].
    assert (Hinj : forall dirs', names exe name dirs' -> dir_of (app dirs' [name]) = dir_of (app dirs [name])).
    { intros dirs' (_ & _ & _ & E). destruct Hn as (_ & _ & _ & E'). congruence. }
    destruct (lstatIdentity (dir_of (app dirs [name]))) as [err|id] eqn:Hl.
    { split; [done|]. intros (dirs' & id & Hn' & E & _). rewrite (Hinj _ Hn') in E. congruence. }
    destruct (String.eqb_spec (explainExecutableFile id) "") as [Hf|Hf]; cbn [negb].
    + apply file_reason in Hf. rewrite (clean_dir _ _ _ Hn). split; [intros Ha%ancestry_reason; [by exists dirs, id|apply Hn]|].
      intros (dirs' & id' & Hn' & _ & _ & Ha). pose proof (Hinj _ Hn') as E. apply (f_equal path_dir) in E.
      rewrite (clean_dir _ _ _ Hn), (clean_dir _ _ _ Hn') in E. apply ancestry_reason in Ha; [|apply Hn']. by rewrite E in Ha.
    + split; [done|]. intros (dirs' & id' & Hn' & E & Hs & _). rewrite (Hinj _ Hn'), Hl in E. injection E as ->. destruct Hf. by apply file_reason.
  - split; [done|]. intros (dirs & id & Hn & _). assert (cleanExecutablePath exe name = (dir_of (app dirs [name]), ""%string)) as Hx.
    { apply clean_ok; [done|]. by exists dirs. } rewrite Hc in Hx. by simplify_eq.
Qed.

(** The second layer, on the path of a trusted process. *)
Lemma clean_names dirs : Forall plain dirs -> names (dir_of (app dirs [singBoxExecutableName])) singBoxExecutableName dirs.
Proof.
  intros Hd. set (exe := dir_of _).
  assert (Hlast : last_byte exe = Some "x"%char).
  { unfold exe. rewrite dir_of_snoc. destruct (lead_split dirs) as (a & ->). rewrite last_byte_app by done. reflexivity. }
  assert (Htrim : trim_space exe = exe).
  { unfold exe in *. unfold dir_of in *. change ("/" +:+ join_parts (app dirs [singBoxExecutableName]))%string with (String "/" (join_parts (app dirs [singBoxExecutableName]))) in *.
    by eapply trim_space_solid. }
  assert (Hsuf : trim_suffix exe " (deleted)" = exe).
  { unfold trim_suffix, cut_suffix. destruct (has_suffix exe " (deleted)") eqn:E; [|done]. apply has_suffix_last in E; [|done]. by rewrite Hlast in E. }
  unfold names. rewrite Htrim, Hsuf. split; [done|]. split; [done|]. split; [apply has_prefix_app|].
  apply path_clean_dir, Forall_app. split; [done|]. by repeat constructor.
Qed.
Lemma rules_path procDir pid exe rest id : trusted_by_rules procDir pid exe rest -> lstatIdentity exe = inr id -> safe_file id ->
  explainExecutablePath exe singBoxExecutableName = ""%string.
Proof.
  intros [_ _ (link & dirs & running & onPath & _ & Hn & -> & _ & _ & _ & _ & _ & Ha) _] Hid Hs. apply path_reason; [done|].
  exists dirs, id. split; [apply clean_names, Hn|done].
Qed.

(** An executable found for a sibling probe passes the same rules. *)
Lemma resolved_is_safe (EvalSymlinks : string -> string + string) name path : plain (trim_space name) -> ResolveTrustedExecutable lstatIdentity EvalSymlinks name = (path, ""%string) ->
  exists dirs id, names path (trim_space name) dirs /\ lstatIdentity (dir_of (app dirs [trim_space name])) = inr id /\ safe_file id /\ safe_above dirs.
Proof.
  intros Hn. unfold ResolveTrustedExecutable. set (n := trim_space name) in *.
  destruct (String.eqb n "" || negb (String.eqb n (path_base n))); [done|]. generalize trustedExecutableSearchDirs at 1. intros dirs.
  induction dirs as [|d dirs IH]; simpl.
  - intros [= _ E]. by destruct n.
  - destruct (lstatIdentity (path_join d n)); [done|]. destruct (EvalSymlinks _) as [err|resolved]; [intros [= _ E]; by destruct (path_join d n)|].
    destruct (String.eqb_spec (explainExecutablePath resolved n) "") as [E|E]; cbn [negb].
    + intros [= <-]. by apply path_reason.
    + intros [= _ E']. by destruct resolved.
Qed.

Definition names_dir (args : list string) (dir : string) : Prop :=
  exists v, v ∈ dir_values (length args) args /\ v <> ""%string /\ path_abs v = true /\ dir = path_clean v.
Lemma layout_dirs_in processes dir : dir ∈ layout_dirs lstatIdentity processes <->
  exists exe rest, (exe :: rest) ∈ processes /\ explainExecutablePath exe singBoxExecutableName = ""%string /\ names_dir (exe :: rest) dir.
Proof.
  unfold layout_dirs, names_dir. rewrite elem_of_list_to_set, list_elem_of_In, in_map_iff. setoid_rewrite filter_In. setoid_rewrite in_flat_map. split.
  - intros (v & <- & (args & Hargs & Hv) & Hok). destruct args as [|exe rest]; [done|].
    unfold trustedSingBoxExecutable in Hv. destruct (String.eqb_spec (explainExecutablePath exe singBoxExecutableName) "") as [He|He]; [|done].
    apply andb_true_iff in Hok as [Hne Ha]. exists exe, rest. split; [by apply list_elem_of_In|]. split; [done|].
    exists v. split; [by apply list_elem_of_In|]. split; [|done]. by apply negb_true_iff, String.eqb_neq in Hne.
  - intros (exe & rest & Hin & He & v & Hv & Hne & Ha & ->). exists v. split; [done|]. split; [|by rewrite Ha, (proj2 (String.eqb_neq _ _) Hne)].
    exists (exe :: rest). split; [by apply list_elem_of_In|]. unfold trustedSingBoxExecutable. rewrite He. by apply list_elem_of_In.
Qed.

(** The line chain's directory is a real one that a trusted process names
    itself (and no trusted process names another), or, when none names any, the
    fixed default; no argument of an untrusted process, and nothing a server
    sends, chooses it. *)
Theorem layout_authority cache metaPath configDir meta :
  ResolveRuntimeLayout lstatIdentity statIdentity Readlink ReadFile proc_table proc_mtime opened cache metaPath = inr (configDir, meta) ->
  real_dir lstatIdentity configDir = true /\
  ((exists procDir pid exe rest, procDir ∈ proc_table /\ trusted_by_rules procDir pid exe rest /\ names_dir (exe :: rest) configDir) \/
   configDir = "/etc/sing-box/conf"%string) /\
  (forall procDir pid exe rest id dir, procDir ∈ proc_table -> trusted_by_rules procDir pid exe rest -> lstatIdentity exe = inr id -> safe_file id ->
     names_dir (exe :: rest) dir -> dir = configDir).
Proof.
  unfold ResolveRuntimeLayout, resolveRuntimeLayout. set (procs := singBoxProcessArgs _ _ _ _ _ _ _ _).
  assert (Hprocs : forall args, args ∈ procs <-> exists procDir pid exe rest, procDir ∈ proc_table /\ args = exe :: rest /\ trusted_by_rules procDir pid exe rest).
  { intros args. unfold procs, singBoxProcessArgs. rewrite list_elem_of_fmap. split.
    - intros (t & -> & Ht). destruct (proj1 (trusted_exactly_in cache (PID t) (Args t))) as (p & exe & rest & ?); [by exists t|]. by exists p, (PID t), exe, rest.
    - intros (p & pid & exe & rest & H). destruct (proj2 (trusted_exactly_in cache pid args)) as (t & ? & _ & ?); [by exists p, exe, rest|]. by exists t. }
  assert (Hdirs : forall dir, dir ∈ layout_dirs lstatIdentity procs <->
    exists procDir pid exe rest, procDir ∈ proc_table /\ trusted_by_rules procDir pid exe rest /\
      explainExecutablePath exe singBoxExecutableName = ""%string /\ names_dir (exe :: rest) dir).
  { intros dir. rewrite layout_dirs_in. split.
    - intros (exe & rest & Hin & He & Hn). apply Hprocs in Hin as (p & pid & ? & ? & ? & [= <- <-] & ?). by exists p, pid, exe, rest.
    - intros (p & pid & exe & rest & Hp & Hr & He & Hn). exists exe, rest. split; [apply Hprocs; by exists p, pid, exe, rest|done]. }
  destruct (elements _) as [|d [|? ?]] eqn:He; [done| |done].
  destruct (real_dir lstatIdentity d) eqn:Hreal; cbn [negb]; [|done]. destruct (negb (path_abs _)); [done|]. intros [= <- <-].
  assert (Hone : forall dir, dir ∈ (if bool_decide (layout_dirs lstatIdentity procs = ∅) then
      if real_dir lstatIdentity "/etc/sing-box/conf" then {["/etc/sing-box/conf"%string]} else layout_dirs lstatIdentity procs
      else layout_dirs lstatIdentity procs) <-> dir = d).
  { intros dir. rewrite <-elem_of_elements, He. apply list_elem_of_singleton. }
  clear He. case_bool_decide as Hempty.
  - split; [done|]. split.
    + destruct (real_dir lstatIdentity "/etc/sing-box/conf"); [right; symmetry; apply Hone; set_solver|]. assert (d ∈ (∅ : gset string)); [|set_solver]. rewrite <-Hempty. by apply Hone.
    + intros p pid exe rest id dir Hp Hr Hid Hs Hn. pose proof (rules_path _ _ _ _ _ Hr Hid Hs). assert (dir ∈ layout_dirs lstatIdentity procs) as Hin by (apply Hdirs; by exists p, pid, exe, rest). rewrite Hempty in Hin. set_solver.
  - split; [done|]. split; [left|].
    + assert (d ∈ layout_dirs lstatIdentity procs) as (p & pid & exe & rest & ? & ? & _ & ?)%Hdirs by (by apply Hone). by exists p, pid, exe, rest.
    + intros p pid exe rest id dir Hp Hr Hid Hs Hn. pose proof (rules_path _ _ _ _ _ Hr Hid Hs). apply Hone, Hdirs. by exists p, pid, exe, rest.
Qed.
End System.
End TrustedExecProps.

(** * A process table with one sing-box the selector trusts and three it refuses *)
From S2P Require Import Prelude GoStrings GoPath TrustedExec.
From Stdlib Require Import Ascii.
From stdpp Require Import gmap strings sorting.

Local Open Scope Z_scope.

Module TrustedExecSample.
Import TrustedExec TrustedExecProps.

Abbreviation file755 := (mkId 493 0 1 7 100).
Abbreviation dir755 := (mkId (ModeDir + 493) 0 1 2 0).
Abbreviation same p q := (String.eqb p q%string).
Definition lstat (p : string) : string + fileIdentity :=
  if same p "/usr/local/bin/sing-box" || same p "/opt/app/sing-box" || same p "/usr/bin/sing-box" then inr file755
  else if same p "/opt/app" then inr (mkId (ModeDir + 511) 0 1 3 0)
  else if same p "/proc/44" then inr (mkId (ModeDir + 365) 1000 2 44 0)
  else if existsb (String.eqb p) ["/"; "/usr"; "/usr/local"; "/usr/local/bin"; "/usr/bin"; "/opt"; "/etc/sing-box/lines"; "/proc/42"; "/proc/43"; "/proc/45"]%string then inr dir755
  else inl "no such file or directory"%string.
Definition stat (p : string) : string + fileIdentity :=
  if same p "/proc/45/exe" then inr (mkId 493 0 1 8 100) else if same p "/proc/42/exe" || same p "/proc/43/exe" || same p "/proc/44/exe" then inr file755
  else inl "no such file or directory"%string.
Definition readlink (p : string) : option string :=
  if same p "/proc/42/exe" || same p "/proc/44/exe" then Some "/usr/local/bin/sing-box"%string
  else if same p "/proc/43/exe" then Some "/opt/app/sing-box"%string
  else if same p "/proc/45/exe" then Some "/usr/bin/sing-box (deleted)"%string else None.
Definition cmdline (dir : string) : string := ("proxy" +:+ String nul "" +:+ "run" +:+ String nul "" +:+ "-C" +:+ String nul "" +:+ dir +:+ String nul "")%string.
Definition readfile (p : string) : option string :=
  if same p "/proc/42/cmdline" then Some (cmdline "/etc/sing-box/lines/")
  else if same p "/proc/43/cmdline" || same p "/proc/44/cmdline" || same p "/proc/45/cmdline" then Some (cmdline "/tmp/mine") else None.
Definition open_file (p : string) : option (fileIdentity * option string) :=
  if same p "/proc/42/exe" then Some (file755, Some "ab12"%string) else None.
Abbreviation table := ["/proc/45"; "/proc/43"; "/proc/42"; "/proc/44"]%string.

Lemma trusted_sample : (TrustedProcesses lstat stat readlink readfile table (fun _ => Some 5) open_file ∅).1 =
  [mkProc 42 ["/usr/local/bin/sing-box"; "run"; "-C"; "/etc/sing-box/lines/"]%string 5 "ab12"].
Proof. vm_compute. reflexivity. Qed.
Lemma refused_process_sample : RefusedProcesses lstat stat readlink readfile table =
  [mkRefused 43 "/opt/app/sing-box" "directory /opt/app is group or world writable (mode 0777)";
   mkRefused 44 "/usr/local/bin/sing-box" "process does not run as root";
   mkRefused 45 "/usr/bin/sing-box" "path and /proc/45/exe are different files"].
Proof. vm_compute. reflexivity. Qed.

Lemma layout_sample : ResolveRuntimeLayout lstat stat readlink readfile table (fun _ => Some 5) open_file ∅ " " =
  inr ("/etc/sing-box/lines", "/etc/sing-box/lattice-metadata.json")%string.
Proof. vm_compute. reflexivity. Qed.
Lemma layout_authority_witness : real_dir lstat "/etc/sing-box/lines" = true.
Proof. exact (proj1 (layout_authority lstat stat readlink readfile table (fun _ => Some 5) open_file ∅ _ _ _ layout_sample)). Defined.
Lemma resolved_sample : ResolveTrustedExecutable lstat inr "sing-box" = ("/usr/bin/sing-box", ""%string)%string.
Proof. vm_compute. reflexivity. Qed.
End TrustedExecSample.
