(* ===== verification/LineAuthority.v ===== *)
(** * What recovery may rely on (cmd/lattice-agent/main.go:
    captureLinechainAuthority and what it calls)

    Before line-chain journals are recovered, each of them is matched with the
    task outbox: the same lease, the exact script and the artifact that script
    carries, and the same result.  [entries] is the outbox's snapshot, [refs]
    the manager's. *)
From S2P Require Import Prelude GoStrings SDK TaskOutbox LineChain.
From Stdlib Require Import Ascii.
From stdpp Require Import gmap strings.

Local Open Scope Z_scope.

Module LineAuthority.
Import Outbox Chain.

(** base64.StdEncoding and json.Unmarshal into an int belong to the library. *)
Section Authority.
Context `{LineJson} (base64_decode : string -> option string) (json_int : string -> option Z).

Definition newline : string := String (byte_of 10) "".
Definition quote : string := String (byte_of 34) "".
Definition script_prefix : string :=
  "# lattice-linechain-e3-v2" +:+ newline +:+ "set -eu" +:+ newline +:+
  ": " +:+ quote +:+ "${LATTICE_AGENT_BIN:?}" +:+ quote +:+ " " +:+ quote +:+ "${LATTICE_LINECHAIN_TXN_DIR:?}" +:+ quote +:+ newline +:+
  "printf '%s' '".
Definition script_suffix : string :=
  "' | base64 -d | " +:+ quote +:+ "$LATTICE_AGENT_BIN" +:+ quote +:+ " -linechain-apply" +:+ newline.

Definition sameTaskResult (a b : TaskResult) : bool :=
  match result_encode a, result_encode b with Some x, Some y => String.eqb x y | _, _ => false end.
Definition linechainTaskScriptSHA (script : string) : string := lsha256 script.
Definition taskResultPointerSHA (result : option TaskResult) : string :=
  match result with
  | None => ""%string
  | Some r => match result_encode r with Some b => lsha256 b | None => ""%string end
  end.

Definition decodeUniqueTopLevelFields (raw : string) : option (gmap string string) := json_object raw ≫= unique_fields ∅.
(** json.Unmarshal of a field that may be missing: of no bytes it is an error. *)
Definition field {A} (decode : string -> option A) (fields : gmap string string) (name : string) : option A := fields !! name ≫= decode.

Definition linechainArtifactSHAFromTaskScript (script : string) : option string :=
  if negb (has_prefix script script_prefix) || negb (has_suffix script script_suffix) then None
  else
    let encoded := trim_suffix (trim_prefix script script_prefix) script_suffix in
    raw ← base64_decode encoded;
    fields ← decodeUniqueTopLevelFields raw;
    if negb (bool_decide (field json_int fields "version" = Some 2)) then None
    else if negb (bool_decide (field json_string fields "durable_protocol" = Some linechainProtocol)) then None
    else
      match field json_string fields "artifact_sha256" with
      | Some artifact => if validSHA artifact then Some artifact else None
      | None => None
      end.

Definition entry_key (e : Entry) : string := (tID (eTask e) +:+ String (byte_of 0) (tLeaseID (eTask e)))%string.
Definition ref_key (r : JournalRef) : string := (fTaskID r +:+ String (byte_of 0) (fLeaseID r))%string.

(** One entry against the journals: an error, or whether it matches a journal. *)
Definition match_entry (journals : gmap string JournalRef) (e : Entry) : string + bool :=
  let e3 := String.eqb (DurableProtocol e) linechainProtocol in
  match journals !! entry_key e with
  | Some ref =>
      if negb e3 then inl ("linechain journal " +:+ tID (eTask e) +:+ " has mismatched outbox protocol")%string
      else if negb (String.eqb (fTaskScriptSHA ref) (linechainTaskScriptSHA (tScript (eTask e)))) then
        inl ("linechain journal " +:+ tID (eTask e) +:+ " does not match the exact outbox task script")%string
      else if negb (bool_decide (linechainArtifactSHAFromTaskScript (tScript (eTask e)) = Some (fArtifactSHA256 ref))) then
        inl ("linechain journal " +:+ tID (eTask e) +:+ " does not match the issued artifact in the exact outbox script")%string
      else if String.eqb (State e) stateDone then
        match Result e, fResult ref with
        | Some r, Some r' =>
            if fTerminal ref && sameTaskResult r r' then inr true
            else inl ("completed E3 outbox " +:+ tID (eTask e) +:+ " conflicts with linechain terminal result")%string
        | _, _ => inl ("completed E3 outbox " +:+ tID (eTask e) +:+ " conflicts with linechain terminal result")%string
        end
      else inr true
  | None =>
      if String.eqb (State e) stateLeased && e3 then inl ("leased E3 outbox " +:+ tID (eTask e) +:+ " lacks exact linechain journal")%string else inr false
  end.
Fixpoint match_entries (journals : gmap string JournalRef) (entries : list Entry) (matched : gset string) : string + gset string :=
  match entries with
  | [] => inr matched
  | e :: entries =>
      match match_entry journals e with
      | inl err => inl err
      | inr b => match_entries journals entries (if b then {[ entry_key e ]} ∪ matched else matched)
      end
  end.
Definition journal_map (refs : list JournalRef) : gmap string JournalRef :=
  foldl (fun m r => <[ref_key r := r]> m) ∅ refs.
Definition authority_of (r : JournalRef) : RecoveryAuthority :=
  mkAuthority (fTaskScriptSHA r) (fArtifactSHA256 r) (fPhase r) (taskResultPointerSHA (fResult r)) (fJournalSHA256 r).
(** Both snapshots have been read; the last error also names one of the
    unmatched journals, the first in the map's order. *)
Definition captureLinechainAuthority (entries : list Entry) (refs : list JournalRef) : string + gmap string RecoveryAuthority :=
  let journals := journal_map refs in
  match match_entries journals entries ∅ with
  | inl err => inl err
  | inr matched =>
      if bool_decide (map_Forall (fun k _ => k ∈ matched) journals) then inr (authority_of <$> journals)
      else inl "linechain journal lacks exact leased E3 outbox"%string
  end.
Definition crossCheckLinechainAuthority (entries : list Entry) (refs : list JournalRef) : option string :=
  match captureLinechainAuthority entries refs with inl err => Some err | inr _ => None end.

(** ** What the check establishes *)

(** An entry and a journal that belong together. *)
Record exact_pair (e : Entry) (r : JournalRef) : Prop := {
  pair_protocol : DurableProtocol e = linechainProtocol;
  pair_script : fTaskScriptSHA r = linechainTaskScriptSHA (tScript (eTask e));
  pair_artifact : linechainArtifactSHAFromTaskScript (tScript (eTask e)) = Some (fArtifactSHA256 r);
  pair_result : State e = stateDone -> fTerminal r = true /\ exists x y, Result e = Some x /\ fResult r = Some y /\ sameTaskResult x y = true
}.
Record authority_holds (entries : list Entry) (journals : gmap string JournalRef) : Prop := {
  every_journal : forall k r, journals !! k = Some r -> exists e, e ∈ entries /\ entry_key e = k;
  every_pair : forall e r, e ∈ entries -> journals !! entry_key e = Some r -> exact_pair e r;
  every_lease : forall e, e ∈ entries -> State e = stateLeased -> DurableProtocol e = linechainProtocol -> is_Some (journals !! entry_key e)
}.

Lemma match_entry_spec journals e b : match_entry journals e = inr b <->
  b = bool_decide (is_Some (journals !! entry_key e)) /\
  (forall r, journals !! entry_key e = Some r -> exact_pair e r) /\
  (State e = stateLeased -> DurableProtocol e = linechainProtocol -> is_Some (journals !! entry_key e)).
Proof.
  unfold match_entry. destruct (journals !! entry_key e) as [r|] eqn:Hk.
  - rewrite (bool_decide_eq_true_2 (is_Some (Some r))) by by eexists.
    assert (Hpair : (forall r', Some r = Some r' -> exact_pair e r') <-> exact_pair e r) by (split; [auto|by intros ? ? [= <-]]).
    transitivity (b = true /\ exact_pair e r); [|split; [intros [-> ?]; split; [done|]; split; [by rewrite Hpair|by eexists]|intros (-> & H1%Hpair & _); done]].
    destruct (String.eqb_spec (DurableProtocol e) linechainProtocol) as [E1|E1]; simpl; [|split; [done|by intros [_ []]]].
    destruct (String.eqb_spec (fTaskScriptSHA r) (linechainTaskScriptSHA (tScript (eTask e)))) as [E2|E2]; simpl; [|split; [done|by intros [_ []]]].
    case_bool_decide as E3; cbn [negb]; [|split; [done|]; intros [_ [_ _ Hx _]]; by destruct E3].
    destruct (String.eqb_spec (State e) stateDone) as [E4|E4].
    + destruct (Result e) as [x|] eqn:Ex, (fResult r) as [y|] eqn:Ey;
        try (split; [done|]; intros [_ [_ _ _ Hp]]; destruct (Hp E4) as (_ & ? & ? & ? & ? & _); congruence).
      destruct (fTerminal r) eqn:Et; simpl; [|split; [done|]; intros [_ [_ _ _ Hp]]; destruct (Hp E4); congruence].
      destruct (sameTaskResult x y) eqn:Es.
      * split; [|by intros [-> _]]. intros [= <-]. split; [done|]. split; try done. intros _. split; [done|]. by exists x, y.
      * split; [done|]. intros [_ [_ _ _ Hp]]. destruct (Hp E4) as (_ & x' & y' & ? & ? & ?). congruence.
    + split; [|by intros [-> _]]. intros [= <-]. split; [done|]. by split.
  - rewrite (bool_decide_eq_false_2 (is_Some (@None JournalRef))) by by intros [].
    assert (Hnone : (forall r, None = Some r -> exact_pair e r)) by done.
    destruct (String.eqb_spec (State e) stateLeased) as [E1|E1], (String.eqb_spec (DurableProtocol e) linechainProtocol) as [E2|E2]; cbn [andb].
    { split; [done|]. intros (_ & _ & H1). by destruct (H1 E1 E2). }
    all: split; [intros [= <-]; split; [done|]; split; [done|]; congruence|by intros [-> _]].
Qed.

Lemma match_entries_spec journals entries : forall matched,
  (exists out, match_entries journals entries matched = inr out) <->
    (forall e r, e ∈ entries -> journals !! entry_key e = Some r -> exact_pair e r) /\
    (forall e, e ∈ entries -> State e = stateLeased -> DurableProtocol e = linechainProtocol -> is_Some (journals !! entry_key e)).
Proof.
  induction entries as [|e entries IH]; intros matched; simpl.
  - split; [|by eexists]. intros _. split; [by intros ? ? ?%elem_of_nil|by intros ? ?%elem_of_nil].
  - setoid_rewrite elem_of_cons. destruct (match_entry journals e) as [err|b] eqn:Hm.
    + split; [by intros []|]. intros [H1 H2]. assert (match_entry journals e = inr (bool_decide (is_Some (journals !! entry_key e)))) as Hx; [|congruence].
      apply match_entry_spec. split; [done|]. split; [intros r; apply H1; by left|apply H2; by left].
    + apply match_entry_spec in Hm as (_ & Hp & Hl). rewrite IH. split.
      * intros [H1 H2]. split; [intros e' r [->|?]; [apply Hp|by apply H1]|intros e' [->|?]; [done|by apply H2]].
      * intros [H1 H2]. split; [intros e' r ?; apply H1; by right|intros e' ?; apply H2; by right].
Qed.
Lemma match_entries_out journals entries : forall matched out, match_entries journals entries matched = inr out ->
  forall k, k ∈ out <-> k ∈ matched \/ exists e, e ∈ entries /\ entry_key e = k /\ is_Some (journals !! k).
Proof.
  induction entries as [|e entries IH]; intros matched out; simpl.
  - intros [= <-] k. split; [by left|]. intros [?|(? & ?%elem_of_nil & _)]; done.
  - destruct (match_entry journals e) as [err|b] eqn:Hm; [done|]. apply match_entry_spec in Hm as (-> & _).
    intros Ho k. rewrite (IH _ _ Ho). setoid_rewrite elem_of_cons. case_bool_decide as Hb; set_solver.
Qed.

End Authority.
End LineAuthority.
