(* ===== verification/TaskWorker.v ===== *)
(** * The task worker (cmd/lattice-agent/main.go: taskWorker)

    The poll goroutine and the worker goroutine take turns: a batch is handed
    over only while the worker is idle.  One constructor of [step] per point
    where either goroutine touches what they share. *)
From S2P Require Import Prelude.

Local Open Scope Z_scope.

Module TaskWorker.
Section Worker.
Context {Batch : Type} `{EqDecision Batch}.

(** Where the poll goroutine is: outside [poll], between the idle check and
    the end of pollTasks (the outbox is in use), or about to send a batch. *)
Inductive poller := Outside | Polling | Handing (b : Batch).
(** Where the worker goroutine is: waiting for a batch, with a batch before the
    prefetcher is held, executing (the outbox is in use), after it, with the
    prefetcher released again, or gone. *)
Inductive runner := Waiting | Received (b : Batch) | Executing (b : Batch) | Executed | Released | Gone.

#[export] Instance runner_eq_dec : EqDecision runner.
Proof. solve_decision. Defined.

Record worker := mkWorker {
  busy : bool; batches : option Batch; p_at : poller; r_at : runner; held : bool;
  stopping : bool; closed : bool; killed : bool; handed : list Batch; executed : list Batch
}.
Definition newTaskWorker : worker := mkWorker false None Outside Waiting false false false false [] [].
Definition idle (w : worker) : bool := negb (busy w).
Definition setBusy (b : bool) (w : worker) : worker :=
  mkWorker b (batches w) (p_at w) (r_at w) (held w) (stopping w) (closed w) (killed w) (handed w) (executed w).
Definition poll_at (p : poller) (w : worker) : worker :=
  mkWorker (busy w) (batches w) p (r_at w) (held w) (stopping w) (closed w) (killed w) (handed w) (executed w).
Definition run_at (r : runner) (w : worker) : worker :=
  mkWorker (busy w) (batches w) (p_at w) r (held w) (stopping w) (closed w) (killed w) (handed w) (executed w).

Inductive step (w : worker) : worker -> Prop :=
  (* poll: skipped while a batch is in flight *)
  | poll_skip : p_at w = Outside -> closed w = false -> idle w = false -> step w w
  | poll_begin : p_at w = Outside -> closed w = false -> idle w = true -> step w (poll_at Polling w)
  | poll_nothing : p_at w = Polling -> step w (poll_at Outside w)
  | poll_lease b : p_at w = Polling -> step w (setBusy true (poll_at (Handing b) w))
  | poll_send b : p_at w = Handing b -> batches w = None ->
      step w (mkWorker (busy w) (Some b) Outside (r_at w) (held w) (stopping w) (closed w) (killed w) (app (handed w) [b]) (executed w))
  (* run *)
  | run_receive b : r_at w = Waiting -> batches w = Some b ->
      step w (mkWorker (busy w) None (p_at w) (Received b) (held w) (stopping w) (closed w) (killed w) (handed w) (executed w))
  | run_hold b : r_at w = Received b ->
      step w (mkWorker (busy w) (batches w) (p_at w) (Executing b) true (stopping w) (closed w) (killed w) (handed w) (executed w))
  | run_execute b : r_at w = Executing b ->
      step w (mkWorker (busy w) (batches w) (p_at w) Executed (held w) (stopping w) (closed w) (killed w) (handed w) (app (executed w) [b]))
  | run_release : r_at w = Executed ->
      step w (mkWorker (busy w) (batches w) (p_at w) Released false (stopping w) (closed w) (killed w) (handed w) (executed w))
  | run_idle : r_at w = Released -> step w (setBusy false (run_at Waiting w))
  | run_end : r_at w = Waiting -> batches w = None -> closed w = true -> step w (run_at Gone w)
  (* shutdown, from the poll goroutine; the task is killed once its grace is over *)
  | shut_down : p_at w = Outside -> closed w = false ->
      step w (mkWorker (busy w) (batches w) (p_at w) (r_at w) (held w) true true (killed w) (handed w) (executed w))
  | kill_task : closed w = true ->
      step w (mkWorker (busy w) (batches w) (p_at w) (r_at w) (held w) (stopping w) (closed w) true (handed w) (executed w)).

Inductive reach : worker -> Prop :=
  | reach_new : reach newTaskWorker
  | reach_step w w' : reach w -> step w w' -> reach w'.

(** The seven situations of the two goroutines. *)
Inductive situation (bz : bool) (q : option Batch) (p : poller) (r : runner) (h cl : bool) : list Batch -> Prop :=
  | at_rest : bz = false -> q = None -> p = Outside -> r = Waiting \/ (r = Gone /\ cl = true) -> h = false -> situation bz q p r h cl []
  | at_poll : bz = false -> q = None -> p = Polling -> r = Waiting -> h = false -> cl = false -> situation bz q p r h cl []
  | at_handing b : bz = true -> q = None -> p = Handing b -> r = Waiting -> h = false -> cl = false -> situation bz q p r h cl []
  | at_queue b : bz = true -> q = Some b -> p = Outside -> r = Waiting -> h = false -> situation bz q p r h cl [b]
  | at_received b : bz = true -> q = None -> p = Outside -> r = Received b -> h = false -> situation bz q p r h cl [b]
  | at_executing b : bz = true -> q = None -> p = Outside -> r = Executing b -> h = true -> situation bz q p r h cl [b]
  | at_executed : bz = true -> q = None -> p = Outside -> r = Executed \/ r = Released -> h = bool_decide (r = Executed) -> situation bz q p r h cl [].
Definition inv (w : worker) : Prop := exists pending,
  situation (busy w) (batches w) (p_at w) (r_at w) (held w) (closed w) pending /\ handed w = app (executed w) pending.

Lemma worker_step_inv w w' : inv w -> step w w' -> inv w'.
Proof.
  intros (pending & Hs & Ho) Hstep. destruct w as [bz q p r h st cl k hd ex]. simpl in *.
  destruct Hs as [-> -> -> [->|[-> ->]] ->| -> -> -> -> -> -> |b -> -> -> -> -> -> |b -> -> -> -> -> |b -> -> -> -> -> |b -> -> -> -> -> | -> -> -> [->| ->] ->];
    destruct Hstep; unfold setBusy, poll_at, run_at, idle in *; simpl in *; simplify_eq; unfold inv; simpl.
  all: try (eexists; split; [solve [eapply at_rest; eauto|eapply at_poll; eauto|eapply at_handing; eauto|eapply at_queue; eauto|
    eapply at_received; eauto|eapply at_executing; eauto|eapply at_executed; eauto]|by rewrite ?app_nil_r]).
Qed.
Lemma worker_inv w : reach w -> inv w.
Proof. induction 1 as [|w w' _ I Hs]; [exists []; split; [by apply at_rest; auto|done]|by eapply worker_step_inv]. Qed.

(** C15: The outbox has one user at a time: while the poll side recovers, uploads
    and leases, the worker runs nothing; the send of a batch never blocks; the
    prefetcher is held for as long as a batch runs; and the batches handed over
    are executed once each, in order, but for the one still in hand. *)
Theorem outbox_one_at_a_time w : reach w ->
  (p_at w = Polling -> r_at w = Waiting /\ batches w = None) /\
  (forall b, p_at w = Handing b -> batches w = None /\ r_at w = Waiting) /\
  (forall b, r_at w = Executing b -> held w = true /\ p_at w = Outside) /\
  (exists pending, handed w = app (executed w) pending /\ (length pending <= 1)%nat /\ (busy w = false -> pending = [])).
Proof.
  intros (pending & Hs & Ho)%worker_inv. split; [|split; [|split]].
  4: exists pending; split; [done|]; destruct Hs; simpl; split; try lia; congruence.
  all: destruct Hs; intros; destruct_or?; destruct_and?; try congruence; split; congruence.
Qed.
End Worker.
End TaskWorker.

(** * The task worker and the captured authority on concrete runs *)
From S2P Require Import Prelude GoStrings SDK TaskOutbox LineFs LineChain LineChainSample LineAuthority.
From Stdlib Require Import Ascii.
From stdpp Require Import gmap strings.

Local Open Scope Z_scope.

Module TaskWorkerSample.
Import Outbox Chain LineAuthority TaskWorker.

(** Two batches, the first one executed while a poll is skipped. *)
Tactic Notation "go" hyp(H) tactic3(t) := match type of H with reach ?w =>
  let S := fresh in eassert (S : step w _) by (t; reflexivity); apply (reach_step _ _ H) in S; clear H; cbv in S; rename S into H end.
Lemma worker_run : exists w : worker (Batch := nat), reach w /\ executed w = [1%nat] /\ r_at w = Executing 2%nat /\ p_at w = Outside.
Proof.
  pose proof (reach_new (Batch := nat)) as H. cbv in H.
  go H (eapply poll_begin). go H (eapply (poll_lease _ 1%nat)). go H (eapply (poll_send _ 1%nat)).
  go H (eapply (run_receive _ 1%nat)). go H (eapply (run_hold _ 1%nat)). go H (eapply poll_skip).
  go H (eapply (run_execute _ 1%nat)). go H (eapply run_release). go H (eapply run_idle).
  go H (eapply poll_begin). go H (eapply (poll_lease _ 2%nat)). go H (eapply (poll_send _ 2%nat)).
  go H (eapply (run_receive _ 2%nat)). go H (eapply (run_hold _ 2%nat)).
  eexists. split; [exact H|]. repeat split.
Qed.
Lemma outbox_one_at_a_time_witness : exists w : worker (Batch := nat), reach w /\ r_at w = Executing 2%nat /\ held w = true.
Proof.
  destruct worker_run as (w & Hr & _ & Hx & _). exists w. split; [done|]. split; [done|].
  by apply (proj1 (proj2 (proj2 (outbox_one_at_a_time w Hr))) 2%nat).
Defined.

(** A journal and its lease: the script carries the artifact. *)
Abbreviation artifact := (toy_sha "artifact").
Abbreviation wrapped := (toy_object (list_to_map [("version", toy_number 2); ("durable_protocol", toy_string linechainProtocol); ("artifact_sha256", toy_string artifact)]%string)).
Abbreviation script := (script_prefix +:+ wrapped +:+ script_suffix)%string.
Abbreviation task := (mkTask "t1" "l1" "sh" script 60 0).
Abbreviation lease state result := (mkEntry entryVersion state task linechainProtocol result 0 0 "").
Abbreviation ref ph result term := (mkRef "t1" "l1" ph result term (toy_sha script) artifact "j").
Abbreviation done_result := (mkResult "t1" "l1" "n1" 0 "" "" "" 0 5).
Abbreviation capture := (captureLinechainAuthority Some toy_get_number).

Lemma lease_is_authority : capture [lease stateLeased None] [ref Prepared None false] =
  inr {[ ("t1" +:+ String (byte_of 0) "l1")%string := mkAuthority (toy_sha script) artifact Prepared "" "j" ]}.
Proof. vm_compute. reflexivity. Qed.
Lemma result_is_authority : crossCheckLinechainAuthority Some toy_get_number [lease stateDone (Some done_result)] [ref TerminalDesired (Some done_result) true] = None.
Proof. vm_compute. reflexivity. Qed.

(** A lease whose helper never wrote its journal, a journal without its lease,
    and a result the journal contradicts are no authority. *)
Lemma no_authority :
  crossCheckLinechainAuthority Some toy_get_number [lease stateLeased None] [] = Some "leased E3 outbox t1 lacks exact linechain journal"%string /\
  crossCheckLinechainAuthority Some toy_get_number [] [ref Prepared None false] = Some "linechain journal lacks exact leased E3 outbox"%string /\
  crossCheckLinechainAuthority Some toy_get_number [lease stateDone (Some done_result)] [ref TerminalOld (Some (done_result <| rExitCode := 1 |>)) true] =
    Some "completed E3 outbox t1 conflicts with linechain terminal result"%string.
Proof. vm_compute. repeat split. Qed.
End TaskWorkerSample.
