(* ===== verification/BeaconClient.v ===== *)
(** * The beacon client (internal/beacon/client.go)

    The keyring, one run of a check and the result it reports.  The wire codec
    of the SDK, the socket and the clock are arguments; a [turn] is what one
    round of the loop meets. *)
From S2P Require Import Prelude GoStrings Icmp.
From Stdlib Require Import Ascii SpecFloat.
From stdpp Require Import gmap strings.

Local Open Scope Z_scope.

Module BeaconClient.

(** ** The keyring *)
Record BeaconKey := mkKey { TargetNode : string; Epoch : Z; Key : string }.
Record AgentBeaconConfig := mkConfig { SourceID : Z; Keys : list BeaconKey }.
Record pathKey := mkPath { epoch : Z; key : string }.
Record Keyring := mkRing { sourceID : Z; keys : gmap string pathKey }.
Definition newKeyring : Keyring := mkRing 0 ∅.
(** [KeyLen] is the SDK's; key bytes are wiped once taken, which nothing here
    observes: a run has its own copy. *)
Definition take_key (KeyLen : nat) (next : gmap string pathKey) (e : BeaconKey) : gmap string pathKey :=
  let target := trim_space (TargetNode e) in
  if String.eqb target "" || (Epoch e =? 0) || negb (String.length (Key e) =? KeyLen)%nat then next
  else
    match next !! target with
    | Some have => if Epoch e <=? epoch have then next else <[target := mkPath (Epoch e) (Key e)]> next
    | None => <[target := mkPath (Epoch e) (Key e)]> next
    end.
Definition Set_ (KeyLen : nat) (cfg : option AgentBeaconConfig) : Keyring :=
  match cfg with
  | None => newKeyring
  | Some c => mkRing (SourceID c) (foldl (take_key KeyLen) ∅ (Keys c))
  end.
Definition lookup (target : string) (k : Keyring) : option (Z * pathKey) :=
  match keys k !! target with
  | Some pk => if sourceID k =? 0 then None else Some (sourceID k, pk)
  | None => None
  end.

(** ** A run *)
Record request := mkRequest { seq : Z; nonce : string; sentAt : time; sent : bool; answered : bool; ok : bool; rtt : duration }.
#[export] Instance request_eta : Etable request := fun r => mkRequest (seq r) (nonce r) (sentAt r) (sent r) (answered r) (ok r) (rtt r).
Record reply := mkReply { r_nonce : string; r_seq : Z; r_status : Z }.
Record runOutcome := mkOutcome { refusals : Z; status : option Z; err : option string }.
#[export] Instance outcome_eta : Etable runOutcome := fun o => mkOutcome (refusals o) (status o) (err o).

Inductive write_end := Wrote | WriteRefused | WriteErr (text : string).
Inductive read_end := Got (b : string) | DeadlineExceeded | ReadRefused | ErrClosed (text : string) | ReadErr (text : string).
Record turn := mkTurn {
  t_done : option string;
  t_now : time;
  t_encode : option string;
  t_sentAt : time;
  t_write : write_end;
  t_deadline : option string;
  t_read : read_end;
  t_recvAt : time;
  t_done_after : bool
}.
Record run := mkRun { reqs : list request; planned : nat; final : time; next : nat; nsent : Z; nanswered : Z; readErrs : Z; out : runOutcome }.
#[export] Instance run_eta : Etable run := fun r =>
  mkRun (reqs r) (planned r) (final r) (next r) (nsent r) (nanswered r) (readErrs r) (out r).

Section Run.
(** The reply a datagram carries, if it verifies under the path key. *)
Context (parse_reply : string -> option reply) (StatusOK StatusStale StatusUnknownEpoch : Z).
Context (start : time) (spacing timeout : duration).

(** The search ends at the first request the reply may answer. *)
Fixpoint match_reqs (rep : reply) (recvAt : time) (l : list request) : option (list request) :=
  match l with
  | [] => None
  | r :: l =>
      if negb (sent r) || answered r || negb (String.eqb (nonce r) (r_nonce rep)) || negb (seq r =? r_seq rep) then
        match match_reqs rep recvAt l with Some l => Some (r :: l) | None => None end
      else
        let d := time_sub recvAt (sentAt r) in
        if timeout <? d then None
        else Some ((if r_status rep =? StatusOK then r <| answered := true |> <| ok := true |> <| rtt := d |> else r <| answered := true |>) :: l)
  end.
Definition matchReply (b : string) (recvAt : time) (l : list request) (o : runOutcome) : option (list request * runOutcome) :=
  match parse_reply b with
  | None => None
  | Some rep =>
      match match_reqs rep recvAt l with
      | None => None
      | Some l => Some (l, if r_status rep =? StatusOK then o else o <| status := Some (r_status rep) |>)
      end
  end.

Definition sendAt (k : nat) : time := time_add start (Z.of_nat k * spacing).
Definition refusal (r : run) : run := r <| out ::= fun o => o <| refusals ::= fun n => n + 1 |> |>.
Definition fails (text : string) (r : run) : run := r <| out ::= fun o => o <| err := Some text |> |>.

(** One round; [true] when it ends the run. *)
Definition send_round (t : turn) (r : run) : run * bool :=
  match t_encode t with
  | Some e => (fails ("send: " +:+ e) r <| planned := next r |>, false)
  | None =>
      let r := r <| reqs ::= alter (fun q => q <| sentAt := t_sentAt t |>) (next r) |> in
      match t_write t with
      | WriteRefused => (refusal r <| next ::= S |>, false)
      | WriteErr e => (fails ("send: " +:+ e) r <| planned := next r |>, false)
      | Wrote =>
          (r <| reqs ::= alter (fun q => q <| sent := true |>) (next r) |> <| nsent ::= fun n => (n + 1)%Z |>
             <| final := time_add (t_sentAt t) timeout |> <| next ::= S |>, false)
      end
  end%string.
Definition read_round (t : turn) (r : run) : run * bool :=
  match t_deadline t with
  | Some e => (fails ("read: " +:+ e) r, true)
  | None =>
      match t_read t with
      | DeadlineExceeded => (r <| readErrs := 0 |>, false)
      | ReadRefused => (refusal r, false)
      | ErrClosed e => (fails ("read: " +:+ e) (r <| readErrs ::= fun n => (n + 1)%Z |>), true)
      | ReadErr e =>
          let r := r <| readErrs ::= fun n => (n + 1)%Z |> in
          if (3 <=? readErrs r)%Z || t_done_after t then (fails ("read: " +:+ e) r, true) else (r, false)
      | Got b =>
          let r := r <| readErrs := 0 |> in
          match matchReply b (t_recvAt t) (reqs r) (out r) with
          | Some (l, o) => (r <| reqs := l |> <| out := o |> <| nanswered ::= fun n => (n + 1)%Z |>, false)
          | None => (r, false)
          end
      end
  end%string.
Definition round (t : turn) (r : run) : run * bool :=
  match t_done t with
  | Some e => (fails ("run cut short: " +:+ e)%string r, true)
  | None =>
      if (next r <? planned r)%nat && negb (time_before (t_now t) (sendAt (next r))) then send_round t r
      else if (next r =? planned r)%nat && ((nanswered r =? nsent r) || negb (time_before (t_now t) (final r))) then (r, true)
      else read_round t r
  end.
Fixpoint run_rounds (ts : list turn) (r : run) : run * bool :=
  match ts with
  | [] => (r, false)
  | t :: ts => match round t r with (r, false) => run_rounds ts r | o => o end
  end.

(** ** The result *)
Inductive reason := NoReason | NotListening | Stale | UnknownEpoch | RateLimited | NoKey | DestinationRefused.
Record result := mkResult { Sent : Z; Lost : Z; RTTsMs : list spec_float; LatencyMs : spec_float; Success : bool; Reason : reason; Error : string }.
Definition statusReason (s : Z) : reason * string :=
  if s =? StatusStale then (Stale, "the target's beacon answered stale: this node's clock is more than a minute from the target's"%string)
  else if s =? StatusUnknownEpoch then (UnknownEpoch, "the target's beacon answered unknown epoch: this node's key is behind a rotation"%string)
  else (RateLimited, "the target's beacon answered rate limited"%string).
Definition fillResult (l : list request) (o : runOutcome) : result :=
  let left := List.filter sent l in
  let n := zlen left in
  let rtts := map (fun q => Icmp.elapsedMs (rtt q)) (List.filter ok left) in
  let lost := n - zlen rtts in
  match rtts with
  | _ :: _ => mkResult n lost rtts (Icmp.median rtts) true NoReason ""
  | [] =>
      if (2 <=? refusals o) || ((refusals o =? 1) && (n <=? 1)) then
        mkResult n lost [] (f64_of 0) false NotListening
          ("nothing listens at the beacon endpoint: the target refused the datagrams (port unreachable) after " +:+ itoa n +:+ " sent")%string
      else
        match status o with
        | Some s => let (why, text) := statusReason s in mkResult n lost [] (f64_of 0) false why text
        | None =>
            mkResult n lost [] (f64_of 0) false NoReason
              (match err o with
               | Some e => "beacon request after " +:+ itoa n +:+ " sent: " +:+ e
               | None => "no reply to " +:+ itoa n +:+ " beacon requests"
               end)%string
        end
  end.
End Run.

(** The requests of a run: numbered from one, each with its random nonce. *)
Definition new_requests (nonces : list string) : list request :=
  imap (fun i x => mkRequest (u32 (Z.of_nat i + 1)) x 0 false false false 0) nonces.
Definition first_run (l : list request) : run := mkRun l (length l) 0 0 0 0 0 (mkOutcome 0 None None).

Definition defaultTimeout : duration := 5 * second.
Definition monitorTimeout (TimeoutSec : Z) : duration := if TimeoutSec <=? 0 then defaultTimeout else i64 (TimeoutSec * second).
Definition packets (MonitorPackets MonitorPacketsMax : Z) : Z := Z.min (Z.max MonitorPackets 1) MonitorPacketsMax.
Definition RunBudget (n spacing timeout : duration) : duration := i64 (i64 ((n - 1) * spacing) + timeout).

(** Before anything is sent: the target is named, its endpoint accepted and a
    key held, or the result says why not. *)
Definition refused (why : reason) (text : string) : result := mkResult 0 0 [] (f64_of 0) false why text.
Definition Probe (ParseEndpoint : string -> string + string) (TargetNode Target : string) (k : Keyring)
    (go : string -> Z -> pathKey -> result) : result :=
  let target := trim_space TargetNode in
  if String.eqb target "" then refused DestinationRefused "destination refused: a beacon check must name its target node"
  else
    match ParseEndpoint Target with
    | inl e => refused DestinationRefused ("destination refused: " +:+ e)
    | inr ep =>
        match lookup target k with
        | None => refused NoKey ("this agent holds no beacon key for target node " +:+ target)
        | Some (source, pk) => go ep source pk
        end
    end.
End BeaconClient.
