(* ===== verification/BeaconClientProps.v ===== *)
(** * What a beacon check's verdict rests on *)
From S2P Require Import Prelude GoStrings Icmp BeaconClient.
From Stdlib Require Import Ascii SpecFloat.
From stdpp Require Import gmap strings.

Local Open Scope Z_scope.

Module BeaconClientProps.
Import BeaconClient.

Lemma elem_snoc {A} (x e : A) l : x ∈ app l [e] <-> x ∈ l \/ x = e.
Proof. by rewrite elem_of_app, list_elem_of_singleton. Qed.

(** ** The keyring holds the newest epoch *)
Section Keys.
Context (KeyLen : nat).
Definition usable (target : string) (e : BeaconKey) : Prop :=
  trim_space (TargetNode e) = target /\ target <> ""%string /\ Epoch e <> 0 /\ String.length (Key e) = KeyLen.
Lemma take_key_spec next e target : take_key KeyLen next e !! target =
  if decide (usable target e) then
    match next !! target with
    | Some have => Some (if Epoch e <=? epoch have then have else mkPath (Epoch e) (Key e))
    | None => Some (mkPath (Epoch e) (Key e))
    end
  else next !! target.
Proof.
  unfold take_key, usable. destruct (String.eqb_spec (trim_space (TargetNode e)) "") as [E1|E1]; cbn [orb].
  { rewrite decide_False; [done|]. intros (<- & ? & _). done. }
  destruct (Z.eqb_spec (Epoch e) 0) as [E2|E2]; cbn [orb]; [rewrite decide_False; [done|by intros (_ & _ & ? & _)]|].
  destruct (Nat.eqb_spec (String.length (Key e)) KeyLen) as [E3|E3]; cbn [negb]; [|rewrite decide_False; [done|by intros (_ & _ & _ & ?)]].
  destruct (decide (trim_space (TargetNode e) = target)) as [Et|Et].
  - rewrite decide_True by (by subst target). rewrite Et. destruct (next !! target) as [have|] eqn:Hn; [|by rewrite lookup_insert_eq].
    destruct (Epoch e <=? epoch have); [done|by rewrite lookup_insert_eq].
  - rewrite decide_False by (by intros (? & _)). destruct (next !! trim_space (TargetNode e)) as [have|]; [destruct (_ <=? _); [done|]|]; by rewrite lookup_insert_ne.
Qed.
(** What a target's key is taken from. *)
Definition newest (target : string) (l : list BeaconKey) (pk : pathKey) : Prop :=
  (exists e, e ∈ l /\ usable target e /\ pk = mkPath (Epoch e) (Key e)) /\ forall e, e ∈ l -> usable target e -> Epoch e <= epoch pk.
Lemma keys_newest target l : match foldl (take_key KeyLen) ∅ l !! target with
  | Some pk => newest target l pk
  | None => forall e, e ∈ l -> ~ usable target e
  end.
Proof.
  induction l as [|e l IH] using rev_ind; [cbn [foldl]; rewrite lookup_empty; by intros e ?%elem_of_nil|]. rewrite foldl_app. cbn [foldl]. rewrite take_key_spec.
  destruct (decide (usable target e)) as [Hu|Hu].
  - destruct (foldl (take_key KeyLen) ∅ l !! target) as [have|].
    + destruct IH as [(e' & Hin & He') Hmax]. destruct (Z.leb_spec (Epoch e) (epoch have)); (split; [|intros x [?| ->]%elem_snoc Hx]).
      * exists e'. split; [apply elem_of_app; by left|done].
      * by apply Hmax.
      * done.
      * exists e. split; [apply elem_of_app; right; by left|done].
      * simpl. specialize (Hmax x ltac:(done) Hx). lia.
      * simpl. lia.
    + split; [exists e; split; [apply elem_of_app; right; by left|done]|]. intros x [Hin| ->]%elem_snoc Hx; [by destruct (IH x Hin)|simpl; lia].
  - destruct (foldl (take_key KeyLen) ∅ l !! target) as [have|].
    + destruct IH as [(e' & Hin & He') Hmax]. split; [exists e'; split; [apply elem_of_app; by left|done]|].
      intros x [?| ->]%elem_snoc Hx; [by apply Hmax|done].
    + intros x [?| ->]%elem_snoc; [by apply IH|done].
Qed.
End Keys.

Section Run.
Context (parse_reply : string -> option reply) (StatusOK StatusStale StatusUnknownEpoch : Z).
Context (start : time) (spacing timeout : duration).
Abbreviation one := (round parse_reply StatusOK start spacing timeout).
Abbreviation go := (run_rounds parse_reply StatusOK start spacing timeout).

(** A turn that delivered a reply to a request: it verifies under the key, and
    carries the request's nonce and number, inside its wait. *)
Definition brings (t : turn) (rep : reply) (q : request) : Prop :=
  exists b, t_read t = Got b /\ parse_reply b = Some rep /\ r_nonce rep = nonce q /\ r_seq rep = seq q /\
    time_sub (t_recvAt t) (sentAt q) <= timeout.
Definition answered_by (ts : list turn) (q : request) : Prop := exists t rep, t ∈ ts /\ brings t rep q /\
  ok q = (r_status rep =? StatusOK) /\ (ok q = true -> rtt q = time_sub (t_recvAt t) (sentAt q)).
Definition good_request (ts : list turn) (n i : nat) (q : request) : Prop :=
  (sent q = true -> (i < n)%nat) /\ (ok q = true -> answered q = true) /\ (answered q = true -> sent q = true /\ answered_by ts q).
Definition good (ts : list turn) (n : nat) (l : list request) : Prop := forall i q, l !! i = Some q -> good_request ts n i q.
Definition is_refusal (t : turn) : bool :=
  match t_write t with WriteRefused => true | _ => false end || match t_read t with ReadRefused => true | _ => false end.
Definition named_by (ts : list turn) (l : list request) (s : Z) : Prop :=
  s <> StatusOK /\ exists t rep q, t ∈ ts /\ q ∈ l /\ sent q = true /\ brings t rep q /\ r_status rep = s.

Record inv (ts : list turn) (r : run) : Prop := {
  i_good : good ts (next r) (reqs r);
  i_named : forall s, status (out r) = Some s -> named_by ts (reqs r) s;
  i_refusals : 0 <= refusals (out r) <= countb is_refusal ts
}.

Lemma answered_more ts t q : answered_by ts q -> answered_by (app ts [t]) q.
Proof. intros (t' & rep & Hin & H). exists t', rep. split; [apply elem_of_app; by left|done]. Qed.
Lemma good_more ts t n n' l : good ts n l -> (n <= n')%nat -> good (app ts [t]) n' l.
Proof.
  intros H Hn i q Hi. destruct (H i q Hi) as (H1 & H2 & H3). split; [intros Hs; specialize (H1 Hs); lia|]. split; [done|].
  intros Ha. destruct (H3 Ha). split; [done|by apply answered_more].
Qed.
Lemma named_more ts t l s : named_by ts l s -> named_by (app ts [t]) l s.
Proof. intros (Hs & t' & rep & q & Hin & H). split; [done|]. exists t', rep, q. split; [apply elem_of_app; by left|done]. Qed.
Lemma refusals_more ts t : countb is_refusal (app ts [t]) = countb is_refusal ts + (if is_refusal t then 1 else 0).
Proof. rewrite countb_app, countb_cons, countb_nil. lia. Qed.

(** A round that leaves the requests. *)
Lemma inv_same ts t r r' : inv ts r -> reqs r' = reqs r -> (next r <= next r')%nat -> status (out r') = status (out r) ->
  (refusals (out r') = refusals (out r) \/ (refusals (out r') = refusals (out r) + 1 /\ is_refusal t = true)) -> inv (app ts [t]) r'.
Proof.
  intros [H1 H2 H3] E1 E2 E3 E4. split; rewrite ?E1, ?E3.
  - by eapply good_more.
  - intros s Hs. by apply named_more, H2.
  - rewrite refusals_more. destruct E4 as [->|[-> ->]]; [destruct (is_refusal t)|]; lia.
Qed.

Lemma good_alter ts n n' l (f : request -> request) : good ts n l -> (n <= n')%nat ->
  (forall q, answered (f q) = answered q /\ ok (f q) = ok q) -> (forall q, sent (f q) = true -> sent q = false -> (n < n')%nat) -> good ts n' (alter f n l).
Proof.
  intros H Hn Hf Hs i q Hi. destruct (decide (i = n)) as [->|Hne].
  - rewrite list_lookup_alter_eq in Hi. apply fmap_Some in Hi as (p & Hp & ->). destruct (H n p Hp) as (H1 & H2 & H3). destruct (Hf p) as [Ha Ho].
    assert (Hnot : sent p = false) by (destruct (sent p); [specialize (H1 eq_refl); lia|done]).
    assert (Hnoans : answered p = false) by (destruct (answered p); [destruct (H3 eq_refl); congruence|done]).
    split; [intros E; specialize (Hs p E Hnot); lia|]. rewrite Ha, Ho. split; [done|]. by rewrite Hnoans.
  - rewrite list_lookup_alter_ne in Hi by done. destruct (H i q Hi) as (H1 & H2 & H3). split; [intros E; specialize (H1 E); lia|done].
Qed.
Lemma named_alter ts n l (f : request -> request) s : good ts n l -> named_by ts l s ->
  named_by ts (alter f n l) s.
Proof.
  intros H (Hs & t & rep & q & Ht & Hq & Hsent & Hb & Hst). split; [done|]. exists t, rep, q. split; [done|]. split; [|done].
  apply list_elem_of_lookup in Hq as (i & Hi). destruct (H i q Hi) as (H1 & _). specialize (H1 Hsent).
  apply list_elem_of_lookup. exists i. by rewrite list_lookup_alter_ne by lia.
Qed.

Lemma inv_stamp ts r at' : inv ts r -> inv ts (r <| reqs ::= alter (fun q => q <| sentAt := at' |>) (next r) |>).
Proof.
  intros [H1 H2 H3]. split; upd; [|intros s Hs; eapply named_alter; eauto|done].
  eapply good_alter; [done|done|intros q; by upd|]. intros q. upd. congruence.
Qed.

(** Matching a reply touches one request, sent and not answered yet. *)
Lemma match_reqs_spec rep recvAt l : forall l', match_reqs StatusOK timeout rep recvAt l = Some l' ->
  exists i q, l !! i = Some q /\ sent q = true /\ answered q = false /\ nonce q = r_nonce rep /\ seq q = r_seq rep /\
    time_sub recvAt (sentAt q) <= timeout /\
    l' = <[i := if r_status rep =? StatusOK then q <| answered := true |> <| ok := true |> <| rtt := time_sub recvAt (sentAt q) |> else q <| answered := true |>]> l.
Proof.
  induction l as [|q l IH]; intros l'; [done|]. simpl.
  destruct (sent q) eqn:Hs; [destruct (answered q) eqn:Ha; [|destruct (String.eqb_spec (nonce q) (r_nonce rep)) as [En|En]; [destruct (Z.eqb_spec (seq q) (r_seq rep)) as [Eq|Eq]|]]|]; cbn [negb orb].
  2: destruct (Z.ltb_spec timeout (time_sub recvAt (sentAt q))); [done|]; intros [= <-]; exists 0%nat, q; split_and!; done.
  all: destruct (match_reqs _ _ _ _ l) as [l2|]; [|done]; intros [= <-]; destruct (IH l2 eq_refl) as (i & x & H1 & H2 & H3 & H4 & H5 & H6 & ->); exists (S i), x; done.
Qed.

Lemma inv_reply ts t r b l o : inv ts r -> t_read t = Got b -> matchReply parse_reply StatusOK timeout b (t_recvAt t) (reqs r) (out r) = Some (l, o) ->
  inv (app ts [t]) (r <| readErrs := 0 |> <| reqs := l |> <| out := o |> <| nanswered ::= fun n => n + 1 |>).
Proof.
  intros [H1 H2 H3] Ht Hm. unfold matchReply in Hm. destruct (parse_reply b) as [rep|] eqn:Hb; [|done].
  destruct (match_reqs _ _ _ _ _) as [l2|] eqn:Hr; [|done]. injection Hm as <- <-.
  destruct (match_reqs_spec _ _ _ _ Hr) as (k & q & Hk & Hs & Ha & Hn & Hq & Hw & ->). set (q' := if r_status rep =? StatusOK then q <| answered := true |> <| ok := true |> <| rtt := time_sub (t_recvAt t) (sentAt q) |> else q <| answered := true |>).
  assert (Hq' : sent q' = true /\ answered q' = true /\ nonce q' = nonce q /\ seq q' = seq q /\ sentAt q' = sentAt q).
  { unfold q'. destruct (_ =? _); upd; done. }
  destruct Hq' as (Q1 & Q2 & Q3 & Q4 & Q5).
  assert (Hbr : brings t rep q') by (exists b; rewrite Q3, Q4, Q5; done).
  destruct (H1 k q Hk) as (G1 & G2 & _). assert (Hoq : ok q = false) by (destruct (ok q); [specialize (G2 eq_refl); congruence|done]).
  assert (Hin : forall i x, <[k:=q']> (reqs r) !! i = Some x -> (i = k /\ x = q') \/ (i <> k /\ reqs r !! i = Some x)).
  { intros i x. destruct (decide (i = k)) as [->|Hne]; [|rewrite list_lookup_insert_ne by done; auto].
    rewrite list_lookup_insert_eq by (by eapply lookup_lt_Some). intros [= <-]. auto. }
  split; upd.
  - intros i x [[-> ->]|[_ Hi]]%Hin.
    + split; [intros _; by apply G1|]. split; [done|]. intros _. split; [done|]. exists t, rep. split; [apply elem_of_app; right; by left|]. split; [done|].
      unfold q'. destruct (r_status rep =? StatusOK); upd; [done|]. by rewrite Hoq.
    + by apply (good_more ts t (next r) (next r) (reqs r)).
  - intros s Hst. destruct (Z.eqb_spec (r_status rep) StatusOK) as [E|E].
    + destruct (H2 s Hst) as (Hne & t' & rep' & x & Hin' & Hx & Hsx & Hbx & Hst'). split; [done|]. 
      apply list_elem_of_lookup in Hx as (i & Hi). destruct (decide (i = k)) as [->|Hik].
      * exists t', rep', q'. split; [apply elem_of_app; by left|]. split; [apply list_elem_of_lookup; exists k; by rewrite list_lookup_insert_eq by (by eapply lookup_lt_Some)|].
        split; [done|]. split; [|done]. assert (x = q) as -> by congruence. destruct Hbx as (b' & ?). exists b'. by rewrite Q3, Q4, Q5.
      * exists t', rep', x. split; [apply elem_of_app; by left|]. split; [|done]. apply list_elem_of_lookup. exists i. by rewrite list_lookup_insert_ne.
    + revert Hst. upd. intros [= <-]. split; [done|]. exists t, rep, q'. split; [apply elem_of_app; right; by left|].
      split; [|done]. apply list_elem_of_lookup. exists k. by rewrite list_lookup_insert_eq by (by eapply lookup_lt_Some).
  - rewrite refusals_more. assert (refusals (if r_status rep =? StatusOK then out r else out r <| status := Some (r_status rep) |>) = refusals (out r)) as -> by (case_goal; by upd).
    destruct (is_refusal t); lia.
Qed.

Lemma inv_round ts t r r' e : inv ts r -> one t r = (r', e) -> inv (app ts [t]) r'.
Proof.
  intros I Hr. unfold round in Hr. destruct (t_done t); [injection Hr as <- <-; by eapply (inv_same ts t r); upd; auto|].
  destruct (_ && _) in Hr.
  - unfold send_round in Hr. destruct (t_encode t); [injection Hr as <- <-; by eapply (inv_same ts t r); upd; auto|].
    pose proof (inv_stamp ts r (t_sentAt t) I) as Hst. set (r1 := r <| reqs ::= _ |>) in *. destruct (t_write t) eqn:Hw; injection Hr as <- <-.
    + destruct Hst as [H1 H2 H3]. split; unfold r1 in *; upd; revert H1 H2 H3; upd; intros H1 H2 H3.
      * apply (good_more ts t (S (next r)) (S (next r))); [|done]. eapply good_alter; [exact H1|lia|intros q; by upd|]. intros; lia.
      * intros s Hs. apply named_more. eapply named_alter; [exact H1|by apply H2].
      * rewrite refusals_more. destruct (is_refusal t); lia.
    + apply (inv_same ts t r1); unfold r1; upd; try done; [apply Nat.le_succ_diag_r|]. right. split; [done|]. unfold is_refusal. by rewrite Hw.
    + apply (inv_same ts t r1); unfold r1; upd; try done. by left.
  - destruct (_ && _) in Hr; [injection Hr as <- <-; by eapply (inv_same ts t r); auto|]. unfold read_round in Hr.
    destruct (t_deadline t); [injection Hr as <- <-; by eapply (inv_same ts t r); upd; auto|].
    destruct (t_read t) as [b| | |err|err] eqn:Ht.
    + destruct (matchReply _ _ _ _ _ _ _) as [[l o]|] eqn:Hm; injection Hr as <- <-; [by eapply inv_reply|].
      by eapply (inv_same ts t r); upd; auto.
    + injection Hr as <- <-. by eapply (inv_same ts t r); upd; auto.
    + injection Hr as <- <-. eapply (inv_same ts t r); upd; try done. right. split; [done|]. unfold is_refusal. rewrite Ht. apply orb_true_r.
    + injection Hr as <- <-. by eapply (inv_same ts t r); upd; auto.
    + destruct (_ || _) in Hr; injection Hr as <- <-; by eapply (inv_same ts t r); upd; auto.
Qed.
Lemma inv_rounds ts : forall ts0 r r' e, inv ts0 r -> go ts r = (r', e) -> exists used, used `prefix_of` ts /\ inv (app ts0 used) r'.
Proof.
  induction ts as [|t ts IH]; intros ts0 r r' e I Hr; simpl in Hr.
  - injection Hr as <- <-. exists []. by rewrite app_nil_r.
  - destruct (one t r) as [r1 [|]] eqn:H1.
    + injection Hr as <- <-. exists [t]. split; [by exists ts|by eapply inv_round].
    + destruct (IH (app ts0 [t]) r1 r' e) as (used & [rest ->] & Hi); [by eapply inv_round|done|].
      exists (t :: used). split; [by exists rest|]. by rewrite <-app_assoc in Hi.
Qed.
Lemma inv_first nonces : inv [] (first_run (new_requests nonces)).
Proof.
  split; simpl; [|done|done]. intros i q Hi. unfold new_requests in Hi. rewrite list_lookup_imap in Hi. apply fmap_Some in Hi as (x & _ & ->).
  by split; [|split].
Qed.

(** ** The result *)
Abbreviation fill := (fillResult StatusStale StatusUnknownEpoch).
Definition measured (l : list request) : list request := List.filter ok (List.filter sent l).
Lemma measured_in l q : q ∈ measured l <-> q ∈ l /\ sent q = true /\ ok q = true.
Proof. unfold measured. rewrite !list_elem_of_In, !filter_In. tauto. Qed.
Lemma fill_success l o : Success (fill l o) = true <-> exists q, q ∈ measured l.
Proof.
  unfold fillResult. fold (measured l). destruct (measured l) as [|q k] eqn:Hm; simpl.
  - split; [|by intros (q & ?%elem_of_nil)]. destruct (_ || _); [done|]. destruct (status o) as [s|]; [|done]. by destruct (statusReason _ _ s).
  - split; [|done]. intros _. exists q. left.
Qed.
Lemma countb_filter {A} (P : A -> bool) (l : list A) : 1 <= countb P l -> exists x, x ∈ l /\ P x = true.
Proof.
  induction l as [|x l IH]; [rewrite countb_nil; lia|]. rewrite countb_cons. destruct (P x) eqn:E; [intros _; exists x; split; [left|done]|].
  intros H. destruct IH as (y & ? & ?); [lia|]. exists y. split; [by right|done].
Qed.
Lemma fill_reason l o : match Reason (fill l o) with
  | NotListening => 2 <= refusals o \/ (refusals o = 1 /\ zlen (List.filter sent l) <= 1)
  | NoReason => True
  | _ => is_Some (status o)
  end.
Proof.
  unfold fillResult. destruct (map _ _); [|done]. destruct (_ || _) eqn:E.
  - simpl. apply orb_true_iff in E as [E|E]; bool_to_prop; [left; lia|right; lia].
  - destruct (status o) as [s|]; [|done]. unfold statusReason. destruct (s =? StatusStale); [by eexists|]. destruct (s =? StatusUnknownEpoch); by eexists.
Qed.

End Run.
End BeaconClientProps.

(** * A beacon check on concrete runs *)
From S2P Require Import Prelude GoStrings Icmp BeaconClient.
From Stdlib Require Import Ascii SpecFloat.
From stdpp Require Import gmap strings.

Local Open Scope Z_scope.

Module BeaconClientSample.
Import BeaconClient BeaconClientProps.

(** A codec in which a datagram verifies when it begins with the key. *)
Definition parse (b : string) : option reply :=
  if String.eqb b "k:n1:ok" then Some (mkReply "n1" 1 0) else if String.eqb b "k:n2:stale" then Some (mkReply "n2" 2 1)
  else if String.eqb b "k:n2:ok" then Some (mkReply "n2" 2 0) else None.
Abbreviation ms := millisecond.
Abbreviation send at' w := (mkTurn None at' None at' w None DeadlineExceeded 0 false).
Abbreviation recv at' x := (mkTurn None at' None 0 Wrote None x at' false).
Abbreviation play := (run_rounds parse 0 (1000 * second) (200 * ms) (1 * second)).
Abbreviation t0 := (1000 * second).

(** The first request is measured although a forged datagram and a refusal
    come in between; the second is answered stale. *)
Abbreviation turns := [send t0 Wrote; recv (t0 + 10 * ms) (Got "x:n1:ok"); recv (t0 + 20 * ms) ReadRefused; recv (t0 + 30 * ms) (Got "k:n1:ok");
  recv (t0 + 40 * ms) (Got "k:n1:ok"); recv (t0 + 100 * ms) DeadlineExceeded; send (t0 + 200 * ms) Wrote; recv (t0 + 250 * ms) (Got "k:n2:stale"); recv (t0 + 260 * ms) DeadlineExceeded].
Abbreviation ended := (play turns (first_run (new_requests ["n1"; "n2"]))).
Lemma measured_sample : map rtt (measured (reqs ended.1)) = [30 * ms] /\ ended.2 = true /\ nanswered ended.1 = 2 /\ refusals (out ended.1) = 1.
Proof. vm_compute. repeat split. Qed.
Lemma result_sample : Success (fillResult 1 2 (reqs ended.1) (out ended.1)) = true /\ Lost (fillResult 1 2 (reqs ended.1) (out ended.1)) = 1.
Proof. vm_compute. repeat split. Qed.

(** One refusal among several requests does not end a run; two name it. *)
Lemma refused_datagrams_sample : let r := play [send t0 Wrote; recv (t0 + 10 * ms) ReadRefused; send (t0 + 200 * ms) WriteRefused; recv (t0 + 1100 * ms) DeadlineExceeded]
    (first_run (new_requests ["n1"; "n2"])) in
  Reason (fillResult 1 2 (reqs r.1) (out r.1)) = NotListening /\ Sent (fillResult 1 2 (reqs r.1) (out r.1)) = 1.
Proof. vm_compute. repeat split. Qed.


Lemma keyring_sample : lookup "n2" (Set_ 2 (Some (mkConfig 7 [mkKey " n2 " 3 "ab"; mkKey "n2" 2 "cd"; mkKey "n2" 3 "ef"; mkKey "n2" 9 "xyz"; mkKey "" 1 "ab"]))) =
  Some (7, mkPath 3 "ab").
Proof. vm_compute. reflexivity. Qed.
End BeaconClientSample.
