(* ===== verification/SingboxApi.v ===== *)
(** * The local API client (internal/singboxapi)

    The log stream: a buffered reader over the reads of the response body, one
    line at a time with a limit, the entries handed over, and the reconnecting
    loop; the address the client accepts; and the text fields of a connection. *)
From S2P Require Import Prelude GoStrings.
From Stdlib Require Import Ascii SpecFloat.
From stdpp Require Import gmap strings.

Local Open Scope Z_scope.

Module SingboxApi.

Definition maxLogLineBytes : nat := Z.to_nat (Z.shiftl 1 20).
Definition logReadBufferBytes : nat := Z.to_nat (Z.shiftl 64 10).
Definition maxUnaryResponseBytes : Z := Z.shiftl 32 20.
Definition defaultRequestTimeout : duration := 5 * second.
Definition defaultStreamOpenTimeout : duration := 10 * second.

(** ** A buffered reader

    [body] is what the reads of the response body will give, one after the
    other; a read takes no more than the buffer has room for.  The end of the
    stream is met by a read of its own. *)
Definition nl : ascii := byte_of 10.
Record reader := mkReader { buffered : string; body : list string }.
(** The text up to the first newline, without it, and the text behind it. *)
Fixpoint cut_line (s : string) : option (string * string) :=
  match s with
  | EmptyString => None
  | String c t => if Ascii.eqb c nl then Some (""%string, t) else match cut_line t with Some (a, b) => Some (String c a, b) | None => None end
  end.
Inductive slice_end := Found | BufferFull | Ended.
(** bufio.Reader.ReadSlice with a buffer of [size] bytes. *)
Fixpoint ReadSlice (fuel size : nat) (r : reader) : string * slice_end * reader :=
  match cut_line (buffered r) with
  | Some (a, b) => ((a +:+ String nl "")%string, Found, mkReader b (body r))
  | None =>
      if (size <=? String.length (buffered r))%nat then (buffered r, BufferFull, mkReader "" (body r))
      else
        match fuel, body r with
        | S fuel, chunk :: rest =>
            let room := (size - String.length (buffered r))%nat in
            let left := str_drop room chunk in
            ReadSlice fuel size (mkReader (buffered r +:+ str_take room chunk) (if String.eqb left "" then rest else left :: rest))
        | _, _ => (buffered r, Ended, mkReader "" [])
        end
  end.

Definition strip_eol (s : string) : option string :=
  match cut_suffix s (String (byte_of 10) "") with Some t => Some t | None => cut_suffix s (String (byte_of 13) "") end.
Definition trimEntry (raw : string) : string := trim_space (strip_all strip_eol (String.length raw) raw).

(** The line without its end ([""] for a blank or an oversized one), whether
    one was discarded, and whether the stream ended instead. *)
Fixpoint readLimitedLine (fuel size limit : nat) (buf : string) (discarding : bool) (r : reader) : string * bool * bool * reader :=
  match fuel with
  | O => (""%string, discarding, true, r)
  | S fuel' =>
      match ReadSlice fuel size r with
      | (chunk, Found, r) =>
          if discarding || (limit <? String.length buf + String.length chunk)%nat then (""%string, true, false, r)
          else (trimEntry (buf +:+ chunk), false, false, r)
      | (chunk, BufferFull, r) =>
          if discarding then readLimitedLine fuel' size limit "" true r
          else if (limit <? String.length buf + String.length chunk)%nat then readLimitedLine fuel' size limit "" true r
          else readLimitedLine fuel' size limit (buf +:+ chunk) false r
      | (_, Ended, r) => (""%string, discarding, true, r)
      end
  end.
(** What is still to be read, and rounds enough to read it. *)
Definition concat_body (l : list string) : string := foldr String.append ""%string l.
Definition remaining (r : reader) : string := (buffered r +:+ concat_body (body r))%string.
Definition rounds (r : reader) : nat := (String.length (remaining r) + length (body r) + 1)%nat.

(** The loop of [streamLogs]: the entries handed over until the stream ends. *)
Fixpoint stream_loop (fuel size limit : nat) (r : reader) : list string :=
  match fuel with
  | O => []
  | S fuel =>
      let '(line, _, ended, r') := readLimitedLine (rounds r) size limit "" false r in
      let rest := if ended then [] else stream_loop fuel size limit r' in
      if String.eqb line "" then rest else line :: rest
  end.
Definition stream_entries (chunks : list string) : list string :=
  let r := mkReader "" chunks in stream_loop (rounds r) logReadBufferBytes maxLogLineBytes r.

(** ** Errors, by what was wrong and with the values their text names *)
Inductive api_error :=
  | AddrRequired | AddrIsURL (raw : string) | NotHostPort (raw err : string) | InvalidPort (raw : string) | NotLoopback (host : string)
  | GetFailed (path err : string) | BadStatus (path status : string) | ReadFailed (path err : string) | TooLarge (path : string) | DecodeFailed (path err : string)
  | NoAnswerWithin (d : duration) | StreamBroken (err : string)
  | FieldEmpty (field : string) | NotANumber (field raw : string) | PortOutOfRange (field : string) (port : Z).

(** ** The end of a stream *)
Inductive read_error := EOF | Broken (text : string).
Inductive stream_result := Clean | CtxErr (text : string) | Failed (e : api_error).
Definition stream_end (ctx : option string) (e : read_error) : stream_result :=
  match ctx with
  | Some c => CtxErr c
  | None => match e with EOF => Clean | Broken t => Failed (StreamBroken t) end
  end.
(** Opening: [stopped] says whether the answer came before its deadline. *)
Definition stream_open (openTimeout : duration) (stopped : bool) (ctx : option string) (answer : option api_error) : option stream_result :=
  if negb stopped then Some (match ctx with Some c => CtxErr c | None => Failed (NoAnswerWithin openTimeout) end)
  else match answer with
       | Some err => Some (match ctx with Some c => CtxErr c | None => Failed err end)
       | None => None
       end.
Definition normalizeLevel (level : string) : string := if String.eqb level "" then "info"%string else level.

(** ** Reconnecting *)
Record backoff := mkBackoff { backoffBase : duration; backoffMax : duration; backoffResetAfter : duration }.
Definition default_backoff : backoff := mkBackoff (1 * second) (30 * second) (30 * second).
Fixpoint double (attempt : nat) (delay ceiling : duration) : duration :=
  match attempt with
  | O => delay
  | S attempt => if delay <? ceiling then double attempt (i64 (delay * 2)) ceiling else delay
  end.
(** The delay before the jitter. *)
Definition delayFor (b : backoff) (attempt : nat) : duration :=
  let base := backoffBase b in
  let ceiling := if backoffMax b <? base then base else backoffMax b in
  let delay := double attempt base ceiling in
  if (ceiling <? delay) || (delay <=? 0) then ceiling else delay.
Definition backoffFor (b : backoff) (jitter : spec_float) (attempt : nat) : duration :=
  if backoffBase b <=? 0 then 0
  else
    let delay := delayFor b attempt in
    let half := Z.quot delay 2 in
    i64 (half + f64_trunc (f64_mul jitter (f64_of (delay - half)))).

(** What the retry loop reports: an attempt begins and ends at two instants
    with a result; [None] for the context's end. *)
Inductive reported := StreamClosed | Refused (e : api_error).
Record attempt_run := mkAttempt { a_start : time; a_end : time; a_result : stream_result; a_jitter : spec_float }.
Fixpoint retry_loop (b : backoff) (attempt : nat) (l : list attempt_run) : list (reported * duration) * option string :=
  match l with
  | [] => ([], None)
  | a :: l =>
      match a_result a with
      | CtxErr c => ([], Some c)
      | res =>
          let attempt := if backoffResetAfter b <=? time_sub (a_end a) (a_start a) then O else attempt in
          let (rest, e) := retry_loop b (S attempt) l in
          ((match res with Failed t => Refused t | _ => StreamClosed end, backoffFor b (a_jitter a) attempt) :: rest, e)
      end
  end.

(** ** The address

    [SplitHostPort] is net.SplitHostPort, [ip_loopback] whether net.ParseIP
    accepts a text as a loopback address. *)
Section Address.
Context (SplitHostPort : string -> string + string * string) (JoinHostPort : string -> string -> string) (ip_loopback : string -> bool).
Definition bracket (c : ascii) : bool := Ascii.eqb c "["%char || Ascii.eqb c "]"%char.
Definition strip_first_bracket (s : string) : option string := match s with String c t => if bracket c then Some t else None | _ => None end.
Definition strip_last_bracket (s : string) : option string := match cut_suffix s "]" with Some t => Some t | None => cut_suffix s "[" end.
Definition trim_brackets (s : string) : string :=
  let l := strip_all strip_first_bracket (String.length s) s in strip_all strip_last_bracket (String.length l) l.
Definition isLoopbackHost (host : string) : bool :=
  let host := trim_brackets (lower (trim_space host)) in
  if String.eqb host "localhost" then true
  else ip_loopback (match index_of host "%" with Some i => str_take i host | None => host end).
Definition ValidateLoopbackAddr (raw : string) : api_error + string :=
  let addr := trim_space raw in
  if String.eqb addr "" then inl AddrRequired
  else if contains addr "//" || contains addr "@" then inl (AddrIsURL raw)
  else
    match SplitHostPort addr with
    | inl err => inl (NotHostPort raw err)
    | inr (host, port) =>
        match atoi port with
        | None => inl (InvalidPort raw)
        | Some n =>
            if (n <? 1) || (65535 <? n) then inl (InvalidPort raw)
            else if negb (isLoopbackHost host) then inl (NotLoopback host)
            else inr (JoinHostPort (trim_brackets host) port)
        end
    end.
(** The client: where its requests go, its token and how long an opening may
    take. *)
Record Client := mkClient { baseURL : string; secret : string; streamOpenTimeout : duration }.
Definition SetSecret (s : string) (c : Client) : Client := mkClient (baseURL c) (trim_space s) (streamOpenTimeout c).
Definition New (addr sec : string) (openTimeout : duration) : api_error + Client :=
  match ValidateLoopbackAddr addr with
  | inl err => inl err
  | inr addr =>
      inr (SetSecret sec (mkClient ("http://" +:+ addr)%string "" (if openTimeout <=? 0 then defaultStreamOpenTimeout else openTimeout)))
  end.
(** A request: its address and the token it carries; the answer, which must
    be a 2xx; and a document, read whole, bounded and decoded. *)
Definition request_of (c : Client) (path query : string) : string * option string :=
  ((baseURL c +:+ path +:+ if String.eqb query "" then "" else "?" +:+ query)%string, if String.eqb (secret c) "" then None else Some (secret c)).
Record http_answer := mkAnswer { StatusCode : Z; Status : string; answer_body : string + string }.
Definition do_ (path : string) (answer : string + http_answer) : api_error + http_answer :=
  match answer with
  | inl err => inl (GetFailed path err)
  | inr r => if (StatusCode r <? 200) || (300 <=? StatusCode r) then inl (BadStatus path (Status r)) else inr r
  end.
Definition getJSON {A} (decode : string -> string + A) (path : string) (answer : string + http_answer) : api_error + A :=
  match do_ path answer with
  | inl e => inl e
  | inr r =>
      match answer_body r with
      | inl err => inl (ReadFailed path err)
      | inr data =>
          if maxUnaryResponseBytes <? Z.of_nat (String.length data) then inl (TooLarge path)
          else match decode data with inl e => inl (DecodeFailed path e) | inr v => inr v end
      end
  end.
End Address.

(** ** Text fields of a connection *)
Definition InboundTypeAndTag (type : string) : string * string := match cut type "/" with Some (a, b) => (a, b) | None => (type, ""%string) end.
Definition parsePort (field raw : string) : api_error + Z :=
  let trimmed := trim_space raw in
  if String.eqb trimmed "" then inl (FieldEmpty field)
  else match atoi trimmed with
       | None => inl (NotANumber field raw)
       | Some port => if (port <? 0) || (65535 <? port) then inl (PortOutOfRange field port) else inr port
       end.
End SingboxApi.

(** * What the log stream delivers *)
From S2P Require Import Prelude GoStrings.
From Stdlib Require Import Ascii SpecFloat.
From stdpp Require Import gmap strings.

Local Open Scope Z_scope.

Module SingboxApiProps.
Import SingboxApi.

(** ** The reference: the complete lines of the whole text *)
Fixpoint complete_lines (cur s : string) : list string :=
  match s with
  | EmptyString => []
  | String c t => if Ascii.eqb c nl then cur :: complete_lines "" t else complete_lines (cur +:+ String c "") t
  end.
Definition nonblank (s : string) : bool := negb (String.eqb s "").
Definition entry_of (limit : nat) (line : string) : string :=
  if (limit <? String.length line + 1)%nat then ""%string else trimEntry (line +:+ String nl "").
(** Every complete line within the limit, trimmed, but for the blank ones. *)
Definition entries_of (limit : nat) (text : string) : list string := List.filter nonblank (map (entry_of limit) (complete_lines "" text)).

Lemma complete_split a b : no_byte nl a = true -> forall cur, complete_lines cur (a +:+ String nl b) = (cur +:+ a)%string :: complete_lines "" b.
Proof.
  induction a as [|c a IH]; intros Ha cur.
  - rewrite app_empty, app_empty_r. done.
  - apply no_byte_cons in Ha as [Hc Ha]. rewrite app_cons. simpl. rewrite (proj2 (Ascii.eqb_neq c nl) Hc), IH by done.
    by rewrite string_app_assoc, app_cons, app_empty.
Qed.
Lemma complete_none s : no_byte nl s = true -> forall cur, complete_lines cur s = [].
Proof.
  induction s as [|c s IH]; intros Hs cur; [done|]. apply no_byte_cons in Hs as [Hc Hs]. simpl. by rewrite (proj2 (Ascii.eqb_neq c nl) Hc), IH.
Qed.

(** ** The reader *)
Lemma cut_line_spec s : match cut_line s with Some (a, b) => s = a +:+ String nl b /\ no_byte nl a = true | None => no_byte nl s = true end.
Proof.
  induction s as [|c s IH]; [done|]. simpl. destruct (Ascii.eqb_spec c nl) as [->|Hc]; [done|].
  destruct (cut_line s) as [[a b]|].
  - destruct IH as [-> Ha]. split; [done|]. apply no_byte_cons. done.
  - apply no_byte_cons. done.
Qed.
Lemma concat_length_cons c l : String.length (concat_body (c :: l)) = (String.length c + String.length (concat_body l))%nat.
Proof. simpl. apply string_app_length. Qed.

Lemma ReadSlice_spec size : (0 < size)%nat -> forall fuel r,
  (String.length (concat_body (body r)) + length (body r) <= fuel)%nat ->
  match ReadSlice fuel size r with
  | (s, e, r') =>
      (length (body r') <= length (body r))%nat /\
      match e with
      | Found => exists a, s = a +:+ String nl "" /\ no_byte nl a = true /\ remaining r = s +:+ remaining r'
      | BufferFull => no_byte nl s = true /\ (size <= String.length s)%nat /\ remaining r = s +:+ remaining r'
      | Ended => s = remaining r /\ no_byte nl s = true
      end
  end.
Proof.
  intros Hsize. assert (Hstop : forall s (r : reader), cut_line (buffered r) = Some s -> (buffered r = s.1 +:+ String nl s.2 /\ no_byte nl s.1 = true)).
  { intros [a b] r E. pose proof (cut_line_spec (buffered r)) as H. by rewrite E in H. }
  induction fuel as [|fuel IH]; intros r Hf; simpl; pose proof (cut_line_spec (buffered r)) as Hc; destruct (cut_line (buffered r)) as [[a b]|].
  1,3: destruct Hc as [Hb Ha]; split; [done|]; exists a; split; [done|]; split; [done|];
    unfold remaining; simpl; rewrite Hb, !string_app_assoc; f_equal.
  1,2: destruct (Nat.leb_spec size (String.length (buffered r))) as [Hl|Hl]; [split; [done|]; split; [done|]; split; [done|]; done|].
  - split; [simpl; lia|]. destruct (body r) eqn:E; [|simpl in Hf; lia]. unfold remaining. rewrite E. simpl. by rewrite app_empty_r.
  - destruct (body r) as [|chunk rest] eqn:E; [split; [done|]; unfold remaining; rewrite E; simpl; by rewrite app_empty_r|].
    set (room := (size - String.length (buffered r))%nat). set (left := str_drop room chunk).
    set (r2 := mkReader _ _). rewrite concat_length_cons in Hf. simpl in Hf.
    assert (Hsplit : chunk = str_take room chunk +:+ left) by (symmetry; apply str_take_drop).
    assert (Hleft : String.length left = (String.length chunk - room)%nat) by apply str_drop_len.
    assert (Hrem : remaining r = remaining r2).
    { unfold remaining, r2. rewrite E. simpl. rewrite string_app_assoc. f_equal. destruct (String.eqb_spec left "") as [El|El].
      - rewrite Hsplit at 1. by rewrite El, app_empty_r.
      - simpl. rewrite <-string_app_assoc. by rewrite <-Hsplit. }
    assert (Hbody : (length (body r2) <= S (length rest))%nat) by (unfold r2; simpl; destruct (String.eqb left ""); simpl; lia).
    specialize (IH r2). destruct (ReadSlice fuel size r2) as [[s e] r'].
    destruct IH as [Hle H].
    { unfold r2. simpl. destruct (String.eqb_spec left "") as [El|El]; [lia|]. rewrite concat_length_cons. simpl.
      assert (String.length left <> 0%nat) by (by destruct left). unfold room in *. lia. }
    split; [simpl; lia|]. by rewrite Hrem.
Qed.

Lemma readLimitedLine_spec size limit : (0 < size)%nat -> forall fuel buf discarding r seen,
  (rounds r <= fuel)%nat -> (discarding = false -> buf = seen) -> (discarding = true -> (limit < String.length seen)%nat) ->
  match readLimitedLine fuel size limit buf discarding r with
  | (line, _, ended, r') =>
      if ended : bool then line = ""%string /\ no_byte nl (remaining r) = true
      else exists a, no_byte nl a = true /\ remaining r = a +:+ String nl (remaining r') /\ line = entry_of limit (seen +:+ a)
             /\ (rounds r' < rounds r)%nat
  end.
Proof.
  intros Hsize. induction fuel as [|fuel IH]; intros buf discarding r seen Hf Hbuf Hdis; [unfold rounds in Hf; lia|]. cbn [readLimitedLine].
  assert (Henough : (String.length (concat_body (body r)) + length (body r) <= S fuel)%nat).
  { unfold rounds, remaining in Hf. rewrite string_app_length in Hf. lia. }
  pose proof (ReadSlice_spec size Hsize (S fuel) r Henough) as Hs.
  destruct (ReadSlice (S fuel) size r) as [[chunk e] r']. destruct Hs as [Hle Hs]. destruct e.
  - destruct Hs as (a & -> & Ha & Hrem). rewrite string_app_assoc in Hrem. change (String nl "" +:+ remaining r')%string with (String nl (remaining r')) in Hrem.
    assert (Hround : (rounds r' < rounds r)%nat).
    { unfold rounds. rewrite Hrem, string_app_length. simpl. lia. }
    assert (Hlen : String.length (a +:+ String nl "") = (String.length a + 1)%nat) by (by rewrite string_app_length).
    destruct discarding; simpl.
    + exists a. split; [done|]. split; [done|]. split; [|done]. unfold entry_of. rewrite string_app_length. specialize (Hdis eq_refl).
      destruct (Nat.ltb_spec limit (String.length seen + String.length a + 1)); [done|lia].
    + specialize (Hbuf eq_refl). subst buf. rewrite Hlen.
      destruct (Nat.ltb_spec limit (String.length seen + (String.length a + 1))); exists a; (split; [done|]; split; [done|]; split; [|done]);
        unfold entry_of; rewrite string_app_length; destruct (Nat.ltb_spec limit (String.length seen + String.length a + 1)); try lia; [done|].
      by rewrite string_app_assoc.
  - destruct Hs as (Hn & Hfull & Hrem). assert (Hr' : (rounds r' < rounds r)%nat) by (unfold rounds; rewrite Hrem, string_app_length; lia).
    assert (Hgo : forall buf' d, (d = false -> buf' = seen +:+ chunk) -> (d = true -> (limit < String.length (seen +:+ chunk))%nat) ->
      match readLimitedLine fuel size limit buf' d r' with
      | (line, _, ended, r'') =>
          if ended : bool then line = ""%string /\ no_byte nl (remaining r) = true
          else exists a, no_byte nl a = true /\ remaining r = a +:+ String nl (remaining r'') /\ line = entry_of limit (seen +:+ a) /\ (rounds r'' < rounds r)%nat
      end).
    { intros buf' d H1 H2. specialize (IH buf' d r' (seen +:+ chunk)). destruct (readLimitedLine fuel size limit buf' d r') as [[[line o] ended] r''].
      specialize (IH ltac:(lia) H1 H2). destruct ended.
      - destruct IH as [-> Hx]. split; [done|]. by rewrite Hrem, no_byte_app, Hn.
      - destruct IH as (a & Ha & Hx & Hline & Hlt). exists (chunk +:+ a). split; [by rewrite no_byte_app, Hn|]. split; [by rewrite Hrem, Hx, string_app_assoc|].
        split; [by rewrite Hline, string_app_assoc|lia]. }
    destruct discarding; [apply Hgo; [done|intros _; rewrite string_app_length; specialize (Hdis eq_refl); lia]|].
    specialize (Hbuf eq_refl). subst buf. destruct (Nat.ltb_spec limit (String.length seen + String.length chunk)).
    + apply Hgo; [done|intros _; by rewrite string_app_length].
    + by apply Hgo.
  - by destruct Hs as [-> Hn].
Qed.

Lemma stream_loop_spec size limit : (0 < size)%nat -> forall fuel r, (rounds r <= fuel)%nat ->
  stream_loop fuel size limit r = entries_of limit (remaining r).
Proof.
  intros Hsize. induction fuel as [|fuel IH]; intros r Hf; [unfold rounds in Hf; lia|]. simpl.
  pose proof (readLimitedLine_spec size limit Hsize (rounds r) "" false r "" ltac:(lia) ltac:(intros _; reflexivity) ltac:(intros ?; discriminate)) as H.
  destruct (readLimitedLine (rounds r) size limit "" false r) as [[[line o] ended] r']. destruct ended.
  - destruct H as [-> Hn]. simpl. unfold entries_of. by rewrite complete_none.
  - destruct H as (a & Ha & Hrem & -> & Hlt). rewrite IH by lia. unfold entries_of. rewrite Hrem, complete_split by done. rewrite !app_empty. simpl.
    destruct (nonblank (entry_of limit a)) eqn:E; unfold nonblank in E; by destruct (String.eqb (entry_of limit a) "").
Qed.

(** C29: However the stream arrives, cut into whatever reads and longer than the
    buffer or not, the entries handed over are its complete lines of at most
    1 MiB, trimmed, in order, but for the blank ones: an oversized line costs
    no line after it, and half a line is never an entry. *)
Theorem log_stream_exact chunks : stream_entries chunks = entries_of maxLogLineBytes (concat_body chunks).
Proof.
  unfold stream_entries. rewrite stream_loop_spec; [|unfold logReadBufferBytes; change (Z.shiftl 64 10) with 65536; lia|done]. unfold remaining. simpl. by rewrite app_empty.
Qed.

(** ** Reconnecting *)
Lemma double_bounds base ceiling : 0 < base <= ceiling -> ceiling <= 2 ^ 61 -> forall n d, base <= d <= 2 * ceiling ->
  base <= double n d ceiling <= 2 * ceiling.
Proof.
  intros Hb Hc. induction n as [|n IH]; intros d Hd; simpl; [done|]. destruct (Z.ltb_spec d ceiling); [|done].
  apply IH. rewrite i64_small by (unfold min_i64, max_i64; lia). lia.
Qed.
Lemma delay_bounds b n : 0 < backoffBase b -> backoffBase b <= backoffMax b <= 2 ^ 61 -> backoffBase b <= delayFor b n <= backoffMax b.
Proof.
  intros Hb Hm. unfold delayFor. destruct (Z.ltb_spec (backoffMax b) (backoffBase b)); [lia|].
  pose proof (double_bounds (backoffBase b) (backoffMax b) ltac:(lia) ltac:(lia) n (backoffBase b) ltac:(lia)).
  destruct (Z.ltb_spec (backoffMax b) (double n (backoffBase b) (backoffMax b))); simpl; [lia|].
  destruct (Z.leb_spec (double n (backoffBase b) (backoffMax b)) 0); lia.
Qed.
(** A stream that stayed up starts the ladder again. *)
Lemma retry_resets b a l n : a_result a = Clean -> backoffResetAfter b <= time_sub (a_end a) (a_start a) ->
  exists rest e, retry_loop b n (a :: l) = ((StreamClosed, backoffFor b (a_jitter a) 0) :: rest, e).
Proof.
  intros Hr Hup. simpl. rewrite Hr. apply Z.leb_le in Hup. rewrite Hup. destruct (retry_loop b 1 l) as [rest e]. by exists rest, e.
Qed.

(** ** Where the token goes *)
Section Address.
Context (SplitHostPort : string -> string + string * string) (JoinHostPort : string -> string -> string) (ip_loopback : string -> bool).
(** A client exists only for a loopback host and a port, and every request it
    makes goes there. *)
Lemma client_is_local addr sec timeout c path query : New SplitHostPort JoinHostPort ip_loopback addr sec timeout = inr c ->
  exists host port n, SplitHostPort (trim_space addr) = inr (host, port) /\ atoi port = Some n /\ 1 <= n <= 65535 /\
    isLoopbackHost ip_loopback host = true /\ contains (trim_space addr) "@" = false /\ contains (trim_space addr) "//" = false /\
    baseURL c = ("http://" +:+ JoinHostPort (trim_brackets host) port)%string /\
    (request_of c path query).2 = (if String.eqb (trim_space sec) "" then None else Some (trim_space sec)).
Proof.
  unfold New, ValidateLoopbackAddr. destruct (String.eqb (trim_space addr) ""); [done|].
  destruct (contains (trim_space addr) "//") eqn:E1; [done|]. destruct (contains (trim_space addr) "@") eqn:E2; [done|]. simpl.
  destruct (SplitHostPort (trim_space addr)) as [err|[host port]] eqn:Hs; [done|]. destruct (atoi port) as [n|] eqn:Hp; [|done].
  destruct (Z.ltb_spec n 1); [done|]. destruct (Z.ltb_spec 65535 n); [done|]. simpl. destruct (isLoopbackHost ip_loopback host) eqn:Hl; [|done]. simpl.
  intros [= <-]. exists host, port, n. done.
Qed.
End Address.

Example stream_sample : stream_loop 100 16 20 (mkReader "" ["{a"; String nl "  "; String nl ""; "0123456789012345678901234567"; String nl "ok"; String (byte_of 13) (String nl "half")]%string) =
  ["{a"; "ok"]%string.
Proof. vm_compute. reflexivity. Qed.
End SingboxApiProps.
