(* ===== verification/SingboxInventory.v ===== *)
(** * The inventory of a core's lines (internal/singboxdiscover/discover.go)

    The list of the [sb] command, what each later source adds to it, and the
    inventory read from the configuration files alone when the command fails.
    Decoding is an argument; a document is given as the source's types. *)
From S2P Require Import Prelude GoStrings GoPath TrustedExec.
From Stdlib Require Import Ascii.
From stdpp Require Import gmap strings.

Local Open Scope Z_scope.

Module SingboxInventory.

Definition defaultBinary : string := "sb".
Definition defaultTimeout : duration := 8 * second.
Definition maxOutputBytes : Z := Z.shiftl 1 20.
Definition defaultEndpointsPath : string := "/etc/sing-box/lattice-endpoints.json".
Definition maxInspectCalls : Z := 64.
Definition defaultInspectTotalTimeout : duration := 2 * second.
Definition maxRuntimeConfigBytes : Z := Z.shiftl 8 20.
Definition nodeEndpointsSchema : string := "lattice.node-endpoints.v1".
Definition sidecarSchema : string := "lattice.singbox-metadata.v2".

(** ** Types of the SDK: one line of a node, and the inventory *)
Record SingBoxNode := mkNode {
  Name : string; LineID : string; NodeIdentityUUID : string; Protocol : string; Network : string; Address : string;
  Port : string; PublicPort : string; SNI : string; ListenHost : string;
  OutboundRef : string; OutboundType : string; OutboundServer : string; OutboundPort : string;
  UserCount : Z; UserKnown : bool; Metadata : option (gmap string string);
  LineUUID : string; DownstreamLineUUID : string }.
#[global] Instance eta_node : Etable SingBoxNode := fun x => mkNode (Name x) (LineID x) (NodeIdentityUUID x) (Protocol x) (Network x) (Address x)
  (Port x) (PublicPort x) (SNI x) (ListenHost x) (OutboundRef x) (OutboundType x) (OutboundServer x) (OutboundPort x)
  (UserCount x) (UserKnown x) (Metadata x) (LineUUID x) (DownstreamLineUUID x).
(** A change made where a test holds, and changes made one after the other. *)
Definition when (b : SingBoxNode -> bool) (f : SingBoxNode -> SingBoxNode) (n : SingBoxNode) : SingBoxNode := if b n then f n else n.
Definition in_order (l : list (SingBoxNode -> SingBoxNode)) (n : SingBoxNode) : SingBoxNode := foldl (fun n f => f n) n l.
Inductive status := StatusOK | StatusError.
Record SingBoxInventory := mkInventory {
  inv_NodeID : string; inv_Status : status; inv_Error : string; inv_Nodes : list SingBoxNode; inv_CoreVersion : string;
  inv_Network : string; inv_ProviderEdge : string }.
#[global] Instance eta_inventory : Etable SingBoxInventory := fun x =>
  mkInventory (inv_NodeID x) (inv_Status x) (inv_Error x) (inv_Nodes x) (inv_CoreVersion x) (inv_Network x) (inv_ProviderEdge x).

(** ** Error texts *)
Definition ellipsis : string := Eval vm_compute in bytes_str [226; 128; 166].
Definition truncate (s : string) (n : nat) : string := if (String.length s <=? n)%nat then s else (str_take n s +:+ ellipsis)%string.
Definition boundedErr (err : string) : string := truncate err 512.

(** ** The core's configuration *)
(** A decoded value as the identity block holds it; an object's fields come in
    the order of the map. *)
Inductive any := AString (s : string) | AObject (fields : list (string * any)) | AOther.
Record singBoxRuntimeReality := mkReality { reality_Enabled : bool; Handshake : option string }.
Record singBoxRuntimeTLS := mkTLS { tls_Enabled : bool; ServerName : string; Reality : option singBoxRuntimeReality }.
Record singBoxRuntimeInbound := mkInbound {
  in_Tag : string; in_Type : string; in_Listen : string; in_ListenPort : Z; in_Users : option (list string);
  in_Lattice : list (string * any); in_TLS : option singBoxRuntimeTLS; in_Transport : option string }.
Record singBoxRuntimeOutbound := mkOutbound { ob_Tag : string; ob_Type : string; ob_Server : string; ob_ServerPort : Z }.
Record singBoxRuntimeRouteRule := mkRule { rule_Inbound : list string; rule_Outbound : string; rule_Action : string }.
Record singBoxRuntimeConfig := mkRuntime {
  Inbounds : list singBoxRuntimeInbound; Outbounds : list singBoxRuntimeOutbound; Route : option (list singBoxRuntimeRouteRule) }.
Record singBoxRuntimeConfigFile := mkFile { file_path : string; file_cfg : singBoxRuntimeConfig }.

(** singBoxListable.UnmarshalJSON: one value or a list of them; the decoders of
    a list of strings and of a string are arguments. *)
Definition listable (strings : string -> string + list string) (one : string -> string + string) (data : string) : string + list string :=
  let data := trim_space data in
  if String.eqb data "" || String.eqb data "null" then inr []
  else if has_prefix data "[" then strings data
  else match one data with inl e => inl e | inr s => inr [s] end.

Definition readBoundedConfigFile (readFile : string -> string + string) (path : string) : string + string :=
  match readFile path with
  | inl err => inl err
  | inr data =>
      if maxRuntimeConfigBytes <? Z.of_nat (String.length data) then inl ("sing-box config " +:+ path +:+ " exceeds " +:+ itoa maxRuntimeConfigBytes +:+ " bytes")%string
      else inr data
  end.
(** The files that can be read and decoded; the note about one that cannot is
    left out. *)
Definition loadSingBoxRuntimeConfigFiles (files : list string) (readFile : string -> string + string)
    (decode : string -> string + singBoxRuntimeConfig) : list singBoxRuntimeConfigFile :=
  omap (fun path =>
    match readFile path with
    | inl _ => None
    | inr raw => match decode (trim_space raw) with inl _ => None | inr cfg => Some (mkFile path cfg) end
    end) files.

Definition rule_routes (routes : gmap string string) (r : singBoxRuntimeRouteRule) : gmap string string :=
  let outbound := trim_space (rule_Outbound r) in
  if String.eqb outbound "" then routes
  else foldl (fun m inbound => let inbound := trim_space inbound in if String.eqb inbound "" then m else <[inbound := outbound]> m) routes (rule_Inbound r).
Definition singBoxRouteMap (configs : list singBoxRuntimeConfigFile) : gmap string string :=
  foldl (fun m c => foldl rule_routes m (default [] (Route (file_cfg c)))) ∅ configs.

(** Outbounds that lead nowhere of their own keep no destination. *)
Definition terminalTypes : list string := ["direct"; "block"; "dns"; "selector"; "urltest"]%string.
Definition add_outbound (m : gmap string singBoxRuntimeOutbound) (ob : singBoxRuntimeOutbound) : gmap string singBoxRuntimeOutbound :=
  let tag := trim_space (ob_Tag ob) in
  if String.eqb tag "" then m
  else
    let type := trim_space (ob_Type ob) in
    <[tag := if bool_decide (type ∈ terminalTypes) then mkOutbound tag type "" 0 else mkOutbound tag type (trim_space (ob_Server ob)) (ob_ServerPort ob)]> m.
Definition singBoxOutboundMap (configs : list singBoxRuntimeConfigFile) : gmap string singBoxRuntimeOutbound :=
  foldl (fun m c => foldl add_outbound m (Outbounds (file_cfg c))) ∅ configs.

Fixpoint any_field (key : string) (l : list (string * any)) : option any :=
  match l with [] => None | (k, v) :: l => if String.eqb k key then Some v else any_field key l end.
Definition singBoxLatticeString (value : list (string * any)) (key : string) : string :=
  match any_field key value with Some (AString s) => trim_space s | _ => ""%string end.

Record singBoxLatticeIdentity := mkIdentity { id_LineID : string; id_NodeUUID : string }.
Definition add_identity (m : gmap string singBoxLatticeIdentity) (i : singBoxRuntimeInbound) : gmap string singBoxLatticeIdentity :=
  let tag := trim_space (in_Tag i) in
  if String.eqb tag "" then m
  else
    let ident := mkIdentity (singBoxLatticeString (in_Lattice i) "line_id") (singBoxLatticeString (in_Lattice i) "node_uuid") in
    if String.eqb (id_LineID ident) "" && String.eqb (id_NodeUUID ident) "" then m else <[tag := ident]> m.
Definition singBoxLatticeByInbound (configs : list singBoxRuntimeConfigFile) : gmap string singBoxLatticeIdentity :=
  foldl (fun m c => foldl add_identity m (Inbounds (file_cfg c))) ∅ configs.

Definition metadata_entry (out : gmap string string) (kv : string * any) : gmap string string :=
  let key := trim_space kv.1 in
  if String.eqb key "" then out
  else
    match kv.2 with
    | AString s => if String.eqb (trim_space s) "" then out else <[key := trim_space s]> out
    | AObject labels =>
        if negb (String.eqb key "labels") then out
        else
          foldl (fun out l =>
            let labelKey := trim_space l.1 in
            if String.eqb labelKey "" then out
            else match l.2 with
                 | AString s => if String.eqb (trim_space s) "" then out else <[("label." +:+ labelKey)%string := trim_space s]> out
                 | _ => out
                 end) out labels
    | AOther => out
    end.
Definition singBoxRuntimeMetadata (value : list (string * any)) : option (gmap string string) :=
  let out := foldl metadata_entry ∅ value in if bool_decide (out = ∅) then None else Some out.

(** ** The inventory of the configuration alone *)
Definition first_nonempty (a b : string) : string := if String.eqb a "" then b else a.
Definition port_text (p : Z) : string := if 0 <? p then itoa p else "".
Definition inbound_sni (i : singBoxRuntimeInbound) : string :=
  match in_TLS i with
  | None => ""
  | Some t => first_nonempty (trim_space (ServerName t)) (match Reality t with Some r => match Handshake r with Some h => trim_space h | None => "" end | None => "" end)
  end.
Definition inbound_network (i : singBoxRuntimeInbound) : string :=
  let network := match in_Transport i with Some t => trim_space t | None => ""%string end in
  let network := match in_TLS i with
    | Some t => match Reality t with Some r => if String.eqb network "" && reality_Enabled r then "reality"%string else network | None => network end
    | None => network
    end in
  first_nonempty network "tcp".
Definition parse_inbound (path : string) (routeMap : gmap string string) (outboundMap : gmap string singBoxRuntimeOutbound) (addr : string)
    (i : singBoxRuntimeInbound) : option SingBoxNode :=
  if String.eqb (trim_space (in_Type i)) "" && String.eqb (trim_space (in_Tag i)) "" && (in_ListenPort i =? 0) then None
  else
    let name := first_nonempty (trim_space (in_Tag i)) (path_base path) in
    let ref := default ""%string (routeMap !! name) in
    let node := mkNode name (singBoxLatticeString (in_Lattice i) "line_id") (singBoxLatticeString (in_Lattice i) "node_uuid") (trim_space (in_Type i))
      (inbound_network i) addr (port_text (in_ListenPort i)) "" (inbound_sni i) (trim_space (in_Listen i)) ref "" "" ""
      (match in_Users i with Some l => zlen l | None => 0 end) (bool_decide (is_Some (in_Users i))) (singBoxRuntimeMetadata (in_Lattice i)) "" "" in
    Some match outboundMap !! ref with
         | Some ob => node <| OutboundServer := ob_Server ob |> <| OutboundPort := port_text (ob_ServerPort ob) |> <| OutboundType := ob_Type ob |>
         | None => node
         end.
Definition parseSingBoxRuntimeConfig (path : string) (cfg : singBoxRuntimeConfig) (routeMap : gmap string string)
    (outboundMap : gmap string singBoxRuntimeOutbound) (addr : string) : list SingBoxNode :=
  omap (parse_inbound path routeMap outboundMap addr) (Inbounds cfg).

(** ** What the configuration adds to a listed line *)
Definition route_node (routeMap : gmap string string) (tag : string) (n : SingBoxNode) : SingBoxNode :=
  match routeMap !! tag with
  | Some ref => when (fun n => negb (String.eqb ref "") && negb (String.eqb (OutboundRef n) ref)) (fun n => n <| OutboundRef := ref |> <| OutboundType := ""%string |>) n
  | None => n
  end.
Definition resolve_node (outboundMap : gmap string singBoxRuntimeOutbound) (n : SingBoxNode) : SingBoxNode :=
  if String.eqb (OutboundRef n) "" then n
  else
    match outboundMap !! OutboundRef n with
    | Some ob =>
        in_order [
          when (fun n => String.eqb (OutboundServer n) "") (fun n => n <| OutboundServer := ob_Server ob |>);
          when (fun n => String.eqb (OutboundPort n) "" && (0 <? ob_ServerPort ob)) (fun n => n <| OutboundPort := itoa (ob_ServerPort ob) |>);
          when (fun n => String.eqb (OutboundType n) "") (fun n => n <| OutboundType := ob_Type ob |>)] n
    | None => n
    end.
Definition identity_node (latticeByInbound : gmap string singBoxLatticeIdentity) (tag : string) (n : SingBoxNode) : SingBoxNode :=
  match latticeByInbound !! tag with
  | Some ident =>
      in_order [
        when (fun n => String.eqb (LineID n) "") (fun n => n <| LineID := id_LineID ident |>);
        when (fun n => String.eqb (NodeIdentityUUID n) "") (fun n => n <| NodeIdentityUUID := id_NodeUUID ident |>)] n
  | None => n
  end.
Definition config_node (routeMap : gmap string string) (outboundMap : gmap string singBoxRuntimeOutbound)
    (latticeByInbound : gmap string singBoxLatticeIdentity) (n : SingBoxNode) : SingBoxNode :=
  let tag := trim_space (Name n) in
  if String.eqb tag "" then n
  else in_order [route_node routeMap tag; resolve_node outboundMap; identity_node latticeByInbound tag] n.
Definition enrichSingBoxNodesFromConfig (configs : list singBoxRuntimeConfigFile) (nodes : list SingBoxNode) : list SingBoxNode :=
  match nodes, configs with
  | [], _ | _, [] => nodes
  | _, _ => map (config_node (singBoxRouteMap configs) (singBoxOutboundMap configs) (singBoxLatticeByInbound configs)) nodes
  end.

(** ** What the inspect command adds *)
Record sbInspectLine := mkLine {
  line_ListenHost : string; line_ListenPort : Z; line_Users : option (list string); line_OutboundTag : string; line_OutboundProtocol : string;
  line_LineID : string; line_NodeUUID : string }.
Definition inspect_needed (n : SingBoxNode) : bool :=
  negb (String.eqb (trim_space (Name n)) "") && negb (negb (String.eqb (OutboundRef n) "") && negb (String.eqb (LineID n) "") && UserKnown n).
(** The lines to ask about, by position, at most [maxInspect] of them. *)
Fixpoint candidates_from (i : nat) (nodes : list SingBoxNode) : list (nat * string) :=
  match nodes with
  | [] => []
  | n :: nodes => if inspect_needed n then (i, trim_space (Name n)) :: candidates_from (S i) nodes else candidates_from (S i) nodes
  end.
Definition candidates (MaxInspect : Z) (nodes : list SingBoxNode) : list (nat * string) :=
  take (Z.to_nat (if MaxInspect <=? 0 then maxInspectCalls else MaxInspect)) (candidates_from 0 nodes).
Definition inspectTimeout (timeout : duration) : duration :=
  if (timeout <=? 0) || (defaultInspectTotalTimeout <? timeout) then defaultInspectTotalTimeout else timeout.
Definition apply_line (line : sbInspectLine) : SingBoxNode -> SingBoxNode := in_order [
  when (fun n => String.eqb (ListenHost n) "") (fun n => n <| ListenHost := trim_space (line_ListenHost line) |>);
  when (fun n => String.eqb (Port n) "" && (0 <? line_ListenPort line)) (fun n => n <| Port := itoa (line_ListenPort line) |>);
  when (fun n => String.eqb (OutboundRef n) "") (fun n => n <| OutboundRef := trim_space (line_OutboundTag line) |>);
  when (fun n => String.eqb (OutboundType n) "") (fun n => n <| OutboundType := trim_space (line_OutboundProtocol line) |>);
  when (fun n => String.eqb (LineID n) "") (fun n => n <| LineID := trim_space (line_LineID line) |>);
  when (fun n => String.eqb (NodeIdentityUUID n) "") (fun n => n <| NodeIdentityUUID := trim_space (line_NodeUUID line) |>);
  when (fun n => negb (UserKnown n) && bool_decide (is_Some (line_Users line)))
    (fun n => n <| UserCount := zlen (default [] (line_Users line)) |> <| UserKnown := true |>)].
(** One result: the line is applied to the node it was asked for. *)
Definition arrive (inspect : nat * string -> string + sbInspectLine) (nodes : list SingBoxNode) (c : nat * string) : list SingBoxNode :=
  match inspect c with inl _ => nodes | inr line => alter (apply_line line) c.1 nodes end.
(** The first call decides whether the others are made; [arrived] are the other
    candidates whose results came, in the order they came. *)
Definition enrichSingBoxNodesFromInspect (inspect : nat * string -> string + sbInspectLine) (arrived : list (nat * string)) (MaxInspect : Z)
    (nodes : list SingBoxNode) : list SingBoxNode :=
  match candidates MaxInspect nodes with
  | [] => nodes
  | c :: _ =>
      match inspect c with
      | inl _ => nodes
      | inr line => foldl (arrive inspect) (alter (apply_line line) c.1 nodes) arrived
      end
  end.

(** ** The sidecar *)
Record sidecarInbound := mkSidecarInbound { sc_Tag : string; sc_LineUUID : string; sc_Downstream : option string }.
Record singBoxSidecar := mkSidecar { Schema : string; sc_Inbounds : list sidecarInbound }.
Definition hex_lower (c : ascii) : bool := is_digit c || ((97 <=? byte_val c) && (byte_val c <=? 102)).
Definition byte_at (s : string) (i : nat) : ascii := default (byte_of 0) (String.get i s).
Definition dash_positions : list nat := [8; 13; 18; 23]%nat.
Definition isUUIDv4 (value : string) : bool :=
  (String.length value =? 36)%nat && forallb (fun i => Ascii.eqb (byte_at value i) "-") dash_positions && Ascii.eqb (byte_at value 14) "4" &&
  existsb (Ascii.eqb (byte_at value 19)) ["8"; "9"; "a"; "b"]%char &&
  forallb (fun i => bool_decide (i ∈ dash_positions) || hex_lower (byte_at value i)) (seq 0 36).
Inductive sidecar_error :=
  | UnsupportedSchema (schema : string) | InvalidInbound | DuplicateTag (tag : string) | DuplicateUUID (uuid : string)
  | InvalidDownstream (tag : string) | SelfChain (tag : string) | ChainCycle.
Definition uuid_of (i : sidecarInbound) : string := lower (trim_space (sc_LineUUID i)).
Definition tag_of (i : sidecarInbound) : string := trim_space (sc_Tag i).
Fixpoint check_inbounds (l : list sidecarInbound) (byTag byUUID : gset string) (next : gmap string string) :
    sidecar_error + (gset string * gmap string string) :=
  match l with
  | [] => inr (byUUID, next)
  | i :: l =>
      let tag := tag_of i in let lineUUID := uuid_of i in
      if String.eqb tag "" || negb (isUUIDv4 lineUUID) then inl InvalidInbound
      else if bool_decide (tag ∈ byTag) then inl (DuplicateTag tag)
      else if bool_decide (lineUUID ∈ byUUID) then inl (DuplicateUUID lineUUID)
      else
        match sc_Downstream i with
        | None => check_inbounds l ({[ tag ]} ∪ byTag) ({[ lineUUID ]} ∪ byUUID) next
        | Some d =>
            let downstream := lower (trim_space d) in
            if negb (isUUIDv4 downstream) then inl (InvalidDownstream tag)
            else if String.eqb downstream lineUUID then inl (SelfChain tag)
            else check_inbounds l ({[ tag ]} ∪ byTag) ({[ lineUUID ]} ∪ byUUID) (<[lineUUID := downstream]> next)
        end
  end.
(** The walk from one line along the declared edges; [true] for a cycle. *)
Fixpoint walk (fuel : nat) (byUUID : gset string) (next : gmap string string) (seen : gset string) (current : string) : bool :=
  match fuel with
  | O => false
  | S fuel =>
      if String.eqb current "" then false
      else if negb (bool_decide (current ∈ byUUID)) then false
      else if bool_decide (current ∈ seen) then true
      else walk fuel byUUID next ({[ current ]} ∪ seen) (default ""%string (next !! current))
  end.
Definition has_cycle (byUUID : gset string) (next : gmap string string) : bool :=
  existsb (fun start => walk (S (size byUUID)) byUUID next ∅ start) (map fst (map_to_list next)).
Definition validateSingBoxSidecar (m : singBoxSidecar) : option sidecar_error :=
  if negb (String.eqb (Schema m) sidecarSchema) then Some (UnsupportedSchema (Schema m))
  else
    match check_inbounds (sc_Inbounds m) ∅ ∅ ∅ with
    | inl e => Some e
    | inr (byUUID, next) => if has_cycle byUUID next then Some ChainCycle else None
    end.
Definition sidecar_lines (m : singBoxSidecar) : gmap string (string * string) :=
  foldl (fun m i => if String.eqb (tag_of i) "" then m
                    else <[tag_of i := (trim_space (sc_LineUUID i), match sc_Downstream i with Some d => trim_space d | None => ""%string end)]> m) ∅ (sc_Inbounds m).
Definition sidecar_node (byTag : gmap string (string * string)) (n : SingBoxNode) : SingBoxNode :=
  match byTag !! trim_space (Name n) with
  | None => n
  | Some (line, downstream) =>
      in_order [
        when (fun n => String.eqb (LineUUID n) "") (fun n => n <| LineUUID := line |>);
        when (fun n => String.eqb (DownstreamLineUUID n) "") (fun n => n <| DownstreamLineUUID := downstream |>)] n
  end.
(** [readFile] answers an error for a missing file too: both leave the nodes
    as they are. *)
Definition meta_path (MetaPath : string) : string := first_nonempty (trim_space MetaPath) TrustedExec.defaultMetaPath.
Definition applySingBoxSidecar (readFile : string -> string + string) (decode : string -> string + singBoxSidecar) (MetaPath : string)
    (nodes : list SingBoxNode) : list SingBoxNode :=
  match nodes with
  | [] => nodes
  | _ =>
      match readFile (meta_path MetaPath) with
      | inl _ => nodes
      | inr raw =>
          let raw := trim_space raw in
          if String.eqb raw "" then nodes
          else
            match decode raw with
            | inl _ => nodes
            | inr m =>
                if String.eqb (Schema m) "" then nodes
                else match validateSingBoxSidecar m with Some _ => nodes | None => map (sidecar_node (sidecar_lines m)) nodes end
            end
      end
  end.

(** ** The declared endpoints *)
Record endpointInbound := mkEndpoint { ep_Tag : string; ep_PublicPort : Z; ep_PublicHost : string }.
Record nodeEndpoints := mkEndpoints { ne_Schema : string; ne_Network : string; ne_PublicHost : string; ne_ProviderEdge : string; ne_Inbounds : list endpointInbound }.
Definition endpoint_entry (m : gmap string Z * gmap string string) (ib : endpointInbound) : gmap string Z * gmap string string :=
  let tag := trim_space (ep_Tag ib) in
  if String.eqb tag "" || (ep_PublicPort ib <=? 0) || (65535 <? ep_PublicPort ib) then m
  else (<[tag := ep_PublicPort ib]> m.1, if String.eqb (trim_space (ep_PublicHost ib)) "" then m.2 else <[tag := trim_space (ep_PublicHost ib)]> m.2).
Definition endpoint_node (byTag : gmap string Z) (hostByTag : gmap string string) (fallbackHost : string) (n : SingBoxNode) : SingBoxNode :=
  let tag := trim_space (Name n) in
  let n := match byTag !! tag with Some port => n <| PublicPort := itoa port |> | None => n end in
  match hostByTag !! tag with
  | Some h => n <| Address := h |>
  | None => if String.eqb fallbackHost "" then n else n <| Address := fallbackHost |>
  end.
Definition apply_endpoints (doc : nodeEndpoints) (inv : SingBoxInventory) : SingBoxInventory :=
  let (byTag, hostByTag) := foldl endpoint_entry (∅, ∅) (ne_Inbounds doc) in
  inv <| inv_Network := trim_space (ne_Network doc) |> <| inv_ProviderEdge := trim_space (ne_ProviderEdge doc) |>
      <| inv_Nodes ::= map (endpoint_node byTag hostByTag (trim_space (ne_PublicHost doc))) |>.
Definition applyNodeEndpoints (readFile : string -> string + string) (decode : string -> string + nodeEndpoints) (EndpointsPath : string)
    (inv : SingBoxInventory) : SingBoxInventory :=
  match readFile (first_nonempty (trim_space EndpointsPath) defaultEndpointsPath) with
  | inl _ => inv
  | inr raw =>
      let raw := trim_space raw in
      if String.eqb raw "" then inv
      else
        match decode raw with
        | inl _ => inv
        | inr doc => if negb (String.eqb (ne_Schema doc) nodeEndpointsSchema) then inv else apply_endpoints doc inv
        end
  end.

(** ** Discovery *)
Record Source := mkSource { Binary : string; Addr : string; Timeout : duration; MetaPath : string; EndpointsPath : string; MaxInspect : Z }.
(** A finished command: its error, its output and its error output. *)
Definition runBoundedCommand (err : option string) (stdout stderr : string) : string + string :=
  match err with
  | Some e => let msg := trim_space stderr in inl (if String.eqb msg "" then e else e +:+ ": " +:+ truncate msg 512)%string
  | None => if maxOutputBytes <? Z.of_nat (String.length stdout) then inl ("sb output exceeds " +:+ itoa maxOutputBytes +:+ " bytes")%string else inr stdout
  end.

Section Discover.
Context (files : list string) (readFile : string -> string + string).
Context (decode_config : string -> string + singBoxRuntimeConfig) (decode_sidecar : string -> string + singBoxSidecar) (decode_endpoints : string -> string + nodeEndpoints).
Context (decode_list : string -> string + option (list SingBoxNode)) (decode_line : string -> string + sbInspectLine) (decode_version : string -> string + string).
(** [run] is the command, by its deadline and arguments; inspect calls are told
    apart by the line they are made for. *)
Context (run : duration -> string -> list string -> string + string) (run_inspect : duration -> string -> list string -> nat -> string + string).
Context (arrived : list (nat * string)).

Definition load : list singBoxRuntimeConfigFile := loadSingBoxRuntimeConfigFiles files (readBoundedConfigFile readFile) decode_config.
Definition annotate (src : Source) (inv : SingBoxInventory) : SingBoxInventory :=
  applyNodeEndpoints readFile decode_endpoints (EndpointsPath src) (inv <| inv_Nodes ::= applySingBoxSidecar readFile decode_sidecar (MetaPath src) |>).
Definition discoverRuntimeConfig (src : Source) (nodeID : string) : option SingBoxInventory :=
  match load with
  | [] => None
  | configs =>
      let nodes := List.concat (map (fun c => parseSingBoxRuntimeConfig (file_path c) (file_cfg c) (singBoxRouteMap configs) (singBoxOutboundMap configs) (trim_space (Addr src))) configs) in
      Some (annotate src (mkInventory nodeID StatusOK "" nodes "" "" ""))
  end.
Definition binary_of (src : Source) : string := first_nonempty (trim_space (Binary src)) defaultBinary.
Definition timeout_of (src : Source) : duration := if Timeout src <=? 0 then defaultTimeout else Timeout src.
Definition base_args (src : Source) : list string :=
  app (if String.eqb (trim_space (Addr src)) "" then [] else ["--addr"; trim_space (Addr src)]%string) ["--json"%string].
Definition inspect (src : Source) (c : nat * string) : string + sbInspectLine :=
  match run_inspect (inspectTimeout (timeout_of src)) (binary_of src) (app (base_args src) ["inspect"%string; c.2]) c.1 with
  | inl e => inl e
  | inr out => match decode_line (trim_space out) with inl e => inl ("decode inspect: " +:+ e)%string | inr l => inr l end
  end.
(** The lines after both enrichments. *)
Definition enrich (src : Source) (nodes : list SingBoxNode) : list SingBoxNode :=
  enrichSingBoxNodesFromConfig load (enrichSingBoxNodesFromInspect (inspect src) arrived (MaxInspect src) nodes).
Definition fall_back (src : Source) (nodeID : string) (text err : string) : SingBoxInventory * option string :=
  match discoverRuntimeConfig src nodeID with
  | Some inv => (inv, None)
  | None => (mkInventory nodeID StatusError text [] "" "" "", Some err)
  end.
Definition core_version (src : Source) (inv : SingBoxInventory) : SingBoxInventory :=
  match run (timeout_of src) (binary_of src) (app (base_args src) ["provision"%string]) with
  | inl _ => inv
  | inr out => match decode_version (trim_space out) with inl _ => inv | inr v => inv <| inv_CoreVersion := trim_space v |> end
  end.
Definition Discover (src : Source) (nodeID : string) : SingBoxInventory * option string :=
  match run (timeout_of src) (binary_of src) (app (base_args src) ["list"%string]) with
  | inl err => fall_back src nodeID (boundedErr err) err
  | inr out =>
      match decode_list (trim_space out) with
      | inl err => fall_back src nodeID ("decode list: " +:+ boundedErr err)%string ("decode sb list: " +:+ err)%string
      | inr listed =>
          let inv := mkInventory nodeID StatusOK "" (default [] listed) "" "" "" in
          (core_version src (annotate src (inv <| inv_Nodes ::= enrich src |>)), None)
      end
  end.
End Discover.

(** The inventory of a set of files, as recovery reads it back. *)
Definition DiscoverRuntimeFiles (readFile : string -> string + string) (decode_config : string -> string + singBoxRuntimeConfig)
    (decode_sidecar : string -> string + singBoxSidecar) (decode_endpoints : string -> string + nodeEndpoints)
    (nodeID : string) (files : list string) (metaPath : string) : option SingBoxInventory :=
  discoverRuntimeConfig files readFile decode_config decode_sidecar decode_endpoints (mkSource "" "" 0 metaPath "" 0) nodeID.
End SingboxInventory.
