(* ===== verification/SingboxInventoryProps.v ===== *)
(** * What the inventory promises *)
From S2P Require Import Prelude GoStrings GoPath TrustedExec SingboxInventory.
From Stdlib Require Import Ascii.
From stdpp Require Import gmap strings relations.

Local Open Scope Z_scope.

Module SingboxInventoryProps.
Import SingboxInventory.

(** ** The sidecar *)
Definition downstream_of (i : sidecarInbound) : option string := (fun d => lower (trim_space d)) <$> sc_Downstream i.
Record inbound_ok (i : sidecarInbound) : Prop := {
  ok_tag : tag_of i <> ""%string;
  ok_uuid : isUUIDv4 (uuid_of i) = true;
  ok_downstream d : downstream_of i = Some d -> isUUIDv4 d = true /\ d <> uuid_of i }.
Definition add_edge (next : gmap string string) (i : sidecarInbound) : gmap string string :=
  match downstream_of i with Some d => <[uuid_of i := d]> next | None => next end.

Lemma check_inbounds_spec l : forall T U N r,
  check_inbounds l T U N = inr r <->
  Forall inbound_ok l /\ (NoDup (map tag_of l) /\ forall t, t ∈ map tag_of l -> t ∉ T) /\ (NoDup (map uuid_of l) /\ forall u, u ∈ map uuid_of l -> u ∉ U) /\
  r = (list_to_set (map uuid_of l) ∪ U, foldl add_edge N l).
Proof.
  induction l as [|i l IH]; intros T U N r; simpl.
  - split; [intros [= <-]; repeat split; try constructor; try (by intros ? ?%elem_of_nil); f_equal; set_solver|].
    intros (_ & _ & _ & ->). do 2 f_equal; set_solver.
  - assert (Hstep : forall N', (forall d, downstream_of i = Some d -> isUUIDv4 d = true /\ d <> uuid_of i) -> N' = add_edge N i ->
      tag_of i <> ""%string -> isUUIDv4 (uuid_of i) = true -> tag_of i ∉ T -> uuid_of i ∉ U ->
      (check_inbounds l ({[tag_of i]} ∪ T) ({[uuid_of i]} ∪ U) N' = inr r <->
       Forall inbound_ok (i :: l) /\ (NoDup (tag_of i :: map tag_of l) /\ forall t, t ∈ tag_of i :: map tag_of l -> t ∉ T) /\
       (NoDup (uuid_of i :: map uuid_of l) /\ forall u, u ∈ uuid_of i :: map uuid_of l -> u ∉ U) /\
       r = ({[uuid_of i]} ∪ list_to_set (map uuid_of l) ∪ U, foldl add_edge (add_edge N i) l))).
    { intros N' Hd -> Ht Hu HT HU. rewrite IH, Forall_cons, !NoDup_cons. split.
      - intros (H1 & [H2 H3] & [H4 H5] & ->). split; [split; [by split|done]|]. split; [|split]; [split; [split; [|done]|]|split; [split; [|done]|]|].
        + intros Hin. apply (H3 _ Hin). set_solver.
        + intros t [->|Hin]%elem_of_cons; [done|]. specialize (H3 _ Hin). set_solver.
        + intros Hin. apply (H5 _ Hin). set_solver.
        + intros u [->|Hin]%elem_of_cons; [done|]. specialize (H5 _ Hin). set_solver.
        + f_equal. set_solver.
      - intros ([_ H1] & [[H2 H2'] H3] & [[H4 H4'] H5] & ->). split; [done|]. split; [|split]; [split; [done|]|split; [done|]|].
        + intros t Hin. specialize (H3 t ltac:(by right)). assert (t <> tag_of i) by (by intros ->). set_solver.
        + intros u Hin. specialize (H5 u ltac:(by right)). assert (u <> uuid_of i) by (by intros ->). set_solver.
        + f_equal. set_solver. }
    assert (Hno : forall (P : Prop), ~ P -> forall e, (inl e : sidecar_error + (gset string * gmap string string)) = inr r <-> P) by (intros P HP e; split; [done|tauto]).
    destruct (String.eqb_spec (tag_of i) "") as [Ht|Ht]; simpl; [apply Hno; intros ([[] _]%Forall_cons & _); done|].
    destruct (isUUIDv4 (uuid_of i)) eqn:Hu; simpl; [|apply Hno; intros ([[] _]%Forall_cons & _); congruence].
    case_bool_decide as HT; [apply Hno; intros (_ & [_ H] & _); apply (H (tag_of i)); [by left|done]|].
    case_bool_decide as HU; [apply Hno; intros (_ & _ & [_ H] & _); apply (H (uuid_of i)); [by left|done]|].
    destruct (sc_Downstream i) as [d|] eqn:Hd.
    + assert (Hds : downstream_of i = Some (lower (trim_space d))) by (unfold downstream_of; by rewrite Hd).
      destruct (isUUIDv4 (lower (trim_space d))) eqn:Hv; simpl; [|apply Hno; intros ([[_ _ H] _]%Forall_cons & _); destruct (H _ Hds); congruence].
      destruct (String.eqb_spec (lower (trim_space d)) (uuid_of i)) as [Hs|Hs]; [apply Hno; intros ([[_ _ H] _]%Forall_cons & _); destruct (H _ Hds); congruence|].
      apply Hstep; try done; [intros d' Hd'; rewrite Hds in Hd'; by simplify_eq|unfold add_edge; by rewrite Hds].
    + assert (Hds : downstream_of i = None) by (unfold downstream_of; by rewrite Hd).
      apply Hstep; try done; [intros d' Hd'; by rewrite Hds in Hd'|unfold add_edge; by rewrite Hds].
Qed.

Definition edge (next : gmap string string) (a b : string) : Prop := next !! a = Some b.
Lemma walk_sound byUUID next fuel : forall seen c, (forall s, s ∈ seen -> tc (edge next) s c) ->
  walk fuel byUUID next seen c = true -> exists a, tc (edge next) a a.
Proof.
  induction fuel as [|fuel IH]; intros seen c Hs; simpl; [done|]. destruct (String.eqb c ""); [done|].
  destruct (bool_decide (c ∈ byUUID)); simpl; [|done]. case_bool_decide as Hc; [intros _; exists c; by apply Hs|].
  destruct (next !! c) as [n|] eqn:Hn; simpl.
  - apply IH. intros s [->%elem_of_singleton|H]%elem_of_union; [by apply tc_once|]. eapply tc_r; [by apply Hs|done].
  - destruct fuel; simpl; done.
Qed.
Lemma cycle_next next c n : edge next c n -> tc (edge next) c c -> tc (edge next) n n.
Proof.
  intros Hn Hc. inversion Hc as [x y Hxy|x y z Hxy Hyz]; simplify_eq; unfold edge in *; simplify_eq; [by apply tc_once|]. by eapply tc_r.
Qed.
Lemma walk_complete byUUID next fuel : (forall a b, edge next a b -> a ∈ byUUID /\ a <> ""%string) -> forall seen c,
  tc (edge next) c c -> seen ⊆ byUUID -> (size (byUUID ∖ seen) < fuel)%nat -> walk fuel byUUID next seen c = true.
Proof.
  intros Hk. induction fuel as [|fuel IH]; intros seen c Hc Hsub Hf; [lia|]. simpl.
  assert (exists n, edge next c n) as [n Hn] by (inversion Hc; eauto). destruct (Hk _ _ Hn) as [Hl Hne].
  rewrite (proj2 (String.eqb_neq c "")) by done. rewrite bool_decide_eq_true_2 by done. simpl.
  case_bool_decide as Hs; [done|]. rewrite Hn. apply IH; [by eapply cycle_next|set_solver|].
  assert (Hsplit : byUUID ∖ seen = {[c]} ∪ (byUUID ∖ ({[c]} ∪ seen))).
  { apply set_eq. intros x. destruct (decide (x = c)) as [->|]; set_solver. }
  rewrite Hsplit, size_union, size_singleton in Hf by set_solver. lia.
Qed.
Lemma has_cycle_spec byUUID next : (forall a b, edge next a b -> a ∈ byUUID /\ a <> ""%string) ->
  has_cycle byUUID next = true <-> exists a, tc (edge next) a a.
Proof.
  intros Hk. unfold has_cycle. rewrite existsb_exists. split.
  - intros (c & _ & Hw). by apply walk_sound in Hw.
  - intros [a Ha]. exists a. split.
    + assert (exists n, edge next a n) as [n Hn] by (inversion Ha; eauto). apply list_elem_of_In, list_elem_of_fmap.
      exists (a, n). split; [done|]. by apply elem_of_map_to_list.
    + apply walk_complete; [done|done|set_solver|]. replace (byUUID ∖ ∅) with byUUID by set_solver. lia.
Qed.

(** The chain a document declares: from a line to the line its traffic goes to. *)
Definition chained (m : singBoxSidecar) (a b : string) : Prop := exists i, i ∈ sc_Inbounds m /\ uuid_of i = a /\ downstream_of i = Some b.
Lemma edges_of l : forall N, NoDup (map uuid_of l) -> (forall i, i ∈ l -> N !! uuid_of i = None) -> forall a b,
  foldl add_edge N l !! a = Some b <-> (exists i, i ∈ l /\ uuid_of i = a /\ downstream_of i = Some b) \/ N !! a = Some b.
Proof.
  induction l as [|i l IH]; intros N Hd Hn a b; simpl; [split; [by right|intros [(i & H%elem_of_nil & _)|H]; done]|].
  simpl in Hd. apply NoDup_cons in Hd as [Hi Hd]. rewrite IH; [|done|].
  - unfold add_edge. specialize (Hn i ltac:(by left)) as Hnone. split.
    + intros [(j & Hj & H)|H]; [left; exists j; split; [by right|done]|]. destruct (downstream_of i) as [d|] eqn:E; [|by right].
      destruct (decide (uuid_of i = a)) as [<-|Hne]; [rewrite lookup_insert in H; simplify_eq; left; exists i; rewrite E; split; [by left|]; by case_decide|].
      rewrite lookup_insert_ne in H by done. by right.
    + intros [(j & [->|Hj]%elem_of_cons & Hu & Hdn)|H]; [right; rewrite Hdn, <-Hu, lookup_insert; by case_decide|left; by exists j|].
      right. destruct (downstream_of i); [|done]. rewrite lookup_insert_ne; [done|]. intros <-. congruence.
  - intros j Hj. unfold add_edge. specialize (Hn j ltac:(by right)). destruct (downstream_of i); [|done]. rewrite lookup_insert_ne; [done|].
    intros Heq. apply Hi. rewrite Heq. by apply list_elem_of_fmap_2.
Qed.
Lemma uuid_nonempty i : inbound_ok i -> uuid_of i <> ""%string.
Proof. intros [_ Hu _] E. by rewrite E in Hu. Qed.

(** C22: A sidecar is used exactly when it has the schema, every line has a tag
    and a version 4 UUID of its own, a declared next line is another such UUID,
    and no chain of declared lines comes back to where it began. *)
Theorem sidecar_valid_exactly m : validateSingBoxSidecar m = None <->
  Schema m = sidecarSchema /\ Forall inbound_ok (sc_Inbounds m) /\ NoDup (map tag_of (sc_Inbounds m)) /\ NoDup (map uuid_of (sc_Inbounds m)) /\
  forall a, ~ tc (chained m) a a.
Proof.
  unfold validateSingBoxSidecar. destruct (String.eqb_spec (Schema m) sidecarSchema) as [Hs|Hs]; simpl; [|split; [done|intros (? & _); done]].
  pose proof (check_inbounds_spec (sc_Inbounds m) ∅ ∅ ∅) as Hspec. destruct (check_inbounds (sc_Inbounds m) ∅ ∅ ∅) as [e|[U N]].
  - split; [done|]. intros (_ & H1 & H2 & H3 & _). specialize (Hspec (list_to_set (map uuid_of (sc_Inbounds m)) ∪ ∅, foldl add_edge ∅ (sc_Inbounds m))).
    assert (Hx := proj2 Hspec); discriminate Hx; split; [done|]. split; [split; [done|set_solver]|]. split; [split; [done|set_solver]|done].
  - destruct (proj1 (Hspec _) eq_refl) as (Hok & [Ht _] & [Hu _] & [= -> ->]).
    assert (Hedge : forall a b, edge (foldl add_edge ∅ (sc_Inbounds m)) a b <-> chained m a b).
    { intros a b. unfold edge. rewrite (edges_of _ ∅ Hu) by (intros; apply lookup_empty). rewrite lookup_empty. split; [intros [H|]; [done|done]|by left]. }
    assert (Htc : forall a b, tc (edge (foldl add_edge ∅ (sc_Inbounds m))) a b <-> tc (chained m) a b).
    { intros a b. split; induction 1 as [x y H|x y z H _ IH]; try (apply tc_once; by apply Hedge); by eapply tc_l; [apply Hedge|]. }
    destruct (has_cycle _ _) eqn:Hc.
    + apply has_cycle_spec in Hc; [destruct Hc as [a Ha]; split; [done|]; intros (_ & _ & _ & _ & Hno); destruct (Hno a); by apply Htc|].
      intros a b (i & Hi & <- & _)%Hedge. split; [|apply uuid_nonempty; by eapply Forall_forall in Hok].
      apply elem_of_union_l, elem_of_list_to_set. by apply list_elem_of_fmap_2.
    + split; [|done]. intros _. repeat split; try done. intros a Ha. apply Htc in Ha.
      assert (H : has_cycle (list_to_set (map uuid_of (sc_Inbounds m)) ∪ ∅) (foldl add_edge ∅ (sc_Inbounds m)) = true); [|congruence].
      apply has_cycle_spec; [|by exists a]. intros x y (i & Hi & <- & _)%Hedge. split; [|apply uuid_nonempty; by eapply Forall_forall in Hok].
      apply elem_of_union_l, elem_of_list_to_set. by apply list_elem_of_fmap_2.
Qed.

(** ** The lines *)
Definition kept (a b : string) : Prop := a <> ""%string -> b = a.
(** What no source but the list itself changes: a value it gave stays. *)
Record filled (n m : SingBoxNode) : Prop := {
  f_name : Name m = Name n; f_protocol : Protocol m = Protocol n; f_network : Network m = Network n; f_sni : SNI m = SNI n; f_metadata : Metadata m = Metadata n;
  f_users : UserKnown n = true -> UserKnown m = true /\ UserCount m = UserCount n;
  f_line : kept (LineID n) (LineID m); f_identity : kept (NodeIdentityUUID n) (NodeIdentityUUID m);
  f_listen : kept (ListenHost n) (ListenHost m); f_port : kept (Port n) (Port m);
  f_server : kept (OutboundServer n) (OutboundServer m); f_outport : kept (OutboundPort n) (OutboundPort m);
  f_uuid : kept (LineUUID n) (LineUUID m); f_downstream : kept (DownstreamLineUUID n) (DownstreamLineUUID m) }.
Lemma kept_trans a b c : kept a b -> kept b c -> kept a c.
Proof. unfold kept. intros H1 H2 Ha. rewrite H2; [by apply H1|]. by rewrite H1. Qed.
#[global] Instance filled_preorder : PreOrder filled.
Proof.
  split; [intros n; split; done|]. intros a b c [] []. split; try congruence; try (by eapply kept_trans).
  intros Hu. destruct f_users0 as [H1 H2]; [done|]. destruct f_users1 as [H3 H4]; [done|]. split; [done|congruence].
Qed.
Lemma in_order_rel (R : SingBoxNode -> SingBoxNode -> Prop) `{!PreOrder R} l : Forall (fun f => forall n, R n (f n)) l -> forall n, R n (in_order l n).
Proof. unfold in_order. induction 1 as [|f l Hf _ IH]; intros n; simpl; [done|]. trans (f n); [done|apply IH]. Qed.
Lemma when_rel (R : SingBoxNode -> SingBoxNode -> Prop) `{!PreOrder R} b f : (forall n, b n = true -> R n (f n)) -> forall n, R n (when b f n).
Proof. intros H n. unfold when. destruct (b n) eqn:E; [by apply H|done]. Qed.
(** One update of a field that was empty. *)
Ltac fill_field := intros n Hn; destruct n; unfold update_field; simpl in Hn; repeat (apply conj || split); unfold kept; simpl; try done; intros;
  repeat match goal with H : _ && _ = true |- _ => apply andb_true_iff in H as [??] end;
  repeat match goal with H : String.eqb _ _ = true |- _ => apply String.eqb_eq in H end; try congruence; simplify_eq/=.
Ltac fill_steps := apply in_order_rel; [apply _|]; repeat (apply Forall_cons; split; [apply when_rel; [apply _|]; fill_field|]); try apply Forall_nil_2.

(** What the inspect command and the configuration leave of a line's outbound. *)
Definition inspected (n m : SingBoxNode) : Prop :=
  filled n m /\ kept (OutboundRef n) (OutboundRef m) /\ OutboundServer m = OutboundServer n /\ OutboundPort m = OutboundPort n.
#[global] Instance inspected_preorder : PreOrder inspected.
Proof.
  split; [intros n; split; [done|]; done|]. intros a b c (H1 & H2 & H3 & H4) (K1 & K2 & K3 & K4).
  split; [by trans b|]. split; [by eapply kept_trans|]. split; congruence.
Qed.
Lemma apply_line_inspected line n : inspected n (apply_line line n).
Proof. revert n. unfold apply_line. fill_steps. Qed.
(** What the other sources leave of it. *)
Definition settled (n m : SingBoxNode) : Prop :=
  filled n m /\ OutboundRef m = OutboundRef n /\ OutboundServer m = OutboundServer n /\ OutboundPort m = OutboundPort n.
#[global] Instance settled_preorder : PreOrder settled.
Proof.
  split; [intros n; split; [done|]; done|]. intros a b c (H1 & H2 & H3 & H4) (K1 & K2 & K3 & K4).
  split; [by trans b|]. repeat split; congruence.
Qed.
Lemma identity_node_settled m tag n : settled n (identity_node m tag n).
Proof. unfold identity_node. destruct (m !! tag); [|done]. revert n. fill_steps. Qed.
Lemma sidecar_node_settled m n : settled n (sidecar_node m n).
Proof. unfold sidecar_node. destruct (m !! trim_space (Name n)) as [[line d]|]; [|done]. revert n. fill_steps. Qed.
Lemma endpoint_node_settled ports hosts fallback n : settled n (endpoint_node ports hosts fallback n).
Proof.
  unfold endpoint_node. set (n' := match ports !! trim_space (Name n) with Some _ => _ | None => n end).
  assert (H : settled n n') by (unfold n'; destruct (ports !! _); [destruct n; done|done]).
  trans n'; [done|]. destruct (hosts !! _); [by destruct n'|]. destruct (String.eqb fallback ""); [done|by destruct n'].
Qed.

Definition resolved (outboundMap : gmap string singBoxRuntimeOutbound) (n m : SingBoxNode) : Prop := forall ob,
  OutboundRef m <> ""%string -> outboundMap !! OutboundRef m = Some ob ->
  (OutboundServer n = ""%string -> OutboundServer m = ob_Server ob) /\ (OutboundPort n = ""%string -> OutboundPort m = port_text (ob_ServerPort ob)).
Lemma resolve_node_spec om n : filled n (resolve_node om n) /\ OutboundRef (resolve_node om n) = OutboundRef n /\ resolved om n (resolve_node om n).
Proof.
  unfold resolve_node, resolved. destruct (String.eqb_spec (OutboundRef n) "") as [E|E]; [done|].
  destruct (om !! OutboundRef n) as [ob|] eqn:Ho; [|split; [done|]; split; [done|]; intros ob _ H; congruence].
  match goal with |- context [in_order ?l n] => assert (H : filled n (in_order l n) /\ OutboundRef (in_order l n) = OutboundRef n) end.
  { split; [revert n E Ho; intros n _ _; revert n; fill_steps|]. unfold in_order, when. simpl.
    repeat match goal with |- context [if ?b then _ else _] => destruct b end; by destruct n. }
  destruct H as [Hf Hr]. split; [done|]. split; [done|]. intros ob'. rewrite Hr, Ho. intros _ [= <-]. split; intros Hs.
  - unfold in_order, when. simpl. rewrite Hs, String.eqb_refl. simpl. repeat match goal with |- context [if ?b then _ else _] => destruct b end; by destruct n.
  - unfold in_order, when, port_text. destruct n; simpl in *. subst. unfold update_field. simpl.
    by destruct (String.eqb OutboundServer0 ""), (0 <? ob_ServerPort ob); simpl; destruct (String.eqb OutboundType0 "").
Qed.
Lemma route_node_spec rm tag n : (forall t r, rm !! t = Some r -> r <> ""%string) ->
  filled n (route_node rm tag n) /\ OutboundRef (route_node rm tag n) = default (OutboundRef n) (rm !! tag) /\
  OutboundServer (route_node rm tag n) = OutboundServer n /\ OutboundPort (route_node rm tag n) = OutboundPort n.
Proof.
  intros Hrm. unfold route_node. destruct (rm !! tag) as [r|] eqn:Hr; [|done]. simpl. unfold when.
  rewrite (proj2 (String.eqb_neq r "")) by eauto. simpl. destruct (String.eqb_spec (OutboundRef n) r) as [E|E]; simpl; [done|by destruct n].
Qed.
Lemma config_node_spec rm om lm n : (forall t r, rm !! t = Some r -> t <> ""%string /\ r <> ""%string) ->
  filled n (config_node rm om lm n) /\ OutboundRef (config_node rm om lm n) = default (OutboundRef n) (rm !! trim_space (Name n)) /\
  (trim_space (Name n) <> ""%string -> resolved om n (config_node rm om lm n)).
Proof.
  intros Hrm. unfold config_node. destruct (String.eqb_spec (trim_space (Name n)) "") as [E|E].
  - split; [done|]. split; [|done]. destruct (rm !! trim_space (Name n)) eqn:Hr; [|done]. by destruct (Hrm _ _ Hr).
  - unfold in_order. simpl. set (n1 := route_node _ _ _). set (n2 := resolve_node _ _).
    destruct (route_node_spec rm (trim_space (Name n)) n) as (A1 & A2 & A3 & A4); [intros; by eapply Hrm|]. fold n1 in A1, A2, A3, A4.
    destruct (resolve_node_spec om n1) as (B1 & B2 & B3). fold n2 in B1, B2, B3.
    destruct (identity_node_settled lm (trim_space (Name n)) n2) as (C1 & C2 & C3 & C4).
    split; [by trans n1; [|trans n2]|]. split; [congruence|]. intros _ ob. rewrite C2, C3, C4, <-A3, <-A4. apply B3.
Qed.

(** *** Routes *)
Lemma route_map_spec configs t r : singBoxRouteMap configs !! t = Some r -> t <> ""%string /\ r <> ""%string.
Proof.
  set (P := fun m : gmap string string => forall t r, m !! t = Some r -> t <> ""%string /\ r <> ""%string).
  assert (Hfold : forall {B} (f : gmap string string -> B -> gmap string string) l m, (forall m x, P m -> P (f m x)) -> P m -> P (foldl f m l)).
  { intros B f l. induction l as [|x l IH]; intros m Hf Hm; simpl; [done|]. apply IH; [done|by apply Hf]. }
  enough (P (singBoxRouteMap configs)) as H by apply H. unfold singBoxRouteMap. apply Hfold; [|intros ? ?; by rewrite lookup_empty].
  intros m c Hm. apply Hfold; [|done]. clear m Hm. intros m rule Hm. unfold rule_routes. destruct (String.eqb_spec (trim_space (rule_Outbound rule)) ""); [done|].
  apply Hfold; [|done]. clear m Hm. intros m i Hm. destruct (String.eqb_spec (trim_space i) ""); [done|].
  intros t' r' [[<- <-]|[_ H]]%lookup_insert_Some; [done|by eapply Hm].
Qed.

Lemma alter_rel {A} (R : A -> A -> Prop) `{!Reflexive R} f l : (forall x, R x (f x)) -> forall i, Forall2 R l (alter f i l).
Proof. intros Hf. induction l as [|x l IH]; intros i; [constructor|]. by destruct i; constructor; try apply IH. Qed.
Lemma map_rel {A} (R : A -> A -> Prop) f l : (forall x, R x (f x)) -> Forall2 R l (map f l).
Proof. intros Hf. induction l; by constructor. Qed.
Lemma inspected_lines inspect arrived MaxInspect nodes : Forall2 inspected nodes (enrichSingBoxNodesFromInspect inspect arrived MaxInspect nodes).
Proof.
  assert (Harrive : forall l nodes, Forall2 inspected nodes (foldl (arrive inspect) nodes l)).
  { induction l as [|c l IH]; intros ns; simpl; [done|]. trans (arrive inspect ns c); [|apply IH]. unfold arrive.
    destruct (inspect c); [done|]. apply alter_rel; [apply _|]. intros n. apply apply_line_inspected. }
  unfold enrichSingBoxNodesFromInspect. destruct (candidates MaxInspect nodes) as [|c rest]; [done|].
  destruct (inspect c) as [|line]; [done|]. trans (alter (apply_line line) c.1 nodes); [|apply Harrive].
  apply alter_rel; [apply _|]. intros n. apply apply_line_inspected.
Qed.

Lemma compose3 {A} (P Q S R : A -> A -> Prop) l1 l2 l3 l4 : (forall a b c d, P a b -> Q b c -> S c d -> R a d) ->
  Forall2 P l1 l2 -> Forall2 Q l2 l3 -> Forall2 S l3 l4 -> Forall2 R l1 l4.
Proof.
  intros Hr HP. revert l3 l4. induction HP as [|a b l1 l2 Hab HP IH]; intros l3 l4 HQ HS; inversion HQ; subst; inversion HS; subst; constructor; eauto.
Qed.

(** Results are applied to lines of their own, so their order does not
    matter. *)
Lemma inspect_order_irrelevant inspect arrived arrived' MaxInspect nodes : arrived ≡ₚ arrived' -> NoDup (map fst arrived) ->
  enrichSingBoxNodesFromInspect inspect arrived MaxInspect nodes = enrichSingBoxNodesFromInspect inspect arrived' MaxInspect nodes.
Proof.
  intros Hp Hd. unfold enrichSingBoxNodesFromInspect. destruct (candidates MaxInspect nodes) as [|c rest]; [done|].
  destruct (inspect c) as [|line]; [done|]. generalize (alter (apply_line line) c.1 nodes). clear nodes line c rest.
  induction Hp as [|x l l' Hp IH|x y l|l1 l2 l3 H1 IH1 H2 IH2]; intros nodes; simpl in *; [done| | |].
  - apply NoDup_cons in Hd as [_ Hd]. by apply IH.
  - apply NoDup_cons in Hd as [Hx Hd]. f_equal. unfold arrive. destruct (inspect x), (inspect y); try done.
    apply list_alter_alter_ne. intros E. apply Hx. rewrite E. by left.
  - rewrite IH1 by done. apply IH2. by rewrite <-H1.
Qed.

Section Discovery.
Context (files : list string) (readFile : string -> string + string).
Context (decode_config : string -> string + singBoxRuntimeConfig) (decode_sidecar : string -> string + singBoxSidecar) (decode_endpoints : string -> string + nodeEndpoints).
Context (decode_list : string -> string + option (list SingBoxNode)) (decode_line : string -> string + sbInspectLine) (decode_version : string -> string + string).
Context (run : duration -> string -> list string -> string + string) (run_inspect : duration -> string -> list string -> nat -> string + string).
Context (arrived : list (nat * string)).
Abbreviation discover := (Discover files readFile decode_config decode_sidecar decode_endpoints decode_list decode_line decode_version run run_inspect arrived).
Abbreviation configs := (load files readFile decode_config).
Abbreviation annotated := (annotate readFile decode_sidecar decode_endpoints).

Lemma annotate_spec src inv : Forall2 settled (inv_Nodes inv) (inv_Nodes (annotated src inv)) /\ inv_Status (annotated src inv) = inv_Status inv.
Proof.
  unfold annotate. set (inv' := inv <| inv_Nodes ::= _ |>).
  assert (H : Forall2 settled (inv_Nodes inv) (inv_Nodes inv') /\ inv_Status inv' = inv_Status inv).
  { unfold inv'. destruct inv as [x1 x2 x3 nodes x5 x6 x7]. unfold update_field. simpl. split; [|done]. unfold applySingBoxSidecar. destruct nodes as [|n nodes]; [done|].
    repeat case_match; try done. apply map_rel. intros m. apply sidecar_node_settled. }
  destruct H as [H1 H2]. unfold applyNodeEndpoints. repeat case_match; try done. unfold apply_endpoints.
  destruct (foldl endpoint_entry _ _) as [ports hosts]. destruct inv' as [x1 x2 x3 nodes x5 x6 x7]. unfold update_field. simpl in *. split; [|done].
  trans nodes; [done|]. apply map_rel. intros m. apply endpoint_node_settled.
Qed.
Lemma core_version_spec src inv : let inv' := core_version decode_version run src inv in inv_Nodes inv' = inv_Nodes inv /\ inv_Status inv' = inv_Status inv.
Proof. simpl. unfold core_version. by repeat case_match. Qed.
Lemma config_lines (nodes : list SingBoxNode) : Forall2 (fun n m : SingBoxNode => filled n m /\ OutboundRef m = default (OutboundRef n) (singBoxRouteMap configs !! trim_space (Name n)) /\ (trim_space (Name n) <> ""%string -> resolved (singBoxOutboundMap configs) n m)) nodes (enrichSingBoxNodesFromConfig configs nodes).
Proof.
  unfold enrichSingBoxNodesFromConfig. destruct nodes as [|n nodes]; [constructor|]. destruct configs as [|c l] eqn:E.
  - generalize (n :: nodes). intros ns. induction ns; by constructor.
  - generalize (n :: nodes). intros ns. apply map_rel. intros m. apply config_node_spec. intros t r. apply route_map_spec.
Qed.

(** One reported line against the listed one. *)
Record reported (n m : SingBoxNode) : Prop := {
  rep_filled : filled n m;
  rep_routed ref : singBoxRouteMap configs !! trim_space (Name n) = Some ref -> OutboundRef m = ref;
  rep_unrouted : singBoxRouteMap configs !! trim_space (Name n) = None -> kept (OutboundRef n) (OutboundRef m);
  rep_resolved : trim_space (Name n) <> ""%string -> resolved (singBoxOutboundMap configs) n m }.

Lemma reported_lines src nodes inv : inv_Nodes inv = enrich files readFile decode_config decode_line run_inspect arrived src nodes ->
  Forall2 reported nodes (inv_Nodes (annotated src inv)).
Proof.
  intros Hn. destruct (annotate_spec src inv) as [Ha _]. rewrite Hn in Ha. unfold enrich in Ha.
  set (l1 := enrichSingBoxNodesFromInspect _ _ _ _) in Ha.
  refine (compose3 _ _ _ _ _ _ _ _ _ (inspected_lines _ _ _ _) (config_lines l1) Ha).
  intros n a b m (I1 & I2 & I3 & I4) (B1 & B2 & B3) (C1 & C2 & C3 & C4). rewrite (f_name _ _ I1) in B2, B3. split.
  - by trans a; [|trans b].
  - intros ref Hr. rewrite C2, B2, Hr. done.
  - intros Hr. rewrite C2, B2, Hr. done.
  - intros Ht ob. rewrite C2, C3, C4, <-I3, <-I4. by apply B3.
Qed.

End Discovery.
End SingboxInventoryProps.

(** ** A relay and a plain line *)
Module SingboxInventorySample.
Import SingboxInventory SingboxInventoryProps.

Definition blank : SingBoxNode := mkNode "" "" "" "" "" "" "" "" "" "" "" "" "" "" 0 false None "" "".
Definition relay : SingBoxNode := blank <| Name := "relay"%string |> <| OutboundRef := "direct"%string |> <| OutboundServer := "a.example"%string |>.
Definition plain : SingBoxNode := blank <| Name := "plain"%string |> <| Port := "443"%string |>.
Definition config : singBoxRuntimeConfig :=
  mkRuntime [mkInbound "plain" "vless" "::" 443 None [("line_id"%string, AString "l-2")] None None]
    [mkOutbound "exit" "shadowsocks" "b.example" 8443; mkOutbound "direct" "direct" "" 0]
    (Some [mkRule ["relay"%string] "exit" "route"]).
Definition uuid1 : string := "6f1f0f64-2f0e-4c52-9a1b-0a1b2c3d4e5f".
Definition uuid2 : string := "7f1f0f64-2f0e-4c52-8a1b-0a1b2c3d4e5f".
Definition sidecar (back : option string) : singBoxSidecar :=
  mkSidecar sidecarSchema [mkSidecarInbound "relay" uuid1 (Some uuid2); mkSidecarInbound "plain" uuid2 back].
Definition files : list string := ["/etc/sing-box/config.json"%string].
Definition readFile (path : string) : string + string :=
  if String.eqb path "/etc/sing-box/config.json" then inr "C"%string
  else if String.eqb path "/etc/sing-box/lattice-metadata.json" then inr "S"%string else inl "no such file"%string.
Definition run (d : duration) (binary : string) (args : list string) : string + string := inr (if bool_decide (args = ["--json"; "list"]%string) then "L" else "V")%string.
Definition inspect_plain : sbInspectLine := mkLine "" 0 (Some ["u"%string]) "direct" "direct" "" "".
Definition discover (first : string + string) (answer : string + option (list SingBoxNode)) : SingBoxInventory * option string :=
  Discover files readFile (fun _ => inr config) (fun _ => inr (sidecar None)) (fun _ => inl ""%string) (fun _ => answer) (fun _ => inr inspect_plain)
    (fun _ => inr " 1.12 "%string) run (fun _ _ _ i => if (i =? 0)%nat then first else inr "I"%string) [(1%nat, "plain"%string)]
    (mkSource "" "" 0 "" "" 0) "n1".
Definition listed : SingBoxInventory := Eval vm_compute in (discover (inr "I"%string) (inr (Some [relay; plain]))).1.

Lemma listed_ok : discover (inr "I"%string) (inr (Some [relay; plain])) = (listed, None).
Proof. vm_compute. reflexivity. Qed.

(** The relay's outbound is overruled and its listed server kept, which is not
    where that outbound leads. *)
Lemma overruled_outbound_keeps_server :
  (OutboundRef <$> (inv_Nodes listed !! 0%nat)) = Some "exit"%string /\ (OutboundServer <$> (inv_Nodes listed !! 0%nat)) = Some "a.example"%string /\
  (ob_Server <$> singBoxOutboundMap [mkFile "" config] !! "exit"%string) = Some "b.example"%string.
Proof. vm_compute. done. Qed.
(** No inspect: the routed line is the same. *)
Example no_inspect : map OutboundRef (inv_Nodes (discover (inl "unknown command"%string) (inr (Some [relay; plain]))).1) = ["exit"; ""]%string.
Proof. vm_compute. reflexivity. Qed.
(** No list: the configuration alone. *)
Example fall_back_sample : let (inv, e) := discover (inr "I"%string) (inl "bad"%string) in
  e = None /\ map Name (inv_Nodes inv) = ["plain"%string] /\ map Port (inv_Nodes inv) = ["443"%string] /\ map LineID (inv_Nodes inv) = ["l-2"%string].
Proof. vm_compute. done. Qed.
Example sidecars : validateSingBoxSidecar (sidecar None) = None /\ validateSingBoxSidecar (sidecar (Some uuid1)) = Some ChainCycle /\
  validateSingBoxSidecar (sidecar (Some uuid2)) = Some (SelfChain "plain").
Proof. vm_compute. done. Qed.
End SingboxInventorySample.
