(* ===== verification/ProxyUsage.v ===== *)
(** * Proxy usage (internal/proxyusage, internal/singboxstatsapi)

    Counter names, the snapshot normalised from counters or a local document,
    the local sources and their checks, and the configuration of one source.
    Decoders, the network and commands are arguments; [now] is the clock's.  A map of the source that
    is only ranged over is a list of its entries, in the order of the range. *)
From S2P Require Import Prelude GoStrings GoUtf8 GoPath TrustedExec SingboxApi.
From Stdlib Require Import Ascii.
From stdpp Require Import gmap strings.
From stdpp Require sorting.

Local Open Scope Z_scope.

Module ProxyUsage.

Definition maxTrafficEntries : nat := 4096.
Definition maxUsageFileBytes : Z := Z.shiftl 1 20.
Definition maxXrayStderrBytes : Z := 4096.
Definition defaultHTTPTimeout : duration := 3 * second.
Definition defaultSingBoxStatsTimeout : duration := 5 * second.
Definition defaultXrayCLITimeout : duration := 5 * second.
Definition defaultXrayBinary : string := "xray".
Definition defaultXrayStatsPattern : string := "user>>>".

(** ** Snapshots *)
Record ProxyTrafficCounter := mkCounter { Uplink : Z; Downlink : Z }.
#[global] Instance counter_eq_dec : EqDecision ProxyTrafficCounter. Proof. solve_decision. Defined.
(** What a source says. *)
Record raw_snapshot := mkRaw {
  raw_At : time; raw_UserBytes : list (string * Z); raw_LineUserBytes : list (string * list (string * Z));
  raw_Inbound : list (string * ProxyTrafficCounter); raw_User : list (string * ProxyTrafficCounter); raw_Outbound : list (string * ProxyTrafficCounter) }.
(** What is sent; fields that are only passed on are left out. *)
Record ProxyUsageSnapshot := mkSnapshot {
  NodeID : string; At : time; UserBytes : gmap string Z; LineUserBytes : gmap string (gmap string Z);
  InboundTraffic : gmap string ProxyTrafficCounter; UserTraffic : gmap string ProxyTrafficCounter; OutboundTraffic : gmap string ProxyTrafficCounter;
  IgnoredCounters : Z }.

Inductive usage_error :=
  | EmptyUserID | NegativeUser (id : string) | EmptyLineID | LongLineID | NegativeLineUser (id line : string)
  | EmptyKey (label : string) | NegativeTraffic (label id : string) | NegativeStat (name : string)
  | EmptyBody | DecodeError (text : string) | Unsupported
  | PathRequired | FileTooLarge | ReadError (text : string)
  | URLRequired | BadURL (text : string) | HasUserinfo | BadScheme | URLNotLoopback | BadStatus (text : string) | SourceTooLarge
  | ControlCharacters | UnsafeCharacters | AddrRequired | NotHostPort (text : string) | AddrNotLoopback | InvalidPort | PatternTooLong
  | QueryFailed (text : string) | OnlyOneSource | BothSecrets | SecretNeedsURL | SecretFileNeedsURL | BinNeedsXray | PatternNeedsXray | NegativeTimeout
  | SecretTooLarge | SecretEmpty.

(** A loop that stops at the first error. *)
Fixpoint fold_err {S B} (f : S -> B -> usage_error + S) (l : list B) (s : S) : usage_error + S :=
  match l with [] => inr s | x :: l => match f s x with inl e => inl e | inr s => fold_err f l s end end.
Definition added (m : gmap string Z) (id : string) (v : Z) : gmap string Z := <[id := i64 (default 0 (m !! id) + v)]> m.

(** ** Normalisation *)
Definition user_entry (m : gmap string Z) (kv : string * Z) : usage_error + gmap string Z :=
  let id := trim_space kv.1 in
  if String.eqb id "" then inl EmptyUserID else if kv.2 <? 0 then inl (NegativeUser id) else inr (added m id kv.2).
Definition line_user_entry (line : string) (s : gmap string Z * gmap string Z) (kv : string * Z) : usage_error + gmap string Z * gmap string Z :=
  let id := trim_space kv.1 in
  if String.eqb id "" then inl EmptyUserID else if kv.2 <? 0 then inl (NegativeLineUser id line) else inr (added s.1 id kv.2, added s.2 id kv.2).
Definition line_entry (s : gmap string (gmap string Z) * gmap string Z) (kv : string * list (string * Z)) :
    usage_error + gmap string (gmap string Z) * gmap string Z :=
  let line := trim_space kv.1 in
  if String.eqb line "" then inl EmptyLineID
  else if (256 <? String.length line)%nat then inl LongLineID
  else match fold_err (line_user_entry line) kv.2 (default ∅ (s.1 !! line), s.2) with
       | inl e => inl e
       | inr (dst, totals) => inr (<[line := dst]> s.1, totals)
       end.
Definition traffic_entry (label : string) (m : gmap string ProxyTrafficCounter) (kv : string * ProxyTrafficCounter) : usage_error + gmap string ProxyTrafficCounter :=
  let id := trim_space kv.1 in
  if String.eqb id "" then inl (EmptyKey label)
  else if (Uplink kv.2 <? 0) || (Downlink kv.2 <? 0) then inl (NegativeTraffic label id)
  else let prev := default (mkCounter 0 0) (m !! id) in
       inr (<[id := mkCounter (i64 (Uplink prev + Uplink kv.2)) (i64 (Downlink prev + Downlink kv.2))]> m).
Definition sorted_keys (m : gmap string ProxyTrafficCounter) : list string := sort_strings (map fst (map_to_list m)).
Definition normalizeTraffic (label : string) (l : list (string * ProxyTrafficCounter)) : usage_error + gmap string ProxyTrafficCounter * Z :=
  match fold_err (traffic_entry label) l ∅ with
  | inl e => inl e
  | inr out =>
      if (size out <=? maxTrafficEntries)%nat then inr (out, 0)
      else inr (foldl (fun m k => delete k m) out (drop maxTrafficEntries (sorted_keys out)), Z.of_nat (size out) - Z.of_nat maxTrafficEntries)
  end.
Definition NormalizeSnapshot (s : raw_snapshot) (nodeID : string) (now : time) : usage_error + ProxyUsageSnapshot :=
  let at_ := if is_zero_time (raw_At s) then now else raw_At s in
  match fold_err user_entry (raw_UserBytes s) ∅ with
  | inl e => inl e
  | inr users =>
      match fold_err line_entry (raw_LineUserBytes s) (∅, ∅) with
      | inl e => inl e
      | inr (lines, totals) =>
          let users := if bool_decide (lines <> ∅) && bool_decide (users = ∅) then totals else users in
          match normalizeTraffic "inbound" (raw_Inbound s), normalizeTraffic "user" (raw_User s), normalizeTraffic "outbound" (raw_Outbound s) with
          | inl e, _, _ => inl e
          | _, inl e, _ => inl e
          | _, _, inl e => inl e
          | inr (i, ni), inr (u, nu), inr (o, no) => inr (mkSnapshot (trim_space nodeID) at_ users lines i u o (i64 (ni + nu + no)))
          end
      end
  end.

(** ** Counter names *)
Fixpoint split_fuel (fuel : nat) (s sep : string) : list string :=
  match fuel with
  | O => [s]
  | S fuel => match cut s sep with Some (a, b) => a :: split_fuel fuel b sep | None => [s] end
  end.
Definition split (s sep : string) : list string := split_fuel (String.length s) s sep.
Inductive stat_kind := KUser | KInbound | KOutbound.
Inductive stat_direction := DUplink | DDownlink.
Definition kind_of (s : string) : option stat_kind :=
  if String.eqb s "user" then Some KUser else if String.eqb s "inbound" then Some KInbound else if String.eqb s "outbound" then Some KOutbound else None.
Definition direction_of (s : string) : option stat_direction :=
  if String.eqb s "uplink" then Some DUplink else if String.eqb s "downlink" then Some DDownlink else None.
Definition parseV2RayTrafficStat (raw : string) : option (stat_kind * string * stat_direction) :=
  match split raw ">>>" with
  | [k; n; t; d] =>
      match kind_of k with
      | None => None
      | Some kind =>
          if negb (String.eqb t "traffic") then None
          else match direction_of d with
               | None => None
               | Some dir => let name := trim_space n in if String.eqb name "" then None else Some (kind, name, dir)
               end
      end
  | _ => None
  end.
Record nameValue := mkStat { stat_name : string; stat_value : Z }.
(** The maps folded from counters: users, then traffic by user, inbound and
    outbound. *)
Record folded := mkFolded { fd_UserBytes : gmap string Z; fd_User : gmap string ProxyTrafficCounter; fd_Inbound : gmap string ProxyTrafficCounter; fd_Outbound : gmap string ProxyTrafficCounter }.
Definition bump (m : gmap string ProxyTrafficCounter) (name : string) (d : stat_direction) (v : Z) : gmap string ProxyTrafficCounter :=
  let c := default (mkCounter 0 0) (m !! name) in
  <[name := match d with DUplink => mkCounter (i64 (Uplink c + v)) (Downlink c) | DDownlink => mkCounter (Uplink c) (i64 (Downlink c + v)) end]> m.
Definition stat_entry (includeTraffic : bool) (f : folded) (s : nameValue) : usage_error + folded :=
  if stat_value s <? 0 then inl (NegativeStat (stat_name s))
  else
    match parseV2RayTrafficStat (stat_name s) with
    | None => inr f
    | Some (kind, name, dir) =>
        let users := match kind with KUser => added (fd_UserBytes f) name (stat_value s) | _ => fd_UserBytes f end in
        inr (if negb includeTraffic then mkFolded users (fd_User f) (fd_Inbound f) (fd_Outbound f)
             else match kind with
                  | KUser => mkFolded users (bump (fd_User f) name dir (stat_value s)) (fd_Inbound f) (fd_Outbound f)
                  | KInbound => mkFolded users (fd_User f) (bump (fd_Inbound f) name dir (stat_value s)) (fd_Outbound f)
                  | KOutbound => mkFolded users (fd_User f) (fd_Inbound f) (bump (fd_Outbound f) name dir (stat_value s))
                  end)
    end.
Definition raw_of (f : folded) : raw_snapshot :=
  mkRaw 0 (map_to_list (fd_UserBytes f)) [] (map_to_list (fd_Inbound f)) (map_to_list (fd_User f)) (map_to_list (fd_Outbound f)).
Definition snapshotFromV2RayStats (stats : list nameValue) (includeTraffic : bool) : usage_error + raw_snapshot :=
  match fold_err (stat_entry includeTraffic) stats (mkFolded ∅ ∅ ∅ ∅) with inl e => inl e | inr f => inr (raw_of f) end.
Definition from_stats (stats : list nameValue) (nodeID : string) (at_ : time) (includeTraffic : bool) : usage_error + ProxyUsageSnapshot :=
  match snapshotFromV2RayStats stats includeTraffic with inl e => inl e | inr s => NormalizeSnapshot s nodeID at_ end.
(** A number, or the text of one. *)
Definition strip_first_quote (s : string) : option string := match s with String c t => if Ascii.eqb c (byte_of 34) then Some t else None | _ => None end.
Definition strip_last_quote (s : string) : option string := cut_suffix s (String (byte_of 34) "").
Definition int64String (data : string) : option Z :=
  let raw := trim_space data in
  let raw := strip_all strip_first_quote (String.length raw) raw in
  parse_int (strip_all strip_last_quote (String.length raw) raw).

(** ** Documents of a local source *)
Section Decode.
Context (top_level : string -> usage_error + gmap string string) (decode_snapshot : string -> usage_error + raw_snapshot) (decode_stats : string -> usage_error + list nameValue).
Definition decodeV2RayStats (raw nodeID : string) (at_ : time) (includeTraffic : bool) : usage_error + ProxyUsageSnapshot :=
  match decode_stats raw with inl e => inl e | inr stats => from_stats stats nodeID at_ includeTraffic end.
Definition decode_and_normalize (raw nodeID : string) (now : time) : usage_error + ProxyUsageSnapshot :=
  match decode_snapshot raw with inl e => inl e | inr s => NormalizeSnapshot s nodeID now end.
Definition snapshot_fields : list string := ["user_bytes"; "line_user_bytes"; "core_uptime_sec"; "at"; "inbound_traffic"; "user_traffic"; "outbound_traffic"]%string.
Definition DecodeUsageSnapshot (data nodeID : string) (now : time) : usage_error + ProxyUsageSnapshot :=
  if String.eqb (trim_space data) "" then inl EmptyBody
  else
    match top_level data with
    | inl e => inl e
    | inr top =>
        match top !! "snapshot"%string, top !! "stat"%string with
        | Some raw, _ => decode_and_normalize raw nodeID now
        | None, Some raw => decodeV2RayStats raw nodeID now true
        | None, None => if existsb (fun f => bool_decide (is_Some (top !! f))) snapshot_fields then decode_and_normalize data nodeID now else inl Unsupported
        end
    end.
(** [size] and [data] are the answers of os.Stat and os.ReadFile. *)
Definition LoadFile (path : string) (size : string + Z) (data : string + string) (nodeID : string) (now : time) : usage_error + ProxyUsageSnapshot :=
  if String.eqb (trim_space path) "" then inl PathRequired
  else
    match size with
    | inl e => inl (ReadError e)
    | inr n =>
        if maxUsageFileBytes <? n then inl FileTooLarge
        else match data with inl e => inl (ReadError e) | inr d => decode_and_normalize d nodeID now end
    end.

(** *** The checks of the addresses *)
Context (SplitHostPort : string -> string + string * string) (JoinHostPort : string -> string -> string) (ip_loopback : string -> bool).
Definition isLoopbackHost (host : string) : bool :=
  let host := SingboxApi.trim_brackets (lower (trim_space host)) in
  if String.eqb host "localhost" then true else ip_loopback host.
Record url := mkURL { u_User : bool; u_Scheme : string; u_Hostname : string; u_Path : string; u_String : string -> string }.
(** [parse] is url.Parse; [u_String] prints the URL with the given path. *)
Definition ValidateLocalHTTPURL (parse : string -> string + url) (raw : string) : usage_error + string :=
  let raw := trim_space raw in
  if String.eqb raw "" then inl URLRequired
  else
    match parse raw with
    | inl e => inl (BadURL e)
    | inr u =>
        if u_User u then inl HasUserinfo
        else if negb (String.eqb (u_Scheme u) "http" || String.eqb (u_Scheme u) "https") then inl BadScheme
        else if negb (isLoopbackHost (u_Hostname u)) then inl URLNotLoopback
        else inr (u_String u (if String.eqb (u_Path u) "" then "/"%string else u_Path u))
    end.
Definition control (c : ascii) : bool := (byte_val c <? 32) || (byte_val c =? 127).
Definition unsafe_bytes : list Z := [32; 9; 10; 34; 39; 96; 36; 59; 38; 124; 60; 62; 40; 41; 123; 125; 91; 93; 42; 63; 33; 126; 92].
Definition validateXrayBinary (value : string) : usage_error + string :=
  let value := trim_space value in
  if String.eqb value "" then inr defaultXrayBinary
  else if str_exists control value then inl ControlCharacters
  else if str_exists (fun c => bool_decide (byte_val c ∈ unsafe_bytes)) value then inl UnsafeCharacters
  else inr value.
Definition validateLoopbackHostPort (value : string) : usage_error + string :=
  let value := trim_space value in
  if String.eqb value "" then inl AddrRequired
  else
    match SplitHostPort value with
    | inl e => inl (NotHostPort e)
    | inr (host, port) =>
        if negb (isLoopbackHost host) then inl AddrNotLoopback
        else match atoi port with
             | Some p => if (p <? 1) || (65535 <? p) then inl InvalidPort else inr (JoinHostPort host port)
             | None => inl InvalidPort
             end
    end.
Definition validateXrayStatsPattern (value : string) : option usage_error :=
  if (128 <? String.length value)%nat then Some PatternTooLong else if str_exists control value then Some ControlCharacters else None.
Definition pattern_error (pattern : string) : option usage_error := if String.eqb (trim_space pattern) "" then None else validateXrayStatsPattern (trim_space pattern).
Definition ValidateXrayCLISource (binary addr pattern : string) : option usage_error :=
  match validateXrayBinary binary, validateLoopbackHostPort addr with inl e, _ => Some e | _, inl e => Some e | _, _ => pattern_error pattern end.
Definition ValidateSingBoxStatsSource (addr pattern : string) : option usage_error :=
  match validateLoopbackHostPort addr with inl e => Some e | inr _ => pattern_error pattern end.

(** *** The sources *)
Definition timeout_or (d fallback : duration) : duration := if d <=? 0 then fallback else d.
(** [query] asks the core for its counters. *)
Definition LoadSingBoxStats (query : duration -> string -> string -> string + list nameValue) (addr pattern : string) (timeout : duration)
    (nodeID : string) (now : time) : usage_error + ProxyUsageSnapshot :=
  match validateLoopbackHostPort addr with
  | inl e => inl e
  | inr addr =>
      match pattern_error pattern with
      | Some e => inl e
      | None =>
          match query (timeout_or timeout defaultSingBoxStatsTimeout) addr (trim_space pattern) with
          | inl e => inl (QueryFailed e)
          | inr stats => from_stats stats nodeID now true
          end
      end
  end.
(** The output of the command: nothing yet, or its counters. *)
Definition empty_snapshot : raw_snapshot := mkRaw 0 [] [] [] [] [].
Definition decodeXrayStats (stat_field : string -> usage_error + string) (data nodeID : string) (at_ : time) : usage_error + ProxyUsageSnapshot :=
  let trimmed := trim_space data in
  if String.eqb trimmed "" then NormalizeSnapshot empty_snapshot nodeID at_
  else
    match stat_field trimmed with
    | inl e => inl e
    | inr raw => if String.eqb (trim_space raw) "" || String.eqb (trim_space raw) "null" then NormalizeSnapshot empty_snapshot nodeID at_ else decodeV2RayStats raw nodeID at_ false
    end.
Definition xray_args (addr pattern : string) : list string := ["api"; "statsquery"; "--server=" +:+ addr; "-pattern"; pattern; "-reset=false"]%string.
Definition LoadXrayCLI (stat_field : string -> usage_error + string) (runner : duration -> string -> list string -> string + string) (binary addr pattern : string)
    (timeout : duration) (nodeID : string) (now : time) : usage_error + ProxyUsageSnapshot :=
  match validateXrayBinary binary with
  | inl e => inl e
  | inr binary =>
      match validateLoopbackHostPort addr with
      | inl e => inl e
      | inr addr =>
          let pattern := if String.eqb (trim_space pattern) "" then defaultXrayStatsPattern else trim_space pattern in
          match validateXrayStatsPattern pattern with
          | Some e => inl e
          | None =>
              match runner (timeout_or timeout defaultXrayCLITimeout) binary (xray_args addr pattern) with
              | inl e => inl (QueryFailed e)
              | inr out => decodeXrayStats stat_field out nodeID now
              end
          end
      end
  end.
(** The answer of a local HTTP source: its status and its body. *)
Definition LoadHTTP (parse : string -> string + url) (get : duration -> string -> option string -> string + (Z * string * (string + string)))
    (raw secret : string) (timeout : duration) (nodeID : string) (now : time) : usage_error + ProxyUsageSnapshot :=
  match ValidateLocalHTTPURL parse raw with
  | inl e => inl e
  | inr endpoint =>
      match get (timeout_or timeout defaultHTTPTimeout) endpoint (if String.eqb (trim_space secret) "" then None else Some (trim_space secret)) with
      | inl e => inl (ReadError e)
      | inr (code, status, body) =>
          if (code <? 200) || (300 <=? code) then inl (BadStatus status)
          else match body with
               | inl e => inl (ReadError e)
               | inr data => if maxUsageFileBytes <? Z.of_nat (String.length data) then inl SourceTooLarge else DecodeUsageSnapshot data nodeID now
               end
      end
  end.

(** ** The configured source (main.go) *)
Record usage_config := mkUsageConfig {
  cfg_File : string; cfg_URL : string; cfg_Secret : string; cfg_SecretFile : string; cfg_Timeout : duration; cfg_XrayAPI : string; cfg_XrayBin : string;
  cfg_XrayPattern : string; cfg_StatsAPI : string; cfg_Discovered : string; cfg_Discover : bool }.
#[global] Instance eta_usage_config : Etable usage_config := fun x => mkUsageConfig (cfg_File x) (cfg_URL x) (cfg_Secret x) (cfg_SecretFile x) (cfg_Timeout x)
  (cfg_XrayAPI x) (cfg_XrayBin x) (cfg_XrayPattern x) (cfg_StatsAPI x) (cfg_Discovered x) (cfg_Discover x).
Definition given (s : string) : bool := negb (String.eqb (trim_space s) "").
Definition proxyUsageSourcesConfigured (c : usage_config) : Z := countb given [cfg_File c; cfg_URL c; cfg_XrayAPI c; cfg_StatsAPI c].
Definition validateProxyUsageConfig (parse : string -> string + url) (c : usage_config) : option usage_error :=
  if 1 <? proxyUsageSourcesConfigured c then Some OnlyOneSource
  else if given (cfg_Secret c) && given (cfg_SecretFile c) then Some BothSecrets
  else if given (cfg_Secret c) && negb (given (cfg_URL c)) then Some SecretNeedsURL
  else if given (cfg_SecretFile c) && negb (given (cfg_URL c)) then Some SecretFileNeedsURL
  else match (if given (cfg_URL c) then match ValidateLocalHTTPURL parse (cfg_URL c) with inl e => Some e | inr _ => None end else None) with
  | Some e => Some e
  | None =>
      if negb (String.eqb (cfg_XrayBin c) "") && negb (given (cfg_XrayAPI c)) then Some BinNeedsXray
      else if negb (String.eqb (cfg_XrayPattern c) "") && negb (given (cfg_XrayAPI c)) then Some PatternNeedsXray
      else match (if given (cfg_XrayAPI c) then ValidateXrayCLISource (cfg_XrayBin c) (cfg_XrayAPI c) (cfg_XrayPattern c) else None) with
           | Some e => Some e
           | None =>
               match (if given (cfg_StatsAPI c) then ValidateSingBoxStatsSource (cfg_StatsAPI c) "" else None) with
               | Some e => Some e
               | None => if cfg_Timeout c <? 0 then Some NegativeTimeout else None
               end
           end
  end.
Definition resolveProxyUsageSecret (data : string + string) (c : usage_config) : usage_error + usage_config :=
  if negb (given (cfg_SecretFile c)) then inr c
  else if given (cfg_Secret c) then inl BothSecrets
  else
    match data with
    | inl e => inl (ReadError e)
    | inr d =>
        if 4096 <? Z.of_nat (String.length d) then inl SecretTooLarge
        else if String.eqb (trim_space d) "" then inl SecretEmpty
        else inr (c <| cfg_Secret := trim_space d |> <| cfg_SecretFile := ""%string |>)
    end.
Inductive source := SFile | SHTTP | SSingBox (addr : string) | SXray.
(** Which source a report asks: none, an error, or one. *)
Definition chosen_source (c : usage_config) : usage_error + option source :=
  let configured := proxyUsageSourcesConfigured c in
  let discovered := trim_space (cfg_Discovered c) in
  if (configured =? 0) && String.eqb discovered "" then inr None
  else if 1 <? configured then inl OnlyOneSource
  else inr (Some (if given (cfg_File c) then SFile else if given (cfg_URL c) then SHTTP
                  else if configured =? 0 then SSingBox discovered else if given (cfg_StatsAPI c) then SSingBox (cfg_StatsAPI c) else SXray)).

Definition load_source (stat : string -> string + Z) (read : string -> string + string) (parse : string -> string + url)
    (get : duration -> string -> option string -> string + (Z * string * (string + string))) (query : duration -> string -> string -> string + list nameValue)
    (stat_field : string -> usage_error + string) (runner : duration -> string -> list string -> string + string) (c : usage_config)
    (nodeID : string) (now : time) (s : source) : usage_error + ProxyUsageSnapshot :=
  match s with
  | SFile => LoadFile (cfg_File c) (stat (trim_space (cfg_File c))) (read (trim_space (cfg_File c))) nodeID now
  | SHTTP => LoadHTTP parse get (cfg_URL c) (cfg_Secret c) (cfg_Timeout c) nodeID now
  | SSingBox addr => LoadSingBoxStats query addr "" (cfg_Timeout c) nodeID now
  | SXray => LoadXrayCLI stat_field runner (cfg_XrayBin c) (cfg_XrayAPI c) (cfg_XrayPattern c) (cfg_Timeout c) nodeID now
  end.
(** A report: a snapshot, or that the collector failed. *)
Record usage_post := mkPost { post_source : string; post_ok : bool; post_at : time; post_error : string; post_snapshot : ProxyUsageSnapshot }.
Definition source_name (s : source) : string := match s with SFile => "file" | SHTTP => "http" | SSingBox _ => "singbox-stats" | SXray => "xray-cli" end.
Definition boundedProxyUsageError (msg : string) : string := bounded_runes 512 msg.
Definition reportProxyUsage (load : source -> usage_error + ProxyUsageSnapshot) (text : usage_error -> string) (post : usage_post -> option string)
    (nodeID : string) (now : time) (c : usage_config) : list usage_post * option string :=
  match chosen_source c with
  | inl e => ([], Some (text e))
  | inr None => ([], None)
  | inr (Some s) =>
      match load s with
      | inl e =>
          let p := mkPost (source_name s) false now (boundedProxyUsageError (text e)) (mkSnapshot nodeID now ∅ ∅ ∅ ∅ ∅ 0) in
          ([p], Some (match post p with Some pe => text e +:+ "; collector health report failed: " +:+ pe | None => text e end)%string)
      | inr r => let p := mkPost (source_name s) true now "" r in ([p], post p)
      end
  end.

(** *** The address found in the core's configuration *)
Definition maxConfigBytes : Z := Z.shiftl 8 20.
(** [data] is what the file gives up to one byte past the bound. *)
Definition readBounded (data : string -> option string) (path : string) : option string :=
  data path ≫= (fun d => if maxConfigBytes <? Z.of_nat (String.length d) then None else Some d).
Record Result := mkResult { Addr : string; Path : string }.
#[global] Instance result_eq_dec : EqDecision Result. Proof. solve_decision. Defined.
Fixpoint Discover (readBounded : string -> option string) (decode_listen : string -> option string) (files : list string) : (string * usage_error) + Result :=
  match files with
  | [] => inr (mkResult "" "")
  | path :: files =>
      match readBounded path ≫= (fun raw => decode_listen (trim_space raw)) with
      | None => Discover readBounded decode_listen files
      | Some listen =>
          let listen := trim_space listen in
          if String.eqb listen "" then Discover readBounded decode_listen files
          else match ValidateSingBoxStatsSource listen "" with Some e => inl (path, e) | None => inr (mkResult listen path) end
      end
  end.
(** What is remembered between two reports. *)
Record singBoxStatsDiscovery := mkDiscovery { last : Result; lastErr : option (string * usage_error) }.
Definition refresh (found : (string * usage_error) + Result) (d : singBoxStatsDiscovery) (c : usage_config) : singBoxStatsDiscovery * usage_config :=
  let c := c <| cfg_Discovered := ""%string |> in
  let none := mkResult "" "" in
  if negb (cfg_Discover c) || (0 <? proxyUsageSourcesConfigured c) then (mkDiscovery none None, c)
  else
    match found with
    | inl e => (mkDiscovery none (Some e), c)
    | inr r => if String.eqb (Addr r) "" then (mkDiscovery none None, c) else (mkDiscovery r None, c <| cfg_Discovered := Addr r |>)
    end.
End Decode.

(** The files that may declare it: the trusted processes', then the usual
    ones; the walk over the arguments is the discoverer's. *)
Definition configFiles (is_file : string -> bool) (Glob : string -> list string) (processes : list (list string)) (defaultFile defaultDir : string) : list string :=
  let out := foldl (fun out args => TrustedExec.scan_args is_file Glob (length args) args out) [] processes in
  TrustedExec.addDir is_file Glob defaultDir (TrustedExec.addFile is_file defaultFile out).

(** ** A bounded buffer (xraycli.go) *)
Record cappedBuffer := mkCapped { c_buf : string; limit : Z; overflow : bool }.
Definition Write (p : string) (c : cappedBuffer) : cappedBuffer :=
  if overflow c then c
  else
    let remaining := limit c - Z.of_nat (String.length (c_buf c)) in
    if remaining <=? 0 then mkCapped (c_buf c) (limit c) true
    else if remaining <? Z.of_nat (String.length p) then mkCapped (c_buf c +:+ str_take (Z.to_nat remaining) p) (limit c) true
    else mkCapped (c_buf c +:+ p) (limit c) false.
End ProxyUsage.

(** * What a normalised snapshot holds *)
Module ProxyUsageProps.
Import ProxyUsage.

Lemma i64_add_l x y : i64 (i64 x + y) = i64 (x + y).
Proof.
  unfold i64. f_equal. replace ((x + 2 ^ 63) mod 2 ^ 64 - 2 ^ 63 + y + 2 ^ 63) with ((x + 2 ^ 63) mod 2 ^ 64 + y) by lia.
  rewrite Zplus_mod_idemp_l. f_equal. lia.
Qed.

(** The entries of a name, by its trimmed key, and their sum in 64 bits. *)
Definition entries {A} (k : string) (l : list (string * A)) : list A := map snd (List.filter (fun kv => String.eqb (trim_space kv.1) k) l).
Definition sum64 (l : list Z) : Z := i64 (foldr Z.add 0 l).
Definition summed (k : string) (l : list (string * Z)) : option Z := match entries k l with [] => None | vs => Some (sum64 vs) end.
Definition summed_traffic (k : string) (l : list (string * ProxyTrafficCounter)) : option ProxyTrafficCounter :=
  match entries k l with [] => None | vs => Some (mkCounter (sum64 (map Uplink vs)) (sum64 (map Downlink vs))) end.

Lemma entries_cons {A} k kv (l : list (string * A)) : entries k (kv :: l) = if String.eqb (trim_space kv.1) k then kv.2 :: entries k l else entries k l.
Proof. unfold entries. simpl. by destruct (String.eqb (trim_space kv.1) k). Qed.
Lemma entries_app {A} k (l l' : list (string * A)) : entries k (l ++ l') = entries k l ++ entries k l'.
Proof. induction l as [|x l IH]; simpl; [done|]. rewrite !entries_cons, IH. by destruct (String.eqb _ _). Qed.
Lemma foldr_add_app l l' : foldr Z.add 0 (l ++ l') = foldr Z.add 0 l + foldr Z.add 0 l'.
Proof. induction l; simpl; lia. Qed.
Lemma sum64_snoc l x : sum64 (l ++ [x]) = i64 (sum64 l + x).
Proof. unfold sum64. rewrite foldr_add_app, i64_add_l. f_equal. simpl. lia. Qed.
Lemma fold_err_snoc {S B} (f : S -> B -> usage_error + S) l x s : fold_err f (l ++ [x]) s = match fold_err f l s with inl e => inl e | inr s => f s x end.
Proof. revert s. induction l as [|y l IH]; intros s; simpl; [by destruct (f s x)|]. by destruct (f s y). Qed.
(** What holds before a loop and is kept by each round holds after it. *)
Lemma fold_err_inv {S B} (f : S -> B -> usage_error + S) (P : list B -> S -> Prop) s0 : P [] s0 ->
  (forall l s x s', P l s -> f s x = inr s' -> P (l ++ [x]) s') -> forall l s, fold_err f l s0 = inr s -> P l s.
Proof.
  intros H0 Hs l. induction l as [|x l IH] using rev_ind; intros s; [by intros [= <-]|]. rewrite fold_err_snoc.
  destruct (fold_err f l s0) as [|s1]; [done|]. intros H. eapply Hs; [by apply IH|done].
Qed.

Lemma summed_snoc k l kv : summed k (l ++ [kv]) = if String.eqb (trim_space kv.1) k then Some (i64 (default 0 (summed k l) + kv.2)) else summed k l.
Proof.
  unfold summed. rewrite entries_app, entries_cons. destruct (String.eqb (trim_space kv.1) k); [|by rewrite app_nil_r].
  pose proof (sum64_snoc (entries k l) kv.2) as H. change (entries k []) with (@nil Z). rewrite <-(app_nil_r (entries k l)) at 2.
  destruct (entries k l); simpl in *; rewrite ?app_nil_r; [by rewrite H|by rewrite H].
Qed.
Definition sums_to (l : list (string * Z)) (m : gmap string Z) : Prop := forall k, m !! k = summed k l.
Lemma added_sums l m id v key : trim_space key = id -> sums_to l m -> sums_to (l ++ [(key, v)]) (added m id v).
Proof.
  intros <- Hm k. rewrite summed_snoc. simpl. unfold added. rewrite Hm. destruct (String.eqb_spec (trim_space key) k) as [<-|Hk].
  - by rewrite lookup_insert, decide_True.
  - rewrite lookup_insert_ne by done. apply Hm.
Qed.
Lemma users_sum l m : fold_err user_entry l ∅ = inr m -> sums_to l m.
Proof.
  apply (fold_err_inv user_entry sums_to); [intros k; apply lookup_empty|]. intros l' s [key v] s' Hs. unfold user_entry. simpl.
  destruct (String.eqb (trim_space key) ""); [done|]. destruct (v <? 0); [done|]. intros [= <-]. by apply added_sums.
Qed.

(** *** Lines *)
Lemma line_users_sum line p q l d t d' t' : sums_to p d -> sums_to q t -> fold_err (line_user_entry line) l (d, t) = inr (d', t') ->
  sums_to (p ++ l) d' /\ sums_to (q ++ l) t'.
Proof.
  intros Hp Hq. apply (fold_err_inv (line_user_entry line) (fun l s => sums_to (p ++ l) s.1 /\ sums_to (q ++ l) s.2)); [by rewrite !app_nil_r|].
  clear l d' t'. intros l [a b] [key v] s' [Ha Hb]. unfold line_user_entry. simpl. destruct (String.eqb (trim_space key) ""); [done|]. destruct (v <? 0); [done|].
  intros [= <-]. rewrite !app_assoc. split; by apply added_sums.
Qed.
Definition lines_to (l : list (string * list (string * Z))) (lines : gmap string (gmap string Z)) : Prop := forall line,
  match entries line l with
  | [] => lines !! line = None
  | us => exists m, lines !! line = Some m /\ sums_to (List.concat us) m
  end.
Lemma lines_sum l lines totals : fold_err line_entry l (∅, ∅) = inr (lines, totals) -> lines_to l lines /\ sums_to (List.concat (map snd l)) totals.
Proof.
  apply (fold_err_inv line_entry (fun l s => lines_to l s.1 /\ sums_to (List.concat (map snd l)) s.2)); [split; intros k; apply lookup_empty|].
  clear l lines totals. intros l [lines totals] [key users] s' [Hl Ht]. unfold line_entry. simpl in *.
  destruct (String.eqb (trim_space key) ""); [done|]. destruct (256 <? String.length (trim_space key))%nat; [done|].
  set (dst := default ∅ (lines !! trim_space key)). destruct (fold_err _ users (dst, totals)) as [|[d t]] eqn:E; [done|]. intros [= <-]. simpl.
  assert (Hd : sums_to (List.concat (entries (trim_space key) l)) dst).
  { specialize (Hl (trim_space key)). unfold dst. destruct (entries (trim_space key) l) as [|u us]; [rewrite Hl; intros k; apply lookup_empty|]. by destruct Hl as (m & -> & Hm). }
  destruct (line_users_sum _ _ _ _ _ _ _ _ Hd Ht E) as [H1 H2]. split; [|by rewrite map_app, concat_app; simpl; rewrite app_nil_r].
  intros line. rewrite entries_app, entries_cons. simpl. destruct (String.eqb_spec (trim_space key) line) as [<-|Hn].
  - assert (Hnew : exists m, <[trim_space key := d]> lines !! trim_space key = Some m /\ sums_to (List.concat (entries (trim_space key) l ++ [users])) m).
    { exists d. rewrite lookup_insert, decide_True by done. split; [done|]. rewrite concat_app. simpl. by rewrite app_nil_r. }
    by destruct (entries (trim_space key) l).
  - rewrite app_nil_r, lookup_insert_ne by done. apply Hl.
Qed.

(** *** Traffic *)
Definition traffic_to (l : list (string * ProxyTrafficCounter)) (m : gmap string ProxyTrafficCounter) : Prop := forall k, m !! k = summed_traffic k l.
Lemma summed_traffic_snoc k l kv : summed_traffic k (l ++ [kv]) =
  if String.eqb (trim_space kv.1) k then
    let c := default (mkCounter 0 0) (summed_traffic k l) in Some (mkCounter (i64 (Uplink c + Uplink kv.2)) (i64 (Downlink c + Downlink kv.2)))
  else summed_traffic k l.
Proof.
  unfold summed_traffic. rewrite entries_app, entries_cons. destruct (String.eqb (trim_space kv.1) k); [|by rewrite app_nil_r].
  change (entries k []) with (@nil ProxyTrafficCounter). pose proof (sum64_snoc (map Uplink (entries k l)) (Uplink kv.2)) as H.
  pose proof (sum64_snoc (map Downlink (entries k l)) (Downlink kv.2)) as H'. destruct (entries k l) as [|c cs]; simpl in *; [by rewrite H, H'|].
  rewrite !map_app. simpl. by rewrite H, H'.
Qed.
Lemma traffic_sum label l m : fold_err (traffic_entry label) l ∅ = inr m -> traffic_to l m.
Proof.
  apply (fold_err_inv (traffic_entry label) traffic_to); [intros k; apply lookup_empty|]. intros l' s [key v] s' Hs. unfold traffic_entry. simpl.
  destruct (String.eqb (trim_space key) ""); [done|]. destruct (_ || _); [done|]. intros [= <-] k. rewrite summed_traffic_snoc. simpl.
  destruct (String.eqb_spec (trim_space key) k) as [<-|Hk]; [by rewrite lookup_insert, decide_True, <-Hs|]. rewrite lookup_insert_ne by done. apply Hs.
Qed.
Lemma delete_all l : forall (m : gmap string ProxyTrafficCounter) k, foldl (fun m k => delete k m) m l !! k = if bool_decide (k ∈ l) then None else m !! k.
Proof.
  induction l as [|x l IH]; intros m k; simpl; [done|]. rewrite IH. destruct (decide (k = x)) as [->|Hn].
  - rewrite (bool_decide_eq_true_2 (x ∈ x :: l)) by (by left). case_bool_decide; [done|]. by rewrite lookup_delete, decide_True.
  - rewrite lookup_delete_ne by done. rewrite (bool_decide_ext (k ∈ x :: l) (k ∈ l)); [done|]. rewrite elem_of_cons. naive_solver.
Qed.
(** The kept part of the whole: at most [n] names, those that sort first. *)
Record kept_part (n : nat) (all m : gmap string ProxyTrafficCounter) : Prop := {
  kp_sub k c : m !! k = Some c -> all !! k = Some c;
  kp_size : size m = Nat.min n (size all);
  kp_first k k' : is_Some (m !! k) -> is_Some (all !! k') -> m !! k' = None -> String.leb k k' = true }.
Lemma kept_all n all : (size all <= n)%nat -> kept_part n all all.
Proof. intros Hn. split; [done|lia|]. intros k k' _ [c Hc] H. congruence. Qed.

Lemma keys_nodup (m : gmap string ProxyTrafficCounter) : NoDup (sorted_keys m).
Proof. unfold sorted_keys, sort_strings. rewrite insertion_sort_perm. apply NoDup_fst_map_to_list. Qed.
Lemma keys_elem (m : gmap string ProxyTrafficCounter) k : k ∈ sorted_keys m <-> is_Some (m !! k).
Proof.
  unfold sorted_keys, sort_strings. rewrite insertion_sort_perm, list_elem_of_fmap. split.
  - intros ([k' c] & -> & H%elem_of_map_to_list). by exists c.
  - intros [c H]. exists (k, c). split; [done|]. by apply elem_of_map_to_list.
Qed.
Lemma keys_length (m : gmap string ProxyTrafficCounter) : length (sorted_keys m) = size m.
Proof. unfold sorted_keys, sort_strings. by rewrite insertion_sort_perm, length_map, length_map_to_list. Qed.
Lemma leb_trans a : forall b c, String.leb a b = true -> String.leb b c = true -> String.leb a c = true.
Proof.
  unfold String.leb. induction a as [|x a IH]; intros [|y b] [|z c]; simpl; try done. unfold Ascii.compare.
  destruct (N.compare_spec (N_of_ascii x) (N_of_ascii y)) as [E1|E1|E1]; [rewrite E1| |done].
  - destruct (N.compare_spec (N_of_ascii y) (N_of_ascii z)); [apply IH|done|done].
  - destruct (N.compare_spec (N_of_ascii y) (N_of_ascii z)) as [E2|E2|E2]; [| |done]; intros _ _; destruct (N.compare_spec (N_of_ascii x) (N_of_ascii z)); try done; lia.
Qed.
Lemma drop_rest_kept n (all m : gmap string ProxyTrafficCounter) : m = foldl (fun m k => delete k m) all (drop n (sorted_keys all)) -> kept_part n all m.
Proof.
  intros ->. set (m := foldl _ _ _). assert (Hm : forall k, m !! k = if bool_decide (k ∈ drop n (sorted_keys all)) then None else all !! k) by apply delete_all.
  pose proof (keys_nodup all) as Hd. rewrite <-(take_drop n (sorted_keys all)) in Hd. apply NoDup_app in Hd as (Ht & Hdis & _).
  assert (Hin : forall k, is_Some (m !! k) <-> k ∈ take n (sorted_keys all)).
  { intros k. rewrite Hm. case_bool_decide as Hk.
    - split; [by intros [? ?]|]. intros Hk'. by destruct (Hdis k).
    - rewrite <-keys_elem, <-(take_drop n (sorted_keys all)) at 1. rewrite elem_of_app. tauto. }
  split.
  - intros k c. rewrite Hm. by case_bool_decide.
  - rewrite <-keys_length, <-(keys_length all), <-length_take. apply Permutation_length, NoDup_Permutation; [apply keys_nodup|done|].
    intros k. by rewrite keys_elem.
  - intros k k' Hk Hk' Hn. apply Hin in Hk. rewrite Hm in Hn. case_bool_decide as Hdrop; [|by destruct Hk' as [c Hc]; congruence].
    assert (Hs : StronglySorted (fun a b => String.leb a b = true) (take n (sorted_keys all) ++ drop n (sorted_keys all))).
    { rewrite take_drop. apply Sorted_StronglySorted; [intros a b c; apply leb_trans|]. apply insertion_sort_sorted, string_leb_total. }
    by apply (sorting.StronglySorted_app_1_elem_of _ _ _ k k' Hs).
Qed.
Definition traffic_exact (l : list (string * ProxyTrafficCounter)) (m : gmap string ProxyTrafficCounter) (ignored : Z) : Prop :=
  exists all, traffic_to l all /\ kept_part maxTrafficEntries all m /\ ignored = Z.max 0 (Z.of_nat (size all) - Z.of_nat maxTrafficEntries).
Lemma normalizeTraffic_exact label l m n : normalizeTraffic label l = inr (m, n) -> traffic_exact l m n.
Proof.
  unfold normalizeTraffic. destruct (fold_err _ l ∅) as [|all] eqn:E; [done|]. apply traffic_sum in E.
  destruct (Nat.leb_spec (size all) maxTrafficEntries) as [Hs|Hs]; intros [= <- <-]; exists all; (split; [done|]); split; try lia.
  - by apply kept_all.
  - by apply drop_rest_kept.
Qed.

End ProxyUsageProps.

(** ** Counter names and the bounded buffer *)
Module ProxyUsageNames.
Import ProxyUsage.

Definition kind_text (k : stat_kind) : string := match k with KUser => "user" | KInbound => "inbound" | KOutbound => "outbound" end.
Definition direction_text (d : stat_direction) : string := match d with DUplink => "uplink" | DDownlink => "downlink" end.
Definition stat_text (k : stat_kind) (name : string) (d : stat_direction) : string :=
  kind_text k +:+ ">>>" +:+ name +:+ ">>>" +:+ "traffic" +:+ ">>>" +:+ direction_text d.
(** A name the core prints is read back. *)
Lemma parse_stat_text k name d : no_byte ">" name = true -> trim_space name = name -> name <> ""%string ->
  parseV2RayTrafficStat (stat_text k name d) = Some (k, name, d).
Proof.
  intros Hn Ht He. assert (Hs : split (stat_text k name d) ">>>" = [kind_text k; name; "traffic"%string; direction_text d]).
  { unfold split. assert (exists n, String.length (stat_text k name d) = S (S (S n))) as [n ->] by (destruct k; eexists; reflexivity).
    unfold stat_text. cbn [split_fuel]. rewrite cut_first by (by destruct k). rewrite cut_first by done. rewrite cut_first by done.
    assert (forall m, split_fuel m (direction_text d) ">>>" = [direction_text d]) as -> by (intros [|m]; by destruct d). done. }
  unfold parseV2RayTrafficStat. rewrite Hs. destruct (String.eqb_spec (trim_space name) "") as [E|_]; [congruence|]. by destruct k, d; rewrite Ht.
Qed.

(** Output written in pieces, none of them empty: the first bytes up to the
    limit are kept, and it is known whether there were more. *)
Lemma capped_writes ps : forall c, Forall (fun p => p <> ""%string) ps -> overflow c = false -> Z.of_nat (String.length (c_buf c)) <= limit c ->
  let c' := foldl (fun c p => Write p c) c ps in let all := (c_buf c +:+ foldr String.append "" ps)%string in
  c_buf c' = str_take (Z.to_nat (limit c)) all /\ overflow c' = (limit c <? Z.of_nat (String.length all)).
Proof.
  assert (Hover : forall ps c, overflow c = true -> foldl (fun c p => Write p c) c ps = c).
  { clear. induction ps as [|p ps IH]; intros c Hc; [done|]. simpl. unfold Write at 2. rewrite Hc. by apply IH. }
  induction ps as [|p ps IH]; intros [b l o] Hp Ho Hl; simpl in *; subst o.
  - rewrite app_empty_r, str_take_all by lia. split; [done|]. symmetry. apply Z.ltb_ge. lia.
  - apply Forall_cons in Hp as [Hne Hp]. assert (0 < String.length p)%nat by (destruct p; simpl; [done|lia]).
    unfold Write at 2 4. simpl. destruct (Z.leb_spec (l - Z.of_nat (String.length b)) 0).
    + rewrite Hover by done. simpl. rewrite str_take_prefix by lia. rewrite str_take_all by lia. split; [done|]. symmetry. apply Z.ltb_lt. rewrite !string_app_length. lia.
    + destruct (Z.ltb_spec (l - Z.of_nat (String.length b)) (Z.of_nat (String.length p))).
      * rewrite Hover by done. simpl. split; [|symmetry; apply Z.ltb_lt; rewrite !string_app_length; lia]. rewrite <-string_app_assoc, str_take_prefix by (rewrite string_app_length; lia).
        replace (Z.to_nat l) with (String.length b + Z.to_nat (l - Z.of_nat (String.length b)))%nat by lia. by rewrite str_take_add.
      * destruct (IH (mkCapped (b +:+ p) l false) Hp) as [-> ->]; [done|simpl; rewrite string_app_length; lia|]. simpl. by rewrite string_app_assoc.
Qed.
End ProxyUsageNames.

(** * Examples *)
Module ProxyUsageSample.
Import ProxyUsage ProxyUsageProps.

Definition raw : raw_snapshot := mkRaw 5 [] [("l1", [("ann", 3); ("bob", 4)]); (" l1 ", [("ann", 10)]); ("l2", [("bob", 1)])]%string
  [("in", mkCounter 1 2); (" in", mkCounter 10 20)]%string [] [].
Definition sent : ProxyUsageSnapshot := match NormalizeSnapshot raw " node-1 " 9 with inr r => r | inl _ => mkSnapshot "" 0 ∅ ∅ ∅ ∅ ∅ 0 end.
Lemma sent_ok : NormalizeSnapshot raw " node-1 " 9 = inr sent.
Proof. vm_compute. reflexivity. Qed.

(** A failed collection is reported as one, and its report's failure with it. *)
Definition failing : list usage_post * option string :=
  reportProxyUsage (fun _ => inl PathRequired) (fun _ => bytes_str [97; 7; 98]) (fun _ => Some "down"%string) "n" 9 (mkUsageConfig "f" "" "" "" 0 "" "" "" "" "" true).
Example failure_reported : map post_error failing.1 = ["ab"%string] /\ failing.2 = Some (bytes_str [97; 7; 98] +:+ "; collector health report failed: down")%string.
Proof. vm_compute. done. Qed.
(** Two counters of one name, each of them fine, whose sum is sent negative. *)
Definition wrapping : raw_snapshot := mkRaw 5 [("ann", 2 ^ 63 - 1); (" ann", 1)]%string [] [] [] [].
Lemma merged_total_negative : (match NormalizeSnapshot wrapping "n" 9 with inr r => UserBytes r !! "ann"%string | inl _ => None end) = Some (- 2 ^ 63).
Proof. vm_compute. reflexivity. Qed.
Example negative_refused : NormalizeSnapshot (mkRaw 5 [("ann", -1)]%string [] [] [] []) "n" 9 = inl (NegativeUser "ann").
Proof. vm_compute. reflexivity. Qed.
Example stat_names : map parseV2RayTrafficStat ["user>>> ann >>>traffic>>>uplink"; "user>>>a>>>b>>>traffic>>>uplink"; "dns>>>a>>>traffic>>>uplink"; "inbound>>>in>>>requests>>>uplink"]%string =
  [Some (KUser, "ann"%string, DUplink); None; None; None].
Proof. vm_compute. reflexivity. Qed.
Example folded_sample : (match from_stats [mkStat "user>>>ann>>>traffic>>>uplink" 3; mkStat "user>>>ann>>>traffic>>>downlink" 4; mkStat "inbound>>>in>>>traffic>>>uplink" 7]%string "n" 1 true with
  | inr r => (UserBytes r !! "ann"%string, UserTraffic r !! "ann"%string, InboundTraffic r !! "in"%string) | inl _ => (None, None, None) end) =
  (Some 7, Some (mkCounter 3 4), Some (mkCounter 7 0)).
Proof. vm_compute. reflexivity. Qed.
(** A full buffer takes an empty write for an overflow. *)
Example empty_write : overflow (Write "" (Write "ab" (mkCapped "" 2 false))) = true /\ overflow (Write "ab" (mkCapped "" 2 false)) = false.
Proof. vm_compute. done. Qed.
Definition no_config : usage_config := mkUsageConfig "" "" "" "" 0 "" "" "" "" "" true.
Example sources : chosen_source no_config = inr None /\
  chosen_source (snd (refresh (inr (mkResult "127.0.0.1:8080" "f")) (mkDiscovery (mkResult "" "") None) no_config)) = inr (Some (SSingBox "127.0.0.1:8080")) /\
  chosen_source (no_config <| cfg_File := "a"%string |> <| cfg_URL := "b"%string |>) = inl OnlyOneSource.
Proof. vm_compute. done. Qed.
End ProxyUsageSample.
