(* ===== verification/GuardReality.v ===== *)
(** * Facts about the host (internal/guardreality, internal/singboxlive, internal/sshdfacts)

    What ss, ip, nft, systemctl and sshd print, read into facts, and the
    collections that run them.  Commands, decoders and the parser of addresses
    are arguments. *)
From S2P Require Import Prelude GoStrings GoUtf8 GoSha256 TrustedExec.
From Stdlib Require Import Ascii.
From stdpp Require Import gmap strings.
From stdpp Require sorting.

Local Open Scope Z_scope.
Import Sha256.

(** ** Listeners, interfaces and the nftables ruleset (guardreality) *)
Module HostGuard.

Definition defaultTimeout : duration := 5 * second.
Definition maxOutputBytes : Z := Z.shiftl 1 20.
Definition managedFamily : string := "inet".
Definition managedTable : string := "lattice_guard".
Definition trimBounded (value : string) (maxRunes : nat) : string := bounded_runes maxRunes value.
Fixpoint firstNonEmpty (values : list string) : string :=
  match values with
  | [] => ""
  | v :: values => if String.eqb (trim_space v) "" then firstNonEmpty values else trim_space v
  end.
Definition unique_step (out : list string) (value : string) : list string :=
  let value := trim_space value in if String.eqb value "" || bool_decide (value ∈ out) then out else out ++ [value].
Definition uniqueStrings (values : list string) : list string := foldl unique_step [] values.

(** A value of a JSON document; an object has its keys once each. *)
Inductive json := JObj (fields : list (string * json)) | JArr (items : list json) | JStr (text : string) | JAtom (text : string).
Definition body := list (string * json).

Inductive guard_error :=
  | NodeIDRequired | StepFailed (name : string) (args : list string) (text : string) | ParseFailed (what text : string)
  | TableNotFound | TableEmpty | OutputExceeded (name : string) | StderrExceeded (name : string) | CommandFailed (text : string).

(** *** ss *)
Record GuardListener := mkListener { Protocol : string; Port : Z; Address : string; Process : string }.
#[global] Instance listener_eq_dec : EqDecision GuardListener. Proof. solve_decision. Defined.
Definition quote : ascii := byte_of 34.
(** The name in [(("name"]: what follows the opening, up to the next quote. *)
Fixpoint ssProcess (s : string) : option string :=
  match s with
  | "" => None
  | String _ t =>
      match cut_prefix s ("((" +:+ String quote "") ≫= (fun r => cut r (String quote "")) with
      | Some (name, _) => if String.eqb name "" then ssProcess t else Some name
      | None => ssProcess t
      end
  end%string.
Definition parseHostPort (value : string) : option (string * Z) :=
  let value := trim_space value in
  if String.eqb value "" then None
  else
    match (if has_prefix value "[" then
             match last_index_of value "]:" with
             | Some e => Some (str_drop 1 (str_take e value), str_drop (e + 2) value)
             | None => None
             end
           else
             match last_index_of value ":" with
             | Some i => Some (str_take i value, str_drop (i + 1) value)
             | None => None
             end) with
    | None => None
    | Some (host, portText) =>
        let host := match last_index_of host "%" with Some z => str_take z host | None => host end in
        let host := if String.eqb host "*" then "::"%string else host in
        match atoi (trim_space portText) with None => None | Some port => Some (trim_space host, port) end
    end.
Definition listener_of (line : string) : option GuardListener :=
  let line := trim_space line in
  if String.eqb line "" then None
  else
    match fields line with
    | f0 :: _ :: _ :: _ :: f4 :: _ =>
        let proto := lower f0 in
        if negb (String.eqb proto "tcp") && negb (String.eqb proto "udp") then None
        else
          match parseHostPort f4 with
          | None => None
          | Some (addr, port) =>
              if (port <=? 0) || (65535 <? port) then None
              else Some (mkListener proto port (trimBounded addr 256) (match ssProcess line with Some p => trimBounded p 128 | None => ""%string end))
          end
    | _ => None
    end.
Definition key_of (l : GuardListener) : string := Protocol l +:+ "/" +:+ itoa (Port l) +:+ "/" +:+ Address l +:+ "/" +:+ Process l.
Definition listener_step (out : list GuardListener) (line : string) : list GuardListener :=
  match listener_of line with
  | None => out
  | Some l => if bool_decide (key_of l ∈ map key_of out) then out else out ++ [l]
  end.
Definition listener_leb (a b : GuardListener) : bool :=
  if negb (String.eqb (Protocol a) (Protocol b)) then String.leb (Protocol a) (Protocol b)
  else if negb (Port a =? Port b) then Port a <=? Port b
  else if negb (String.eqb (Address a) (Address b)) then String.leb (Address a) (Address b)
  else String.leb (Process a) (Process b).
Definition nl : ascii := byte_of 10.
Definition ParseSSListeners (raw : string) : list GuardListener :=
  insertion_sort listener_leb (foldl listener_step [] (split_byte nl "" raw)).

(** *** ip *)
Record ipAddrInfo := mkAddrInfo { Local_ : string; PrefixLen : option Z }.
Record ipAddrEntry := mkEntry { IfName : string; Flags : list string; OperState : string; AddrInfo : list ipAddrInfo }.
Record GuardInterface := mkInterface { if_Name : string; Addresses : list string; Up : bool }.
Definition ifaceIsUp (e : ipAddrEntry) : bool := existsb (fun f => equal_fold f "UP") (Flags e) || equal_fold (OperState e) "UP".
(** An address that parses: whether it is an IPv4 address, and its text. *)
Definition address_of (ParseIP : string -> option (bool * string)) (a : ipAddrInfo) : option string :=
  (fun '(v4, canonical) =>
    match PrefixLen a with
    | Some n => if (0 <=? n) && (n <=? (if v4 : bool then 32 else 128)) then (canonical +:+ "/" +:+ itoa n)%string else canonical
    | None => canonical
    end) <$> ParseIP (trim_space (Local_ a)).
Definition interface_of (ParseIP : string -> option (bool * string)) (e : ipAddrEntry) : option GuardInterface :=
  let name := trim_space (IfName e) in
  if String.eqb name "" then None
  else Some (mkInterface (trimBounded name 128) (uniqueStrings (sort_strings (omap (address_of ParseIP) (AddrInfo e)))) (ifaceIsUp e)).
Definition ParseIPAddr (ParseIP : string -> option (bool * string)) (entries : list ipAddrEntry) : list GuardInterface :=
  insertion_sort (fun a b => String.leb (if_Name a) (if_Name b)) (omap (interface_of ParseIP) entries).

(** *** nft *)
Definition stringField (b : body) (key : string) : string :=
  match List.find (fun kv => String.eqb kv.1 key) b with Some (_, JStr s) => trim_space s | _ => ""%string end.
Definition nftObjectBelongsToManaged (kind : string) (b : body) : bool :=
  String.eqb (stringField b "family") managedFamily && String.eqb (stringField b (if String.eqb kind "table" then "name" else "table")) managedTable.
Fixpoint stripNFTVolatile (v : json) : json :=
  match v with
  | JObj fs => JObj (List.filter (fun kv => negb (String.eqb kv.1 "handle")) (map (fun '(k, x) => (k, stripNFTVolatile x)) fs))
  | JArr l => JArr (map stripNFTVolatile l)
  | v => v
  end.
(** An entry of the ruleset: its kinds and their values, in the order of the
    range. *)
Definition nft_entry := list (string * json).
Record scanned := mkScanned { foreign : list string; managedObjects : list json }.
Definition scan_object (s : scanned) (kv : string * json) : scanned :=
  match kv.2 with
  | JObj b =>
      let keep := if nftObjectBelongsToManaged kv.1 b then mkScanned (foreign s) (managedObjects s ++ [JObj [(kv.1, stripNFTVolatile (JObj b))]]) else s in
      if String.eqb kv.1 "table" then
        let family := stringField b "family" in
        let name := stringField b "name" in
        if String.eqb family "" || String.eqb name "" then s
        else if negb (String.eqb family managedFamily) || negb (String.eqb name managedTable) then
          let key := (family +:+ " " +:+ name)%string in
          mkScanned (if bool_decide (key ∈ foreign s) then foreign s else foreign s ++ [key]) (managedObjects s)
        else keep
      else keep
  | _ => s
  end.
Definition scan_ruleset (entries : list nft_entry) : scanned := foldl (fun s e => foldl scan_object s e) (mkScanned [] []) entries.
Definition managedTableHasContent (entries : list nft_entry) : bool :=
  existsb (fun e => existsb (fun kv => negb (String.eqb kv.1 "table") && match kv.2 with JObj b => nftObjectBelongsToManaged kv.1 b | _ => false end) e) entries.
Definition ParseNFTVersion (raw : string) : string :=
  trimBounded (default ""%string (List.find (fun c => negb (String.eqb c "")) (map trim_space (split_byte nl "" raw)))) 128.

Section Collect.
Context (ParseIP : string -> option (bool * string)) (Marshal : list json -> string).
Context (decode_ip : string -> string + list ipAddrEntry) (decode_nft : string -> string + list nft_entry).
Definition ruleset_result (entries : list nft_entry) : string * list string :=
  let s := scan_ruleset entries in
  (match managedObjects s with [] => ""%string | objs => hex (Sum256 (Marshal objs)) end, sort_strings (foreign s)).
Definition ParseNFTRuleset (raw : string) : string + string * list string :=
  match decode_nft (trim_space raw) with inl e => inl e | inr entries => inr (ruleset_result entries) end.

Context (run : duration -> string -> list string -> string + string).
Definition runStep (timeout : duration) (name : string) (args : list string) : guard_error + string :=
  match run timeout name args with inl e => inl (StepFailed name args e) | inr out => inr out end.
Definition timeout_of (timeout : duration) : duration := if timeout <=? 0 then defaultTimeout else timeout.
Definition ruleset_args : list string := ["-j"; "list"; "ruleset"]%string.
Definition CollectManagedTableSHA (timeout : duration) (nftBinary : string) : guard_error + string :=
  match runStep (timeout_of timeout) (firstNonEmpty [nftBinary; "nft"%string]) ruleset_args with
  | inl e => inl e
  | inr out =>
      match ParseNFTRuleset out with
      | inl e => inl (ParseFailed "nft ruleset" e)
      | inr (sha, _) =>
          if String.eqb sha "" then inl TableNotFound
          else
            match decode_nft (trim_space out) with
            | inl e => inl (ParseFailed "managed nft table" e)
            | inr entries => if managedTableHasContent entries then inr sha else inl TableEmpty
            end
      end
  end.
Record SSHDFacts := mkSSHD { PasswordAuthentication : bool; PubkeyAuthentication : bool; PermitRootLogin : string; MaxAuthTries : Z; Ports : list Z; ListenAddresses : list string; ObservedAt : time }.
Record GuardNodeReality := mkReality {
  NodeID : string; Listeners : list GuardListener; Interfaces : list GuardInterface; ManagedSHA : string; ForeignTables : list string;
  NFTVersion : string; CollectedAt : time; SSHD : option SSHDFacts; SSHDNote : string }.
(** The ruleset and the version, when nft answers. *)
Definition nft_facts (timeout : duration) (nftBinary : string) : guard_error + string * list string * string :=
  match runStep timeout nftBinary ruleset_args with
  | inl _ => inr ("", [], "")%string
  | inr out =>
      match ParseNFTRuleset out with
      | inl e => inl (ParseFailed "nft ruleset" e)
      | inr (sha, tables) =>
          inr (sha, tables, match runStep timeout nftBinary ["--version"%string] with inr v => ParseNFTVersion v | inl _ => ""%string end)
      end
  end.
Definition Collect (timeout : duration) (ssBinary ipBinary nftBinary : string) (sshd : option (option SSHDFacts * string)) (now : time) (nodeID : string) :
    guard_error + GuardNodeReality :=
  let nodeID := trim_space nodeID in
  if String.eqb nodeID "" then inl NodeIDRequired
  else
    let timeout := timeout_of timeout in
    match runStep timeout (firstNonEmpty [ssBinary; "ss"%string]) ["-tulpnH"%string] with
    | inl e => inl e
    | inr ssOut =>
        match runStep timeout (firstNonEmpty [ipBinary; "ip"%string]) ["-j"; "addr"]%string with
        | inl e => inl e
        | inr ipOut =>
            match decode_ip (trim_space ipOut) with
            | inl e => inl (ParseFailed "ip addr" e)
            | inr entries =>
                match nft_facts timeout (firstNonEmpty [nftBinary; "nft"%string]) with
                | inl e => inl e
                | inr (sha, tables, version) =>
                    let (facts, note) := default (None, "sshd facts collector not configured"%string) sshd in
                    inr (mkReality nodeID (ParseSSListeners ssOut) (ParseIPAddr ParseIP entries) sha tables version now facts note)
                end
            end
        end
    end.
End Collect.

(** *** The production runner's buffers *)
Record limitedBuffer := mkLimited { l_buf : string; truncated : bool }.
Definition Write (p : string) (b : limitedBuffer) : limitedBuffer :=
  let len s := Z.of_nat (String.length s) in
  if len (l_buf b) <? maxOutputBytes then
    let remaining := maxOutputBytes - len (l_buf b) in
    if remaining <? len p then mkLimited (l_buf b +:+ str_take (Z.to_nat remaining) p) true else mkLimited (l_buf b +:+ p) (truncated b)
  else if 0 <? len p then mkLimited (l_buf b) true else b.
(** What the command wrote, and how it ended. *)
Definition runBoundedCommand (name : string) (stdout stderr : list string) (status : option string) : guard_error + string :=
  let collect l := foldl (fun b p => Write p b) (mkLimited "" false) l in
  let out := collect stdout in
  let err := collect stderr in
  match status with
  | Some e => let msg := trim_space (l_buf err) in inl (CommandFailed (if String.eqb msg "" then e else e +:+ ": " +:+ trimBounded msg 512)%string)
  | None => if truncated out then inl (OutputExceeded name) else if truncated err then inl (StderrExceeded name) else inr (l_buf out)
  end.
End HostGuard.

(** ** The service's liveness (singboxlive) *)
Module SingboxLive.

Definition maxProbeOutput : Z := Z.shiftl 1 20.
Record SingBoxRuntime := mkRuntime {
  ProbedAt : time; Running : bool; rt_PID : Z; rt_ExeSHA256 : string; rt_StartedAt : time; ActiveState : string; SubState : string; RestartCount : Z; ProbeError : string }.
#[global] Instance eta_runtime : Etable SingBoxRuntime := fun x => mkRuntime (ProbedAt x) (Running x) (rt_PID x) (rt_ExeSHA256 x) (rt_StartedAt x)
  (ActiveState x) (SubState x) (RestartCount x) (ProbeError x).
(** The ports held, or unknown. *)
Definition BoundPorts := option (gmap Z string).
Definition bounded (out : string) : string := if maxProbeOutput <? Z.of_nat (String.length out) then str_take (Z.to_nat maxProbeOutput) out else out.
Definition show_line (rt : SingBoxRuntime) (line : string) : SingBoxRuntime :=
  match cut (trim_space line) "=" with
  | None => rt
  | Some (key, value) =>
      if String.eqb key "ActiveState" then rt <| ActiveState := value |>
      else if String.eqb key "SubState" then rt <| SubState := value |>
      else if String.eqb key "NRestarts" then
        match atoi value with Some n => if 0 <=? n then rt <| RestartCount := n |> else rt | None => rt end
      else rt
  end.
Definition applySystemdShow (rt : SingBoxRuntime) (out : string) : SingBoxRuntime := foldl show_line rt (split_byte HostGuard.nl "" out).
Definition join (sep : string) (l : list string) : string := match l with [] => ""%string | x :: l => foldl (fun acc y => acc +:+ sep +:+ y)%string x l end.
Definition refusal (r : TrustedExec.RefusedProcess) : string :=
  ("refused sing-box candidate " +:+ TrustedExec.Exe r +:+ " (pid " +:+ itoa (TrustedExec.r_PID r) +:+ "): " +:+ TrustedExec.Reason r)%string.
Definition or_default (s d : string) : string := if String.eqb s "" then d else s.
Definition port_step (unit : string) (m : gmap Z string) (l : HostGuard.GuardListener) : gmap Z string :=
  if String.eqb (HostGuard.Process l) unit then <[HostGuard.Port l := HostGuard.Process l]> m else m.
(** [run] is None when no runner is configured. *)
Definition Collect (SystemctlBinary SSBinary UnitName : string) (processes : list TrustedExec.TrustedProcess) (refused : list TrustedExec.RefusedProcess)
    (run : option (string -> list string -> string + string)) (now : time) : SingBoxRuntime * BoundPorts :=
  let unit := or_default UnitName "sing-box" in
  let rt := mkRuntime now false 0 "" 0 "" "" 0 "" in
  let '(rt, problems) :=
    match processes with
    | p :: _ => (rt <| Running := true |> <| rt_PID := TrustedExec.PID p |> <| rt_ExeSHA256 := TrustedExec.ExeSHA256 p |> <| rt_StartedAt := TrustedExec.StartedAt p |>, [])
    | [] => (rt, map refusal refused)
    end in
  match run with
  | None => (rt <| ProbeError := join "; " (problems ++ ["no runner configured"%string]) |>, None)
  | Some run =>
      let '(rt, problems) :=
        match run (or_default SystemctlBinary "systemctl") ["show"; unit; "--property=ActiveState,SubState,NRestarts"]%string with
        | inl e => (rt, problems ++ ["systemctl: " +:+ e]%string)
        | inr out => (applySystemdShow rt (bounded out), problems)
        end in
      let '(ports, problems) :=
        match run (or_default SSBinary "ss") ["-tulpnH"%string] with
        | inl e => (None, problems ++ ["ss: " +:+ e]%string)
        | inr out => (Some (foldl (port_step unit) ∅ (HostGuard.ParseSSListeners (bounded out))), problems)
        end in
      (rt <| ProbeError := join "; " problems |>, ports)
  end.
(** What is reported of one inventory line's port: whether it is held, and by
    what, or nothing (reportSingBoxInventory in main.go). *)
Definition port_evidence (bound : BoundPorts) (port : string) : option bool * string :=
  match bound with
  | None => (None, ""%string)
  | Some ports =>
      match atoi (trim_space port) with
      | Some p => if p <=? 0 then (None, ""%string) else match ports !! p with Some proc => (Some true, proc) | None => (Some false, ""%string) end
      | None => (None, ""%string)
      end
  end.
Definition reportSingBoxInventory {Inventory} (discover_enabled : bool) (discover : Inventory * option string) (ports_of : Inventory -> list string)
    (collected : SingBoxRuntime * BoundPorts) (post : Inventory -> SingBoxRuntime -> list (option bool * string) -> option string) :
    option (Inventory * SingBoxRuntime * list (option bool * string)) * option string :=
  if negb discover_enabled then (None, None)
  else
    let (inv, derr) := discover in
    let (rt, bound) := collected in
    let evidence := map (port_evidence bound) (ports_of inv) in
    (Some (inv, rt, evidence),
     match derr, post inv rt evidence with
     | Some d, Some p => Some (d +:+ "; report failed: " +:+ p)%string
     | Some d, None => Some d
     | None, p => p
     end).
End SingboxLive.

(** ** The effective sshd configuration (sshdfacts) *)
Module SshdFacts.
Import HostGuard.

Definition defaultTimeout : duration := 3 * second.
Definition executableName : string := "sshd".
Definition maxPorts : nat := 64.
Definition maxListenAddresses : nat := 64.
Definition maxValueRunes : nat := 256.
Definition maxNoteRunes : nat := 512.
Definition bounded (value : string) (maxRunes : nat) : string := bounded_runes maxRunes value.
Inductive parse_error :=
  | BadPort (value : string) | TooManyPorts | TooManyAddresses | NeitherYesNorNo (key value : string) | NoRootLoginValue | BadTries (value : string)
  | NoPassword | NoPubkey | NoRootLogin | NoPort.
Definition parseYesNo (key value : string) : parse_error + bool :=
  let v := lower value in
  if String.eqb v "yes" then inr true else if String.eqb v "no" then inr false else inl (NeitherYesNorNo key value).
Record seen := mkSeen { s_password : option bool; s_pubkey : option bool; s_root : option string; s_tries : Z; s_ports : gset Z; s_listen : list string }.
#[global] Instance eta_seen : Etable seen := fun x => mkSeen (s_password x) (s_pubkey x) (s_root x) (s_tries x) (s_ports x) (s_listen x).
(** The first blank or tab ends the key. *)
Fixpoint key_value (s : string) : string * string :=
  match s with
  | "" => ("", "")
  | String c t => if Ascii.eqb c (byte_of 32) || Ascii.eqb c (byte_of 9) then ("", trim_space t) else let (k, v) := key_value t in (String c k, v)
  end%string.
Definition parse_line (st : seen) (line : string) : parse_error + seen :=
  let line := trim_space line in
  if String.eqb line "" then inr st
  else
    let '(key, value) := key_value line in
    let key := lower key in
    if String.eqb key "port" then
      match atoi value with
      | Some port =>
          if (port <? 1) || (65535 <? port) then inl (BadPort value)
          else let ports := {[port]} ∪ s_ports st in if (maxPorts <? size ports)%nat then inl TooManyPorts else inr (st <| s_ports := ports |>)
      | None => inl (BadPort value)
      end
    else if String.eqb key "listenaddress" then
      let value := bounded value maxValueRunes in
      if String.eqb value "" || bool_decide (value ∈ s_listen st) then inr st
      else let listen := s_listen st ++ [value] in if (maxListenAddresses <? length listen)%nat then inl TooManyAddresses else inr (st <| s_listen := listen |>)
    else if String.eqb key "passwordauthentication" then
      match parseYesNo "passwordauthentication" value with inl e => inl e | inr b => inr (st <| s_password := Some b |>) end
    else if String.eqb key "pubkeyauthentication" then
      match parseYesNo "pubkeyauthentication" value with inl e => inl e | inr b => inr (st <| s_pubkey := Some b |>) end
    else if String.eqb key "permitrootlogin" then
      let value := bounded value maxValueRunes in if String.eqb value "" then inl NoRootLoginValue else inr (st <| s_root := Some value |>)
    else if String.eqb key "maxauthtries" then
      match atoi value with Some n => if n <? 0 then inl (BadTries value) else inr (st <| s_tries := n |>) | None => inl (BadTries value) end
    else inr st.
Fixpoint parse_lines (st : seen) (lines : list string) : parse_error + seen :=
  match lines with
  | [] => inr st
  | line :: lines => match parse_line st line with inl e => inl e | inr st => parse_lines st lines end
  end.
Definition Parse (raw : string) : parse_error + SSHDFacts :=
  match parse_lines (mkSeen None None None 0 ∅ []) (split_byte nl "" raw) with
  | inl e => inl e
  | inr st =>
      match s_password st, s_pubkey st, s_root st with
      | None, _, _ => inl NoPassword
      | _, None, _ => inl NoPubkey
      | _, _, None => inl NoRootLogin
      | Some password, Some pubkey, Some root =>
          if bool_decide (s_ports st = ∅) then inl NoPort
          else inr (mkSSHD password pubkey root (s_tries st) (insertion_sort Z.leb (elements (s_ports st))) (s_listen st) 0)
      end
  end.
(** The facts, or why there are none; [text] is an error's text. *)
Definition Collect (euid : Z) (resolve : string -> string * string) (run : duration -> string -> list string -> string + string)
    (text : parse_error -> string) (timeout : duration) (now : time) : option SSHDFacts * string :=
  if negb (euid =? 0) then (None, "sshd -T needs root to read the effective configuration; agent runs as uid " +:+ itoa euid)%string
  else
    let (path, reason) := resolve executableName in
    if String.eqb path "" then (None, bounded reason maxNoteRunes)
    else
      match run (if timeout <=? 0 then defaultTimeout else timeout) path ["-T"%string] with
      | inl e => (None, bounded (path +:+ " -T: " +:+ e) maxNoteRunes)
      | inr out =>
          match Parse out with
          | inl e => (None, bounded (path +:+ " -T: " +:+ text e) maxNoteRunes)
          | inr f => (Some (mkSSHD (PasswordAuthentication f) (PubkeyAuthentication f) (PermitRootLogin f) (MaxAuthTries f) (Ports f) (ListenAddresses f) now), ""%string)
          end
      end.
End SshdFacts.

(** * What the facts are *)
Module GuardRealityProps.
Import HostGuard.

(** ** Listeners *)
Lemma listener_leb_total a b : listener_leb a b = true \/ listener_leb b a = true.
Proof.
  unfold listener_leb. rewrite (String.eqb_sym (Protocol b)), (Z.eqb_sym (Port b)), (String.eqb_sym (Address b)).
  destruct (String.eqb (Protocol a) (Protocol b)); simpl; [|apply string_leb_total]. destruct (Z.eqb_spec (Port a) (Port b)); simpl; [|rewrite !Z.leb_le; lia].
  destruct (String.eqb (Address a) (Address b)); simpl; apply string_leb_total.
Qed.
(** What the loop has kept: listeners of lines read, one of each key. *)
Definition kept (lines : list string) (out : list GuardListener) : Prop :=
  NoDup (map key_of out) /\ (forall l, l ∈ out -> exists line, line ∈ lines /\ listener_of line = Some l) /\
  (forall line l, line ∈ lines -> listener_of line = Some l -> key_of l ∈ map key_of out).
Lemma kept_step lines out line : kept lines out -> kept (lines ++ [line]) (listener_step out line).
Proof.
  intros (Hd & Hs & Hc). unfold listener_step. assert (Hin : line ∈ lines ++ [line]) by (apply elem_of_app; right; by left).
  assert (Hs' : forall l, l ∈ out -> exists line', line' ∈ lines ++ [line] /\ listener_of line' = Some l).
  { intros l H. destruct (Hs l H) as (x & Hx & ?). exists x. split; [by apply elem_of_app; left|done]. }
  destruct (listener_of line) as [l|] eqn:E; [case_bool_decide as Hk|]; split; try done; try (split; [done|]).
  - intros x y [Hx| ->%list_elem_of_singleton]%elem_of_app Hy; [by eapply Hc|congruence].
  - rewrite map_app. apply NoDup_app. split; [done|]. split; [|apply NoDup_singleton]. intros k Hk' ->%list_elem_of_singleton. done.
  - split.
    + intros x [Hx| ->%list_elem_of_singleton]%elem_of_app; [by apply Hs'|by exists line].
    + intros x y [Hx| ->%list_elem_of_singleton]%elem_of_app Hy; rewrite map_app; apply elem_of_app; [left; by eapply Hc|right]. rewrite E in Hy. injection Hy as <-. by left.
  - intros x y [Hx| ->%list_elem_of_singleton]%elem_of_app Hy; [by eapply Hc|congruence].
Qed.
Lemma listeners_kept lines : kept lines (foldl listener_step [] lines).
Proof.
  induction lines as [|line lines IH] using rev_ind; [|by rewrite foldl_snoc; apply kept_step].
  split; [constructor|]. split; [intros l H; by apply elem_of_nil in H|intros ? ? H; by apply elem_of_nil in H].
Qed.
(** The listeners are those of the lines, in order, one of each key. *)
Lemma listeners_exact raw : let out := ParseSSListeners raw in kept (split_byte nl "" raw) out /\ Sorted (fun a b => listener_leb a b = true) out.
Proof.
  intros out. split; [|by apply insertion_sort_sorted, listener_leb_total]. destruct (listeners_kept (split_byte nl "" raw)) as (Hd & Hs & Hc).
  assert (Hp : out ≡ₚ foldl listener_step [] (split_byte nl "" raw)) by apply insertion_sort_perm.
  split; [by rewrite Hp|]. split; [intros l; rewrite Hp; apply Hs|]. intros line l. rewrite Hp. apply Hc.
Qed.
Lemma listener_bounds line l : listener_of line = Some l -> (Protocol l = "tcp" \/ Protocol l = "udp")%string /\ 0 < Port l <= 65535.
Proof.
  unfold listener_of. destruct (String.eqb _ _); [done|]. destruct (fields _) as [|f0 [|f1 [|f2 [|f3 [|f4 ?]]]]]; try done.
  destruct (String.eqb_spec (lower f0) "tcp") as [H1|H1]; destruct (String.eqb_spec (lower f0) "udp") as [H2|H2]; simpl; try done;
    (destruct (parseHostPort f4) as [[addr port]|]; [|done]); (destruct (Z.leb_spec port 0); [done|]); (destruct (Z.ltb_spec 65535 port); [done|]);
    intros [= <-]; simpl; (split; [tauto|lia]).
Qed.

(** ** The managed table *)
Definition is_managed (kv : string * json) : bool := match kv.2 with JObj b => nftObjectBelongsToManaged kv.1 b | _ => false end.
(** What the hash is of: the table's objects in order, without their handles. *)
Definition managed_view (entries : list nft_entry) : list json :=
  map (fun kv => JObj [(kv.1, stripNFTVolatile kv.2)]) (List.filter is_managed (List.concat entries)).
(** The tables that are not the managed one. *)
Definition foreign_table (kv : string * json) : option string :=
  match kv.2 with
  | JObj b =>
      if String.eqb kv.1 "table" && negb (String.eqb (stringField b "family") "") && negb (String.eqb (stringField b "name") "") && negb (nftObjectBelongsToManaged kv.1 b)
      then Some (stringField b "family" +:+ " " +:+ stringField b "name")%string else None
  | _ => None
  end.
Definition scanned_ok (kvs : list (string * json)) (s : scanned) : Prop :=
  managedObjects s = map (fun kv => JObj [(kv.1, stripNFTVolatile kv.2)]) (List.filter is_managed kvs) /\
  NoDup (foreign s) /\ forall t, t ∈ foreign s <-> exists kv, kv ∈ kvs /\ foreign_table kv = Some t.
Lemma foreign_snoc kvs kv t : (exists x, x ∈ kvs ++ [kv] /\ foreign_table x = Some t) <-> (exists x, x ∈ kvs /\ foreign_table x = Some t) \/ foreign_table kv = Some t.
Proof.
  split.
  - intros (x & [H| ->%list_elem_of_singleton]%elem_of_app & E); [left; by exists x|by right].
  - intros [(x & H & E)|E]; [exists x|exists kv]; (split; [apply elem_of_app|done]); [by left|right; by left].
Qed.
Lemma managed_table_named b : nftObjectBelongsToManaged "table" b = true -> stringField b "family" = managedFamily /\ stringField b "name" = managedTable.
Proof. unfold nftObjectBelongsToManaged. simpl. intros [H1%String.eqb_eq H2%String.eqb_eq]%andb_true_iff. done. Qed.
Lemma scan_object_cases s kv : let s' := scan_object s kv in
  managedObjects s' = managedObjects s ++ (if is_managed kv then [JObj [(kv.1, stripNFTVolatile kv.2)]] else []) /\
  foreign s' = match foreign_table kv with Some t => if bool_decide (t ∈ foreign s) then foreign s else foreign s ++ [t] | None => foreign s end.
Proof.
  destruct kv as [kind v]. unfold scan_object, is_managed, foreign_table. cbn [fst snd]. destruct v as [b|l|x|x]; try by rewrite app_nil_r.
  destruct (nftObjectBelongsToManaged kind b) eqn:Em; destruct (String.eqb_spec kind "table") as [->|Hk]; cbn [andb negb]; rewrite ?app_nil_r; try done.
  - destruct (managed_table_named b Em) as [-> ->]. by vm_compute (String.eqb _ _); cbn [orb negb andb].
  - unfold nftObjectBelongsToManaged in Em. cbn in Em. destruct (String.eqb (stringField b "family") ""); [done|]. destruct (String.eqb (stringField b "name") ""); [done|].
    cbn [orb negb andb]. rewrite <-negb_andb. simpl. by rewrite Em.
Qed.
Lemma scan_step kvs s kv : scanned_ok kvs s -> scanned_ok (kvs ++ [kv]) (scan_object s kv).
Proof.
  intros (Hm & Hd & Hf). unfold scanned_ok. destruct (scan_object_cases s kv) as [-> ->]. split; [|split].
  - rewrite Hm, List.filter_app, map_app. simpl. by destruct (is_managed kv).
  - destruct (foreign_table kv) as [t|]; [|done]. case_bool_decide as Ht; [done|]. apply NoDup_app. split; [done|]. split; [|apply NoDup_singleton].
    intros x Hx ->%list_elem_of_singleton. done.
  - intros t. rewrite foreign_snoc, <-Hf. destruct (foreign_table kv) as [u|]; [|naive_solver]. case_bool_decide as Hu; [naive_solver|].
    rewrite elem_of_app, list_elem_of_singleton. naive_solver.
Qed.
Lemma foldl_concat {A B} (f : B -> A -> B) (l : list (list A)) b : foldl (fun s e => foldl f s e) b l = foldl f b (List.concat l).
Proof. revert b. induction l as [|x l IH]; intros b; [done|]. simpl. by rewrite foldl_app, IH. Qed.
Lemma scan_all entries : scanned_ok (List.concat entries) (scan_ruleset entries).
Proof.
  unfold scan_ruleset. rewrite foldl_concat. induction (List.concat entries) as [|kv l IH] using rev_ind; [|by rewrite foldl_snoc; apply scan_step].
  split; [done|]. split; [constructor|]. intros t. split; [intros H; by apply elem_of_nil in H|intros (x & H & _); by apply elem_of_nil in H].
Qed.

(** The same value but for the handles in it. *)
Inductive same : json -> json -> Prop :=
  | same_handle k x fs gs : k = "handle"%string -> same (JObj fs) (JObj gs) -> same (JObj ((k, x) :: fs)) (JObj gs)
  | same_handle' k x fs gs : k = "handle"%string -> same (JObj fs) (JObj gs) -> same (JObj fs) (JObj ((k, x) :: gs))
  | same_field k x y fs gs : same x y -> same (JObj fs) (JObj gs) -> same (JObj ((k, x) :: fs)) (JObj ((k, y) :: gs))
  | same_nil : same (JObj []) (JObj [])
  | same_items x y l m : same x y -> same (JArr l) (JArr m) -> same (JArr (x :: l)) (JArr (y :: m))
  | same_end : same (JArr []) (JArr [])
  | same_str s : same (JStr s) (JStr s)
  | same_atom s : same (JAtom s) (JAtom s).
Lemma same_strip v w : same v w -> stripNFTVolatile v = stripNFTVolatile w.
Proof.
  induction 1 as [k x fs gs -> _ IH|k x fs gs -> _ IH|k x y fs gs _ IH1 _ IH2| |x y l m _ IH1 _ IH2| | |]; simpl in *; try done.
  - injection IH2 as IH2. rewrite IH1. destruct (String.eqb k "handle"); simpl; [by rewrite IH2|]. by rewrite IH2.
  - injection IH2 as IH2. by rewrite IH1, IH2.
Qed.
Definition fields_of (v : json) : body := match v with JObj fs => fs | _ => [] end.
Lemma same_stringField v w key : same v w -> key <> "handle"%string -> stringField (fields_of v) key = stringField (fields_of w) key.
Proof.
  intros H Hk. unfold stringField.
  induction H as [k x fs gs -> _ IH|k x fs gs -> _ IH|k x y fs gs Hxy _ _ IH2| | | | |]; cbn [fields_of List.find fst] in *; try done.
  - rewrite (proj2 (String.eqb_neq "handle" key)) by congruence. exact IH.
  - rewrite (proj2 (String.eqb_neq "handle" key)) by congruence. exact IH.
  - destruct (String.eqb k key); [|exact IH2]. by destruct Hxy.
Qed.

(** A body's table is read from fields that are not its handle. *)
Lemma same_managed k v w : same v w -> is_managed (k, v) = is_managed (k, w).
Proof.
  intros H. assert (Hf : forall key, key <> "handle"%string -> stringField (fields_of v) key = stringField (fields_of w) key) by (intros key; by apply same_stringField).
  assert (Hb : is_managed (k, v) = match v with JObj _ => nftObjectBelongsToManaged k (fields_of v) | _ => false end) by (by destruct v).
  assert (Hc : is_managed (k, w) = match w with JObj _ => nftObjectBelongsToManaged k (fields_of w) | _ => false end) by (by destruct w).
  rewrite Hb, Hc. unfold nftObjectBelongsToManaged. rewrite !Hf by (try done; by destruct (String.eqb k "table")). by destruct H.
Qed.

Definition same_object (a b : string * json) : Prop := a.1 = b.1 /\ same a.2 b.2.
(** What is hashed depends on the table's objects and their order alone. *)
Lemma view_same e e' : Forall2 same_object (List.filter is_managed (List.concat e)) (List.filter is_managed (List.concat e')) -> managed_view e = managed_view e'.
Proof. unfold managed_view. induction 1 as [|[k v] [k' w] l m [Hk Hs] _ IH]; [done|]. simpl in *. subst k'. by rewrite IH, (same_strip _ _ Hs). Qed.
Lemma content_spec entries : managedTableHasContent entries = true <-> exists kv, kv ∈ List.concat entries /\ kv.1 <> "table"%string /\ is_managed kv = true.
Proof.
  unfold managedTableHasContent. rewrite existsb_exists. split.
  - intros (e & He & Hkv). apply existsb_exists in Hkv as (kv & Hin & [Hk Hm]%andb_true_iff). exists kv. split; [|split; [by intros E; rewrite E in Hk|done]].
    apply list_elem_of_In, in_concat. by exists e.
  - intros (kv & Hin & Hk & Hm). apply list_elem_of_In, in_concat in Hin as (e & He & Hin). exists e. split; [done|]. apply existsb_exists. exists kv. split; [done|].
    apply andb_true_iff. split; [by apply negb_true_iff, String.eqb_neq|done].
Qed.
(** A digest has bytes. *)
Lemma rounds_length kws st : length st = 8%nat -> length (fold_left round kws st) = 8%nat.
Proof. revert st. induction kws as [|kw kws IH]; intros st H; [done|]. cbn [fold_left]. apply IH.
  destruct st as [|a [|b [|c [|d [|e [|f [|g [|h [|i st]]]]]]]]]; try discriminate H. reflexivity.
Qed.
Lemma blocks_length blocks st : length st = 8%nat -> length (fold_left compress blocks st) = 8%nat.
Proof.
  revert st. induction blocks as [|b blocks IH]; intros st H; [done|]. cbn [fold_left]. apply IH. unfold compress. rewrite length_zip_with, rounds_length by done. by rewrite H.
Qed.
Lemma hex_sum_nonempty s : hex (Sum256 s) <> ""%string.
Proof.
  unfold Sum256. pose proof (blocks_length (chunks 64 (S (length (padded (str_bytes s)) / 64)) (padded (str_bytes s))) first_state) as H.
  specialize (H eq_refl).
  destruct (fold_left compress _ first_state); [discriminate H|]. discriminate.
Qed.

Section Managed.
Context (Marshal : list json -> string) (decode_nft : string -> string + list nft_entry)
  (run : duration -> string -> list string -> string + string).

(** C11: The managed table's hash is reported exactly when nft answers with a
    ruleset that holds an object of table inet lattice_guard besides the table
    itself; it is the SHA-256 of those objects and the table in order, and
    neither handles at any depth nor objects of other tables change it. *)
Theorem managed_hash_exact timeout nft sha :
  (CollectManagedTableSHA Marshal decode_nft run timeout nft = inr sha <->
   exists out entries, run (timeout_of timeout) (firstNonEmpty [nft; "nft"%string]) ruleset_args = inr out /\ decode_nft (trim_space out) = inr entries /\
     (exists kv, kv ∈ List.concat entries /\ kv.1 <> "table"%string /\ is_managed kv = true) /\ sha = hex (Sum256 (Marshal (managed_view entries)))) /\
  forall e e', Forall2 same_object (List.filter is_managed (List.concat e)) (List.filter is_managed (List.concat e')) ->
    (ruleset_result Marshal e).1 = (ruleset_result Marshal e').1.
Proof.
  assert (Hr : forall e, (ruleset_result Marshal e).1 = match managed_view e with [] => ""%string | _ => hex (Sum256 (Marshal (managed_view e))) end).
  { intros e. unfold ruleset_result. simpl. destruct (scan_all e) as (-> & _). fold (managed_view e). by destruct (managed_view e). }
  split; [|by intros e e' H%view_same; rewrite !Hr, H].
  unfold CollectManagedTableSHA, runStep, ParseNFTRuleset. destruct (run _ _ _) as [|out]; [split; [done|intros (? & ? & ? & _); done]|].
  destruct (decode_nft (trim_space out)) as [|entries] eqn:Ed; [split; [done|intros (o & ? & [= <-] & ? & _); congruence]|].
  destruct (ruleset_result Marshal entries) as [got tables] eqn:Er. assert (Hg : got = (ruleset_result Marshal entries).1) by (by rewrite Er). rewrite Hr in Hg.
  assert (Hne : managed_view entries <> [] -> got = hex (Sum256 (Marshal (managed_view entries))) /\ got <> ""%string).
  { intros Hv. rewrite Hg. destruct (managed_view entries) eqn:E; [done|]. split; [done|apply hex_sum_nonempty]. }
  pose proof (content_spec entries) as Hc. split.
  - destruct (String.eqb_spec got "") as [|Hgot]; [done|]. destruct (managedTableHasContent entries); [|done]. intros [= <-].
    exists out, entries. split; [done|]. split; [done|]. split; [by apply Hc|]. apply Hne. intros Hv. by rewrite Hv in Hg.
  - intros (o & es & [= <-] & He & Hx & ->). rewrite He in Ed. injection Ed as ->. rewrite (proj2 Hc Hx).
    destruct Hne as [H1 H2]; [|rewrite (proj2 (String.eqb_neq got "") H2); by rewrite H1].
    destruct Hx as (kv & Hin & _ & Hm). unfold managed_view. intros Hf%map_eq_nil.
    assert (H : In kv (List.filter is_managed (List.concat entries))) by (apply filter_In; split; [by apply list_elem_of_In|done]). by rewrite Hf in H.
Qed.
End Managed.

(** ** The runner's output is whole or refused *)
Lemma limited_writes ps : forall b, Z.of_nat (String.length (l_buf b)) <= maxOutputBytes -> let all := (l_buf b +:+ foldr String.append "" ps)%string in
  l_buf (foldl (fun b p => Write p b) b ps) = str_take (Z.to_nat maxOutputBytes) all /\
  truncated (foldl (fun b p => Write p b) b ps) = truncated b || (maxOutputBytes <? Z.of_nat (String.length all)).
Proof.
  induction ps as [|p ps IH]; intros [b t] Hb; cbn [l_buf truncated foldr foldl] in *.
  - rewrite app_empty_r, str_take_all by lia. split; [done|]. rewrite (proj2 (Z.ltb_ge _ _)) by lia. by rewrite orb_false_r.
  - set (w := Write p (mkLimited b t)). unfold Write in w. cbn [l_buf truncated] in w. subst w. destruct (Z.ltb_spec (Z.of_nat (String.length b)) maxOutputBytes) as [Hlt|Hge].
    + destruct (Z.ltb_spec (maxOutputBytes - Z.of_nat (String.length b)) (Z.of_nat (String.length p))) as [Hlong|Hfits].
      * destruct (IH (mkLimited (b +:+ str_take (Z.to_nat (maxOutputBytes - Z.of_nat (String.length b))) p) true)) as [-> ->]; cbn [l_buf truncated orb].
        { rewrite string_app_length, str_take_len. lia. }
        rewrite str_take_prefix by (rewrite string_app_length, str_take_len; lia). rewrite str_take_all by (rewrite string_app_length, str_take_len; lia). split.
        -- rewrite <-string_app_assoc, str_take_prefix by (rewrite string_app_length; lia).
           replace (Z.to_nat maxOutputBytes) with (String.length b + Z.to_nat (maxOutputBytes - Z.of_nat (String.length b)))%nat by lia. by rewrite str_take_add.
        -- rewrite (proj2 (Z.ltb_lt maxOutputBytes _)) by (rewrite !string_app_length; lia). by rewrite orb_true_r.
      * destruct (IH (mkLimited (b +:+ p) t)) as [-> ->]; cbn [l_buf truncated]; [rewrite string_app_length; lia|]. by rewrite string_app_assoc.
    + destruct p as [|c p]; [apply (IH (mkLimited b t) Hb)|]. change (0 <? Z.of_nat (String.length (String c p))) with true. cbn [l_buf truncated].
      destruct (IH (mkLimited b true) Hb) as [-> ->]; cbn [l_buf truncated orb]. rewrite !str_take_prefix by lia. split; [done|].
      rewrite (proj2 (Z.ltb_lt maxOutputBytes _)) by (rewrite !string_app_length; cbn [String.length]; lia). by rewrite orb_true_r.
Qed.
Lemma run_whole name out err : match runBoundedCommand name out err None with
  | inr s => s = foldr String.append "" out /\ Z.of_nat (String.length s) <= maxOutputBytes
  | inl e => maxOutputBytes < Z.of_nat (String.length (foldr String.append "" out)) \/ maxOutputBytes < Z.of_nat (String.length (foldr String.append "" err))
  end.
Proof.
  unfold runBoundedCommand. destruct (limited_writes out (mkLimited "" false)) as [Hb Ht]; [done|]. destruct (limited_writes err (mkLimited "" false)) as [_ Ht']; [done|].
  cbv zeta. rewrite Hb, Ht, Ht'. cbn [l_buf truncated orb]. rewrite !app_empty.
  destruct (Z.ltb_spec maxOutputBytes (Z.of_nat (String.length (foldr String.append "" out)))); [by left|].
  destruct (Z.ltb_spec maxOutputBytes (Z.of_nat (String.length (foldr String.append "" err)))); [by right|]. rewrite str_take_all by lia. split; [done|lia].
Qed.
End GuardRealityProps.

Module SshdFactsProps.
Import HostGuard SshdFacts.

Definition option_line (line key value : string) : Prop := exists k, key_value (trim_space line) = (k, value) /\ lower k = key.
(** Where a fact that was read comes from. *)
Record read_from (lines : list string) (st : seen) : Prop := {
  rf_password b : s_password st = Some b -> exists line v, line ∈ lines /\ option_line line "passwordauthentication" v /\ lower v = (if b then "yes" else "no")%string;
  rf_pubkey b : s_pubkey st = Some b -> exists line v, line ∈ lines /\ option_line line "pubkeyauthentication" v /\ lower v = (if b then "yes" else "no")%string;
  rf_root r : s_root st = Some r -> r <> ""%string /\ exists line v, line ∈ lines /\ option_line line "permitrootlogin" v /\ r = bounded v maxValueRunes;
  rf_port p : p ∈ s_ports st -> 1 <= p <= 65535 /\ exists line v, line ∈ lines /\ option_line line "port" v /\ atoi v = Some p;
  rf_count : (size (s_ports st) <= maxPorts)%nat /\ (length (s_listen st) <= maxListenAddresses)%nat }.
Lemma yes_no key v b : parseYesNo key v = inr b -> lower v = (if b then "yes" else "no")%string.
Proof. unfold parseYesNo. destruct (String.eqb_spec (lower v) "yes"); [by intros [= <-]|]. destruct (String.eqb_spec (lower v) "no"); [by intros [= <-]|done]. Qed.
Lemma earlier {A} (P : A -> Prop) x l : (exists y, y ∈ l /\ P y) -> exists y, y ∈ l ++ [x] /\ P y.
Proof. intros (y & H & HP). exists y. split; [apply elem_of_app; by left|done]. Qed.
Lemma read_from_app lines st line : read_from lines st -> read_from (lines ++ [line]) st.
Proof.
  intros [H1 H2 H3 H4 H5]. assert (Hin : forall l, l ∈ lines -> l ∈ lines ++ [line]) by (intros l ?; apply elem_of_app; by left).
  split; [intros b (l & v & ? & ?)%H1; exists l, v; by auto|intros b (l & v & ? & ?)%H2; exists l, v; by auto| | |done].
  - intros r [? (l & v & ? & ?)]%H3. split; [done|]. exists l, v. by auto.
  - intros p [? (l & v & ? & ?)]%H4. split; [done|]. exists l, v. by auto.
Qed.
Lemma read_line lines st line st' : read_from lines st -> parse_line st line = inr st' -> read_from (lines ++ [line]) st'.
Proof.
  intros Hr. pose proof (read_from_app lines st line Hr) as [H1 H2 H3 H4 H5]. assert (Hin : line ∈ lines ++ [line]) by (apply elem_of_app; right; by left).
  unfold parse_line. destruct (String.eqb _ ""); [by intros [= <-]|]. destruct (key_value _) as [key value] eqn:Ekv.
  assert (Hopt : forall k, lower key = k -> option_line line k value) by (intros k <-; by exists key).
  destruct (String.eqb_spec (lower key) "port") as [Hk|_].
  { destruct (atoi value) as [port|] eqn:Ea; [|done]. destruct (Z.ltb_spec port 1); [done|]. destruct (Z.ltb_spec 65535 port); [done|]. simpl.
    destruct (Nat.ltb_spec maxPorts (size ({[port]} ∪ s_ports st))); [done|]. intros [= <-]. split; simpl; try done; [|split; [done|apply H5]].
    intros p [->%elem_of_singleton|Hp]%elem_of_union; [|by apply H4]. split; [lia|]. exists line, value. by auto. }
  destruct (String.eqb (lower key) "listenaddress").
  { destruct (_ || _); [by intros [= <-]|]. destruct (Nat.ltb_spec maxListenAddresses (length (s_listen st ++ [bounded value maxValueRunes]))); [done|].
    intros [= <-]. split; simpl; try done. split; [apply H5|done]. }
  destruct (String.eqb_spec (lower key) "passwordauthentication") as [Hk|_].
  { destruct (parseYesNo _ _) as [|b] eqn:E; [done|]. intros [= <-]. split; simpl; try done. intros c [= <-]. exists line, value. split; [done|]. split; [by apply Hopt|by eapply yes_no]. }
  destruct (String.eqb_spec (lower key) "pubkeyauthentication") as [Hk|_].
  { destruct (parseYesNo _ _) as [|b] eqn:E; [done|]. intros [= <-]. split; simpl; try done. intros c [= <-]. exists line, value. split; [done|]. split; [by apply Hopt|by eapply yes_no]. }
  destruct (String.eqb_spec (lower key) "permitrootlogin") as [Hk|_].
  { destruct (String.eqb_spec (bounded value maxValueRunes) ""); [done|]. intros [= <-]. split; simpl; try done. intros r [= <-]. split; [done|]. exists line, value. by auto. }
  destruct (String.eqb (lower key) "maxauthtries"); [|by intros [= <-]].
  destruct (atoi value) as [n|]; [|done]. destruct (n <? 0); [done|]. intros [= <-]. by split.
Qed.
Lemma read_lines lines : forall st st' before, read_from before st -> parse_lines st lines = inr st' -> read_from (before ++ lines) st'.
Proof.
  induction lines as [|line lines IH]; intros st st' before Hr; simpl; [intros [= <-]; by rewrite app_nil_r|].
  destruct (parse_line st line) as [|st1] eqn:E; [done|]. intros H. rewrite cons_middle, app_assoc. eapply IH; [by eapply read_line|done].
Qed.
(** No fact is a default: each one reported is some line's. *)
Lemma facts_read raw f : Parse raw = inr f -> let lines := split_byte nl "" raw in
  (exists line v, line ∈ lines /\ option_line line "passwordauthentication" v /\ lower v = (if PasswordAuthentication f then "yes" else "no")%string) /\
  (exists line v, line ∈ lines /\ option_line line "pubkeyauthentication" v /\ lower v = (if PubkeyAuthentication f then "yes" else "no")%string) /\
  (PermitRootLogin f <> ""%string /\ exists line v, line ∈ lines /\ option_line line "permitrootlogin" v /\ PermitRootLogin f = bounded v maxValueRunes) /\
  Ports f <> [] /\ NoDup (Ports f) /\ Sorted (fun a b => (a <=? b) = true) (Ports f) /\ (length (Ports f) <= maxPorts)%nat /\
  forall p, p ∈ Ports f -> 1 <= p <= 65535 /\ exists line v, line ∈ lines /\ option_line line "port" v /\ atoi v = Some p.
Proof.
  unfold Parse. destruct (parse_lines _ _) as [|st] eqn:E; [done|]. apply (read_lines _ _ _ []) in E as [H1 H2 H3 H4 H5].
  - destruct (s_password st) as [b1|]; [|done]. destruct (s_pubkey st) as [b2|]; [|by destruct (s_root st)]. destruct (s_root st) as [r|]; [|done].
    case_bool_decide as Hp; [done|]. intros [= <-]. simpl in *.
    pose proof (insertion_sort_perm Z.leb (elements (s_ports st))) as Hperm.
    split; [by apply H1|]. split; [by apply H2|]. split; [by apply H3|]. split; [|split; [|split; [|split]]].
    + intros Hs. rewrite Hs in Hperm. apply Permutation_nil_l in Hperm. symmetry in Hperm. by apply elements_empty_inv, leibniz_equiv in Hperm.
    + rewrite Hperm. apply NoDup_elements.
    + apply insertion_sort_sorted. intros x y. rewrite !Z.leb_le. lia.
    + rewrite Hperm. apply H5.
    + intros p. rewrite Hperm, elem_of_elements. apply H4.
  - split; simpl; try done. split; [vm_compute; lia|unfold maxListenAddresses; lia].
Qed.
End SshdFactsProps.

(** * Examples *)
Module GuardRealitySample.
Import HostGuard GuardRealityProps.

Definition q : string := String quote "".
Definition ss_out : string := ("tcp LISTEN 0 128 [::]:22 [::]:* users:((" +:+ q +:+ "sshd" +:+ q +:+ ",pid=1,fd=3))" +:+ String nl "" +:+
  "udp UNCONN 0 0 *:443 *:* users:((" +:+ q +:+ "sing-box" +:+ q +:+ ",pid=2,fd=3))" +:+ String nl "" +:+
  "tcp LISTEN 0 128 127.0.0.1%lo:53 0.0.0.0:*" +:+ String nl "" +:+ "tcp LISTEN 0 128 [::]:22 [::]:* users:((" +:+ q +:+ "sshd" +:+ q +:+ ",pid=1,fd=4))")%string.
Example ss_read : ParseSSListeners ss_out =
  [mkListener "tcp" 22 "::" "sshd"; mkListener "tcp" 53 "127.0.0.1" ""; mkListener "udp" 443 "::" "sing-box"]%string.
Proof. vm_compute. reflexivity. Qed.

Definition obj (kind name handle : string) : nft_entry :=
  [(kind, JObj [("family", JStr "inet"); (if String.eqb kind "table" then "name" else "table", JStr name); ("handle", JAtom handle)])]%string.
Definition ruleset : list nft_entry := [obj "table" "lattice_guard" "1"; obj "table" "docker" "2"; obj "chain" "lattice_guard" "3"; obj "chain" "docker" "4"]%string.
Definition reloaded : list nft_entry := [obj "table" "docker" "9"; obj "table" "lattice_guard" "7"; obj "chain" "lattice_guard" "8"]%string.
Fixpoint text (v : json) : string :=
  match v with
  | JStr s | JAtom s => s
  | JArr l => "[" +:+ foldr (fun x acc => text x +:+ "," +:+ acc) "]" l
  | JObj fs => "{" +:+ foldr (fun kv acc => kv.1 +:+ ":" +:+ text kv.2 +:+ "," +:+ acc) "}" fs
  end%string.
Definition Marshal (l : list json) : string := text (JArr l).
Definition nft (out : string) (d : duration) (name : string) (args : list string) : string + string := inr out.
Definition decode (r : list nft_entry) (s : string) : string + list nft_entry := inr r.
Lemma managed_hash_exact_witness :
  (exists sha, CollectManagedTableSHA Marshal (decode ruleset) (nft "{}") 0 "" = inr sha /\ sha = hex (Sum256 (Marshal (managed_view ruleset)))) /\
  (ruleset_result Marshal ruleset).1 = (ruleset_result Marshal reloaded).1.
Proof.
  split.
  - exists (hex (Sum256 (Marshal (managed_view ruleset)))). split; [|reflexivity].
    apply (proj1 (managed_hash_exact Marshal (decode ruleset) (nft "{}") 0 "" _)). exists "{}"%string, ruleset.
    split; [reflexivity|]. split; [reflexivity|]. split; [|reflexivity].
    exists ("chain"%string, JObj [("family", JStr "inet"); ("table", JStr "lattice_guard"); ("handle", JAtom "3")]%string).
    split; [vm_compute; right; right; left|]. split; [discriminate|reflexivity].
  - apply (proj2 (managed_hash_exact Marshal (decode ruleset) (nft "{}") 0 "" "")). vm_compute.
    constructor; [|constructor; [|constructor]]; (split; [reflexivity|]); simpl; repeat (apply same_field; [constructor|]);
      (apply same_handle; [reflexivity|]); (apply same_handle'; [reflexivity|]); constructor.
Defined.
Example foreign_tables : (ruleset_result Marshal ruleset).2 = ["inet docker"]%string /\
  CollectManagedTableSHA Marshal (decode [obj "table" "lattice_guard" "1"]) (nft "{}") 0 "" = inl TableEmpty /\
  CollectManagedTableSHA Marshal (decode [obj "table" "docker" "1"]) (nft "{}") 0 "" = inl TableNotFound.
Proof. vm_compute. done. Qed.
(** An absent nft leaves the listeners and interfaces; an unreadable ruleset
    refuses the whole report. *)
Definition host (ruleset : string + string) (d : duration) (name : string) (args : list string) : string + string :=
  if String.eqb name "nft" then ruleset else inr (if String.eqb name "ss" then ss_out else ""%string).
Definition report (r : string + string) (dec : string + list nft_entry) : guard_error + GuardNodeReality :=
  Collect (fun s => Some (true, s)) Marshal (fun _ => inr [mkEntry "eth0" ["UP"] "" [mkAddrInfo "10.0.0.1" (Some 24)]]%string) (fun _ => dec) (host r) 0 "" "" "" None 9 " n1 ".
Example without_nft : match report (inl "not found"%string) (inr []) with
  | inr r => (map Address (Listeners r), Interfaces r, ManagedSHA r) = (["::"; "127.0.0.1"; "::"], [mkInterface "eth0" ["10.0.0.1/24"] true], "")%string
  | inl _ => False
  end /\ report (inr "?"%string) (inl "bad"%string) = inl (ParseFailed "nft ruleset" "bad").
Proof. vm_compute. done. Qed.

Import SingboxLive.
Definition lines (l : list string) : string := foldr (fun s acc => s +:+ String nl acc)%string ""%string l.
Definition probes (name : string) (args : list string) : string + string :=
  if String.eqb name "ss" then inr ss_out else inr (lines ["ActiveState=active"; "NRestarts=x"; "SubState=running"]%string).
Example live : let (rt, bound) := SingboxLive.Collect "" "" "" [] [TrustedExec.mkRefused 7 "/tmp/sing-box" "not root"] (Some probes) 9 in
  (Running rt, ActiveState rt, SubState rt, RestartCount rt, ProbeError rt) =
    (false, "active", "running", 0, "refused sing-box candidate /tmp/sing-box (pid 7): not root")%string /\
  map (port_evidence bound) ["443"; "22"; "0"]%string = [(Some true, "sing-box"); (Some false, ""); (None, "")]%string.
Proof. vm_compute. done. Qed.
Example nobody_looked : let (_, bound) := SingboxLive.Collect "" "" "" [] [] (Some (fun _ _ => inl "gone"%string)) 9 in map (port_evidence bound) ["443"]%string = [(None, "")]%string.
Proof. vm_compute. done. Qed.

Definition sshd_out (l : list string) : string := lines (l ++ ["PasswordAuthentication no"; "pubkeyauthentication yes"; "permitrootlogin prohibit-password"]%string).
Example sshd_read : SshdFacts.Parse (sshd_out ["port 2222"; "port 22"; "port 22"; "maxauthtries 6"; "listenaddress [::]:22"]%string) =
  inr (mkSSHD false true "prohibit-password" 6 [22; 2222] ["[::]:22"%string] 0).
Proof. vm_compute. reflexivity. Qed.
Example sshd_incomplete : SshdFacts.Parse (sshd_out []) = inl SshdFacts.NoPort /\ SshdFacts.Parse (sshd_out ["port 0"]%string) = inl (SshdFacts.BadPort "0").
Proof. vm_compute. done. Qed.
End GuardRealitySample.
