(* ===== verification/HostFacts.v ===== *)
(** * Addresses, facts and metrics of the host (internal/ipdiscover, internal/hostfacts, internal/metrics)

    Addresses are their 128 bits, an IPv4 address the mapped one; parsing and
    printing them is an argument, their classes are computed.  Files are the
    lines or the text read, floats are binary64. *)
From S2P Require Import Prelude GoStrings.
From Stdlib Require Import Ascii SpecFloat.
From stdpp Require Import gmap strings.

Local Open Scope Z_scope.

(** ** Addresses (net.IP) *)
Module NetIP.

Definition IP : Type := Z.
Definition top (n : Z) (ip : IP) : Z := Z.shiftr ip (128 - n).
Definition is4 (ip : IP) : bool := top 96 ip =? 0xffff.
Definition word (ip : IP) : Z := Z.land ip 0xffffffff.
(** The first [n] bits of the IPv4 address. *)
Definition top4 (n : Z) (ip : IP) : Z := Z.shiftr (word ip) (32 - n).
Definition by_family (four six : bool) (ip : IP) : bool := if is4 ip then four else six.
Definition IsLoopback (ip : IP) : bool := by_family (top4 8 ip =? 127) (ip =? 1) ip.
Definition IsUnspecified (ip : IP) : bool := by_family (word ip =? 0) (ip =? 0) ip.
Definition IsPrivate (ip : IP) : bool :=
  by_family ((top4 8 ip =? 10) || (top4 12 ip =? 0xac1) || (top4 16 ip =? 0xc0a8)) (top 7 ip =? 0x7e) ip.
Definition IsLinkLocalUnicast (ip : IP) : bool := by_family (top4 16 ip =? 0xa9fe) (top 10 ip =? 0x3fa) ip.
Definition IsMulticast (ip : IP) : bool := by_family (top4 4 ip =? 14) (top 8 ip =? 0xff) ip.
Definition IsLinkLocalMulticast (ip : IP) : bool :=
  by_family (top4 24 ip =? 0xe00000) ((top 8 ip =? 0xff) && (Z.land (top 16 ip) 15 =? 2)) ip.
Definition IsGlobalUnicast (ip : IP) : bool :=
  negb (is4 ip && (word ip =? 0xffffffff)) && negb (IsUnspecified ip) && negb (IsLoopback ip) && negb (IsMulticast ip) && negb (IsLinkLocalUnicast ip).
(** An address from its four bytes, for examples. *)
Definition ip4 (a b c d : Z) : IP := Z.lor (Z.shiftl 0xffff 32) (Z.lor (Z.shiftl a 24) (Z.lor (Z.shiftl b 16) (Z.lor (Z.shiftl c 8) d))).
End NetIP.

(** ** Discovery of the node's addresses (ipdiscover) *)
Module IpDiscover.
Import NetIP.

Definition DefaultResolversV4 : list string := ["https://api.ipify.org"; "https://ifconfig.co/ip"; "https://1.1.1.1/cdn-cgi/trace"]%string.
Definition DefaultResolversV6 : list string := ["https://api64.ipify.org"; "https://ifconfig.co/ip"]%string.
Definition maxResolverBody : nat := 4096.
Definition routable (ip : IP) : bool :=
  if IsLoopback ip || IsPrivate ip || IsLinkLocalUnicast ip || IsLinkLocalMulticast ip || IsMulticast ip || IsUnspecified ip then false else IsGlobalUnicast ip.
Definition nl : ascii := byte_of 10.

Section Discover.
Context (ParseIP_ : string -> option IP) (IPString : IP -> string).
Definition normalize (s : string) (wantV4 : bool) : string :=
  match ParseIP_ s with
  | None => ""
  | Some ip => if negb (Bool.eqb (is4 ip) wantV4) then "" else if negb (routable ip) then "" else IPString ip
  end.
Fixpoint first_ip (lines : list string) (wantV4 : bool) : string :=
  match lines with
  | [] => ""
  | line :: lines =>
      let line := trim_space line in
      if String.eqb line "" then first_ip lines wantV4
      else
        let line := match cut_prefix line "ip=" with Some r => trim_space r | None => line end in
        let ip := normalize line wantV4 in
        if String.eqb ip "" then first_ip lines wantV4 else ip
  end.
Definition ParseIP (body : string) (wantV4 : bool) : string := first_ip (split_byte nl "" body) wantV4.
(** What a resolver answers: nothing, or a status and a body. *)
Context (answer : string -> option (Z * string)).
Definition fetchIP (url : string) (wantV4 : bool) : string :=
  match answer url with
  | None => ""
  | Some (status, body) => if negb (status =? 200) then "" else ParseIP (str_take maxResolverBody body) wantV4
  end.
Fixpoint PublicIP (resolvers : list string) (wantV4 : bool) : string :=
  match resolvers with
  | [] => ""
  | url :: resolvers => let ip := fetchIP url wantV4 in if String.eqb ip "" then PublicIP resolvers wantV4 else ip
  end.

Definition virtualIfacePrefixes : list string :=
  ["docker"; "veth"; "br-"; "wg"; "tailscale"; "cni"; "kube"; "flannel"; "lo"; "utun"; "llw"; "awdl"; "gif"; "stf"; "tun"; "tap"]%string.
Definition skipIface (name : string) : bool := existsb (has_prefix (lower name)) virtualIfacePrefixes.
Record ifaceAddrs := mkIface { if_name : string; if_addrs : list IP }.
Definition internal_step (acc : string * string) (ip : IP) : string * string :=
  if IsLoopback ip || IsLinkLocalUnicast ip || IsLinkLocalMulticast ip || IsUnspecified ip then acc
  else if is4 ip then (if String.eqb acc.1 "" then (IPString ip, acc.2) else acc)
  else if String.eqb acc.2 "" then (acc.1, IPString ip) else acc.
Fixpoint select_from (ifaces : list ifaceAddrs) (acc : string * string) : string * string :=
  match ifaces with
  | [] => acc
  | i :: ifaces =>
      if skipIface (if_name i) then select_from ifaces acc
      else
        let acc := foldl internal_step acc (if_addrs i) in
        if negb (String.eqb acc.1 "") && negb (String.eqb acc.2 "") then acc else select_from ifaces acc
  end.
Definition selectInternal (ifaces : list ifaceAddrs) : string * string := select_from ifaces ("", "")%string.
(** An interface of the host: up, loopback, and its addresses if they can be
    read. *)
Record iface := mkNetIface { n_name : string; n_up : bool; n_loopback : bool; n_addrs : option (list IP) }.
Definition InternalIPs (interfaces : option (list iface)) : string * string :=
  match interfaces with
  | None => ("", "")%string
  | Some l => selectInternal (omap (fun i => if negb (n_up i) || n_loopback i then None else mkIface (n_name i) <$> n_addrs i) l)
  end.
End Discover.
End IpDiscover.

(** ** Machine facts (hostfacts) *)
Module MachineFacts.

Definition nl : ascii := byte_of 10.
Definition strip_quote (s : string) : option string :=
  match s with String c t => if Ascii.eqb c (byte_of 34) || Ascii.eqb c (byte_of 39) then Some t else None | _ => None end.
Definition strip_end_quote (s : string) : option string :=
  match cut_suffix s (String (byte_of 34) "") with Some t => Some t | None => cut_suffix s (String (byte_of 39) "") end.
Definition trim_quotes (s : string) : string :=
  let s := strip_all strip_quote (String.length s) s in strip_all strip_end_quote (String.length s) s.
Definition os_line (acc : string * string) (line : string) : string * string :=
  let line := trim_space line in
  if String.eqb line "" || has_prefix line "#" then acc
  else
    match cut line "=" with
    | None => acc
    | Some (k, v) =>
        let key := trim_space k in
        let value := trim_quotes (trim_space v) in
        if String.eqb key "ID" then (value, acc.2) else if String.eqb key "VERSION_ID" then (acc.1, value) else acc
    end.
Definition parseOSRelease (data : string) : string * string := foldl os_line ("", "")%string (split_byte nl "" data).
Definition mem_line (acc : Z * Z) (line : string) : Z * Z :=
  match fields line with
  | f0 :: f1 :: _ =>
      match parse_uint 64 f1 with
      | None => acc
      | Some v =>
          let bytes := u64 (v * 1024) in
          let key := trim_suffix f0 ":" in
          if String.eqb key "MemTotal" then (bytes, acc.2) else if String.eqb key "SwapTotal" then (acc.1, bytes) else acc
      end
  | _ => acc
  end.
Definition parseMeminfo (data : string) : Z * Z := foldl mem_line (0, 0) (split_byte nl "" data).
Fixpoint cpu_model (lines : list string) : string :=
  match lines with
  | [] => ""
  | line :: lines =>
      match cut line ":" with
      | None => cpu_model lines
      | Some (k, v) =>
          let key := trim_space k in
          if String.eqb key "model name" || String.eqb key "Hardware" || String.eqb key "Processor" then trim_space v else cpu_model lines
      end
  end.
Definition firstCPUModel (data : string) : string := cpu_model (split_byte nl "" data).
Definition fpos (x : spec_float) : bool := SFltb (S754_zero false) x.
Definition parseUptimeSeconds (ParseFloat : string -> option spec_float) (data : string) : Z :=
  match fields data with
  | [] => 0
  | f :: _ => match ParseFloat f with Some s => if SFleb s (S754_zero false) then 0 else u64 (f64_trunc s) | None => 0 end
  end.
Definition detectVirtualization (container : string) (dockerenv containerenv : bool) (cgroups cpuinfo : string) : string :=
  if negb (String.eqb (trim_space container) "") then trim_space container
  else if dockerenv then "docker" else if containerenv then "container"
  else match List.find (contains cgroups) ["docker"; "kubepods"; "containerd"; "lxc"]%string with
       | Some marker => marker
       | None => if contains cpuinfo "hypervisor" then "vm" else "unknown"
       end%string.
Record Facts := mkFacts {
  Hostname : string; Platform : string; PlatformVersion : string; KernelVersion : string; CPUModel : string; MemoryTotal : Z; SwapTotal : Z; BootTime : time;
  Virtualization : string; ReportedAt : time }.
(** [read] is a file's text, empty when it cannot be read. *)
Definition Collect (ParseFloat : string -> option spec_float) (read : string -> string) (hostname : option string) (container : string)
    (dockerenv containerenv : bool) (now : time) : Facts :=
  let (platform, version) := parseOSRelease (read "/etc/os-release"%string) in
  let (total, swap) := parseMeminfo (read "/proc/meminfo"%string) in
  let up := parseUptimeSeconds ParseFloat (read "/proc/uptime"%string) in
  mkFacts (default ""%string hostname) platform version (trim_space (read "/proc/sys/kernel/osrelease"%string)) (firstCPUModel (read "/proc/cpuinfo"%string)) total swap
    (if 0 <? up then now + i64 (- i64 up * second) else 0)
    (detectVirtualization container dockerenv containerenv (read "/proc/1/cgroup"%string) (read "/proc/cpuinfo"%string)) now.
End MachineFacts.

(** ** Metrics (metrics) *)
Module Metrics.

Definition fzero : spec_float := S754_zero false.
Definition hundred : spec_float := f64_of 100.
Definition f64_sub (a b : spec_float) : spec_float := SFsub 53 1024 a b.
(** Duration.Seconds. *)
Definition seconds_of (d : duration) : spec_float := f64_add (f64_of (Z.quot d second)) (f64_div (f64_of (Z.rem d second)) (f64_of second)).
Definition netRate (prevRx prevTx rx tx : Z) (elapsedSec : spec_float) : spec_float * spec_float :=
  if SFleb elapsedSec fzero then (fzero, fzero)
  else ((if prevRx <=? rx then f64_div (f64_of (rx - prevRx)) elapsedSec else fzero), (if prevTx <=? tx then f64_div (f64_of (tx - prevTx)) elapsedSec else fzero)).
Record netSample := mkNet { prevRx : Z; prevTx : Z; prevTime : time }.
(** The rates and the sample kept; None before the first call. *)
Definition netSpeed (rx tx : Z) (now : time) (prev : option netSample) : spec_float * spec_float * option netSample :=
  (match prev with
   | None => (fzero, fzero)
   | Some p => netRate (prevRx p) (prevTx p) rx tx (seconds_of (now - prevTime p))
   end, Some (mkNet rx tx now)).
Definition clampPercent (v : spec_float) : spec_float := if SFltb v fzero then fzero else if SFltb hundred v then hundred else v.
Definition cpuLoadFallback (load1 : spec_float) (cpuCount : Z) : spec_float :=
  if SFleb load1 fzero || (cpuCount <=? 0) then fzero else clampPercent (f64_mul (f64_div load1 (f64_of cpuCount)) hundred).
Definition cpuBusy (prevTotal prevIdle total idle : Z) : spec_float :=
  let totalDelta := f64_of (u64 (total - prevTotal)) in
  let idleDelta := f64_of (u64 (idle - prevIdle)) in
  if SFleb totalDelta fzero then fzero else clampPercent (f64_mul (f64_div (f64_sub totalDelta idleDelta) totalDelta) hundred).
Definition stat_field (acc : Z * Z * Z) (f : string) : Z * Z * Z :=
  let '(i, sum, idle) := acc in
  match parse_uint 64 f with
  | None => (i + 1, sum, idle)
  | Some v => (i + 1, u64 (sum + v), if (i =? 3) || (i =? 4) then u64 (idle + v) else idle)
  end.
Definition readProcStat (lines : option (list string)) : option (Z * Z) :=
  match lines ≫= List.find (fun l => has_prefix l "cpu ") with
  | None => None
  | Some line => let '(_, sum, idle) := foldl stat_field (0, 0, 0) (drop 1 (fields line)) in Some (sum, idle)
  end.
Record cpuSample := mkCpu { prevTotal : Z; prevIdle : Z }.
Definition readCPUPercent (load1 : spec_float) (cpuCount : Z) (stat : option (list string)) (prev : option cpuSample) : spec_float * option cpuSample :=
  match readProcStat stat with
  | None => (cpuLoadFallback load1 cpuCount, prev)
  | Some (total, idle) =>
      (match prev with None => cpuLoadFallback load1 cpuCount | Some p => cpuBusy (prevTotal p) (prevIdle p) total idle end, Some (mkCpu total idle))
  end.
(** A number that cannot be read is 0, or the largest when it is too large. *)
Definition uint_or (s : string) : Z :=
  match parse_uint 64 s with Some v => v | None => if all_digits s then 2 ^ 64 - 1 else 0 end.
Definition memory_line (m : gmap string Z) (line : string) : gmap string Z :=
  match fields line with f0 :: f1 :: _ => <[trim_suffix f0 ":" := u64 (uint_or f1 * 1024)]> m | _ => m end.
(** [heap] is what the runtime reports when there is no /proc. *)
Definition readMemory (lines : option (list string)) (heap : Z * Z) : Z * Z :=
  match lines with
  | None => heap
  | Some lines =>
      let values := foldl memory_line ∅ lines in
      let total := default 0 (values !! "MemTotal"%string) in
      let available := default 0 (values !! "MemAvailable"%string) in
      (if available <? total then total - available else 0, total)
  end.
Record statfs := mkStatfs { Blocks : Z; Bavail : Z; Bsize : Z }.
Definition readDisk (st : option statfs) : Z * Z :=
  match st with
  | None => (0, 0)
  | Some st =>
      let total := u64 (Blocks st * u64 (Bsize st)) in
      let free := u64 (Bavail st * u64 (Bsize st)) in
      (if free <? total then total - free else 0, total)
  end.
Definition net_line (acc : Z * Z) (line : string) : Z * Z :=
  match cut line ":" with
  | None => acc
  | Some (iface, rest) =>
      if String.eqb (trim_space iface) "lo" then acc
      else
        let fs := fields rest in
        if (length fs <? 16)%nat then acc
        else (u64 (acc.1 + uint_or (default ""%string (fs !! 0%nat))), u64 (acc.2 + uint_or (default ""%string (fs !! 8%nat))))
  end.
Definition readNetDev (lines : option (list string)) : Z * Z := match lines with None => (0, 0) | Some l => foldl net_line (0, 0) l end.
(** [ParseFloat] gives a value whether or not it reports an error. *)
Definition readLoadAvg (ParseFloat : string -> spec_float) (data : option string) : spec_float * spec_float * spec_float :=
  match data with
  | None => (fzero, fzero, fzero)
  | Some d => let at_ i := match fields d !! i with Some f => ParseFloat f | None => fzero end in (at_ 0%nat, at_ 1%nat, at_ 2%nat)
  end.
Definition readUptime (ParseFloat : string -> spec_float) (data : option string) : Z :=
  match data with None => 0 | Some d => match fields d with [] => 0 | f :: _ => u64 (f64_trunc (ParseFloat f)) end end.
(** What one collection reads, and the two samplers. *)
Record sources := mkSources { loadavg : option string; meminfo : option (list string); heap : Z * Z; disk : option statfs; netdev : option (list string); uptime : option string; procstat : option (list string) }.
Record samplers := mkSamplers { net_prev : option netSample; cpu_prev : option cpuSample }.
Record Metrics := mkMetrics {
  CollectedAt : time; Load : spec_float * spec_float * spec_float; Memory : Z * Z; Disk : Z * Z; NetBytes : Z * Z; NetSpeed : spec_float * spec_float; UptimeSeconds : Z; CPUPercent : spec_float }.
Definition Collect (ParseFloat : string -> spec_float) (cpuCount : Z) (src : sources) (now : time) (s : samplers) : Metrics * samplers :=
  let '(load1, load5, load15) := readLoadAvg ParseFloat (loadavg src) in
  let '(rx, tx) := readNetDev (netdev src) in
  let '(speed, net) := netSpeed rx tx now (net_prev s) in
  let '(cpu, cpu') := readCPUPercent load1 cpuCount (procstat src) (cpu_prev s) in
  (mkMetrics now (load1, load5, load15) (readMemory (meminfo src) (heap src)) (readDisk (disk src)) (rx, tx) speed (readUptime ParseFloat (uptime src)) cpu, mkSamplers net cpu').
End Metrics.

(** * Properties *)
Module HostFactsProps.
Import NetIP.

Section Discover.
Import IpDiscover.
Context (ParseIP_ : string -> option IP) (IPString : IP -> string).
Definition usable (wantV4 : bool) (s : string) : Prop := exists raw ip, ParseIP_ raw = Some ip /\ is4 ip = wantV4 /\ routable ip = true /\ s = IPString ip.
Lemma normalize_usable s v4 : let r := normalize ParseIP_ IPString s v4 in r = ""%string \/ usable v4 r.
Proof.
  unfold normalize. destruct (ParseIP_ s) as [ip|] eqn:E; [|by left]. destruct (Bool.eqb (is4 ip) v4) eqn:Ef; [|by left]. destruct (routable ip) eqn:Er; [|by left].
  right. exists s, ip. by rewrite (eqb_prop _ _ Ef).
Qed.
Lemma first_ip_usable lines v4 : let r := first_ip ParseIP_ IPString lines v4 in r = ""%string \/ usable v4 r.
Proof.
  induction lines as [|line lines IH]; [by left|]. simpl. destruct (String.eqb _ ""); [done|].
  set (arg := match cut_prefix _ _ with Some r => _ | None => _ end). destruct (normalize_usable arg v4) as [H|H]; [by rewrite H|].
  destruct (String.eqb _ ""); [done|by right].
Qed.
(** No address is made up: what a resolver's answer gives is an address of the
    asked family that is routable, or nothing. *)
Lemma public_usable answer resolvers v4 : let r := PublicIP ParseIP_ IPString answer resolvers v4 in r = ""%string \/ usable v4 r.
Proof.
  assert (Hf : forall url, fetchIP ParseIP_ IPString answer url v4 = ""%string \/ usable v4 (fetchIP ParseIP_ IPString answer url v4)).
  { intros url. unfold fetchIP. destruct (answer url) as [[status body]|]; [|by left]. destruct (negb (status =? 200)); [by left|apply first_ip_usable]. }
  induction resolvers as [|url resolvers IH]; [by left|]. simpl. destruct (String.eqb_spec (fetchIP ParseIP_ IPString answer url v4) ""); [done|]. destruct (Hf url); [done|by right].
Qed.
(** The internal addresses, one of each family. *)
Definition local_of (four : bool) (s : string) : Prop :=
  s = ""%string \/ exists ip, is4 ip = four /\ IsLoopback ip = false /\ IsUnspecified ip = false /\ IsLinkLocalUnicast ip = false /\ s = IPString ip.
Lemma internal_addresses ifaces : let r := selectInternal IPString ifaces in local_of true r.1 /\ local_of false r.2.
Proof.
  unfold selectInternal. assert (H0 : local_of true (("", "")%string : string * string).1 /\ local_of false (("", "")%string : string * string).2) by (split; by left).
  revert H0. generalize (("", "")%string : string * string). induction ifaces as [|i ifaces IH]; intros acc H; [done|]. cbn [select_from]. destruct (skipIface (if_name i)); [by apply IH|]. cbv zeta.
  assert (H' : local_of true (foldl (internal_step IPString) acc (if_addrs i)).1 /\ local_of false (foldl (internal_step IPString) acc (if_addrs i)).2).
  { revert acc H. induction (if_addrs i) as [|ip l IHl]; intros acc [H4 H6]; [done|]. cbn [foldl]. apply IHl. unfold internal_step.
    destruct (IsLoopback ip) eqn:E1; [done|]. destruct (IsLinkLocalUnicast ip) eqn:E2; [done|]. destruct (IsLinkLocalMulticast ip); [done|]. destruct (IsUnspecified ip) eqn:E3; [done|].
    cbn [orb]. destruct (is4 ip) eqn:E4.
    - destruct (String.eqb acc.1 ""); [|done]. split; [right; exists ip; done|done].
    - destruct (String.eqb acc.2 ""); [|done]. split; [done|right; by exists ip]. }
  destruct (negb _ && negb _); [done|by apply IH].
Qed.
End Discover.

Import Metrics.
(** A percentage is between 0 and 100. *)
Lemma clamp_range v : SFltb (clampPercent v) fzero = false /\ SFltb hundred (clampPercent v) = false.
Proof. unfold clampPercent. destruct (SFltb v fzero) eqn:E; [by vm_compute|]. destruct (SFltb hundred v) eqn:E'; [by vm_compute|done]. Qed.
Lemma cpu_range load1 n stat prev : let p := (readCPUPercent load1 n stat prev).1 in SFltb p fzero = false /\ SFltb hundred p = false.
Proof.
  assert (Hf : forall l, SFltb (cpuLoadFallback l n) fzero = false /\ SFltb hundred (cpuLoadFallback l n) = false).
  { intros l. unfold cpuLoadFallback. destruct (_ || _); [by vm_compute|apply clamp_range]. }
  unfold readCPUPercent. destruct (readProcStat stat) as [[t i]|]; [|apply Hf]. destruct prev as [p|]; [|apply Hf]. unfold cpuBusy. cbn [fst].
  destruct (SFleb _ _); [by vm_compute|apply clamp_range].
Qed.
(** A counter that went back reads as no traffic. *)
Lemma reset_is_zero rx tx now p : rx < prevRx p -> tx < prevTx p -> (netSpeed rx tx now (Some p)).1 = (fzero, fzero).
Proof.
  intros H1 H2. simpl. unfold netRate. destruct (SFleb _ _); [done|]. by rewrite (proj2 (Z.leb_gt _ _) H1), (proj2 (Z.leb_gt _ _) H2).
Qed.
Lemma disk_used st : (readDisk st).1 <= (readDisk st).2.
Proof.
  destruct st as [s|]; [unfold readDisk; cbv zeta; cbn [fst snd]|done]. pose proof (u64_range (Bavail s * u64 (Bsize s))). pose proof (u64_range (Blocks s * u64 (Bsize s))).
  destruct (Z.ltb_spec (u64 (Bavail s * u64 (Bsize s))) (u64 (Blocks s * u64 (Bsize s)))); lia.
Qed.
End HostFactsProps.

(** * Examples *)
Module HostFactsSample.
Import NetIP.
Example address_classes :
  map IsLoopback [ip4 127 0 0 1; 1; ip4 128 0 0 1] = [true; true; false] /\ map IsPrivate [ip4 10 1 2 3; ip4 172 31 0 1; ip4 172 32 0 1; ip4 192 168 0 1; Z.shiftl 0xfd 120] = [true; true; false; true; true] /\
  map IsGlobalUnicast [ip4 255 255 255 255; ip4 8 8 8 8; ip4 224 0 0 1; ip4 169 254 1 1; Z.shiftl 0xfe80 112; Z.shiftl 0x2606 112] = [false; true; false; false; false; true].
Proof. vm_compute. done. Qed.
(** Shared address space counts as public here. *)
Example shared_space_routable : IpDiscover.routable (ip4 100 64 0 1) = true.
Proof. reflexivity. Qed.
Definition parse (s : string) : option IP := if String.eqb s "8.8.8.8" then Some (ip4 8 8 8 8) else if String.eqb s "10.0.0.1" then Some (ip4 10 0 0 1) else None.
Definition print (ip : IP) : string := if Z.eqb ip (ip4 8 8 8 8) then "8.8.8.8" else "10.0.0.1".
Definition lines (l : list string) : string := foldr (fun s acc => s +:+ String (byte_of 10) acc)%string ""%string l.
Example trace_read : IpDiscover.ParseIP parse print (lines ["fl=1"; "ip=10.0.0.1"; " ip= 8.8.8.8"]%string) true = "8.8.8.8"%string.
Proof. vm_compute. reflexivity. Qed.
Example internal : IpDiscover.InternalIPs print (Some [IpDiscover.mkNetIface "wg0" true false (Some [ip4 10 0 0 9]); IpDiscover.mkNetIface "eth0" true false (Some [ip4 10 0 0 1])]) = ("10.0.0.1", "")%string.
Proof. vm_compute. reflexivity. Qed.
Example files_read : MachineFacts.parseOSRelease (lines ["# x"; "ID=debian"; "VERSION_ID='12'"]%string) = ("debian", "12")%string /\
  MachineFacts.parseMeminfo (lines ["MemTotal: 2 kB"; "SwapTotal: x kB"]%string) = (2048, 0) /\ MachineFacts.firstCPUModel (lines ["a"; "model name : X 1 "]%string) = "X 1"%string.
Proof. vm_compute. done. Qed.
Example stat_read : Metrics.readProcStat (Some ["cpu0 1 2"; "cpu  1 2 3 40 5 6"]%string) = Some (57, 45).
Proof. vm_compute. reflexivity. Qed.
(** Half of two hundred jiffies were idle; idle time that goes back reads as
    an idle machine. *)
Example busy : Metrics.cpuBusy 100 50 300 150 = f64_of 50 /\ Metrics.cpuBusy 100 50 300 40 = Metrics.fzero.
Proof. vm_compute. done. Qed.
Example net_read : Metrics.readNetDev (Some ["Inter-| Receive"; "lo: 9 0 0 0 0 0 0 0 9 0 0 0 0 0 0 0"; "eth0: 5 0 0 0 0 0 0 0 7 0 0 0 0 0 0 0"]%string) = (5, 7).
Proof. vm_compute. reflexivity. Qed.
End HostFactsSample.
