(* ===== verification/AgentNode.v ===== *)
(** * The agent's node (cmd/lattice-agent: main.go, sbcaps.go, http_error.go; internal/singboxdiscover/caps.go)

    The addresses reported, the settings the server overrides, the debug lines,
    the monitors' goroutines, the firewall's named sets, the checks at start-up,
    the script's capabilities and the text of a refused request.  Addresses are
    those of HostFacts; the network, commands and decoders are arguments. *)
From S2P Require Import Prelude GoStrings GoUtf8 GoPath GoSha256 HostFacts Terminal Keepalive.
From Stdlib Require Import Ascii.
From stdpp Require Import gmap strings.
From stdpp Require sorting.

Local Open Scope Z_scope.

(** ** Settings *)
Module NodeConfig.

Definition defaultDebugMaxLineBytes : Z := 4096.
Definition defaultDebugMaxBatchLines : Z := 100.
Definition debugSinkMaxLines : Z := 1000.
Record agentConfig := mkConfig {
  LocalDebug : bool; ServerDebug : bool; Debug : bool; DebugCollect : bool; DebugMaxLineBytes : Z; DebugMaxBatchLines : Z; LatticeIdentityUUID : string;
  IPMode : string; IPResolvers : string; staticPublicIP : string; staticPublicIPv6 : string; ipScript : string;
  startupIPMode : string; startupIPResolvers : string; startupStaticPubV4 : string; startupStaticPubV6 : string; startupIPScript : string;
  PublicIP : string; PublicIPv6 : string; InternalIP : string; InternalIPv6 : string }.
#[global] Instance eta_agentConfig : Etable agentConfig := fun x => mkConfig (LocalDebug x) (ServerDebug x) (Debug x) (DebugCollect x) (DebugMaxLineBytes x)
  (DebugMaxBatchLines x) (LatticeIdentityUUID x) (IPMode x) (IPResolvers x) (staticPublicIP x) (staticPublicIPv6 x) (ipScript x) (startupIPMode x)
  (startupIPResolvers x) (startupStaticPubV4 x) (startupStaticPubV6 x) (startupIPScript x) (PublicIP x) (PublicIPv6 x) (InternalIP x) (InternalIPv6 x).
(** The flags of addresses are kept before anything overrides them. *)
Definition keep_startup (c : agentConfig) : agentConfig :=
  let c := c <| staticPublicIP := PublicIP c |> <| staticPublicIPv6 := PublicIPv6 c |> in
  c <| startupIPMode := IPMode c |> <| startupIPResolvers := IPResolvers c |> <| startupStaticPubV4 := staticPublicIP c |>
    <| startupStaticPubV6 := staticPublicIPv6 c |> <| startupIPScript := ipScript c |>.
(** No setting that a probe depends on differs. *)
Definition same_ip_settings (a b : agentConfig) : bool :=
  String.eqb (IPMode a) (IPMode b) && String.eqb (IPResolvers a) (IPResolvers b) && String.eqb (staticPublicIP a) (staticPublicIP b) &&
  String.eqb (staticPublicIPv6 a) (staticPublicIPv6 b) && String.eqb (ipScript a) (ipScript b).
Record NodeIPConfig := mkIP { ip_Mode : string; ip_StaticIPv4 : string; ip_StaticIPv6 : string; ip_Resolvers : list string; ip_Script : string }.
Definition join (sep : string) (l : list string) : string := match l with [] => ""%string | x :: l => foldl (fun acc y => acc +:+ sep +:+ y)%string x l end.
(** The settings, and when the resolvers were last asked (the zero time for
    never). *)
Definition applyIPConfigOverride (ipc : option NodeIPConfig) (c : agentConfig) (lastPublicProbe : time) : agentConfig * time :=
  let c' :=
    match ipc with
    | Some i =>
        if negb (String.eqb (trim_space (ip_Mode i)) "") then
          c <| IPMode := lower (trim_space (ip_Mode i)) |> <| staticPublicIP := trim_space (ip_StaticIPv4 i) |>
            <| staticPublicIPv6 := trim_space (ip_StaticIPv6 i) |> <| IPResolvers := join "," (ip_Resolvers i) |> <| ipScript := ip_Script i |>
        else
          c <| IPMode := startupIPMode c |> <| staticPublicIP := startupStaticPubV4 c |> <| staticPublicIPv6 := startupStaticPubV6 c |>
            <| IPResolvers := startupIPResolvers c |> <| ipScript := startupIPScript c |>
    | None =>
        c <| IPMode := startupIPMode c |> <| staticPublicIP := startupStaticPubV4 c |> <| staticPublicIPv6 := startupStaticPubV6 c |>
          <| IPResolvers := startupIPResolvers c |> <| ipScript := startupIPScript c |>
    end in
  (c', if same_ip_settings c' c then lastPublicProbe else 0).
End NodeConfig.

(** ** Debug lines *)
Module DebugSink.
Import NodeConfig.

Record debugSink := mkSink { maxLines : Z; lines : list string }.
Definition newDebugSink (max : Z) : debugSink := mkSink (if max <=? 0 then debugSinkMaxLines else max) [].
Definition strip_eol (s : string) : option string :=
  match cut_suffix s (String (byte_of 13) "") with Some t => Some t | None => cut_suffix s (String (byte_of 10) "") end.
Definition clamp_line (line : string) (maxBytes : Z) : string :=
  let maxBytes := if maxBytes <=? 0 then defaultDebugMaxLineBytes else maxBytes in
  let line := if maxBytes <? Z.of_nat (String.length line) then (str_take (Z.to_nat maxBytes) line +:+ "...truncated")%string else line in
  strip_all strip_eol (String.length line) line.
(** The last [max] of them. *)
Definition keep_last (max : Z) (l : list string) : list string := drop (Z.to_nat (Z.of_nat (length l) - max)) l.
Definition append (line : string) (maxBytes : Z) (s : debugSink) : debugSink :=
  let line := clamp_line line maxBytes in
  if String.eqb line "" then s else mkSink (maxLines s) (keep_last (maxLines s) (lines s ++ [line])).
Definition drain (max : Z) (s : debugSink) : list string * debugSink :=
  let max := if max <=? 0 then defaultDebugMaxBatchLines else max in
  let n := Z.to_nat (Z.min (Z.of_nat (length (lines s))) max) in
  (take n (lines s), mkSink (maxLines s) (drop n (lines s))).
Definition prepend (l : list string) (s : debugSink) : debugSink :=
  match l with [] => s | _ => mkSink (maxLines s) (keep_last (maxLines s) (l ++ lines s)) end.
Definition clear (s : debugSink) : debugSink := mkSink (maxLines s) [].
Definition debugf (msg : string) (c : agentConfig) (s : debugSink) : debugSink :=
  if Debug c && DebugCollect c then append msg (DebugMaxLineBytes c) s else s.
(** [during] are the lines appended while the batch is posted. *)
Definition flushDebugEvents (post : list string -> option string) (during : list (string * Z)) (c : agentConfig) (s : debugSink) : debugSink * option string :=
  if negb (DebugCollect c) then (s, None)
  else
    let (batch, s) := drain (DebugMaxBatchLines c) s in
    match batch with
    | [] => (s, None)
    | _ =>
        let s := foldl (fun s l => append l.1 l.2 s) s during in
        match post batch with None => (s, None) | Some e => (prepend batch s, Some e) end
    end.
End DebugSink.

Module RemoteConfig.
Import NodeConfig DebugSink.

Record AgentConfig := mkRemote {
  DebugEnabled : bool; DebugCollect_ : bool; MaxLineBytes : Z; MaxBatchLines : Z; TerminalTransport : string; Identity : string; IPConfig : option NodeIPConfig }.
Record node := mkNode { cfg : agentConfig; sink : debugSink; override : option string; lastPublicProbe : time }.
(** The server's settings for this node; the beacon's part is the beacon's. *)
Definition applyAgentConfig (remote : AgentConfig) (n : node) : node :=
  let c := cfg n in
  let c := c <| ServerDebug := DebugEnabled remote |> <| DebugCollect := DebugEnabled remote && DebugCollect_ remote |> <| Debug := LocalDebug c || DebugEnabled remote |>
    <| DebugMaxLineBytes := if MaxLineBytes remote <=? 0 then defaultDebugMaxLineBytes else MaxLineBytes remote |>
    <| DebugMaxBatchLines := if MaxBatchLines remote <=? 0 then defaultDebugMaxBatchLines else MaxBatchLines remote |> in
  let s := if negb (DebugCollect c) then clear (sink n) else sink n in
  let o := Terminal.setTerminalTransportOverride (lower (trim_space (TerminalTransport remote))) in
  let identity := trim_space (Identity remote) in
  let c := if String.eqb identity "" then c else c <| LatticeIdentityUUID := identity |> in
  let (c, last) := applyIPConfigOverride (IPConfig remote) c (lastPublicProbe n) in
  mkNode c s o last.
End RemoteConfig.

(** ** The addresses reported *)
Module NodeAddresses.
Import NetIP NodeConfig.

(** Prefixes that are global unicast but not public. *)
Definition blockedPublicIPPrefixes : list (IP -> bool) :=
  [ (fun ip => is4 ip && (top4 10 ip =? 0x191)); (fun ip => is4 ip && (top4 24 ip =? 0xc00002)); (fun ip => is4 ip && (top4 15 ip =? 0x6309));
    (fun ip => is4 ip && (top4 24 ip =? 0xc63364)); (fun ip => is4 ip && (top4 24 ip =? 0xcb0071)); (fun ip => negb (is4 ip) && (top 32 ip =? 0x20010db8)) ].
Definition isPublicIP (ip : option IP) : bool :=
  match ip with
  | None => false
  | Some ip =>
      if negb (IsGlobalUnicast ip) || IsPrivate ip || IsLoopback ip || IsLinkLocalUnicast ip || IsLinkLocalMulticast ip || IsMulticast ip || IsUnspecified ip then false
      else negb (existsb (fun p => p ip) blockedPublicIPPrefixes)
  end.
Definition cut_byte (s : string) : option string :=
  match s with String c t => if bool_decide (c ∈ map byte_of [32; 9; 13; 10; 44; 59]) then Some t else None | _ => None end.
Definition cut_end_byte (s : string) : option string :=
  match last_byte s with Some c => if bool_decide (c ∈ map byte_of [32; 9; 13; 10; 44; 59]) then cut_suffix s (String c "") else None | None => None end.
Definition trim_list (s : string) : string := let s := strip_all cut_byte (String.length s) s in strip_all cut_end_byte (String.length s) s.
Definition splitComma (s : string) : list string := List.filter (fun p => negb (String.eqb p "")) (map trim_space (split_byte "," "" s)).
Definition resolverList (custom : string) (v4 : bool) : list string :=
  match splitComma custom with [] => if v4 then IpDiscover.DefaultResolversV4 else IpDiscover.DefaultResolversV6 | l => l end.
Definition firstNonEmpty (a b : string) : string := if String.eqb (trim_space a) "" then b else a.
Definition ipDiscoveryInterpreter (script : string) : string :=
  if contains (match cut script (String (byte_of 10) "") with Some (l, _) => l | None => script end) "bash" then "bash" else "sh".
(** What the task runner answers. *)
Record script_result := mkScript { ExitCode : Z; Error : string; Stdout : string; Stderr : string }.

Section Addresses.
Context (ParseIP_ : string -> option IP) (IPString : IP -> string).
Fixpoint discovery_fields (l : list string) (v4 v6 : string) : string * string :=
  match l with
  | [] => (v4, v6)
  | f :: l =>
      let ip := ParseIP_ (trim_list f) in
      if negb (isPublicIP ip) then discovery_fields l v4 v6
      else
        match ip with
        | None => discovery_fields l v4 v6
        | Some ip =>
            let '(v4, v6) := if is4 ip then (if String.eqb v4 "" then IPString ip else v4, v6) else (v4, if String.eqb v6 "" then IPString ip else v6) in
            if negb (String.eqb v4 "") && negb (String.eqb v6 "") then (v4, v6) else discovery_fields l v4 v6
        end
  end.
Definition parseIPDiscoveryOutput (output : string) : string * string := discovery_fields (fields output) "" "".
Definition runIPDiscoveryScript (run : string -> string -> script_result) (c : agentConfig) : string + string * string :=
  let script := trim_space (ipScript c) in
  if String.eqb script "" then inl "script mode has no script configured"%string
  else
    let r := run (ipDiscoveryInterpreter script) script in
    if negb (ExitCode r =? 0) || negb (String.eqb (Error r) "") then
      let msg := trim_space (Error r) in
      let msg := if String.eqb msg "" then trim_space (Stderr r) else msg in
      inl (if String.eqb msg "" then ("exit code " +:+ itoa (ExitCode r))%string else msg)
    else
      let (v4, v6) := parseIPDiscoveryOutput (Stdout r) in
      if String.eqb v4 "" && String.eqb v6 "" then inl "script did not return a public IPv4 or IPv6 address"%string else inr (v4, v6).
(** What the host and the resolvers answer now. *)
Record outside := mkOutside { o_interfaces : option (list IpDiscover.iface); o_answer : string -> option (Z * string); o_run : string -> string -> script_result }.
Definition probe_pair (o : outside) (c : agentConfig) : string * string :=
  (IpDiscover.PublicIP ParseIP_ IPString (o_answer o) (resolverList (IPResolvers c) true) true,
   IpDiscover.PublicIP ParseIP_ IPString (o_answer o) (resolverList (IPResolvers c) false) false).
Definition set_public (p : string * string) (c : agentConfig) : agentConfig := c <| PublicIP := p.1 |> <| PublicIPv6 := p.2 |>.
Definition set_internal (p : string * string) (c : agentConfig) : agentConfig := c <| InternalIP := p.1 |> <| InternalIPv6 := p.2 |>.
Definition refreshIPs (o : outside) (now : time) (c : agentConfig) (last : time) : agentConfig * time :=
  let c := set_internal (IpDiscover.InternalIPs IPString (o_interfaces o)) c in
  let mode := lower (trim_space (IPMode c)) in
  if String.eqb mode "static" then (set_public (staticPublicIP c, staticPublicIPv6 c) c, last)
  else if negb (is_zero_time last) && (now - last <? 2 * minute) then (c, last)
  else if String.eqb mode "script" then
    (match runIPDiscoveryScript (o_run o) c with inl _ => c | inr p => set_public p c end, now)
  else
    let p := probe_pair o c in
    if String.eqb mode "resolver" then (set_public p c, now)
    else (set_public (firstNonEmpty (staticPublicIP c) p.1, firstNonEmpty (staticPublicIPv6 c) p.2) c, now).
End Addresses.
End NodeAddresses.

(** ** Monitors: one goroutine each *)
Module Monitors.
Section Monitors.
Context {Header : Type} `{EqDecision Header}.
Record Monitor := mkMonitor {
  ID : string; Type_ : string; Target : string; TargetNode : string; IntervalSec : Z; TimeoutSec : Z; Packets : Z; ExpectStatus : Z; SecretsOrigin : string;
  Headers : list Header; DNSName : string; DNSType : string; DNSExpectRcode : string; DNSExpect : list string }.
#[global] Instance monitor_eq_dec : EqDecision Monitor. Proof. solve_decision. Defined.
Definition monitorChanged (a b : Monitor) : bool :=
  negb (String.eqb (Type_ a) (Type_ b) && String.eqb (Target a) (Target b) && String.eqb (TargetNode a) (TargetNode b) && (IntervalSec a =? IntervalSec b) &&
    (TimeoutSec a =? TimeoutSec b) && (Packets a =? Packets b) && (ExpectStatus a =? ExpectStatus b) && String.eqb (SecretsOrigin a) (SecretsOrigin b) &&
    bool_decide (Headers a = Headers b) && String.eqb (DNSName a) (DNSName b) && String.eqb (DNSType a) (DNSType b) &&
    String.eqb (DNSExpectRcode a) (DNSExpectRcode b) && bool_decide (DNSExpect a = DNSExpect b)).
(** A goroutine is a number; [cancelled] are those told to stop. *)
Record monitorEntry := mkEntry { goroutine : nat; spec : Monitor }.
#[global] Instance entry_eq_dec : EqDecision monitorEntry. Proof. solve_decision. Defined.
Record monitorManager := mkManager { active : gmap string monitorEntry; cancelled : gset nat; next : nat }.
Definition newMonitorManager : monitorManager := mkManager ∅ ∅ 0.
Definition desired_of (monitors : list Monitor) : gmap string Monitor := foldl (fun m x => <[ID x := x]> m) ∅ monitors.
Definition stays (desired : gmap string Monitor) (id : string) (e : monitorEntry) : bool :=
  match desired !! id with Some d => negb (monitorChanged (spec e) d) | None => false end.
Definition start_one (s : monitorManager) (kv : string * Monitor) : monitorManager :=
  match active s !! kv.1 with
  | Some _ => s
  | None => mkManager (<[kv.1 := mkEntry (next s) kv.2]> (active s)) (cancelled s) (S (next s))
  end.
Definition stop_one (desired : gmap string Monitor) (s : monitorManager) (kv : string * monitorEntry) : monitorManager :=
  if stays desired kv.1 kv.2 then s else mkManager (delete kv.1 (active s)) ({[goroutine kv.2]} ∪ cancelled s) (next s).
Definition reconcile (monitors : list Monitor) (s : monitorManager) : monitorManager :=
  let desired := desired_of monitors in
  let s := foldl (stop_one desired) s (map_to_list (active s)) in
  foldl start_one s (map_to_list desired).
(** The time between two probes. *)
Definition run_interval (m : Monitor) : duration := let i := i64 (IntervalSec m * second) in if i <? second then 30 * second else i.
End Monitors.
#[global] Arguments Monitor : clear implicits.
#[global] Arguments monitorEntry : clear implicits.
#[global] Arguments monitorManager : clear implicits.
End Monitors.

(** ** The firewall's named sets (-update-nft-domain-set) *)
Module NftSet.
Import NetIP.

Definition is_word (c : ascii) : bool := is_digit c || ((65 <=? byte_val c) && (byte_val c <=? 90)) || ((97 <=? byte_val c) && (byte_val c <=? 122)) || (byte_val c =? 95).
Definition nftIdent (s : string) : bool :=
  match s with String c t => is_word c && negb (is_digit c) && str_forall is_word t && (String.length t <=? 63)%nat | _ => false end.
Definition is_alnum (c : ascii) : bool := is_digit c || ((97 <=? byte_val c) && (byte_val c <=? 122)).
(** One label of a host name: it begins and ends with a letter or digit. *)
Definition label_ok (s : string) : bool :=
  match s with
  | String c t => is_alnum c && str_forall (fun c => is_alnum c || (byte_val c =? 45)) t && match last_byte s with Some d => is_alnum d | None => false end && (String.length s <=? 63)%nat
  | _ => false
  end.
Definition dnsHost (s : string) : bool := forallb label_ok (split_byte "." "" s).
Record nftDomainSetConfig := mkSet { Host : string; Family : string; Table : string; Set_ : string; Set6 : string }.
Inductive set_error :=
  | InvalidHost (host : string) | BadFamily (family : string) | NoSet | Set6NeedsInet | Set4NeedsInet | BadTable (name : string) | BadSet (name : string)
  | LookupFailed (text : string) | NoRecords (host : string) | NoA (host : string) | NoAAAA (host : string) | CommandFailed (text : string).
Definition normalizeNFTDomainHost (host : string) : set_error + string :=
  let host := lower (trim_suffix (trim_space host) ".") in
  if String.eqb host "" || (253 <? String.length host)%nat || negb (dnsHost host) then inl (InvalidHost host)
  else if existsb (fun l => (63 <? String.length l)%nat) (split_byte "." "" host) then inl (InvalidHost host) else inr host.
Definition validateNFTSetTarget (c : nftDomainSetConfig) : option set_error :=
  if negb (bool_decide (Family c ∈ ["inet"; "ip"; "ip6"]%string)) then Some (BadFamily (Family c))
  else if String.eqb (Set_ c) "" && String.eqb (Set6 c) "" then Some NoSet
  else if String.eqb (Family c) "ip" && negb (String.eqb (Set6 c) "") then Some Set6NeedsInet
  else if String.eqb (Family c) "ip6" && negb (String.eqb (Set_ c) "") then Some Set4NeedsInet
  else if negb (nftIdent (Table c)) then Some (BadTable (Table c))
  else if negb (String.eqb (Set_ c) "") && negb (nftIdent (Set_ c)) then Some (BadSet (Set_ c))
  else if negb (String.eqb (Set6 c) "") && negb (nftIdent (Set6 c)) then Some (BadSet (Set6 c))
  else None.

Section Sets.
Context (ParseIP_ : string -> option IP) (IPString : IP -> string).
(** The canonical text of an address of the version asked. *)
Definition canonical (v4 : bool) (value : string) : option string :=
  match ParseIP_ (trim_space value) with
  | Some ip => if Bool.eqb (is4 ip) v4 then Some (IPString ip) else None
  | None => None
  end.
Definition unique_step (v4 : bool) (out : list string) (value : string) : list string :=
  match canonical v4 value with
  | Some s => if bool_decide (s ∈ out) then out else out ++ [s]
  | None => out
  end.
Definition ip_leb (a b : string) : bool :=
  match ParseIP_ a, ParseIP_ b with None, _ => true | Some _, None => false | Some x, Some y => x <=? y end.
Definition uniqueSortedIPs (values : list string) (v4 : bool) : list string := insertion_sort ip_leb (foldl (unique_step v4) [] values).
Definition join (l : list string) : string := NodeConfig.join ", " l.
(** The commands of one set; each is given to nft only after the one before
    succeeded. *)
Definition set_commands (family table set : string) (addrs : list string) : list (list string) :=
  ["flush"; "set"; family; table; set]%string :: match addrs with [] => [] | _ => [["add"; "element"; family; table; set; "{ " +:+ join addrs +:+ " }"]%string] end.
(** The commands given to nft, and the first failure. *)
Fixpoint run_commands (runner : list string -> option string) (cmds : list (list string)) : list (list string) * option set_error :=
  match cmds with
  | [] => ([], None)
  | c :: cmds =>
      match runner c with
      | Some e => ([c], Some (CommandFailed e))
      | None => let (done, err) := run_commands runner cmds in (c :: done, err)
      end
  end.
Definition updateNFTSet (runner : list string -> option string) (family table set : string) (addrs : list string) : list (list string) * option set_error :=
  run_commands runner (set_commands family table set addrs).
Definition no_records (c : nftDomainSetConfig) (host : string) (v4 v6 : list string) : option set_error :=
  if negb (String.eqb (Set_ c) "") && negb (String.eqb (Set6 c) "") then
    match v4, v6 with [], [] => Some (NoRecords host) | _, _ => None end
  else if negb (String.eqb (Set_ c) "") then match v4 with [] => Some (NoA host) | _ => None end
  else if negb (String.eqb (Set6 c) "") then match v6 with [] => Some (NoAAAA host) | _ => None end
  else None.
Definition updateNFTDomainSet (resolver : string -> string + list string) (runner : list string -> option string) (c : nftDomainSetConfig) :
    list (list string) * option set_error :=
  match normalizeNFTDomainHost (Host c) with
  | inl e => ([], Some e)
  | inr host =>
      match validateNFTSetTarget c with
      | Some e => ([], Some e)
      | None =>
          match resolver host with
          | inl e => ([], Some (LookupFailed e))
          | inr addrs =>
              let ipv4 := uniqueSortedIPs addrs true in
              let ipv6 := uniqueSortedIPs addrs false in
              match no_records c host ipv4 ipv6 with
              | Some e => ([], Some e)
              | None =>
                  let (done4, err) := if String.eqb (Set_ c) "" then ([], None) else updateNFTSet runner (Family c) (Table c) (Set_ c) ipv4 in
                  match err with
                  | Some e => (done4, Some e)
                  | None =>
                      let (done6, err) := if String.eqb (Set6 c) "" then ([], None) else updateNFTSet runner (Family c) (Table c) (Set6 c) ipv6 in
                      (done4 ++ done6, err)
                  end
              end
          end
      end
  end.
End Sets.
End NftSet.

(** ** Start-up *)
Module Startup.
Import NetIP.

(** A veto of the environment fails closed. *)
Definition envVeto (value : string) : bool := negb (bool_decide (lower (trim_space value) ∈ [""; "0"; "false"; "no"; "off"]%string)).
Definition env (value fallback : string) : string := if String.eqb value "" then fallback else value.
Definition envInt (value : string) : Z := if String.eqb value "" then 0 else default 0 (atoi value).
Definition envDuration (value : string) (fallback : duration) : duration := if String.eqb value "" then fallback else default fallback (parse_duration value).
(** The switches of execution: the kill switch first, and a root agent's
    terminal needs consent. *)
Record switches := mkSwitches { AllowExec : bool; AllowRoot : bool; NoExec : bool; AllowTerminal : bool }.
Definition kill_switch (s : switches) : switches := if NoExec s then mkSwitches false (AllowRoot s) (NoExec s) false else s.
Definition terminal_gate (euid : Z) (s : switches) : switches :=
  if AllowTerminal s && (euid =? 0) && negb (AllowRoot s) then mkSwitches (AllowExec s) (AllowRoot s) (NoExec s) false else s.
Definition CanRunUpdate (root : bool) (s : switches) : bool := AllowExec s && (negb root || AllowRoot s).
Definition settle_transport (startup : string) : string :=
  if String.eqb (lower (trim_space startup)) Terminal.terminalTransportStream then Terminal.terminalTransportStream else Terminal.terminalTransportPoll.
Inductive transport_error := InvalidURL (text : string) | Cleartext | UnsupportedScheme (scheme : string).
Section Transport.
Context (ParseIP_ : string -> option IP).
Definition isLoopbackHost (host : string) : bool := if String.eqb host "localhost" then true else match ParseIP_ host with Some ip => IsLoopback ip | None => false end.
(** [parse] is url.Parse: the scheme and the host's name. *)
Definition checkServerTransport (parse : string -> string + string * string) (rawURL : string) (allowInsecure : bool) : option transport_error :=
  match parse rawURL with
  | inl e => Some (InvalidURL e)
  | inr (scheme, hostname) =>
      if String.eqb scheme "https" then None
      else if String.eqb scheme "http" then if isLoopbackHost hostname then None else if allowInsecure then None else Some Cleartext
      else Some (UnsupportedScheme scheme)
  end.
End Transport.
(** Where the journals are; the cache directory is asked for only when nothing
    is configured. *)
Definition base_dir (first LogStateDir : string) (cache : string + string) : string + string :=
  if negb (String.eqb (trim_space first) "") then inr (trim_space first)
  else if negb (String.eqb (trim_space LogStateDir) "") then inr (trim_space LogStateDir)
  else match cache with inl e => inl e | inr d => inr (path_join d "lattice-agent") end.
Definition nul : ascii := byte_of 0.
Definition taskResultOutboxDir (TaskOutboxDir LogStateDir Server NodeID : string) (cache : string + string) : string + string :=
  match base_dir TaskOutboxDir LogStateDir cache with
  | inl e => inl e
  | inr base => inr (path_join (path_join base "task-outbox") (Sha256.hex (Sha256.Sum256 (Server +:+ String nul NodeID))))
  end.
Definition linechainTransactionDir (LinechainTxnDir LogStateDir : string) (cache : string + string) : string + string :=
  match (if String.eqb (trim_space LinechainTxnDir) "" then
           match base_dir "" LogStateDir cache with inl e => inl e | inr base => inr (path_join base "linechain-txn") end
         else inr (trim_space LinechainTxnDir)) with
  | inl e => inl e
  | inr dir =>
      let dir := path_clean dir in
      if negb (path_abs dir) || String.eqb dir "/" then inl "linechain transaction directory must be absolute and non-root"%string else inr dir
  end.
Definition journalSSHArgs : list string := ["-f"; "-n"; "0"; "-o"; "cat"; "_COMM=sshd"; "+"; "_COMM=sshd-session"]%string.
Definition authLogPaths : list string := ["/var/log/auth.log"; "/var/log/secure"]%string.
Definition sshLogSource (lookPath : string -> option string) (exists_ : string -> bool) : option (string * list string) :=
  match lookPath "journalctl"%string with
  | Some path => Some (path, journalSSHArgs)
  | None =>
      match lookPath "tail"%string with
      | None => None
      | Some tail => (fun p => (tail, ["-n"; "0"; "-F"; p]%string)) <$> List.find exists_ authLogPaths
      end
  end.
(** The hash printed by -guard-managed-sha. *)
Definition guardManagedSHA (s : string) : bool := (String.length s =? 64)%nat && str_forall Sha256.is_hex s.
Definition writeGuardManagedSHA (collected : string + string) : string + string :=
  match collected with
  | inl e => inl e
  | inr sha => if guardManagedSHA sha then inr (sha +:+ String (byte_of 10) "")%string else inl "collector returned invalid managed table SHA"%string
  end.
End Startup.

(** ** The work loop *)
Module WorkLoop.

Definition steps : list string :=
  ["config"; "ip_refresh"; "usage"; "inventory"; "tasks"; "monitors"; "log_sources"; "trace"; "debug"; "guard_reality"]%string.
(** One cycle: the steps run, whether the health says recovery is blocked, and
    what each step did.  A step's failure is logged and the next one runs. *)
Definition cycle {S} (idle : bool) (recover : S -> S * option string) (step : string -> S -> S) (blocked : option string) (s : S) : list string * option string * S :=
  if idle then
    match recover s with
    | (s, Some e) => ([Keepalive.stepLinechainRecovery], Some e, s)
    | (s, None) => (Keepalive.stepLinechainRecovery :: steps, None, foldl (fun s name => step name s) s steps)
    end
  else (steps, blocked, foldl (fun s name => step name s) s steps).
End WorkLoop.

(** ** The script's capabilities (sbcaps.go, caps.go) *)
Module ScriptCaps.

Definition maxCapsNames : nat := 64.
Definition singBoxCapsInterval : duration := 10 * minute.
Definition singBoxCapPrefix : string := "sb:".
Definition knownSingBoxCaps : list string :=
  ["user-del-by-name"; "user-park"; "user-parked-list"; "user-open-proxy-guard"; "user-match-counts"; "user-socks-add"; "user-lock"]%string.
Inductive caps_error := NotObject (text : string) | NotOK | NoList | TooMany (n : nat) | RunFailed (text : string).
(** An element of the list that is not a string is None. *)
Definition cap_step (names : list string) (raw : option string) : list string :=
  match raw with
  | None => names
  | Some name => let name := trim_space name in if String.eqb name "" || bool_decide (name ∈ names) then names else names ++ [name]
  end.
Definition parseCaps (decode : string -> string + bool * option (list (option string))) (out : string) : caps_error + list string :=
  match decode (trim_space out) with
  | inl e => inl (NotObject e)
  | inr (ok, caps) =>
      if negb ok then inl NotOK
      else match caps with
           | None => inl NoList
           | Some l => if (maxCapsNames <? length l)%nat then inl (TooMany (length l)) else inr (foldl cap_step [] l)
           end
  end.
Definition Caps (decode : string -> string + bool * option (list (option string))) (run : duration -> string -> list string -> string + string)
    (Binary : string) (Timeout : duration) : caps_error + list string :=
  match run (if Timeout <=? 0 then 8 * second else Timeout) (if String.eqb (trim_space Binary) "" then "sb"%string else trim_space Binary) ["--json"; "caps"]%string with
  | inl e => inl (RunFailed e)
  | inr out => parseCaps decode out
  end.
Definition allow_step (out : list string) (name : string) : list string :=
  if negb (bool_decide (name ∈ knownSingBoxCaps)) then out
  else let p := (singBoxCapPrefix +:+ name)%string in if bool_decide (p ∈ out) then out else out ++ [p].
Definition allowedSingBoxCaps (names : list string) : list string := sort_strings (foldl allow_step [] names).
Record singBoxCapsProbe := mkProbe { checked : bool; checkedAt : time; binary : string; caps : list string }.
(** The capabilities the reports carry, and the probe's memory. *)
Definition refresh (discover : bool) (SingBoxBin : string) (probe : string -> caps_error + list string) (now : time) (p : singBoxCapsProbe) : list string * singBoxCapsProbe :=
  if negb discover then ([], mkProbe false 0 "" [])
  else if checked p && String.eqb (binary p) SingBoxBin && (now - checkedAt p <? singBoxCapsInterval) then (caps p, p)
  else
    let names := match probe SingBoxBin with inl _ => [] | inr names => names end in
    let caps := allowedSingBoxCaps names in
    (caps, mkProbe true now SingBoxBin caps).
Definition payloadCapabilities (agent script : list string) : list string := agent ++ script.
End ScriptCaps.

(** ** A refused request (http_error.go) *)
Module HttpError.

Definition agentHTTPErrorMaxBody : Z := Z.shiftl 64 10.
Definition agentHTTPErrorMaxSummary : nat := 512.
Record response := mkResponse { StatusCode : Z; Status : string; RequestID : string; ContentType : string; Body : option string }.
Record APIError := mkAPIError { Code : string; Message : string; api_RequestID : string }.
Record agentHTTPStatusError := mkError { statusCode : Z; text : string }.
Definition nul : ascii := byte_of 0.
Section Error.
Context (StatusText : Z -> string) (decode : string -> option APIError) (ParseMediaType : string -> option string).
Definition readAgentHTTPErrorBody (body : option string) : string * bool :=
  match body with
  | None => (""%string, false)
  | Some b => if agentHTTPErrorMaxBody <? Z.of_nat (String.length b) then (str_take (Z.to_nat agentHTTPErrorMaxBody) b, true) else (b, false)
  end.
Definition decodeAgentAPIError (body : string) : option APIError :=
  if String.eqb (trim_space body) "" then None
  else match decode body with Some e => if String.eqb (trim_space (Code e)) "" then None else Some e | None => None end.
Definition isAgentTextErrorBody (contentType body : string) : bool :=
  if String.eqb body "" || negb (ValidString body) || negb (no_byte nul body) then false
  else
    let mediaType := match ParseMediaType contentType with Some m => m | None => trim_space (lower contentType) end in
    String.eqb mediaType "" || String.eqb mediaType "text/plain".
Definition truncateAgentHTTPErrorSummary (summary : string) (alreadyTruncated : bool) : string :=
  if String.eqb summary "" then ""
  else
    let rs := map rune_text (pieces summary) in
    if (agentHTTPErrorMaxSummary <? length rs)%nat then concat_str (take agentHTTPErrorMaxSummary rs) +:+ "...truncated"
    else if alreadyTruncated then summary +:+ "...truncated" else summary.
Definition agentHTTPStatus (r : response) : string :=
  let text := trim_space (StatusText (StatusCode r)) in
  if String.eqb text "" then if negb (String.eqb (trim_space (Status r)) "") then trim_space (Status r) else itoa (StatusCode r)
  else itoa (StatusCode r) +:+ " " +:+ text.
Definition formatAgentHTTPError (operation : string) (r : response) (code message requestID : string) : string :=
  let part s := if String.eqb (trim_space s) "" then ""%string else (": " +:+ trim_space s)%string in
  (operation +:+ ": server returned " +:+ agentHTTPStatus r +:+ part code +:+ part message +:+
   if String.eqb (trim_space requestID) "" then "" else " (request_id=" +:+ trim_space requestID +:+ ")")%string.
Definition agentHTTPError (r : response) (operation : string) : agentHTTPStatusError :=
  let (body, truncated) := readAgentHTTPErrorBody (Body r) in
  let requestID := trim_space (RequestID r) in
  mkError (StatusCode r)
    (match decodeAgentAPIError body with
     | Some e =>
         let requestID := if String.eqb (trim_space (api_RequestID e)) "" then requestID else trim_space (api_RequestID e) in
         let message := if String.eqb (trim_space (Message e)) "" then StatusText (StatusCode r) else trim_space (Message e) in
         formatAgentHTTPError operation r (Code e) message requestID
     | None =>
         let summary := if (400 <=? StatusCode r) && (StatusCode r <? 500) && isAgentTextErrorBody (ContentType r) body
                        then truncateAgentHTTPErrorSummary (trim_space body) truncated else ""%string in
         formatAgentHTTPError operation r "" summary requestID
     end).
End Error.
End HttpError.

(** * Monitors: what reconcile leaves running *)
Module MonitorsProps.
Import Monitors.
Section Monitors.
Context {Header : Type} `{EqDecision Header}.
Abbreviation monitor := (Monitor Header).
Abbreviation manager := (monitorManager Header).

(** Each goroutine started is running for one monitor, or cancelled. *)
Record one_each (s : manager) : Prop := {
  oe_live id e : active s !! id = Some e -> (goroutine e < next s)%nat /\ goroutine e ∉ cancelled s;
  oe_one id id' e e' : active s !! id = Some e -> active s !! id' = Some e' -> goroutine e = goroutine e' -> id = id';
  oe_cancelled g : g ∈ cancelled s -> (g < next s)%nat;
  oe_all g : (g < next s)%nat -> g ∈ cancelled s \/ exists id e, active s !! id = Some e /\ goroutine e = g }.
Lemma one_each_new : one_each newMonitorManager.
Proof. split; simpl; try done; try lia. Qed.
Lemma stop_one_each desired s id e : active s !! id = Some e -> one_each s -> one_each (stop_one desired s (id, e)).
Proof.
  intros He [H1 H2 H3 H4]. unfold stop_one. simpl. destruct (stays desired id e); [by split|]. split; simpl.
  - intros i f [Hi Hf]%lookup_delete_Some. destruct (H1 _ _ Hf). split; [done|]. intros [Hg%elem_of_singleton|]%elem_of_union; [|done]. apply Hi. by eapply (H2 id i).
  - intros i j f g [_ Hf]%lookup_delete_Some [_ Hg]%lookup_delete_Some. by eapply H2.
  - intros g [->%elem_of_singleton|Hg]%elem_of_union; [by eapply H1|by apply H3].
  - intros g Hg. destruct (decide (g = goroutine e)) as [->|Hn]; [left; set_solver|]. destruct (H4 _ Hg) as [Hc|(i & f & Hf & <-)]; [left; set_solver|].
    right. exists i, f. split; [|done]. apply lookup_delete_Some. split; [|done]. intros <-. congruence.
Qed.
Lemma start_one_each s kv : one_each s -> one_each (start_one s kv).
Proof.
  intros [H1 H2 H3 H4]. destruct kv as [id m]. unfold start_one. simpl. destruct (active s !! id) eqn:E; [by split|]. split; simpl.
  - intros i f [[<- <-]|[Hn Hf]]%lookup_insert_Some; simpl; [split; [lia|intros Hc%H3; lia]|]. destruct (H1 _ _ Hf). split; [lia|done].
  - intros i j f g [[<- <-]|[Hn Hf]]%lookup_insert_Some [[<- <-]|[Hm Hg]]%lookup_insert_Some; simpl; [done|intros Eg; apply H1 in Hg; lia|intros Eg; apply H1 in Hf; lia|by eapply H2].
  - intros g Hg%H3. lia.
  - intros g Hg. destruct (decide (g = next s)) as [->|Hn]; [right; exists id, (mkEntry (next s) m); by rewrite lookup_insert, decide_True|].
    destruct (H4 g) as [Hc|(i & f & Hf & <-)]; [lia|by left|]. right. exists i, f. split; [|done]. rewrite lookup_insert_ne; [done|]. intros <-. congruence.
Qed.
(** Stopping visits each entry once. *)
Lemma stop_all desired l : forall s : manager, NoDup l.*1 -> (forall id e, (id, e) ∈ l -> active s !! id = Some e) -> one_each s ->
  let s' := foldl (stop_one desired) s l in
  one_each s' /\ next s' = next s /\ (forall id, active s' !! id = match active s !! id with Some e => if bool_decide ((id, e) ∈ l) && negb (stays desired id e) then None else Some e | None => None end) /\
  forall g, g ∈ cancelled s' <-> g ∈ cancelled s \/ exists id e, (id, e) ∈ l /\ stays desired id e = false /\ goroutine e = g.
Proof.
  induction l as [|[i f] l IH]; intros s Hd Hl Hs; simpl.
  - split; [done|]. split; [done|]. split; [intros id; by destruct (active s !! id)|]. intros g. split; [by left|]. intros [?|(? & ? & Hin & _)]; [done|by apply elem_of_nil in Hin].
  - apply NoDup_cons in Hd as [Hni Hd]. assert (Hf : active s !! i = Some f) by (apply Hl; by left). pose proof (stop_one_each desired s i f Hf Hs) as Hs1.
    assert (Ha : forall id, active (stop_one desired s (i, f)) !! id = if decide (id = i) then (if stays desired i f then Some f else None) else active s !! id).
    { intros id. unfold stop_one. simpl. destruct (stays desired i f); simpl; (destruct (decide (id = i)) as [->|Hn]; [|by rewrite ?lookup_delete_ne by done]); [done|by rewrite lookup_delete, decide_True]. }
    assert (Hc : forall g, g ∈ cancelled (stop_one desired s (i, f)) <-> g ∈ cancelled s \/ stays desired i f = false /\ goroutine f = g).
    { intros g. unfold stop_one. simpl. destruct (stays desired i f); simpl; set_solver. }
    assert (Hne : forall id e, (id, e) ∈ l -> id <> i) by (intros id e Hin ->; apply Hni, list_elem_of_fmap; by exists (i, e)).
    destruct (IH (stop_one desired s (i, f))) as (H1 & H2 & H3 & H4); [done| |done|].
    { intros id e Hin. rewrite Ha, decide_False by (by eapply Hne). apply Hl. by right. }
    split; [done|]. split; [rewrite H2; unfold stop_one; by destruct (stays _ _ _)|]. split.
    + intros id. rewrite H3, Ha. destruct (decide (id = i)) as [->|Hn].
      * rewrite Hf, (bool_decide_eq_true_2 ((i, f) ∈ (i, f) :: l)) by (by left). destruct (stays desired i f) eqn:Es; simpl; [|done].
        rewrite Es. by rewrite andb_false_r.
      * destruct (active s !! id) as [e|]; [|done]. rewrite (bool_decide_ext ((id, e) ∈ (i, f) :: l) ((id, e) ∈ l)); [done|].
        rewrite elem_of_cons. split; [intros [[= -> _]|]; done|by right].
    + intros g. rewrite H4, Hc. setoid_rewrite elem_of_cons. split.
      * intros [[?|[Hs' Hg]]|(id & e & ? & ? & ?)]; [by left|right; exists i, f; by auto|right; exists id, e; by auto].
      * intros [?|(id & e & [[= -> ->]|?] & ? & ?)]; [by left; left|by left; right|right; by exists id, e].
Qed.
Lemma start_all l : forall s : manager, NoDup l.*1 -> one_each s ->
  let s' := foldl start_one s l in
  one_each s' /\ (next s <= next s')%nat /\ cancelled s' = cancelled s /\
  (forall id e, active s !! id = Some e -> active s' !! id = Some e) /\
  forall id, active s !! id = None -> match active s' !! id with
    | Some e => (id, spec e) ∈ l /\ (next s <= goroutine e)%nat
    | None => id ∉ l.*1 end.
Proof.
  induction l as [|[i m] l IH]; intros s Hd Hs; simpl.
  - split; [done|]. split; [lia|]. split; [done|]. split; [done|]. intros id ->. apply not_elem_of_nil.
  - apply NoDup_cons in Hd as [Hni Hd]. destruct (IH (start_one s (i, m))) as (H1 & H2 & H3 & H4 & H5); [done|by apply start_one_each|].
    assert (Hcase : (is_Some (active s !! i) /\ start_one s (i, m) = s) \/ (active s !! i = None /\ start_one s (i, m) = mkManager (<[i := mkEntry (next s) m]> (active s)) (cancelled s) (S (next s)))).
    { unfold start_one. simpl. destruct (active s !! i); [left; split; [by eexists|done]|by right]. }
    split; [done|]. destruct Hcase as [[Hi Eq]|[Hi Eq]]; rewrite Eq in H2, H3, H4, H5; rewrite Eq; simpl in *.
    + split; [done|]. split; [done|]. split; [done|]. intros id Hid. specialize (H5 id Hid). destruct (active _ !! id) as [e|].
      * destruct H5. split; [by right|done].
      * intros [->|?]%elem_of_cons; [|done]. destruct Hi; congruence.
    + split; [lia|]. split; [done|]. split.
      * intros id e He. apply H4. rewrite lookup_insert_ne; [done|]. intros <-. congruence.
      * intros id Hid. destruct (decide (id = i)) as [->|Hn].
        -- rewrite (H4 i (mkEntry (next s) m)) by (by rewrite lookup_insert, decide_True). simpl. split; [by left|lia].
        -- specialize (H5 id). rewrite lookup_insert_ne in H5 by done. specialize (H5 Hid). destruct (active _ !! id) as [e|].
           ++ destruct H5 as [? ?]. split; [by right|lia].
           ++ intros [->|?]%elem_of_cons; done.
Qed.

(** C31: After reconcile exactly the assigned monitors run, one goroutine each.
    A monitor whose probe did not change keeps its goroutine, any other is
    started with its new definition, and exactly the goroutines of monitors no
    longer assigned or changed are cancelled. *)
Theorem monitors_exact monitors (s : manager) : one_each s -> let s' := reconcile monitors s in let desired := desired_of monitors in
  one_each s' /\ (forall id, is_Some (active s' !! id) <-> is_Some (desired !! id)) /\
  (forall id e d, active s' !! id = Some e -> desired !! id = Some d ->
     (active s !! id = Some e /\ monitorChanged (spec e) d = false) \/
     (spec e = d /\ (next s <= goroutine e)%nat /\ forall e0, active s !! id = Some e0 -> monitorChanged (spec e0) d = true)) /\
  forall g, g ∈ cancelled s' <-> g ∈ cancelled s \/ exists id e, active s !! id = Some e /\ stays desired id e = false /\ goroutine e = g.
Proof.
  intros Hs s' desired. destruct (stop_all desired (map_to_list (active s)) s) as (H1 & H2 & H3 & H4); [apply NoDup_fst_map_to_list|by intros id e H%elem_of_map_to_list|done|].
  set (s1 := foldl (stop_one desired) s (map_to_list (active s))) in *.
  destruct (start_all (map_to_list desired) s1) as (K1 & K2 & K3 & K4 & K5); [apply NoDup_fst_map_to_list|done|]. change (foldl start_one s1 (map_to_list desired)) with s' in *.
  assert (Ha : forall id, active s1 !! id = match active s !! id with Some e => if stays desired id e then Some e else None | None => None end).
  { intros id. rewrite H3. destruct (active s !! id) as [e|] eqn:E; [|done]. rewrite bool_decide_eq_true_2 by (by apply elem_of_map_to_list). by destruct (stays desired id e). }
  assert (Hkept : forall id e, active s1 !! id = Some e -> active s !! id = Some e /\ exists d, desired !! id = Some d /\ monitorChanged (spec e) d = false).
  { intros id e. rewrite Ha. destruct (active s !! id) as [e'|]; [|done]. unfold stays. destruct (desired !! id) as [d|]; [|done].
    destruct (monitorChanged (spec e') d) eqn:Ec; [done|]. intros [= <-]. split; [done|]. by exists d. }
  split; [done|]. split; [|split].
  - intros id. destruct (active s1 !! id) as [e|] eqn:E1.
    + rewrite (K4 _ _ E1). destruct (Hkept _ _ E1) as (_ & d & -> & _). split; by eexists.
    + specialize (K5 id E1). destruct (active s' !! id) as [e|].
      * destruct K5 as [->%elem_of_map_to_list _]. split; by eexists.
      * split; [by intros [? ?]|]. intros [d Hd]. exfalso. apply K5, list_elem_of_fmap. exists (id, d). split; [done|]. by apply elem_of_map_to_list.
  - intros id e d He Hd. destruct (active s1 !! id) as [e1|] eqn:E1.
    + rewrite (K4 _ _ E1) in He. injection He as <-. destruct (Hkept _ _ E1) as (H & d' & Hd' & Hc). left. split; [done|]. congruence.
    + specialize (K5 id E1). rewrite He in K5. destruct K5 as [Hin%elem_of_map_to_list Hg]. right. split; [congruence|]. split; [lia|].
      intros e0 He0. rewrite Ha, He0 in E1. unfold stays in E1. rewrite Hd in E1. by destruct (monitorChanged (spec e0) d).
  - intros g. rewrite K3, H4. by setoid_rewrite elem_of_map_to_list.
Qed.
End Monitors.
End MonitorsProps.

(** * The commands given to nft *)
Module NftSetProps.
Import NetIP NftSet.

Lemma run_commands_app runner a b : run_commands runner (a ++ b) =
  let (done, err) := run_commands runner a in match err with Some e => (done, Some e) | None => let (done', err') := run_commands runner b in (done ++ done', err') end.
Proof.
  induction a as [|c a IH]; simpl; [by destruct (run_commands runner b)|]. destruct (runner c); [done|]. rewrite IH.
  destruct (run_commands runner a) as [pre [e|]]; [done|]. by destruct (run_commands runner b).
Qed.
(** Every command succeeded, or the last one given failed. *)
Definition outcome (runner : list string -> option string) (wanted cmds : list (list string)) (err : option set_error) : Prop :=
  (err = None /\ cmds = wanted /\ Forall (fun c => runner c = None) cmds) \/
  exists pre c post e, wanted = pre ++ c :: post /\ cmds = pre ++ [c] /\ Forall (fun c => runner c = None) pre /\ runner c = Some e /\ err = Some (CommandFailed e).
Lemma run_outcome runner wanted : let (cmds, err) := run_commands runner wanted in outcome runner wanted cmds err.
Proof.
  induction wanted as [|c l IH]; simpl; [by left|]. destruct (runner c) as [e|] eqn:E; [right; exists [], c, l, e; by repeat split|].
  destruct (run_commands runner l) as [given err]. destruct IH as [(-> & -> & H)|(pre & d & post & e & -> & -> & H & Hd & ->)].
  - left. split; [done|]. split; [done|]. by constructor.
  - right. exists (c :: pre), d, post, e. split; [done|]. split; [done|]. split; [by constructor|done].
Qed.

Section Sets.
Context (ParseIP_ : string -> option IP) (IPString : IP -> string).
Definition address (v4 : bool) (values : list string) (s : string) : Prop :=
  exists v ip, v ∈ values /\ ParseIP_ (trim_space v) = Some ip /\ is4 ip = v4 /\ s = IPString ip.
Lemma canonical_spec v4 v s : canonical ParseIP_ IPString v4 v = Some s <-> exists ip, ParseIP_ (trim_space v) = Some ip /\ is4 ip = v4 /\ s = IPString ip.
Proof.
  unfold canonical. destruct (ParseIP_ (trim_space v)) as [ip|]; [|naive_solver]. destruct (Bool.eqb (is4 ip) v4) eqn:E.
  - apply eqb_prop in E. naive_solver.
  - apply eqb_false_iff in E. naive_solver.
Qed.
Lemma unique_addresses v4 values : NoDup (foldl (unique_step ParseIP_ IPString v4) [] values) /\
  forall s, s ∈ foldl (unique_step ParseIP_ IPString v4) [] values <-> address v4 values s.
Proof.
  induction values as [|v values [IHd IH]] using rev_ind.
  { split; [constructor|]. intros s. split; [intros H; by apply elem_of_nil in H|intros (? & ? & H & _); by apply elem_of_nil in H]. }
  rewrite foldl_snoc. unfold unique_step at 1 3. set (out := foldl _ _ values) in *.
  assert (Ha : forall s, address v4 (values ++ [v]) s <-> address v4 values s \/ canonical ParseIP_ IPString v4 v = Some s).
  { intros s. rewrite canonical_spec. unfold address. setoid_rewrite elem_of_app. setoid_rewrite list_elem_of_singleton. split.
    - intros (w & ip & [Hw| ->] & ?); [left; by exists w, ip|right; by exists ip].
    - intros [(w & ip & ? & ?)|(ip & ?)]; [exists w, ip; by split; [left|]|exists v, ip; by split; [right|]]. }
  destruct (canonical ParseIP_ IPString v4 v) as [t|]; [|split; [done|]; intros s; rewrite Ha, IH; naive_solver]. case_bool_decide as Ht.
  - split; [done|]. intros s. rewrite Ha, IH. split; [by left|]. intros [?|[= <-]]; [done|by apply IH].
  - split.
    + apply NoDup_app. split; [done|]. split; [|apply NoDup_singleton]. intros x Hx ->%list_elem_of_singleton. done.
    + intros s. rewrite Ha, elem_of_app, IH, list_elem_of_singleton. naive_solver.
Qed.
Lemma ip_leb_total a b : ip_leb ParseIP_ a b = true \/ ip_leb ParseIP_ b a = true.
Proof. unfold ip_leb. destruct (ParseIP_ a), (ParseIP_ b); try (by left); try (by right). rewrite !Z.leb_le. lia. Qed.
(** The addresses of a family: those resolved, once each, in order. *)
Definition addresses_exact (v4 : bool) (values l : list string) : Prop :=
  NoDup l /\ Sorted (fun a b => ip_leb ParseIP_ a b = true) l /\ forall s, s ∈ l <-> address v4 values s.
Lemma unique_sorted v4 values : addresses_exact v4 values (uniqueSortedIPs ParseIP_ IPString values v4).
Proof.
  destruct (unique_addresses v4 values) as [Hd Hs]. pose proof (insertion_sort_perm (ip_leb ParseIP_) (foldl (unique_step ParseIP_ IPString v4) [] values)) as Hp.
  split; [by unfold uniqueSortedIPs; rewrite Hp|]. split; [apply insertion_sort_sorted, ip_leb_total|]. intros s. unfold uniqueSortedIPs. by rewrite Hp.
Qed.
Definition named (s : string) : Prop := s = ""%string \/ nftIdent s = true.
Definition wanted (c : nftDomainSetConfig) (v4 v6 : list string) : list (list string) :=
  (if String.eqb (Set_ c) "" then [] else set_commands (Family c) (Table c) (Set_ c) v4) ++
  (if String.eqb (Set6 c) "" then [] else set_commands (Family c) (Table c) (Set6 c) v6).

(** The update as it should go: the names are valid, the lookup answered, a set
    asked for has an address, and the commands are those of the sets. *)
Definition carried_out (resolver : string -> string + list string) (runner : list string -> option string) (c : nftDomainSetConfig)
    (cmds : list (list string)) (err : option set_error) : Prop :=
  exists host addrs v4 v6, normalizeNFTDomainHost (Host c) = inr host /\ dnsHost host = true /\ resolver host = inr addrs /\
    Family c ∈ ["inet"; "ip"; "ip6"]%string /\ nftIdent (Table c) = true /\ named (Set_ c) /\ named (Set6 c) /\
    addresses_exact true addrs v4 /\ addresses_exact false addrs v6 /\ (Set_ c <> ""%string /\ v4 <> [] \/ Set6 c <> ""%string /\ v6 <> []) /\
    outcome runner (wanted c v4 v6) cmds err.
Lemma host_valid h host : normalizeNFTDomainHost h = inr host -> dnsHost host = true.
Proof.
  unfold normalizeNFTDomainHost. destruct (dnsHost _) eqn:Ed; [|by rewrite orb_true_r]. destruct (_ || _); [done|]. destruct (existsb _ _); [done|]. by intros [= <-].
Qed.
Lemma target_valid c : validateNFTSetTarget c = None -> Family c ∈ ["inet"; "ip"; "ip6"]%string /\ nftIdent (Table c) = true /\ named (Set_ c) /\ named (Set6 c) /\
  (Set_ c <> ""%string \/ Set6 c <> ""%string).
Proof.
  unfold validateNFTSetTarget, named. case_bool_decide as Hf; [|done]. simpl. destruct (String.eqb_spec (Set_ c) "") as [E4|E4]; destruct (String.eqb_spec (Set6 c) "") as [E6|E6]; simpl; try done.
  all: rewrite ?andb_false_r, ?andb_true_r; repeat (destruct (String.eqb (Family c) _); [done|]); destruct (nftIdent (Table c)); [|done]; simpl.
  all: try (destruct (nftIdent (Set_ c)); [|done]); simpl; try (destruct (nftIdent (Set6 c)); [|done]); intros _; tauto.
Qed.
Lemma some_records c host v4 v6 : no_records c host v4 v6 = None -> Set_ c <> ""%string \/ Set6 c <> ""%string ->
  Set_ c <> ""%string /\ v4 <> [] \/ Set6 c <> ""%string /\ v6 <> [].
Proof.
  unfold no_records. destruct (String.eqb_spec (Set_ c) "") as [E4|E4]; destruct (String.eqb_spec (Set6 c) "") as [E6|E6]; simpl; destruct v4, v6; try done; intros _ H; try tauto.
  all: try (left; by split); try (right; by split).
Qed.

(** C21: Nothing is given to nft unless the host name, the family and every name
    are valid, the lookup answered, and a set asked for gets an address. Then
    each set asked for is flushed and filled with the addresses of its family,
    once each and in order, and the first command that fails ends the update. *)
Theorem nft_update_exact resolver runner c : let (cmds, err) := updateNFTDomainSet ParseIP_ IPString resolver runner c in
  (cmds = [] /\ err <> None) \/ carried_out resolver runner c cmds err.
Proof.
  unfold updateNFTDomainSet. destruct (normalizeNFTDomainHost (Host c)) as [|host] eqn:Eh; [by left|].
  destruct (validateNFTSetTarget c) as [|] eqn:Ev; [by left|]. destruct (resolver host) as [|addrs] eqn:Er; [by left|]. cbv zeta.
  pose proof (unique_sorted true addrs) as H4. pose proof (unique_sorted false addrs) as H6.
  set (v4 := uniqueSortedIPs ParseIP_ IPString addrs true) in *. set (v6 := uniqueSortedIPs ParseIP_ IPString addrs false) in *.
  destruct (no_records c host v4 v6) as [|] eqn:En; [by left|]. destruct (target_valid c Ev) as (Hf & Ht & Hs & Hs6 & Hany).
  assert (Hrun : let (cmds, err) := run_commands runner (wanted c v4 v6) in (cmds = [] /\ err <> None) \/ carried_out resolver runner c cmds err).
  { pose proof (run_outcome runner (wanted c v4 v6)) as Ho. destruct (run_commands _ _) as [cmds err]. right. exists host, addrs, v4, v6.
    pose proof (host_valid _ _ Eh). pose proof (some_records _ _ _ _ En Hany). done. }
  unfold wanted in Hrun. rewrite run_commands_app in Hrun. unfold updateNFTSet. destruct (String.eqb (Set_ c) ""), (String.eqb (Set6 c) ""); simpl in *.
  all: repeat (destruct (run_commands _ _) as [? [?|]]); rewrite ?app_nil_r in *; done.
Qed.
End Sets.
End NftSetProps.

(** * Settings, addresses and debug lines *)
Module AgentNodeProps.
Import NodeConfig DebugSink RemoteConfig NodeAddresses NetIP.

(** Dropping the server's override gives back the flags of the start-up, which
    no override touches. *)
Definition startup (c : agentConfig) := (startupIPMode c, startupIPResolvers c, startupStaticPubV4 c, startupStaticPubV6 c, startupIPScript c).
Definition in_force (c : agentConfig) := (IPMode c, IPResolvers c, staticPublicIP c, staticPublicIPv6 c, ipScript c).
Lemma override_keeps_startup ipc c last : startup (applyIPConfigOverride ipc c last).1 = startup c.
Proof. unfold applyIPConfigOverride, startup. destruct ipc as [i|]; [|done]. by destruct (negb _). Qed.
Lemma override_reverts overrides c last : let c' := foldl (fun c i => (applyIPConfigOverride i c last).1) (keep_startup c) overrides in
  in_force (applyIPConfigOverride None c' last).1 = in_force (keep_startup c).
Proof.
  intros c'. assert (H : startup c' = startup (keep_startup c)).
  { unfold c'. induction overrides as [|i l IH] using rev_ind; [done|]. by rewrite foldl_snoc, override_keeps_startup. }
  change (startup c' = in_force (keep_startup c)). rewrite H. done.
Qed.
(** A changed setting is probed at once. *)
Lemma changed_probes_now ipc c last : let r := applyIPConfigOverride ipc c last in in_force r.1 = in_force c \/ r.2 = 0.
Proof.
  unfold applyIPConfigOverride. cbv zeta. set (c' := match ipc with Some i => _ | None => _ end). simpl.
  destruct (same_ip_settings c' c) eqn:E; [left|by right]. unfold same_ip_settings in E. rewrite !andb_true_iff, !String.eqb_eq in E.
  unfold in_force. by destruct E as [[[[-> ->] ->] ->] ->].
Qed.

Section Addresses.
Context (ParseIP_ : string -> option IP) (IPString : IP -> string).
(** Where a reported address comes from: it is the one before, a flag, or an
    address of its family that is public. *)
Definition public_of (four : bool) (s : string) : Prop := exists raw ip, ParseIP_ raw = Some ip /\ is4 ip = four /\ s = IPString ip /\ IsGlobalUnicast ip = true /\ IsPrivate ip = false.
Lemma public_ip ip : isPublicIP (Some ip) = true -> IsGlobalUnicast ip = true /\ IsPrivate ip = false.
Proof. unfold isPublicIP. destruct (IsGlobalUnicast ip); [|done]. by destruct (IsPrivate ip). Qed.
Lemma discovery_public l : forall v4 v6, (v4 = ""%string \/ public_of true v4) -> (v6 = ""%string \/ public_of false v6) ->
  let r := discovery_fields ParseIP_ IPString l v4 v6 in (r.1 = ""%string \/ public_of true r.1) /\ (r.2 = ""%string \/ public_of false r.2).
Proof.
  induction l as [|f l IH]; intros v4 v6 H4 H6; [done|]. cbn [discovery_fields]. destruct (ParseIP_ (trim_list f)) as [ip|] eqn:E; [|by apply IH].
  destruct (isPublicIP (Some ip)) eqn:Ep; [|by apply IH]. cbn [negb]. destruct (public_ip ip Ep) as [Hg Hp].
  destruct (is4 ip) eqn:E4; cbv iota beta.
  - assert (H4' : (if String.eqb v4 "" then IPString ip else v4) = ""%string \/ public_of true (if String.eqb v4 "" then IPString ip else v4)).
    { destruct (String.eqb v4 ""); [|done]. right. exists (trim_list f), ip. done. }
    destruct (negb _ && negb _); [done|]. by apply IH.
  - assert (H6' : (if String.eqb v6 "" then IPString ip else v6) = ""%string \/ public_of false (if String.eqb v6 "" then IPString ip else v6)).
    { destruct (String.eqb v6 ""); [|done]. right. exists (trim_list f), ip. done. }
    destruct (negb _ && negb _); [done|]. by apply IH.
Qed.
Lemma usable_public v4 s : HostFactsProps.usable ParseIP_ IPString v4 s -> public_of v4 s.
Proof.
  intros (raw & ip & Hp & H4 & Hr & ->). exists raw, ip. split; [done|]. split; [done|]. split; [done|].
  unfold IpDiscover.routable in Hr. destruct (IsPrivate ip); [by rewrite orb_true_r in Hr|]. destruct (_ || _); [done|]. done.
Qed.
Definition accounted (c : agentConfig) (four : bool) (before flag s : string) : Prop := s = before \/ s = flag \/ s = ""%string \/ public_of four s.
Lemma refreshed_accounted o now c last : let c' := (refreshIPs ParseIP_ IPString o now c last).1 in
  accounted c true (PublicIP c) (staticPublicIP c) (PublicIP c') /\ accounted c false (PublicIPv6 c) (staticPublicIPv6 c) (PublicIPv6 c').
Proof.
  unfold refreshIPs, accounted. cbv zeta. generalize (IpDiscover.InternalIPs IPString (o_interfaces o)). intros internal.
  change (IPMode (set_internal internal c)) with (IPMode c). destruct (String.eqb _ "static"); [split; right; by left|].
  destruct (negb _ && _); [split; by left|]. destruct (String.eqb _ "script").
  - unfold runIPDiscoveryScript. destruct (String.eqb _ ""); [split; by left|]. destruct (_ || _); [split; by left|].
    destruct (parseIPDiscoveryOutput _ _ _) as [v4 v6] eqn:E. destruct (_ && _); [split; by left|]. cbn.
    destruct (discovery_public (fields (Stdout (o_run o (ipDiscoveryInterpreter (trim_space (ipScript (set_internal internal c)))) (trim_space (ipScript (set_internal internal c)))))) "" "") as [H4 H6]; [by left..|].
    unfold parseIPDiscoveryOutput in E. rewrite E in H4, H6. simpl in H4, H6. split; right; right; tauto.
  - unfold probe_pair. cbn [IPResolvers set_internal].
    pose proof (HostFactsProps.public_usable ParseIP_ IPString (o_answer o) (resolverList (IPResolvers c) true) true) as H4.
    pose proof (HostFactsProps.public_usable ParseIP_ IPString (o_answer o) (resolverList (IPResolvers c) false) false) as H6. cbv zeta in H4, H6.
    assert (H4' : forall x, x = IpDiscover.PublicIP ParseIP_ IPString (o_answer o) (resolverList (IPResolvers c) true) true -> x = ""%string \/ public_of true x)
      by (intros x ->; destruct H4; [by left|right; by apply usable_public]).
    assert (H6' : forall x, x = IpDiscover.PublicIP ParseIP_ IPString (o_answer o) (resolverList (IPResolvers c) false) false -> x = ""%string \/ public_of false x)
      by (intros x ->; destruct H6; [by left|right; by apply usable_public]).
    destruct (String.eqb _ "resolver"); cbn.
    + split; right; right; [by apply H4'|by apply H6'].
    + unfold firstNonEmpty. split; [destruct (String.eqb (trim_space (staticPublicIP c)) "")|destruct (String.eqb (trim_space (staticPublicIPv6 c)) "")]; (try (right; by left));
        right; right; [by apply H4'|by apply H6'].
Qed.
End Addresses.

(** The sink keeps its newest lines, at most [maxLines]. *)
Definition sink_ok (s : debugSink) : Prop := 0 < maxLines s /\ Z.of_nat (length (lines s)) <= maxLines s.
Lemma keep_last_length max l : 0 <= max -> Z.of_nat (length (keep_last max l)) = Z.min max (Z.of_nat (length l)).
Proof. intros H. unfold keep_last. rewrite length_drop. lia. Qed.
Lemma keep_last_all max l : Z.of_nat (length l) <= max -> keep_last max l = l.
Proof. intros H. unfold keep_last. by replace (Z.to_nat _) with 0%nat by lia. Qed.
Lemma sink_append_ok line max s : sink_ok s -> sink_ok (append line max s).
Proof. intros [H1 H2]. unfold append. destruct (String.eqb _ ""); [done|]. split; [done|]. simpl. rewrite keep_last_length by lia. lia. Qed.
Lemma appends_ok l : forall s, sink_ok s -> sink_ok (foldl (fun s l => append l.1 l.2 s) s l).
Proof. induction l as [|x l IH]; intros s H; [done|]. by apply IH, sink_append_ok. Qed.
Lemma drain_ok max s : sink_ok s -> sink_ok (drain max s).2 /\ (drain max s).1 ++ lines (drain max s).2 = lines s.
Proof. intros [H1 H2]. unfold drain. simpl. split; [|apply take_drop]. split; [done|]. simpl. rewrite length_drop. lia. Qed.
Lemma flush_ok post during c s : sink_ok s -> sink_ok (flushDebugEvents post during c s).1.
Proof.
  intros H. unfold flushDebugEvents. destruct (negb _); [done|]. destruct (drain_ok (DebugMaxBatchLines c) s H) as [H1 _]. destruct (drain _ s) as [batch s1]. simpl in H1.
  destruct batch as [|x batch]; [done|]. pose proof (appends_ok during s1 H1) as [H2 H3]. destruct (post _); [|done]. split; [done|]. simpl. rewrite keep_last_length by lia. lia.
Qed.
(** A batch that cannot be sent is put back before what came meanwhile. *)
Lemma flush_failed post c s e batch : sink_ok s -> DebugCollect c = true -> post batch = Some e -> batch = (drain (DebugMaxBatchLines c) s).1 -> batch <> [] ->
  flushDebugEvents post [] c s = (s, Some e).
Proof.
  intros H Hc Hp -> Hne. unfold flushDebugEvents. rewrite Hc. cbn [negb]. destruct (drain_ok (DebugMaxBatchLines c) s H) as [_ Hl]. destruct (drain (DebugMaxBatchLines c) s) as [batch s1] eqn:E.
  cbn [fst snd] in Hp, Hne, Hl. destruct batch as [|x batch]; [done|]. cbn [foldl]. rewrite Hp. assert (maxLines s1 = maxLines s) as Hm by (unfold drain in E; by injection E as _ <-).
  cbn [prepend foldl]. rewrite Hl, Hm, keep_last_all by apply H. by destruct s.
Qed.

(** ** The rest *)
(** Only capabilities the agent knows are reported, whatever the script says. *)
Lemma caps_known discover bin probe now p : Forall (fun c => exists name, name ∈ ScriptCaps.knownSingBoxCaps /\ c = ("sb:" +:+ name)%string) (ScriptCaps.caps p) ->
  Forall (fun c => exists name, name ∈ ScriptCaps.knownSingBoxCaps /\ c = ("sb:" +:+ name)%string) (ScriptCaps.refresh discover bin probe now p).1.
Proof.
  intros Hp. unfold ScriptCaps.refresh. destruct (negb discover); [constructor|]. destruct (_ && _); [done|]. simpl. unfold ScriptCaps.allowedSingBoxCaps, sort_strings.
  rewrite insertion_sort_perm. generalize (match probe bin with inl _ => [] | inr names => names end). intros names.
  induction names as [|n names IH] using rev_ind; [constructor|]. rewrite foldl_snoc. unfold ScriptCaps.allow_step at 1. case_bool_decide as Hn; [|done]. simpl.
  case_bool_decide; [done|]. apply Forall_app. split; [done|]. constructor; [|constructor]. by exists n.
Qed.
(** The token goes out in clear text only to this machine or when that was
    asked for. *)
Lemma cleartext_refused ParseIP_ parse raw insecure : Startup.checkServerTransport ParseIP_ parse raw insecure = None ->
  exists scheme host, parse raw = inr (scheme, host) /\ (scheme = "https"%string \/ scheme = "http"%string /\ (Startup.isLoopbackHost ParseIP_ host = true \/ insecure = true)).
Proof.
  unfold Startup.checkServerTransport. destruct (parse raw) as [|[scheme host]]; [done|]. destruct (String.eqb_spec scheme "https") as [->|]; [intros _; exists "https"%string, host; auto|].
  destruct (String.eqb_spec scheme "http") as [->|]; [|done]. intros H. exists "http"%string, host. split; [done|]. right. split; [done|].
  destruct (Startup.isLoopbackHost ParseIP_ host); [by left|]. destruct insecure; [by right|done].
Qed.
Lemma transaction_dir_absolute d l cache r : Startup.linechainTransactionDir d l cache = inr r -> path_abs r = true /\ r <> "/"%string.
Proof.
  unfold Startup.linechainTransactionDir. destruct (if String.eqb _ _ then _ else _) as [|dir]; [done|]. destruct (path_abs (path_clean dir)) eqn:Ea; [|done].
  destruct (String.eqb_spec (path_clean dir) "/") as [E|E]; simpl; [done|]. by intros [= <-].
Qed.
Lemma no_exec_wins euid s : Startup.NoExec s = true -> let s' := Startup.terminal_gate euid (Startup.kill_switch s) in
  Startup.AllowExec s' = false /\ Startup.AllowTerminal s' = false.
Proof. unfold Startup.kill_switch. intros ->. done. Qed.
Lemma root_terminal_needs_consent s : Startup.AllowTerminal (Startup.terminal_gate 0 s) = true -> Startup.AllowRoot s = true.
Proof. unfold Startup.terminal_gate. destruct (Startup.AllowTerminal s) eqn:E, (Startup.AllowRoot s); simpl; congruence. Qed.
(** While recovery is blocked an idle agent runs nothing else. *)
Lemma blocked_runs_nothing {S} (recover : S -> S * option string) step blocked s s' e : recover s = (s', Some e) ->
  WorkLoop.cycle true recover step blocked s = ([Keepalive.stepLinechainRecovery], Some e, s').
Proof. unfold WorkLoop.cycle. by intros ->. Qed.
End AgentNodeProps.

(** * Examples *)
Module AgentNodeSample.
Import NetIP NodeConfig NodeAddresses.

Definition parse (s : string) : option IP :=
  if String.eqb s "8.8.8.8" then Some (ip4 8 8 8 8) else if String.eqb s "1.1.1.1" then Some (ip4 1 1 1 1) else if String.eqb s "100.64.0.1" then Some (ip4 100 64 0 1)
  else if String.eqb s "2606::1" then Some (Z.lor (Z.shiftl 0x2606 112) 1) else if String.eqb s "127.0.0.1" then Some (ip4 127 0 0 1) else None.
Definition print (ip : IP) : string :=
  if Z.eqb ip (ip4 8 8 8 8) then "8.8.8.8" else if Z.eqb ip (ip4 1 1 1 1) then "1.1.1.1" else if Z.eqb ip (ip4 100 64 0 1) then "100.64.0.1" else "2606::1".
Definition base : agentConfig := mkConfig false false false false 0 0 "" "resolver" "http://r" "" "" "" "" "" "" "" "" "8.8.8.8" "" "" "".
Definition silent : outside := mkOutside None (fun _ => None) (fun _ _ => mkScript 1 "" "" "boom").
(** A resolver that does not answer clears the address; a script that fails
    keeps it. *)
Lemma failed_probe_clears :
  PublicIP (refreshIPs parse print silent 1000 base 0).1 = ""%string /\
  PublicIP (refreshIPs parse print silent 1000 (base <| IPMode := "script"%string |> <| ipScript := "x"%string |>) 0).1 = "8.8.8.8"%string.
Proof. vm_compute. done. Qed.
Example throttled : PublicIP (refreshIPs parse print silent (3 * minute) base (2 * minute)).1 = "8.8.8.8"%string.
Proof. vm_compute. reflexivity. Qed.
(** The shared address space is refused to a script but not to a resolver. *)
Example shared_space : parseIPDiscoveryOutput parse print "100.64.0.1, 8.8.8.8;" = ("8.8.8.8", "")%string /\
  PublicIP (refreshIPs parse print (mkOutside None (fun _ => Some (200, "100.64.0.1"%string)) (fun _ _ => mkScript 0 "" "" "")) 1000 base 0).1 = "100.64.0.1"%string.
Proof. vm_compute. done. Qed.

Import NftSet.
Definition set4 : nftDomainSetConfig := mkSet " Example.org. " "inet" "fw" "cp4" "cp6".
Definition lookup (host : string) : string + list string := inr ["8.8.8.8"; "2606::1"; "1.1.1.1"; "8.8.8.8"; "x"]%string.
Example set_updated : updateNFTDomainSet parse print lookup (fun _ => None) set4 =
  ([["flush"; "set"; "inet"; "fw"; "cp4"]; ["add"; "element"; "inet"; "fw"; "cp4"; "{ 1.1.1.1, 8.8.8.8 }"];
    ["flush"; "set"; "inet"; "fw"; "cp6"]; ["add"; "element"; "inet"; "fw"; "cp6"; "{ 2606::1 }"]]%string, None).
Proof. vm_compute. reflexivity. Qed.
Example set_refused : map (fun c => snd (updateNFTDomainSet parse print lookup (fun _ => None) c))
    [mkSet "a_b" "inet" "fw" "s" ""; mkSet "a" "inet" "fw; x" "s" ""; mkSet "a" "ip" "fw" "" "s"; mkSet "a" "inet" "fw" "" ""] =
  [Some (InvalidHost "a_b"); Some (BadTable "fw; x"); Some Set6NeedsInet; Some NoSet].
Proof. vm_compute. reflexivity. Qed.
Example add_fails : updateNFTDomainSet parse print lookup (fun c => if bool_decide ("add"%string ∈ c) then Some "no set"%string else None) set4 =
  ([["flush"; "set"; "inet"; "fw"; "cp4"]; ["add"; "element"; "inet"; "fw"; "cp4"; "{ 1.1.1.1, 8.8.8.8 }"]]%string, Some (CommandFailed "no set")).
Proof. vm_compute. reflexivity. Qed.

Import Monitors.
Definition mon (id target name : string) : Monitor unit := mkMonitor id "icmp" target "" 10 5 3 0 "" [] name "" "" [].
Definition running : monitorManager unit := reconcile [mon "a" "1.1.1.1" ""; mon "b" "8.8.8.8" ""]%string newMonitorManager.
Lemma running_ok : MonitorsProps.one_each running.
Proof. destruct (MonitorsProps.stop_all (Header := unit) ∅ [] newMonitorManager) as [H _]; [constructor|intros ? ? H; by apply elem_of_nil in H|apply MonitorsProps.one_each_new|].
  unfold running, reconcile. apply MonitorsProps.start_all; [apply NoDup_fst_map_to_list|done]. Qed.
Lemma monitors_exact_witness : let s' := reconcile [mon "a" "1.1.1.1" ""; mon "b" "9.9.9.9" ""; mon "c" "8.8.8.8" ""]%string running in
  MonitorsProps.one_each running /\ MonitorsProps.one_each s' /\ (goroutine <$> active s' !! "a"%string) = (goroutine <$> active running !! "a"%string) /\
  (Target <$> (spec <$> active s' !! "b"%string)) = Some "9.9.9.9"%string /\ elements (cancelled s') = [1%nat].
Proof.
  intros s'. split; [apply running_ok|]. split; [exact (proj1 (MonitorsProps.monitors_exact _ running running_ok))|]. vm_compute. done.
Defined.
Example intervals : map run_interval [mon "a" "" ""] = [10 * second] /\ run_interval (mkMonitor (Header := unit) "a" "" "" "" 0 0 0 0 "" [] "" "" "" []) = 30 * second.
Proof. vm_compute. done. Qed.

Example vetoes : map Startup.envVeto [""; " No "; "0"; "yes"; "LATTICE"]%string = [false; false; false; true; true].
Proof. vm_compute. reflexivity. Qed.
Example directories : Startup.linechainTransactionDir "" "/var/lib/lattice/" (inl "no cache"%string) = inr "/var/lib/lattice/linechain-txn"%string /\
  Startup.linechainTransactionDir " /.. " "" (inl ""%string) = inl "linechain transaction directory must be absolute and non-root"%string.
Proof. vm_compute. done. Qed.
Example login_source : Startup.sshLogSource (fun n => if String.eqb n "tail" then Some "/bin/tail"%string else None) (fun p => String.eqb p "/var/log/secure") =
  Some ("/bin/tail", ["-n"; "0"; "-F"; "/var/log/secure"])%string.
Proof. vm_compute. reflexivity. Qed.
Example caps_read : (ScriptCaps.refresh true "sb" (fun b => ScriptCaps.Caps (fun _ => inr (true, Some [Some "user-park"; None; Some "x; rm"; Some " user-lock "]%string)) (fun _ _ _ => inr ""%string) b 0) 5
    (ScriptCaps.mkProbe false 0 "" [])).1 = ["sb:user-lock"; "sb:user-park"]%string.
Proof. vm_compute. reflexivity. Qed.
Example refused_text : HttpError.text (HttpError.agentHTTPError (fun c => if c =? 409 then "Conflict"%string else ""%string) (fun b => if String.eqb b "J" then Some (HttpError.mkAPIError " busy " "" "r2") else None) (fun t => Some t)
    (HttpError.mkResponse 409 "409" " r1 " "text/plain" (Some "J"%string)) "post x") = "post x: server returned 409 Conflict: busy: Conflict (request_id=r2)"%string /\
  HttpError.text (HttpError.agentHTTPError (fun c => ""%string) (fun b => None) (fun t => Some t) (HttpError.mkResponse 499 " odd " "" "text/plain" (Some " why "%string)) "op") = "op: server returned odd: why"%string.
Proof. vm_compute. done. Qed.
End AgentNodeSample.
